(* ===== verification/_CoqProject ===== *)
-Q . S2P
Prelude.v
Text.v
Unicode.v
Store.v
Records.v
Concrete.v
Reindex.v
SourceHead.v
Registry.v
Rules.v
RulesSpec.v
Ownership.v
Adoption.v
ConcreteRules.v
Revisions.v
Lifecycle.v
OwnershipSpec.v
AdoptionSpec.v
Machine.v
HeadSpec.v
ReindexSpec.v
RegistrySpec.v
Discussions.v
DiscussionsSpec.v
Coordinator.v
Cards.v
CardsSpec.v
Witnesses.v
RuleWitnesses.v
Paths.v
Namespaces.v
Ids.v
Checkpoint.v
F64.v
Memory.v
Safety.v
Decision.v
Rollout.v
Replay.v
DecisionSpec.v
RolloutSpec.v
FileSystem.v
SafePath.v
Graph.v
GraphRows.v
GraphSpec.v
GraphRefine.v
GraphQuery.v
Coupling.v
Clustering.v
GraphWitnesses.v
Resolve.v
Traverse.v
PathSearch.v
CentralityCache.v
ResolveSpec.v
Chunking.v
DocStore.v
DocStoreSpec.v
DocStoreWitnesses.v
FloatBounds.v
Evidence.v
Ranking.v
RankingSpec.v
Status.v
Planner.v
CalleeSet.v
AskReport.v
RankingWitnesses.v
Snapshots.v
SnapshotsSpec.v
SnapshotsHistory.v
SnapshotsRetire.v
SnapshotsWitnesses.v
SnapshotsRecovery.v
CycleSearch.v
MigrationOrder.v
Progress.v
AnalysisWitnesses.v
