(* ===== verification/Prelude.v ===== *)
(** * Engram: the durable state and the decisions of an MCP code-memory server

    Engram keeps what it knows about a code base in embedded stores and lets
    agents query and change it. This development translates the parts of its
    Rust crates where a mistake would lose, leak or corrupt state, or let an
    automated change through, into executable definitions, and proves what they
    promise. A definition carries the name of the Rust item it translates;
    sources are named below under [src/crates/].

    ** The program's parts and the files that model them

    - Foundations. [Prelude.v]: the result monad of fallible Rust code (an
      [anyhow] message, a decoding error, or a panic) and the lemmas and tactics
      shared by the files. [Text.v], [Unicode.v]: Rust strings as byte strings,
      decimal and UTF-8, white space, lower case and the lossy reading of bytes.
      [F64.v]: binary64 and binary32, with [FloatBounds.v] on the bounds that
      survive rounding.
      [Store.v]: a redb database, its tables in key order and its transactions.
    - The registry ([engram_core/src/registry.rs] and [registry/]): one database
      of projects, memory sections, rules, watches, jobs and metadata.
      [Store.v] also checks the components of composite keys; [Records.v] has the
      rows; [Registry.v] the plain operations; [Reindex.v] the durable reasons
      to reindex with the database-wide revision sequence; [SourceHead.v] the
      published generation of a project, its tokens and its recovery;
      [Rules.v], [Collect.v], [Ownership.v], [Adoption.v] the repository rules,
      the receipts that claim them, their bounded inventory and the adoption of
      legacy rules; [Cards.v] the bounded cache of change cards;
      [Discussions.v] the captured review discussions, their quota and pages.
      [Machine.v], [Revisions.v] and [Lifecycle.v] compose every mutating
      operation into one step relation on the database.
    - Other parts of [engram_core]: [Paths.v] (relative paths), [Namespaces.v]
      (update and retention policies), [Ids.v] (node, document and primary
      keys), [Checkpoint.v] (checkpoints of interrupted jobs), [Memory.v] (the
      memory budget, as the atomic steps of its threads), [FileSystem.v]
      with [SafePath.v] (the path guards, over a Unix file system with links).
    - The autonomous decisions ([engram_server/src/services/]): [Safety.v] the
      safety policy, [Decision.v] the gates and the verdict, [Rollout.v] the
      rollout phases, kill switch, waves, texts and reports, [Replay.v] the
      corpus replay.
    - Questions about the code ([services/ask_engine/]): [Planner.v] the plan of a
      question ([planner.rs]); [Evidence.v] and [Ranking.v] the evidence an
      answer keeps; [CalleeSet.v] the exhaustive walk
      of a file's calls with its coverage proof ([providers.rs]); [Status.v] what
      an answer may claim; [AskReport.v] the report ([report.rs]) and how
      [handlers/ask_tools.rs] makes it from all of these.
    - Other services of the server: [MigrationOrder.v] the order in which
      files are migrated, with [CycleSearch.v] its search for cycles
      ([services/migration_order_service.rs]).
    - The graph store ([engram_graph/src/store.rs]): [Graph.v] the rows, the
      two adjacency mirrors and every write of edges; [GraphQuery.v] the reads;
      [Resolve.v] the node lookups; [Traverse.v] the breadth-first traversal;
      [PathSearch.v] the shortest paths ([analysis.rs]); [CentralityCache.v] the
      cached rankings ([store/centrality_cache.rs]);
      [Coupling.v] and [Clustering.v] the algorithms over learned edges
      ([algorithms/coupling.rs], [algorithms/clustering.rs]).
    - The index ([engram_index/src/]): [Chunking.v] ([chunking.rs]);
      [DocStore.v] ([docstore.rs]), the records of chunks and the fingerprints;
      [Coordinator.v] ([hybrid/mutation.rs]), which admits mutations and
      excludes vector recovery; [Snapshots.v] ([hybrid/snapshots.rs]), the
      catalog of source snapshots with its pins, its seals and its collection,
      and [SnapshotsRecovery.v], the high water of a recovery.

    A file [XSpec.v] holds the theorems about [X.v] where they are not in [X.v]
    itself, [GraphRefine.v] those that need the whole of the store. [Concrete.v], [ConcreteRules.v] and the files [XWitnesses.v]
    instantiate the interfaces and apply the theorems at concrete inputs.

    ** State and operations

    A store is a record of finite maps ([Store.Database], [Graph.GraphDB]); a
    Rust method that opens a write transaction is a function from the database
    to a result with the new database, whose failure leaves the old one in
    place, as redb drops an uncommitted transaction. Methods of several
    transactions are one definition per transaction and their composition. A
    lock-guarded state ([Coordinator.State]) is a record with one function per
    critical section, and the drops of the Rust guards are operations of their
    own, so that interleavings are sequences of steps. The snapshot catalog is
    one record of its directories, cached views and floors; its operations are
    actions ([Act]) that keep what they have written when they fail, as files do.
    Rows are bytes: every read decodes, and a decoding failure is an error of
    the read.

    ** Libraries

    Code outside the repository is a type class whose laws are its documented
    behaviour, with a concrete instance: [Redb] (a table is a finite map
    iterated in key order), [Json] and [Bincode] (what is written reads back),
    [StrictBincode] and [JsonText] (the limited decoder, [Value::get]),
    [Blake3] (a digest of 32 bytes; injectivity is named where it is used),
    [Lowercase] ([str::to_lowercase] agrees with ASCII on ASCII),
    [Alphanumeric] ([char::is_alphanumeric] likewise), [Libm] ([f64::powf], its
    range named where it is used), [HashOrder] (a hash map or a directory lists
    its entries in some order, which may differ from one listing to the next).
    [SnapshotEnv], [RulesEnv], [OwnershipEnv], [AdoptionEnv], [CheckpointEnv],
    [CardsEnv], [RegistryEnv], [DocCodec], [RankingJson] and [ReportEnv] collect
    the codecs of one component.

    ** What the theorems show

    - Registry: a source head is published only on the exact head its token
      names and a captured head does publish; revisions are never reused; a
      settled requirement is the token's own; deletion removes exactly the rows
      of the project; rules claimed by a source are closed to everyone else and
      unreadable receipts close all of them; adoption changes provenance only
      and a prepared one commits; the card cache keeps exact accounts, reads
      back and evicts the oldest first.
    - Review discussions: evidence is written once and kept for good, what is
      stored is read back, the quota is the inventory, and the pages of a review
      list every capture once ([DiscussionsSpec.v]).
    - Memory: on every interleaving of atomic steps the bytes in use are those
      granted and not given back, and never pass the budget.
    - Decisions: what evidence an autonomous change needs, what may deny it,
      what the rollout phase, the kill switch and a wave let through, and that a
      recorded override reads back from its text.
    - Coordinator: recovery and mutations exclude each other on every
      interleaving, and an interrupted publication is not forgotten.
    - Source snapshots: over every sequence of operations a sealed generation
      always resolves to the same selection, which is that of its base with the
      changes and deletions it stated; a view never reads a revision newer than
      itself; a pinned view is neither evicted nor missed by the collector; what
      is retired stays retired; collection never breaks the active generation;
      the high water of a recovery covers every generation ever used.
      ([SnapshotsSpec.v] has the invariant, [SnapshotsHistory.v] the sequences
      and the leases, [SnapshotsRetire.v] the floor.)
    - Graph: every write refines an operation on an abstract graph and keeps
      the adjacency mirrors equal to the edges; neighbors are the heaviest; caps
      count accepted edges only; learned pairs stay symmetric; couplings and
      communities are those of the whole graph; the traversal ends and is
      breadth-first; a path that is found is a shortest one.
    - Migration order: every file is in exactly one wave, after what it depends
      on unless it was released from a cycle that is reported.
    - Chunking ends, loses no line and repeats none, and keeps fitting symbols
      whole. The document store refines three maps, every write an update of
      them, and a purge keeps what is current.
    - Ranking: the scores stay in a fixed range despite the rounding, direct
      evidence of the code comes before what is only similar, the selection is
      greedy and keeps what the plan requires, and contradictions are reported
      exactly.
    - Plans: every question gets one, whatever characters it holds (no slice of a
      string panics); its contract limits what an answer may claim.
    - Answers: one is given only where every name the question takes for granted
      is covered and the evidence supports it; a name that is not is pointed out;
      a question for a complete set is answered only by a walk whose coverage
      proof says complete, and then no call is missing from it.
    - Paths: the guards keep a path below its root at the time of the check, and
      where they do not.

    ** Bounds and fuel

    A [u64] is written with at most 20 digits. The Unix file system follows 40
    links and the guards 128 ancestors, as the code does. A batched deletion is
    given one round per row of the table and is proved to end before that.
    Chunking takes one step per line, proved to be enough for symbols whose
    lines are in order. The traversal is given [Traverse.cost_at max_hops]
    steps, proved to be enough whatever the graph, because a node has at most
    fifty successors; the search for a path takes one step for each endpoint of
    an edge. Kahn's algorithm takes one round per file and the search for a cycle
    [CycleSearch.search_fuel] steps, both proved to be enough. Loops over the
    bytes of a string are given its length (the one over quotes is proved to need
    no more), and the pages of a review one page
    for sixteen captures and one more. The walk of a snapshot's chain reads at
    most 33 records and a resolved chain has at most 32, as in the code; making
    room in the cache removes at most as many views as it holds. Machine integers
    are [N] with the bound or the saturation of the source written out.

    ** Not modelled

    Opening files and databases, threads and actors, request plumbing, logging
    and metrics export (input and output); Tantivy, LanceDB, libgit2 and the
    inference providers, with the index and collection code that only drives
    them; the reviews of rule aliases; the language extractors and the services
    of migration and review other than the order of files, which are heuristics
    over tree-sitter, regular expressions and rendered text. The Windows branches
    of the path guards are left out, and of Unicode case mapping and classes only
    what [Lowercase] and [Alphanumeric] state. *)
From Stdlib Require Export Ascii.
From stdpp Require Export base tactics list option numbers strings fin_maps gmap sorting.
From Stdlib Require Export ZArith Lia.

(** * Failures and the result monad *)

(** How a Rust call can fail: an [anyhow] message (its format template and the
    interpolated arguments), a decoding error of a library, or a panic. *)
Inductive Err :=
  | Bail (template : string) (args : list string)
  | SerdeError
  | Utf8Error
  | ParseIntError
  | TryFromIntError
  | Config (template : string) (args : list string)          (** [EngramError::Config] *)
  | PathNotAllowed (template : string) (args : list string)  (** [EngramError::PathNotAllowed] *)
  | InvalidRecord (problem : string)                         (** [hybrid::snapshots::InvalidRecord] *)
  | Panic (site : string).

Inductive result (A : Type) :=
  | Ok (a : A)
  | Fail (e : Err).
Arguments Ok {A} a.
Arguments Fail {A} e.

#[export] Instance Err_eq_dec : EqDecision Err.
Proof. solve_decision. Defined.
#[export] Instance result_eq_dec `{EqDecision A} : EqDecision (result A).
Proof. solve_decision. Defined.

#[export] Instance result_ret : MRet result := λ A a, Ok a.
#[export] Instance result_bind : MBind result := λ A B f r,
  match r with Ok a => f a | Fail e => Fail e end.
#[export] Instance result_fmap : FMap result := λ A B f r,
  match r with Ok a => Ok (f a) | Fail e => Fail e end.

(** [anyhow::ensure!(b, template, args..)]. *)
Definition ensure (b : bool) (template : string) (args : list string) : result () :=
  if b then Ok tt else Fail (Bail template args).

(** [Option::ok_or_else]. *)
Definition ok_or {A} (o : option A) (e : Err) : result A :=
  match o with Some a => Ok a | None => Fail e end.

(** [Option::map(f).transpose()]. *)
Definition transpose {A B} (f : A → result B) (o : option A) : result (option B) :=
  match o with Some a => Some <$> f a | None => Ok None end.

Definition is_ok {A} (r : result A) : bool :=
  match r with Ok _ => true | Fail _ => false end.

(** [Iterator::map(f).collect::<Result<Vec<_>>>()]: the first failure wins. *)
Fixpoint result_traverse {A B} (f : A → result B) (l : list A) : result (list B) :=
  match l with
  | [] => Ok []
  | a :: l' => b ← f a; bs ← result_traverse f l'; Ok (b :: bs)
  end.

(** The elements up to the first one that fails the test (a loop with a [break]). *)
Fixpoint take_while {A} (f : A → bool) (l : list A) : list A :=
  match l with
  | [] => []
  | a :: l' => if f a then a :: take_while f l' else []
  end.

(** [Result::map_err] with a constant error. *)
Definition map_err {A} (e : Err) (r : result A) : result A :=
  match r with Ok a => Ok a | Fail _ => Fail e end.

(** [slice::sort_by], which is stable: an element goes before the later ones
    that are not smaller. *)
Fixpoint insert_sorted {A} (R : relation A) `{!RelDecision R} (x : A) (l : list A) : list A :=
  match l with
  | [] => [x]
  | y :: l' => if decide (R x y) then x :: l else y :: insert_sorted R x l'
  end.
Definition stable_sort {A} (R : relation A) `{!RelDecision R} (l : list A) : list A :=
  foldr (insert_sorted R) [] l.

(** [BTreeSet::from_iter] over strings: ascending and without duplicates. *)
Definition btree_set (l : list string) : list string :=
  stable_sort String.le (remove_dups l).

(** [Iterator::max_by_key], which keeps the last of equals. *)
Definition max_by_key {A} (w : A → N) (l : list A) : option A :=
  foldl (λ best x, match best with
                   | Some b => if (w b <=? w x)%N then Some x else Some b
                   | None => Some x
                   end) None l.

(** [Iterator::min_by_key], which keeps the first of equals. *)
Definition min_by_key {A} (w : A → N) (l : list A) : option A :=
  foldl (λ best x, match best with
                   | Some b => if (w b <=? w x)%N then Some b else Some x
                   | None => Some x
                   end) None l.

(** ** Effects that outlive an error

    A method that changes shared state in place and may then fail: the state is
    what it was changed to, whether the result is a value or an error. *)
Definition Act (S A : Type) : Type := S → S * result A.
#[export] Instance act_ret {S} : MRet (Act S) := λ A a s, (s, Ok a).
#[export] Instance act_bind {S} : MBind (Act S) := λ A B f m s,
  match m s with (s', Ok a) => f a s' | (s', Fail e) => (s', Fail e) end.
(** A computation that reads the state, or does not look at it. *)
Definition act_read {S A} (f : S → result A) : Act S A := λ s, (s, f s).
Definition act_of {S A} (r : result A) : Act S A := λ s, (s, r).
Definition act_get {S A} (f : S → A) : Act S A := λ s, (s, Ok (f s)).
Definition act_modify {S} (f : S → S) : Act S () := λ s, (f s, Ok tt).
(** A value that is dropped at the end of the body, or when the body fails. *)
Definition act_finally {S A} (drop : S → S) (m : Act S A) : Act S A := λ s,
  let '(s', r) := m s in (drop s', r).
Definition act_on_error {S A} (drop : S → S) (m : Act S A) : Act S A := λ s,
  match m s with (s', Ok a) => (s', Ok a) | (s', Fail e) => (drop s', Fail e) end.
Definition act_each {S A} (f : A → Act S ()) (l : list A) : Act S () :=
  foldr (λ a k, _ ← f a; k) (mret tt) l.

(** The order in which a [HashMap], a [HashSet] or a directory is iterated: any
    order of its entries. The first argument tells the maps of a run apart. *)
Class HashOrder := {
  iter `{Countable K} {A} : nat * nat → gmap K A → list (K * A);
  iter_perm `{Countable K} {A} : ∀ site (m : gmap K A), iter site m ≡ₚ map_to_list m;
}.

(** * Lemmas *)

Lemma min_by_key_elem {A} (w : A → N) (l : list A) x : min_by_key w l = Some x → x ∈ l.
Proof.
  unfold min_by_key.
  assert (H : ∀ o, foldl (λ best y, match best with Some b => if (w b <=? w y)%N then Some b else Some y | None => Some y end) o l
                   = Some x → o = Some x ∨ x ∈ l).
  { induction l as [|y l IH]; intros o; [by left |]. cbn [foldl]. intros [H|H]%IH; [| right; by right].
    assert (Hy : Some y = Some x → x ∈ y :: l) by (intros [= ->]; left).
    destruct o as [b|]; [destruct (w b <=? w y)%N |]; auto. }
  intros [Hx|Hx]%H; done.
Qed.

(** What a computation with effects keeps, whatever its result. *)
Definition keeps {S A} (P : S → S → Prop) (m : Act S A) : Prop := ∀ s, P s (m s).1.
Section keeps.
Context {S : Type} (P : S → S → Prop) `{!PreOrder P}.
Lemma keeps_ret {A} (a : A) : keeps P (mret (M := Act S) a).
Proof. intros s. cbn. reflexivity. Qed.
Lemma keeps_bind {A B} (m : Act S A) (f : A → Act S B) : keeps P m → (∀ a, keeps P (f a)) → keeps P (m ≫= f).
Proof.
  intros Hm Hf s. specialize (Hm s). unfold mbind, act_bind. destruct (m s) as [s' [a|e]]; cbn in *; [| done].
  etransitivity; [exact Hm | apply Hf].
Qed.
Lemma keeps_read {A} (f : S → result A) : keeps P (act_read f).
Proof. intros s. cbn. reflexivity. Qed.
Lemma keeps_of {A} (r : result A) : keeps P (act_of r).
Proof. intros s. cbn. reflexivity. Qed.
Lemma keeps_get {A} (f : S → A) : keeps P (act_get f).
Proof. intros s. cbn. reflexivity. Qed.
Lemma keeps_modify f : (∀ s, P s (f s)) → keeps P (act_modify f).
Proof. intros H s. apply H. Qed.
Lemma keeps_finally {A} drop (m : Act S A) : (∀ s, P s (drop s)) → keeps P m → keeps P (act_finally drop m).
Proof. intros Hd Hm s. specialize (Hm s). unfold act_finally. destruct (m s) as [s' r]. cbn in *. by etransitivity. Qed.
Lemma keeps_on_error {A} drop (m : Act S A) : (∀ s, P s (drop s)) → keeps P m → keeps P (act_on_error drop m).
Proof.
  intros Hd Hm s. specialize (Hm s). unfold act_on_error. destruct (m s) as [s' [a|e]]; cbn in *; [done |]. by etransitivity.
Qed.
Lemma keeps_each {A} (f : A → Act S ()) l : (∀ a, keeps P (f a)) → keeps P (act_each f l).
Proof. intros Hf. induction l; cbn [act_each foldr]; [apply keeps_ret | by apply keeps_bind]. Qed.
End keeps.

Create HintDb keeps.
(** Follow the structure of a computation; its leaves are hints of [keeps]. *)
Ltac act_keeps :=
  lazymatch goal with
  | |- keeps _ (mbind _ _) => apply keeps_bind; [exact _ | act_keeps | intros ?; act_keeps]
  | |- keeps _ (mret _) => apply keeps_ret, _
  | |- keeps _ (act_read _) => apply keeps_read, _
  | |- keeps _ (act_of _) => apply keeps_of, _
  | |- keeps _ (act_get _) => apply keeps_get, _
  | |- keeps _ (act_modify _) => apply keeps_modify; intros ?; auto with keeps
  | |- keeps _ (act_finally _ _) => apply keeps_finally; [exact _ | intros ?; auto with keeps | act_keeps]
  | |- keeps _ (act_on_error _ _) => apply keeps_on_error; [exact _ | intros ?; auto with keeps | act_keeps]
  | |- keeps _ (act_each _ _) => apply keeps_each; [exact _ | intros ?; act_keeps]
  | |- keeps _ (match ?x with _ => _ end) => destruct x; act_keeps
  | |- _ => auto with keeps
  end.

Lemma act_bind_Ok {S A B} (m : Act S A) (f : A → Act S B) s s' b :
  (m ≫= f) s = (s', Ok b) → ∃ s1 a, m s = (s1, Ok a) ∧ f a s1 = (s', Ok b).
Proof. unfold mbind, act_bind. destruct (m s) as [s1 [a|e]]; [by eauto | done]. Qed.

Lemma max_by_key_elem {A} (w : A → N) (l : list A) x : max_by_key w l = Some x → x ∈ l.
Proof.
  unfold max_by_key.
  assert (H : ∀ o, foldl (λ best y, match best with Some b => if (w b <=? w y)%N then Some y else Some b | None => Some y end) o l
                   = Some x → o = Some x ∨ x ∈ l).
  { induction l as [|y l IH]; intros o; [by left |]. cbn [foldl]. intros [H|H]%IH; [| right; by right].
    assert (Hy : Some y = Some x → x ∈ y :: l) by (intros [= ->]; left).
    destruct o as [b|]; [destruct (w b <=? w y)%N |]; auto. }
  intros [Hx|Hx]%H; done.
Qed.

Lemma insert_sorted_perm {A} (R : relation A) `{!RelDecision R} x l :
  insert_sorted R x l ≡ₚ x :: l.
Proof.
  induction l as [|y l IH]; simpl; [done |]. case_decide; [done |].
  rewrite IH. apply Permutation_swap.
Qed.

Lemma stable_sort_perm {A} (R : relation A) `{!RelDecision R} l : stable_sort R l ≡ₚ l.
Proof. induction l as [|x l IH]; simpl; [done |]. by rewrite insert_sorted_perm, IH. Qed.

Lemma insert_sorted_sorted {A} (R : relation A) `{!RelDecision R, !Transitive R, !Total R} x l :
  StronglySorted R l → StronglySorted R (insert_sorted R x l).
Proof.
  induction 1 as [|y l Hs IH Hall]; simpl; [repeat constructor |].
  case_decide as Hxy.
  - constructor; [by constructor |]. constructor; [done |].
    eapply Forall_impl; [done |]. intros z Hz. by trans y.
  - constructor; [done |]. rewrite insert_sorted_perm. constructor; [| done].
    by destruct (total R x y).
Qed.

Lemma stable_sort_sorted {A} (R : relation A) `{!RelDecision R, !Transitive R, !Total R} l :
  StronglySorted R (stable_sort R l).
Proof. induction l as [|x l IH]; simpl; [constructor | by apply insert_sorted_sorted]. Qed.

(** Sorted by what is an order on the elements only. *)
Lemma insert_sorted_on {A} (R : relation A) `{!RelDecision R} (P : A → Prop) x l :
  (∀ a b c, P a → P b → P c → R a b → R b c → R a c) → (∀ a b, P a → P b → R a b ∨ R b a) →
  P x → Forall P l → StronglySorted R l → StronglySorted R (insert_sorted R x l).
Proof.
  intros Htrans Htot Hx Hl. induction 1 as [|y l Hs IH Hall]; simpl; [repeat constructor |].
  apply Forall_cons in Hl as [Hy Hl]. case_decide as Hxy.
  - constructor; [by constructor |]. constructor; [done |]. rewrite Forall_forall in *.
    intros z Hz. apply (Htrans x y z); auto.
  - constructor; [by apply IH |]. rewrite insert_sorted_perm. constructor; [| done]. by destruct (Htot x y Hx Hy).
Qed.
Lemma stable_sort_sorted_on {A} (R : relation A) `{!RelDecision R} (P : A → Prop) l :
  (∀ a b c, P a → P b → P c → R a b → R b c → R a c) → (∀ a b, P a → P b → R a b ∨ R b a) →
  Forall P l → StronglySorted R (stable_sort R l).
Proof.
  intros Htrans Htot. induction 1 as [|x l Hx Hl IH]; simpl; [constructor |].
  apply (insert_sorted_on _ P); try done. by rewrite stable_sort_perm.
Qed.

Lemma StronglySorted_sublist {A} (R : relation A) (k l : list A) : k `sublist_of` l → StronglySorted R l → StronglySorted R k.
Proof.
  induction 1 as [|x k l Hsub IH|x k l Hsub IH]; intros Hs; [done | |]; apply StronglySorted_inv in Hs as [Hs Hall]; [| by apply IH].
  constructor; [by apply IH |]. rewrite Forall_forall in *. intros y Hy. apply Hall. by eapply elem_of_sublist.
Qed.
Lemma StronglySorted_lookup {A} (R : relation A) (l : list A) i j x y :
  StronglySorted R l → (i < j)%nat → l !! i = Some x → l !! j = Some y → R x y.
Proof.
  intros Hs. revert i j. induction Hs as [|z l Hs IH Hall]; intros [|i] [|j] Hij Hx Hy; try done; try lia; simplify_eq/=.
  - eapply Forall_forall; [exact Hall |]. by eapply list_elem_of_lookup_2.
  - apply (IH i j); [lia | done..].
Qed.

Lemma elem_of_btree_set x l : x ∈ btree_set l ↔ x ∈ l.
Proof. unfold btree_set. by rewrite stable_sort_perm, elem_of_remove_dups. Qed.

Lemma map_err_Ok {A} e (r : result A) a : map_err e r = Ok a ↔ r = Ok a.
Proof. destruct r; simpl; naive_solver. Qed.

Lemma Forall2_elem_l {A B} (R : A → B → Prop) l k a :
  Forall2 R l k → a ∈ l → ∃ b, b ∈ k ∧ R a b.
Proof. induction 1; set_solver. Qed.
Lemma Forall2_elem_r {A B} (R : A → B → Prop) l k b :
  Forall2 R l k → b ∈ k → ∃ a, a ∈ l ∧ R a b.
Proof. induction 1; set_solver. Qed.

Lemma result_traverse_Ok {A B} (f : A → result B) l bs :
  result_traverse f l = Ok bs ↔ Forall2 (λ a b, f a = Ok b) l bs.
Proof.
  revert bs. induction l as [|a l IH]; intros bs; simpl.
  - split; [intros [= <-]; constructor | by inversion 1].
  - split.
    + destruct (f a) as [b|] eqn:Ha; [| done]. simpl.
      destruct (result_traverse f l) as [bs'|] eqn:Hl; [| done]. simpl.
      intros [= <-]. constructor; [done | by apply IH].
    + inversion 1 as [|? b ? bs' Ha Hl]; subst. apply IH in Hl. by rewrite Ha, Hl.
Qed.

Lemma result_traverse_total {A B} (f : A → result B) l :
  (∀ a, a ∈ l → ∃ b, f a = Ok b) → ∃ bs, result_traverse f l = Ok bs.
Proof.
  induction l as [|a l IH]; intros H; [by eexists |].
  destruct (H a) as [b Hb]; [by left |]. destruct IH as [bs Hbs]; [by intros; apply H; right |].
  exists (b :: bs). cbn [result_traverse]. by rewrite Hb, Hbs.
Qed.

Lemma result_bind_Ok {A B} (r : result A) (f : A → result B) b :
  (r ≫= f) = Ok b ↔ ∃ a, r = Ok a ∧ f a = Ok b.
Proof. destruct r; simpl; naive_solver. Qed.

Lemma ensure_Ok b t args : ensure b t args = Ok tt ↔ b = true.
Proof. destruct b; simpl; naive_solver. Qed.

Lemma ensure_bind_Ok {A} b t args (r : result A) a :
  (_ ← ensure b t args; r) = Ok a ↔ b = true ∧ r = Ok a.
Proof. destruct b; simpl; naive_solver. Qed.

Lemma ok_or_Ok {A} (o : option A) e a : ok_or o e = Ok a ↔ o = Some a.
Proof. destruct o; simpl; naive_solver. Qed.

Lemma transpose_Ok {A B} (f : A → result B) o ob :
  transpose f o = Ok ob ↔
  match o with Some a => ∃ b, f a = Ok b ∧ ob = Some b | None => ob = None end.
Proof.
  destruct o as [a|]; simpl; [| naive_solver].
  destruct (f a) as [b|]; simpl; [| naive_solver]. split; [intros [= <-]; eauto | naive_solver].
Qed.

Lemma take_while_filter {A} (f : A → bool) (l : list A) :
  (∀ l1 a l2 b, l = l1 ++ a :: l2 → f a = false → b ∈ l2 → f b = false) →
  take_while f l = filter (λ a, f a = true) l.
Proof.
  induction l as [|a l IH]; intros H; [done |]. simpl. destruct (f a) eqn:Ha.
  - rewrite filter_cons_True by done. f_equal. apply IH.
    intros l1 x l2 b ->. apply (H (a :: l1)). done.
  - rewrite filter_cons_False by congruence. clear IH.
    assert (Hall : ∀ b, b ∈ l → f b = false) by (intros b Hb; by eapply (H [] a l)).
    clear H. induction l as [|b l IH]; [done |].
    rewrite filter_cons_False by (rewrite Hall by set_solver; done). apply IH. set_solver.
Qed.

Lemma NoDup_fst_filter {K V} (P : K * V → Prop) `{!∀ x, Decision (P x)} (l : list (K * V)) :
  NoDup l.*1 → NoDup (filter P l).*1.
Proof.
  induction l as [|[k v] l IH]; [done |]. cbn [fmap list_fmap]. intros [Hk Hl]%NoDup_cons.
  rewrite filter_cons. case_decide; [| auto]. apply NoDup_cons. split; [| auto].
  intros ([k' v'] & Hk' & [_ Hin]%list_elem_of_filter)%list_elem_of_fmap. apply Hk, list_elem_of_fmap.
  by exists (k', v').
Qed.

Lemma filter_all {A} (P : A → Prop) `{!∀ x, Decision (P x)} (l : list A) : (∀ x, x ∈ l → P x) → filter P l = l.
Proof.
  induction l as [|x l IH]; intros Hl; [done |]. rewrite filter_cons, decide_True by (apply Hl; left).
  rewrite IH; [done |]. intros y Hy. apply Hl. by right.
Qed.

(** Rows removed one by one. *)
Lemma lookup_delete_list {K V} `{Countable K} (t : gmap K V) ks k :
  foldl (λ t k, delete k t) t ks !! k = if decide (k ∈ ks) then None else t !! k.
Proof.
  revert t. induction ks as [|k' ks IH]; intros t; cbn [foldl].
  - by rewrite decide_False by apply not_elem_of_nil.
  - rewrite IH. destruct (decide (k ∈ ks)) as [Hk|Hk]; [by rewrite decide_True by set_solver |].
    destruct (decide (k' = k)) as [->|Hne].
    + rewrite lookup_delete_eq. by rewrite decide_True by set_solver.
    + rewrite lookup_delete_ne by done. by rewrite decide_False by set_solver.
Qed.

(** * Tactics *)

(** [lia] with the quotient and the remainder of [a] by [b] as fresh numbers. *)
Ltac div_mod_lia a b :=
  pose proof (N.Div0.div_mod a b); generalize dependent (a / b)%N;
  generalize dependent (a mod b)%N; intros; lia.

(** A closed goal decided by evaluation. *)
Ltac evaluates := vm_compute; first [reflexivity | discriminate | repeat split; first [reflexivity | discriminate]].
