(* ===== verification/Text.v ===== *)
(** Rust strings and byte slices as Rocq [string]s (a [string] is a list of
    8-bit bytes), machine integers as [N], and the standard-library text
    operations the crates use: prefix tests, splitting, decimal printing and
    parsing of [u64], little-endian words and UTF-8 validation. *)
From S2P Require Import Prelude.

Open Scope N_scope.

(** A [&str], [String], [&[u8]] or [Vec<u8>]: its bytes. *)
Notation bytes := string.

(** * Characters *)

Definition NUL : ascii := "000"%char.
Definition LF : ascii := "010"%char.
Definition CR : ascii := "013"%char.
Definition str1 (c : ascii) : string := String c "".

Definition is_ascii_digit (c : ascii) : bool :=
  (48 <=? N_of_ascii c) && (N_of_ascii c <=? 57).
Definition is_ascii_hexdigit (c : ascii) : bool :=
  is_ascii_digit c
  || (65 <=? N_of_ascii c) && (N_of_ascii c <=? 70)
  || (97 <=? N_of_ascii c) && (N_of_ascii c <=? 102).
(** [u8::is_ascii_digit() || (b'a'..=b'f').contains(&b)]. *)
Definition is_lower_hexdigit (c : ascii) : bool :=
  is_ascii_digit c || (97 <=? N_of_ascii c) && (N_of_ascii c <=? 102).
(** A UTF-8 continuation byte, so not the start of a character. *)
Definition is_continuation (c : ascii) : bool :=
  (128 <=? N_of_ascii c) && (N_of_ascii c <=? 191).

(** * Strings *)

Definition slen (s : string) : N := N.of_nat (String.length s).

Fixpoint string_forallb (f : ascii → bool) (s : string) : bool :=
  match s with "" => true | String c s' => f c && string_forallb f s' end.
Definition string_existsb (f : ascii → bool) (s : string) : bool :=
  negb (string_forallb (λ c, negb (f c)) s).
(** [str::contains(char)] for an ASCII character. *)
Definition contains_char (c : ascii) (s : string) : bool :=
  string_existsb (Ascii.eqb c) s.

(** [str::strip_prefix]; [str::starts_with] is its success. *)
Fixpoint strip_prefix (p s : string) : option string :=
  match p, s with
  | "", _ => Some s
  | String a p', String b s' => if Ascii.eqb a b then strip_prefix p' s' else None
  | String _ _, "" => None
  end.
Definition starts_with (p s : string) : bool := bool_decide (is_Some (strip_prefix p s)).

(** [&s[n..]] and [&s[..n]] on a byte slice long enough. *)
Fixpoint sdrop (n : nat) (s : string) : string :=
  match n, s with
  | S n', String _ s' => sdrop n' s'
  | _, _ => s
  end.
Fixpoint stake (n : nat) (s : string) : string :=
  match n, s with
  | S n', String c s' => String c (stake n' s')
  | _, _ => ""
  end.

(** [str::split(char)]: the pieces between the separators, at least one. *)
Fixpoint split_char (sep : ascii) (s : string) : list string :=
  match s with
  | "" => [""]
  | String c s' =>
      if Ascii.eqb c sep then "" :: split_char sep s'
      else match split_char sep s' with
           | [] => [String c ""]
           | w :: ws => String c w :: ws
           end
  end.

(** [str::split_once(char)]. *)
Fixpoint split_once (sep : ascii) (s : string) : option (string * string) :=
  match s with
  | "" => None
  | String c s' =>
      if Ascii.eqb c sep then Some ("", s')
      else match split_once sep s' with
           | Some (a, b) => Some (String c a, b)
           | None => None
           end
  end.

(** [[String]::join(&str)]. *)
Fixpoint join (sep : string) (l : list string) : string :=
  match l with
  | [] => ""
  | [w] => w
  | w :: ws => w +:+ sep +:+ join sep ws
  end.

(** [str::ends_with]. *)
Definition ends_with (suffix s : string) : bool :=
  Nat.leb (String.length suffix) (String.length s) &&
  String.eqb (sdrop (String.length s - String.length suffix) s) suffix.

(** [str::find(&str)] and [str::contains(&str)]: the first byte offset. *)
Fixpoint str_find (needle s : string) : option nat :=
  if starts_with needle s then Some O
  else match s with "" => None | String _ s' => match str_find needle s' with Some n => Some (S n) | None => None end end.
Definition str_contains (needle s : string) : bool := match str_find needle s with Some _ => true | None => false end.

Fixpoint string_map (f : ascii → ascii) (s : string) : string :=
  match s with "" => "" | String c s' => String (f c) (string_map f s') end.
Definition replace_char (a b : ascii) : string → string :=
  string_map (λ c, if Ascii.eqb c a then b else c).

Definition to_ascii_upper (c : ascii) : ascii :=
  let n := N_of_ascii c in
  if (97 <=? n) && (n <=? 122) then ascii_of_N (n - 32) else c.

(** * Machine integers *)

Definition u64_max : N := 18446744073709551615.

(** [u64::checked_add] and [checked_sub]; [usize] has the same width. *)
Definition checked_add (a b : N) : option N :=
  if a + b <=? u64_max then Some (a + b) else None.
Definition checked_sub (a b : N) : option N :=
  if b <=? a then Some (a - b) else None.

(** [u64::to_string]: decimal, most significant digit first. Twenty digits
    hold every [u64]. *)
Definition digit (d : N) : ascii := ascii_of_N (48 + d).
Fixpoint show_digits (fuel : nat) (n : N) (acc : string) : string :=
  match fuel with
  | O => acc
  | S fuel' =>
      let acc' := String (digit (n mod 10)) acc in
      if n <? 10 then acc' else show_digits fuel' (n / 10) acc'
  end.
Definition show_u64 (n : N) : string := show_digits 20 n "".

(** [str::parse::<u64>]: an optional [+], then one or more digits whose value
    fits the type. *)
Fixpoint digits_value (s : string) (acc : N) : option N :=
  match s with
  | "" => Some acc
  | String c s' =>
      if is_ascii_digit c then digits_value s' (10 * acc + (N_of_ascii c - 48)) else None
  end.
Definition parse_u64 (s : string) : result N :=
  let ds := match s with String "+" s' => s' | _ => s end in
  match ds with
  | "" => Fail ParseIntError
  | _ => match digits_value ds 0 with
         | Some n => if n <=? u64_max then Ok n else Fail ParseIntError
         | None => Fail ParseIntError
         end
  end.

(** [u64::to_le_bytes] and [u64::from_le_bytes]. *)
Fixpoint le_split (k : nat) (n : N) : string :=
  match k with
  | O => ""
  | S k' => String (ascii_of_N (n mod 256)) (le_split k' (n / 256))
  end.
Definition to_le_bytes (n : N) : string := le_split 8 n.
Fixpoint from_le_bytes (s : string) : N :=
  match s with
  | "" => 0
  | String c s' => N_of_ascii c + 256 * from_le_bytes s'
  end.

(** * UTF-8 *)

(** One well-formed scalar value at the head of the slice (Unicode table 3-7),
    as the bytes it takes. *)
Definition in_range (lo hi : N) (c : ascii) : bool :=
  (lo <=? N_of_ascii c) && (N_of_ascii c <=? hi).
Fixpoint utf8_valid_fuel (fuel : nat) (s : string) : bool :=
  match fuel with
  | O => false
  | S fuel' =>
      match s with
      | "" => true
      | String a s1 =>
          if in_range 0 127 a then utf8_valid_fuel fuel' s1
          else if in_range 194 223 a then
            match s1 with
            | String b s2 => is_continuation b && utf8_valid_fuel fuel' s2
            | _ => false
            end
          else if in_range 224 239 a then
            match s1 with
            | String b (String c s3) =>
                (if N_of_ascii a =? 224 then in_range 160 191 b
                 else if N_of_ascii a =? 237 then in_range 128 159 b
                 else is_continuation b)
                && is_continuation c && utf8_valid_fuel fuel' s3
            | _ => false
            end
          else if in_range 240 244 a then
            match s1 with
            | String b (String c (String d s4)) =>
                (if N_of_ascii a =? 240 then in_range 144 191 b
                 else if N_of_ascii a =? 244 then in_range 128 143 b
                 else is_continuation b)
                && is_continuation c && is_continuation d && utf8_valid_fuel fuel' s4
            | _ => false
            end
          else false
      end
  end.
(** [std::str::from_utf8] succeeds; every character takes at least a byte, so
    the length of the slice bounds the number of characters. *)
Definition utf8_valid (s : string) : bool := utf8_valid_fuel (S (String.length s)) s.
Definition from_utf8 (s : bytes) : result string :=
  if utf8_valid s then Ok s else Fail Utf8Error.

(** [str::is_char_boundary(n)] for [n <= len]. *)
Definition is_char_boundary (n : nat) (s : string) : bool :=
  Nat.eqb n 0 ||
  match sdrop n s with
  | "" => true
  | String c _ => negb (is_continuation c)
  end.
(** [&s[..n]] on a [&str]: panics inside a character. *)
Definition str_slice_to (site : string) (n : nat) (s : string) : result string :=
  if is_char_boundary n s then Ok (stake n s) else Fail (Panic site).

(** * Lemmas *)

Lemma app_nil_l (s : string) : "" +:+ s = s.
Proof. done. Qed.

Lemma app_cons c (a b : string) : String c a +:+ b = String c (a +:+ b).
Proof. done. Qed.

Lemma app_assoc_str (a b c : string) : (a +:+ b) +:+ c = a +:+ (b +:+ c).
Proof. induction a as [|x a IH]; [done | by rewrite !app_cons, IH]. Qed.

Lemma app_nil_r_str (a : string) : a +:+ "" = a.
Proof. induction a as [|x a IH]; [done | by rewrite app_cons, IH]. Qed.

Lemma length_app_str (a b : string) :
  String.length (a +:+ b) = (String.length a + String.length b)%nat.
Proof. induction a as [|x a IH]; [done | rewrite app_cons; simpl; by rewrite IH]. Qed.

Lemma slen_app (a b : string) : slen (a +:+ b) = slen a + slen b.
Proof. unfold slen. rewrite length_app_str. lia. Qed.

Lemma app_inj_l (p a b : string) : p +:+ a = p +:+ b → a = b.
Proof. apply (inj (String.append p)). Qed.

Lemma strip_prefix_Some p s t : strip_prefix p s = Some t ↔ s = p +:+ t.
Proof.
  revert s. induction p as [|a p IH]; intros s; rewrite ?app_cons; simpl; [naive_solver |].
  destruct s as [|b s]; [naive_solver |].
  destruct (Ascii.eqb_spec a b) as [->|Hne]; [rewrite IH | ]; naive_solver.
Qed.

Lemma strip_prefix_app p t : strip_prefix p (p +:+ t) = Some t.
Proof. by apply strip_prefix_Some. Qed.

Lemma starts_with_spec p s : starts_with p s = true ↔ ∃ t, s = p +:+ t.
Proof.
  unfold starts_with. rewrite bool_decide_eq_true. unfold is_Some.
  setoid_rewrite strip_prefix_Some. done.
Qed.

Lemma contains_char_app c a b :
  contains_char c (a +:+ b) = contains_char c a || contains_char c b.
Proof.
  unfold contains_char, string_existsb. rewrite <-negb_andb. f_equal.
  induction a as [|x a IH]; [done |]. rewrite app_cons. simpl. by rewrite IH, andb_assoc.
Qed.

Lemma contains_char_cons c x s :
  contains_char c (String x s) = Ascii.eqb c x || contains_char c s.
Proof. unfold contains_char, string_existsb. simpl. by rewrite negb_andb, negb_involutive. Qed.

(** A separator that neither left part contains is found at one place only. *)
Lemma sep_inj c a b x y :
  contains_char c a = false → contains_char c b = false →
  a +:+ String c x = b +:+ String c y → a = b ∧ x = y.
Proof.
  revert b. induction a as [|u a IH]; intros [|v b]; rewrite ?app_cons, ?app_nil_l, ?contains_char_cons.
  - naive_solver.
  - intros _ [Hv _]%orb_false_iff [= <- _]. by rewrite Ascii.eqb_refl in Hv.
  - intros [Hv _]%orb_false_iff _ [= -> _]. by rewrite Ascii.eqb_refl in Hv.
  - intros [_ Ha]%orb_false_iff [_ Hb]%orb_false_iff [= -> H].
    destruct (IH b Ha Hb H) as [-> ->]. done.
Qed.

(** ** Decimal text *)

Lemma contains_char_mid c a b : contains_char c (a +:+ String c b) = true.
Proof. rewrite contains_char_app, contains_char_cons, Ascii.eqb_refl. apply orb_true_r. Qed.

(** The same cut from the right: the parts after the separator are free of it. *)
Lemma sep_inj_r c a b x y :
  contains_char c x = false → contains_char c y = false →
  a +:+ String c x = b +:+ String c y → a = b ∧ x = y.
Proof.
  intros Hx Hy. revert b. induction a as [|d a IH]; intros [|e b] He;
    rewrite ?app_nil_l, ?app_cons in He; injection He.
  - intros ->. done.
  - intros -> _. by rewrite contains_char_mid in Hx.
  - intros <- _. by rewrite contains_char_mid in Hy.
  - intros He' ->. by destruct (IH b He') as [-> ->].
Qed.

Lemma N_of_digit d : d < 10 → N_of_ascii (digit d) = 48 + d.
Proof. intros. unfold digit. apply N_ascii_embedding. lia. Qed.

Lemma digit_is_digit d : d < 10 → is_ascii_digit (digit d) = true.
Proof.
  intros. unfold is_ascii_digit. rewrite N_of_digit by done.
  apply andb_true_intro. split; apply N.leb_le; lia.
Qed.

Lemma show_digits_value fuel n acc :
  n < 10 ^ N.of_nat (S fuel) →
  digits_value (show_digits (S fuel) n acc) 0 = digits_value acc n.
Proof.
  revert n acc. induction fuel as [|fuel IH]; intros n acc Hn;
    change (show_digits (S ?f) n acc)
      with (if n <? 10 then String (digit (n mod 10)) acc
            else show_digits f (n / 10) (String (digit (n mod 10)) acc));
    destruct (N.ltb_spec n 10) as [Hlt|Hge].
  1, 3: cbn [digits_value]; rewrite digit_is_digit, N_of_digit by (apply N.mod_lt; lia);
    rewrite N.mod_small by done; f_equal; lia.
  - change (10 ^ N.of_nat 1) with 10 in Hn. lia.
  - rewrite IH.
    + cbn [digits_value]. rewrite digit_is_digit, N_of_digit by (apply N.mod_lt; lia).
      f_equal. div_mod_lia n 10.
    + rewrite Nat2N.inj_succ, N.pow_succ_r' in Hn. apply N.Div0.div_lt_upper_bound. lia.
Qed.

Lemma show_digits_head fuel n c s :
  is_ascii_digit c = true →
  ∃ c' s', show_digits fuel n (String c s) = String c' s' ∧ is_ascii_digit c' = true.
Proof.
  revert n c s. induction fuel as [|fuel IH]; intros n c s Hc; simpl; [eauto |].
  assert (is_ascii_digit (digit (n mod 10)) = true) by (apply digit_is_digit, N.mod_lt; lia).
  destruct (n <? 10); eauto.
Qed.

Lemma show_u64_head n :
  ∃ c s, show_u64 n = String c s ∧ is_ascii_digit c = true.
Proof.
  unfold show_u64.
  change (show_digits 20 n "")
    with (if n <? 10 then String (digit (n mod 10)) ""
          else show_digits 19 (n / 10) (String (digit (n mod 10)) "")).
  assert (is_ascii_digit (digit (n mod 10)) = true) by (apply digit_is_digit, N.mod_lt; lia).
  destruct (n <? 10); [eauto | by apply show_digits_head].
Qed.

Lemma show_digits_length fuel n acc :
  (String.length (show_digits fuel n acc) <= fuel + String.length acc)%nat.
Proof.
  revert n acc. induction fuel as [|fuel IH]; intros n acc; simpl; [lia |].
  destruct (n <? 10); simpl; [lia |]. etrans; [apply IH | simpl; lia].
Qed.

Lemma slen_show_u64 n : slen (show_u64 n) <= 20.
Proof.
  pose proof (show_digits_length 20 n "") as H. unfold slen, show_u64.
  change (String.length "") with 0%nat in H. lia.
Qed.

Lemma parse_show_u64 n : n <= u64_max → parse_u64 (show_u64 n) = Ok n.
Proof.
  intros Hn. destruct (show_u64_head n) as (c & s & Hs & Hc).
  assert (Hv : digits_value (show_u64 n) 0 = Some n).
  { unfold show_u64. rewrite show_digits_value; [done |].
    unfold u64_max in Hn. change (10 ^ N.of_nat 20) with 100000000000000000000. lia. }
  unfold parse_u64. rewrite Hs in *.
  assert (Hm : match String c s with String "+" s' => s' | _ => String c s end = String c s).
  { destruct c as [[] [] [] [] [] [] [] []]; done. }
  rewrite Hm, Hv. by rewrite (proj2 (N.leb_le _ _) Hn).
Qed.

Lemma parse_u64_bound s n : parse_u64 s = Ok n → n <= u64_max.
Proof.
  unfold parse_u64. intros H. repeat case_match; simplify_eq; by apply N.leb_le.
Qed.

Lemma show_u64_inj a b : a <= u64_max → b <= u64_max → show_u64 a = show_u64 b → a = b.
Proof. intros Ha Hb H. apply parse_show_u64 in Ha, Hb. congruence. Qed.

Lemma show_digits_forall fuel n acc :
  string_forallb is_ascii_digit acc = true →
  string_forallb is_ascii_digit (show_digits fuel n acc) = true.
Proof.
  revert n acc. induction fuel as [|fuel IH]; intros n acc Hacc; simpl; [done |].
  assert (Hd : string_forallb is_ascii_digit (String (digit (n mod 10)) acc) = true).
  { simpl. rewrite Hacc, digit_is_digit; [done | apply N.mod_lt; lia]. }
  destruct (n <? 10); [done | by apply IH].
Qed.

Lemma show_u64_digits n : string_forallb is_ascii_digit (show_u64 n) = true.
Proof. by apply show_digits_forall. Qed.

Lemma utf8_valid_fuel_digits fuel s :
  (String.length s < fuel)%nat → string_forallb is_ascii_digit s = true →
  utf8_valid_fuel fuel s = true.
Proof.
  revert s. induction fuel as [|fuel IH]; intros s Hf Hs; [lia |].
  destruct s as [|c s]; [done |]. simpl in Hf, Hs |- *.
  apply andb_true_iff in Hs as [Hc Hs]. unfold is_ascii_digit in Hc.
  apply andb_true_iff in Hc as [_ Hc]. apply N.leb_le in Hc.
  unfold in_range at 1. rewrite (proj2 (N.leb_le 0 _)), (proj2 (N.leb_le _ 127)) by lia.
  simpl. apply IH; [lia | done].
Qed.

Lemma utf8_valid_digits s : string_forallb is_ascii_digit s = true → utf8_valid s = true.
Proof. apply utf8_valid_fuel_digits. lia. Qed.

Lemma from_utf8_show n : from_utf8 (show_u64 n) = Ok (show_u64 n).
Proof. unfold from_utf8. by rewrite utf8_valid_digits by apply show_u64_digits. Qed.

Lemma from_utf8_Ok b s : from_utf8 b = Ok s ↔ utf8_valid b = true ∧ s = b.
Proof. unfold from_utf8. destruct (utf8_valid b); naive_solver. Qed.

Lemma checked_add_Some a b c : checked_add a b = Some c ↔ c = a + b ∧ c <= u64_max.
Proof. unfold checked_add. destruct (N.leb_spec (a + b) u64_max); naive_solver lia. Qed.

Lemma checked_sub_Some a b c : checked_sub a b = Some c ↔ b <= a ∧ c = a - b.
Proof. unfold checked_sub. destruct (N.leb_spec b a); naive_solver lia. Qed.

(** ** Little-endian words *)

Lemma le_split_length k n : String.length (le_split k n) = k.
Proof. revert n. induction k; intros; simpl; auto. Qed.

Lemma from_le_split k n : n < 256 ^ N.of_nat k → from_le_bytes (le_split k n) = n.
Proof.
  revert n. induction k as [|k IH]; intros n Hn; [simpl in *; lia |].
  cbn [le_split from_le_bytes]. rewrite N_ascii_embedding by (apply N.mod_lt; lia).
  rewrite IH.
  - div_mod_lia n 256.
  - rewrite Nat2N.inj_succ, N.pow_succ_r' in Hn. apply N.Div0.div_lt_upper_bound. lia.
Qed.

Lemma from_to_le_bytes n : n <= u64_max → from_le_bytes (to_le_bytes n) = n.
Proof. intros. apply from_le_split. unfold u64_max in *. simpl. lia. Qed.

(** ** Slices *)

Lemma sdrop_app n p s : n = String.length p → sdrop n (p +:+ s) = s.
Proof. intros ->. induction p; [by destruct s | done]. Qed.

Lemma stake_app n p s : n = String.length p → stake n (p +:+ s) = p.
Proof. intros ->. induction p as [|c p IH]; [by destruct s |]. rewrite app_cons; simpl. by rewrite IH. Qed.

Lemma length_sdrop n s : String.length (sdrop n s) = (String.length s - n)%nat.
Proof. revert s. induction n as [|n IH]; intros [|a s]; simpl; try done. Qed.
Lemma stake_sdrop n s : stake n s +:+ sdrop n s = s.
Proof. revert s. induction n as [|n IH]; intros [|c s]; try done. simpl. by rewrite app_cons, IH. Qed.

#[export] Hint Rewrite app_assoc_str app_nil_r_str length_app_str slen_app
  strip_prefix_app : text.
