(* ===== verification/Unicode.v ===== *)
(** The Unicode classes of characters the crates test, over UTF-8 bytes:
    white space with [str::trim], control characters, and lower case. *)
From S2P Require Import Prelude Text.

(** * Definitions *)

Definition byte_string (l : list N) : string := foldr (λ n s, String (ascii_of_N n) s) "" l.

(** The encodings of the characters of [char::is_whitespace]: the ASCII ones,
    U+0085, U+00A0, U+1680, U+2000 to U+200A, U+2028, U+2029, U+202F, U+205F
    and U+3000. *)
Definition whitespace : list string :=
  byte_string <$>
  ([[9]; [10]; [11]; [12]; [13]; [32]; [194; 133]; [194; 160]; [225; 154; 128]]
   ++ ((λ n, [226; 128; n]) <$> [128; 129; 130; 131; 132; 133; 134; 135; 136; 137; 138; 168; 169; 175])
   ++ [[226; 129; 159]; [227; 128; 128]])%N.

(** [str::strip_suffix]. *)
Definition strip_suffix (w s : string) : option string :=
  let n := (String.length s - String.length w)%nat in
  if Nat.leb (String.length w) (String.length s) && String.eqb (sdrop n s) w
  then Some (stake n s) else None.

(** One white-space character off the front, or off the back. *)
Definition first_some {A} (f : string → option A) (l : list string) : option A :=
  head (omap f l).
Definition strip_white_front (s : string) : option string := first_some (λ w, strip_prefix w s) whitespace.
Definition strip_white_back (s : string) : option string := first_some (λ w, strip_suffix w s) whitespace.

(** Every character takes a byte, so the length bounds the number of steps. *)
Fixpoint strip_fuel (f : string → option string) (fuel : nat) (s : string) : string :=
  match fuel with
  | O => s
  | S fuel' => match f s with Some s' => strip_fuel f fuel' s' | None => s end
  end.
Definition trim_start (s : string) : string := strip_fuel strip_white_front (String.length s) s.
Definition trim_end (s : string) : string := strip_fuel strip_white_back (String.length s) s.
(** [str::trim]. *)
Definition trim (s : string) : string := trim_end (trim_start s).

(** [char::is_control]: C0, DEL, and the C1 controls C2 80 to C2 9F. *)
Fixpoint has_control (s : string) : bool :=
  match s with
  | "" => false
  | String c s' =>
      (N_of_ascii c <? 32)%N || (N_of_ascii c =? 127)%N
      || ((N_of_ascii c =? 194)%N
          && match s' with
             | String d _ => (128 <=? N_of_ascii d)%N && (N_of_ascii d <=? 159)%N
             | "" => false
             end)
      || has_control s'
  end.

(** [char::to_ascii_lowercase] on a text. *)
Definition to_ascii_lower (c : ascii) : ascii :=
  let n := N_of_ascii c in
  if (65 <=? n)%N && (n <=? 90)%N then ascii_of_N (n + 32) else c.
Definition is_ascii_text (s : string) : bool := string_forallb (λ c, N_of_ascii c <? 128)%N s.

(** [str::to_lowercase] maps by the Unicode tables; on ASCII text it maps the
    letters A to Z. *)
Class Lowercase := {
  to_lowercase : string → string;
  to_lowercase_ascii : ∀ s, is_ascii_text s = true → to_lowercase s = string_map to_ascii_lower s;
}.
Definition ascii_lowercase : Lowercase :=
  {| to_lowercase := string_map to_ascii_lower; to_lowercase_ascii := λ s _, eq_refl |}.

(** No white space at either end. *)
Definition trimmed (s : string) : Prop := strip_white_front s = None ∧ strip_white_back s = None.

(** * Lemmas *)

Lemma first_some_Some {A} (f : string → option A) l a :
  first_some f l = Some a → ∃ w, w ∈ l ∧ f w = Some a.
Proof.
  unfold first_some. induction l as [|w l IH]; [done |]. cbn. destruct (f w) eqn:Hw.
  - intros [= <-]. exists w. split; [set_solver | done].
  - intros (w' & Hin & Hf)%IH. exists w'. split; [set_solver | done].
Qed.
Lemma first_some_None {A} (f : string → option A) l :
  first_some f l = None ↔ ∀ w, w ∈ l → f w = None.
Proof.
  unfold first_some. induction l as [|w l IH]; cbn; [split; [set_solver | done] |].
  destruct (f w) eqn:Hw.
  - split; [done |]. intros H. rewrite (H w) in Hw by set_solver. done.
  - rewrite IH. split; [| set_solver]. intros H w' [->|Hin]%elem_of_cons; [done | by apply H].
Qed.

Lemma strip_suffix_Some w s t : strip_suffix w s = Some t ↔ s = t +:+ w.
Proof.
  unfold strip_suffix. split.
  - case_match eqn:E; [| done]. apply andb_true_iff in E as [_ E%String.eqb_eq]. intros [= <-].
    pose proof (stake_sdrop (String.length s - String.length w) s) as H. by rewrite E in H.
  - intros ->. rewrite length_app_str.
    replace (String.length t + String.length w - String.length w)%nat with (String.length t) by lia.
    rewrite sdrop_app, stake_app, String.eqb_refl by done.
    by rewrite (proj2 (Nat.leb_le _ _)) by lia.
Qed.

Lemma whitespace_nonempty w : w ∈ whitespace → (1 <= String.length w)%nat.
Proof.
  intros Hw. assert (Hall : forallb (λ w, Nat.leb 1 (String.length w)) whitespace = true) by by vm_compute.
  rewrite forallb_forall in Hall. apply Nat.leb_le, Hall. by apply list_elem_of_In.
Qed.

Lemma strip_front_Some s t : strip_white_front s = Some t → ∃ w, w ∈ whitespace ∧ s = w +:+ t.
Proof. intros (w & Hw & H%strip_prefix_Some)%first_some_Some. eauto. Qed.
Lemma strip_back_Some s t : strip_white_back s = Some t → ∃ w, w ∈ whitespace ∧ s = t +:+ w.
Proof. intros (w & Hw & H%strip_suffix_Some)%first_some_Some. eauto. Qed.
Lemma strip_front_None s : strip_white_front s = None ↔ ∀ w t, w ∈ whitespace → s ≠ w +:+ t.
Proof.
  unfold strip_white_front. rewrite first_some_None. split.
  - intros H w t Hw Hs%strip_prefix_Some. rewrite (H w Hw) in Hs. done.
  - intros H w Hw. destruct (strip_prefix w s) eqn:E; [| done]. apply strip_prefix_Some in E. by eapply H in E.
Qed.

(** The loop stops at a string it cannot strip. *)
Lemma strip_fuel_spec f (P : string → Prop) fuel s :
  (∀ s t, f s = Some t → (String.length t < String.length s)%nat ∧ (P s → P t)) →
  (String.length s <= fuel)%nat → P s →
  f (strip_fuel f fuel s) = None ∧ P (strip_fuel f fuel s) ∨ String.length s = 0%nat ∧ strip_fuel f fuel s = s.
Proof.
  intros Hf. revert s. induction fuel as [|fuel IH]; intros s Hl Hp; simpl; [right; split; [lia | done] |].
  destruct (f s) as [t|] eqn:E; [| by left]. destruct (Hf _ _ E) as [Hlt Ht]. 
  destruct (IH t ltac:(lia) (Ht Hp)) as [H|[H0 H]]; [by left |]. rewrite H. left. split; [| auto].
  destruct (f t) eqn:Et; [| done]. apply Hf in Et as [Hlt2 _]. lia.
Qed.

Lemma strip_front_shorter s t : strip_white_front s = Some t → (String.length t < String.length s)%nat.
Proof. intros (w & Hw%whitespace_nonempty & ->)%strip_front_Some. rewrite length_app_str. lia. Qed.
Lemma strip_back_shorter s t : strip_white_back s = Some t → (String.length t < String.length s)%nat.
Proof. intros (w & Hw%whitespace_nonempty & ->)%strip_back_Some. rewrite length_app_str. lia. Qed.

(** A property that a shorter piece at either end inherits holds of the trimmed text. *)
Lemma trim_spec (P : string → Prop) s :
  (∀ a b, P (a +:+ b) → P a ∧ P b) → P s → trimmed (trim s) ∧ P (trim s).
Proof.
  intros Hsplit Hs. unfold trim, trim_start, trim_end.
  assert (H1 : strip_white_front (trim_start s) = None ∧ P (trim_start s)).
  { unfold trim_start. destruct (strip_fuel_spec strip_white_front P (String.length s) s) as [H|[H0 H]]; [| done | done | done |].
    - intros a b Hab. split; [by apply strip_front_shorter |].
      apply strip_front_Some in Hab as (w & _ & ->). apply Hsplit.
    - rewrite H. destruct s; [split; [by vm_compute | done] | discriminate]. }
  destruct H1 as [Hf Hp]. fold (trim_start s). set (u := trim_start s) in *.
  destruct (strip_fuel_spec strip_white_back (λ t, strip_white_front t = None ∧ P t) (String.length u) u)
    as [(H1 & H2 & H3)|[H0 H]]; [| done | done | done |].
  - intros a b Hab. split; [by apply strip_back_shorter |].
    apply strip_back_Some in Hab as (w & _ & ->). intros [Hn Hab]. split; [| by destruct (Hsplit _ _ Hab)].
    rewrite strip_front_None in Hn |- *. intros w' t Hw' ->. apply (Hn w' (t +:+ w)); [done |].
    apply app_assoc_str.
  - rewrite H. destruct u; [split; [split; by vm_compute | done] | discriminate].
Qed.

Lemma trim_trimmed s : trimmed s → trim s = s.
Proof.
  intros [Hf Hb]. unfold trim, trim_start, trim_end.
  assert (Hs : ∀ f fuel, f s = None → strip_fuel f fuel s = s) by (intros f [|fuel] H; simpl; [done | by rewrite H]).
  by rewrite !Hs.
Qed.

(** The lossy reading of bytes as text of the Rust standard library, and what
    well-formed UTF-8 is closed under. *)

Open Scope N_scope.

(** * Definitions *)

(** The replacement character. *)
Definition REPLACEMENT : string := String "239" (String "191" (str1 "189")).

(** The second byte of a character of three or four bytes. *)
Definition second_of_three (a b : ascii) : bool :=
  if N_of_ascii a =? 224 then in_range 160 191 b
  else if N_of_ascii a =? 237 then in_range 128 159 b
  else is_continuation b.
Definition second_of_four (a b : ascii) : bool :=
  if N_of_ascii a =? 240 then in_range 144 191 b
  else if N_of_ascii a =? 244 then in_range 128 143 b
  else is_continuation b.

(** [String::from_utf8_lossy]: the longest start of a character that is not
    completed is one replacement character. Every round takes a byte. *)
Fixpoint lossy_fuel (fuel : nat) (s : string) : string :=
  match fuel with
  | O => ""
  | S fuel' =>
      let bad rest := REPLACEMENT +:+ lossy_fuel fuel' rest in
      match s with
      | "" => ""
      | String a s1 =>
          if in_range 0 127 a then String a (lossy_fuel fuel' s1)
          else if in_range 194 223 a then
            match s1 with
            | String b s2 => if is_continuation b then String a (String b (lossy_fuel fuel' s2)) else bad s1
            | _ => bad s1
            end
          else if in_range 224 239 a then
            match s1 with
            | String b s2 =>
                if second_of_three a b then
                  match s2 with
                  | String c s3 =>
                      if is_continuation c then String a (String b (String c (lossy_fuel fuel' s3))) else bad s2
                  | _ => bad s2
                  end
                else bad s1
            | _ => bad s1
            end
          else if in_range 240 244 a then
            match s1 with
            | String b s2 =>
                if second_of_four a b then
                  match s2 with
                  | String c s3 =>
                      if is_continuation c then
                        match s3 with
                        | String d s4 =>
                            if is_continuation d then String a (String b (String c (String d (lossy_fuel fuel' s4))))
                            else bad s3
                        | _ => bad s3
                        end
                      else bad s2
                  | _ => bad s2
                  end
                else bad s1
            | _ => bad s1
            end
          else bad s1
      end
  end.
Definition from_utf8_lossy (b : bytes) : string := lossy_fuel (S (String.length b)) b.

(** ** Characters *)
(** The bytes of the character that starts with a byte. *)
Definition char_width (a : ascii) : nat :=
  if N_of_ascii a <? 128 then 1 else if N_of_ascii a <? 224 then 2 else if N_of_ascii a <? 240 then 3 else 4.
(** [str::chars]: every character takes a byte at least. *)
Fixpoint chars_fuel (fuel : nat) (s : string) : list string :=
  match fuel, s with
  | S fuel', String a _ => stake (char_width a) s :: chars_fuel fuel' (sdrop (char_width a) s)
  | _, _ => []
  end.
Definition chars (s : string) : list string := chars_fuel (String.length s) s.
(** [str::split] at the characters of a class. *)
Fixpoint split_chars (sep : string → bool) (l : list string) : list string :=
  match l with
  | [] => [""]
  | c :: l' =>
      if sep c then "" :: split_chars sep l'
      else match split_chars sep l' with [] => [c] | w :: ws => (c +:+ w) :: ws end
  end.
Definition split_at (sep : string → bool) (s : string) : list string := split_chars sep (chars s).

(** [char::is_alphanumeric], of the bytes of a character; the tables of Unicode
    are the library's. *)
Class Alphanumeric := {
  is_alphanumeric : string → bool;
  is_alphanumeric_ascii a : N_of_ascii a <? 128 = true →
    is_alphanumeric (str1 a) = is_ascii_digit a || in_range 65 90 a || in_range 97 122 a;
}.

(** * Lemmas *)

(** A well-formed text is empty, or a character of one to four bytes and a
    well-formed text. *)
Lemma utf8_ind (P : string → Prop) fuel s :
  P "" →
  (∀ a s, in_range 0 127 a = true → P s → P (String a s)) →
  (∀ a b s, in_range 0 127 a = false → in_range 194 223 a = true → is_continuation b = true → P s →
     P (String a (String b s))) →
  (∀ a b c s, in_range 0 127 a = false → in_range 194 223 a = false → in_range 224 239 a = true →
     second_of_three a b = true → is_continuation c = true → P s → P (String a (String b (String c s)))) →
  (∀ a b c d s, in_range 0 127 a = false → in_range 194 223 a = false → in_range 224 239 a = false →
     in_range 240 244 a = true → second_of_four a b = true → is_continuation c = true → is_continuation d = true →
     P s → P (String a (String b (String c (String d s))))) →
  utf8_valid_fuel fuel s = true → P s.
Proof.
  intros H0 H1 H2 H3 H4. revert s. induction fuel as [|fuel IH]; intros s Hs; [done |].
  destruct s as [|a s1]; [done |]. cbn [utf8_valid_fuel] in Hs.
  destruct (in_range 0 127 a) eqn:E1; [by apply H1; [| apply IH] |].
  destruct (in_range 194 223 a) eqn:E2.
  { destruct s1 as [|b s2]; [done |]. apply andb_true_iff in Hs as [Hb Hs]. by apply H2; [.. | apply IH]. }
  destruct (in_range 224 239 a) eqn:E3.
  { destruct s1 as [|b [|c s3]]; try done. apply andb_true_iff in Hs as [[Hb Hc]%andb_true_iff Hs].
    by apply H3; [.. | apply IH]. }
  destruct (in_range 240 244 a) eqn:E4; [| done].
  destruct s1 as [|b [|c [|d s4]]]; try done.
  apply andb_true_iff in Hs as [[[Hb Hc]%andb_true_iff Hd]%andb_true_iff Hs]. by apply H4; [.. | apply IH].
Qed.

(** A longer loop bound changes nothing. *)
Lemma utf8_valid_fuel_more fuel s : utf8_valid_fuel fuel s = true → ∀ fuel', (String.length s < fuel')%nat → utf8_valid_fuel fuel' s = true.
Proof.
  apply (utf8_ind (λ s, ∀ fuel', (String.length s < fuel')%nat → utf8_valid_fuel fuel' s = true)).
  - intros [|f'] ?; [cbn in *; lia | done].
  - intros a s1 E1 IH [|f'] Hf; cbn in Hf; [lia |]. cbn [utf8_valid_fuel]. rewrite E1. apply IH. lia.
  - intros a b s2 E1 E2 Hb IH [|f'] Hf; cbn in Hf; [lia |]. cbn [utf8_valid_fuel]. rewrite E1, E2, Hb. apply IH. lia.
  - intros a b c s3 E1 E2 E3 Hb Hc IH [|f'] Hf; cbn in Hf; [lia |]. cbn [utf8_valid_fuel].
    unfold second_of_three in Hb. rewrite E1, E2, E3, Hb, Hc. apply IH. lia.
  - intros a b c d s4 E1 E2 E3 E4 Hb Hc Hd IH [|f'] Hf; cbn in Hf; [lia |]. cbn [utf8_valid_fuel].
    unfold second_of_four in Hb. rewrite E1, E2, E3, E4, Hb, Hc, Hd. apply IH. lia.
Qed.

Lemma lossy_valid_fuel fuel s :
  utf8_valid_fuel fuel s = true → ∀ fuel', (String.length s < fuel')%nat → lossy_fuel fuel' s = s.
Proof.
  apply (utf8_ind (λ s, ∀ fuel', (String.length s < fuel')%nat → lossy_fuel fuel' s = s)).
  - by intros [|f'].
  - intros a s1 E1 IH [|f'] Hf; cbn in Hf; [lia |]. cbn [lossy_fuel]. rewrite E1, IH by lia. done.
  - intros a b s2 E1 E2 Hb IH [|f'] Hf; cbn in Hf; [lia |]. cbn [lossy_fuel]. rewrite E1, E2, Hb, IH by lia. done.
  - intros a b c s3 E1 E2 E3 Hb Hc IH [|f'] Hf; cbn in Hf; [lia |]. cbn [lossy_fuel].
    rewrite E1, E2, E3, Hb, Hc, IH by lia. done.
  - intros a b c d s4 E1 E2 E3 E4 Hb Hc Hd IH [|f'] Hf; cbn in Hf; [lia |]. cbn [lossy_fuel].
    rewrite E1, E2, E3, E4, Hb, Hc, Hd, IH by lia. done.
Qed.
Lemma lossy_valid s : utf8_valid s = true → from_utf8_lossy s = s.
Proof. intros H. eapply lossy_valid_fuel; [exact H |]. lia. Qed.

(** The clauses of [utf8_ind], the other way round. *)
Lemma utf8_valid_one a s : in_range 0 127 a = true → utf8_valid s = true → utf8_valid (String a s) = true.
Proof. intros E1 Hs. unfold utf8_valid. cbn [String.length]. cbn [utf8_valid_fuel]. by rewrite E1. Qed.
Lemma utf8_valid_two a b s :
  in_range 0 127 a = false → in_range 194 223 a = true → is_continuation b = true → utf8_valid s = true →
  utf8_valid (String a (String b s)) = true.
Proof.
  intros E1 E2 Hb Hs. unfold utf8_valid. cbn [String.length]. remember (S (S (String.length s))) as f eqn:Hf.
  cbn [utf8_valid_fuel]. rewrite E1, E2, Hb. cbn [andb]. eapply utf8_valid_fuel_more; [exact Hs |]. lia.
Qed.
Lemma utf8_valid_three a b c s :
  in_range 0 127 a = false → in_range 194 223 a = false → in_range 224 239 a = true →
  second_of_three a b = true → is_continuation c = true → utf8_valid s = true →
  utf8_valid (String a (String b (String c s))) = true.
Proof.
  intros E1 E2 E3 Hb Hc Hs. unfold utf8_valid. cbn [String.length]. remember (S (S (S (String.length s)))) as f eqn:Hf.
  unfold second_of_three in Hb. cbn [utf8_valid_fuel]. rewrite E1, E2, E3, Hb, Hc. cbn [andb].
  eapply utf8_valid_fuel_more; [exact Hs |]. lia.
Qed.
Lemma utf8_valid_four a b c d s :
  in_range 0 127 a = false → in_range 194 223 a = false → in_range 224 239 a = false → in_range 240 244 a = true →
  second_of_four a b = true → is_continuation c = true → is_continuation d = true → utf8_valid s = true →
  utf8_valid (String a (String b (String c (String d s)))) = true.
Proof.
  intros E1 E2 E3 E4 Hb Hc Hd Hs. unfold utf8_valid. cbn [String.length].
  remember (S (S (S (S (String.length s))))) as f eqn:Hf. unfold second_of_four in Hb.
  cbn [utf8_valid_fuel]. rewrite E1, E2, E3, E4, Hb, Hc, Hd. cbn [andb]. eapply utf8_valid_fuel_more; [exact Hs |]. lia.
Qed.

Lemma utf8_valid_app a b : utf8_valid a = true → utf8_valid b = true → utf8_valid (a +:+ b) = true.
Proof.
  intros Ha Hb. unfold utf8_valid in Ha. revert Ha.
  apply (utf8_ind (λ a, utf8_valid (a +:+ b) = true)); intros; rewrite ?app_cons;
    [done | by apply utf8_valid_one | by apply utf8_valid_two | by apply utf8_valid_three | by apply utf8_valid_four].
Qed.

Lemma utf8_valid_join sep l :
  utf8_valid sep = true → Forall (λ s, utf8_valid s = true) l → utf8_valid (join sep l) = true.
Proof.
  intros Hsep Hl. induction Hl as [|s l Hs Hl IH]; [done |]. destruct l as [|t l]; [done |].
  change (join sep (s :: t :: l)) with (s +:+ sep +:+ join sep (t :: l)). by repeat apply utf8_valid_app.
Qed.
