(* ===== verification/Store.v ===== *)
(** The embedded store. [redb] is a library: a table is any finite map over
    its keys ([Redb], the laws are stdpp's [FinMap]) that is iterated in key
    order; [serde_json] is a library: a codec with its round trip ([Json]).
    A write transaction is a function on the database that is installed by
    [commit] and dropped by every error or early return. *)
From S2P Require Import Prelude Text.

(** * Library interfaces *)

(** A redb database (or one of its tables) with keys of type [K]. *)
Class Redb (K : Type) `{!EqDecision K} := {
  Table : Type → Type;
  redb_fmap :: FMap Table;
  redb_lookup :: ∀ A, Lookup K A (Table A);
  redb_empty :: ∀ A, Empty (Table A);
  redb_partial_alter :: ∀ A, PartialAlter K A (Table A);
  redb_omap :: OMap Table;
  redb_merge :: Merge Table;
  redb_fold :: ∀ A, MapFold K A (Table A);
  redb_finmap :: FinMap K Table;
}.
Arguments Table K {_ _} _.

(** A [serde_json] codec of a type. *)
Class Json (A : Type) := {
  to_vec : A → bytes;
  from_slice : bytes → result A;
  from_slice_to_vec : ∀ a, from_slice (to_vec a) = Ok a;
}.

(** [blake3::hash(..).to_hex()]: 64 lowercase hexadecimal digits. *)
Class Blake3 := {
  blake3_hex : bytes → string;
  blake3_hex_shape : ∀ b,
    String.length (blake3_hex b) = 64%nat ∧ string_forallb is_lower_hexdigit (blake3_hex b) = true;
}.

(** * Transactions *)

Definition Tx (S A : Type) : Type := S → result (A * S).

#[export] Instance tx_ret {S} : MRet (Tx S) := λ A a s, Ok (a, s).
#[export] Instance tx_bind {S} : MBind (Tx S) := λ A B f m s,
  match m s with Ok (a, s') => f a s' | Fail e => Fail e end.

(** [?] on a computation that does not touch the database. *)
Definition lift {S A} (r : result A) : Tx S A := λ s, a ← r; Ok (a, s).

Inductive outcome (A : Type) :=
  | Commit (a : A)     (** [wtx.commit()?; Ok(a)] *)
  | Rollback (a : A).  (** [return Ok(a)] with the transaction dropped *)
Arguments Commit {A} a.
Arguments Rollback {A} a.

(** [let wtx = db.begin_write()?; body]. *)
Definition write_tx {S A} (body : Tx S (outcome A)) (s : S) : S * result A :=
  match body s with
  | Ok (Commit a, s') => (s', Ok a)
  | Ok (Rollback a, _) => (s, Ok a)
  | Fail e => (s, Fail e)
  end.

(** A function that returns before it opens the write transaction when [r]
    fails. *)
Definition guarded {S A B} (r : result B) (k : B → S → S * result A) (s : S) : S * result A :=
  match r with Ok b => k b s | Fail e => (s, Fail e) end.

Section tables.
Context {K : Type} `{!EqDecision K} `{!Redb K} {V : Type}.

Definition tx_get (k : K) : Tx (Table K V) (option V) := λ db, Ok (db !! k, db).
Definition tx_insert (k : K) (v : V) : Tx (Table K V) () := λ db, Ok (tt, <[k:=v]> db).
Definition tx_remove (k : K) : Tx (Table K V) () := λ db, Ok (tt, delete k db).
Definition tx_read {A} (f : Table K V → A) : Tx (Table K V) A := λ db, Ok (f db, db).
Definition tx_modify (f : Table K V → Table K V) : Tx (Table K V) () := λ db, Ok (tt, f db).
End tables.

(** * Iteration in key order *)

Definition row_le {V} (p q : string * V) : Prop := String.le p.1 q.1.
#[export] Instance row_le_dec {V} : RelDecision (@row_le V) := λ p q, decide (String.le p.1 q.1).

(** [table.iter()] over string keys, ascending. *)
Definition sort_rows {V} (l : list (string * V)) : list (string * V) := merge_sort row_le l.

(** [table.range(start..)]. *)
Definition range_from {V} (start : string) (rows : list (string * V)) : list (string * V) :=
  filter (λ kv, String.le start kv.1) rows.

(** [for row in table.range(prefix..) { if !key.starts_with(prefix) { break; } .. }]. *)
Definition prefix_scan {V} (p : string) (rows : list (string * V)) : list (string * V) :=
  take_while (λ kv, starts_with p kv.1) (range_from p rows).

(** A database of several tables: the rows of table [t]. *)
Section rows.
Context {T V : Type} `{!EqDecision T} `{!Redb (T * string)}.

Definition table_rows (t : T) (db : Table (T * string) V) : list (string * V) :=
  sort_rows (omap (λ kv, if decide (kv.1.1 = t) then Some (kv.1.2, kv.2) else None)
                  (map_to_list db)).

(** Remove the listed keys of a table, in order. *)
Definition delete_keys (t : T) (ks : list string) (db : Table (T * string) V)
  : Table (T * string) V :=
  foldl (λ db k, delete (t, k) db) db ks.
End rows.

(** * What a transaction preserves *)

(** [R] relates the database before and after every successful run of [m]. *)
Definition preserves {S A} (R : S → S → Prop) (m : Tx S A) : Prop :=
  ∀ s a s', m s = Ok (a, s') → R s s'.

(** * Lemmas *)

Section tx_lemmas.
Context {S : Type}.

Lemma tx_bind_Ok {A B} (m : Tx S A) (f : A → Tx S B) s r :
  (m ≫= f) s = Ok r ↔ ∃ a s1, m s = Ok (a, s1) ∧ f a s1 = Ok r.
Proof. unfold mbind, tx_bind. destruct (m s) as [[a s1]|]; naive_solver. Qed.

(** Running a step whose outcome is known. *)
Lemma tx_bind_eq {A B} (m : Tx S A) (f : A → Tx S B) s a s' :
  m s = Ok (a, s') → (m ≫= f) s = f a s'.
Proof. unfold mbind, tx_bind. by intros ->. Qed.
Lemma tx_lift_bind_eq {A B} (r : result A) (f : A → Tx S B) s a :
  r = Ok a → (lift r ≫= f) s = f a s.
Proof. by intros ->. Qed.

Lemma lift_Ok {A} (r : result A) (s : S) a s' :
  lift r s = Ok (a, s') ↔ r = Ok a ∧ s' = s.
Proof. unfold lift. destruct r; simpl; naive_solver. Qed.

Lemma tx_ret_Ok {A} (a : A) (s : S) b s' : (mret a : Tx S A) s = Ok (b, s') ↔ b = a ∧ s' = s.
Proof. unfold mret, tx_ret. naive_solver. Qed.

(** An error or an early return leaves the database as it was. *)
Lemma write_tx_unchanged {A} (body : Tx S (outcome A)) s e :
  (write_tx body s).2 = Fail e → (write_tx body s).1 = s.
Proof. unfold write_tx. by repeat case_match. Qed.

Lemma write_tx_inv {A} (body : Tx S (outcome A)) s s' a :
  write_tx body s = (s', Ok a) →
  body s = Ok (Commit a, s') ∨ (s' = s ∧ ∃ s1, body s = Ok (Rollback a, s1)).
Proof. unfold write_tx. intros. repeat case_match; naive_solver. Qed.

(** The database changes by a commit only. *)
Lemma write_tx_cases {A} (body : Tx S (outcome A)) s :
  (write_tx body s).1 = s ∨
  ∃ a s', body s = Ok (Commit a, s') ∧ write_tx body s = (s', Ok a).
Proof. unfold write_tx. repeat case_match; eauto 10. Qed.

Context (R : S → S → Prop) `{!PreOrder R}.

Lemma preserves_ret {A} (a : A) : preserves R (mret a).
Proof. by intros s b s' [-> ->]%tx_ret_Ok. Qed.

Lemma preserves_lift {A} (r : result A) : preserves R (lift r).
Proof. by intros s b s' [_ ->]%lift_Ok. Qed.

Lemma preserves_bind {A B} (m : Tx S A) (f : A → Tx S B) :
  preserves R m → (∀ a, preserves R (f a)) → preserves R (m ≫= f).
Proof.
  intros Hm Hf s b s' (a & s1 & H1 & H2)%tx_bind_Ok.
  etrans; [by eapply Hm | by eapply Hf].
Qed.

(** The continuation of [lift r] may use that [r] succeeded. *)
Lemma preserves_lift_bind {A B} (r : result A) (f : A → Tx S B) :
  (∀ a, r = Ok a → preserves R (f a)) → preserves R (lift r ≫= f).
Proof. intros H s b s' (a & s1 & [Ha ->]%lift_Ok & Hf)%tx_bind_Ok. by eapply H. Qed.

Lemma preserves_write_tx {A} (body : Tx S (outcome A)) s :
  preserves R body → R s (write_tx body s).1.
Proof.
  intros Hb. unfold write_tx. destruct (body s) as [[[a|a] s']|e] eqn:E; simpl; try done.
  by eapply Hb.
Qed.
End tx_lemmas.

Section table_lemmas.
Context {K : Type} `{!EqDecision K} `{!Redb K} {V : Type}.
Implicit Types db : Table K V.

Lemma tx_get_Ok (k : K) db o db' : tx_get k db = Ok (o, db') ↔ o = db !! k ∧ db' = db.
Proof. unfold tx_get. naive_solver. Qed.
Lemma tx_insert_Ok (k : K) (v : V) db u db' :
  tx_insert k v db = Ok (u, db') ↔ u = tt ∧ db' = <[k:=v]> db.
Proof. unfold tx_insert. naive_solver. Qed.
Lemma tx_remove_Ok (k : K) db u db' : tx_remove k db = Ok (u, db') ↔ u = tt ∧ db' = delete k db.
Proof. unfold tx_remove. naive_solver. Qed.
Lemma tx_read_Ok {A} (f : Table K V → A) db a db' :
  tx_read f db = Ok (a, db') ↔ a = f db ∧ db' = db.
Proof. unfold tx_read. naive_solver. Qed.
Lemma tx_modify_Ok f db (u : ()) db' : tx_modify f db = Ok (u, db') ↔ db' = f db.
Proof. unfold tx_modify. destruct u. naive_solver. Qed.

Context (R : Table K V → Table K V → Prop) `{!PreOrder R}.
Lemma preserves_modify f : (∀ db, R db (f db)) → preserves R (tx_modify f).
Proof. intros H s a s' ->%tx_modify_Ok. apply H. Qed.
Lemma preserves_get (k : K) : preserves R (tx_get k).
Proof. by intros s a s' [_ ->]%tx_get_Ok. Qed.
Lemma preserves_read {A} (f : Table K V → A) : preserves R (tx_read f).
Proof. by intros s a s' [_ ->]%tx_read_Ok. Qed.
Lemma preserves_insert (k : K) v : (∀ db, R db (<[k:=v]> db)) → preserves R (tx_insert k v).
Proof. intros H s a s' [_ ->]%tx_insert_Ok. apply H. Qed.
Lemma preserves_remove (k : K) : (∀ db, R db (delete k db)) → preserves R (tx_remove k).
Proof. intros H s a s' [_ ->]%tx_remove_Ok. apply H. Qed.
End table_lemmas.

(** Start of a proof about the committed database of a write transaction. *)
Ltac on_commit E a :=
  match goal with |- context [write_tx ?b ?db] =>
    let db' := fresh "db'" in
    destruct (write_tx_cases b db) as [->|(a & db' & E & ->)]; [done |]; simpl
  end.

(** Decompose a successful run into the runs of its steps. *)
Ltac tx_inv H :=
  lazymatch type of H with
  | (_ ≫= _) _ = Ok _ =>
      let a := fresh "a" in let s := fresh "s" in let H1 := fresh "H" in let H2 := fresh "H" in
      apply tx_bind_Ok in H as (a & s & H1 & H2); tx_inv H1; tx_inv H2
  | lift _ _ = Ok _ => apply lift_Ok in H as [H ->]; res_inv H
  | tx_get _ _ = Ok _ => apply tx_get_Ok in H as [-> ->]
  | tx_insert _ _ _ = Ok _ => apply tx_insert_Ok in H as [-> ->]
  | tx_remove _ _ = Ok _ => apply tx_remove_Ok in H as [-> ->]
  | tx_read _ _ = Ok _ => apply tx_read_Ok in H as [-> ->]
  | tx_modify _ _ = Ok _ => apply tx_modify_Ok in H as ->
  | mret _ _ = Ok _ => apply tx_ret_Ok in H as [? ->]; simplify_eq
  | _ => idtac
  end
with res_inv H :=
  lazymatch type of H with
  | (_ ≫= _) = Ok _ =>
      let a := fresh "a" in let H1 := fresh "H" in let H2 := fresh "H" in
      apply result_bind_Ok in H as (a & H1 & H2); res_inv H1; res_inv H2
  | ensure _ _ _ = Ok ?u => destruct u; apply ensure_Ok in H
  | ok_or _ _ = Ok _ => apply ok_or_Ok in H
  | Ok _ = Ok _ => simplify_eq
  | _ => idtac
  end.

(** ** Key order *)

Lemma string_le_cons a b s t :
  String.le (String a s) (String b t) ↔
  (Ascii.compare a b = Lt ∨ a = b ∧ String.le s t).
Proof.
  unfold String.le, String.leb. rewrite !Is_true_true. simpl.
  destruct (Ascii.compare a b) eqn:E; simpl.
  - apply Ascii.compare_eq_iff in E as ->. naive_solver.
  - naive_solver.
  - split; [done |]. intros [H|[-> _]]; [done |].
    exfalso. unfold Ascii.compare in E. by rewrite N.compare_refl in E.
Qed.

Lemma ascii_lt_asym a b : Ascii.compare a b = Lt → Ascii.compare b a = Lt → False.
Proof.
  unfold Ascii.compare. rewrite !N.compare_lt_iff. lia.
Qed.

Lemma string_le_app p x y : String.le (p +:+ x) (p +:+ y) ↔ String.le x y.
Proof.
  induction p as [|a p IH]; [done |]. rewrite !app_cons, string_le_cons, IH. split; [| by right].
  intros [H|[_ H]]; [| done]. by apply ascii_lt_asym in H.
Qed.
Lemma string_le_prefix p t : String.le p (p +:+ t).
Proof.
  induction p as [|a p IH]; [destruct t; exact I |]. rewrite app_cons, string_le_cons. auto.
Qed.

Lemma string_le_nonempty a p : ¬ String.le (String a p) "".
Proof. exact (λ H, H). Qed.

(** The keys that start with [p] are consecutive from [p] on. *)
Lemma prefix_interval p k1 k2 :
  String.le p k1 → String.le k1 k2 → starts_with p k1 = false → starts_with p k2 = false.
Proof.
  intros H1 H2 Hn. destruct (starts_with p k2) eqn:E; [| done]. exfalso.
  apply starts_with_spec in E as [t ->].
  assert (Hn' : ∀ t, k1 ≠ p +:+ t).
  { intros t' ->. assert (starts_with p (p +:+ t') = true) by (apply starts_with_spec; eauto).
    congruence. }
  clear Hn. revert k1 t H1 H2 Hn'. induction p as [|a p IH]; intros k1 t H1 H2 Hn.
  { by apply (Hn k1). }
  destruct k1 as [|b k1]; [by apply string_le_nonempty in H1 |]. rewrite app_cons in H2.
  apply string_le_cons in H1 as [H1|[-> H1]]; apply string_le_cons in H2 as [H2|[He H2]].
  - by eapply ascii_lt_asym.
  - subst. by eapply ascii_lt_asym.
  - by eapply ascii_lt_asym.
  - apply (IH k1 t); try done. intros t' ->. by apply (Hn t').
Qed.

Lemma row_le_trans {V} : Transitive (@row_le V).
Proof. intros x y z. unfold row_le. intros; by etrans. Qed.
Lemma row_le_total {V} : Total (@row_le V).
Proof. intros x y. unfold row_le. apply String.le_total. Qed.

Lemma sort_rows_perm {V} (l : list (string * V)) : sort_rows l ≡ₚ l.
Proof. apply merge_sort_Permutation. Qed.
Lemma sort_rows_sorted {V} (l : list (string * V)) : StronglySorted row_le (sort_rows l).
Proof. apply StronglySorted_merge_sort; [apply row_le_trans | apply row_le_total]. Qed.

Lemma StronglySorted_filter {A} (R : relation A) (P : A → Prop) `{!∀ x, Decision (P x)} l :
  StronglySorted R l → StronglySorted R (filter P l).
Proof.
  induction 1 as [|a l Hs IH Hall]; [constructor |]. rewrite filter_cons.
  case_decide; [| done]. constructor; [done |]. rewrite Forall_forall in *.
  intros x [_ Hx]%list_elem_of_filter. auto.
Qed.

(** The bounded scan of a key prefix sees exactly the rows with that prefix. *)
Lemma prefix_scan_filter {V} (p : string) (rows : list (string * V)) :
  StronglySorted row_le rows →
  prefix_scan p rows = filter (λ kv, starts_with p kv.1 = true) rows.
Proof.
  intros Hs. unfold prefix_scan, range_from. rewrite take_while_filter.
  - rewrite list_filter_filter. apply list_filter_iff. intros [k v]; simpl.
    split; [naive_solver |]. intros H; split; [done |].
    apply starts_with_spec in H as [t ->]. apply string_le_prefix.
  - intros l1 a l2 b Hl Ha Hb.
    assert (Hs' := StronglySorted_filter _ (λ kv, String.le p kv.1) _ Hs).
    assert (Hp : String.le p a.1).
    { assert (Hin : a ∈ l1 ++ a :: l2) by set_solver. rewrite <-Hl in Hin.
      by apply list_elem_of_filter in Hin as [? _]. }
    rewrite Hl in Hs'. apply StronglySorted_app_1_r, StronglySorted_cons in Hs' as [Hall _].
    rewrite Forall_forall in Hall. eapply prefix_interval; [done | by apply Hall | done].
Qed.

Section row_lemmas.
Context {T V : Type} `{!EqDecision T} `{!Redb (T * string)}.
Implicit Types db : Table (T * string) V.

Lemma table_rows_sorted (t : T) db : StronglySorted row_le (table_rows t db).
Proof. apply sort_rows_sorted. Qed.

Lemma elem_of_table_rows (t : T) db k v : (k, v) ∈ table_rows t db ↔ db !! (t, k) = Some v.
Proof.
  unfold table_rows. rewrite sort_rows_perm, list_elem_of_omap. split.
  - intros ([[t' k'] v'] & Hin & Hd). simpl in Hd. case_decide; simplify_eq.
    by apply elem_of_map_to_list in Hin.
  - intros Hk. exists ((t, k), v). split; [by apply elem_of_map_to_list |].
    simpl. by rewrite decide_True.
Qed.

Lemma NoDup_table_rows (t : T) db : NoDup (table_rows t db).*1.
Proof.
  unfold table_rows. rewrite sort_rows_perm.
  assert (H := NoDup_fst_map_to_list db). revert H.
  induction (map_to_list db) as [|[[t' k'] v'] l IH]; simpl; [constructor |].
  intros [Hn Hnd]%NoDup_cons. case_decide as Ht; simpl; [| auto].
  constructor; [| auto]. intros Hin. apply Hn. apply list_elem_of_fmap in Hin as ([k v] & -> & Hin).
  apply list_elem_of_omap in Hin as ([[t2 k2] v2] & Hin & Hd). simpl in Hd.
  case_decide as Ht2; simplify_eq. apply list_elem_of_fmap. by exists ((t, k), v).
Qed.

Lemma elem_of_prefix_scan (t : T) db p k v :
  (k, v) ∈ prefix_scan p (table_rows t db) ↔ starts_with p k = true ∧ db !! (t, k) = Some v.
Proof.
  rewrite prefix_scan_filter by apply table_rows_sorted.
  by rewrite list_elem_of_filter, elem_of_table_rows.
Qed.

Lemma lookup_delete_keys (t : T) ks db j :
  delete_keys t ks db !! j =
  if decide (j.1 = t ∧ j.2 ∈ ks) then None else db !! j.
Proof.
  unfold delete_keys. revert db. induction ks as [|k ks IH]; intros db; simpl.
  - rewrite decide_False; [done | set_solver].
  - rewrite IH. destruct j as [t' k']; simpl.
    destruct (decide ((t, k) = (t', k'))) as [[= -> ->]|Hne].
    + rewrite lookup_delete_eq. repeat case_decide; set_solver.
    + rewrite lookup_delete_ne by done. apply decide_ext.
      rewrite elem_of_cons. naive_solver.
Qed.
End row_lemmas.

(** [engram_core::security], the part the stores depend on: the check that a
    component of a composite key holds none of the key separators, and the
    composite keys built from checked components. *)

(** * Definitions *)

(** The loop over the rejected characters: the first one found fails, and the
    failure shows at most the first 80 bytes of the value. *)
Fixpoint reject_chars (name value : string) (chars : list (ascii * string)) : result () :=
  match chars with
  | [] => Ok tt
  | (ch, label) :: rest =>
      if contains_char ch value then
        shown ← str_slice_to "validate_key_component" (Nat.min (String.length value) 80) value;
        Fail (Bail "ENG-AUD-2026-S09-001: key component '{name}' contains {label} — this would corrupt composite keys. Value (truncated): {:?}"
                   [name; label; shown])
      else reject_chars name value rest
  end.

Definition validate_key_component (name value : string) : result () :=
  _ ← ensure (negb (String.eqb value ""))
        "ENG-AUD-2026-S09-001: key component '{name}' must not be empty" [name];
  reject_chars name value [(NUL, "NUL byte"); (LF, "newline"); (CR, "carriage-return")].

(** The registry's composite keys: [format!("{project_id}\0{key}")]. *)
Definition project_prefix (project_id : string) : string := project_id +:+ str1 NUL.
Definition project_key (project_id key : string) : string := project_prefix project_id +:+ key.

(** A value [validate_key_component] accepts. *)
Definition valid_component (value : string) : bool :=
  negb (String.eqb value "") && negb (contains_char NUL value)
  && negb (contains_char LF value) && negb (contains_char CR value).

(** Cut inside a two-byte character: 79 letters, then [é], then a NUL. *)
Fixpoint repeat_char (c : ascii) (n : nat) : string :=
  match n with O => "" | S n' => String c (repeat_char c n') end.
Definition straddling_value : string := repeat_char "a" 79 +:+ "é" +:+ str1 NUL.

(** * Lemmas *)

Lemma reject_chars_Ok name value chars :
  reject_chars name value chars = Ok tt ↔
  forallb (λ cl, negb (contains_char cl.1 value)) chars = true.
Proof.
  induction chars as [|[ch label] rest IH]; simpl; [done |].
  destruct (contains_char ch value); simpl; [| by rewrite IH].
  split; [| done]. unfold str_slice_to. by destruct (is_char_boundary _ _).
Qed.

Lemma validate_key_component_Ok name value :
  validate_key_component name value = Ok tt ↔ valid_component value = true.
Proof.
  unfold validate_key_component, valid_component. rewrite result_bind_Ok.
  setoid_rewrite reject_chars_Ok. simpl. rewrite andb_true_r, <-!andb_assoc.
  destruct (String.eqb value ""); simpl; naive_solver.
Qed.

Lemma valid_component_no_NUL v : valid_component v = true → contains_char NUL v = false.
Proof. unfold valid_component. rewrite !andb_true_iff, !negb_true_iff. tauto. Qed.

Lemma valid_component_nonempty v : valid_component v = true → v ≠ "".
Proof. unfold valid_component. by destruct v. Qed.

Lemma project_key_unfold p k : project_key p k = p +:+ String NUL k.
Proof. unfold project_key, project_prefix, str1. by rewrite app_assoc_str, app_cons, app_nil_l. Qed.

Lemma project_key_inj_NUL p1 p2 k1 k2 :
  contains_char NUL p1 = false → contains_char NUL p2 = false →
  project_key p1 k1 = project_key p2 k2 → p1 = p2 ∧ k1 = k2.
Proof. rewrite !project_key_unfold. apply sep_inj. Qed.

Lemma project_key_inj_suffix p1 p2 k1 k2 :
  contains_char NUL k1 = false → contains_char NUL k2 = false →
  project_key p1 k1 = project_key p2 k2 → p1 = p2 ∧ k1 = k2.
Proof. rewrite !project_key_unfold. apply sep_inj_r. Qed.

Lemma project_key_inj_r p k1 k2 : project_key p k1 = project_key p k2 → k1 = k2.
Proof. apply app_inj_l. Qed.

Lemma starts_with_project_key p q k :
  contains_char NUL p = false → contains_char NUL q = false →
  starts_with (project_prefix p) (project_key q k) = true ↔ p = q.
Proof.
  intros Hp Hq. rewrite starts_with_spec. split.
  - intros [t Ht]. symmetry.
    by apply (project_key_inj_NUL q p k t) in Ht as [-> _].
  - intros ->. by exists k.
Qed.

(** * Theorems *)

(** The key check accepts exactly the non-empty values without a NUL, a
    line feed or a carriage return. *)
Theorem key_component_accepted_iff name value :
  validate_key_component name value = Ok tt ↔
  value ≠ "" ∧ contains_char NUL value = false ∧ contains_char LF value = false ∧
  contains_char CR value = false.
Proof.
  rewrite validate_key_component_Ok. unfold valid_component.
  rewrite !andb_true_iff, !negb_true_iff. destruct (String.eqb_spec value ""); naive_solver.
Qed.

(** Composite keys of checked components never collide: the key of one
    project and component is the key of no other, and a scan of one project's
    prefix sees the keys of that project only. *)
Theorem composite_keys_do_not_collide n1 n2 n3 n4 p1 k1 p2 k2 :
  validate_key_component n1 p1 = Ok tt → validate_key_component n2 k1 = Ok tt →
  validate_key_component n3 p2 = Ok tt → validate_key_component n4 k2 = Ok tt →
  (project_key p1 k1 = project_key p2 k2 → p1 = p2 ∧ k1 = k2) ∧
  (starts_with (project_prefix p1) (project_key p2 k2) = true ↔ p1 = p2).
Proof.
  intros Hp1%validate_key_component_Ok%valid_component_no_NUL _
    Hp2%validate_key_component_Ok%valid_component_no_NUL _.
  split; [by apply project_key_inj_NUL | by apply starts_with_project_key].
Qed.

(** The rejection itself can panic: the message shows the first eighty
    bytes of the value, and a value with a separator whose eightieth byte is
    inside a multi-byte character ends in a panic instead of an error. *)
Theorem rejection_panics_inside_a_character name :
  validate_key_component name straddling_value = Fail (Panic "validate_key_component").
Proof. reflexivity. Qed.

(** The accepted components and a rejected key of the theorem above. *)
Lemma composite_keys_do_not_collide_witness :
  (project_key "p" "a" = project_key "q" "b" → "p" = "q" ∧ "a" = "b") ∧
  (starts_with (project_prefix "p") (project_key "q" "b") = true ↔ "p" = "q").
Proof. by apply (composite_keys_do_not_collide "n" "n" "n" "n" "p" "a" "q" "b"). Defined.
