(* ===== verification/Records.v ===== *)
(** The rows of the registry ([engram_core::registry]): its tables, the
    serialised records, their codecs, and the transaction steps that read and
    decode a row. *)
From S2P Require Import Prelude Text Store.

(** * Tables *)

Inductive TableId := PROJECTS | MEMORY_BANK | REPO_RULES | WATCHES | JOBS | META.

#[export] Instance TableId_eq_dec : EqDecision TableId.
Proof. solve_decision. Defined.

Definition TableId_code (t : TableId) : nat :=
  match t with
  | PROJECTS => 0 | MEMORY_BANK => 1 | REPO_RULES => 2 | WATCHES => 3 | JOBS => 4 | META => 5
  end%nat.
Definition TableId_decode (n : nat) : TableId :=
  match n with
  | 0 => PROJECTS | 1 => MEMORY_BANK | 2 => REPO_RULES | 3 => WATCHES | 4 => JOBS | _ => META
  end%nat.
Lemma TableId_decode_code t : TableId_decode (TableId_code t) = t.
Proof. by destruct t. Qed.
#[export] Instance TableId_countable : Countable TableId :=
  inj_countable' TableId_code TableId_decode TableId_decode_code.

(** * Records *)

Record ProjectRecord := {
  project_id : string;
  project_name : string;
  project_type : string;
  directory : string;
  created_at_ms : N;
  updated_at_ms : N;
  reindex_required_since_ms : option N;
}.

Record MemorySection := {
  section_id : string;
  sec_title : string;
  sec_content : string;
  sec_updated_at_ms : N;
  sec_created_at_ms : N;
  sec_author : option string;
  sec_kind : option string;
  sec_review_after_ms : option N;
  sec_tags : list string;
  sec_related_files : list string;
}.

Record RepoRule := {
  rule_id : string;
  file_pattern : string;
  rule_text : string;
  priority : Z;
  rule_updated_at_ms : N;
  introduced_at : option string;
  provenance : option string;
}.

Record WatchRecord := {
  watch_id : string;
  watch_directory : string;
  enabled : bool;
  watch_updated_at_ms : N;
}.

Record JobRecord := {
  job_id : string;
  job_kind : string;
  job_project_id : option string;
  status : string;
  message : string;
  progress_pct : N;
  estimated_time_remaining_ms : option N;
  job_created_at_ms : N;
  job_updated_at_ms : N;
}.

(** Recovery reasons ([registry/reindex.rs]). *)
Inductive ReindexReason := Source | Vector | Unknown.

#[export] Instance ReindexReason_eq_dec : EqDecision ReindexReason.
Proof. solve_decision. Defined.
Definition reason_code (r : ReindexReason) : nat :=
  match r with Source => 0 | Vector => 1 | Unknown => 2 end%nat.
Definition reason_decode (n : nat) : ReindexReason :=
  match n with 0 => Source | 1 => Vector | _ => Unknown end%nat.
Lemma reason_decode_code r : reason_decode (reason_code r) = r.
Proof. by destruct r. Qed.
#[export] Instance ReindexReason_countable : Countable ReindexReason :=
  inj_countable' reason_code reason_decode reason_decode_code.

Record Requirement := { since_ms : N; req_revision : N }.

Record Requirements := {
  revision : N;
  pending : gmap ReindexReason Requirement;
}.

#[export] Instance ProjectRecord_eq_dec : EqDecision ProjectRecord.
Proof. solve_decision. Defined.
#[export] Instance MemorySection_eq_dec : EqDecision MemorySection.
Proof. solve_decision. Defined.
#[export] Instance RepoRule_eq_dec : EqDecision RepoRule.
Proof. solve_decision. Defined.
#[export] Instance WatchRecord_eq_dec : EqDecision WatchRecord.
Proof. solve_decision. Defined.
#[export] Instance JobRecord_eq_dec : EqDecision JobRecord.
Proof. solve_decision. Defined.
#[export] Instance Requirement_eq_dec : EqDecision Requirement.
Proof. solve_decision. Defined.
#[export] Instance Requirements_eq_dec : EqDecision Requirements.
Proof. solve_decision. Defined.

(** * Codecs *)

(** [serde_json] on a [u64]: the decimal text, and only values of the type are
    read back. *)
Class JsonU64 := {
  u64_to_vec : N → bytes;
  u64_from_slice : bytes → result N;
  u64_to_vec_text : ∀ n, u64_to_vec n = show_u64 n;
  u64_round_trip : ∀ n, (n <= u64_max)%N → u64_from_slice (u64_to_vec n) = Ok n;
  u64_from_slice_bound : ∀ b n, u64_from_slice b = Ok n → (n <= u64_max)%N;
}.

(** Everything the registry takes from its libraries: the redb database and
    the serde codecs of its rows. *)
Class RegistryEnv := {
  env_redb :: Redb (TableId * string);
  env_project :: Json ProjectRecord;
  env_memory :: Json MemorySection;
  env_rule :: Json RepoRule;
  env_watch :: Json WatchRecord;
  env_job :: Json JobRecord;
  env_requirements :: Json Requirements;
  env_u64 :: JsonU64;
}.

(** * Operations *)

(** [vk]: the key check with its error as an [anyhow] one. *)
Definition vk (name value : string) : result () := validate_key_component name value.

Section records.
Context `{RE : !RegistryEnv}.

Notation DB := (Table (TableId * string) bytes).

(** [table.get(key)?.map(|v| serde_json::from_slice(v.value())).transpose()]. *)
Definition get_decoded `{!Json A} (t : TableId) (key : string) (db : DB) : result (option A) :=
  transpose from_slice (db !! (t, key)).

Definition tx_get_decoded `{!Json A} (t : TableId) (key : string) : Tx DB (option A) :=
  raw ← tx_get (t, key); lift (transpose from_slice raw).

(** The stored project row, decoded. *)
Definition tx_project (p : string) : Tx DB (option ProjectRecord) :=
  tx_get_decoded PROJECTS p.

Lemma tx_get_decoded_Ok `{!Json A} t key db (o : option A) db' :
  tx_get_decoded t key db = Ok (o, db') ↔ get_decoded t key db = Ok o ∧ db' = db.
Proof.
  unfold tx_get_decoded, get_decoded. rewrite tx_bind_Ok. setoid_rewrite lift_Ok.
  setoid_rewrite tx_get_Ok. naive_solver.
Qed.

Lemma get_decoded_insert_eq `{!Json A} t key (a : A) (db : DB) :
  get_decoded t key (<[(t, key) := to_vec a]> db) = Ok (Some a).
Proof. unfold get_decoded. rewrite lookup_insert_eq. simpl. by rewrite from_slice_to_vec. Qed.

Lemma get_decoded_insert_ne `{!Json A} t t' key key' v (db : DB) :
  (t', key') ≠ (t, key) →
  get_decoded (A:=A) t key (<[(t', key') := v]> db) = get_decoded t key db.
Proof. intros. unfold get_decoded. by rewrite lookup_insert_ne. Qed.

Lemma preserves_get_decoded `{!Json A} (R : DB → DB → Prop) `{!PreOrder R} t key :
  preserves R (tx_get_decoded (A:=A) t key).
Proof. by intros db o db' [_ ->]%tx_get_decoded_Ok. Qed.

End records.

(** The registry's database. *)
Notation DB := (Table (TableId * string) bytes).
