(* ===== verification/Concrete.v ===== *)
(** Concrete instances of the library interfaces, for evaluating the model:
    tables are stdpp's [gmap], a codec writes the binary digits of stdpp's
    [encode], a [u64] is written in decimal, and the digest writes the first 32
    bytes of its input in hexadecimal. *)
From S2P Require Import Prelude Text Store Records.

(** * Definitions *)

Definition gmap_redb `{Countable K} : Redb K := {| Table := gmap K |}.

(** Binary digits, least significant first. *)
Fixpoint show_positive (p : positive) : string :=
  match p with
  | xH => "1"
  | xO p' => String "o" (show_positive p')
  | xI p' => String "i" (show_positive p')
  end.
Fixpoint read_positive (s : string) : option positive :=
  match s with
  | "1" => Some xH
  | String "o" s' => xO <$> read_positive s'
  | String "i" s' => xI <$> read_positive s'
  | _ => None
  end.

Definition countable_to_vec `{Countable A} (a : A) : bytes := show_positive (encode a).
Definition countable_from_slice `{Countable A} (b : bytes) : result A :=
  match read_positive b ≫= decode with Some a => Ok a | None => Fail SerdeError end.

Lemma read_show_positive p : read_positive (show_positive p) = Some p.
Proof.
  induction p as [p IH|p IH|]; simpl; [| | done]; by rewrite IH.
Qed.

Lemma countable_round_trip `{Countable A} (a : A) :
  countable_from_slice (countable_to_vec a) = Ok a.
Proof.
  unfold countable_from_slice, countable_to_vec. rewrite read_show_positive. simpl.
  by rewrite decode_encode.
Qed.

(** ** Lists of texts *)

(** Every character of a field follows a ">", and "<" ends the field. *)
Fixpoint write_field (f rest : string) : string :=
  match f with
  | "" => String "<" rest
  | String c f' => String ">" (String c (write_field f' rest))
  end.
Definition write_fields (l : list string) : string := foldr write_field "" l.
Fixpoint read_fields (s : string) : option (list string) :=
  match s with
  | "" => Some []
  | String "<" s' => cons "" <$> read_fields s'
  | String ">" (String c s') =>
      match read_fields s' with
      | Some (f :: fs) => Some (String c f :: fs)
      | _ => None
      end
  | _ => None
  end.
Lemma read_write_fields l : read_fields (write_fields l) = Some l.
Proof.
  unfold write_fields. induction l as [|f l IH]; [done |]. cbn [foldr].
  induction f as [|c f IHf]; simpl; [by rewrite IH |]. by rewrite IHf.
Qed.

(** A list through the texts of its elements. *)
Definition write_list {A} (w : A → string) (l : list A) : string := write_fields (w <$> l).
Definition read_list {A} (r : string → option A) (s : string) : option (list A) :=
  fs ← read_fields s; mapM r fs.
Lemma read_write_list {A} (w : A → string) r l :
  (∀ a, r (w a) = Some a) → read_list r (write_list w l) = Some l.
Proof.
  intros Hr. unfold read_list, write_list. rewrite read_write_fields. simpl.
  induction l as [|a l IH]; [done |]. cbn. by rewrite Hr; cbn; rewrite IH.
Qed.

Definition countable_json `{Countable A} : Json A :=
  {| to_vec := countable_to_vec; from_slice := countable_from_slice;
     from_slice_to_vec := countable_round_trip |}.

Definition concrete_u64 : JsonU64 :=
  {| u64_to_vec := show_u64; u64_from_slice := parse_u64;
     u64_to_vec_text := λ n, eq_refl; u64_round_trip := parse_show_u64;
     u64_from_slice_bound := parse_u64_bound |}.

(** ** A digest *)

Definition hex_digit (n : N) : ascii :=
  if (n <? 10)%N then ascii_of_N (48 + n) else ascii_of_N (87 + n).
Fixpoint hex_bytes (count : nat) (b : bytes) : string :=
  match count with
  | O => ""
  | S count' =>
      let c := match b with String c _ => N_of_ascii c | "" => 0%N end in
      let rest := match b with String _ b' => b' | "" => "" end in
      String (hex_digit (c / 16)) (String (hex_digit (c mod 16)) (hex_bytes count' rest))
  end.
Definition toy_hex (b : bytes) : string := hex_bytes 32 b.

Lemma hex_digit_lower n : (n < 16)%N → is_lower_hexdigit (hex_digit n) = true.
Proof.
  intros Hn. destruct n as [|p]; [done |].
  do 5 (try (destruct p as [p|p|]; try done; try lia)).
Qed.
Lemma hex_bytes_shape count b :
  String.length (hex_bytes count b) = (2 * count)%nat ∧
  string_forallb is_lower_hexdigit (hex_bytes count b) = true.
Proof.
  revert b. induction count as [|count IH]; intros b; [done |]. cbn [hex_bytes].
  set (c := match b with String c _ => N_of_ascii c | "" => 0%N end).
  assert (Hc : (c < 256)%N) by (destruct b; [unfold c; lia | apply N_ascii_bounded]).
  destruct (IH (match b with String _ b' => b' | "" => "" end)) as [Hl Hf].
  split; [cbn [String.length]; rewrite Hl; lia |]. cbn [string_forallb].
  rewrite Hf, !hex_digit_lower; [done | | ].
  - apply N.mod_lt. lia.
  - apply N.Div0.div_lt_upper_bound. lia.
Qed.
Definition toy_blake3 : Blake3 :=
  {| blake3_hex := toy_hex; blake3_hex_shape := hex_bytes_shape 32 |}.

(** ** Records as tuples *)

Definition ProjectRecord_tuple (r : ProjectRecord) :=
  (project_id r, project_name r, project_type r, directory r, created_at_ms r,
   updated_at_ms r, reindex_required_since_ms r).
Definition ProjectRecord_of (t : string * string * string * string * N * N * option N) :=
  let '(a, b, c, d, e, f, g) := t in Build_ProjectRecord a b c d e f g.
Lemma ProjectRecord_of_tuple r : ProjectRecord_of (ProjectRecord_tuple r) = r.
Proof. by destruct r. Qed.
#[export] Instance ProjectRecord_countable : Countable ProjectRecord :=
  inj_countable' ProjectRecord_tuple ProjectRecord_of ProjectRecord_of_tuple.

Definition MemorySection_tuple (r : MemorySection) :=
  (section_id r, sec_title r, sec_content r, sec_updated_at_ms r, sec_created_at_ms r,
   sec_author r, sec_kind r, sec_review_after_ms r, sec_tags r, sec_related_files r).
Definition MemorySection_of
    (t : string * string * string * N * N * option string * option string * option N
         * list string * list string) :=
  let '(a, b, c, d, e, f, g, h, i, j) := t in Build_MemorySection a b c d e f g h i j.
Lemma MemorySection_of_tuple r : MemorySection_of (MemorySection_tuple r) = r.
Proof. by destruct r. Qed.
#[export] Instance MemorySection_countable : Countable MemorySection :=
  inj_countable' MemorySection_tuple MemorySection_of MemorySection_of_tuple.

Definition RepoRule_tuple (r : RepoRule) :=
  (rule_id r, file_pattern r, rule_text r, priority r, rule_updated_at_ms r,
   introduced_at r, provenance r).
Definition RepoRule_of (t : string * string * string * Z * N * option string * option string) :=
  let '(a, b, c, d, e, f, g) := t in Build_RepoRule a b c d e f g.
Lemma RepoRule_of_tuple r : RepoRule_of (RepoRule_tuple r) = r.
Proof. by destruct r. Qed.
#[export] Instance RepoRule_countable : Countable RepoRule :=
  inj_countable' RepoRule_tuple RepoRule_of RepoRule_of_tuple.

(** A rule is an object: a map from its field names to the text of the fields. *)
Definition RepoRule_fields (r : RepoRule) : gmap string string :=
  <["rule_id" := countable_to_vec (rule_id r)]> $
  <["file_pattern" := countable_to_vec (file_pattern r)]> $
  <["rule_text" := countable_to_vec (rule_text r)]> $
  <["priority" := countable_to_vec (priority r)]> $
  <["updated_at_ms" := countable_to_vec (rule_updated_at_ms r)]> $
  <["introduced_at" := countable_to_vec (introduced_at r)]> $
  <["provenance" := countable_to_vec (provenance r)]> ∅.
Definition object_field `{Countable A} (m : gmap string string) (k : string) : result A :=
  raw ← ok_or (m !! k) SerdeError; countable_from_slice raw.
Definition RepoRule_of_fields (m : gmap string string) : result RepoRule :=
  a ← object_field m "rule_id"; b ← object_field m "file_pattern"; c ← object_field m "rule_text";
  d ← object_field m "priority"; e ← object_field m "updated_at_ms";
  f ← object_field m "introduced_at"; g ← object_field m "provenance";
  Ok (Build_RepoRule a b c d e f g).
Lemma object_field_Ok `{Countable A} (m : gmap string string) k (a : A) :
  m !! k = Some (countable_to_vec a) → object_field m k = Ok a.
Proof. intros Hk. unfold object_field. rewrite Hk. apply countable_round_trip. Qed.
Lemma RepoRule_of_to_fields r : RepoRule_of_fields (RepoRule_fields r) = Ok r.
Proof.
  unfold RepoRule_of_fields.
  repeat (erewrite object_field_Ok by (unfold RepoRule_fields; by simplify_map_eq); simpl).
  by destruct r.
Qed.
Lemma RepoRule_of_more_fields r o : RepoRule_of_fields (RepoRule_fields r ∪ o) = Ok r.
Proof.
  unfold RepoRule_of_fields.
  repeat (erewrite object_field_Ok by (apply lookup_union_Some_l; unfold RepoRule_fields; by simplify_map_eq);
          simpl).
  by destruct r.
Qed.
Fixpoint pairs (l : list string) : option (list (string * string)) :=
  match l with
  | [] => Some []
  | k :: v :: l' => cons (k, v) <$> pairs l'
  | _ => None
  end.
Definition object_to_vec (m : gmap string string) : bytes :=
  write_fields (foldr (λ kv l, kv.1 :: kv.2 :: l) [] (map_to_list m)).
Definition object_from_slice (b : bytes) : result (gmap string string) :=
  match read_fields b ≫= pairs with Some l => Ok (list_to_map l) | None => Fail SerdeError end.
Lemma object_round_trip m : object_from_slice (object_to_vec m) = Ok m.
Proof.
  unfold object_from_slice, object_to_vec. rewrite read_write_fields. cbn [mbind option_bind].
  assert (Hp : ∀ l, pairs (foldr (λ kv l, kv.1 :: kv.2 :: l) [] l) = Some l).
  { intros l. induction l as [|[k v] l IH]; [done |]. cbn. by rewrite IH. }
  by rewrite Hp, list_to_map_to_list.
Qed.
Lemma RepoRule_json_round_trip r :
  (object_from_slice (object_to_vec (RepoRule_fields r)) ≫= RepoRule_of_fields) = Ok r.
Proof.
  rewrite object_round_trip. apply RepoRule_of_to_fields.
Qed.
Definition RepoRule_json : Json RepoRule :=
  {| to_vec := λ r, object_to_vec (RepoRule_fields r);
     from_slice := λ b, object_from_slice b ≫= RepoRule_of_fields;
     from_slice_to_vec := RepoRule_json_round_trip |}.

Definition WatchRecord_tuple (r : WatchRecord) :=
  (watch_id r, watch_directory r, enabled r, watch_updated_at_ms r).
Definition WatchRecord_of (t : string * string * bool * N) :=
  let '(a, b, c, d) := t in Build_WatchRecord a b c d.
Lemma WatchRecord_of_tuple r : WatchRecord_of (WatchRecord_tuple r) = r.
Proof. by destruct r. Qed.
#[export] Instance WatchRecord_countable : Countable WatchRecord :=
  inj_countable' WatchRecord_tuple WatchRecord_of WatchRecord_of_tuple.

Definition JobRecord_tuple (r : JobRecord) :=
  (job_id r, job_kind r, job_project_id r, status r, message r, progress_pct r,
   estimated_time_remaining_ms r, job_created_at_ms r, job_updated_at_ms r).
Definition JobRecord_of
    (t : string * string * option string * string * string * N * option N * N * N) :=
  let '(a, b, c, d, e, f, g, h, i) := t in Build_JobRecord a b c d e f g h i.
Lemma JobRecord_of_tuple r : JobRecord_of (JobRecord_tuple r) = r.
Proof. by destruct r. Qed.
#[export] Instance JobRecord_countable : Countable JobRecord :=
  inj_countable' JobRecord_tuple JobRecord_of JobRecord_of_tuple.

Definition Requirement_tuple (r : Requirement) := (since_ms r, req_revision r).
Definition Requirement_of (t : N * N) := Build_Requirement t.1 t.2.
Lemma Requirement_of_tuple r : Requirement_of (Requirement_tuple r) = r.
Proof. by destruct r. Qed.
#[export] Instance Requirement_countable : Countable Requirement :=
  inj_countable' Requirement_tuple Requirement_of Requirement_of_tuple.

Definition Requirements_tuple (r : Requirements) := (revision r, pending r).
Definition Requirements_of (t : N * gmap ReindexReason Requirement) := Build_Requirements t.1 t.2.
Lemma Requirements_of_tuple r : Requirements_of (Requirements_tuple r) = r.
Proof. by destruct r. Qed.
#[export] Instance Requirements_countable : Countable Requirements :=
  inj_countable' Requirements_tuple Requirements_of Requirements_of_tuple.

(** The registry over [gmap] with these codecs. *)
Definition concrete_env : RegistryEnv :=
  {| env_redb := gmap_redb; env_project := countable_json; env_memory := countable_json;
     env_rule := RepoRule_json; env_watch := countable_json; env_job := countable_json;
     env_requirements := countable_json; env_u64 := concrete_u64 |}.

(** A database with no rows. *)
Definition empty_db : Table (TableId * string) bytes := @empty _ (@redb_empty _ _ (@env_redb concrete_env) _).
