(* ===== verification/Reindex.v ===== *)
(** [engram_core::registry::reindex]: durable recovery reasons, the database-wide
    revision sequence and the revision-checked settlement of a reason. *)
From S2P Require Import Prelude Text Store Records Concrete.

Open Scope N_scope.

(** * Definitions *)

Definition KEY : string := "reindex_requirements_v1".

(** The leading NUL keeps the sequence outside every project's keys. *)
Definition REVISION_SEQUENCE : string := String NUL "reindex_revision_sequence_v1".

Record ReindexRequirementToken := {
  tok_project_id : string;
  tok_reason : ReindexReason;
  tok_revision : N;
}.
#[export] Instance ReindexRequirementToken_eq_dec : EqDecision ReindexRequirementToken.
Proof. solve_decision. Defined.

(** The reasons in the order of the [BTreeMap]. *)
Definition reasons : list ReindexReason := [Source; Vector; Unknown].
Definition pending_reasons (r : Requirements) : list ReindexReason :=
  filter (λ reason, is_Some (pending r !! reason)) reasons.
Definition pending_values (r : Requirements) : list Requirement :=
  omap (λ reason, pending r !! reason) reasons.

(** [Requirements::since_ms]: the minimum over the pending reasons. *)
Definition requirements_since_ms (r : Requirements) : option N :=
  match since_ms <$> pending_values r with
  | [] => None
  | x :: xs => Some (foldl N.min x xs)
  end.

Definition default_requirements : Requirements := {| revision := 0; pending := ∅ |}.

(** [Requirements::legacy]. *)
Definition legacy (since : option N) : Requirements :=
  match since with
  | Some s => {| revision := 1; pending := {[Unknown := {| since_ms := s; req_revision := 1 |}]} |}
  | None => default_requirements
  end.

(** [Requirements::token]. *)
Definition token (r : Requirements) (p : string) (reason : ReindexReason)
  : option ReindexRequirementToken :=
  (λ q, {| tok_project_id := p; tok_reason := reason; tok_revision := req_revision q |})
    <$> pending r !! reason.

Definition key (p : string) : string := project_key p KEY.

Definition set_since (rec : ProjectRecord) (s : option N) : ProjectRecord :=
  {| project_id := project_id rec; project_name := project_name rec;
     project_type := project_type rec; directory := directory rec;
     created_at_ms := created_at_ms rec; updated_at_ms := updated_at_ms rec;
     reindex_required_since_ms := s |}.
Definition touch (rec : ProjectRecord) (now : N) : ProjectRecord :=
  {| project_id := project_id rec; project_name := project_name rec;
     project_type := project_type rec; directory := directory rec;
     created_at_ms := created_at_ms rec; updated_at_ms := N.max (updated_at_ms rec) now;
     reindex_required_since_ms := reindex_required_since_ms rec |}.

Section reindex.
Context `{RE : !RegistryEnv}.

Definition read_requirements (p : string) : Tx DB (option Requirements) :=
  tx_get_decoded META (key p).

Definition next_revision (project_floor : N) : Tx DB N :=
  raw ← tx_get (META, REVISION_SEQUENCE);
  last ← lift (transpose u64_from_slice raw);
  next ← lift (ok_or (checked_add (N.max (default 0 last) project_floor) 1)
                     (Bail "Recovery requirement revision exhausted" []));
  _ ← tx_insert (META, REVISION_SEQUENCE) (u64_to_vec next);
  mret next.

Definition requirements_for_project_write (incoming : ProjectRecord)
  : Tx DB (option Requirements) :=
  stored ← read_requirements (project_id incoming);
  match stored with
  | Some requirements => mret (Some requirements)
  | None =>
      current ← tx_project (project_id incoming);
      let since := match current ≫= reindex_required_since_ms with
                   | Some s => Some s
                   | None => reindex_required_since_ms incoming
                   end in
      match since with
      | None => mret None
      | Some s =>
          rev ← next_revision 1;
          let requirements :=
            {| revision := rev; pending := {[Unknown := {| since_ms := s; req_revision := rev |}]} |} in
          _ ← tx_insert (META, key (project_id incoming)) (to_vec requirements);
          mret (Some requirements)
      end
  end.

Definition clear_pending_on_delete (p : string) : Tx DB () :=
  project ← tx_project p;
  requirements ← match project with
                 | Some rec => requirements_for_project_write rec
                 | None => read_requirements p
                 end;
  match requirements with
  | Some r =>
      rev ← next_revision (revision r);
      tx_insert (META, key p) (to_vec {| revision := rev; pending := ∅ |})
  | None => mret tt
  end.

Definition write_requirements (project : ProjectRecord) (r : Requirements) : Tx DB () :=
  _ ← tx_insert (META, key (project_id project)) (to_vec r);
  tx_insert (PROJECTS, project_id project) (to_vec (set_since project (requirements_since_ms r))).

(** [read_requirements(..)?.unwrap_or_else(|| Requirements::legacy(..))]. *)
Definition stored_or_legacy (o : option Requirements) (project : ProjectRecord) : Requirements :=
  default (legacy (reindex_required_since_ms project)) o.

Definition reindex_reasons (p : string) (db : DB) : result (list ReindexReason) :=
  _ ← vk "project_id" p;
  project ← get_decoded PROJECTS p db;
  match project with
  | None => Ok []
  | Some rec =>
      stored ← get_decoded META (key p) db;
      Ok (pending_reasons (stored_or_legacy stored rec))
  end.

Definition record_reindex_requirement (p : string) (reason : ReindexReason) (since : N)
    (only_if_absent : bool) : DB → DB * result (option (ReindexRequirementToken * bool)) :=
  write_tx (
    _ ← lift (vk "project_id" p);
    stored ← tx_project p;
    match stored with
    | None => mret (Rollback None)
    | Some project =>
        imported ← requirements_for_project_write project;
        let r := default default_requirements imported in
        match (if only_if_absent then token r p reason else None) with
        | Some tok => mret (Commit (Some (tok, false)))
        | None =>
            rev ← next_revision (revision r);
            let s := match pending r !! reason with
                     | Some q => N.min (since_ms q) since
                     | None => since
                     end in
            let r' := {| revision := rev;
                         pending := <[reason := {| since_ms := s; req_revision := rev |}]> (pending r) |} in
            _ ← write_requirements (touch project s) r';
            mret (Commit ((λ t, (t, true)) <$> token r' p reason))
        end
    end).

Definition require_reindex (p : string) (reason : ReindexReason) (since : N) (db : DB)
  : DB * result (option ReindexRequirementToken) :=
  let '(db', r) := record_reindex_requirement p reason since false db in
  (db', (o ← r; Ok (option_map fst o))).

Definition begin_reindex_repair (p : string) (reason : ReindexReason) (since : N)
  : DB → DB * result (option (ReindexRequirementToken * bool)) :=
  record_reindex_requirement p reason since true.

Definition reindex_requirement_token (p : string) (reason : ReindexReason) (db : DB)
  : result (option ReindexRequirementToken) :=
  _ ← vk "project_id" p;
  project ← get_decoded PROJECTS p db;
  match project with
  | None => Ok None
  | Some rec =>
      stored ← get_decoded META (key p) db;
      Ok (token (stored_or_legacy stored rec) p reason)
  end.

Definition settle_reindex_requirement (tok : ReindexRequirementToken) : DB → DB * result bool :=
  write_tx (
    let p := tok_project_id tok in
    _ ← lift (vk "project_id" p);
    project ← tx_project p;
    match project with
    | None => mret (Rollback false)
    | Some rec =>
        stored ← read_requirements p;
        let r := stored_or_legacy stored rec in
        if decide (token r p (tok_reason tok) = Some tok) then
          _ ← write_requirements rec
                {| revision := revision r; pending := delete (tok_reason tok) (pending r) |};
          mret (Commit true)
        else mret (Rollback false)
    end).

Definition dismiss_reindex_requirements (p : string) : DB → DB * result () :=
  write_tx (
    _ ← lift (vk "project_id" p);
    project ← tx_project p;
    match project with
    | None => mret (Rollback tt)
    | Some rec =>
        stored ← read_requirements p;
        let r := stored_or_legacy stored rec in
        if decide (pending r = ∅) then mret (Rollback tt)
        else
          _ ← write_requirements rec {| revision := revision r; pending := ∅ |};
          mret (Commit tt)
    end).

(** [Registry::set_reindex_required] and [clear_reindex_required]. *)
Definition set_reindex_required (p : string) (since : N) (db : DB) : DB * result () :=
  let '(db', r) := require_reindex p Unknown since db in (db', (_ ← r; Ok tt)).
Definition clear_reindex_required (p : string) : DB → DB * result () :=
  dismiss_reindex_requirements p.

End reindex.
