(* ===== verification/SourceHead.v ===== *)
(** [engram_core::registry::source_head]: the published source generation of a
    project, the tokens that name an exact head (value, revision and identity
    epoch), compare-and-publish, and the recovery of a damaged head. *)
From S2P Require Import Prelude Text Store Records Concrete Reindex.

Open Scope N_scope.

(** * Definitions *)

Definition REVISION : string := "source_head_revision_v1".
Definition HEAD : string := "active_generation".
Definition REQUIRED : string := "source_head_required_v1".
Definition MANAGED : string := "source_snapshots_required_v1".
Definition LEGACY_ATTESTED : string := "source_legacy_absence_attested_v1".
Definition IDENTITY_VERIFIED : string := "source_identity_verified_v1".
Definition IDENTITY_EPOCH : string := "source_identity_epoch_v1".
Definition RECOVERY_HEAD_BYTES : N := 4096.

Definition revision_key (p : string) : string := project_key p REVISION.
Definition head_key (p : string) : string := project_key p HEAD.
Definition flag_key (p flag : string) : string := project_key p flag.

Record RecoveryMetadata := {
  rm_raw_head : option bytes;
  rm_required : option bytes;
  rm_verified : option bytes;
  rm_legacy_attested : option bytes;
  rm_managed : option bytes;
  rm_revision : N;
  rm_identity_epoch : N;
}.
#[export] Instance RecoveryMetadata_eq_dec : EqDecision RecoveryMetadata.
Proof. solve_decision. Defined.

Record SourceRecoveryToken := {
  rt_project_id : string;
  rt_metadata : RecoveryMetadata;
  rt_directory : string;
  rt_project_type : string;
}.

Record SourceRecoveryReservation := {
  rr_base : SourceRecoveryToken;
  rr_generation : N;
}.

Record SourceHeadToken := {
  ht_project_id : string;
  ht_raw_head : option string;
  ht_managed : option bytes;
  ht_generation : N;
  ht_revision : N;
  ht_identity_epoch : N;
  ht_directory : string;
  ht_project_type : string;
}.

Inductive SourceSnapshotRequirement := Managed | Unproven | AttestedLegacy | Unpublished.

Definition rt_matches_source_identity (tk : SourceRecoveryToken) (dir ty : string) : bool :=
  String.eqb (rt_directory tk) dir && String.eqb (rt_project_type tk) ty.
Definition ht_matches_source_identity (tk : SourceHeadToken) (dir ty : string) : bool :=
  String.eqb (ht_directory tk) dir && String.eqb (ht_project_type tk) ty.
Definition generation_metadata_absent (tk : SourceHeadToken) : bool :=
  match ht_raw_head tk with None => true | Some _ => false end.

(** [is_none_or(|v| v == b"1")]. *)
Definition none_or_one (v : option bytes) : bool := bool_decide (v = None ∨ v = Some "1").

Definition validate_managed (v : option bytes) : result () :=
  ensure (none_or_one v) "Invalid source snapshot requirement metadata" [].

Definition check_presence (raw : option string) (required : option bytes) : result () :=
  match required with
  | None => Ok tt
  | Some r =>
      _ ← ensure (String.eqb r "1") "Invalid source head presence metadata" [];
      ensure (bool_decide (is_Some raw))
        "Authoritative source generation metadata is missing; source recovery is required" []
  end.

(** [generation]: absence means the legacy generation one. *)
Definition generation (p : string) (raw : option string) : result N :=
  match raw with
  | None => Ok 1
  | Some value =>
      match parse_u64 value with
      | Ok n => Ok n
      | Fail _ => Fail (Bail "Invalid active_generation metadata for project '{project}'; source generation cannot be determined" [p])
      end
  end.

Definition bounded_text (b : bytes) : result string :=
  _ ← ensure (slen b <=? 20) "Source head metadata exceeds read budget" [];
  from_utf8 b.

(** [revision]: a stored revision or epoch is never zero. *)
Definition head_revision (b : bytes) : result N :=
  text ← bounded_text b;
  value ← parse_u64 text;
  _ ← ensure (negb (value =? 0)) "Invalid source head revision" [];
  Ok value.

Definition identity_verified (v : option bytes) : result bool :=
  match v with
  | None => Ok false
  | Some b =>
      if String.eqb b "0" then Ok false
      else if String.eqb b "1" then Ok true
      else Fail (Bail "Invalid source identity verification metadata" [])
  end.

(** The closure both recovery readers pass: the value, if it fits the limit. *)
Definition read_limited (row : option bytes) (limit : N) : result (option bytes) :=
  transpose (λ v, _ ← ensure (slen v <=? limit) "Source recovery metadata exceeds read budget" [];
                  Ok v) row.

Section source_head.
Context `{RE : !RegistryEnv}.

(** A row of the META table. *)
Definition meta (key : string) (db : DB) : option bytes := db !! (META, key).
Definition tx_meta (key : string) : Tx DB (option bytes) := tx_get (META, key).
Definition tx_set_meta (key : string) (v : bytes) : Tx DB () := tx_insert (META, key) v.

Definition recovery_metadata (p : string) (db : DB) : result (RecoveryMetadata * N) :=
  let read key limit := read_limited (meta key db) limit in
  raw_head ← read (head_key p) RECOVERY_HEAD_BYTES;
  required ← read (flag_key p REQUIRED) 1;
  _ ← ensure (none_or_one required) "Invalid source head presence metadata" [];
  verified ← read (flag_key p IDENTITY_VERIFIED) 1;
  _ ← identity_verified verified;
  legacy_attested ← read (flag_key p LEGACY_ATTESTED) 1;
  _ ← ensure (none_or_one legacy_attested) "Invalid legacy source head attestation" [];
  managed ← read (flag_key p MANAGED) 1;
  _ ← validate_managed managed;
  rev_raw ← read (revision_key p) 20;
  rev_row ← ok_or rev_raw (Bail "Source recovery requires an existing head revision" []);
  rev ← head_revision rev_row;
  epoch_raw ← read (flag_key p IDENTITY_EPOCH) 20;
  epoch_row ← ok_or epoch_raw (Bail "Source recovery requires an existing identity epoch" []);
  epoch ← head_revision epoch_row;
  _ ← ensure (epoch <=? rev) "Source recovery identity epoch exceeds head revision" [];
  seq_raw ← read REVISION_SEQUENCE 20;
  seq_row ← ok_or seq_raw (Bail "Source recovery requires an existing durable revision allocator" []);
  sequence ← u64_from_slice seq_row;
  _ ← ensure (N.max rev epoch <=? sequence)
        "Source recovery revision allocator is behind source authority" [];
  Ok ({| rm_raw_head := raw_head; rm_required := required; rm_verified := verified;
         rm_legacy_attested := legacy_attested; rm_managed := managed;
         rm_revision := rev; rm_identity_epoch := epoch |}, sequence).

(** [Some(sequence)] when the project and its metadata are still those of the token. *)
Definition recovery_matches (base : SourceRecoveryToken) (db : DB) : result (option N) :=
  project ← get_decoded PROJECTS (rt_project_id base) db;
  match project with
  | Some p =>
      if rt_matches_source_identity base (directory p) (project_type p) then
        current ← recovery_metadata (rt_project_id base) db;
        Ok (if decide (current.1 = rt_metadata base) then Some current.2 else None)
      else Ok None
  | None => Ok None
  end.

Definition mark_head_required (p : string) : Tx DB () := tx_set_meta (flag_key p REQUIRED) "1".

Definition advance_revision (p : string) : Tx DB N :=
  rev_raw ← tx_meta (revision_key p);
  previous ← lift (transpose head_revision rev_raw);
  epoch_raw ← tx_meta (flag_key p IDENTITY_EPOCH);
  epoch ← lift (transpose head_revision epoch_raw);
  next ← next_revision (N.max (default 0 previous) (default 0 epoch));
  _ ← tx_set_meta (revision_key p) (show_u64 next);
  mret next.

Definition mark_identity_unverified (p : string) : Tx DB N :=
  epoch ← advance_revision p;
  _ ← tx_set_meta (flag_key p IDENTITY_EPOCH) (show_u64 epoch);
  _ ← tx_set_meta (flag_key p IDENTITY_VERIFIED) "0";
  mret epoch.

(** ** Recovery of a damaged head *)

Definition capture_source_recovery (p : string) (db : DB) : result SourceRecoveryToken :=
  _ ← vk "project_id" p;
  row ← get_decoded PROJECTS p db;
  project ← ok_or row (Bail "Source project is not registered" []);
  md ← recovery_metadata p db;
  let metadata := md.1 in
  _ ← match rm_raw_head metadata with
      | None =>
          ensure (bool_decide (rm_legacy_attested metadata = None)
                  || bool_decide (is_Some (rm_required metadata))
                  || bool_decide (is_Some (rm_managed metadata)))
            "An attested legacy source requires ordinary source publication" []
      | Some b =>
          let parsed := (v ← bounded_text b; generation p (Some v)) in
          ensure (negb (is_ok parsed)
                  || bool_decide (is_Some (rm_managed metadata)) && bool_decide (parsed = Ok 0))
            "Healthy source heads require ordinary source publication" []
      end;
  Ok {| rt_project_id := p; rt_metadata := metadata;
        rt_directory := directory project; rt_project_type := project_type project |}.

(** The numeric value of a raw head, zero when it is not a number. *)
Definition numeric_head (raw : option bytes) : N :=
  match raw with
  | Some b => if utf8_valid b then (match parse_u64 b with Ok n => n | Fail _ => 0 end) else 0
  | None => 0
  end.

Definition reserve_source_recovery (base : SourceRecoveryToken) (observed_floor : N)
  : DB → DB * result (option SourceRecoveryReservation) :=
  write_tx (
    matched ← tx_read (recovery_matches base);
    matched ← lift matched;
    match matched with
    | None => mret (Rollback None)
    | Some sequence =>
        let floor := N.max (N.max sequence observed_floor)
                           (numeric_head (rm_raw_head (rt_metadata base))) in
        _ ← lift (ensure (floor <? u64_max - 1) "Source recovery generation allocation exhausted" []);
        gen ← next_revision floor;
        mret (Commit (Some {| rr_base := base; rr_generation := gen |}))
    end).

Definition publish_source_recovery (r : SourceRecoveryReservation) : DB → DB * result bool :=
  write_tx (
    let base := rr_base r in
    let p := rt_project_id base in
    matched ← tx_read (recovery_matches base);
    matched ← lift matched;
    match matched with
    | None => mret (Rollback false)
    | Some sequence =>
        _ ← lift (ensure (rr_generation r <=? sequence)
                    "Source recovery revision allocator lost its durable reservation" []);
        _ ← advance_revision p;
        _ ← mark_head_required p;
        _ ← tx_set_meta (flag_key p MANAGED) "1";
        _ ← tx_set_meta (flag_key p IDENTITY_VERIFIED) "1";
        _ ← tx_set_meta (head_key p) (show_u64 (rr_generation r));
        mret (Commit true)
    end).

(** ** Registration and reads *)

Definition register_source_project (project : ProjectRecord) : DB → DB * result () :=
  write_tx (
    let p := project_id project in
    _ ← lift (vk "project_id" p);
    existing ← tx_get (PROJECTS, p);
    _ ← lift (ensure (bool_decide (existing = None)) "Source project is already registered" []);
    _ ← tx_insert (PROJECTS, p) (to_vec project);
    _ ← tx_set_meta (head_key p) "0";
    _ ← advance_revision p;
    _ ← mark_head_required p;
    _ ← mark_identity_unverified p;
    mret (Commit tt)).

Definition missing_managed : string :=
  "Managed source head metadata is missing; explicit full source recovery required".
Definition zero_managed : string :=
  "Managed source head is contradictory zero; explicit source recovery required".

Definition source_generation_metadata (p : string) (db : DB) : result (option N) :=
  _ ← vk "project_id" p;
  raw ← transpose bounded_text (meta (head_key p) db);
  _ ← check_presence raw (meta (flag_key p REQUIRED) db);
  let managed := meta (flag_key p MANAGED) db in
  _ ← validate_managed managed;
  _ ← ensure (bool_decide (managed = None) || bool_decide (is_Some raw)) missing_managed [];
  _ ← (if bool_decide (managed = None) then Ok tt
       else g ← generation p raw; ensure (negb (g =? 0)) zero_managed []);
  transpose (λ value, generation p (Some value)) raw.

Definition source_snapshot_requirement (p : string) (db : DB)
  : result (N * SourceSnapshotRequirement) :=
  _ ← vk "project_id" p;
  _ ← ensure (bool_decide (is_Some (db !! (PROJECTS, p)))) "Source project is not registered" [];
  raw ← transpose bounded_text (meta (head_key p) db);
  let required := meta (flag_key p REQUIRED) db in
  _ ← check_presence raw required;
  let managed := meta (flag_key p MANAGED) db in
  _ ← validate_managed managed;
  _ ← ensure (bool_decide (managed = None) || bool_decide (is_Some raw)) missing_managed [];
  let legacy := meta (flag_key p LEGACY_ATTESTED) db in
  _ ← ensure (none_or_one legacy) "Invalid legacy source head attestation" [];
  g ← generation p raw;
  _ ← ensure (bool_decide (managed = None) || negb (g =? 0)) zero_managed [];
  Ok (g,
      if bool_decide (is_Some managed) then Managed
      else if g =? 0 then Unpublished
      else if bool_decide (raw = None) && bool_decide (required = None)
              && bool_decide (is_Some legacy) then AttestedLegacy
      else Unproven).

Definition active_source_generation (p : string) (db : DB) : result N :=
  g ← source_generation_metadata p db; Ok (default 1 g).

(** ** Capturing a head *)

(** The checks both phases of a capture make, with the raw head, the managed
    flag and the generation. *)
Definition capture_checks (p : string) (db : DB)
  : result (option string * option bytes * N) :=
  raw ← transpose bounded_text (meta (head_key p) db);
  g ← generation p raw;
  _ ← check_presence raw (meta (flag_key p REQUIRED) db);
  managed ← transpose (λ v, _ ← validate_managed (Some v); Ok v) (meta (flag_key p MANAGED) db);
  _ ← ensure (bool_decide (managed = None) || bool_decide (is_Some raw)) missing_managed [];
  _ ← ensure (bool_decide (managed = None) || negb (g =? 0)) zero_managed [];
  Ok (raw, managed, g).

Definition head_token (p : string) (checks : option string * option bytes * N)
    (rev epoch : N) (project : ProjectRecord) : SourceHeadToken :=
  {| ht_project_id := p; ht_raw_head := checks.1.1; ht_managed := checks.1.2;
     ht_generation := checks.2; ht_revision := rev; ht_identity_epoch := epoch;
     ht_directory := directory project; ht_project_type := project_type project |}.

(** The read transaction: a token when the revision and the epoch exist. *)
Definition capture_read (p : string) (db : DB) : result (option SourceHeadToken) :=
  row ← get_decoded PROJECTS p db;
  project ← ok_or row (Bail "Source project is not registered" []);
  checks ← capture_checks p db;
  epoch ← transpose head_revision (meta (flag_key p IDENTITY_EPOCH) db);
  rev ← transpose head_revision (meta (revision_key p) db);
  Ok (match rev, epoch with
      | Some r, Some e => Some (head_token p checks r e project)
      | _, _ => None
      end).

(** The write transaction of a project from before the revisions. Its checks
    come in another order: the generation is parsed after the rows are read. *)
Definition capture_write (p : string) : DB → DB * result SourceHeadToken :=
  write_tx (
    row ← tx_project p;
    project ← lift (ok_or row (Bail "Source project is not registered" []));
    raw_row ← tx_meta (head_key p);
    raw ← lift (transpose bounded_text raw_row);
    required ← tx_meta (flag_key p REQUIRED);
    _ ← lift (check_presence raw required);
    managed_row ← tx_meta (flag_key p MANAGED);
    managed ← lift (transpose (λ v, _ ← validate_managed (Some v); Ok v) managed_row);
    _ ← lift (ensure (bool_decide (managed = None) || bool_decide (is_Some raw)) missing_managed []);
    rev_row ← tx_meta (revision_key p);
    existing_revision ← lift (transpose head_revision rev_row);
    epoch_row ← tx_meta (flag_key p IDENTITY_EPOCH);
    existing_epoch ← lift (transpose head_revision epoch_row);
    g ← lift (generation p raw);
    _ ← lift (ensure (bool_decide (managed = None) || negb (g =? 0)) zero_managed []);
    rev ← match existing_revision with
          | Some r => mret r
          | None => advance_revision p
          end;
    re ← match existing_epoch with
         | Some e => mret (rev, e)
         | None => e ← mark_identity_unverified p; mret (e, e)
         end;
    mret (Commit (head_token p (raw, managed, g) re.1 re.2 project))).

Definition capture_source_head (p : string) (db : DB) : DB * result SourceHeadToken :=
  match (_ ← vk "project_id" p; capture_read p db) with
  | Fail e => (db, Fail e)
  | Ok (Some tk) => (db, Ok tk)
  | Ok None => capture_write p db
  end.

(** ** Reads and attestations against a captured head *)

Definition legacy_source_head_attested (p : string) (db : DB) : result bool :=
  _ ← vk "project_id" p;
  _ ← vk "key" LEGACY_ATTESTED;
  flag ← transpose (λ b, _ ← ensure (slen b <=? 1) "metadata value exceeds read budget" [];
                         from_utf8 b) (meta (flag_key p LEGACY_ATTESTED) db);
  _ ← ensure (none_or_one flag) "Invalid legacy source head attestation" [];
  Ok (bool_decide (is_Some flag)).

(** Verification state and epoch, in one snapshot. *)
Definition source_stat_cache_state (p : string) (db : DB) : result (bool * option N) :=
  _ ← vk "project_id" p;
  epoch ← transpose head_revision (meta (flag_key p IDENTITY_EPOCH) db);
  verified ← identity_verified (meta (flag_key p IDENTITY_VERIFIED) db);
  Ok (negb verified, epoch).

Definition source_identity_needs_verification (p : string) (db : DB) : result bool :=
  st ← source_stat_cache_state p db; Ok st.1.

Definition source_identity_epoch (p : string) (db : DB) : result (option N) :=
  _ ← vk "project_id" p;
  transpose head_revision (meta (flag_key p IDENTITY_EPOCH) db).

(** The registration the token was taken from still exists. *)
Definition same_registration (base : SourceHeadToken) (project : option ProjectRecord) : bool :=
  match project with
  | Some p => ht_matches_source_identity base (directory p) (project_type p)
  | None => false
  end.

(** The exact head of the token: epoch, revision, managed flag and raw value.
    The comparison stops at the first difference, so a later malformed row is
    not reached. *)
Definition same_head (base : SourceHeadToken) (current_revision : option N) (db : DB) : result bool :=
  let p := ht_project_id base in
  epoch ← transpose head_revision (meta (flag_key p IDENTITY_EPOCH) db);
  Ok (bool_decide (epoch = Some (ht_identity_epoch base))
      && bool_decide (current_revision = Some (ht_revision base))
      && bool_decide (meta (flag_key p MANAGED) db = ht_managed base)
      && bool_decide (meta (head_key p) db = ht_raw_head base)).

Definition source_head_is_current (base : SourceHeadToken) (db : DB) : result bool :=
  let p := ht_project_id base in
  project ← get_decoded PROJECTS p db;
  if same_registration base project then
    rev ← transpose head_revision (meta (revision_key p) db);
    if bool_decide (rev = Some (ht_revision base)) then same_head base rev db else Ok false
  else Ok false.

(** One phase of the identity attestation: [Some b] returns early with [b]. *)
Definition attest_phase (base : SourceHeadToken) (db : DB) : result (option bool) :=
  let p := ht_project_id base in
  project ← get_decoded PROJECTS p db;
  if same_registration base project then
    rev ← transpose head_revision (meta (revision_key p) db);
    same ← same_head base rev db;
    if (same : bool) then
      verified ← identity_verified (meta (flag_key p IDENTITY_VERIFIED) db);
      Ok (if (verified : bool) then Some true else None)
    else Ok (Some false)
  else Ok (Some false).

(** The write transaction repeats the checks of the read transaction. *)
Definition attest_write (base : SourceHeadToken) : DB → DB * result bool :=
  write_tx (
    let p := ht_project_id base in
    early ← tx_read (attest_phase base);
    early ← lift early;
    match early with
    | Some b => mret (Rollback b)
    | None =>
        _ ← advance_revision p;
        _ ← tx_set_meta (flag_key p IDENTITY_VERIFIED) "1";
        mret (Commit true)
    end).

Definition attest_unchanged_source_identity (base : SourceHeadToken) (db : DB)
  : DB * result bool :=
  match attest_phase base db with
  | Fail e => (db, Fail e)
  | Ok (Some b) => (db, Ok b)
  | Ok None => attest_write base db
  end.

Definition attest_legacy_source_head (base : SourceHeadToken) : DB → DB * result bool :=
  write_tx (
    let p := ht_project_id base in
    _ ← lift (ensure (bool_decide (ht_raw_head base = None))
                "Legacy absence attestation needs an absent head" []);
    project ← tx_project p;
    if same_registration base project then
      epoch_row ← tx_meta (flag_key p IDENTITY_EPOCH);
      epoch ← lift (transpose head_revision epoch_row);
      managed ← tx_meta (flag_key p MANAGED);
      head ← tx_meta (head_key p);
      required ← tx_meta (flag_key p REQUIRED);
      if bool_decide (epoch = Some (ht_identity_epoch base))
         && bool_decide (managed = ht_managed base) && bool_decide (ht_managed base = None)
         && bool_decide (head = None) && bool_decide (required = None)
      then
        rev_row ← tx_meta (revision_key p);
        rev ← lift (transpose head_revision rev_row);
        if bool_decide (rev = Some (ht_revision base)) then
          flag ← tx_meta (flag_key p LEGACY_ATTESTED);
          match flag with
          | Some f =>
              _ ← lift (ensure (String.eqb f "1") "Invalid legacy source head attestation" []);
              mret (Rollback true)
          | None =>
              _ ← tx_set_meta (flag_key p LEGACY_ATTESTED) "1";
              mret (Commit true)
          end
        else mret (Rollback false)
      else mret (Rollback false)
    else mret (Rollback false)).

Definition publish_source_head (base : SourceHeadToken) (next : N) : DB → DB * result bool :=
  write_tx (
    let p := ht_project_id base in
    _ ← lift (ensure (ht_generation base <? next) "Source generation must advance its base" []);
    project ← tx_project p;
    if same_registration base project then
      rev_row ← tx_meta (revision_key p);
      rev ← lift (transpose head_revision rev_row);
      same ← tx_read (same_head base rev);
      same ← lift same;
      if (same : bool) then
        _ ← advance_revision p;
        _ ← mark_head_required p;
        _ ← tx_set_meta (flag_key p MANAGED) "1";
        _ ← tx_set_meta (flag_key p IDENTITY_VERIFIED) "1";
        _ ← tx_set_meta (head_key p) (show_u64 next);
        mret (Commit true)
      else mret (Rollback false)
    else mret (Rollback false)).

End source_head.
