(* ===== verification/Registry.v ===== *)
(** [engram_core::registry::Registry]: projects, memory sections, watches, jobs
    and project metadata over the shared database. *)
From S2P Require Import Prelude Text Store Records Concrete Reindex SourceHead.

Open Scope N_scope.

(** * Definitions *)

(** [sort_by(|a, b| a.f.cmp(&b.f))] on strings, and descending on numbers: both
    are stable. *)
Definition text_le {A} (f : A → string) (a b : A) : Prop := String.le (f a) (f b).
#[export] Instance text_le_dec {A} (f : A → string) : RelDecision (text_le f) :=
  λ a b, decide (String.le (f a) (f b)).
Definition newest_le {A} (f : A → N) (a b : A) : Prop := f b <= f a.
#[export] Instance newest_le_dec {A} (f : A → N) : RelDecision (newest_le f) :=
  λ a b, decide (f b <= f a).
Definition sort_by_text {A} (f : A → string) (l : list A) : list A := stable_sort (text_le f) l.
Definition sort_by_newest {A} (f : A → N) (l : list A) : list A := stable_sort (newest_le f) l.

Record MetaPrefixPage := {
  entries : list (string * string);
  inspected : N;
  omitted_values : N;
  has_more : bool;
}.

Definition ADP_KILL_SWITCH : string := "adp_kill_switch".
Definition GLOBAL : string := "__global__".

Definition abort_job (now : N) (job : JobRecord) : JobRecord :=
  {| job_id := job_id job; job_kind := job_kind job; job_project_id := job_project_id job;
     status := "aborted"; message := "Job aborted due to system restart.";
     progress_pct := progress_pct job;
     estimated_time_remaining_ms := estimated_time_remaining_ms job;
     job_created_at_ms := job_created_at_ms job; job_updated_at_ms := now |}.

Section registry.
Context `{RE : !RegistryEnv}.

(** Decode every row of a scan; the first malformed row fails the call. *)
Definition decode_rows `{!Json A} (rows : list (string * bytes)) : result (list (string * A)) :=
  result_traverse (λ kv, a ← from_slice kv.2; Ok (kv.1, a)) rows.

Definition prefix_rows (t : TableId) (p : string) (db : DB) : list (string * bytes) :=
  prefix_scan (project_prefix p) (table_rows t db).

(** Insert one encoded row in a transaction of its own. *)
Definition put_row (t : TableId) (k : string) (v : bytes) : DB → DB * result () :=
  write_tx (_ ← tx_insert (t, k) v; mret (Commit tt)).
Definition remove_row (t : TableId) (k : string) : DB → DB * result () :=
  write_tx (_ ← tx_remove (t, k); mret (Commit tt)).

(** ** Projects *)

Definition put_project (rec : ProjectRecord) : DB → DB * result () :=
  write_tx (
    _ ← lift (vk "project_id" (project_id rec));
    previous ← tx_project (project_id rec);
    let changes_source_identity :=
      match previous with
      | None => true
      | Some old => negb (String.eqb (directory old) (directory rec))
                    || negb (String.eqb (project_type old) (project_type rec))
      end in
    _ ← (if changes_source_identity then
           _ ← advance_revision (project_id rec);
           mark_identity_unverified (project_id rec)
         else mret 0);
    requirements ← requirements_for_project_write rec;
    let rec' := match requirements with
                | Some r => set_since rec (requirements_since_ms r)
                | None => rec
                end in
    _ ← tx_insert (PROJECTS, project_id rec) (to_vec rec');
    mret (Commit tt)).

Definition get_project (p : string) (db : DB) : result (option ProjectRecord) :=
  _ ← vk "project_id" p;
  get_decoded PROJECTS p db.

Definition list_projects (db : DB) : result (list ProjectRecord) :=
  rows ← decode_rows (table_rows PROJECTS db);
  Ok (sort_by_text project_name rows.*2).

Definition delete_project (p : string) : DB → DB * result () :=
  write_tx (
    _ ← lift (vk "project_id" p);
    _ ← clear_pending_on_delete p;
    _ ← tx_remove (PROJECTS, p);
    mret (Commit tt)).

(** One [for k in keys { t.remove(k)?; }] over the project's rows of a table. *)
Definition tx_delete_prefix (t : TableId) (p : string) : Tx DB () :=
  tx_modify (λ db, delete_keys t (prefix_rows t p db).*1 db).

Definition tx_delete_jobs (p : string) : Tx DB () :=
  rows ← tx_read (table_rows JOBS);
  jobs ← lift (decode_rows rows);
  tx_modify (delete_keys JOBS
               (filter (λ kj : string * JobRecord, job_project_id kj.2 = Some p) jobs).*1).

Definition delete_all_for_project (p : string) : DB → DB * result () :=
  write_tx (
    _ ← lift (vk "project_id" p);
    _ ← clear_pending_on_delete p;
    _ ← tx_remove (PROJECTS, p);
    _ ← tx_delete_prefix MEMORY_BANK p;
    _ ← tx_delete_prefix REPO_RULES p;
    _ ← tx_delete_prefix WATCHES p;
    _ ← tx_delete_jobs p;
    _ ← tx_delete_prefix META p;
    mret (Commit tt)).

(** ** Memory bank *)

Definition put_memory_section (p : string) (sec : MemorySection) : DB → DB * result () :=
  guarded (_ ← vk "project_id" p; vk "section_id" (section_id sec)) (λ _,
    put_row MEMORY_BANK (project_key p (section_id sec)) (to_vec sec)).

Definition list_memory_sections (p : string) (db : DB) : result (list MemorySection) :=
  _ ← vk "project_id" p;
  rows ← decode_rows (prefix_rows MEMORY_BANK p db);
  Ok (sort_by_text sec_title rows.*2).

Definition get_memory_section (p sid : string) (db : DB) : result (option MemorySection) :=
  _ ← vk "project_id" p;
  _ ← vk "section_id" sid;
  get_decoded MEMORY_BANK (project_key p sid) db.

Definition delete_memory_section (p sid : string) : DB → DB * result () :=
  guarded (_ ← vk "project_id" p; vk "section_id" sid) (λ _,
    remove_row MEMORY_BANK (project_key p sid)).

(** ** Watches *)

Definition put_watch (p : string) (w : WatchRecord) : DB → DB * result () :=
  guarded (_ ← vk "project_id" p; vk "watch_id" (watch_id w)) (λ _,
    put_row WATCHES (project_key p (watch_id w)) (to_vec w)).

Definition list_watches (p : string) (db : DB) : result (list WatchRecord) :=
  _ ← vk "project_id" p;
  rows ← decode_rows (prefix_rows WATCHES p db);
  Ok rows.*2.

(** ** Jobs *)

Definition put_job (job : JobRecord) : DB → DB * result () :=
  guarded (vk "job_id" (job_id job)) (λ _, put_row JOBS (job_id job) (to_vec job)).

Definition get_job (jid : string) (db : DB) : result (option JobRecord) :=
  _ ← vk "job_id" jid;
  get_decoded JOBS jid db.

Definition list_jobs (project : option string) (db : DB) : result (list JobRecord) :=
  _ ← match project with Some p => vk "project_id" p | None => Ok tt end;
  rows ← decode_rows (table_rows JOBS db);
  Ok (sort_by_newest job_updated_at_ms
        (filter (λ j : JobRecord, project = None ∨ job_project_id j = project) rows.*2)).

Definition delete_job (jid : string) : DB → DB * result () :=
  guarded (vk "job_id" jid) (λ _, remove_row JOBS jid).

Definition is_running (job : JobRecord) : bool := String.eqb (status job) "running".

(** The write transaction of the cleanup: abort every running job. *)
Definition abort_running (now : N) : DB → DB * result N :=
  write_tx (
    rows ← tx_read (table_rows JOBS);
    jobs ← lift (decode_rows rows);
    let to_update := filter (λ kj : string * JobRecord, is_running kj.2 = true) jobs in
    _ ← tx_modify (λ db, foldl (λ db kj, <[(JOBS, kj.1) := to_vec (abort_job now kj.2)]> db)
                               db to_update);
    let count := N.of_nat (length to_update) in
    mret (if 0 <? count then Commit count else Rollback count)).

Definition cleanup_orphaned_jobs (now : N) (db : DB) : DB * result N :=
  match decode_rows (table_rows JOBS db) with
  | Fail e => (db, Fail e)
  | Ok jobs =>
      if existsb (λ kj, is_running kj.2) jobs then abort_running now db else (db, Ok 0)
  end.

(** ** Metadata *)

Definition set_global_flag (k value : string) : DB → DB * result () :=
  guarded (vk "key" k) (λ _, put_row META (project_key GLOBAL k) value).

Definition get_global_flag (k : string) (db : DB) : result (option string) :=
  _ ← vk "key" k;
  transpose from_utf8 (meta (project_key GLOBAL k) db).

Definition set_adp_kill_switch (on : bool) : DB → DB * result () :=
  set_global_flag ADP_KILL_SWITCH (if on then "true" else "false").

Definition get_adp_kill_switch (db : DB) : result bool :=
  v ← get_global_flag ADP_KILL_SWITCH db;
  Ok (match v with Some s => String.eqb s "true" | None => false end).

(** What a write of [active_generation] does before the row is stored. *)
Definition tx_head_write (p k : string) (changes : bool) : Tx DB () :=
  _ ← (if String.eqb k HEAD && changes then
         _ ← advance_revision p; mark_identity_unverified p
       else mret 0);
  if String.eqb k HEAD then mark_head_required p else mret tt.

Definition set_meta (p k value : string) : DB → DB * result () :=
  write_tx (
    _ ← lift (vk "project_id" p);
    _ ← lift (vk "key" k);
    current ← tx_meta (project_key p k);
    _ ← tx_head_write p k (bool_decide (current ≠ Some value));
    _ ← tx_set_meta (project_key p k) value;
    mret (Commit tt)).

Definition compare_exchange_meta (p k : string) (expected : option string) (value : string)
  : DB → DB * result bool :=
  write_tx (
    _ ← lift (vk "project_id" p);
    _ ← lift (vk "key" k);
    current ← tx_meta (project_key p k);
    if decide (current = expected) then
      _ ← tx_head_write p k (bool_decide (expected ≠ Some value));
      _ ← tx_set_meta (project_key p k) value;
      mret (Commit true)
    else mret (Rollback false)).

Definition compare_exchange_meta_with_companion (p k : string) (expected : option string)
    (value companion_key companion_value : string) : DB → DB * result bool :=
  write_tx (
    _ ← lift (vk "project_id" p);
    _ ← lift (vk "key" k);
    _ ← lift (vk "companion_key" companion_key);
    _ ← lift (ensure (negb (String.eqb k companion_key) && negb (String.eqb k HEAD)
                      && negb (String.eqb companion_key HEAD))
                "invalid companion metadata keys" []);
    _ ← lift (ensure ((slen value <=? 1024 * 1024) && (slen companion_value <=? 4096))
                "companion metadata write exceeds budget" []);
    current ← tx_meta (project_key p k);
    if decide (current = expected) then
      companion ← tx_meta (project_key p companion_key);
      if decide (companion = None ∨ companion = Some companion_value) then
        _ ← tx_set_meta (project_key p k) value;
        _ ← tx_set_meta (project_key p companion_key) companion_value;
        mret (Commit true)
      else mret (Rollback false)
    else mret (Rollback false)).

(** The loop of [list_meta_prefix_bounded] over the rows of the range. *)
Fixpoint inspect_rows (project_prefix_len : nat) (prefix : string)
    (max_entries max_value_bytes max_total_bytes : N)
    (rows : list (string * bytes)) (page : MetaPrefixPage) (retained : N) : MetaPrefixPage :=
  match rows with
  | [] => page
  | (full_key, value) :: rest =>
      if negb (starts_with prefix full_key) then page
      else if inspected page =? max_entries then
        {| entries := entries page; inspected := inspected page;
           omitted_values := omitted_values page; has_more := true |}
      else
        let local_key := sdrop project_prefix_len full_key in
        let total := match checked_add (slen local_key) (slen value) with
                     | Some n => checked_add retained n
                     | None => None
                     end in
        let admitted := (slen local_key <=? 1024) && (slen value <=? max_value_bytes)
                        && match total with Some n => n <=? max_total_bytes | None => false end in
        if admitted && utf8_valid value then
          inspect_rows project_prefix_len prefix max_entries max_value_bytes max_total_bytes rest
            {| entries := entries page ++ [(local_key, value)]; inspected := inspected page + 1;
               omitted_values := omitted_values page; has_more := has_more page |}
            (retained + (slen local_key + slen value))
        else
          inspect_rows project_prefix_len prefix max_entries max_value_bytes max_total_bytes rest
            {| entries := entries page; inspected := inspected page + 1;
               omitted_values := omitted_values page + 1; has_more := has_more page |}
            retained
  end.

Definition empty_page : MetaPrefixPage :=
  {| entries := []; inspected := 0; omitted_values := 0; has_more := false |}.

Definition list_meta_prefix_bounded (p key_prefix : string)
    (max_entries max_value_bytes max_total_bytes : N) (db : DB) : result MetaPrefixPage :=
  _ ← vk "project_id" p;
  _ ← vk "key_prefix" key_prefix;
  _ ← ensure ((slen p <=? 512) && (slen key_prefix <=? 512)
              && (1 <=? max_entries) && (max_entries <=? 256) && (0 <? max_value_bytes)
              && (max_value_bytes <=? max_total_bytes) && (max_total_bytes <=? 1024 * 1024))
        "invalid metadata prefix inspection budget" [];
  let prefix := project_prefix p +:+ key_prefix in
  Ok (inspect_rows (String.length (project_prefix p)) prefix
        max_entries max_value_bytes max_total_bytes
        (range_from prefix (table_rows META db)) empty_page 0).

Definition map_meta_bounded {T} (p k : string) (max_bytes : N) (inspect : bytes → result T)
    (db : DB) : result (option T) :=
  _ ← vk "project_id" p;
  _ ← vk "key" k;
  transpose (λ v, _ ← ensure (slen v <=? max_bytes) "metadata value exceeds read budget" [];
                  inspect v) (meta (project_key p k) db).

Definition get_meta_bounded (p k : string) (max_bytes : N) (db : DB) : result (option string) :=
  map_meta_bounded p k max_bytes from_utf8 db.

Definition get_meta (p k : string) (db : DB) : result (option string) :=
  get_meta_bounded p k u64_max db.

End registry.
