(* ===== verification/Rules.v ===== *)
(** [engram_core::registry], repository rules: the receipts of managed rule
    sources ([rule_receipt.rs]), the ownership inventory ([rule_ownership.rs])
    and the rule mutations of [registry.rs] that both of them guard. *)
From S2P Require Import Prelude Text Unicode Store Records Concrete Reindex SourceHead.
From S2P Require Import Registry.

Open Scope N_scope.

(** * Definitions *)

Definition MIB : N := 1024 * 1024.
Definition SOURCE_PROVENANCE : string := "quality-gate source: ".
Definition RECEIPT_PREFIX : string := "quality_source:".
Definition SNAPSHOT_BYTES : N := 8 * MIB.
Definition VALUE_BYTES : N := 4 * MIB.

Record LegacyRuleAlias := {
  alias_rule_id : string;
  alias_source_rule_id : string;
  alias_source_projection_json : string;
  alias_source_projection_blake3 : string;
}.

Record RuleSourceReceipt := {
  origin : string;
  source_hash : string;
  authored : bool;
  receipt_pending : bool;
  doc_ids : list string;
  receipt_rules : list RepoRule;
  cleanup : list string;
  corpus_revision : string;
  legacy_aliases : list LegacyRuleAlias;
}.

#[export] Instance LegacyRuleAlias_eq_dec : EqDecision LegacyRuleAlias.
Proof. solve_decision. Defined.
#[export] Instance RuleSourceReceipt_eq_dec : EqDecision RuleSourceReceipt.
Proof. solve_decision. Defined.

(** [serde_json::Value]: parsing, and [v.get(field).and_then(|v| v.as_str())]. *)
Class JsonValue := {
  Value : Type;
  value_from_str : string → result Value;
  value_get_str : Value → string → option string;
}.

(** An object as the unique-key map of its raw fields ([RawObject]). *)
Class JsonRaw := {
  RawValue : Type;
  raw_from_slice : bytes → result (gmap string RawValue);
  raw_to_vec : gmap string RawValue → bytes;
  raw_from_slice_to_vec : ∀ o, raw_from_slice (raw_to_vec o) = Ok o;
}.

(** What the rule stores take from their libraries. An object that holds the
    fields a rule is written as, beside any others, is read as that rule: serde
    skips no field of [RepoRule] when it writes and ignores the unknown ones
    when it reads. *)
Class RulesEnv := {
  rules_registry :: RegistryEnv;
  rules_receipt :: Json RuleSourceReceipt;
  rules_value :: JsonValue;
  rules_raw :: JsonRaw;
  rules_blake3 :: Blake3;
  rules_merge : ∀ (r : RepoRule) known o,
    raw_from_slice (to_vec r) = Ok known → from_slice (raw_to_vec (known ∪ o)) = Ok r;
}.

Definition valid_origin (o : string) : bool :=
  negb (String.eqb o "") && (slen o <=? 512)
  && negb (contains_char "\" o || contains_char ":" o)
  && negb (has_control o)
  && forallb (λ p, negb (String.eqb p "" || String.eqb p "." || String.eqb p ".."))
             (split_char "/" o).

Definition valid_hash (h : string) : bool := (slen h =? 64) && string_forallb is_ascii_hexdigit h.

Definition is_source_key (k : string) : bool := starts_with RECEIPT_PREFIX k.

(** The rule ids of a receipt, checked and distinct. *)
Fixpoint check_rule_ids (ids : list string) (rows : list RepoRule) : result (list string) :=
  match rows with
  | [] => Ok ids
  | row :: rest =>
      _ ← vk "rule_id" (rule_id row);
      _ ← ensure (bool_decide (rule_id row ∉ ids)) "Duplicate source rule claim `{}`" [rule_id row];
      check_rule_ids (rule_id row :: ids) rest
  end.

(** ** Ownership inventory: bounded collection of a key prefix *)

(** Copy a value out of the remaining byte budget. *)
Definition copy_bounded (b : bytes) (remaining : N) : result (bytes * N) :=
  _ ← ensure ((slen b <=? VALUE_BYTES) && (slen b <=? remaining))
        "Ownership inventory byte budget exceeded; no partial inventory returned" [];
  Ok (b, remaining - slen b).

(** The loop of [collect_prefix] over the rows of the range, in key order. *)
Fixpoint collect_rows (prefix retained_prefix : string) (max_entries : nat)
    (rows : list (string * bytes)) (acc : list (string * bytes)) (remaining : N)
  : result (list (string * bytes) * N) :=
  match rows with
  | [] => Ok (acc, remaining)
  | (k, value) :: rest =>
      match strip_prefix prefix k with
      | None => Ok (acc, remaining)
      | Some suffix =>
          _ ← ensure (Nat.ltb (length acc) max_entries && (slen suffix <=? 2048))
                "Ownership inventory entry budget exceeded; no partial inventory returned" [];
          let key_bytes := slen retained_prefix + slen suffix in
          _ ← ensure (key_bytes <=? remaining) "Ownership inventory key byte budget exceeded" [];
          copied ← copy_bounded value (remaining - key_bytes);
          collect_rows prefix retained_prefix max_entries rest
            (acc ++ [(retained_prefix +:+ suffix, copied.1)]) copied.2
      end
  end.

Section rules.
Context `{RU : !RulesEnv}.

Definition source_key (o : string) : string := RECEIPT_PREFIX +:+ blake3_hex o.

Definition validate_origin (o : string) : result () :=
  ensure (valid_origin o) "Invalid normalized quality source identity (maximum 512 bytes)" [].

(** The loop over the aliases: targets and parser ids are used once, a target
    is a claimed rule, the projection has the stated hash and identity. *)
Fixpoint check_aliases (o : string) (ids targets sources : list string)
    (aliases : list LegacyRuleAlias) : result () :=
  match aliases with
  | [] => Ok tt
  | a :: rest =>
      _ ← ensure (bool_decide (alias_rule_id a ∉ targets)
                  && bool_decide (alias_source_rule_id a ∉ sources))
            "Ambiguous legacy source aliases" [];
      _ ← ensure (bool_decide (alias_rule_id a ∈ ids))
            "Legacy alias is outside source-owned rules" [];
      _ ← ensure ((slen (alias_source_projection_json a) <=? 4 * MIB)
                  && valid_hash (alias_source_projection_blake3 a)
                  && String.eqb (blake3_hex (alias_source_projection_json a))
                       (alias_source_projection_blake3 a))
            "Legacy source alias fingerprint mismatch" [];
      projection ← value_from_str (alias_source_projection_json a);
      _ ← ensure (bool_decide (value_get_str projection "id" = Some (alias_source_rule_id a))
                  && bool_decide (value_get_str projection "source" = Some o))
            "Legacy source alias projection identity mismatch" [];
      check_aliases o ids (alias_rule_id a :: targets) (alias_source_rule_id a :: sources) rest
  end.

Definition receipt_validate (r : RuleSourceReceipt) (k : string) : result () :=
  _ ← validate_origin (origin r);
  _ ← ensure (String.eqb (source_key (origin r)) k)
        "Quality-source receipt key/origin mismatch" [];
  _ ← ensure (valid_hash (source_hash r)) "Invalid quality-source fingerprint" [];
  ids ← check_rule_ids [] (receipt_rules r);
  check_aliases (origin r) ids [] [] (legacy_aliases r).

Definition receipt_decode (k : string) (raw : bytes) : result RuleSourceReceipt :=
  _ ← ensure (slen raw <=? 4 * MIB) "Quality-source receipt exceeds 4 MiB budget" [];
  receipt ← from_slice raw;
  _ ← receipt_validate receipt k;
  Ok receipt.

(** The writer refuses the first byte past the budget; the text is UTF-8. *)
Definition receipt_encode (r : RuleSourceReceipt) : result string :=
  _ ← ensure (slen (to_vec r) <=? 4 * MIB) "Quality-source receipt exceeds 4 MiB budget" [];
  from_utf8 (to_vec r).

Definition collect_prefix (t : TableId) (prefix retained_prefix : string) (max_entries : nat)
    (remaining : N) (db : DB) : result (list (string * bytes) * N) :=
  collect_rows prefix retained_prefix max_entries (range_from prefix (table_rows t db)) [] remaining.

(** ** The ownership guard of a rule mutation *)

(** The claims of one receipt on the mutated rules. *)
Fixpoint guard_claims (ids : list string) (owner_key : option string) (k o : string)
    (rows : list RepoRule) : result () :=
  match rows with
  | [] => Ok tt
  | row :: rest =>
      _ ← (if bool_decide (rule_id row ∈ ids) then
             ensure (bool_decide (Some k = owner_key))
               "Repository rule `{}` is claimed by `{}`; explicit ownership resolution is required"
               [rule_id row; o]
           else Ok tt);
      guard_claims ids owner_key k o rest
  end.

Fixpoint guard_receipts (ids : list string) (owner_key : option string)
    (receipts : list (string * bytes)) (owner : option RuleSourceReceipt)
  : result (option RuleSourceReceipt) :=
  match receipts with
  | [] => Ok owner
  | (k, raw) :: rest =>
      receipt ← map_err (Bail "Unresolved ownership receipt `{key}`; no rules changed: {e}" [k])
                  (receipt_decode k raw);
      _ ← guard_claims ids owner_key k (origin receipt) (receipt_rules receipt);
      guard_receipts ids owner_key rest
        (if bool_decide (Some k = owner_key) then Some receipt else owner)
  end.

Definition owner_is_source (owner_key : option string) : bool :=
  match owner_key with Some k => is_source_key k | None => false end.

(** The stored row of one mutated rule against the publishing owner. *)
Definition guard_row (owner_key : option string) (owner : option RuleSourceReceipt)
    (id : string) (row : RepoRule) : result () :=
  match provenance row ≫= strip_prefix SOURCE_PROVENANCE with
  | Some o =>
      _ ← ensure (bool_decide (origin <$> owner = Some o))
            "Repository rule `{id}` belongs to source `{origin}`; edit or explicitly transfer that source-owned rule"
            [id; o];
      if owner_is_source owner_key then
        receipt ← ok_or owner (Bail "Source publisher has no receipt" []);
        ensure (existsb (λ owned, bool_decide (owned = row)) (receipt_rules receipt))
          "Existing rule `{id}` has no matching source ownership claim; reviewed adoption is required"
          [id]
      else Ok tt
  | None =>
      ensure (negb (owner_is_source owner_key))
        "Existing rule `{id}` is unverified/manual; explicit adoption is required before source publication"
        [id]
  end.

Fixpoint guard_rows (p : string) (owner_key : option string) (owner : option RuleSourceReceipt)
    (ids : list string) (db : DB) : result () :=
  match ids with
  | [] => Ok tt
  | id :: rest =>
      row ← get_decoded REPO_RULES (project_key p id) db;
      _ ← match row with Some r => guard_row owner_key owner id r | None => Ok tt end;
      guard_rows p owner_key owner rest db
  end.

Definition guard_mutation (p : string) (ids : list string) (owner_key : option string) (db : DB)
  : result () :=
  collected ← collect_prefix META (project_key p RECEIPT_PREFIX) RECEIPT_PREFIX 256 (8 * MIB) db;
  owner ← guard_receipts ids owner_key collected.1 None;
  _ ← ensure (negb (owner_is_source owner_key) || bool_decide (is_Some owner))
        "Source publisher has no validated ownership receipt" [];
  guard_rows p owner_key owner ids db.

(** ** Rule mutations *)

Definition put_repo_rule (p : string) (rule : RepoRule) : DB → DB * result () :=
  guarded (_ ← vk "project_id" p; vk "rule_id" (rule_id rule)) (λ _, write_tx (
    guard ← tx_read (guard_mutation p [rule_id rule] None);
    _ ← lift guard;
    _ ← tx_insert (REPO_RULES, project_key p (rule_id rule)) (to_vec rule);
    mret (Commit tt))).

Definition list_repo_rules (p : string) (db : DB) : result (list RepoRule) :=
  _ ← vk "project_id" p;
  rows ← decode_rows (prefix_rows REPO_RULES p db);
  Ok (sort_by_text file_pattern rows.*2).

Definition delete_repo_rule (p rid : string) : DB → DB * result () :=
  guarded (_ ← vk "project_id" p; vk "rule_id" rid) (λ _, write_tx (
    guard ← tx_read (guard_mutation p [rid] None);
    _ ← lift guard;
    _ ← tx_remove (REPO_RULES, project_key p rid);
    mret (Commit tt))).

(** [merge_rule_fields]: the fields of the replacement over the stored object. *)
Definition merge_rule_fields (raw : bytes) (replacement : RepoRule) : result bytes :=
  stored ← raw_from_slice raw;
  known ← raw_from_slice (to_vec replacement);
  Ok (raw_to_vec (known ∪ stored)).

Definition find_rule (id : string) (rules : list RepoRule) : option RepoRule :=
  list_find (λ r, rule_id r = id) rules ≫= λ ir, Some ir.2.

(** The receipt a source publication carries, and what it may publish. *)
Definition published_receipt (receipt_key receipt : string) (upsert : list RepoRule)
  : result (option RuleSourceReceipt) :=
  if is_source_key receipt_key then
    published ← receipt_decode receipt_key receipt;
    _ ← ensure (negb (receipt_pending published)) "Cannot publish a pending source receipt" [];
    _ ← result_traverse (λ row,
          ensure (bool_decide (provenance row = Some (SOURCE_PROVENANCE +:+ origin published)))
            "Source publication cannot invent legacy ownership" []) (receipt_rules published);
    _ ← result_traverse (λ row,
          ensure (bool_decide (row ∈ receipt_rules published))
            "Source publication does not own its replacement rule" []) upsert;
    Ok (Some published)
  else Ok None.

(** The state of a claimed rule after the publication. *)
Definition next_row (p : string) (remove : list string) (upsert : list RepoRule) (id : string)
    (db : DB) : result (option RepoRule) :=
  match find_rule id upsert with
  | Some row => Ok (Some row)
  | None => if bool_decide (id ∈ remove) then Ok None else get_decoded REPO_RULES (project_key p id) db
  end.

Definition check_published_claims (p : string) (remove : list string) (upsert : list RepoRule)
    (published : option RuleSourceReceipt) (db : DB) : result () :=
  match published with
  | None => Ok tt
  | Some r =>
      _ ← result_traverse (λ claim,
            next ← next_row p remove upsert (rule_id claim) db;
            ensure (bool_decide (next = Some claim))
              "Published ownership claim does not match the resulting rule state" [])
          (receipt_rules r);
      Ok tt
  end.

(** Every affected row is still the one of the caller's snapshot. *)
Definition check_snapshot (p : string) (expected : list RepoRule) (affected : list string) (db : DB)
  : result () :=
  _ ← result_traverse (λ id,
        _ ← vk "rule_id" id;
        stored ← get_decoded REPO_RULES (project_key p id) db;
        ensure (bool_decide (stored = find_rule id expected))
          "Repository rule `{id}` changed during import; no rules published" [id]) affected;
  Ok tt.

Definition upsert_rule (p : string) (rule : RepoRule) : Tx DB () :=
  stored ← tx_get (REPO_RULES, project_key p (rule_id rule));
  match stored with
  | Some raw =>
      old ← lift (from_slice raw);
      if decide (old = rule) then mret tt
      else merged ← lift (merge_rule_fields raw rule);
           tx_insert (REPO_RULES, project_key p (rule_id rule)) merged
  | None => tx_insert (REPO_RULES, project_key p (rule_id rule)) (to_vec rule)
  end.

Fixpoint upsert_rules (p : string) (rules : list RepoRule) : Tx DB () :=
  match rules with
  | [] => mret tt
  | r :: rest => _ ← upsert_rule p r; upsert_rules p rest
  end.

Definition remove_rules (p : string) (remove : list string) (upsert : list RepoRule) : Tx DB () :=
  tx_modify (delete_keys REPO_RULES
               (project_key p <$> filter (λ id, find_rule id upsert = None) remove)).

Definition publish_repo_rule_source (p : string) (expected : list RepoRule) (remove : list string)
    (upsert : list RepoRule) (receipt_key expected_receipt receipt : string)
  : DB → DB * result () :=
  guarded (_ ← vk "project_id" p; vk "key" receipt_key) (λ _, write_tx (
    let affected := remove ++ (rule_id <$> upsert) in
    published ← lift (published_receipt receipt_key receipt upsert);
    let claimed := match published with Some r => rule_id <$> receipt_rules r | None => [] end in
    guard ← tx_read (guard_mutation p (btree_set (affected ++ claimed)) (Some receipt_key));
    _ ← lift guard;
    claims ← tx_read (check_published_claims p remove upsert published);
    _ ← lift claims;
    stored_receipt ← tx_meta (project_key p receipt_key);
    _ ← lift (ensure (bool_decide (stored_receipt = Some expected_receipt))
                "Source receipt changed during import; retry" []);
    snapshot ← tx_read (check_snapshot p expected (btree_set affected));
    _ ← lift snapshot;
    _ ← remove_rules p remove upsert;
    _ ← upsert_rules p upsert;
    _ ← tx_set_meta (project_key p receipt_key) receipt;
    mret (Commit tt))).

End rules.
