(* ===== verification/RulesSpec.v ===== *)
(** The bounded collection of a key prefix ([collect_prefix] of
    [rule_ownership.rs]) as a whole: it keeps every row of the prefix, or fails. *)
From S2P Require Import Prelude Text Unicode Store Records Concrete Reindex SourceHead Registry Rules.

Open Scope N_scope.

(** * Definitions *)

Section collect.
Context `{RU : !RulesEnv}.

(** Keys and values of an inventory, as they are charged. *)
Fixpoint cost (rows : list (string * bytes)) : N :=
  match rows with [] => 0 | (k, v) :: rest => slen k + slen v + cost rest end.
Definition value_ok (v : bytes) : Prop := slen v <= VALUE_BYTES.

(** The rows of the range, as the inventory names them. *)
Definition retained (rp pre : string) (rows : list (string * bytes)) : list (string * bytes) :=
  (λ kv, (rp +:+ default "" (strip_prefix pre kv.1), kv.2)) <$> rows.

(** The limits of one prefix: how many rows, how long the part of a key after
    the prefix [rp], how long a value. *)
Definition rows_ok (rp : string) (max : nat) (rows : list (string * bytes)) : Prop :=
  (length rows <= max)%nat ∧ ∀ k v, (k, v) ∈ rows → slen k <= slen rp + 2048 ∧ value_ok v.

(** * Lemmas *)

Lemma cost_app l1 l2 : cost (l1 ++ l2) = cost l1 + cost l2.
Proof. induction l1 as [|[k v] l IH]; simpl; [done | rewrite IH; lia]. Qed.
#[global] Instance cost_perm : Proper (Permutation ==> eq) cost.
Proof. induction 1 as [|[k v] ? ? _ IH|[k1 v1] [k2 v2] l|? ? ? _ IH1 _ IH2]; simpl; lia. Qed.

Lemma copy_bounded_Ok b rem c : copy_bounded b rem = Ok c ↔ value_ok b ∧ slen b <= rem ∧ c = (b, rem - slen b).
Proof.
  unfold copy_bounded, value_ok. rewrite ensure_bind_Ok, andb_true_iff, !N.leb_le. naive_solver.
Qed.

Lemma retained_cons rp pre k suffix v rows :
  strip_prefix pre k = Some suffix →
  retained rp pre ((k, v) :: rows) = (rp +:+ suffix, v) :: retained rp pre rows.
Proof. intros Hs. unfold retained. cbn. by rewrite Hs. Qed.

(** The collection loop charges every matching row and keeps all of them. *)
Lemma collect_rows_Ok pre rp max rows acc rem out :
  collect_rows pre rp max rows acc rem = Ok out ↔
  let l := retained rp pre (take_while (λ kv, starts_with pre kv.1) rows) in
  ((length l = 0 ∨ length acc + length l <= max)%nat ∧
   (∀ k v, (k, v) ∈ l → slen k <= slen rp + 2048 ∧ value_ok v) ∧ cost l <= rem) ∧
  out = (acc ++ l, rem - cost l).
Proof.
  revert acc rem. induction rows as [|[k v] rows IH]; intros acc rem; simpl.
  { change (retained rp pre []) with (@nil (string * bytes)). simpl. rewrite app_nil_r, N.sub_0_r. split; [intros [= <-]; split; [split_and!; [by left | set_solver | lia] | done] |].
    by intros (_ & ->). }
  assert (Hsw : starts_with pre k = bool_decide (is_Some (strip_prefix pre k))) by done.
  destruct (strip_prefix pre k) as [suffix|] eqn:Hs; cycle 1.
  { rewrite bool_decide_false in Hsw by (by intros []). rewrite Hsw. change (retained rp pre []) with (@nil (string * bytes)).
    simpl. rewrite app_nil_r, N.sub_0_r.
    split; [intros [= <-]; split; [split_and!; [by left | set_solver | lia] | done] |]. by intros (_ & ->). }
  rewrite bool_decide_true in Hsw by eauto. rewrite Hsw, (retained_cons _ _ _ suffix) by done.
  set (l := retained rp pre (take_while (λ kv, starts_with pre kv.1) rows)) in *.
  rewrite !ensure_bind_Ok, result_bind_Ok, andb_true_iff, Nat.ltb_lt, !N.leb_le.
  setoid_rewrite copy_bounded_Ok. setoid_rewrite IH. fold l.
  cbn [length cost fst snd]. rewrite slen_app. setoid_rewrite length_app. cbn [length]. split.
  - intros ((Hm & Hk) & Hr & c & (Hv & Hl & ->) & (Hlen & Hin & Hc) & ->). simpl in *. split.
    + split_and!; [lia | | lia]. intros k' v' [[= -> ->]|H]%elem_of_cons; [| by apply Hin].
      rewrite slen_app. split; [lia | done].
    + rewrite <-app_assoc. simpl.
      assert (Hrem : rem - (slen rp + slen suffix) - slen v - cost l = rem - (slen rp + slen suffix + slen v + cost l)) by lia.
      by rewrite Hrem.
  - intros ((Hlen & Hin & Hc) & ->).
    destruct (Hin (rp +:+ suffix) v) as [Hk Hv]; [set_solver |]. rewrite slen_app in Hk.
    split; [lia |]. split; [lia |]. eexists. split; [split_and!; [done | | done]; lia |]. simpl. split.
    + split_and!; [lia | set_solver | lia].
    + rewrite <-app_assoc. simpl.
      assert (Hrem : rem - (slen rp + slen suffix) - slen v - cost l = rem - (slen rp + slen suffix + slen v + cost l)) by lia.
      by rewrite Hrem.
Qed.

Lemma retained_length rp pre rows : length (retained rp pre rows) = length rows.
Proof. apply length_fmap. Qed.

Lemma collect_prefix_Ok t pre rp max rem (db : DB) out :
  (max ≠ 0)%nat →
  collect_prefix t pre rp max rem db = Ok out ↔
  let l := retained rp pre (prefix_scan pre (table_rows t db)) in
  rows_ok rp max l ∧ cost l <= rem ∧ out = (l, rem - cost l).
Proof.
  intros Hmax. unfold collect_prefix. rewrite collect_rows_Ok. fold (prefix_scan pre (table_rows t db)).
  set (l := retained _ _ _). simpl. unfold rows_ok. split.
  - intros ((Hlen & Hin & Hc) & ->). split_and!; [lia | done | done | done].
  - intros ((Hlen & Hin) & Hc & ->). split_and!; [by right | done | done | done].
Qed.

Lemma elem_of_inventory t pre rp (db : DB) suffix v :
  (rp +:+ suffix, v) ∈ retained rp pre (prefix_scan pre (table_rows t db)) ↔
  db !! (t, pre +:+ suffix) = Some v.
Proof.
  unfold retained. rewrite list_elem_of_fmap. split.
  - intros ([k w] & [= He ->] & [Hs Hk]%elem_of_prefix_scan).
    apply starts_with_spec in Hs as [u ->]. rewrite strip_prefix_app in He. simpl in He.
    apply app_inj_l in He as ->. done.
  - intros Hk. exists (pre +:+ suffix, v). cbn [fst snd]. rewrite strip_prefix_app. split; [done |].
    apply elem_of_prefix_scan. split; [| done]. apply starts_with_spec. eauto.
Qed.

Lemma inventory_row_key t pre rp (db : DB) k v :
  (k, v) ∈ retained rp pre (prefix_scan pre (table_rows t db)) → ∃ suffix, k = rp +:+ suffix.
Proof.
  unfold retained. intros ([k' w] & [= -> ->] & _)%list_elem_of_fmap. eauto.
Qed.

Lemma NoDup_inventory t pre rp (db : DB) :
  NoDup (retained rp pre (prefix_scan pre (table_rows t db))).*1.
Proof.
  unfold retained. rewrite prefix_scan_filter by apply table_rows_sorted.
  pose proof (NoDup_table_rows t db) as Hnd.
  assert (Hnd' : NoDup (filter (λ kv : string * bytes, starts_with pre kv.1 = true) (table_rows t db)).*1)
    by (eapply sublist_NoDup; [exact Hnd | apply fmap_sublist, sublist_filter]).
  assert (Hall : ∀ kv, kv ∈ filter (λ kv : string * bytes, starts_with pre kv.1 = true) (table_rows t db) →
    starts_with pre kv.1 = true) by (intros kv [? _]%list_elem_of_filter; done).
  revert Hnd' Hall. generalize (filter (λ kv : string * bytes, starts_with pre kv.1 = true) (table_rows t db)).
  intros l. induction l as [|[k v] l IH]; intros Hnd' Hall; [constructor |].
  rewrite !fmap_cons in *. cbn [fst] in *. apply NoDup_cons in Hnd' as [Hn Hnd'].
  apply NoDup_cons. split; [| apply IH; [done | intros; apply Hall; set_solver]].
  intros Hin. apply Hn. clear IH Hn Hnd'. rewrite <-list_fmap_compose in Hin.
  apply list_elem_of_fmap in Hin as ([k' v'] & He & Hin). simpl in He.
  pose proof (Hall (k, v) ltac:(set_solver)) as H1. pose proof (Hall (k', v') ltac:(set_solver)) as H2.
  simpl in H1, H2. apply starts_with_spec in H1 as [u1 ->]. apply starts_with_spec in H2 as [u2 ->].
  rewrite !strip_prefix_app in He. simpl in He. apply app_inj_l in He as ->.
  apply list_elem_of_fmap. by exists (pre +:+ u2, v').
Qed.

(** Any list with the right rows is the inventory up to the order. *)
Lemma inventory_perm t pre rp (db : DB) l :
  NoDup l.*1 → (∀ k v, (k, v) ∈ l → ∃ suffix, k = rp +:+ suffix) →
  (∀ suffix v, (rp +:+ suffix, v) ∈ l ↔ db !! (t, pre +:+ suffix) = Some v) →
  retained rp pre (prefix_scan pre (table_rows t db)) ≡ₚ l.
Proof.
  intros Hnd Hk Hl. apply NoDup_Permutation.
  - eapply NoDup_fmap_1, NoDup_inventory.
  - by eapply NoDup_fmap_1.
  - intros [k v]. split; intros Hin.
    + destruct (inventory_row_key _ _ _ _ _ _ Hin) as [suffix ->]. apply Hl.
      by apply elem_of_inventory in Hin.
    + destruct (Hk _ _ Hin) as [suffix ->]. apply elem_of_inventory. by apply Hl.
Qed.

Lemma prefix_scan_frame t pre (db db' : DB) :
  (∀ suffix, db' !! (t, pre +:+ suffix) = db !! (t, pre +:+ suffix)) →
  prefix_scan pre (table_rows t db') = prefix_scan pre (table_rows t db).
Proof.
  intros Hf. rewrite !prefix_scan_filter by apply table_rows_sorted.
  set (P := λ kv : string * bytes, starts_with pre kv.1 = true).
  assert (Hmem : ∀ kv, kv ∈ filter P (table_rows t db') ↔ kv ∈ filter P (table_rows t db)).
  { intros [k v]. unfold P. rewrite !list_elem_of_filter, !elem_of_table_rows. simpl.
    split; intros [Hs Hk]; (split; [done |]); apply starts_with_spec in Hs as [u ->];
      [by rewrite <-Hf | by rewrite Hf]. }
  apply (StronglySorted_unique_strong row_le).
  - intros [k1 v1] [k2 v2] H1 H2 Hle1 Hle2. apply Hmem in H1.
    apply list_elem_of_filter in H1 as [_ H1%elem_of_table_rows].
    apply list_elem_of_filter in H2 as [_ H2%elem_of_table_rows].
    unfold row_le in *. simpl in *. assert (k1 = k2) as <- by (by apply (anti_symm String.le)). congruence.
  - by apply StronglySorted_filter, table_rows_sorted.
  - by apply StronglySorted_filter, table_rows_sorted.
  - apply NoDup_Permutation; [| | done].
    + eapply NoDup_filter, NoDup_fmap_1, NoDup_table_rows.
    + eapply NoDup_filter, NoDup_fmap_1, NoDup_table_rows.
Qed.


End collect.

(** What the rule mutations promise ([Rules.v]): rules claimed by a source are
    closed to everyone else, an unreadable receipt closes all of them, and a
    source publication commits exactly what it states. *)

Open Scope N_scope.

(** * Definitions *)

Section rules_spec.
Context `{RU : !RulesEnv}.

(** The rows a publication reads and replaces. *)
Definition affected_ids (remove : list string) (upsert : list RepoRule) : list string :=
  remove ++ (rule_id <$> upsert).

(** * Lemmas *)

(** ** The ownership guard *)

Lemma guard_claims_Ok ids owner_key k o rows :
  guard_claims ids owner_key k o rows = Ok tt →
  ∀ row, row ∈ rows → rule_id row ∈ ids → Some k = owner_key.
Proof.
  induction rows as [|row rows IH]; intros H row' Hin Hid; [set_solver |].
  cbn [guard_claims] in H. apply result_bind_Ok in H as ([] & H1 & H).
  apply elem_of_cons in Hin as [->|Hin]; [| by eapply IH].
  rewrite bool_decide_true in H1 by done. apply ensure_Ok in H1. by apply bool_decide_eq_true in H1.
Qed.

Lemma guard_receipts_Ok ids owner_key receipts owner out :
  guard_receipts ids owner_key receipts owner = Ok out →
  ∀ k raw, (k, raw) ∈ receipts → ∃ r, receipt_decode k raw = Ok r ∧
    ∀ row, row ∈ receipt_rules r → rule_id row ∈ ids → Some k = owner_key.
Proof.
  revert owner. induction receipts as [|[k raw] receipts IH]; intros owner H k' raw' Hin; [set_solver |].
  cbn [guard_receipts] in H. apply result_bind_Ok in H as (r & Hr%map_err_Ok & H).
  apply result_bind_Ok in H as ([] & Hc & H).
  apply elem_of_cons in Hin as [[= -> ->]|Hin]; [| by eapply IH].
  exists r. split; [done |]. by eapply guard_claims_Ok.
Qed.

(** A guard that passes has read every receipt of the project. *)
Lemma guard_mutation_Ok p ids owner_key (db : DB) rk raw :
  guard_mutation p ids owner_key db = Ok tt →
  starts_with RECEIPT_PREFIX rk = true → meta (project_key p rk) db = Some raw →
  ∃ r, receipt_decode rk raw = Ok r ∧
    ∀ row, row ∈ receipt_rules r → rule_id row ∈ ids → Some rk = owner_key.
Proof.
  intros H Hs Hraw. unfold guard_mutation in H. apply result_bind_Ok in H as (c & Hc & H).
  apply collect_prefix_Ok in Hc as (_ & _ & ->); [| done].
  apply result_bind_Ok in H as (owner & Hg & _). apply starts_with_spec in Hs as [o ->].
  eapply guard_receipts_Ok; [exact Hg |]. apply elem_of_inventory.
  unfold meta, project_key in *. by rewrite app_assoc_str.
Qed.

(** A mutation whose guard fails returns that failure and changes nothing. *)
Lemma guarded_fails p id (db : DB) {B} (k : Tx DB (outcome B)) (r : result ()) e :
  guard_mutation p [id] None db = Fail e →
  ∃ e', guarded r (λ _, write_tx (
    guard ← tx_read (guard_mutation p [id] None); _ ← lift guard; k)) db = (db, Fail e' : result B).
Proof.
  intros Hg. destruct r as [[]|e1]; simpl; [| by eexists]. unfold write_tx.
  unfold mbind, tx_bind, tx_read at 1. rewrite Hg. by eexists.
Qed.

Lemma guard_unresolved p ids owner_key (db : DB) rk raw e :
  starts_with RECEIPT_PREFIX rk = true → meta (project_key p rk) db = Some raw →
  receipt_decode rk raw = Fail e → ∃ e', guard_mutation p ids owner_key db = Fail e'.
Proof.
  intros Hs Hraw Hd. destruct (guard_mutation p ids owner_key db) as [[]|e'] eqn:H; [| eauto].
  destruct (guard_mutation_Ok _ _ _ _ _ _ H Hs Hraw) as (r & Hr & _). congruence.
Qed.

Lemma guard_claimed p ids owner_key (db : DB) rk raw r row :
  starts_with RECEIPT_PREFIX rk = true → meta (project_key p rk) db = Some raw →
  receipt_decode rk raw = Ok r → row ∈ receipt_rules r → rule_id row ∈ ids → owner_key ≠ Some rk →
  ∃ e, guard_mutation p ids owner_key db = Fail e.
Proof.
  intros Hs Hraw Hd Hrow Hid Hne. destruct (guard_mutation p ids owner_key db) as [[]|e'] eqn:H; [| eauto].
  destruct (guard_mutation_Ok _ _ _ _ _ _ H Hs Hraw) as (r' & Hr & Hc). rewrite Hd in Hr. injection Hr as <-.
  by apply (Hc row Hrow) in Hid.
Qed.

Lemma put_repo_rule_fails p rule (db : DB) e :
  guard_mutation p [rule_id rule] None db = Fail e → ∃ e', put_repo_rule p rule db = (db, Fail e').
Proof. apply guarded_fails. Qed.
Lemma delete_repo_rule_fails p id (db : DB) e :
  guard_mutation p [id] None db = Fail e → ∃ e', delete_repo_rule p id db = (db, Fail e').
Proof. apply guarded_fails. Qed.

(** ** A publication step by step *)

Lemma publish_inv p expected remove upsert rk er r (db db' : DB) :
  publish_repo_rule_source p expected remove upsert rk er r db = (db', Ok tt) →
  vk "project_id" p = Ok tt ∧ vk "key" rk = Ok tt ∧ ∃ pub db1,
    published_receipt rk r upsert = Ok pub ∧
    guard_mutation p (btree_set (affected_ids remove upsert ++
      match pub with Some x => rule_id <$> receipt_rules x | None => [] end)) (Some rk) db = Ok tt ∧
    check_published_claims p remove upsert pub db = Ok tt ∧
    meta (project_key p rk) db = Some er ∧
    check_snapshot p expected (btree_set (affected_ids remove upsert)) db = Ok tt ∧
    upsert_rules p upsert
      (delete_keys REPO_RULES (project_key p <$> filter (λ id, find_rule id upsert = None) remove) db) =
      Ok (tt, db1) ∧ db' = <[(META, project_key p rk) := r]> db1.
Proof.
  unfold publish_repo_rule_source, guarded. intros H.
  destruct (_ ← vk "project_id" p; vk "key" rk) as [[]|e] eqn:Hv; [| done].
  apply result_bind_Ok in Hv as ([] & Hp & Hk). split; [done |]. split; [done |].
  apply write_tx_inv in H. unfold tx_meta, tx_set_meta, remove_rules in H.
  assert (Hrun : ∀ o d, (let affected := remove ++ (rule_id <$> upsert) in
    published ← lift (published_receipt rk r upsert);
    let claimed := match published with Some r => rule_id <$> receipt_rules r | None => [] end in
    guard ← tx_read (guard_mutation p (btree_set (affected ++ claimed)) (Some rk));
    _ ← lift guard;
    claims ← tx_read (check_published_claims p remove upsert published);
    _ ← lift claims;
    stored_receipt ← tx_get (META, project_key p rk);
    _ ← lift (ensure (bool_decide (stored_receipt = Some er))
                "Source receipt changed during import; retry" []);
    snapshot ← tx_read (check_snapshot p expected (btree_set affected));
    _ ← lift snapshot;
    _ ← tx_modify (delete_keys REPO_RULES
               (project_key p <$> filter (λ id, find_rule id upsert = None) remove));
    _ ← upsert_rules p upsert;
    _ ← tx_insert (META, project_key p rk) r;
    mret (Commit tt)) db = Ok (o, d) → o = Commit tt ∧ ∃ pub db1,
    published_receipt rk r upsert = Ok pub ∧
    guard_mutation p (btree_set (affected_ids remove upsert ++
      match pub with Some x => rule_id <$> receipt_rules x | None => [] end)) (Some rk) db = Ok tt ∧
    check_published_claims p remove upsert pub db = Ok tt ∧
    meta (project_key p rk) db = Some er ∧
    check_snapshot p expected (btree_set (affected_ids remove upsert)) db = Ok tt ∧
    upsert_rules p upsert
      (delete_keys REPO_RULES (project_key p <$> filter (λ id, find_rule id upsert = None) remove) db) =
      Ok (tt, db1) ∧ d = <[(META, project_key p rk) := r]> db1).
  { intros o d E. apply tx_bind_Ok in E as (pub & s1 & [Hpub ->]%lift_Ok & E).
    apply tx_bind_Ok in E as (g & s1 & [-> ->]%tx_read_Ok & E).
    apply tx_bind_Ok in E as ([] & s1 & [Hg ->]%lift_Ok & E).
    apply tx_bind_Ok in E as (cl & s1 & [-> ->]%tx_read_Ok & E).
    apply tx_bind_Ok in E as ([] & s1 & [Hcl ->]%lift_Ok & E).
    apply tx_bind_Ok in E as (st & s1 & [-> ->]%tx_get_Ok & E).
    apply tx_bind_Ok in E as ([] & s1 & [Hst%ensure_Ok%bool_decide_eq_true ->]%lift_Ok & E).
    apply tx_bind_Ok in E as (sn & s1 & [-> ->]%tx_read_Ok & E).
    apply tx_bind_Ok in E as ([] & s1 & [Hsn ->]%lift_Ok & E).
    apply tx_bind_Ok in E as ([] & s1 & ->%tx_modify_Ok & E).
    apply tx_bind_Ok in E as ([] & db1 & Hup & E).
    apply tx_bind_Ok in E as ([] & s2 & [_ ->]%tx_insert_Ok & [-> ->]%tx_ret_Ok).
    split; [done |]. exists pub, db1. by split_and!. }
  destruct H as [H|[-> (s1 & H)]]; apply Hrun in H as [Ho H]; done.
Qed.

Lemma upsert_rule_Ok p rule (db db' : DB) :
  upsert_rule p rule db = Ok (tt, db') →
  get_decoded REPO_RULES (project_key p (rule_id rule)) db' = Ok (Some rule) ∧
  ∀ j, j ≠ (REPO_RULES, project_key p (rule_id rule)) → db' !! j = db !! j.
Proof.
  unfold upsert_rule. intros H. apply tx_bind_Ok in H as (stored & s1 & [-> ->]%tx_get_Ok & H).
  destruct (db !! (REPO_RULES, project_key p (rule_id rule))) as [raw|] eqn:Hraw; cycle 1.
  { apply tx_insert_Ok in H as [_ ->]. split; [apply get_decoded_insert_eq |].
    intros j Hj. by rewrite lookup_insert_ne. }
  apply tx_bind_Ok in H as (old & s1 & [Hold ->]%lift_Ok & H). case_decide as Hd.
  { apply tx_ret_Ok in H as [_ ->]. subst old. split; [| done]. unfold get_decoded. rewrite Hraw.
    simpl. by rewrite Hold. }
  apply tx_bind_Ok in H as (merged & s1 & [Hm ->]%lift_Ok & [_ ->]%tx_insert_Ok). split.
  - unfold merge_rule_fields in Hm. apply result_bind_Ok in Hm as (o & _ & Hm).
    apply result_bind_Ok in Hm as (known & Hk & [= <-]). unfold get_decoded. rewrite lookup_insert_eq.
    simpl. by rewrite (rules_merge _ _ _ Hk).
  - intros j Hj. by rewrite lookup_insert_ne.
Qed.

Lemma upsert_rules_Ok p rules (db db' : DB) :
  NoDup (rule_id <$> rules) → upsert_rules p rules db = Ok (tt, db') →
  (∀ rule, rule ∈ rules → get_decoded REPO_RULES (project_key p (rule_id rule)) db' = Ok (Some rule)) ∧
  ∀ j, (∀ rule, rule ∈ rules → j ≠ (REPO_RULES, project_key p (rule_id rule))) → db' !! j = db !! j.
Proof.
  revert db. induction rules as [|r rules IH]; intros db Hnd H.
  { apply tx_ret_Ok in H as [_ ->]. split; [set_solver | done]. }
  rewrite fmap_cons in Hnd. apply NoDup_cons in Hnd as [Hn Hnd].
  apply tx_bind_Ok in H as ([] & db1 & [H1 H2]%upsert_rule_Ok & H). apply IH in H as [H3 H4]; [| done]. split.
  - intros rule [->|Hin]%elem_of_cons; [| by apply H3]. unfold get_decoded in *. rewrite H4; [done |].
    intros rule' Hin' [= He]. apply project_key_inj_r in He. apply Hn. rewrite He. by apply list_elem_of_fmap_2.
  - intros j Hj. rewrite H4, H2; [done | |]; intros; apply Hj; set_solver.
Qed.

Lemma find_rule_None id rules : find_rule id rules = None ↔ id ∉ rule_id <$> rules.
Proof.
  unfold find_rule. destruct (list_find (λ r, rule_id r = id) rules) as [[i r]|] eqn:E; simpl.
  - apply list_find_Some in E as (Hi & He & _). split; [done |]. intros Hn. destruct Hn.
    apply list_elem_of_fmap. exists r. split; [done |]. by eapply list_elem_of_lookup_2.
  - apply list_find_None in E. split; [| done]. intros _ Hin. apply list_elem_of_fmap in Hin as (r & -> & Hin).
    rewrite Forall_forall in E. by apply (E r).
Qed.

(** * Theorems *)

(** C36. A rule that a readable source receipt claims is closed to manual
    edits: storing or deleting it fails and changes nothing, and so does every
    publication under another receipt that would touch it. *)
Theorem claimed_rule_is_closed p rk raw r row db :
  starts_with RECEIPT_PREFIX rk = true → meta (project_key p rk) db = Some raw →
  receipt_decode rk raw = Ok r → row ∈ receipt_rules r →
  (∀ rule, rule_id rule = rule_id row → ∃ e, put_repo_rule p rule db = (db, Fail e)) ∧
  (∃ e, delete_repo_rule p (rule_id row) db = (db, Fail e)) ∧
  (∀ expected remove upsert rk' er' r' db', rk' ≠ rk → rule_id row ∈ affected_ids remove upsert →
     publish_repo_rule_source p expected remove upsert rk' er' r' db ≠ (db', Ok tt)).
Proof.
  intros Hs Hraw Hd Hrow.
  assert (Hg : ∀ ids owner_key, rule_id row ∈ ids → owner_key ≠ Some rk →
    ∃ e, guard_mutation p ids owner_key db = Fail e) by (intros; by eapply guard_claimed).
  split_and!.
  - intros rule He. destruct (Hg [rule_id rule] None) as [e Hf]; [rewrite He; set_solver | done |].
    by eapply put_repo_rule_fails.
  - destruct (Hg [rule_id row] None) as [e Hf]; [set_solver | done |]. by eapply delete_repo_rule_fails.
  - intros expected remove upsert rk' er' r' db' Hne Hin H.
    apply publish_inv in H as (_ & _ & pub & db1 & _ & Hgu & _).
    edestruct Hg as [e Hf]; [| | rewrite Hf in Hgu; done].
    + rewrite elem_of_btree_set. set_solver.
    + congruence.
Qed.

(** Ownership fails closed: while one stored source receipt of a project
    cannot be decoded and validated, no rule of the project is stored,
    deleted or published, and the database does not change. *)
Theorem unreadable_receipt_closes_rules p rk raw e db :
  starts_with RECEIPT_PREFIX rk = true → meta (project_key p rk) db = Some raw →
  receipt_decode rk raw = Fail e →
  (∀ rule, ∃ e', put_repo_rule p rule db = (db, Fail e')) ∧
  (∀ id, ∃ e', delete_repo_rule p id db = (db, Fail e')) ∧
  (∀ expected remove upsert rk' er' r' db',
     publish_repo_rule_source p expected remove upsert rk' er' r' db ≠ (db', Ok tt)).
Proof.
  intros Hs Hraw Hd.
  assert (Hg : ∀ ids owner_key, ∃ e, guard_mutation p ids owner_key db = Fail e)
    by (intros; by eapply guard_unresolved).
  split_and!.
  - intros rule. destruct (Hg [rule_id rule] None) as [e' Hf]. by eapply put_repo_rule_fails.
  - intros id. destruct (Hg [id] None) as [e' Hf]. by eapply delete_repo_rule_fails.
  - intros expected remove upsert rk' er' r' db' H.
    apply publish_inv in H as (_ & _ & pub & db1 & _ & Hgu & _).
    edestruct Hg as [e' Hf]. by rewrite Hf in Hgu.
Qed.

(** C35. A source publication is a compare-and-exchange over its receipt and
    its rules: it succeeds only when the stored receipt and every affected
    rule are the ones the caller expected; it then stores exactly the new
    receipt and the replacement rules, removes the other removed rules, and
    touches no other row. *)
Theorem source_publication_is_exact p expected remove upsert rk er r db db' :
  NoDup (rule_id <$> upsert) →
  publish_repo_rule_source p expected remove upsert rk er r db = (db', Ok tt) →
  meta (project_key p rk) db = Some er ∧ meta (project_key p rk) db' = Some r ∧
  (∀ id, id ∈ affected_ids remove upsert →
     get_decoded REPO_RULES (project_key p id) db = Ok (find_rule id expected)) ∧
  (∀ rule, rule ∈ upsert → get_decoded REPO_RULES (project_key p (rule_id rule)) db' = Ok (Some rule)) ∧
  (∀ id, id ∈ remove → id ∉ rule_id <$> upsert → db' !! (REPO_RULES, project_key p id) = None) ∧
  (∀ j, j ≠ (META, project_key p rk) →
     (∀ id, id ∈ affected_ids remove upsert → j ≠ (REPO_RULES, project_key p id)) → db' !! j = db !! j).
Proof.
  intros Hnd (_ & _ & pub & db1 & _ & _ & _ & Her & Hsn & Hup & ->)%publish_inv.
  apply upsert_rules_Ok in Hup as [Hrows Hother]; [| done]. unfold meta. split_and!.
  - done.
  - apply lookup_insert_eq.
  - intros id Hid. unfold check_snapshot in Hsn. apply result_bind_Ok in Hsn as (us & Hsn & _).
    apply result_traverse_Ok in Hsn. apply (Forall2_elem_l _ _ _ id) in Hsn as (u & _ & Hs);
      [| by apply elem_of_btree_set].
    apply result_bind_Ok in Hs as (_ & _ & Hs). apply result_bind_Ok in Hs as (stored & Hst & Hs).
    destruct u. apply ensure_Ok, bool_decide_eq_true in Hs. by rewrite Hst, Hs.
  - intros rule Hin. rewrite get_decoded_insert_ne by done. by apply Hrows.
  - intros id Hid Hn. rewrite lookup_insert_ne by done. rewrite Hother.
    + rewrite lookup_delete_keys, decide_True; [done |]. split; [done |]. simpl.
      apply list_elem_of_fmap_2. apply list_elem_of_filter. split; [by apply find_rule_None | done].
    + intros rule Hin [= He]. apply project_key_inj_r in He as ->. apply Hn. by apply list_elem_of_fmap_2.
  - intros j Hj Haff. rewrite lookup_insert_ne by done. rewrite Hother.
    + rewrite lookup_delete_keys, decide_False; [done |]. intros [Ht Hin]. destruct j as [t k]. simpl in *. subst t.
      apply list_elem_of_fmap in Hin as (id & -> & [_ Hin]%list_elem_of_filter).
      apply (Haff id); [unfold affected_ids; set_solver | done].
    + intros rule Hin. apply Haff. unfold affected_ids. apply elem_of_app. right. by apply list_elem_of_fmap_2.
Qed.

End rules_spec.
