(* ===== verification/Ownership.v ===== *)
(** [engram_core::registry::rule_ownership]: the exact, bounded inventory of a
    project's rules and source receipts, its digests, and the budget check
    that keeps an adoption readable. *)
From S2P Require Import Prelude Text Store Records Concrete Reindex SourceHead Registry.
From S2P Require Import Rules.

Open Scope N_scope.

(** * Definitions *)

Definition CORPUS_REVISION : string := "quality_corpus_revision".

(** The [BTreeMap]s are lists in key order. *)
Record RuleOwnershipSnapshot := {
  os_project_id : string;
  os_project_raw : bytes;
  os_identity_epoch_raw : option bytes;
  os_corpus_revision_raw : option bytes;
  os_rules : list (string * bytes);
  os_receipts : list (string * bytes);
}.

(** [serde_json::to_writer] of the values the inventory is hashed as. *)
Class OwnershipEnv := {
  own_rules :: RulesEnv;
  snapshot_json : RuleOwnershipSnapshot → bytes;
  basis_json : string * string * string * option bytes * option bytes
               * list (string * bytes) * list (string * bytes) → bytes;
}.

(** The closure [admit] of the adoption budget. *)
Definition admit_bytes (k : string) (raw : bytes) (remaining : N) : result N :=
  _ ← ensure ((slen raw <=? VALUE_BYTES) && (slen k <=? remaining))
        "Resulting ownership inventory exceeds its read budget; no rows adopted" [];
  _ ← ensure (slen raw <=? remaining - slen k)
        "Resulting ownership inventory exceeds its read budget; no rows adopted" [];
  Ok (remaining - slen k - slen raw).

Definition admit_option (o : option bytes) (remaining : N) : result N :=
  match o with Some raw => admit_bytes "" raw remaining | None => Ok remaining end.

Fixpoint admit_rows (rows : list (string * bytes)) (remaining : N) : result N :=
  match rows with
  | [] => Ok remaining
  | (k, raw) :: rest => rem ← admit_bytes k raw remaining; admit_rows rest rem
  end.

(** The rules as they will be: [rows.get(key).unwrap_or(raw)]. *)
Definition replace_rows (rows : gmap string bytes) (l : list (string * bytes)) : list (string * bytes) :=
  (λ kv, (kv.1, default kv.2 (rows !! kv.1))) <$> l.

Definition has_receipt (s : RuleOwnershipSnapshot) (k : string) : bool :=
  existsb (λ kv, String.eqb kv.1 k) (os_receipts s).

Definition check_adoption_budget (s : RuleOwnershipSnapshot) (rows : gmap string bytes)
    (receipt_key : string) (receipt : bytes) : result () :=
  rem ← admit_bytes "" (os_project_raw s) SNAPSHOT_BYTES;
  rem ← admit_option (os_identity_epoch_raw s) rem;
  rem ← admit_option (os_corpus_revision_raw s) rem;
  rem ← admit_rows (replace_rows rows (os_rules s)) rem;
  _ ← ensure (Nat.leb (length (os_receipts s) + (if has_receipt s receipt_key then 0 else 1)) 256)
        "Resulting ownership inventory exceeds receipt count budget; no rows adopted" [];
  rem ← admit_rows (filter (λ kv, kv.1 ≠ receipt_key) (os_receipts s)) rem;
  _ ← admit_bytes receipt_key receipt rem;
  Ok tt.

Section ownership.
Context `{OE : !OwnershipEnv}.

Definition copy_option (o : option bytes) (remaining : N) : result (option bytes * N) :=
  match o with
  | Some raw => c ← copy_bounded raw remaining; Ok (Some c.1, c.2)
  | None => Ok (None, remaining)
  end.

Definition from_tables (p : string) (db : DB) : result RuleOwnershipSnapshot :=
  row ← ok_or (db !! (PROJECTS, p)) (Bail "Ownership inventory project is missing" []);
  project ← copy_bounded row SNAPSHOT_BYTES;
  epoch ← copy_option (meta (project_key p IDENTITY_EPOCH) db) project.2;
  corpus ← copy_option (meta (project_key p CORPUS_REVISION) db) epoch.2;
  rules ← collect_prefix REPO_RULES (project_prefix p) "" 2048 corpus.2 db;
  receipts ← collect_prefix META (project_key p RECEIPT_PREFIX) RECEIPT_PREFIX 256 rules.2 db;
  Ok {| os_project_id := p; os_project_raw := project.1; os_identity_epoch_raw := epoch.1;
        os_corpus_revision_raw := corpus.1; os_rules := rules.1; os_receipts := receipts.1 |}.

Definition snapshot_rule_ownership (p : string) (db : DB) : result RuleOwnershipSnapshot :=
  _ ← vk "project_id" p; from_tables p db.

Definition os_project (s : RuleOwnershipSnapshot) : result ProjectRecord :=
  project ← from_slice (os_project_raw s);
  _ ← ensure (String.eqb (project_id project) (os_project_id s)) "Ownership project identity mismatch" [];
  Ok project.

Definition os_identity_epoch (s : RuleOwnershipSnapshot) : result (option N) :=
  transpose (λ value,
    text ← from_utf8 value;
    epoch ← parse_u64 text;
    _ ← ensure (0 <? epoch) "Ownership identity epoch is invalid" [];
    Ok epoch) (os_identity_epoch_raw s).

Definition hash_value (domain json : bytes) : string := blake3_hex (domain +:+ json).

Definition digest (s : RuleOwnershipSnapshot) : string :=
  hash_value ("engram:rule-ownership-snapshot:v1" +:+ str1 NUL) (snapshot_json s).

Definition adoption_basis_digest (s : RuleOwnershipSnapshot) : result string :=
  project ← os_project s;
  epoch ← os_identity_epoch s;
  _ ← ensure (bool_decide (is_Some epoch))
        "A valid existing project identity epoch is required before adoption; establish identity then recollect" [];
  Ok (hash_value ("engram:rule-adoption-basis:v1" +:+ str1 NUL)
        (basis_json (os_project_id s, directory project, project_type project,
                     os_identity_epoch_raw s, os_corpus_revision_raw s, os_rules s, os_receipts s))).

End ownership.
