(* ===== verification/Adoption.v ===== *)
(** [engram_core::registry::rule_adoption]: one reviewed transition of legacy
    rules into the ownership of a source, prepared against an inventory and
    committed in one write transaction. *)
From S2P Require Import Prelude Text Unicode Store Records Concrete Reindex SourceHead.
From S2P Require Import Registry Rules Ownership.

Open Scope N_scope.

(** * Definitions *)

Inductive LegacyAdoptionDecision := AdoptUnverified | TransferManual.
#[export] Instance LegacyAdoptionDecision_eq_dec : EqDecision LegacyAdoptionDecision.
Proof. solve_decision. Defined.

Record LegacyAdoptionBinding := {
  b_rule_id : string;
  b_expected_raw_blake3 : string;
  b_source_rule_id : string;
  b_source_projection_json : string;
  b_decision : LegacyAdoptionDecision;
}.

Record LegacyAdoptionPlan := {
  plan_origin : string;
  plan_source_blake3 : string;
  plan_authored : bool;
  plan_bindings : list LegacyAdoptionBinding;
}.

Record LegacyAdoptionOutcome := {
  out_audit_key : string;
  out_plan_blake3 : string;
  out_receipt_blake3 : string;
  out_adopted_rule_ids : list string;
  out_searchable_evidence_published : bool;
}.

(** One entry of the audit's [changes]. *)
Record AdoptionChange := {
  ch_rule_id : string;
  ch_before_blake3 : string;
  ch_after_blake3 : string;
  ch_source_rule_id : string;
  ch_source_projection_blake3 : string;
  ch_decision : LegacyAdoptionDecision;
}.

(** The audit object before it is written. *)
Record AdoptionAudit := {
  au_plan_blake3 : string;
  au_ownership_basis_blake3 : string;
  au_source : string;
  au_source_blake3 : string;
  au_decision_ref : string;
  au_changes : list AdoptionChange;
}.

Record Prepared := {
  p_rows : gmap string bytes;
  p_receipt_key : string;
  p_receipt : bytes;
  p_audit_key : string;
  p_audit : bytes;
  p_outcome : LegacyAdoptionOutcome;
}.

(** What the adoption takes from serde: the text of a plan under its basis
    digest and of an audit, and a string as a raw JSON value. A rule read from
    an object whose [provenance] is such a value has that provenance. *)
Class AdoptionEnv := {
  adopt_own :: OwnershipEnv;
  plan_json : string * LegacyAdoptionPlan → bytes;
  audit_json : AdoptionAudit → bytes;
  raw_string : string → RawValue;
  raw_string_provenance : ∀ (o : gmap string RawValue) s (r : RepoRule),
    from_slice (raw_to_vec (<["provenance" := raw_string s]> o)) = Ok r → provenance r = Some s;
}.

Definition with_provenance (r : RepoRule) (o : option string) : RepoRule :=
  {| rule_id := rule_id r; file_pattern := file_pattern r; rule_text := rule_text r;
     priority := priority r; rule_updated_at_ms := rule_updated_at_ms r;
     introduced_at := introduced_at r; provenance := o |}.

Definition with_claim (r : RuleSourceReceipt) (rules : list RepoRule) (aliases : list LegacyRuleAlias)
  : RuleSourceReceipt :=
  {| origin := origin r; source_hash := source_hash r; authored := authored r;
     receipt_pending := receipt_pending r; doc_ids := doc_ids r; receipt_rules := rules;
     cleanup := cleanup r; corpus_revision := corpus_revision r; legacy_aliases := aliases |}.

(** [BTreeMap::get] on an inventory. *)
Definition row_of {A} (k : string) (l : list (string * A)) : option A :=
  snd <$> head (filter (λ kv, kv.1 = k) l).

Definition is_manual (o : option string) : bool :=
  match o with
  | Some s => String.eqb s "manual" || String.eqb s "user-authored" || String.eqb s "manual repository rule"
  | None => false
  end.

Definition claims_rule (id : string) (r : RuleSourceReceipt) : bool :=
  existsb (λ row, String.eqb (rule_id row) id) (receipt_rules r).

(** The state of the loop over the bindings. *)
Record AdoptState := {
  a_ids : list string;
  a_sources : list string;
  a_receipt : RuleSourceReceipt;
  a_rows : gmap string bytes;
  a_changes : list AdoptionChange;
  a_budget : N;
}.

Section adoption.
Context `{AE : !AdoptionEnv}.

Definition plan_digest (plan : LegacyAdoptionPlan) (expected : RuleOwnershipSnapshot) : result string :=
  basis ← adoption_basis_digest expected;
  Ok (hash_value ("engram:reviewed-legacy-adoption:v1" +:+ str1 NUL) (plan_json (basis, plan))).

(** The stored receipts, decoded; a pending one blocks the adoption. *)
Definition decode_receipts (expected : RuleOwnershipSnapshot) : result (list (string * RuleSourceReceipt)) :=
  result_traverse (λ kv,
    receipt ← receipt_decode kv.1 kv.2;
    _ ← ensure (negb (receipt_pending receipt))
          "Pending source `{}` must be resolved before adoption" [origin receipt];
    Ok (kv.1, receipt)) (os_receipts expected).

Definition new_receipt (plan : LegacyAdoptionPlan) (corpus : string) : RuleSourceReceipt :=
  {| origin := plan_origin plan; source_hash := plan_source_blake3 plan; authored := plan_authored plan;
     receipt_pending := false; doc_ids := []; receipt_rules := []; cleanup := [];
     corpus_revision := corpus; legacy_aliases := [] |}.

(** The rows the receipt owns are stored unchanged. *)
Definition check_owned_rows (expected : RuleOwnershipSnapshot) (receipt : RuleSourceReceipt) : result () :=
  _ ← result_traverse (λ owned,
    raw ← ok_or (row_of (rule_id owned) (os_rules expected)) (Bail "Source-owned row is missing" []);
    actual ← from_slice raw;
    ensure (bool_decide (actual = owned))
      "Source-owned row `{}` was changed; resolve before adoption" [rule_id owned])
    (receipt_rules receipt);
  Ok tt.

(** The provenance checks of one binding. *)
Definition check_provenance (plan : LegacyAdoptionPlan) (key : string)
    (receipts : list (string * RuleSourceReceipt)) (decision : LegacyAdoptionDecision) (old : RepoRule)
  : result () :=
  _ ← match provenance old ≫= strip_prefix SOURCE_PROVENANCE with
      | Some o =>
          _ ← ensure (String.eqb o (plan_origin plan))
                "A declared foreign source cannot be overridden by legacy adoption" [];
          ensure (negb (match row_of key receipts with
                        | Some r => claims_rule (rule_id old) r
                        | None => false
                        end))
            "Rule already has a source ownership claim; review its lifecycle separately" []
      | None => Ok tt
      end;
  _ ← ensure (Bool.eqb (is_manual (provenance old)) (bool_decide (decision = TransferManual)))
        "Manual ownership requires its explicit transfer decision" [];
  _ ← result_traverse (λ kr,
        ensure (String.eqb kr.1 key || negb (claims_rule (rule_id old) kr.2))
          "Rule `{}` is claimed by foreign source `{}`; no rules adopted" [rule_id old; origin kr.2])
        receipts;
  Ok tt.

(** The stored object with its [provenance] field replaced. *)
Definition adopted_row (plan : LegacyAdoptionPlan) (raw : bytes) : result bytes :=
  object ← raw_from_slice raw;
  let replacement :=
    raw_to_vec (<["provenance" := raw_string (SOURCE_PROVENANCE +:+ plan_origin plan)]> object) in
  _ ← ensure (slen replacement <=? 4 * MIB) "Adopted row exceeds storage budget" [];
  Ok replacement.

(** One binding of the plan. *)
Definition adopt_binding (expected : RuleOwnershipSnapshot) (plan : LegacyAdoptionPlan) (key : string)
    (receipts : list (string * RuleSourceReceipt)) (st : AdoptState) (b : LegacyAdoptionBinding)
  : result AdoptState :=
  _ ← ensure (slen (b_source_projection_json b) <=? a_budget st)
        "Complete adoption projections exceed 2 MiB; no rows adopted" [];
  _ ← vk "rule_id" (b_rule_id b);
  _ ← ensure (bool_decide (b_rule_id b ∉ a_ids st) && bool_decide (b_source_rule_id b ∉ a_sources st))
        "Duplicate adoption mapping" [];
  _ ← ensure (negb (existsb (λ a, String.eqb (alias_rule_id a) (b_rule_id b)) (legacy_aliases (a_receipt st))))
        "Rule already has a legacy source binding; review its update separately" [];
  raw ← ok_or (row_of (b_rule_id b) (os_rules expected)) (Bail "Adoption row is missing" []);
  _ ← ensure (String.eqb (blake3_hex raw) (b_expected_raw_blake3 b)) "Adoption row fingerprint changed" [];
  old ← from_slice raw;
  _ ← ensure (String.eqb (rule_id old) (b_rule_id b)) "Rule key/value identity mismatch" [];
  _ ← check_provenance plan key receipts (b_decision b) old;
  replacement ← adopted_row plan raw;
  new ← from_slice replacement;
  _ ← ensure (bool_decide (with_provenance new (provenance old) = old)) "Adoption may change only provenance" [];
  let projection_hash := blake3_hex (b_source_projection_json b) in
  Ok {| a_ids := b_rule_id b :: a_ids st;
        a_sources := b_source_rule_id b :: a_sources st;
        a_receipt := with_claim (a_receipt st)
          (filter (λ r, rule_id r ≠ rule_id new) (receipt_rules (a_receipt st)) ++ [new])
          (legacy_aliases (a_receipt st)
           ++ [{| alias_rule_id := rule_id old; alias_source_rule_id := b_source_rule_id b;
                  alias_source_projection_json := b_source_projection_json b;
                  alias_source_projection_blake3 := projection_hash |}]);
        a_rows := <[b_rule_id b := replacement]> (a_rows st);
        a_changes := a_changes st
          ++ [{| ch_rule_id := rule_id old; ch_before_blake3 := b_expected_raw_blake3 b;
                 ch_after_blake3 := blake3_hex replacement; ch_source_rule_id := b_source_rule_id b;
                 ch_source_projection_blake3 := projection_hash; ch_decision := b_decision b |}];
        a_budget := a_budget st - slen (b_source_projection_json b) |}.

Fixpoint adopt_bindings (expected : RuleOwnershipSnapshot) (plan : LegacyAdoptionPlan) (key : string)
    (receipts : list (string * RuleSourceReceipt)) (bs : list LegacyAdoptionBinding) (st : AdoptState)
  : result AdoptState :=
  match bs with
  | [] => Ok st
  | b :: rest => st' ← adopt_binding expected plan key receipts st b;
                 adopt_bindings expected plan key receipts rest st'
  end.

(** The keys of a [BTreeMap], ascending. *)
Definition sorted_keys (rows : gmap string bytes) : list string :=
  stable_sort String.le (map_to_list rows).*1.

Definition prepare (expected : RuleOwnershipSnapshot) (plan : LegacyAdoptionPlan) (decision_ref : string)
  : result Prepared :=
  basis ← adoption_basis_digest expected;
  _ ← ensure (valid_origin (plan_origin plan) && valid_hash (plan_source_blake3 plan))
        "Invalid adoption source identity" [];
  _ ← ensure (negb (String.eqb (trim decision_ref) "") && (slen decision_ref <=? 2048))
        "An explicit bounded decision reference is required" [];
  _ ← ensure (Nat.leb 1 (length (plan_bindings plan)) && Nat.leb (length (plan_bindings plan)) 32)
        "Adoption requires 1..32 explicit row mappings" [];
  let key := source_key (plan_origin plan) in
  receipts ← decode_receipts expected;
  corpus ← transpose from_utf8 (os_corpus_revision_raw expected);
  let corpus := default "" corpus in
  let receipt := default (new_receipt plan corpus) (row_of key receipts) in
  _ ← ensure (Bool.eqb (authored receipt) (plan_authored plan)
              && String.eqb (source_hash receipt) (plan_source_blake3 plan))
        "Existing source identity or fingerprint differs; refresh/review that source before adoption" [];
  _ ← ensure (String.eqb (corpus_revision receipt) corpus)
        "Search corpus changed since source publication; reconcile before adoption" [];
  _ ← check_owned_rows expected receipt;
  st ← adopt_bindings expected plan key receipts (plan_bindings plan)
         {| a_ids := []; a_sources := alias_source_rule_id <$> legacy_aliases receipt;
            a_receipt := receipt; a_rows := ∅; a_changes := []; a_budget := 2 * MIB |};
  _ ← receipt_validate (a_receipt st) key;
  encoded ← receipt_encode (a_receipt st);
  _ ← check_adoption_budget expected (a_rows st) key encoded;
  _ ← ensure (slen encoded <=? 4 * MIB) "Adoption receipt exceeds storage budget" [];
  plan_hash ← plan_digest plan expected;
  let audit_key := "quality_adoption:" +:+ plan_hash in
  let audit := audit_json {| au_plan_blake3 := plan_hash; au_ownership_basis_blake3 := basis;
                             au_source := plan_origin plan; au_source_blake3 := plan_source_blake3 plan;
                             au_decision_ref := decision_ref; au_changes := a_changes st |} in
  _ ← ensure (slen audit <=? 256 * 1024) "Adoption audit exceeds storage budget" [];
  Ok {| p_rows := a_rows st; p_receipt_key := key; p_receipt := encoded; p_audit_key := audit_key;
        p_audit := audit;
        p_outcome := {| out_audit_key := audit_key; out_plan_blake3 := plan_hash;
                        out_receipt_blake3 := blake3_hex encoded;
                        out_adopted_rule_ids := sorted_keys (a_rows st);
                        out_searchable_evidence_published := false |} |}.

Definition preview_legacy_repo_rule_adoption (expected : RuleOwnershipSnapshot) (plan : LegacyAdoptionPlan)
    (decision_ref : string) : result LegacyAdoptionOutcome :=
  prepared ← prepare expected plan decision_ref; Ok (p_outcome prepared).

(** The rewritten rows of a prepared adoption. *)
Definition insert_rows (p : string) (rows : gmap string bytes) (db : DB) : DB :=
  map_fold (λ id raw d, <[(REPO_RULES, project_key p id) := raw]> d) db rows.

Definition commit_legacy_adoption (expected : RuleOwnershipSnapshot) (prepared : Prepared)
    (fail_after_rows : bool) : DB → DB * result LegacyAdoptionOutcome :=
  let p := os_project_id expected in
  write_tx (
    read ← tx_read (from_tables p);
    current ← lift read;
    current_basis ← lift (adoption_basis_digest current);
    expected_basis ← lift (adoption_basis_digest expected);
    _ ← lift (ensure (String.eqb current_basis expected_basis)
                "Ownership basis changed; no rules adopted, recollect and review" []);
    recorded ← tx_meta (project_key p (p_audit_key prepared));
    _ ← lift (ensure (bool_decide (recorded = None))
                "This adoption decision was already recorded; no audit overwritten" []);
    _ ← tx_modify (insert_rows p (p_rows prepared));
    _ ← lift (ensure (negb fail_after_rows)
                "Injected interruption before adoption receipt/audit publication" []);
    _ ← tx_set_meta (project_key p (p_receipt_key prepared)) (p_receipt prepared);
    _ ← tx_set_meta (project_key p (p_audit_key prepared)) (p_audit prepared);
    final ← tx_read (from_tables p);
    _ ← lift final;
    mret (Commit (p_outcome prepared))).

Definition adopt_legacy_repo_rules (expected : RuleOwnershipSnapshot) (plan : LegacyAdoptionPlan)
    (decision_ref : string) : DB → DB * result LegacyAdoptionOutcome :=
  guarded (prepare expected plan decision_ref) (λ prepared, commit_legacy_adoption expected prepared false).

End adoption.
