(* ===== verification/ConcreteRules.v ===== *)
(** A concrete instance of the interfaces of the rule stores, for evaluating
    them: JSON values are flat maps of text. *)
From S2P Require Import Prelude Text Store Records Concrete Reindex SourceHead Registry.
From S2P Require Import Rules Ownership Adoption.

(** * Definitions *)

Definition flat_value : JsonValue :=
  {| Value := gmap string string; value_from_str := object_from_slice;
     value_get_str := λ v k, v !! k |}.

Definition flat_raw : JsonRaw :=
  {| RawValue := string; raw_from_slice := object_from_slice; raw_to_vec := object_to_vec;
     raw_from_slice_to_vec := object_round_trip |}.

Definition write_bool (b : bool) : string := if b then "t" else "f".
Definition read_bool (s : string) : bool := String.eqb s "t".

Definition alias_to_vec (a : LegacyRuleAlias) : string :=
  write_fields [alias_rule_id a; alias_source_rule_id a; alias_source_projection_json a;
                alias_source_projection_blake3 a].
Definition alias_from_slice (s : string) : option LegacyRuleAlias :=
  match read_fields s with Some [a; b; c; d] => Some (Build_LegacyRuleAlias a b c d) | _ => None end.
Lemma alias_round_trip a : alias_from_slice (alias_to_vec a) = Some a.
Proof. unfold alias_from_slice, alias_to_vec. rewrite read_write_fields. by destruct a. Qed.

Definition rule_from_slice (s : string) : option RepoRule :=
  match from_slice (Json := RepoRule_json) s with Ok r => Some r | Fail _ => None end.
Lemma rule_round_trip r : rule_from_slice (to_vec (Json := RepoRule_json) r) = Some r.
Proof. unfold rule_from_slice. by rewrite from_slice_to_vec. Qed.

Definition receipt_to_vec (r : RuleSourceReceipt) : bytes :=
  write_fields [origin r; source_hash r; write_bool (authored r); write_bool (receipt_pending r);
                write_fields (doc_ids r); write_list (to_vec (Json := RepoRule_json)) (receipt_rules r);
                write_fields (cleanup r); corpus_revision r; write_list alias_to_vec (legacy_aliases r)].
Definition receipt_from_slice (s : bytes) : result RuleSourceReceipt :=
  match read_fields s with
  | Some [o; h; a; p; ds; rs; cs; c; ls] =>
      match read_fields ds, read_list rule_from_slice rs, read_fields cs, read_list alias_from_slice ls with
      | Some ds, Some rs, Some cs, Some ls =>
          Ok (Build_RuleSourceReceipt o h (read_bool a) (read_bool p) ds rs cs c ls)
      | _, _, _, _ => Fail SerdeError
      end
  | _ => Fail SerdeError
  end.
Lemma receipt_round_trip r : receipt_from_slice (receipt_to_vec r) = Ok r.
Proof.
  unfold receipt_from_slice, receipt_to_vec. rewrite !read_write_fields.
  rewrite (read_write_list _ _ _ rule_round_trip), (read_write_list _ _ _ alias_round_trip).
  destruct r as [? ? [] []]; done.
Qed.
Definition receipt_json : Json RuleSourceReceipt :=
  {| to_vec := receipt_to_vec; from_slice := receipt_from_slice; from_slice_to_vec := receipt_round_trip |}.

Lemma flat_merge (r : RepoRule) (known o : gmap string string) :
  raw_from_slice (JsonRaw := flat_raw) (to_vec (Json := RepoRule_json) r) = Ok known →
  from_slice (Json := RepoRule_json) (raw_to_vec (JsonRaw := flat_raw) (known ∪ o)) = Ok r.
Proof.
  cbn [raw_from_slice raw_to_vec flat_raw to_vec from_slice RepoRule_json]. rewrite object_round_trip. intros [= <-].
  rewrite object_round_trip. apply RepoRule_of_more_fields.
Qed.

Definition concrete_rules : RulesEnv :=
  {| rules_registry := concrete_env; rules_receipt := receipt_json; rules_value := flat_value;
     rules_raw := flat_raw; rules_blake3 := toy_blake3; rules_merge := flat_merge |}.

(** ** The inventory and the adoption *)

(** The texts that are only hashed or written need no reader. *)
Definition rows_text (l : list (string * bytes)) : string := join "," ((λ kv, kv.1 +:+ ":" +:+ kv.2) <$> l).
Definition option_text (o : option bytes) : string := default "null" o.
Definition snapshot_text (s : RuleOwnershipSnapshot) : bytes :=
  join ";" [os_project_id s; os_project_raw s; option_text (os_identity_epoch_raw s);
            option_text (os_corpus_revision_raw s); rows_text (os_rules s); rows_text (os_receipts s)].
Definition basis_text (b : string * string * string * option bytes * option bytes
                           * list (string * bytes) * list (string * bytes)) : bytes :=
  let '(p, dir, kind, epoch, corpus, rules, receipts) := b in
  join ";" [p; dir; kind; option_text epoch; option_text corpus; rows_text rules; rows_text receipts].

Definition concrete_ownership : OwnershipEnv :=
  {| own_rules := concrete_rules; snapshot_json := snapshot_text; basis_json := basis_text |}.

Definition decision_text (d : LegacyAdoptionDecision) : string :=
  match d with AdoptUnverified => "adopt_unverified" | TransferManual => "transfer_manual" end.
Definition plan_text (x : string * LegacyAdoptionPlan) : bytes :=
  join ";" ([x.1; plan_origin x.2; plan_source_blake3 x.2; if plan_authored x.2 then "true" else "false"]
    ++ ((λ b, join "," [b_rule_id b; b_expected_raw_blake3 b; b_source_rule_id b; b_source_projection_json b;
                        decision_text (b_decision b)]) <$> plan_bindings x.2)).
Definition audit_text (a : AdoptionAudit) : bytes :=
  join ";" ([au_plan_blake3 a; au_ownership_basis_blake3 a; au_source a; au_source_blake3 a; au_decision_ref a]
    ++ ((λ c, join "," [ch_rule_id c; ch_before_blake3 c; ch_after_blake3 c; ch_source_rule_id c;
                        ch_source_projection_blake3 c; decision_text (ch_decision c)]) <$> au_changes a)).

Lemma flat_provenance (o : gmap string string) s r :
  from_slice (Json := RepoRule_json) (raw_to_vec (JsonRaw := flat_raw)
    (<["provenance" := countable_to_vec (Some s)]> o)) = Ok r → provenance r = Some s.
Proof.
  cbn [raw_to_vec flat_raw from_slice RepoRule_json]. rewrite object_round_trip. cbn [mbind result_bind].
  unfold RepoRule_of_fields. intros H.
  apply result_bind_Ok in H as (? & _ & H). apply result_bind_Ok in H as (? & _ & H).
  apply result_bind_Ok in H as (? & _ & H). apply result_bind_Ok in H as (? & _ & H).
  apply result_bind_Ok in H as (? & _ & H). apply result_bind_Ok in H as (? & _ & H).
  rewrite (object_field_Ok _ _ (Some s)) in H by apply lookup_insert_eq. by injection H as <-.
Qed.

Definition concrete_adoption : AdoptionEnv :=
  {| adopt_own := concrete_ownership; plan_json := plan_text; audit_json := audit_text;
     raw_string := λ s, countable_to_vec (Some s) : RawValue (JsonRaw := flat_raw);
     raw_string_provenance := flat_provenance |}.
