(* ===== verification/Revisions.v ===== *)
(** The durable revision sequence behind every registry token. A head revision,
    an identity epoch and the revision of a pending recovery reason are cells
    of the META table; [mono] says that a transaction only ever puts newly
    allocated revisions into them and never moves the sequence back. *)
From S2P Require Import Prelude Text Store Records Concrete Reindex SourceHead Registry.
From S2P Require Import Rules.

Open Scope N_scope.

(** * Definitions *)

Inductive Cell :=
  | HeadRevision (p : string)
  | IdentityEpoch (p : string)
  | PendingRevision (p : string) (reason : ReindexReason).

Definition cell_project (c : Cell) : string :=
  match c with HeadRevision p | IdentityEpoch p | PendingRevision p _ => p end.
Definition cell_suffix (c : Cell) : string :=
  match c with
  | HeadRevision _ => REVISION
  | IdentityEpoch _ => IDENTITY_EPOCH
  | PendingRevision _ _ => KEY
  end.
Definition cell_key (c : Cell) : string := project_key (cell_project c) (cell_suffix c).
Definition valid_cell (c : Cell) : Prop := valid_component (cell_project c) = true.

(** The metadata keys that hold cells, and the name of the sequence. *)
Definition revision_suffixes : list string := [REVISION; IDENTITY_EPOCH; KEY].
Definition SEQUENCE_SUFFIX : string := "reindex_revision_sequence_v1".
Definition plain_key (k : string) : Prop := contains_char NUL k = false ∧ k ∉ revision_suffixes.

Section revisions.
Context `{RE : !RegistryEnv}.

Definition decode_cell (c : Cell) (b : bytes) : option N :=
  match c with
  | HeadRevision _ | IdentityEpoch _ =>
      match head_revision b with Ok n => Some n | Fail _ => None end
  | PendingRevision _ reason =>
      match from_slice b with
      | Ok r => req_revision <$> pending r !! reason
      | Fail _ => None
      end
  end.
Definition cell_value (c : Cell) (db : DB) : option N :=
  meta (cell_key c) db ≫= decode_cell c.

(** The last revision allocated; zero before the first one. *)
Definition last_revision (db : DB) : result N :=
  o ← transpose u64_from_slice (meta REVISION_SEQUENCE db); Ok (default 0 o).

(** Every cell of [db] is that of [base] or was allocated after [n0]. *)
Definition fresh (n0 : N) (base db : DB) : Prop :=
  ∃ n, last_revision db = Ok n ∧ n0 <= n ∧
    ∀ c v, valid_cell c → cell_value c db = Some v →
           cell_value c base = Some v ∨ (n0 < v ∧ v <= n).

Definition mono (db db' : DB) : Prop := ∀ n0 base, fresh n0 base db → fresh n0 base db'.

(** All revisions in use are at most the sequence. *)
Definition bounded (db : DB) : Prop :=
  ∃ n, last_revision db = Ok n ∧
    ∀ c v, valid_cell c → cell_value c db = Some v → v <= n.

#[export] Instance mono_preorder : PreOrder mono.
Proof. split; [by intros db n0 base | intros a b c H1 H2 n0 base Hf; auto]. Qed.

(** ** Keys *)

Lemma cell_suffix_NUL c : contains_char NUL (cell_suffix c) = false.
Proof. by destruct c. Qed.

Lemma cell_suffix_reserved c : cell_suffix c ∈ revision_suffixes.
Proof. destruct c; simpl; unfold revision_suffixes; set_solver. Qed.

Lemma sequence_key : REVISION_SEQUENCE = project_key "" SEQUENCE_SUFFIX.
Proof. done. Qed.

Lemma project_key_not_sequence p k : valid_component p = true → project_key p k ≠ REVISION_SEQUENCE.
Proof.
  intros Hp. rewrite sequence_key. intros [Hn _]%project_key_inj_NUL;
    [| by apply valid_component_no_NUL | done]. by apply valid_component_nonempty in Hp.
Qed.

Lemma project_key_not_sequence_suffix p k :
  contains_char NUL k = false → k ≠ SEQUENCE_SUFFIX → project_key p k ≠ REVISION_SEQUENCE.
Proof. intros Hk Hn. rewrite sequence_key. by intros [_ Hs]%project_key_inj_suffix. Qed.

Lemma reserved_not_sequence p k : k ∈ revision_suffixes → project_key p k ≠ REVISION_SEQUENCE.
Proof.
  intros Hk. apply project_key_not_sequence_suffix; unfold revision_suffixes in Hk;
    repeat (apply elem_of_cons in Hk as [->|Hk]; [done |]); by apply elem_of_nil in Hk.
Qed.

Lemma cell_key_not_sequence c : cell_key c ≠ REVISION_SEQUENCE.
Proof. apply reserved_not_sequence, cell_suffix_reserved. Qed.

Lemma cell_key_plain c p k : plain_key k → cell_key c ≠ project_key p k.
Proof.
  intros [Hk Hn] He. apply project_key_inj_suffix in He as [_ <-];
    [| apply cell_suffix_NUL | done]. apply Hn, cell_suffix_reserved.
Qed.

Lemma cell_key_suffix c p k :
  contains_char NUL k = false → cell_key c = project_key p k →
  cell_project c = p ∧ cell_suffix c = k.
Proof. intros Hk He. apply project_key_inj_suffix in He; [done | apply cell_suffix_NUL | done]. Qed.

(** ** Rows outside the cells *)

Lemma fresh_refl n0 db : last_revision db = Ok n0 → fresh n0 db db.
Proof. intros Hn. exists n0. split_and!; [done | done |]. auto. Qed.

Lemma meta_insert_ne t k k' v (db : DB) :
  (t, k) ≠ (META, k') → meta k' (<[(t, k) := v]> db) = meta k' db.
Proof. intros. unfold meta. by rewrite lookup_insert_ne. Qed.

Lemma mono_insert t k v (db : DB) :
  (t = META → k ≠ REVISION_SEQUENCE ∧ ∀ c, valid_cell c → cell_key c ≠ k) →
  mono db (<[(t, k) := v]> db).
Proof.
  intros Hk n0 base (n & Hn & Hle & Hc). exists n.
  split_and!; [| done |].
  - unfold last_revision. rewrite meta_insert_ne; [done |].
    intros [= -> ->]. by destruct Hk.
  - intros c w Hv. unfold cell_value. rewrite meta_insert_ne; [by apply Hc |].
    intros [= -> ->]. destruct Hk as [_ Hk]; [done |]. by apply (Hk c).
Qed.

Lemma mono_delete t k (db : DB) : (t = META → k ≠ REVISION_SEQUENCE) → mono db (delete (t, k) db).
Proof.
  intros Hk n0 base (n & Hn & Hle & Hc). exists n.
  split_and!; [| done |].
  - unfold last_revision, meta. rewrite lookup_delete_ne; [done |].
    intros [= -> ->]. by destruct Hk.
  - intros c w Hv. unfold cell_value, meta.
    destruct (decide ((t, k) = (META, cell_key c))) as [->|Hne].
    + by rewrite lookup_delete_eq.
    + rewrite lookup_delete_ne by done. by apply Hc.
Qed.

Lemma mono_set_meta p k v (db : DB) :
  valid_component p = true → plain_key k → mono db (<[(META, project_key p k) := v]> db).
Proof.
  intros Hp Hk. apply mono_insert. intros _. split; [by apply project_key_not_sequence |].
  intros c Hc. by apply cell_key_plain.
Qed.

(** The source head's own flags, whatever the project. *)
Lemma mono_set_flag p k v (db : DB) :
  plain_key k → k ≠ SEQUENCE_SUFFIX → mono db (<[(META, project_key p k) := v]> db).
Proof.
  intros Hk Hs. apply mono_insert. intros _. split.
  - apply project_key_not_sequence_suffix; [apply Hk | done].
  - intros c Hc. by apply cell_key_plain.
Qed.

Lemma mono_delete_keys t ks (db : DB) :
  (t = META → REVISION_SEQUENCE ∉ ks) → mono db (delete_keys t ks db).
Proof.
  unfold delete_keys. revert db. induction ks as [|k ks IH]; intros db Hk; simpl; [done |].
  etrans; [| apply IH].
  - apply mono_delete. intros ->. set_solver.
  - intros ->. set_solver.
Qed.

(** ** Allocation *)

Lemma last_revision_insert n (db : DB) :
  n <= u64_max → last_revision (<[(META, REVISION_SEQUENCE) := u64_to_vec n]> db) = Ok n.
Proof.
  intros. unfold last_revision, meta. rewrite lookup_insert_eq. simpl.
  by rewrite u64_round_trip.
Qed.

Lemma next_revision_Ok floor (db : DB) v db' :
  next_revision floor db = Ok (v, db') ↔
  ∃ n, last_revision db = Ok n ∧ v = N.max n floor + 1 ∧ v <= u64_max ∧
       db' = <[(META, REVISION_SEQUENCE) := u64_to_vec v]> db.
Proof.
  unfold next_revision, last_revision, meta. split.
  - intros Hr. tx_inv Hr. rewrite H. apply checked_add_Some in H0 as [-> Hle].
    eexists. split_and!; eauto.
  - intros (n & Hn & -> & Hle & ->). apply result_bind_Ok in Hn as (o & Ho & [= <-]).
    rewrite tx_bind_Ok. do 2 eexists. split; [by apply tx_get_Ok |].
    rewrite tx_bind_Ok. do 2 eexists. split; [by apply lift_Ok |].
    rewrite tx_bind_Ok. do 2 eexists. split; [apply lift_Ok; split; [| done] |].
    { by apply ok_or_Ok, checked_add_Some. }
    rewrite tx_bind_Ok. do 2 eexists. split; [by apply tx_insert_Ok |]. by apply tx_ret_Ok.
Qed.

Lemma fresh_next_revision n0 base floor (db : DB) v db' :
  fresh n0 base db → next_revision floor db = Ok (v, db') →
  fresh n0 base db' ∧ n0 < v ∧ last_revision db' = Ok v ∧ floor < v.
Proof.
  intros (n & Hn & Hle & Hc) (n' & Hn' & -> & Hmax & ->)%next_revision_Ok.
  rewrite Hn in Hn'. injection Hn' as <-.
  assert (Hl := last_revision_insert _ db Hmax). split_and!; [| lia | done | lia].
  exists (N.max n floor + 1). split_and!; [done | lia |].
  intros c w Hv. unfold cell_value. rewrite meta_insert_ne.
  - intros Hw. destruct (Hc c w Hv Hw); [by left | right; lia].
  - intros [= He]. by apply (cell_key_not_sequence c).
Qed.

(** Storing decoded revisions that are already in the cell or newly allocated. *)
Lemma fresh_set_cells n0 base (db : DB) p k b :
  k ∈ revision_suffixes →
  fresh n0 base db →
  (∀ n c v, last_revision db = Ok n → valid_cell c → cell_project c = p → cell_suffix c = k →
     decode_cell c b = Some v →
     cell_value c base = Some v ∨ (n0 < v ∧ v <= n)) →
  fresh n0 base (<[(META, project_key p k) := b]> db).
Proof.
  intros Hk (n & Hn & Hle & Hc) Hb. exists n. split_and!; [| done |].
  - unfold last_revision. rewrite meta_insert_ne; [done |].
    intros [= He]. by apply (reserved_not_sequence p k).
  - intros c v Hv Hcv. destruct (decide (cell_key c = project_key p k)) as [He|He].
    + unfold cell_value, meta in Hcv. rewrite He, lookup_insert_eq in Hcv.
      apply project_key_inj_suffix in He as [H1 H2]; [| apply cell_suffix_NUL |].
      * by apply Hb.
      * unfold revision_suffixes in Hk.
        repeat (apply elem_of_cons in Hk as [->|Hk]; [done |]); by apply elem_of_nil in Hk.
    + apply Hc; [done |]. unfold cell_value in Hcv. rewrite meta_insert_ne in Hcv by congruence. done.
Qed.

Lemma bounded_text_show n : bounded_text (show_u64 n) = Ok (show_u64 n).
Proof.
  apply result_bind_Ok. exists tt. split; [| apply from_utf8_show].
  apply ensure_Ok, N.leb_le, slen_show_u64.
Qed.

Lemma head_revision_show n : 0 < n → n <= u64_max → head_revision (show_u64 n) = Ok n.
Proof.
  intros H0 Hn. apply result_bind_Ok. eexists. split; [apply bounded_text_show |].
  apply result_bind_Ok. eexists. split; [by apply parse_show_u64 |].
  apply result_bind_Ok. exists tt. split; [| done].
  apply ensure_Ok, negb_true_iff, N.eqb_neq. lia.
Qed.

Lemma head_revision_bound b n : head_revision b = Ok n → 0 < n ∧ n <= u64_max.
Proof.
  intros Hb. unfold head_revision in Hb. res_inv Hb.
  match goal with E : negb _ = true |- _ => apply negb_true_iff, N.eqb_neq in E end.
  split; [lia | by eapply parse_u64_bound].
Qed.

End revisions.
