(* ===== verification/Lifecycle.v ===== *)
(** The registry as a state machine: its mutating operations as one step
    relation, the invariant of the reachable databases, and the relation every
    step keeps with the durable revision sequence. *)
From S2P Require Import Prelude Text Store Records Concrete Reindex SourceHead Registry.
From S2P Require Import Rules Revisions.

Open Scope N_scope.

(** * Definitions *)

Section invariant.
Context `{RE : !RegistryEnv}.

(** The rows a project's registration and recovery state consist of. *)
Definition state_rows (p : string) : list (TableId * string) :=
  [(PROJECTS, p); (META, key p); (META, revision_key p); (META, flag_key p IDENTITY_EPOCH)].

(** The identity epoch never exceeds the head revision. *)
Definition heads_ordered (p : string) (db : DB) : Prop :=
  ∀ r e, cell_value (HeadRevision p) db = Some r → cell_value (IdentityEpoch p) db = Some e → e <= r.
Definition heads_present (p : string) (db : DB) : Prop :=
  is_Some (cell_value (HeadRevision p) db) ∧ is_Some (cell_value (IdentityEpoch p) db).

(** The stored recovery reasons of [p] satisfy [P], where there are any. *)
Definition requirements_are (p : string) (db : DB) (P : Requirements → Prop) : Prop :=
  ∀ raw, meta (key p) db = Some raw → ∃ r, from_slice raw = Ok r ∧ P r.

(** The project row shows the oldest pending recovery reason. *)
Definition shows_requirements (p : string) (rec : ProjectRecord) (db : DB) : Prop :=
  (meta (key p) db = None → reindex_required_since_ms rec = None) ∧
  requirements_are p db (λ r, reindex_required_since_ms rec = requirements_since_ms r).

(** A registered project is stored under its own id, shows the oldest pending
    recovery reason and has a head revision and an identity epoch; a deleted
    one has no pending reason. *)
Definition project_inv (p : string) (db : DB) : Prop :=
  heads_ordered p db ∧
  match db !! (PROJECTS, p) with
  | Some raw =>
      ∃ rec, from_slice raw = Ok rec ∧ project_id rec = p ∧ heads_present p db ∧
        shows_requirements p rec db
  | None => requirements_are p db (λ r, pending r = ∅)
  end.

Definition registry_inv (db : DB) : Prop :=
  (∀ p, valid_component p = true → project_inv p db) ∧
  (∀ p, valid_component p = false → db !! (PROJECTS, p) = None).

(** A transaction on project [p] leaves the state rows of the others. *)
Definition local_to (p : string) (db db' : DB) : Prop :=
  ∀ q j, q ≠ p → j ∈ state_rows q → valid_component q = true ∨ j = (PROJECTS, q) →
         db' !! j = db !! j.

(** What a transaction on the source head of [p] does to the state rows: it
    may advance the head revision and the epoch of [p], in order. *)
Definition head_rel (p : string) (db db' : DB) : Prop :=
  mono db db' ∧ local_to p db db' ∧
  db' !! (PROJECTS, p) = db !! (PROJECTS, p) ∧ meta (key p) db' = meta (key p) db ∧
  (heads_ordered p db → heads_ordered p db') ∧ (heads_present p db → heads_present p db').

(** What every operation does. *)
Definition sound (db db' : DB) : Prop := registry_inv db → mono db db' ∧ registry_inv db'.

#[export] Instance local_to_preorder p : PreOrder (local_to p).
Proof.
  split; [by intros db q j |]. intros a b c H1 H2 q j Hq Hj Hv.
  rewrite (H2 q j Hq Hj Hv). by apply (H1 q).
Qed.

#[export] Instance head_rel_preorder p : PreOrder (head_rel p).
Proof.
  split; [by intros db; unfold head_rel |].
  intros a b c (M1 & L1 & P1 & K1 & O1 & S1) (M2 & L2 & P2 & K2 & O2 & S2).
  split_and!; [by etrans | by etrans | congruence | congruence | auto | auto].
Qed.

#[export] Instance sound_preorder : PreOrder sound.
Proof.
  split; [by intros db |]. intros a b c H1 H2 Ha. destruct (H1 Ha) as [M1 Hb].
  destruct (H2 Hb) as [M2 Hc]. split; [by etrans | done].
Qed.

(** ** Key facts *)

Lemma state_rows_suffix p k :
  (META, k) ∈ state_rows p → ∃ s, s ∈ revision_suffixes ∧ k = project_key p s.
Proof.
  unfold state_rows, revision_suffixes, key, revision_key, flag_key.
  rewrite !elem_of_cons, elem_of_nil. intros [H|[H|[H|[H|[]]]]]; simplify_eq;
    eexists; (split; [| done]); set_solver.
Qed.

Lemma revision_suffix_NUL s : s ∈ revision_suffixes → contains_char NUL s = false.
Proof.
  unfold revision_suffixes. rewrite !elem_of_cons, elem_of_nil. by intros [->|[->|[->|[]]]].
Qed.

Lemma state_rows_other p q s : q ≠ p → contains_char NUL s = false → (META, project_key p s) ∉ state_rows q.
Proof.
  intros Hq Hs (s' & Hs' & He)%state_rows_suffix.
  apply project_key_inj_suffix in He as [-> _]; [done | done | by apply revision_suffix_NUL].
Qed.

Lemma state_rows_plain p q s : plain_key s → (META, project_key p s) ∉ state_rows q.
Proof.
  intros [Hs Hn] (s' & Hs' & He)%state_rows_suffix.
  apply project_key_inj_suffix in He as [_ ->]; [done | done | by apply revision_suffix_NUL].
Qed.

Lemma state_rows_sequence q : (META, REVISION_SEQUENCE) ∉ state_rows q.
Proof. intros (s' & Hs' & He)%state_rows_suffix. by eapply reserved_not_sequence. Qed.

Lemma local_insert p j v (db : DB) : (∀ q, q ≠ p → j ∉ state_rows q) → local_to p db (<[j := v]> db).
Proof. intros Hj q i Hq Hi _. rewrite lookup_insert_ne; [done |]. intros ->. by apply (Hj q). Qed.
Lemma local_delete p j (db : DB) : (∀ q, q ≠ p → j ∉ state_rows q) → local_to p db (delete j db).
Proof. intros Hj q i Hq Hi _. rewrite lookup_delete_ne; [done |]. intros ->. by apply (Hj q). Qed.

Lemma state_rows_project p q : q ≠ p → (PROJECTS, p) ∉ state_rows q.
Proof.
  unfold state_rows. rewrite !elem_of_cons, elem_of_nil. intros Hq [[=]|[[=]|[[=]|[[=]|[]]]]]; done.
Qed.

(** The state of a project depends on its state rows only. *)
Lemma project_inv_frame p (db db' : DB) :
  (∀ j, j ∈ state_rows p → db' !! j = db !! j) → project_inv p db → project_inv p db'.
Proof.
  intros Hf. unfold project_inv, shows_requirements, heads_ordered, heads_present,
    requirements_are, cell_value, meta.
  rewrite (Hf (PROJECTS, p)), (Hf (META, key p)) by (unfold state_rows; set_solver).
  unfold cell_key; simpl. fold (revision_key p) (flag_key p IDENTITY_EPOCH).
  rewrite (Hf (META, revision_key p)), (Hf (META, flag_key p IDENTITY_EPOCH))
    by (unfold state_rows; set_solver). done.
Qed.

(** A step on one project keeps the invariant when it keeps it there. *)
Lemma registry_inv_local p (db db' : DB) :
  local_to p db db' → registry_inv db →
  (if valid_component p then project_inv p db' else db' !! (PROJECTS, p) = None) →
  registry_inv db'.
Proof.
  intros Hl [Hv Hi] Hp'. split.
  - intros q Hq. destruct (decide (q = p)) as [->|Hne]; [by rewrite Hq in Hp' |].
    eapply project_inv_frame; [| by apply Hv]. intros j Hj. apply (Hl q); auto.
  - intros q Hq. destruct (decide (q = p)) as [->|Hne]; [by rewrite Hq in Hp' |].
    rewrite (Hl q); [by apply Hi | done | | by right]. unfold state_rows. set_solver.
Qed.

(** A step that touches no state row keeps the invariant. *)
Lemma registry_inv_frame (db db' : DB) :
  (∀ p j, j ∈ state_rows p → db' !! j = db !! j) → registry_inv db → registry_inv db'.
Proof.
  intros Hf [Hv Hi]. split.
  - intros p Hp. eapply project_inv_frame; [apply Hf | by apply Hv].
  - intros p Hp. rewrite (Hf p); [by apply Hi |]. unfold state_rows. set_solver.
Qed.

(** ** Allocation of head revisions *)

Lemma head_cell_transpose p (db : DB) o :
  transpose head_revision (meta (revision_key p) db) = Ok o → cell_value (HeadRevision p) db = o.
Proof.
  unfold cell_value, cell_key. simpl. fold (revision_key p).
  destruct (meta (revision_key p) db) as [b|]; simpl; [| naive_solver].
  destruct (head_revision b); naive_solver.
Qed.
Lemma epoch_cell_transpose p (db : DB) o :
  transpose head_revision (meta (flag_key p IDENTITY_EPOCH) db) = Ok o →
  cell_value (IdentityEpoch p) db = o.
Proof.
  unfold cell_value, cell_key. simpl. fold (flag_key p IDENTITY_EPOCH).
  destruct (meta (flag_key p IDENTITY_EPOCH) db) as [b|]; simpl; [| naive_solver].
  destruct (head_revision b); naive_solver.
Qed.

Lemma advance_revision_Ok p (db : DB) v db' :
  advance_revision p db = Ok (v, db') →
  ∃ db1 prev epoch,
    next_revision (N.max (default 0 prev) (default 0 epoch)) db = Ok (v, db1) ∧
    cell_value (HeadRevision p) db = prev ∧ cell_value (IdentityEpoch p) db = epoch ∧
    db' = <[(META, revision_key p) := show_u64 v]> db1.
Proof.
  unfold advance_revision, tx_meta, tx_set_meta. intros Ha. tx_inv Ha.
  do 3 eexists. split_and!; [done | by apply head_cell_transpose | by apply epoch_cell_transpose | done].
Qed.

Lemma next_revision_frame floor (db : DB) v db' j :
  next_revision floor db = Ok (v, db') → j ≠ (META, REVISION_SEQUENCE) → db' !! j = db !! j.
Proof. intros (n & _ & _ & _ & ->)%next_revision_Ok Hj. by rewrite lookup_insert_ne. Qed.

Lemma next_revision_local p floor (db : DB) v db' :
  next_revision floor db = Ok (v, db') → local_to p db db'.
Proof.
  intros Hn q j Hq Hj _. eapply next_revision_frame; [done |]. intros ->.
  by apply state_rows_sequence in Hj.
Qed.

Lemma next_revision_cell floor (db : DB) v db' c :
  next_revision floor db = Ok (v, db') → cell_value c db' = cell_value c db.
Proof.
  intros Hn. unfold cell_value, meta. erewrite next_revision_frame; [done | done |].
  intros [= He]. by apply (cell_key_not_sequence c).
Qed.

Lemma next_revision_range floor (db : DB) v db' :
  next_revision floor db = Ok (v, db') → floor < v ∧ v <= u64_max.
Proof. intros (n & _ & -> & ? & _)%next_revision_Ok. lia. Qed.

Lemma mono_next_revision floor : preserves mono (next_revision floor).
Proof. intros db v db' Hn n0 base Hf. by eapply fresh_next_revision in Hf as (? & _). Qed.

(** Store a newly allocated revision as the cell [c]. *)
Lemma fresh_set_head n0 base c v n (db : DB) :
  cell_suffix c ≠ KEY → fresh n0 base db → last_revision db = Ok n → n0 < v → v <= n → v <= u64_max →
  fresh n0 base (<[(META, cell_key c) := show_u64 v]> db).
Proof.
  intros Hc Hf Hn H0 Hv Hm. apply fresh_set_cells; [apply cell_suffix_reserved | done |].
  intros n' c' w Hn' _ _ Hs Hd. right. rewrite Hn in Hn'. injection Hn' as <-.
  enough (w = v) as -> by lia.
  destruct c'; simpl in Hs, Hd; [| | by rewrite <-Hs in Hc];
    rewrite head_revision_show in Hd by lia; congruence.
Qed.

Lemma cell_value_set_head c v (db : DB) :
  cell_suffix c ≠ KEY → 0 < v → v <= u64_max →
  cell_value c (<[(META, cell_key c) := show_u64 v]> db) = Some v.
Proof.
  intros Hc H0 Hm. unfold cell_value, meta. rewrite lookup_insert_eq.
  destruct c; simpl in *; [| | done]; by rewrite head_revision_show.
Qed.

Lemma cell_value_insert_ne c t k v (db : DB) :
  (t, k) ≠ (META, cell_key c) → cell_value c (<[(t, k) := v]> db) = cell_value c db.
Proof. intros. unfold cell_value. by rewrite meta_insert_ne. Qed.

Lemma cell_value_set_plain c p k v (db : DB) :
  plain_key k → cell_value c (<[(META, project_key p k) := v]> db) = cell_value c db.
Proof.
  intros Hk. apply cell_value_insert_ne. intros [= He]. symmetry in He. by eapply cell_key_plain.
Qed.

Lemma cell_key_ne c1 c2 :
  cell_suffix c1 ≠ cell_suffix c2 → (META, cell_key c1) ≠ (META, cell_key c2).
Proof.
  intros Hs [= He]. apply project_key_inj_suffix in He as [_ ?]; [done | apply cell_suffix_NUL ..].
Qed.

(** A successful [advance_revision] stores the new last revision, above the
    epoch, as the head revision. *)
Lemma advance_revision_spec p (db : DB) v db' :
  advance_revision p db = Ok (v, db') →
  (∀ n0 base, fresh n0 base db → fresh n0 base db' ∧ n0 < v) ∧ local_to p db db' ∧
  (∀ j, j ≠ (META, REVISION_SEQUENCE) → j ≠ (META, revision_key p) → db' !! j = db !! j) ∧
  cell_value (HeadRevision p) db' = Some v ∧
  cell_value (IdentityEpoch p) db' = cell_value (IdentityEpoch p) db ∧
  (∀ e, cell_value (IdentityEpoch p) db = Some e → e < v) ∧
  last_revision db' = Ok v ∧ 0 < v ∧ v <= u64_max.
Proof.
  intros (db1 & prev & epoch & Hn & Hp & He & ->)%advance_revision_Ok.
  destruct (next_revision_range _ _ _ _ Hn) as [Hlt Hmax].
  assert (Hseq : last_revision db1 = Ok v).
  { apply next_revision_Ok in Hn as (n & _ & _ & ? & ->). by apply last_revision_insert. }
  split_and!.
  - intros n0 base Hf. eapply fresh_next_revision in Hf as (Hf & H0 & Hl & _); [| done].
    split; [| done]. apply (fresh_set_head n0 base (HeadRevision p) v v); done || lia.
  - etrans; [by eapply next_revision_local |]. apply local_insert. intros q Hq.
    by apply state_rows_other.
  - intros j Hj1 Hj2. rewrite lookup_insert_ne by done. by eapply next_revision_frame.
  - apply (cell_value_set_head (HeadRevision p)); [done | lia | done].
  - rewrite cell_value_insert_ne by (by apply (cell_key_ne (HeadRevision p) (IdentityEpoch p))).
    by eapply next_revision_cell.
  - intros e He'. rewrite He' in He. subst epoch. simpl in Hlt. lia.
  - unfold last_revision. rewrite meta_insert_ne; [done |].
    intros [= Hs]. by apply (reserved_not_sequence p REVISION) in Hs; [| set_solver].
  - lia.
  - done.
Qed.

Lemma head_rel_advance p : preserves (head_rel p) (advance_revision p).
Proof.
  intros db v db' (M & L & F & Hh & He & Hlt & _)%advance_revision_spec.
  split_and!; [intros n0 base Hf; by apply M | done | | | |].
  - apply F; [done |]. by intros [=].
  - apply F.
    + intros [= Hs]. by apply (reserved_not_sequence p KEY) in Hs; [| set_solver].
    + by apply (cell_key_ne (PendingRevision p Source) (HeadRevision p)).
  - intros _ r e Hr He'. rewrite Hh in Hr. injection Hr as <-. rewrite He in He'.
    apply Hlt in He'. lia.
  - intros [_ Hs]. split; [by rewrite Hh | by rewrite He].
Qed.

(** ** Flags of a project *)

Lemma cell_key_head p : cell_key (HeadRevision p) = revision_key p.
Proof. done. Qed.

Lemma head_rel_insert p j v (db : DB) :
  mono db (<[j := v]> db) → (∀ q, j ∉ state_rows q) → head_rel p db (<[j := v]> db).
Proof.
  intros Hm Hj.
  assert (Hne : ∀ i, i ∈ state_rows p → <[j := v]> db !! i = db !! i).
  { intros i Hi. rewrite lookup_insert_ne; [done |]. intros ->. by apply (Hj p). }
  assert (Hc : ∀ c, (META, cell_key c) ∈ state_rows p → cell_value c (<[j := v]> db) = cell_value c db).
  { intros c Hi. unfold cell_value, meta. by rewrite Hne. }
  assert (HR : (META, cell_key (HeadRevision p)) ∈ state_rows p) by (unfold state_rows; set_solver).
  assert (HE : (META, cell_key (IdentityEpoch p)) ∈ state_rows p) by (unfold state_rows; set_solver).
  unfold head_rel, heads_ordered, heads_present. rewrite !(Hc _ HR), !(Hc _ HE).
  split_and!; [done | | | | done | done].
  - apply local_insert. auto.
  - apply Hne. unfold state_rows; set_solver.
  - apply Hne. unfold state_rows; set_solver.
Qed.

Definition plain_flag (k : string) : Prop := plain_key k ∧ k ≠ SEQUENCE_SUFFIX.

Lemma head_rel_set_flag p k v :
  plain_flag k → preserves (head_rel p) (tx_set_meta (project_key p k) v).
Proof.
  intros [Hk Hs]. apply preserves_insert. intros db. apply head_rel_insert.
  - by apply mono_set_flag.
  - intros q. by apply state_rows_plain.
Qed.

Lemma head_rel_set_meta p k v :
  valid_component p = true → plain_key k → preserves (head_rel p) (tx_set_meta (project_key p k) v).
Proof.
  intros Hp Hk. apply preserves_insert. intros db. apply head_rel_insert.
  - by apply mono_set_meta.
  - intros q. by apply state_rows_plain.
Qed.

(** The source head's own flags hold no revision. *)
Lemma plain_flags :
  plain_flag HEAD ∧ plain_flag REQUIRED ∧ plain_flag MANAGED ∧ plain_flag LEGACY_ATTESTED ∧
  plain_flag IDENTITY_VERIFIED.
Proof.
  unfold plain_flag, plain_key, revision_suffixes.
  split_and!; try done; rewrite !elem_of_cons, elem_of_nil; by intros [|[|[|[]]]].
Qed.

Lemma head_rel_mark_required p : preserves (head_rel p) (mark_head_required p).
Proof. apply head_rel_set_flag, plain_flags. Qed.

(** The verification mark: the epoch becomes the new head revision. *)
Lemma mark_identity_unverified_spec p (db : DB) v db' :
  mark_identity_unverified p db = Ok (v, db') →
  head_rel p db db' ∧ cell_value (HeadRevision p) db' = Some v ∧
  cell_value (IdentityEpoch p) db' = Some v.
Proof.
  unfold mark_identity_unverified. intros Hm.
  apply tx_bind_Ok in Hm as (e & s1 & Ha & Hm). apply tx_bind_Ok in Hm as ([] & s2 & Hi & Hm).
  apply tx_bind_Ok in Hm as ([] & s3 & Hf & Hm). apply tx_ret_Ok in Hm as [-> ->].
  apply tx_insert_Ok in Hi as [_ ->].
  assert (Hr := head_rel_advance p _ _ _ Ha).
  apply advance_revision_spec in Ha as (M & L & F & Hh & He & Hlt & Hl & H0 & Hmax).
  apply tx_insert_Ok in Hf as [_ ->].
  set (db2 := <[(META, flag_key p IDENTITY_EPOCH) := show_u64 e]> s1).
  assert (Hh2 : cell_value (HeadRevision p) db2 = Some e).
  { unfold db2. rewrite cell_value_insert_ne; [done |].
    by apply (cell_key_ne (IdentityEpoch p) (HeadRevision p)). }
  assert (He2 : cell_value (IdentityEpoch p) db2 = Some e)
    by (by apply (cell_value_set_head (IdentityEpoch p))).
  assert (H12 : head_rel p db db2).
  { destruct Hr as (_ & _ & HP & HK & _). split_and!.
    - intros n0 base Hf. apply M in Hf as [Hf Hn].
      by apply (fresh_set_head n0 base (IdentityEpoch p) e e).
    - etrans; [done |]. apply local_insert. intros q Hq. by apply state_rows_other.
    - unfold db2. by rewrite lookup_insert_ne.
    - unfold db2. rewrite meta_insert_ne; [done |].
      by apply (cell_key_ne (IdentityEpoch p) (PendingRevision p Source)).
    - intros _ r e'. rewrite Hh2, He2. naive_solver lia.
    - intros _. split; [by rewrite Hh2 | by rewrite He2]. }
  assert (Hf : head_rel p db2 (<[(META, flag_key p IDENTITY_VERIFIED) := "0"]> db2)).
  { by apply (head_rel_set_flag p IDENTITY_VERIFIED "0" (proj2 (proj2 (proj2 (proj2 plain_flags)))) db2 tt). }
  split_and!; [by etrans | |];
    by rewrite (cell_value_set_plain _ p IDENTITY_VERIFIED) by apply plain_flags.
Qed.

Lemma head_rel_next_revision p floor : preserves (head_rel p) (next_revision floor).
Proof.
  intros db v db' Hn. unfold head_rel, heads_ordered, heads_present.
  rewrite !(next_revision_cell _ _ _ _ _ Hn). split_and!; [| | | | done | done].
  - by eapply mono_next_revision.
  - by eapply next_revision_local.
  - by eapply next_revision_frame.
  - eapply next_revision_frame; [done |]. intros [= He].
    by apply (reserved_not_sequence p KEY) in He; [| set_solver].
Qed.

Lemma head_rel_mark p : preserves (head_rel p) (mark_identity_unverified p).
Proof. by intros db v db' (H & _)%mark_identity_unverified_spec. Qed.

(** A transaction on a source head keeps the invariant. *)
Lemma sound_head_rel p (db db' : DB) : head_rel p db db' → sound db db'.
Proof.
  intros (M & L & HP & HK & HO & HS) Hinv. split; [done |].
  eapply registry_inv_local; [done | done |]. destruct Hinv as [Hv Hi].
  destruct (valid_component p) eqn:Hp; [| rewrite HP; by apply Hi].
  destruct (Hv p Hp) as [Ho Hrow]. split; [auto |]. rewrite HP.
  unfold shows_requirements, requirements_are in *. rewrite HK.
  destruct (db !! (PROJECTS, p)); [| done]. naive_solver.
Qed.

End invariant.

(** Prove [preserves (head_rel p) m] along the structure of [m]. *)
Ltac head_rel_tac :=
  repeat first
    [ apply head_rel_advance | apply head_rel_mark | apply head_rel_mark_required
    | apply head_rel_next_revision | apply head_rel_set_flag; apply plain_flags
    | apply (preserves_get _) | apply (preserves_read _) | apply (preserves_get_decoded _)
    | apply (preserves_ret _) | apply (preserves_lift _)
    | apply (preserves_bind _); [| intros ?]
    | case_match ].

Section head_operations.
Context `{RE : !RegistryEnv}.

Lemma head_rel_write_tx {A} p (body : Tx DB (outcome A)) (db : DB) :
  preserves (head_rel p) body → head_rel p db (write_tx body db).1.
Proof. apply (preserves_write_tx (head_rel p)). Qed.

Lemma head_rel_guarded {A B} p (r : result B) (k : B → DB → DB * result A) (db : DB) :
  (∀ b, r = Ok b → head_rel p db (k b db).1) → head_rel p db (guarded r k db).1.
Proof. unfold guarded. destruct r; simpl; auto. by intros _. Qed.

Lemma head_rel_capture p (db : DB) : head_rel p db (capture_source_head p db).1.
Proof.
  unfold capture_source_head, capture_write. repeat case_match; try done.
  apply head_rel_write_tx. unfold tx_project, tx_meta. head_rel_tac.
Qed.

Lemma head_rel_attest base (db : DB) :
  head_rel (ht_project_id base) db (attest_unchanged_source_identity base db).1.
Proof.
  unfold attest_unchanged_source_identity, attest_write. repeat case_match; try done.
  apply head_rel_write_tx. head_rel_tac.
Qed.

Lemma head_rel_attest_legacy base (db : DB) :
  head_rel (ht_project_id base) db (attest_legacy_source_head base db).1.
Proof. apply head_rel_write_tx. unfold tx_project, tx_meta. head_rel_tac. Qed.

Lemma head_rel_publish base next (db : DB) :
  head_rel (ht_project_id base) db (publish_source_head base next db).1.
Proof. apply head_rel_write_tx. unfold tx_project, tx_meta. head_rel_tac. Qed.

Lemma head_rel_reserve base floor (db : DB) :
  head_rel (rt_project_id base) db (reserve_source_recovery base floor db).1.
Proof. apply head_rel_write_tx. head_rel_tac. Qed.

Lemma head_rel_publish_recovery r (db : DB) :
  head_rel (rt_project_id (rr_base r)) db (publish_source_recovery r db).1.
Proof. apply head_rel_write_tx. head_rel_tac. Qed.

Lemma head_rel_head_write p k changes : preserves (head_rel p) (tx_head_write p k changes).
Proof. unfold tx_head_write. head_rel_tac. Qed.

End head_operations.

Section requirement_operations.
Context `{RE : !RegistryEnv}.

(** A transaction on the recovery requirements of [p], without its row in
    [PROJECTS]. *)
Definition req_rel (p : string) (db db' : DB) : Prop :=
  mono db db' ∧
  ∀ j, j ≠ (META, REVISION_SEQUENCE) → j ≠ (META, key p) → db' !! j = db !! j.

#[export] Instance req_rel_preorder p : PreOrder (req_rel p).
Proof.
  split; [by intros db; split |]. intros a b c [M1 F1] [M2 F2].
  split; [by etrans |]. intros j H1 H2. rewrite F2 by done. by apply F1.
Qed.

Lemma key_state_row p q : q ≠ p → (META, key p) ∉ state_rows q.
Proof. intros. by apply state_rows_other. Qed.

Lemma req_rel_local p (db db' : DB) : req_rel p db db' → local_to p db db'.
Proof.
  intros [_ F] q j Hq Hj _. apply F; intros ->; [by apply state_rows_sequence in Hj |].
  by apply key_state_row in Hj.
Qed.

Lemma head_cells_frame p (db db' : DB) :
  (∀ j, j ≠ (META, REVISION_SEQUENCE) → j ≠ (META, key p) → j ≠ (PROJECTS, p) →
        db' !! j = db !! j) →
  (heads_ordered p db → heads_ordered p db') ∧ (heads_present p db → heads_present p db').
Proof.
  intros F.
  assert (Hc : ∀ c, cell_project c = p → cell_suffix c ≠ KEY → cell_value c db' = cell_value c db).
  { intros c <- Hc. unfold cell_value, meta. rewrite F; [done | | | done].
    - intros [= He]. by apply cell_key_not_sequence in He.
    - by apply (cell_key_ne c (PendingRevision (cell_project c) Source)). }
  unfold heads_ordered, heads_present.
  by rewrite (Hc (HeadRevision p)), (Hc (IdentityEpoch p)).
Qed.

Lemma meta_key_insert p v (db : DB) : meta (key p) (<[(META, key p) := v]> db) = Some v.
Proof. unfold meta. by rewrite lookup_insert_eq. Qed.

Lemma pending_cell p reason (db : DB) raw r :
  meta (key p) db = Some raw → from_slice raw = Ok r →
  cell_value (PendingRevision p reason) db = req_revision <$> pending r !! reason.
Proof.
  intros Hm Hr. unfold cell_value, cell_key. simpl. fold (key p). rewrite Hm. simpl. by rewrite Hr.
Qed.

(** Storing requirements whose revisions are stored ones or newly allocated. *)
Lemma fresh_set_requirements n0 base p (r : Requirements) (db : DB) n :
  fresh n0 base db → last_revision db = Ok n →
  (∀ reason q, pending r !! reason = Some q →
     cell_value (PendingRevision p reason) db = Some (req_revision q) ∨
     (n0 < req_revision q ∧ req_revision q <= n)) →
  fresh n0 base (<[(META, key p) := to_vec r]> db).
Proof.
  intros Hf Hn Hr. apply fresh_set_cells; [unfold revision_suffixes; set_solver | done |].
  intros n' c v Hn' Hv Hp Hs Hd. rewrite Hn in Hn'. injection Hn' as <-.
  destruct c as [| |p' reason]; [done | done |]. simpl in Hp, Hd. subst p'.
  rewrite from_slice_to_vec in Hd. destruct (pending r !! reason) as [q|] eqn:Hq; [| done].
  injection Hd as <-. destruct (Hr _ _ Hq) as [Hc|Hc]; [| by right].
  destruct Hf as (n' & Hn' & _ & Hf). rewrite Hn in Hn'. injection Hn' as <-. by apply Hf.
Qed.

Lemma req_rel_set_requirements p (r : Requirements) (db : DB) :
  (∀ reason q, pending r !! reason = Some q →
     cell_value (PendingRevision p reason) db = Some (req_revision q)) →
  req_rel p db (<[(META, key p) := to_vec r]> db).
Proof.
  intros Hr. split; [| intros j _ Hj; by rewrite lookup_insert_ne].
  intros n0 base Hf. pose proof Hf as (n & Hn & _).
  eapply fresh_set_requirements; [done | done |]. intros reason q Hq. left. by apply Hr.
Qed.

(** Allocate a revision and store requirements that use it. *)
Lemma req_rel_allocate p floor v (r : Requirements) (db db1 : DB) :
  next_revision floor db = Ok (v, db1) →
  (∀ reason q, pending r !! reason = Some q →
     cell_value (PendingRevision p reason) db = Some (req_revision q) ∨ req_revision q = v) →
  req_rel p db (<[(META, key p) := to_vec r]> db1).
Proof.
  intros Hn Hr. split.
  - intros n0 base Hf. destruct (fresh_next_revision _ _ _ _ _ _ Hf Hn) as (Hf1 & H0 & Hl & _).
    eapply fresh_set_requirements; [done | done |]. intros reason q Hq.
    rewrite (next_revision_cell _ _ _ _ _ Hn).
    destruct (Hr _ _ Hq) as [?| ->]; [by left | right; lia].
  - intros j H1 H2. rewrite lookup_insert_ne by done. by eapply next_revision_frame.
Qed.

Lemma requirements_since_singleton n reason q :
  requirements_since_ms {| revision := n; pending := {[reason := q]} |} = Some (since_ms q).
Proof.
  unfold requirements_since_ms, pending_values, reasons.
  destruct reason; simpl; by rewrite ?lookup_singleton_eq, ?lookup_singleton_ne by done.
Qed.

(** The import of a project's flag before it is written. *)
Lemma requirements_for_project_write_spec rec (db : DB) o db' :
  requirements_for_project_write rec db = Ok (o, db') →
  req_rel (project_id rec) db db' ∧
  match o with
  | Some r =>
      (∃ raw, meta (key (project_id rec)) db' = Some raw ∧ from_slice raw = Ok r) ∧
      (db' = db ∨ ∀ cur, get_decoded PROJECTS (project_id rec) db = Ok (Some cur) →
         reindex_required_since_ms cur = reindex_required_since_ms rec →
         requirements_since_ms r = reindex_required_since_ms rec)
  | None => db' = db ∧ meta (key (project_id rec)) db = None ∧ reindex_required_since_ms rec = None
  end.
Proof.
  unfold requirements_for_project_write, read_requirements. intros Hr.
  apply tx_bind_Ok in Hr as (stored & s1 & Hs & Hr).
  apply tx_get_decoded_Ok in Hs as [Hs ->]. unfold get_decoded in Hs.
  apply transpose_Ok in Hs. fold (meta (key (project_id rec)) db) in Hs.
  destruct stored as [r|].
  - apply tx_ret_Ok in Hr as [-> ->]. split; [done |].
    split; [| by left].
    destruct (meta _ db) as [raw|]; [| done]. destruct Hs as (r' & Hr & [= ->]). eauto.
  - destruct (meta _ db) as [raw|] eqn:Hm; [naive_solver |].
    apply tx_bind_Ok in Hr as (current & s1 & Hc & Hr). apply tx_get_decoded_Ok in Hc as [Hc ->].
    case_match eqn:Hs'.
    2:{ apply tx_ret_Ok in Hr as [-> ->]. split_and!; [done | done | done |].
        by destruct (current ≫= reindex_required_since_ms). }
    apply tx_bind_Ok in Hr as (rev & s1 & Hn & Hr).
    apply tx_bind_Ok in Hr as ([] & s2 & [_ ->]%tx_insert_Ok & [-> ->]%tx_ret_Ok).
    split.
    + eapply req_rel_allocate; [done |]. intros reason q Hq. simpl in Hq.
      apply lookup_singleton_Some in Hq as [<- <-]. by right.
    + split; [eexists; split; [apply meta_key_insert | apply from_slice_to_vec] |].
      right. intros cur Hcur He. rewrite Hc in Hcur. injection Hcur as ->. simpl in Hs'.
      rewrite He in Hs'. rewrite requirements_since_singleton. simpl. by destruct (reindex_required_since_ms rec).
Qed.

(** Deleting a project leaves no pending reason. *)
Lemma clear_pending_on_delete_spec p (db : DB) u db' :
  registry_inv db → valid_component p = true →
  clear_pending_on_delete p db = Ok (u, db') →
  req_rel p db db' ∧ requirements_are p db' (λ r, pending r = ∅).
Proof.
  intros [Hinv _] Hp. unfold clear_pending_on_delete. intros Hr.
  apply tx_bind_Ok in Hr as (project & s1 & Hpr & Hr). apply tx_get_decoded_Ok in Hpr as [Hpr ->].
  apply tx_bind_Ok in Hr as (o & s1 & Ho & Hr).
  assert (H1 : req_rel p db s1 ∧ (o = None → meta (key p) s1 = None)).
  { destruct (Hinv p Hp) as [_ Hrow]. unfold get_decoded in Hpr.
    destruct (db !! (PROJECTS, p)) as [raw|].
    - apply transpose_Ok in Hpr as (rec & Hrec & ->).
      destruct Hrow as (rec' & Hrec' & Hid & _). rewrite Hrec in Hrec'. injection Hrec' as <-.
      apply requirements_for_project_write_spec in Ho as [H1 H2]. rewrite Hid in *.
      split; [done |]. intros ->. by destruct H2 as (-> & ? & _).
    - injection Hpr as <-. apply tx_get_decoded_Ok in Ho as [Ho ->]. split; [done |].
      intros ->. unfold get_decoded in Ho. apply transpose_Ok in Ho. fold (meta (key p) db) in Ho.
      destruct (meta (key p) db); [naive_solver | done]. }
  destruct H1 as [H1 HN]. destruct o as [r|].
  - apply tx_bind_Ok in Hr as (rev & s2 & Hn & [_ ->]%tx_insert_Ok). split.
    + etrans; [done |]. eapply req_rel_allocate; [done |]. intros reason q Hq.
      simpl in Hq. by rewrite lookup_empty in Hq.
    + intros raw. rewrite meta_key_insert. intros [= <-].
      eexists. split; [apply from_slice_to_vec | done].
  - apply tx_ret_Ok in Hr as [_ ->]. split; [done |]. intros raw. by rewrite HN.
Qed.

End requirement_operations.

(** ** Projects *)

Section project_operations.
Context `{RE : !RegistryEnv}.

Lemma req_rel_state p (db db' : DB) :
  req_rel p db db' →
  local_to p db db' ∧ db' !! (PROJECTS, p) = db !! (PROJECTS, p) ∧
  (heads_ordered p db → heads_ordered p db') ∧ (heads_present p db → heads_present p db').
Proof.
  intros H. split; [by apply req_rel_local |]. destruct H as [_ F].
  split; [by apply F |]. apply head_cells_frame. auto.
Qed.

(** Write the row of a registered project. *)
Lemma project_row_inv p rec (db : DB) :
  project_id rec = p → heads_ordered p db → heads_present p db → shows_requirements p rec db →
  project_inv p (<[(PROJECTS, p) := to_vec rec]> db).
Proof.
  intros Hid Ho Hs Hr.
  destruct (head_cells_frame p db (<[(PROJECTS, p) := to_vec rec]> db)) as [HO HS].
  { intros j _ _ Hj. by rewrite lookup_insert_ne. }
  split; [auto |]. rewrite lookup_insert_eq. exists rec. rewrite from_slice_to_vec.
  split_and!; [done | done | auto |].
  unfold shows_requirements, requirements_are, meta. by rewrite lookup_insert_ne.
Qed.

Lemma mono_project_row p v (db : DB) : mono db (<[(PROJECTS, p) := v]> db).
Proof. by apply mono_insert. Qed.
Lemma local_project_row p v (db : DB) : local_to p db (<[(PROJECTS, p) := v]> db).
Proof. apply local_insert. intros q. apply state_rows_project. Qed.

Lemma put_project_sound rec (db : DB) : sound db (put_project rec db).1.
Proof.
  intros Hinv. unfold put_project.
  match goal with |- context [write_tx ?b db] =>
    destruct (write_tx_cases b db) as [->|([] & db' & E & ->)] end; [done |]. simpl.
  apply tx_bind_Ok in E as ([] & s1 & [Hp ->]%lift_Ok & E).
  apply validate_key_component_Ok in Hp. set (p := project_id rec) in *.
  apply tx_bind_Ok in E as (previous & s1 & [Hpr ->]%tx_get_decoded_Ok & E).
  apply tx_bind_Ok in E as (v & db1 & Hm & E).
  apply tx_bind_Ok in E as (o & db2 & Ho & E).
  apply tx_bind_Ok in E as ([] & db3 & [_ ->]%tx_insert_Ok & [_ ->]%tx_ret_Ok).
  assert (H1 : head_rel p db db1 ∧ heads_present p db1).
  { case_match eqn:Hch.
    - apply tx_bind_Ok in Hm as (v1 & s1 & Ha & Hm). apply head_rel_advance in Ha.
      apply mark_identity_unverified_spec in Hm as (Hm & Hh & He).
      split; [by etrans |]. split; [by rewrite Hh | by rewrite He].
    - apply tx_ret_Ok in Hm as [_ ->]. split; [done |].
      destruct previous as [old|]; [| done]. destruct Hinv as [Hinv _].
      destruct (Hinv p Hp) as [_ Hrow]. unfold get_decoded in Hpr. apply transpose_Ok in Hpr.
      destruct (db !! (PROJECTS, p)); [| done]. naive_solver. }
  destruct H1 as [H1 Hpres]. apply requirements_for_project_write_spec in Ho as [H2 Ho].
  fold p in H2, Ho.
  destruct (sound_head_rel _ _ _ H1 Hinv) as [M1 Hinv1].
  destruct (req_rel_state _ _ _ H2) as (L2 & P2 & O2 & S2). destruct H2 as [M2 _].
  split; [etrans; [done |]; etrans; [done | apply mono_project_row] |].
  apply (registry_inv_local p db1); [| done |].
  { etrans; [done | apply local_project_row]. }
  rewrite Hp. apply project_row_inv.
  - by destruct o.
  - apply O2. by apply Hinv1.
  - auto.
  - unfold shows_requirements, requirements_are. destruct o as [r|].
    + destruct Ho as [(raw & -> & Hr) _]. split; [done |]. intros ? [= <-]. eauto.
    + destruct Ho as (-> & -> & Hn). by split.
Qed.

Lemma register_source_project_sound rec (db : DB) :
  reindex_required_since_ms rec = None → sound db (register_source_project rec db).1.
Proof.
  intros Hsince Hinv. unfold register_source_project. on_commit E u.
  set (p := project_id rec) in *.
  apply tx_bind_Ok in E as ([] & s1 & [Hp ->]%lift_Ok & E).
  apply validate_key_component_Ok in Hp.
  apply tx_bind_Ok in E as (existing & s1 & [-> ->]%tx_get_Ok & E).
  apply tx_bind_Ok in E as ([] & s1 & [Hn ->]%lift_Ok & E).
  apply ensure_Ok, bool_decide_eq_true in Hn.
  apply tx_bind_Ok in E as ([] & s1 & [_ ->]%tx_insert_Ok & E).
  set (db0 := <[(PROJECTS, p) := to_vec rec]> db) in *.
  apply tx_bind_Ok in E as ([] & s2 & H2 & E). apply head_rel_set_flag in H2; [| apply plain_flags].
  apply tx_bind_Ok in E as (v & s3 & H3%head_rel_advance & E).
  apply tx_bind_Ok in E as ([] & s4 & H4%head_rel_mark_required & E).
  apply tx_bind_Ok in E as (w & s5 & H5 & [_ ->]%tx_ret_Ok).
  apply mark_identity_unverified_spec in H5 as (H5 & Hh & He).
  assert (H : head_rel p db0 s5) by (etrans; [done |]; etrans; [done |]; by etrans).
  clear H2 H3 H4 H5. destruct H as (M & L & HP & HK & HO & HS).
  split; [by etrans; [apply mono_project_row |] |].
  apply (registry_inv_local p db); [| done |].
  { etrans; [apply local_project_row | done]. }
  rewrite Hp. split; [| rewrite HP; unfold db0; rewrite lookup_insert_eq].
  - apply HO. destruct Hinv as [Hinv _]. destruct (Hinv p Hp) as [Ho _].
    eapply (head_cells_frame p db); [| done]. intros j _ _ Hj. unfold db0. by rewrite lookup_insert_ne.
  - exists rec. rewrite from_slice_to_vec. split_and!; [done | done | split; [by rewrite Hh | by rewrite He] |].
    split; [done |]. intros raw. rewrite HK. unfold db0, meta. rewrite lookup_insert_ne by done. intros Hraw.
    destruct Hinv as [Hinv _]. destruct (Hinv p Hp) as [_ Hrow]. rewrite Hn in Hrow.
    destruct (Hrow raw Hraw) as (r & Hr & He'). exists r. split; [done |].
    rewrite Hsince. unfold requirements_since_ms, pending_values. by rewrite He'.
Qed.

(** Without its project row, a project has no pending reason. *)
Lemma deleted_project_inv p (db : DB) :
  heads_ordered p db → requirements_are p db (λ r, pending r = ∅) →
  project_inv p (delete (PROJECTS, p) db).
Proof.
  intros Ho Hr. split.
  - eapply (head_cells_frame p db); [| done]. intros j _ _ Hj. by rewrite lookup_delete_ne.
  - rewrite lookup_delete_eq. intros raw. unfold meta. rewrite lookup_delete_ne by done. apply Hr.
Qed.

Lemma mono_delete_project p (db : DB) : mono db (delete (PROJECTS, p) db).
Proof. by apply mono_delete. Qed.
Lemma local_delete_project p (db : DB) : local_to p db (delete (PROJECTS, p) db).
Proof. apply local_delete. intros q. apply state_rows_project. Qed.

(** The common part of both deletions. *)
Lemma delete_project_rows p (db db1 : DB) u :
  registry_inv db → valid_component p = true → clear_pending_on_delete p db = Ok (u, db1) →
  mono db (delete (PROJECTS, p) db1) ∧ local_to p db (delete (PROJECTS, p) db1) ∧
  project_inv p (delete (PROJECTS, p) db1).
Proof.
  intros Hinv Hp Hc. destruct (clear_pending_on_delete_spec _ _ _ _ Hinv Hp Hc) as [H1 Hr].
  destruct (req_rel_state _ _ _ H1) as (L & HP & HO & HS). destruct H1 as [M _].
  split_and!; [etrans; [done | apply mono_delete_project] | etrans; [done | apply local_delete_project] |].
  apply deleted_project_inv; [| done]. apply HO. by apply Hinv.
Qed.

Lemma delete_project_sound p (db : DB) : sound db (delete_project p db).1.
Proof.
  intros Hinv. unfold delete_project. on_commit E u.
  apply tx_bind_Ok in E as ([] & s1 & [Hp ->]%lift_Ok & E). apply validate_key_component_Ok in Hp.
  apply tx_bind_Ok in E as ([] & s1 & Hc & E).
  apply tx_bind_Ok in E as ([] & s2 & [_ ->]%tx_remove_Ok & [_ ->]%tx_ret_Ok).
  destruct (delete_project_rows _ _ _ _ Hinv Hp Hc) as (M & L & I).
  split; [done |]. eapply registry_inv_local; [done | done |]. by rewrite Hp.
Qed.

(** ** Deleting everything of a project *)

Lemma prefix_rows_key t p (db : DB) k :
  k ∈ (prefix_rows t p db).*1 → starts_with (project_prefix p) k = true.
Proof.
  intros ([k' v] & -> & Hin)%list_elem_of_fmap. by apply elem_of_prefix_scan in Hin as [? _].
Qed.

Lemma starts_with_prefix_key p k : starts_with (project_prefix p) (project_key p k) = true.
Proof. apply starts_with_spec. by exists k. Qed.

Lemma local_delete_keys t p ks (db : DB) :
  t ≠ PROJECTS → valid_component p = true →
  (t = META → ∀ k, k ∈ ks → starts_with (project_prefix p) k = true) →
  local_to p db (delete_keys t ks db).
Proof.
  intros Ht Hp Hks q j Hq Hj Hv. rewrite lookup_delete_keys, decide_False; [done |].
  intros [<- Hin]. destruct Hv as [Hv| ->]; [| by apply Ht].
  destruct j as [t k]. simpl in *.
  assert (t = META) as -> by (unfold state_rows in Hj; set_solver).
  specialize (Hks eq_refl k Hin). apply state_rows_suffix in Hj as (s & _ & ->).
  apply starts_with_project_key in Hks; [by subst | by apply valid_component_no_NUL ..].
Qed.

Lemma mono_delete_prefix t p (db : DB) :
  valid_component p = true → mono db (delete_keys t (prefix_rows t p db).*1 db).
Proof.
  intros Hp. apply mono_delete_keys. intros _ Hin%prefix_rows_key.
  apply starts_with_spec in Hin as [k Hk]. by apply (project_key_not_sequence p k).
Qed.

Lemma local_delete_prefix t p (db : DB) :
  t ≠ PROJECTS → valid_component p = true →
  local_to p db (delete_keys t (prefix_rows t p db).*1 db).
Proof. intros. apply local_delete_keys; [done | done |]. intros _ k. apply prefix_rows_key. Qed.

(** After the deletion of its metadata a project has no cell left. *)
Lemma lookup_delete_prefix t p k (db : DB) :
  delete_keys t (prefix_rows t p db).*1 db !! (t, project_key p k) = None.
Proof.
  rewrite lookup_delete_keys. case_decide as Hd; [done |].
  destruct (db !! (t, project_key p k)) as [v|] eqn:E; [| done]. destruct Hd. split; [done |].
  apply list_elem_of_fmap. exists (project_key p k, v). split; [done |].
  apply elem_of_prefix_scan. split; [apply starts_with_prefix_key | done].
Qed.

(** A deletion of rows of [p] outside [PROJECTS]. *)
Definition purge_rel (p : string) (db db' : DB) : Prop :=
  mono db db' ∧ local_to p db db' ∧ db' !! (PROJECTS, p) = db !! (PROJECTS, p).

#[export] Instance purge_rel_preorder p : PreOrder (purge_rel p).
Proof.
  split; [by intros db |]. intros a b c (M1 & L1 & P1) (M2 & L2 & P2).
  split_and!; [by etrans | by etrans | congruence].
Qed.

Lemma lookup_delete_keys_project t p ks (db : DB) :
  t ≠ PROJECTS → delete_keys t ks db !! (PROJECTS, p) = db !! (PROJECTS, p).
Proof. intros Ht. rewrite lookup_delete_keys, decide_False; [done |]. intros [<- _]. by apply Ht. Qed.

Lemma purge_prefix t p :
  t ≠ PROJECTS → valid_component p = true → preserves (purge_rel p) (tx_delete_prefix t p).
Proof.
  intros Ht Hp. apply (preserves_modify (purge_rel p)). intros db.
  split_and!; [by apply mono_delete_prefix | by apply local_delete_prefix |].
  by apply lookup_delete_keys_project.
Qed.

Lemma purge_jobs p : valid_component p = true → preserves (purge_rel p) (tx_delete_jobs p).
Proof.
  intros Hp. apply (preserves_bind _); [apply (preserves_read _) | intros rows].
  apply (preserves_bind _); [apply (preserves_lift _) | intros jobs].
  apply (preserves_modify (purge_rel p)). intros db.
  split_and!; [by apply mono_delete_keys | by apply local_delete_keys |].
  by apply lookup_delete_keys_project.
Qed.

Lemma purged_project_inv p (db : DB) :
  db !! (PROJECTS, p) = None → (∀ k, meta (project_key p k) db = None) → project_inv p db.
Proof.
  intros HP HM. split; [| rewrite HP].
  - intros r e. unfold cell_value, cell_key. simpl. by rewrite HM.
  - intros raw. unfold key. by rewrite HM.
Qed.

Lemma delete_all_for_project_sound p (db : DB) : sound db (delete_all_for_project p db).1.
Proof.
  intros Hinv. unfold delete_all_for_project. on_commit E u.
  apply tx_bind_Ok in E as ([] & s1 & [Hp ->]%lift_Ok & E). apply validate_key_component_Ok in Hp.
  apply tx_bind_Ok in E as ([] & s1 & Hc & E).
  apply tx_bind_Ok in E as ([] & s2 & [_ ->]%tx_remove_Ok & E).
  destruct (delete_project_rows _ _ _ _ Hinv Hp Hc) as (M & L & I).
  set (d0 := delete (PROJECTS, p) s1) in *.
  assert (HP : d0 !! (PROJECTS, p) = None) by apply lookup_delete_eq. clearbody d0. clear Hc s1.
  apply tx_bind_Ok in E as ([] & d1 & H1 & E). apply purge_prefix in H1; [| done ..].
  apply tx_bind_Ok in E as ([] & d2 & H2 & E). apply purge_prefix in H2; [| done ..].
  apply tx_bind_Ok in E as ([] & d3 & H3 & E). apply purge_prefix in H3; [| done ..].
  apply tx_bind_Ok in E as ([] & d4 & H4 & E). apply purge_jobs in H4; [| done].
  apply tx_bind_Ok in E as ([] & d5 & H5 & [_ ->]%tx_ret_Ok).
  assert (HM : ∀ k, meta (project_key p k) d5 = None).
  { apply tx_modify_Ok in H5 as ->. intros k. apply lookup_delete_prefix. }
  apply purge_prefix in H5; [| done ..].
  assert (H : purge_rel p d0 d5) by (do 4 (etrans; [done |]); done).
  destruct H as (M' & L' & P'). split; [by etrans |].
  apply (registry_inv_local p db); [by etrans | done |].
  rewrite Hp. apply purged_project_inv; [by rewrite P' | done].
Qed.

End project_operations.

(** ** Recovery requirements *)

Section recovery_operations.
Context `{RE : !RegistryEnv}.

(** The registered project a write transaction has read. *)
Lemma stored_project p rec (db : DB) :
  registry_inv db → valid_component p = true → get_decoded PROJECTS p db = Ok (Some rec) →
  project_id rec = p ∧ heads_ordered p db ∧ heads_present p db ∧
  shows_requirements p rec db.
Proof.
  intros [Hinv _] Hp Hrec. destruct (Hinv p Hp) as [Ho Hrow].
  unfold get_decoded in Hrec. apply transpose_Ok in Hrec.
  destruct (db !! (PROJECTS, p)) as [raw|]; [| done]. destruct Hrec as (rec' & Hr & [= <-]).
  destruct Hrow as (rec' & Hr' & Hrow). rewrite Hr in Hr'. injection Hr' as <-.
  split_and!; [apply Hrow | done | apply Hrow | apply Hrow].
Qed.

(** Storing new requirements with the project row that shows them. *)
Lemma write_requirements_sound p project r (db d d' : DB) u :
  registry_inv db → valid_component p = true → project_id project = p → heads_present p db →
  req_rel p db (<[(META, key p) := to_vec r]> d) →
  write_requirements project r d = Ok (u, d') →
  mono db d' ∧ registry_inv d'.
Proof.
  intros Hinv Hp Hid Hpres Hrel Hw. unfold write_requirements in Hw. rewrite Hid in Hw.
  apply tx_bind_Ok in Hw as ([] & s1 & [_ ->]%tx_insert_Ok & [_ ->]%tx_insert_Ok).
  destruct (req_rel_state _ _ _ Hrel) as (L & P & O & S). destruct Hrel as [M _].
  split; [by etrans; [| apply mono_project_row] |].
  apply (registry_inv_local p db); [| done |]; [by etrans; [| apply local_project_row] |].
  rewrite Hp. apply project_row_inv; [done | apply O; by apply Hinv | auto |].
  unfold shows_requirements, requirements_are. rewrite meta_key_insert. split; [done |].
  intros raw. intros [= <-]. eexists.
  split; [apply from_slice_to_vec | done].
Qed.

Lemma record_reindex_sound p reason since only (db : DB) :
  sound db (record_reindex_requirement p reason since only db).1.
Proof.
  intros Hinv. unfold record_reindex_requirement. on_commit E u.
  apply tx_bind_Ok in E as ([] & s1 & [Hp ->]%lift_Ok & E). apply validate_key_component_Ok in Hp.
  apply tx_bind_Ok in E as (stored & s1 & [Hst ->]%tx_get_decoded_Ok & E).
  destruct stored as [project|]; [| by apply tx_ret_Ok in E as [? _]].
  destruct (stored_project _ _ _ Hinv Hp Hst) as (Hid & Ho & Hs & Hreq).
  apply tx_bind_Ok in E as (imported & s1 & Hi & E).
  apply requirements_for_project_write_spec in Hi as [H1 Hi]. rewrite Hid in H1, Hi.
  case_match eqn:Hold.
  - apply tx_ret_Ok in E as [_ ->]. destruct only; [| done].
    destruct imported as [rq|]; [| by unfold token in Hold; simpl in Hold; rewrite lookup_empty in Hold].
    destruct Hi as [(raw & Hraw & Hr) Hsince]. destruct (req_rel_state _ _ _ H1) as (L & P & O & S).
    split; [apply H1 |]. apply (registry_inv_local p db); [done | done |].
    rewrite Hp. split; [auto |]. rewrite P. pose proof Hst as Hst'. unfold get_decoded in Hst'. apply transpose_Ok in Hst'.
    destruct (db !! (PROJECTS, p)) as [praw|] eqn:HPp; [| done]. destruct Hst' as (rec & Hrec & [= <-]).
    exists project. split_and!; [done | done | auto |]. unfold shows_requirements, requirements_are.
    rewrite Hraw. split; [done |]. intros ? [= <-].
    exists rq. split; [done |]. destruct Hsince as [->|Hsince].
    + destruct (proj2 Hreq _ Hraw) as (r' & Hr' & He). congruence.
    + symmetry. by apply (Hsince project).
  - apply tx_bind_Ok in E as (rev & s2 & Hn & E).
    apply tx_bind_Ok in E as ([] & s3 & Hw & [_ ->]%tx_ret_Ok).
    eapply write_requirements_sound; [done | done | | done | | done]; [done |].
    etrans; [done |]. eapply req_rel_allocate; [done |]. simpl. intros reason' q.
    destruct (decide (reason' = reason)) as [->|Hne].
    + rewrite lookup_insert_eq. intros [= <-]. by right.
    + rewrite lookup_insert_ne by done. intros Hq. left.
      destruct imported as [rq|]; simpl in Hq; [| by rewrite lookup_empty in Hq].
      destruct Hi as [(raw & Hraw & Hr) _]. by rewrite (pending_cell _ _ _ _ _ Hraw Hr), Hq.
Qed.

(** The requirements a settlement starts from: a reason left after the removal
    of a pending one is stored (a legacy flag stands for one reason only). *)
Lemma stored_or_legacy_cells p rec stored reason (db : DB) :
  get_decoded META (key p) db = Ok stored →
  is_Some (pending (stored_or_legacy stored rec) !! reason) →
  ∀ reason' q, delete reason (pending (stored_or_legacy stored rec)) !! reason' = Some q →
    cell_value (PendingRevision p reason') db = Some (req_revision q).
Proof.
  intros Hs Hr reason' q [Hne Hq]%lookup_delete_Some. destruct stored as [r|]; simpl in *.
  - unfold get_decoded in Hs. apply transpose_Ok in Hs. fold (meta (key p) db) in Hs.
    destruct (meta (key p) db) as [raw|] eqn:Hm; [| done]. destruct Hs as (r' & Hr' & [= <-]).
    by rewrite (pending_cell _ _ _ _ _ Hm Hr'), Hq.
  - exfalso. unfold legacy in *. destruct (reindex_required_since_ms rec); simpl in *;
      [| by rewrite lookup_empty in Hq].
    apply lookup_singleton_Some in Hq as [<- _]. destruct Hr as [q' Hr].
    by apply lookup_singleton_Some in Hr as [<- _].
Qed.

Lemma settle_sound tok (db : DB) : sound db (settle_reindex_requirement tok db).1.
Proof.
  intros Hinv. unfold settle_reindex_requirement. on_commit E u.
  set (p := tok_project_id tok) in *.
  apply tx_bind_Ok in E as ([] & s1 & [Hp ->]%lift_Ok & E). apply validate_key_component_Ok in Hp.
  apply tx_bind_Ok in E as (project & s1 & [Hst ->]%tx_get_decoded_Ok & E).
  destruct project as [rec|]; [| by apply tx_ret_Ok in E as [? _]].
  destruct (stored_project _ _ _ Hinv Hp Hst) as (Hid & _ & Hs & _).
  apply tx_bind_Ok in E as (stored & s1 & [Hk ->]%tx_get_decoded_Ok & E).
  case_decide as Htok; [| by apply tx_ret_Ok in E as [? _]].
  apply tx_bind_Ok in E as ([] & s2 & Hw & [_ ->]%tx_ret_Ok).
  eapply write_requirements_sound; [done | done | done | done | | done].
  apply req_rel_set_requirements. simpl. eapply stored_or_legacy_cells; [done |].
  unfold token in Htok. destruct (pending _ !! tok_reason tok); [eauto | done].
Qed.

Lemma dismiss_sound p (db : DB) : sound db (dismiss_reindex_requirements p db).1.
Proof.
  intros Hinv. unfold dismiss_reindex_requirements. on_commit E u.
  apply tx_bind_Ok in E as ([] & s1 & [Hp ->]%lift_Ok & E). apply validate_key_component_Ok in Hp.
  apply tx_bind_Ok in E as (project & s1 & [Hst ->]%tx_get_decoded_Ok & E).
  destruct project as [rec|]; [| by apply tx_ret_Ok in E as [? _]].
  destruct (stored_project _ _ _ Hinv Hp Hst) as (Hid & _ & Hs & _).
  apply tx_bind_Ok in E as (stored & s1 & [Hk ->]%tx_get_decoded_Ok & E).
  case_decide as Htok; [by apply tx_ret_Ok in E as [? _] |].
  apply tx_bind_Ok in E as ([] & s2 & Hw & [_ ->]%tx_ret_Ok).
  eapply write_requirements_sound; [done | done | done | done | | done].
  apply req_rel_set_requirements. simpl. intros reason q Hq. by rewrite lookup_empty in Hq.
Qed.

End recovery_operations.

(** ** Rows outside the revisions *)

Section plain_operations.
Context `{RE : !RegistryEnv}.

(** A row no project state consists of. *)
Definition plain_row (j : TableId * string) : Prop :=
  match j.1 with
  | PROJECTS => False
  | META => ∃ p k, j.2 = project_key p k ∧ valid_component p = true ∧ plain_key k
  | _ => True
  end.

Lemma plain_row_state p j : plain_row j → j ∉ state_rows p.
Proof.
  destruct j as [[] k]; simpl; try (unfold state_rows; set_solver).
  intros (q & s & He & _ & Hk). simpl in He. subst k. by apply state_rows_plain.
Qed.

Lemma sound_plain (db db' : DB) :
  mono db db' → (∀ p j, j ∈ state_rows p → db' !! j = db !! j) → sound db db'.
Proof. intros Hm Hf Hi. split; [done |]. by eapply registry_inv_frame. Qed.

Lemma sound_insert j v (db : DB) : plain_row j → sound db (<[j := v]> db).
Proof.
  intros Hj. apply sound_plain.
  - destruct j as [t k]. apply mono_insert. intros ->.
    destruct Hj as (p & s & He & Hp & Hk); simpl in He; subst k.
    split; [by apply project_key_not_sequence |]. intros c _. by apply cell_key_plain.
  - intros p i Hi. rewrite lookup_insert_ne; [done |]. intros ->. by eapply plain_row_state.
Qed.

Lemma sound_delete j (db : DB) : plain_row j → sound db (delete j db).
Proof.
  intros Hj. apply sound_plain.
  - destruct j as [t k]. apply mono_delete. intros ->.
    destruct Hj as (p & s & He & Hp & Hk); simpl in He; subst k.
    by apply project_key_not_sequence.
  - intros p i Hi. rewrite lookup_delete_ne; [done |]. intros ->. by eapply plain_row_state.
Qed.

Lemma sound_write_tx {A} (body : Tx DB (outcome A)) (db : DB) :
  preserves sound body → sound db (write_tx body db).1.
Proof. apply (preserves_write_tx sound). Qed.

Lemma sound_tx_insert j v : plain_row j → preserves sound (tx_insert j v).
Proof. intros. apply (preserves_insert _). intros. by apply sound_insert. Qed.
Lemma sound_tx_remove j : plain_row j → preserves sound (tx_remove j).
Proof. intros. apply (preserves_remove _). intros. by apply sound_delete. Qed.

Lemma sound_guarded {A B} (r : result B) (k : B → DB → DB * result A) (db : DB) :
  (∀ b, r = Ok b → sound db (k b db).1) → sound db (guarded r k db).1.
Proof. unfold guarded. destruct r; simpl; auto. by intros _. Qed.

End plain_operations.

(** Prove [preserves sound m] along the structure of [m]. *)
Ltac sound_tac :=
  repeat first
    [ apply sound_tx_insert; (exact I || assumption) | apply sound_tx_remove; (exact I || assumption)
    | apply (preserves_get _) | apply (preserves_read _) | apply (preserves_get_decoded _)
    | apply (preserves_ret _) | apply (preserves_lift _)
    | apply (preserves_lift_bind _); intros ? ?
    | apply (preserves_bind _); [| intros ?]
    | case_match ].
