(* ===== verification/OwnershipSpec.v ===== *)
(** What the ownership inventory promises ([Ownership.v]): it is complete, it
    is bounded, an adoption that passes the budget check leaves a readable
    inventory, and the adoption basis ignores unrelated project edits. *)
From S2P Require Import Prelude Text Store Records Concrete Reindex SourceHead Registry.
From S2P Require Import Rules Ownership RulesSpec Revisions Lifecycle.

Open Scope N_scope.

(** * Definitions *)

Section inventory.
Context `{OE : !OwnershipEnv}.

Definition option_cost (o : option bytes) : N := match o with Some v => slen v | None => 0 end.
Definition option_ok (o : option bytes) : Prop := match o with Some v => value_ok v | None => True end.

(** The rules and the receipts of a project in the database. *)
Definition inventory_rules (p : string) (db : DB) : list (string * bytes) :=
  retained "" (project_prefix p) (prefix_scan (project_prefix p) (table_rows REPO_RULES db)).
Definition inventory_receipts (p : string) (db : DB) : list (string * bytes) :=
  retained RECEIPT_PREFIX (project_key p RECEIPT_PREFIX)
    (prefix_scan (project_key p RECEIPT_PREFIX) (table_rows META db)).

Definition inventory_cost (raw : bytes) (epoch corpus : option bytes)
    (rules receipts : list (string * bytes)) : N :=
  slen raw + option_cost epoch + option_cost corpus + cost rules + cost receipts.

(** * Lemmas *)

Lemma copy_option_Ok o rem c :
  copy_option o rem = Ok c ↔ option_ok o ∧ option_cost o <= rem ∧ c = (o, rem - option_cost o).
Proof.
  destruct o as [b|]; simpl; [| rewrite N.sub_0_r; split; [intros [= <-] | intros (_ & _ & ->)]; split_and?; done || lia].
  rewrite result_bind_Ok. setoid_rewrite copy_bounded_Ok. split.
  - intros (c0 & (Hv & Hl & ->) & [= <-]). done.
  - intros (Hv & Hl & ->). by eexists.
Qed.

Lemma admit_bytes_Ok k raw rem rem' :
  admit_bytes k raw rem = Ok rem' ↔ value_ok raw ∧ slen k + slen raw <= rem ∧ rem' = rem - (slen k + slen raw).
Proof.
  unfold admit_bytes, value_ok. rewrite !ensure_bind_Ok, andb_true_iff, !N.leb_le. split.
  - intros ((Hv & Hk) & Hr & [= <-]). split_and!; [done | lia | lia].
  - intros (Hv & Hk & ->). split_and!; [done | lia | lia | f_equal; lia].
Qed.

Lemma admit_option_Ok o rem rem' :
  admit_option o rem = Ok rem' ↔ option_ok o ∧ option_cost o <= rem ∧ rem' = rem - option_cost o.
Proof.
  destruct o as [b|]; simpl.
  - rewrite admit_bytes_Ok. change (slen "") with 0. split; intros (? & ? & ->); split_and!; done || lia.
  - split; [intros [= <-]; split_and!; done || lia | intros (_ & _ & ->); f_equal; lia].
Qed.

Lemma admit_rows_Ok rows rem rem' :
  admit_rows rows rem = Ok rem' ↔
  (∀ k v, (k, v) ∈ rows → value_ok v) ∧ cost rows <= rem ∧ rem' = rem - cost rows.
Proof.
  revert rem. induction rows as [|[k v] rows IH]; intros rem; simpl.
  { split; [intros [= <-]; split_and!; [set_solver | lia | lia] | intros (_ & _ & ->); f_equal; lia]. }
  rewrite result_bind_Ok. setoid_rewrite admit_bytes_Ok. setoid_rewrite IH. split.
  - intros (r & (Hv & Hl & ->) & Hr & Hc & ->). split_and!; [| lia | lia].
    intros k' v' [[= -> ->]|Hin]%elem_of_cons; [done | by eapply Hr].
  - intros (Hr & Hc & ->). eexists. split_and!; [by apply (Hr k); set_solver | lia | done | set_solver | lia | lia].
Qed.

(** The inventory of a project, whatever its size. *)
Definition inventory (p : string) (raw : bytes) (db : DB) : RuleOwnershipSnapshot :=
  {| os_project_id := p; os_project_raw := raw;
     os_identity_epoch_raw := meta (project_key p IDENTITY_EPOCH) db;
     os_corpus_revision_raw := meta (project_key p CORPUS_REVISION) db;
     os_rules := inventory_rules p db; os_receipts := inventory_receipts p db |}.

Definition snapshot_cost (s : RuleOwnershipSnapshot) : N :=
  inventory_cost (os_project_raw s) (os_identity_epoch_raw s) (os_corpus_revision_raw s)
    (os_rules s) (os_receipts s).

(** The documented limits of an inventory. *)
Definition within_budget (s : RuleOwnershipSnapshot) : Prop :=
  value_ok (os_project_raw s) ∧ option_ok (os_identity_epoch_raw s) ∧
  option_ok (os_corpus_revision_raw s) ∧ rows_ok "" 2048 (os_rules s) ∧
  rows_ok RECEIPT_PREFIX 256 (os_receipts s) ∧ snapshot_cost s <= SNAPSHOT_BYTES.

Lemma from_tables_Ok p (db : DB) s :
  from_tables p db = Ok s ↔
  ∃ raw, db !! (PROJECTS, p) = Some raw ∧ s = inventory p raw db ∧ within_budget s.
Proof.
  unfold from_tables. rewrite result_bind_Ok. setoid_rewrite ok_or_Ok. split.
  - intros (raw & Hraw & H). exists raw. split; [done |].
    apply result_bind_Ok in H as (c1 & (Hv1 & Hl1 & ->)%copy_bounded_Ok & H).
    apply result_bind_Ok in H as (c2 & (Hv2 & Hl2 & ->)%copy_option_Ok & H).
    apply result_bind_Ok in H as (c3 & (Hv3 & Hl3 & ->)%copy_option_Ok & H).
    apply result_bind_Ok in H as (c4 & H4 & H). apply collect_prefix_Ok in H4 as (Hr4 & Hl4 & ->); [| done].
    apply result_bind_Ok in H as (c5 & H5 & H). apply collect_prefix_Ok in H5 as (Hr5 & Hl5 & ->); [| done].
    injection H as <-. split; [done |]. cbn [fst snd] in *.
    split_and!; try done. unfold snapshot_cost, inventory_cost. simpl.
    unfold inventory_rules, inventory_receipts. lia.
  - intros (raw & Hraw & -> & Hv1 & Hv2 & Hv3 & Hr4 & Hr5 & Hc). exists raw. split; [done |].
    unfold snapshot_cost, inventory_cost in Hc. simpl in *. unfold inventory_rules, inventory_receipts in *.
    apply result_bind_Ok. eexists. split; [apply copy_bounded_Ok; split_and!; [done | lia | done] |].
    apply result_bind_Ok. eexists. split; [apply copy_option_Ok; split_and!; [done | simpl; lia | done] |].
    apply result_bind_Ok. eexists. split; [apply copy_option_Ok; split_and!; [done | simpl; lia | done] |].
    apply result_bind_Ok. eexists. split.
    { apply collect_prefix_Ok; [done |]. split_and!; [done | simpl; lia | done]. }
    apply result_bind_Ok. eexists. split.
    { apply collect_prefix_Ok; [done |]. split_and!; [done | simpl; lia | done]. }
    done.
Qed.

Lemma snapshot_Ok p (db : DB) s :
  snapshot_rule_ownership p db = Ok s ↔ valid_component p = true ∧ from_tables p db = Ok s.
Proof.
  unfold snapshot_rule_ownership. rewrite result_bind_Ok. split.
  - intros ([] & Hv%validate_key_component_Ok & H). done.
  - intros [Hv%(validate_key_component_Ok "project_id") H]. by exists tt.
Qed.

(** ** Writes that leave an inventory alone *)

(** Every row an inventory reads beside the project row. *)
Definition inventory_row (p : string) (j : TableId * string) : Prop :=
  (∃ id, j = (REPO_RULES, project_key p id)) ∨ j = (META, project_key p IDENTITY_EPOCH) ∨
  j = (META, project_key p CORPUS_REVISION) ∨ ∃ o, j = (META, project_key p (RECEIPT_PREFIX +:+ o)).

Lemma inventory_frame p raw raw' (db db' : DB) :
  (∀ j, inventory_row p j → db' !! j = db !! j) →
  inventory p raw' db' =
  {| os_project_id := p; os_project_raw := raw';
     os_identity_epoch_raw := os_identity_epoch_raw (inventory p raw db);
     os_corpus_revision_raw := os_corpus_revision_raw (inventory p raw db);
     os_rules := os_rules (inventory p raw db); os_receipts := os_receipts (inventory p raw db) |}.
Proof.
  intros Hf. unfold inventory, inventory_rules, inventory_receipts, meta. simpl.
  rewrite !Hf by (unfold inventory_row; auto).
  rewrite (prefix_scan_frame REPO_RULES (project_prefix p) db db'), (prefix_scan_frame META _ db db'); [done | |].
  - intros o. apply Hf. right. right. right. exists o. unfold project_key. by rewrite app_assoc_str.
  - intros id. apply Hf. left. by exists id.
Qed.

Lemma requirements_for_project_write_frame rec j :
  j ≠ (META, key (project_id rec)) → j ≠ (META, REVISION_SEQUENCE) →
  preserves (λ db db' : DB, db' !! j = db !! j) (requirements_for_project_write rec).
Proof.
  intros H1 H2.
  assert (PreOrder (λ db db' : DB, db' !! j = db !! j)) by (split; [done | intros ??? -> ->; done]).
  unfold requirements_for_project_write, read_requirements.
  apply (preserves_bind _); [by apply (preserves_get_decoded _) | intros [r|]; [by apply (preserves_ret _) |]].
  apply (preserves_bind _); [by apply (preserves_get_decoded _) | intros cur].
  case_match; [| by apply (preserves_ret _)].
  apply (preserves_bind _); [| intros rev].
  - intros db v db' Hn. by eapply next_revision_frame.
  - apply (preserves_bind _); [| intros _; by apply (preserves_ret _)].
    apply (preserves_insert _). intros db. by rewrite lookup_insert_ne.
Qed.

Lemma inventory_row_key_free p j :
  valid_component p = true → inventory_row p j → j ≠ (META, key p) ∧ j ≠ (META, REVISION_SEQUENCE) ∧ j.1 ≠ PROJECTS.
Proof.
  intros Hp Hj. assert (Hseq : ∀ k, project_key p k ≠ REVISION_SEQUENCE).
  { intros k. unfold project_key, project_prefix, REVISION_SEQUENCE. unfold valid_component in Hp.
    destruct p as [|c p]; [done |]. rewrite app_cons, app_cons. intros [= -> _].
    rewrite contains_char_cons in Hp. by rewrite andb_false_r in Hp. }
  unfold key in *. destruct Hj as [(id & ->)|[->|[->|(o & ->)]]]; split_and!; try done;
    try (intros [= H]; by apply Hseq in H); intros [= H]; by apply project_key_inj_r in H.
Qed.

Lemma put_project_same_identity rec old (db db' : DB) :
  get_decoded PROJECTS (project_id rec) db = Ok (Some old) →
  directory rec = directory old → project_type rec = project_type old →
  put_project rec db = (db', Ok tt) →
  (∀ j, inventory_row (project_id rec) j → db' !! j = db !! j) ∧
  ∃ since, db' !! (PROJECTS, project_id rec) = Some (to_vec (set_since rec since)).
Proof.
  intros Hold Hd Ht H. unfold put_project in H.
  apply write_tx_inv in H as [E|[-> (s1 & E)]]; cycle 1.
  { apply tx_bind_Ok in E as ([] & s2 & _ & E). apply tx_bind_Ok in E as (? & s3 & _ & E).
    apply tx_bind_Ok in E as (? & s4 & _ & E). apply tx_bind_Ok in E as (? & s5 & _ & E).
    by apply tx_bind_Ok in E as (? & s6 & _ & [? _]%tx_ret_Ok). }
  apply tx_bind_Ok in E as ([] & s1 & [Hp%validate_key_component_Ok ->]%lift_Ok & E).
  apply tx_bind_Ok in E as (previous & s1 & [Hpr ->]%tx_get_decoded_Ok & E).
  rewrite Hold in Hpr. injection Hpr as <-. rewrite Hd, Ht, !String.eqb_refl in E. cbn [negb orb] in E.
  apply tx_bind_Ok in E as (v & db1 & [_ ->]%tx_ret_Ok & E).
  apply tx_bind_Ok in E as (o & db2 & Ho & E).
  apply tx_bind_Ok in E as ([] & db3 & [_ ->]%tx_insert_Ok & [_ ->]%tx_ret_Ok). split.
  - intros j Hj. destruct (inventory_row_key_free _ _ Hp Hj) as (H1 & H2 & H3).
    rewrite lookup_insert_ne by (intros <-; done). by eapply requirements_for_project_write_frame.
  - rewrite lookup_insert_eq. destruct o as [r|]; [by eexists |].
    exists (reindex_required_since_ms rec). by destruct rec.
Qed.

(** * Theorems *)

(** The inventory is complete or refused: it is returned exactly when
    the project is stored and everything fits the documented limits, and it
    then holds every rule and every source receipt of the project, with the
    stored bytes, and nothing else. *)
Theorem ownership_inventory_is_complete p db :
  valid_component p = true →
  (∀ s, snapshot_rule_ownership p db = Ok s →
     within_budget s ∧
     (∀ id v, (id, v) ∈ os_rules s ↔ db !! (REPO_RULES, project_key p id) = Some v) ∧
     (∀ o v, (RECEIPT_PREFIX +:+ o, v) ∈ os_receipts s ↔
        meta (project_key p (RECEIPT_PREFIX +:+ o)) db = Some v) ∧
     NoDup (os_rules s).*1 ∧ NoDup (os_receipts s).*1) ∧
  (is_ok (snapshot_rule_ownership p db) = true ↔
   ∃ raw, db !! (PROJECTS, p) = Some raw ∧ within_budget (inventory p raw db)).
Proof.
  intros Hp. split.
  - intros s [_ (raw & Hraw & -> & Hb)%from_tables_Ok]%snapshot_Ok. split; [done |]. simpl.
    split_and!; [| | apply NoDup_inventory | apply NoDup_inventory].
    + intros id v. apply (elem_of_inventory REPO_RULES (project_prefix p) "").
    + intros o v. unfold inventory_receipts. rewrite elem_of_inventory. unfold meta, project_key.
      by rewrite app_assoc_str.
  - split.
    + destruct (snapshot_rule_ownership p db) as [s|] eqn:E; [| done]. intros _.
      apply snapshot_Ok in E as [_ (raw & Hraw & -> & Hb)%from_tables_Ok]. eauto.
    + intros (raw & Hraw & Hb).
      assert (E : snapshot_rule_ownership p db = Ok (inventory p raw db)); [| by rewrite E].
      apply snapshot_Ok. split; [done |]. apply from_tables_Ok. eauto.
Qed.

(** The adoption basis ignores unrelated project edits: storing the
    project again with another name, other times or a recovery flag, but with
    its directory and type, leaves the basis digest of its inventory the same,
    so it does not invalidate a reviewed decision. *)
Theorem adoption_basis_ignores_display_edits rec old db db' s s' d :
  get_decoded PROJECTS (project_id rec) db = Ok (Some old) →
  directory rec = directory old → project_type rec = project_type old →
  put_project rec db = (db', Ok tt) →
  snapshot_rule_ownership (project_id rec) db = Ok s → adoption_basis_digest s = Ok d →
  snapshot_rule_ownership (project_id rec) db' = Ok s' → adoption_basis_digest s' = Ok d.
Proof.
  intros Hold Hd Ht Hput Hs Hdig Hs'.
  destruct (put_project_same_identity _ _ _ _ Hold Hd Ht Hput) as [Hf (since & Hrow)].
  apply snapshot_Ok in Hs as [_ (raw & Hraw & -> & _)%from_tables_Ok].
  apply snapshot_Ok in Hs' as [_ (raw' & Hraw' & -> & _)%from_tables_Ok].
  rewrite Hrow in Hraw'. injection Hraw' as <-. rewrite (inventory_frame _ raw _ _ _ Hf).
  unfold get_decoded in Hold. apply transpose_Ok in Hold. rewrite Hraw in Hold.
  destruct Hold as (old' & Hdec & [= <-]).
  unfold adoption_basis_digest, os_project in *. cbn [os_project_raw os_project_id inventory] in *.
  apply result_bind_Ok in Hdig as (o & Ho & Hdig). apply result_bind_Ok in Ho as (o' & Ho & Hid).
  rewrite Hdec in Ho. injection Ho as <-. apply ensure_bind_Ok in Hid as [_ [= <-]].
  apply result_bind_Ok in Hdig as (epoch & He & Hdig).
  rewrite from_slice_to_vec. cbn [mbind result_bind]. rewrite String.eqb_refl. cbn [ensure mbind result_bind].
  unfold os_identity_epoch in *. cbn [os_identity_epoch_raw inventory] in *. rewrite He. cbn [mbind result_bind].
  apply ensure_bind_Ok in Hdig as [Hsome Hdig]. rewrite Hsome. cbn [ensure mbind result_bind].
  rewrite <-Hdig. cbn. by rewrite Hd, Ht.
Qed.

End inventory.
