(* ===== verification/AdoptionSpec.v ===== *)
(** What a reviewed adoption promises ([Adoption.v]): it changes only the
    provenance of the named rules, and an adoption prepared against the current
    inventory commits and leaves a readable inventory. *)
From S2P Require Import Prelude Text Unicode Store Records Concrete Reindex SourceHead.
From S2P Require Import Registry Rules RulesSpec Ownership Adoption Revisions Lifecycle OwnershipSpec.

Open Scope N_scope.

(** * Definitions *)

Section adoption_spec.
Context `{AE : !AdoptionEnv}.

(** What the loop knows of a rewritten row. *)
Definition adopted (expected : RuleOwnershipSnapshot) (plan : LegacyAdoptionPlan)
    (receipt : RuleSourceReceipt) (id : string) (raw' : bytes) : Prop :=
  ∃ raw old new, row_of id (os_rules expected) = Some raw ∧ from_slice raw = Ok old ∧
    from_slice raw' = Ok new ∧ rule_id old = id ∧ with_provenance new (provenance old) = old ∧
    adopted_row plan raw = Ok raw' ∧ new ∈ receipt_rules receipt.

(** The rows after an adoption of receipt [rk]. *)
Definition adopted_receipts (s : RuleOwnershipSnapshot) (rk : string) (receipt : bytes)
  : list (string * bytes) :=
  (rk, receipt) :: filter (λ kv, kv.1 ≠ rk) (os_receipts s).

(** * Lemmas *)

Lemma row_of_Some {A} k (l : list (string * A)) v : row_of k l = Some v → (k, v) ∈ l.
Proof.
  unfold row_of. destruct (filter (λ kv, kv.1 = k) l) as [|[k' v'] l'] eqn:E; [done |]. simpl.
  intros [= <-]. assert (Hin : (k', v') ∈ filter (λ kv : string * A, kv.1 = k) l) by (rewrite E; set_solver).
  apply list_elem_of_filter in Hin as [<- Hin]. done.
Qed.

Lemma with_provenance_rule_id r o : rule_id (with_provenance r o) = rule_id r.
Proof. done. Qed.

(** ** The loop over the bindings *)

Definition adopt_inv (expected : RuleOwnershipSnapshot) (plan : LegacyAdoptionPlan) (st : AdoptState) : Prop :=
  ∀ id raw', a_rows st !! id = Some raw' → id ∈ a_ids st ∧ adopted expected plan (a_receipt st) id raw'.

Lemma adopt_binding_inv expected plan key receipts st b st' :
  adopt_inv expected plan st → adopt_binding expected plan key receipts st b = Ok st' →
  adopt_inv expected plan st'.
Proof.
  intros Hinv H. unfold adopt_binding in H. apply ensure_bind_Ok in H as [_ H].
  apply result_bind_Ok in H as (_ & _ & H). apply ensure_bind_Ok in H as [Hnew H].
  apply ensure_bind_Ok in H as [_ H]. apply result_bind_Ok in H as (raw & Hraw%ok_or_Ok & H).
  apply ensure_bind_Ok in H as [_ H]. apply result_bind_Ok in H as (old & Hold & H).
  apply ensure_bind_Ok in H as [Hid%String.eqb_eq H]. apply result_bind_Ok in H as (_ & _ & H).
  apply result_bind_Ok in H as (raw' & Hrow & H). apply result_bind_Ok in H as (new & Hn & H).
  apply ensure_bind_Ok in H as [Hp%bool_decide_eq_true H]. injection H as <-.
  apply andb_true_iff in Hnew as [Hfresh%bool_decide_eq_true _].
  assert (Hnid : rule_id new = b_rule_id b) by (rewrite <-Hid, <-Hp; done).
  intros id r' Hr. cbn [a_rows] in Hr. apply lookup_insert_Some in Hr as [[<- <-]|[Hne Hr]].
  - split; [cbn [a_ids]; set_solver |]. exists raw, old, new. split_and!; try done.
    cbn [a_receipt with_claim receipt_rules]. set_solver.
  - destruct (Hinv _ _ Hr) as [Hin (raw1 & old1 & new1 & H1 & H2 & H3 & H4 & H5 & H6 & H7)].
    split; [cbn [a_ids]; set_solver |]. exists raw1, old1, new1. split_and!; try done.
    cbn [a_receipt with_claim receipt_rules].
    apply elem_of_app. left. apply list_elem_of_filter. split; [| done]. rewrite Hnid.
    assert (rule_id new1 = id) as -> by (rewrite <-H4, <-H5; done). by intros ->.
Qed.

Lemma adopt_bindings_inv expected plan key receipts bs st st' :
  adopt_inv expected plan st → adopt_bindings expected plan key receipts bs st = Ok st' →
  adopt_inv expected plan st'.
Proof.
  revert st. induction bs as [|b bs IH]; intros st Hinv H; [by injection H as <- |].
  apply result_bind_Ok in H as (st1 & H1 & H). eapply IH; [| done]. by eapply adopt_binding_inv.
Qed.

Lemma prepare_inv s plan ref prep :
  prepare s plan ref = Ok prep →
  ∃ basis st plan_hash, adoption_basis_digest s = Ok basis ∧ adopt_inv s plan st ∧
    receipt_validate (a_receipt st) (source_key (plan_origin plan)) = Ok tt ∧
    receipt_encode (a_receipt st) = Ok (p_receipt prep) ∧
    check_adoption_budget s (a_rows st) (source_key (plan_origin plan)) (p_receipt prep) = Ok tt ∧
    p_rows prep = a_rows st ∧ p_receipt_key prep = source_key (plan_origin plan) ∧
    p_audit_key prep = "quality_adoption:" +:+ plan_hash.
Proof.
  intros H. unfold prepare in H. apply result_bind_Ok in H as (basis & Hb & H).
  apply ensure_bind_Ok in H as [_ H]. apply ensure_bind_Ok in H as [_ H]. apply ensure_bind_Ok in H as [_ H].
  apply result_bind_Ok in H as (receipts & _ & H). apply result_bind_Ok in H as (corpus & _ & H).
  apply ensure_bind_Ok in H as [_ H]. apply ensure_bind_Ok in H as [_ H].
  apply result_bind_Ok in H as (_ & _ & H). apply result_bind_Ok in H as (st & Hst & H).
  apply result_bind_Ok in H as ([] & Hv & H). apply result_bind_Ok in H as (encoded & He & H).
  apply result_bind_Ok in H as ([] & Hbud & H). apply ensure_bind_Ok in H as [_ H].
  apply result_bind_Ok in H as (ph & _ & H). apply ensure_bind_Ok in H as [_ H]. injection H as <-.
  exists basis, st, ph. simpl. split_and!; try done.
  eapply adopt_bindings_inv; [| exact Hst]. intros id raw' Hr. cbn [a_rows] in Hr. by rewrite lookup_empty in Hr.
Qed.

(** ** The database after an adoption *)

Lemma lookup_insert_rows p rows (db : DB) j :
  insert_rows p rows db !! j =
  match j with
  | (REPO_RULES, k) =>
      match strip_prefix (project_prefix p) k ≫= λ id, rows !! id with Some raw => Some raw | None => db !! j end
  | _ => db !! j
  end.
Proof.
  unfold insert_rows.
  apply (map_fold_weak_ind (λ (d : DB) (m : gmap string bytes), d !! j = match j with
    | (REPO_RULES, k) =>
      match strip_prefix (project_prefix p) k ≫= λ id, m !! id with Some raw => Some raw | None => db !! j end
    | _ => db !! j end)).
  - destruct j as [[] k]; try done. by destruct (strip_prefix _ k).
  - intros id raw m d Hm IH. destruct j as [t k]. destruct (decide ((REPO_RULES, project_key p id) = (t, k))) as [[= <- <-]|Hne].
    + rewrite lookup_insert_eq. unfold project_key. rewrite strip_prefix_app. simpl. by rewrite lookup_insert_eq.
    + rewrite lookup_insert_ne by done. rewrite IH. destruct t; try done.
      destruct (strip_prefix (project_prefix p) k) as [id'|] eqn:E; [| done]. simpl.
      apply strip_prefix_Some in E. subst k. rewrite lookup_insert_ne; [done |]. intros <-. done.
Qed.

Lemma lookup_insert_rows_rule p rows (db : DB) id :
  insert_rows p rows db !! (REPO_RULES, project_key p id) =
  match rows !! id with Some raw => Some raw | None => db !! (REPO_RULES, project_key p id) end.
Proof. rewrite lookup_insert_rows. unfold project_key. by rewrite strip_prefix_app. Qed.

Lemma lookup_insert_rows_other p rows (db : DB) j :
  j.1 ≠ REPO_RULES → insert_rows p rows db !! j = db !! j.
Proof. rewrite lookup_insert_rows. by destruct j as [[] k]. Qed.

Lemma replace_rows_keys rows l : (replace_rows rows l).*1 = l.*1.
Proof. unfold replace_rows. rewrite <-list_fmap_compose. by apply list_fmap_ext. Qed.

Lemma elem_of_replace_rows (rows : gmap string bytes) l k v :
  (k, v) ∈ replace_rows rows l ↔ ∃ v0, (k, v0) ∈ l ∧ v = default v0 (rows !! k).
Proof.
  unfold replace_rows. rewrite list_elem_of_fmap. split.
  - intros ([k' v0] & [= -> ->] & Hin). eauto.
  - intros (v0 & Hin & ->). by exists (k, v0).
Qed.

(** The keys the adoption writes are of three different kinds. *)
Lemma key_kinds p hash o :
  project_key p ("quality_adoption:" +:+ hash) ≠ project_key p (RECEIPT_PREFIX +:+ o) ∧
  project_key p (RECEIPT_PREFIX +:+ o) ≠ project_key p IDENTITY_EPOCH ∧
  project_key p (RECEIPT_PREFIX +:+ o) ≠ project_key p CORPUS_REVISION ∧
  project_key p ("quality_adoption:" +:+ hash) ≠ project_key p IDENTITY_EPOCH ∧
  project_key p ("quality_adoption:" +:+ hash) ≠ project_key p CORPUS_REVISION.
Proof.
  unfold RECEIPT_PREFIX, IDENTITY_EPOCH, CORPUS_REVISION.
  split_and!; intros H%project_key_inj_r; rewrite !app_cons in H; discriminate.
Qed.

Lemma source_key_receipt o : ∃ h, source_key o = RECEIPT_PREFIX +:+ h ∧ slen h = 64.
Proof.
  exists (blake3_hex o). split; [done |]. unfold slen. destruct (blake3_hex_shape o) as [-> _]. done.
Qed.

(** The database a committed adoption leaves. *)
Definition adopted_db (p : string) (prep : Prepared) (db : DB) : DB :=
  <[(META, project_key p (p_audit_key prep)) := p_audit prep]>
    (<[(META, project_key p (p_receipt_key prep)) := p_receipt prep]> (insert_rows p (p_rows prep) db)).

Lemma adopted_rules p rk hash prep raw (db : DB) :
  p_receipt_key prep = rk → p_audit_key prep = hash →
  (∀ id, is_Some (p_rows prep !! id) → id ∈ (os_rules (inventory p raw db)).*1) →
  inventory_rules p (adopted_db p prep db) ≡ₚ replace_rows (p_rows prep) (inventory_rules p db).
Proof.
  intros _ _ Hdom. apply (inventory_perm REPO_RULES (project_prefix p) "").
  - rewrite replace_rows_keys. apply NoDup_inventory.
  - intros k v _. by exists k.
  - intros id v. rewrite app_nil_l. rewrite elem_of_replace_rows. unfold adopted_db.
    rewrite !lookup_insert_ne by done. fold (project_key p id). rewrite lookup_insert_rows_rule.
    assert (Hold : ∀ v0, (id, v0) ∈ inventory_rules p db ↔ db !! (REPO_RULES, project_key p id) = Some v0)
      by (intros; apply (elem_of_inventory REPO_RULES (project_prefix p) "")).
    setoid_rewrite Hold. destruct (p_rows prep !! id) as [r|] eqn:Hr; simpl.
    + split; [by intros (_ & _ & ->) |]. intros [= ->].
      assert (Hin : id ∈ (os_rules (inventory p raw db)).*1) by (apply Hdom; eauto).
      apply list_elem_of_fmap in Hin as ([id' v0] & -> & Hin). exists v0. split; [by apply Hold | done].
    + split; [by intros (v0 & Hv & ->) | intros; by exists v].
Qed.

Lemma adopted_receipts_perm p h hash prep raw (db : DB) :
  p_receipt_key prep = RECEIPT_PREFIX +:+ h → p_audit_key prep = "quality_adoption:" +:+ hash →
  inventory_receipts p (adopted_db p prep db) ≡ₚ
  adopted_receipts (inventory p raw db) (p_receipt_key prep) (p_receipt prep).
Proof.
  intros Hrk Hak. apply (inventory_perm META (project_key p RECEIPT_PREFIX) RECEIPT_PREFIX).
  - unfold adopted_receipts. rewrite fmap_cons. apply NoDup_cons. split.
    + intros ([k v] & He & [Hne _]%list_elem_of_filter)%list_elem_of_fmap. done.
    + eapply sublist_NoDup; [apply (NoDup_inventory META) | apply fmap_sublist, sublist_filter].
  - intros k v [[= -> ->]|[_ Hin]%list_elem_of_filter]%elem_of_cons; [eauto |].
    exact (inventory_row_key META (project_key p RECEIPT_PREFIX) RECEIPT_PREFIX db k v Hin).
  - intros o v. unfold adopted_db, adopted_receipts. rewrite Hrk, Hak.
    assert (Hkey : ∀ o, project_key p RECEIPT_PREFIX +:+ o = project_key p (RECEIPT_PREFIX +:+ o))
      by (intros; unfold project_key; by rewrite app_assoc_str).
    rewrite Hkey, elem_of_cons, list_elem_of_filter. cbn [fst].
    rewrite lookup_insert_ne by (intros [= H]; by apply (proj1 (key_kinds p hash o)) in H).
    assert (Hold : (RECEIPT_PREFIX +:+ o, v) ∈ os_receipts (inventory p raw db) ↔
      db !! (META, project_key p (RECEIPT_PREFIX +:+ o)) = Some v)
      by (rewrite <-Hkey; apply elem_of_inventory).
    rewrite Hold. destruct (decide (o = h)) as [->|Hne].
    + rewrite lookup_insert_eq. split; [intros [[= ->]|[Hne _]]; done |]. intros [= ->]. by left.
    + rewrite lookup_insert_ne, lookup_insert_rows_other; [| done |].
      * split; [intros [[= H ->]|[_ H]]; [by apply app_inj_l in H as -> | done] |].
        intros H. right. split; [| done]. by intros H'%app_inj_l.
      * intros [= H%project_key_inj_r]. by apply app_inj_l in H.
Qed.

(** ** The budget *)

Lemma filter_length_has s rk :
  NoDup (os_receipts s).*1 →
  (S (length (filter (λ kv : string * bytes, kv.1 ≠ rk) (os_receipts s))) <=
   length (os_receipts s) + (if has_receipt s rk then 0 else 1))%nat.
Proof.
  unfold has_receipt. induction (os_receipts s) as [|[k v] l IH]; intros Hnd; simpl; [lia |].
  apply NoDup_cons in Hnd as [Hn Hnd]. simpl in Hn. rewrite filter_cons. simpl.
  destruct (String.eqb k rk) eqn:E.
  - apply String.eqb_eq in E. subst k. rewrite decide_False by auto. simpl.
    pose proof (length_filter (λ kv : string * bytes, kv.1 ≠ rk) l). lia.
  - apply String.eqb_neq in E. rewrite decide_True by done. simpl. specialize (IH Hnd). lia.
Qed.

Lemma adoption_budget_Ok s rows rk receipt :
  check_adoption_budget s rows rk receipt = Ok tt →
  value_ok receipt ∧ (∀ k v, (k, v) ∈ replace_rows rows (os_rules s) → value_ok v) ∧
  (length (os_receipts s) + (if has_receipt s rk then 0 else 1) <= 256)%nat ∧
  inventory_cost (os_project_raw s) (os_identity_epoch_raw s) (os_corpus_revision_raw s)
    (replace_rows rows (os_rules s)) (adopted_receipts s rk receipt) <= SNAPSHOT_BYTES.
Proof.
  unfold check_adoption_budget, inventory_cost, adopted_receipts. intros H.
  apply result_bind_Ok in H as (r1 & (_ & L1 & ->)%admit_bytes_Ok & H).
  apply result_bind_Ok in H as (r2 & (_ & L2 & ->)%admit_option_Ok & H).
  apply result_bind_Ok in H as (r3 & (_ & L3 & ->)%admit_option_Ok & H).
  apply result_bind_Ok in H as (r4 & (V4 & L4 & ->)%admit_rows_Ok & H).
  apply ensure_bind_Ok in H as [Hlen%Nat.leb_le H].
  apply result_bind_Ok in H as (r5 & (_ & L5 & ->)%admit_rows_Ok & H).
  apply result_bind_Ok in H as (r6 & (V6 & L6 & _)%admit_bytes_Ok & _).
  change (slen "") with 0 in *. split_and!; [done | done | done |]. cbn [cost]. lia.
Qed.

Lemma adopted_snapshot p s prep (db : DB) h hash :
  from_tables p db = Ok s →
  p_receipt_key prep = RECEIPT_PREFIX +:+ h → slen h = 64 → p_audit_key prep = "quality_adoption:" +:+ hash →
  (∀ id, is_Some (p_rows prep !! id) → id ∈ (os_rules s).*1) →
  check_adoption_budget s (p_rows prep) (p_receipt_key prep) (p_receipt prep) = Ok tt →
  ∃ s', from_tables p (adopted_db p prep db) = Ok s' ∧
    os_rules s' ≡ₚ replace_rows (p_rows prep) (os_rules s) ∧
    os_receipts s' ≡ₚ adopted_receipts s (p_receipt_key prep) (p_receipt prep).
Proof.
  intros (raw & Hraw & -> & Hv1 & Hv2 & Hv3 & [Hl4 Hr4] & [Hl5 Hr5] & Hc)%from_tables_Ok Hrk Hh Hak Hdom Hb.
  apply adoption_budget_Ok in Hb as (Hvr & Hvrows & Hlen & Hcost).
  pose proof (adopted_rules p _ _ prep raw db Hrk Hak Hdom) as Hrules.
  pose proof (adopted_receipts_perm p h hash prep raw db Hrk Hak) as Hreceipts.
  destruct (key_kinds p hash h) as (_ & K2 & K3 & K4 & K5).
  assert (Hmeta : ∀ k, k ≠ project_key p (p_receipt_key prep) → k ≠ project_key p (p_audit_key prep) →
    meta k (adopted_db p prep db) = meta k db).
  { intros k H1 H2. unfold meta, adopted_db. rewrite !lookup_insert_ne by congruence.
    by apply lookup_insert_rows_other. }
  exists (inventory p raw (adopted_db p prep db)).
  split; [| split; [exact Hrules | exact Hreceipts]].
  apply from_tables_Ok. exists raw. split.
  { unfold adopted_db. rewrite !lookup_insert_ne by done. by rewrite lookup_insert_rows_other. }
  split; [done |]. unfold within_budget, snapshot_cost. cbn [inventory os_project_raw
    os_identity_epoch_raw os_corpus_revision_raw os_rules os_receipts] in *.
  rewrite !Hmeta by (rewrite ?Hrk, ?Hak; auto). split_and!; try done.
  - split.
    + rewrite Hrules. unfold replace_rows. by rewrite length_fmap.
    + intros k v Hin. rewrite Hrules in Hin. split; [| by eapply Hvrows].
      apply elem_of_replace_rows in Hin as (v0 & Hin & _). by destruct (Hr4 _ _ Hin).
  - split.
    + rewrite Hreceipts. unfold adopted_receipts. cbn [length].
      etrans; [apply filter_length_has, (NoDup_inventory META) | done].
    + intros k v Hin. rewrite Hreceipts in Hin. unfold adopted_receipts in Hin.
      apply elem_of_cons in Hin as [[= -> ->]|[_ Hin]%list_elem_of_filter]; [| by apply Hr5].
      rewrite Hrk, slen_app, Hh. split; [lia | done].
  - unfold inventory_cost in *. rewrite Hrules, Hreceipts. done.
Qed.

Lemma commit_current p s prep (db : DB) basis s' :
  os_project_id s = p → from_tables p db = Ok s → adoption_basis_digest s = Ok basis →
  meta (project_key p (p_audit_key prep)) db = None →
  p_audit_key prep ≠ p_receipt_key prep → from_tables p (adopted_db p prep db) = Ok s' →
  commit_legacy_adoption s prep false db = (adopted_db p prep db, Ok (p_outcome prep)).
Proof.
  intros Hp Hs Hb Ha Hne Hs'. unfold commit_legacy_adoption, tx_meta, tx_set_meta. rewrite Hp.
  unfold write_tx.
  rewrite (tx_bind_eq (tx_read (from_tables p)) _ db (Ok s) db) by (unfold tx_read; by rewrite Hs).
  rewrite (tx_lift_bind_eq _ _ _ s) by done.
  rewrite (tx_lift_bind_eq _ _ _ basis) by done. rewrite (tx_lift_bind_eq _ _ _ basis) by done.
  rewrite (tx_lift_bind_eq _ _ _ tt) by (by rewrite String.eqb_refl).
  rewrite (tx_bind_eq (tx_get _) _ db None db) by (unfold tx_get, meta in *; by rewrite Ha).
  rewrite (tx_lift_bind_eq _ _ _ tt) by done.
  erewrite (tx_bind_eq (tx_modify _)) by done. rewrite (tx_lift_bind_eq _ _ _ tt) by done.
  erewrite (tx_bind_eq (tx_insert _ _)) by done. erewrite (tx_bind_eq (tx_insert _ _)) by done.
  fold (adopted_db p prep db).
  rewrite (tx_bind_eq (tx_read (from_tables p)) _ _ (Ok s') (adopted_db p prep db))
    by (unfold tx_read; by rewrite Hs').
  by rewrite (tx_lift_bind_eq _ _ _ s').
Qed.

(** * Theorems *)

(** C37. A reviewed adoption commits: when it was prepared against the current
    inventory and its decision is not recorded yet, it succeeds in one
    transaction, and the budget check was enough to leave a readable
    inventory, whose rules are the old ones with the reviewed rows replaced
    and whose receipts are the old ones with the new receipt in its place. *)
Theorem prepared_adoption_commits p s plan ref prep db :
  snapshot_rule_ownership p db = Ok s → prepare s plan ref = Ok prep →
  meta (project_key p (p_audit_key prep)) db = None →
  ∃ db' s', adopt_legacy_repo_rules s plan ref db = (db', Ok (p_outcome prep)) ∧
    snapshot_rule_ownership p db' = Ok s' ∧
    os_rules s' ≡ₚ replace_rows (p_rows prep) (os_rules s) ∧
    os_receipts s' ≡ₚ adopted_receipts s (p_receipt_key prep) (p_receipt prep) ∧
    meta (project_key p (p_audit_key prep)) db' = Some (p_audit prep).
Proof.
  intros [Hp Hs]%snapshot_Ok Hprep Ha.
  destruct (prepare_inv _ _ _ _ Hprep) as (basis & st & hash & Hb & Hinv & _ & _ & Hbud & Hrows & Hrk & Hak).
  destruct (source_key_receipt (plan_origin plan)) as (h & Hk & Hh).
  assert (Hdom : ∀ id, is_Some (p_rows prep !! id) → id ∈ (os_rules s).*1).
  { intros id [raw' Hr]. rewrite Hrows in Hr. apply Hinv in Hr as [_ (raw & _ & _ & Hraw & _)].
    apply list_elem_of_fmap. exists (id, raw). split; [done | by apply row_of_Some]. }
  rewrite <-Hrows, <-Hrk in Hbud. rewrite Hk in Hrk.
  destruct (adopted_snapshot p s prep db h hash Hs Hrk Hh Hak Hdom Hbud) as (s' & Hs' & H1 & H2).
  assert (Hid : os_project_id s = p) by (apply from_tables_Ok in Hs as (raw & _ & -> & _); done).
  exists (adopted_db p prep db), s'. split_and!.
  - unfold adopt_legacy_repo_rules, guarded. rewrite Hprep. eapply commit_current; try done.
    rewrite Hrk, Hak. unfold RECEIPT_PREFIX. intros H. rewrite !app_cons in H. discriminate.
  - by apply snapshot_Ok.
  - done.
  - done.
  - unfold meta, adopted_db. apply lookup_insert_eq.
Qed.

(** An adoption changes only provenance: every row it rewrites is a stored
    rule of the inventory under its own id, whose new bytes decode to the same
    rule with the provenance of the source; and that rule is claimed by the
    receipt the adoption stores. *)
Theorem adoption_changes_only_provenance s plan ref prep id raw' :
  prepare s plan ref = Ok prep → p_rows prep !! id = Some raw' →
  ∃ raw old receipt,
    (id, raw) ∈ os_rules s ∧ from_slice raw = Ok old ∧ rule_id old = id ∧
    from_slice raw' = Ok (with_provenance old (Some (SOURCE_PROVENANCE +:+ plan_origin plan))) ∧
    receipt_encode receipt = Ok (p_receipt prep) ∧
    receipt_validate receipt (p_receipt_key prep) = Ok tt ∧
    with_provenance old (Some (SOURCE_PROVENANCE +:+ plan_origin plan)) ∈ receipt_rules receipt.
Proof.
  intros Hprep Hr.
  destruct (prepare_inv _ _ _ _ Hprep) as (_ & st & _ & _ & Hinv & Hv & He & _ & Hrows & Hrk & _).
  rewrite Hrows in Hr. apply Hinv in Hr as [_ (raw & old & new & Hraw & Hold & Hnew & Hid & Hp & Hrow & Hin)].
  exists raw, old, (a_receipt st). rewrite Hrk.
  assert (Hprov : provenance new = Some (SOURCE_PROVENANCE +:+ plan_origin plan)).
  { unfold adopted_row in Hrow. apply result_bind_Ok in Hrow as (o & _ & Hrow).
    apply ensure_bind_Ok in Hrow as [_ [= <-]]. by eapply raw_string_provenance. }
  assert (Hnew' : with_provenance old (Some (SOURCE_PROVENANCE +:+ plan_origin plan)) = new).
  { rewrite <-Hprov, <-Hp. by destruct new. }
  rewrite Hnew'. split_and!; try done. by apply row_of_Some.
Qed.

End adoption_spec.
