(* ===== verification/Machine.v ===== *)
(** The registry's mutating operations as one transition system over the
    database, its reachable states, and what holds of the tokens it hands out
    along every interleaving of operations. *)
From S2P Require Import Prelude Text Store Records Concrete Reindex SourceHead Registry.
From S2P Require Import Rules Revisions Lifecycle.

Open Scope N_scope.

(** * Definitions *)

(** One call of a mutating operation of [Registry]. Every call runs in one
    write transaction, so calls from several threads are interleaved whole. *)
Inductive Op :=
  | PutProject (rec : ProjectRecord)
  | RegisterSourceProject (rec : ProjectRecord)
  | DeleteProject (p : string)
  | DeleteAllForProject (p : string)
  | RecordReindex (p : string) (reason : ReindexReason) (since : N) (only_if_absent : bool)
  | SettleReindex (tok : ReindexRequirementToken)
  | DismissReindex (p : string)
  | CaptureHead (p : string)
  | AttestIdentity (base : SourceHeadToken)
  | AttestLegacy (base : SourceHeadToken)
  | PublishHead (base : SourceHeadToken) (next : N)
  | ReserveRecovery (base : SourceRecoveryToken) (observed_floor : N)
  | PublishRecovery (r : SourceRecoveryReservation)
  | SetMeta (p k value : string)
  | CompareExchangeMeta (p k : string) (expected : option string) (value : string)
  | CompareExchangeCompanion (p k : string) (expected : option string)
      (value companion_key companion_value : string)
  | SetGlobalFlag (k value : string)
  | PutMemorySection (p : string) (sec : MemorySection)
  | DeleteMemorySection (p sid : string)
  | PutWatch (p : string) (w : WatchRecord)
  | PutJob (job : JobRecord)
  | DeleteJob (jid : string)
  | CleanupOrphanedJobs (now : N)
  | PutRepoRule (p : string) (rule : RepoRule)
  | DeleteRepoRule (p rid : string)
  | PublishRules (p : string) (expected : list RepoRule) (remove : list string)
      (upsert : list RepoRule) (receipt_key expected_receipt receipt : string).

Section machine.
Context `{RU : !RulesEnv}.

(** The database after the call, whatever it returned. *)
Definition run (o : Op) (db : DB) : DB :=
  match o with
  | PutProject rec => (put_project rec db).1
  | RegisterSourceProject rec => (register_source_project rec db).1
  | DeleteProject p => (delete_project p db).1
  | DeleteAllForProject p => (delete_all_for_project p db).1
  | RecordReindex p reason since only => (record_reindex_requirement p reason since only db).1
  | SettleReindex tok => (settle_reindex_requirement tok db).1
  | DismissReindex p => (dismiss_reindex_requirements p db).1
  | CaptureHead p => (capture_source_head p db).1
  | AttestIdentity base => (attest_unchanged_source_identity base db).1
  | AttestLegacy base => (attest_legacy_source_head base db).1
  | PublishHead base next => (publish_source_head base next db).1
  | ReserveRecovery base floor => (reserve_source_recovery base floor db).1
  | PublishRecovery r => (publish_source_recovery r db).1
  | SetMeta p k value => (set_meta p k value db).1
  | CompareExchangeMeta p k expected value => (compare_exchange_meta p k expected value db).1
  | CompareExchangeCompanion p k expected value ck cv =>
      (compare_exchange_meta_with_companion p k expected value ck cv db).1
  | SetGlobalFlag k value => (set_global_flag k value db).1
  | PutMemorySection p sec => (put_memory_section p sec db).1
  | DeleteMemorySection p sid => (delete_memory_section p sid db).1
  | PutWatch p w => (put_watch p w db).1
  | PutJob job => (put_job job db).1
  | DeleteJob jid => (delete_job jid db).1
  | CleanupOrphanedJobs now => (cleanup_orphaned_jobs now db).1
  | PutRepoRule p rule => (put_repo_rule p rule db).1
  | DeleteRepoRule p rid => (delete_repo_rule p rid db).1
  | PublishRules p expected remove upsert rk er r =>
      (publish_repo_rule_source p expected remove upsert rk er r db).1
  end.

(** The callers' discipline: the generic metadata calls are not used on the
    three keys that hold revisions, and a new project starts without a legacy
    recovery flag. *)
Definition disciplined (o : Op) : Prop :=
  match o with
  | RegisterSourceProject rec => reindex_required_since_ms rec = None
  | SetMeta _ k _ | CompareExchangeMeta _ k _ _ | SetGlobalFlag k _
  | PublishRules _ _ _ _ k _ _ => k ∉ revision_suffixes
  | CompareExchangeCompanion _ k _ _ ck _ => k ∉ revision_suffixes ∧ ck ∉ revision_suffixes
  | _ => True
  end.

Inductive step : DB → DB → Prop :=
  | step_run o db : disciplined o → step db (run o db).

(** The databases the registry reaches from an empty one. *)
Definition reachable (db : DB) : Prop := rtc step ∅ db.

(** * Lemmas *)

Lemma plain_user_key name k : vk name k = Ok tt → k ∉ revision_suffixes → plain_key k.
Proof. intros Hk%validate_key_component_Ok Hn. split; [by apply valid_component_no_NUL | done]. Qed.

Lemma plain_meta_row p k name1 name2 :
  vk name1 p = Ok tt → vk name2 k = Ok tt → k ∉ revision_suffixes → plain_row (META, project_key p k).
Proof.
  intros Hp Hk Hn. exists p, k. split_and!; [done | by apply (validate_key_component_Ok name1) |].
  by eapply plain_user_key.
Qed.

Lemma sound_tx_meta_write p k v changes :
  valid_component p = true → plain_key k →
  preserves (head_rel p) (_ ← tx_head_write p k changes; tx_set_meta (project_key p k) v).
Proof.
  intros Hp Hk. apply (preserves_bind _); [apply head_rel_head_write | intros _].
  by apply head_rel_set_meta.
Qed.

Lemma set_meta_sound p k v (db : DB) : k ∉ revision_suffixes → sound db (set_meta p k v db).1.
Proof.
  intros Hk. unfold set_meta.
  match goal with |- context [write_tx ?b ?d] =>
    destruct (write_tx_cases b d) as [->|([] & db' & E & ->)]; [done |] end.
  apply tx_bind_Ok in E as ([] & s1 & [Hp ->]%lift_Ok & E).
  apply tx_bind_Ok in E as ([] & s1 & [Hv ->]%lift_Ok & E).
  apply (sound_head_rel p). apply tx_bind_Ok in E as (c & s1 & [-> ->]%tx_get_Ok & E).
  apply tx_bind_Ok in E as ([] & s1 & H1%head_rel_head_write & E).
  apply tx_bind_Ok in E as ([] & s2 & H2 & [_ ->]%tx_ret_Ok).
  etrans; [done |]. eapply head_rel_set_meta; [| | done].
  - by eapply validate_key_component_Ok.
  - by eapply plain_user_key.
Qed.

Lemma compare_exchange_meta_sound p k e v (db : DB) :
  k ∉ revision_suffixes → sound db (compare_exchange_meta p k e v db).1.
Proof.
  intros Hk. unfold compare_exchange_meta.
  match goal with |- context [write_tx ?b ?d] =>
    destruct (write_tx_cases b d) as [->|(r & db' & E & ->)]; [done |] end.
  apply tx_bind_Ok in E as ([] & s1 & [Hp ->]%lift_Ok & E).
  apply tx_bind_Ok in E as ([] & s1 & [Hv ->]%lift_Ok & E).
  apply (sound_head_rel p). apply tx_bind_Ok in E as (c & s1 & [-> ->]%tx_get_Ok & E).
  case_decide; [| by apply tx_ret_Ok in E as [? _]].
  apply tx_bind_Ok in E as ([] & s1 & H1%head_rel_head_write & E).
  apply tx_bind_Ok in E as ([] & s2 & H2 & [_ ->]%tx_ret_Ok).
  etrans; [done |]. eapply head_rel_set_meta; [| | done].
  - by eapply validate_key_component_Ok.
  - by eapply plain_user_key.
Qed.

Lemma compare_exchange_companion_sound p k e v ck cv (db : DB) :
  k ∉ revision_suffixes → ck ∉ revision_suffixes →
  sound db (compare_exchange_meta_with_companion p k e v ck cv db).1.
Proof.
  intros Hk Hck. apply sound_write_tx.
  apply (preserves_lift_bind _). intros [] Hp. apply (preserves_lift_bind _). intros [] Hv.
  apply (preserves_lift_bind _). intros [] Hcv.
  assert (plain_row (META, project_key p k)) by (by eapply plain_meta_row).
  assert (plain_row (META, project_key p ck)) by (by eapply plain_meta_row).
  unfold tx_meta, tx_set_meta. sound_tac.
Qed.

Lemma put_row_sound t k v (db : DB) : plain_row (t, k) → sound db (put_row t k v db).1.
Proof. intros. apply sound_write_tx. sound_tac. Qed.
Lemma remove_row_sound t k (db : DB) : plain_row (t, k) → sound db (remove_row t k db).1.
Proof. intros. apply sound_write_tx. sound_tac. Qed.

Lemma set_global_flag_sound k v (db : DB) :
  k ∉ revision_suffixes → sound db (set_global_flag k v db).1.
Proof.
  intros Hk. apply sound_guarded. intros [] Hv. apply put_row_sound.
  by eapply (plain_meta_row _ _ "project_id").
Qed.

Lemma cleanup_orphaned_jobs_sound now (db : DB) : sound db (cleanup_orphaned_jobs now db).1.
Proof.
  unfold cleanup_orphaned_jobs, abort_running. repeat case_match; try done.
  apply sound_write_tx. apply (preserves_bind _); [apply (preserves_read _) | intros rows].
  apply (preserves_bind _); [apply (preserves_lift _) | intros jobs].
  apply (preserves_bind _); [| intros []; by apply (preserves_ret _)].
  apply (preserves_modify _). intros d. generalize (filter (λ kj, is_running kj.2 = true) jobs).
  intros l. revert d. induction l as [|kj l IH]; intros d; simpl; [done |].
  etrans; [by apply (sound_insert (JOBS, kj.1)) | apply IH].
Qed.

Lemma sound_delete_keys t ks (db : DB) :
  (∀ k, plain_row (t, k)) → sound db (delete_keys t ks db).
Proof.
  intros Hk. unfold delete_keys. revert db. induction ks as [|k ks IH]; intros db; simpl; [done |].
  etrans; [by apply sound_delete | apply IH].
Qed.

Lemma upsert_rules_sound p rules : preserves sound (upsert_rules p rules).
Proof.
  induction rules as [|r rules IH]; simpl; [apply (preserves_ret _) |].
  apply (preserves_bind _); [| by intros _]. unfold upsert_rule. sound_tac.
Qed.

Lemma publish_rules_sound p expected remove upsert rk er r (db : DB) :
  rk ∉ revision_suffixes →
  sound db (publish_repo_rule_source p expected remove upsert rk er r db).1.
Proof.
  intros Hk. apply sound_guarded. intros [] Hv. apply result_bind_Ok in Hv as ([] & Hp & Hv).
  assert (plain_row (META, project_key p rk)) by (by eapply plain_meta_row).
  apply sound_write_tx. unfold tx_meta, tx_set_meta.
  repeat (apply (preserves_bind _); [first [apply (preserves_read _) | apply (preserves_lift _)
    | apply (preserves_get _) | idtac] | intros ?]); [| apply upsert_rules_sound | sound_tac ..].
  apply (preserves_modify _). intros d. by apply sound_delete_keys.
Qed.

Lemma run_sound o (db : DB) : disciplined o → sound db (run o db).
Proof.
  destruct o; simpl; intros Hd.
  - apply put_project_sound.
  - by apply register_source_project_sound.
  - apply delete_project_sound.
  - apply delete_all_for_project_sound.
  - apply record_reindex_sound.
  - apply settle_sound.
  - apply dismiss_sound.
  - eapply sound_head_rel, head_rel_capture.
  - eapply sound_head_rel, head_rel_attest.
  - eapply sound_head_rel, head_rel_attest_legacy.
  - eapply sound_head_rel, head_rel_publish.
  - eapply sound_head_rel, head_rel_reserve.
  - eapply sound_head_rel, head_rel_publish_recovery.
  - by apply set_meta_sound.
  - by apply compare_exchange_meta_sound.
  - destruct Hd. by apply compare_exchange_companion_sound.
  - by apply set_global_flag_sound.
  - apply sound_guarded. intros. by apply put_row_sound.
  - apply sound_guarded. intros. by apply remove_row_sound.
  - apply sound_guarded. intros. by apply put_row_sound.
  - apply sound_guarded. intros. by apply put_row_sound.
  - apply sound_guarded. intros. by apply remove_row_sound.
  - apply cleanup_orphaned_jobs_sound.
  - apply sound_guarded. intros. apply sound_write_tx. sound_tac.
  - apply sound_guarded. intros. apply sound_write_tx. sound_tac.
  - by apply publish_rules_sound.
Qed.

Lemma steps_sound (db db' : DB) : rtc step db db' → sound db db'.
Proof.
  induction 1 as [db|db1 db2 db3 Hs _ IH]; [done |]. destruct Hs as [o db Hd].
  etrans; [by apply run_sound | done].
Qed.

Lemma empty_inv : registry_inv ∅.
Proof.
  split; [| intros p _; apply lookup_empty]. intros p _. split.
  - intros r e. unfold cell_value, meta. by rewrite lookup_empty.
  - rewrite lookup_empty. intros raw. unfold meta. by rewrite lookup_empty.
Qed.

Lemma empty_last : last_revision ∅ = Ok 0.
Proof. unfold last_revision, meta. by rewrite lookup_empty. Qed.

Lemma reachable_inv (db : DB) : reachable db → registry_inv db ∧ bounded db.
Proof.
  intros Hr. destruct (steps_sound _ _ Hr empty_inv) as [Hm Hi]. split; [done |].
  destruct (Hm 0 ∅ (fresh_refl _ _ empty_last)) as (n & Hn & _ & Hc). exists n. split; [done |].
  intros c v Hv Hcv. destruct (Hc c v Hv Hcv) as [He|He]; [| lia].
  unfold cell_value, meta in He. by rewrite lookup_empty in He.
Qed.

(** A revision that has left its cell never comes back to it. *)
Lemma retired_revision (db0 db1 db2 : DB) c v :
  reachable db0 → valid_cell c → cell_value c db0 = Some v →
  rtc step db0 db1 → cell_value c db1 ≠ Some v → rtc step db1 db2 →
  cell_value c db2 ≠ Some v.
Proof.
  intros Hr Hc H0 H01 H1 H12 H2.
  destruct (reachable_inv _ Hr) as [Hi0 (n0 & Hn0 & Hb)].
  destruct (steps_sound _ _ H01 Hi0) as [M01 Hi1]. destruct (steps_sound _ _ H12 Hi1) as [M12 _].
  destruct (M01 n0 db0 (fresh_refl _ _ Hn0)) as (n1 & Hn1 & Hle & _).
  destruct (M12 n1 db1 (fresh_refl _ _ Hn1)) as (n2 & Hn2 & _ & Hf).
  destruct (Hf c v Hc H2) as [He|He]; [done |]. specialize (Hb c v Hc H0). lia.
Qed.

Lemma publish_true base next (db db' : DB) :
  publish_source_head base next db = (db', Ok true) →
  cell_value (HeadRevision (ht_project_id base)) db = Some (ht_revision base) ∧
  is_Some (db !! (PROJECTS, ht_project_id base)).
Proof.
  intros H. apply write_tx_inv in H as [H|(_ & s1 & H)].
  all: apply tx_bind_Ok in H as ([] & s & [_ ->]%lift_Ok & H).
  all: apply tx_bind_Ok in H as (project & s & [Hp ->]%tx_get_decoded_Ok & H).
  all: case_match eqn:Hreg; [| by apply tx_ret_Ok in H as [? _]].
  all: apply tx_bind_Ok in H as (rev_row & s & [-> ->]%tx_get_Ok & H).
  all: apply tx_bind_Ok in H as (rev & s & [Hrev ->]%lift_Ok & H).
  all: apply tx_bind_Ok in H as (same & s & [-> ->]%tx_read_Ok & H).
  all: apply tx_bind_Ok in H as (same & s & [Hsame ->]%lift_Ok & H).
  2:{ case_match; [| by apply tx_ret_Ok in H as [? _]].
      do 5 (apply tx_bind_Ok in H as (? & ? & _ & H)). by apply tx_ret_Ok in H as [? _]. }
  destruct same; [| by apply tx_ret_Ok in H as [? _]].
  unfold same_head in Hsame. apply result_bind_Ok in Hsame as (epoch & _ & Hsame).
  injection Hsame as Hsame. rewrite !andb_true_iff, !bool_decide_eq_true in Hsame. split.
  - apply head_cell_transpose. unfold meta. rewrite Hrev. f_equal. tauto.
  - unfold get_decoded in Hp. apply transpose_Ok in Hp. destruct project; [| done].
    destruct (db !! _); [eauto | done].
Qed.

Lemma publish_unchanged base next (db : DB) :
  (publish_source_head base next db).2 ≠ Ok true → (publish_source_head base next db).1 = db.
Proof.
  unfold publish_source_head. on_commit E b. intros Hb. exfalso. apply Hb. f_equal.
  apply tx_bind_Ok in E as ([] & s & [_ ->]%lift_Ok & E).
  apply tx_bind_Ok in E as (project & s & _ & E).
  case_match; [| by apply tx_ret_Ok in E as [? _]].
  apply tx_bind_Ok in E as (rev_row & s1 & _ & E). apply tx_bind_Ok in E as (rev & s2 & _ & E).
  apply tx_bind_Ok in E as (same & s3 & _ & E). apply tx_bind_Ok in E as (same' & s4 & _ & E).
  case_match; [| by apply tx_ret_Ok in E as [? _]].
  do 5 (apply tx_bind_Ok in E as (? & ? & _ & E)). apply tx_ret_Ok in E as [[= ->] _]. done.
Qed.

(** A settlement that succeeds found the revision of its token in the cell. *)
Lemma settle_true tok (db db' : DB) :
  registry_inv db → settle_reindex_requirement tok db = (db', Ok true) →
  valid_component (tok_project_id tok) = true ∧
  cell_value (PendingRevision (tok_project_id tok) (tok_reason tok)) db = Some (tok_revision tok).
Proof.
  intros Hinv H. apply write_tx_inv in H. set (p := tok_project_id tok) in *.
  assert (Hs : ∃ rec stored, vk "project_id" p = Ok tt ∧
    get_decoded PROJECTS p db = Ok (Some rec) ∧ get_decoded META (key p) db = Ok stored ∧
    token (stored_or_legacy stored rec) p (tok_reason tok) = Some tok).
  { destruct H as [H|(_ & s1 & H)].
    all: apply tx_bind_Ok in H as ([] & s & [Hp ->]%lift_Ok & H).
    all: apply tx_bind_Ok in H as (project & s & [Hst ->]%tx_get_decoded_Ok & H).
    all: destruct project as [rec|]; [| by apply tx_ret_Ok in H as [? _]].
    all: apply tx_bind_Ok in H as (stored & s & [Hk ->]%tx_get_decoded_Ok & H).
    all: cbv zeta in H; case_decide; [| by apply tx_ret_Ok in H as [? _]]; eauto 10. }
  destruct Hs as (rec & stored & Hp & Hst & Hk & Htok). apply validate_key_component_Ok in Hp.
  split; [done |]. destruct (stored_project _ _ _ Hinv Hp Hst) as (_ & _ & _ & Hn & _).
  unfold get_decoded in Hk. apply transpose_Ok in Hk. fold (meta (key p) db) in Hk.
  unfold token in Htok. destruct (meta (key p) db) as [raw|] eqn:Hm.
  - destruct Hk as (r & Hr & ->). rewrite (pending_cell _ _ _ _ _ Hm Hr). simpl in Htok.
    destruct (pending r !! tok_reason tok); simpl in *; [| done]. injection Htok as <-. done.
  - subst stored. simpl in Htok. rewrite (Hn eq_refl) in Htok. simpl in Htok.
    by rewrite lookup_empty in Htok.
Qed.

Lemma settle_unchanged tok (db : DB) :
  (settle_reindex_requirement tok db).2 ≠ Ok true → (settle_reindex_requirement tok db).1 = db.
Proof.
  unfold settle_reindex_requirement. on_commit E b. intros Hb. exfalso. apply Hb. f_equal.
  apply tx_bind_Ok in E as ([] & s & [_ ->]%lift_Ok & E).
  apply tx_bind_Ok in E as (project & s & _ & E).
  destruct project; [| by apply tx_ret_Ok in E as [? _]].
  apply tx_bind_Ok in E as (stored & s1 & _ & E).
  case_decide; [| by apply tx_ret_Ok in E as [? _]].
  apply tx_bind_Ok in E as (? & ? & _ & E). apply tx_ret_Ok in E as [[= ->] _]. done.
Qed.

(** * Theorems *)


(** A recovery token whose requirement has been replaced, settled or
    dismissed never settles a later requirement of the same reason: the later
    failure stays pending whatever is done with the old token. *)
Theorem stale_reindex_token_never_settles db0 db1 db2 tok :
  reachable db0 →
  cell_value (PendingRevision (tok_project_id tok) (tok_reason tok)) db0 = Some (tok_revision tok) →
  rtc step db0 db1 →
  cell_value (PendingRevision (tok_project_id tok) (tok_reason tok)) db1 ≠ Some (tok_revision tok) →
  rtc step db1 db2 →
  (settle_reindex_requirement tok db2).1 = db2 ∧ (settle_reindex_requirement tok db2).2 ≠ Ok true.
Proof.
  intros Hr H0 H01 H1 H12.
  enough (Hne : (settle_reindex_requirement tok db2).2 ≠ Ok true) by (auto using settle_unchanged).
  intros Ht. destruct (settle_reindex_requirement tok db2) as [db' r] eqn:E; simpl in Ht; subst r.
  assert (Hinv : registry_inv db2).
  { apply (steps_sound _ _ H12), (steps_sound _ _ H01). by apply reachable_inv. }
  apply settle_true in E as [Hp E]; [| done].
  by apply (retired_revision db0 db1 db2 (PendingRevision (tok_project_id tok) (tok_reason tok))
              (tok_revision tok)).
Qed.

(** The revision sequence never moves back, every revision in use is at
    most the sequence, and a step puts only revisions above the old sequence
    into a head, an epoch or a pending reason. *)
Theorem revisions_are_allocated_once db db' :
  reachable db → step db db' →
  ∃ n n', last_revision db = Ok n ∧ last_revision db' = Ok n' ∧ n <= n' ∧
    ∀ c v, valid_cell c → cell_value c db' = Some v →
      (cell_value c db = Some v ∧ v <= n) ∨ (n < v ∧ v <= n').
Proof.
  intros Hr Hs. destruct (reachable_inv _ Hr) as [Hinv (n & Hn & Hb)].
  destruct (steps_sound _ _ (rtc_once _ _ Hs) Hinv) as [Hm _].
  destruct (Hm n db (fresh_refl _ _ Hn)) as (n' & Hn' & Hle & Hc). exists n, n'.
  split_and!; [done | done | done |]. intros c v Hv Hcv.
  destruct (Hc c v Hv Hcv) as [He|He]; [left | by right]. split; [done | by eapply Hb].
Qed.

End machine.
