(* ===== verification/HeadSpec.v ===== *)
(** What the source head promises: a captured token describes the head it was
    taken from, a publication succeeds exactly on that head and installs the
    next generation, a registration starts at generation zero. *)
From S2P Require Import Prelude Text Store Records Concrete Reindex SourceHead Registry.
From S2P Require Import Rules Revisions Lifecycle Machine.

Open Scope N_scope.

(** * Definitions *)

Section head_spec.
Context `{RE : !RegistryEnv}.

(** The stored head is exactly the one of the token. *)
Definition head_matches (base : SourceHeadToken) (db : DB) : Prop :=
  let p := ht_project_id base in
  (∃ project, get_decoded PROJECTS p db = Ok (Some project) ∧
     directory project = ht_directory base ∧ project_type project = ht_project_type base) ∧
  transpose head_revision (meta (revision_key p) db) = Ok (Some (ht_revision base)) ∧
  transpose head_revision (meta (flag_key p IDENTITY_EPOCH) db) = Ok (Some (ht_identity_epoch base)) ∧
  meta (flag_key p MANAGED) db = ht_managed base ∧
  meta (head_key p) db = ht_raw_head base.

(** The head that a publication of generation [g] leaves. *)
Definition published (p : string) (g : N) (db : DB) : Prop :=
  meta (head_key p) db = Some (show_u64 g) ∧ meta (flag_key p REQUIRED) db = Some "1" ∧
  meta (flag_key p MANAGED) db = Some "1" ∧ meta (flag_key p IDENTITY_VERIFIED) db = Some "1".

(** A transaction that allocates a revision or an epoch for [p]. *)
Definition alloc_rel (p : string) (db db' : DB) : Prop :=
  (∀ k, k ∈ [HEAD; REQUIRED; MANAGED; LEGACY_ATTESTED] →
        meta (project_key p k) db' = meta (project_key p k) db) ∧
  (∀ t k, t ≠ META → db' !! (t, k) = db !! (t, k)).

#[export] Instance alloc_rel_preorder p : PreOrder (alloc_rel p).
Proof.
  split; [by intros db |]. intros a b c [H1 P1] [H2 P2].
  split; [intros k Hk; rewrite H2 by done; by apply H1 | intros t k Ht; rewrite P2 by done; by apply P1].
Qed.

(** * Lemmas *)

Lemma same_registration_true base project :
  same_registration base project = true ↔
  ∃ rec, project = Some rec ∧ directory rec = ht_directory base ∧
         project_type rec = ht_project_type base.
Proof.
  unfold same_registration, ht_matches_source_identity. destruct project as [rec|]; [| naive_solver].
  rewrite andb_true_iff, !String.eqb_eq. naive_solver.
Qed.

Lemma same_head_true base rev (db : DB) :
  same_head base rev db = Ok true ↔
  transpose head_revision (meta (flag_key (ht_project_id base) IDENTITY_EPOCH) db)
    = Ok (Some (ht_identity_epoch base)) ∧
  rev = Some (ht_revision base) ∧
  meta (flag_key (ht_project_id base) MANAGED) db = ht_managed base ∧
  meta (head_key (ht_project_id base)) db = ht_raw_head base.
Proof.
  unfold same_head. rewrite result_bind_Ok. split.
  - intros (e & He & Hs). injection Hs as Hs. rewrite !andb_true_iff, !bool_decide_eq_true in Hs.
    destruct Hs as [[[-> ?] ?] ?]. done.
  - intros (He & H1 & H2 & H3). eexists. split; [done |]. by rewrite !bool_decide_true.
Qed.

Lemma head_matches_current base (db : DB) :
  source_head_is_current base db = Ok true ↔ head_matches base db.
Proof.
  unfold source_head_is_current, head_matches. rewrite result_bind_Ok. split.
  - intros (project & Hp & H). case_match eqn:Hreg; [| done].
    apply same_registration_true in Hreg as (rec & -> & Hd & Ht).
    apply result_bind_Ok in H as (rev & Hr & H). case_bool_decide as Hrev; [| done].
    apply same_head_true in H as (He & _ & Hm & Hh). subst rev. split_and!; eauto.
  - intros ((rec & Hp & Hd & Ht) & Hr & He & Hm & Hh). eexists. split; [done |].
    rewrite (proj2 (same_registration_true _ _)) by eauto.
    apply result_bind_Ok. eexists. split; [done |]. rewrite bool_decide_true by done.
    by apply same_head_true.
Qed.

(** An allocation succeeds until the sequence is exhausted. *)
Lemma advance_revision_eq p (db : DB) n prev epoch :
  last_revision db = Ok n →
  transpose head_revision (meta (revision_key p) db) = Ok prev →
  transpose head_revision (meta (flag_key p IDENTITY_EPOCH) db) = Ok epoch →
  N.max n (N.max (default 0 prev) (default 0 epoch)) < u64_max →
  ∃ v db', advance_revision p db = Ok (v, db').
Proof.
  intros Hn Hp He Hlt. unfold advance_revision, tx_meta, tx_set_meta.
  erewrite tx_bind_eq by (by apply tx_get_Ok). rewrite (tx_lift_bind_eq _ _ _ _ Hp).
  erewrite tx_bind_eq by (by apply tx_get_Ok). rewrite (tx_lift_bind_eq _ _ _ _ He).
  assert (Hnext : next_revision (N.max (default 0 prev) (default 0 epoch)) db =
    Ok (N.max n (N.max (default 0 prev) (default 0 epoch)) + 1,
        <[(META, REVISION_SEQUENCE) := u64_to_vec (N.max n (N.max (default 0 prev) (default 0 epoch)) + 1)]> db)).
  { apply next_revision_Ok. exists n. split_and!; [done | done | lia | done]. }
  erewrite tx_bind_eq by done. erewrite tx_bind_eq by (by apply tx_insert_Ok). by do 2 eexists.
Qed.

Lemma meta_set_ne p k1 k2 v (db : DB) :
  k1 ≠ k2 → meta (project_key p k1) (<[(META, project_key p k2) := v]> db) = meta (project_key p k1) db.
Proof.
  intros Hk. apply meta_insert_ne. intros [= He]. apply project_key_inj_r in He. by apply Hk.
Qed.

Lemma meta_set_eq k v (db : DB) : meta k (<[(META, k) := v]> db) = Some v.
Proof. unfold meta. by rewrite lookup_insert_eq. Qed.

(** The writes of a publication, after the revision was advanced. *)
Definition publish_rows (p : string) (g : N) (db : DB) : DB :=
  <[(META, head_key p) := show_u64 g]> (<[(META, flag_key p IDENTITY_VERIFIED) := "1"]>
    (<[(META, flag_key p MANAGED) := "1"]> (<[(META, flag_key p REQUIRED) := "1"]> db))).

Lemma publish_rows_published p g (db : DB) : published p g (publish_rows p g db).
Proof.
  unfold published, publish_rows, head_key, flag_key.
  rewrite !meta_set_eq, !(meta_set_ne p) by done. rewrite !meta_set_eq, !(meta_set_ne p) by done.
  rewrite !meta_set_eq, !(meta_set_ne p) by done. by rewrite !meta_set_eq.
Qed.

Lemma publish_rows_frame p g (db : DB) k :
  k ∉ [HEAD; REQUIRED; MANAGED; IDENTITY_VERIFIED] →
  meta (project_key p k) (publish_rows p g db) = meta (project_key p k) db.
Proof.
  intros Hk. unfold publish_rows, head_key, flag_key.
  rewrite !meta_set_ne; [done | set_solver ..].
Qed.

Lemma publish_rows_project p g (db : DB) j :
  j.1 ≠ META → publish_rows p g db !! j = db !! j.
Proof. intros Hj. unfold publish_rows. rewrite !lookup_insert_ne; [done | by intros <- ..]. Qed.

(** On the head of the token the publication advances the revision, marks the
    identity verified and installs the next generation. *)
Lemma publish_on_match base next (db d : DB) v :
  head_matches base db → ht_generation base < next →
  advance_revision (ht_project_id base) db = Ok (v, d) →
  publish_source_head base next db = (publish_rows (ht_project_id base) next d, Ok true).
Proof.
  intros ((rec & Hp & Hd & Ht) & Hr & He & Hm & Hh) Hlt Ha.
  unfold publish_source_head, write_tx, tx_project, tx_meta, tx_set_meta, mark_head_required.
  cbv zeta. erewrite tx_lift_bind_eq by (by apply ensure_Ok, N.ltb_lt).
  erewrite tx_bind_eq by (apply tx_get_decoded_Ok; split; [apply Hp | done]).
  rewrite (proj2 (same_registration_true _ _)) by eauto.
  erewrite tx_bind_eq by (by apply tx_get_Ok).
  erewrite tx_lift_bind_eq by exact Hr.
  erewrite tx_bind_eq by (by apply tx_read_Ok).
  erewrite tx_lift_bind_eq by (by apply same_head_true).
  cbv iota. by erewrite tx_bind_eq by exact Ha.
Qed.

(** The publication refuses every other head. *)
Lemma publish_true_matches base next (db db' : DB) :
  publish_source_head base next db = (db', Ok true) →
  head_matches base db ∧ ht_generation base < next ∧
  ∃ v d, advance_revision (ht_project_id base) db = Ok (v, d) ∧
         db' = publish_rows (ht_project_id base) next d.
Proof.
  intros H. apply write_tx_inv in H as [H|(_ & s1 & H)].
  all: apply tx_bind_Ok in H as ([] & s & [Hlt%ensure_Ok%N.ltb_lt ->]%lift_Ok & H).
  all: apply tx_bind_Ok in H as (project & s & [Hp ->]%tx_get_decoded_Ok & H).
  all: case_match eqn:Hreg; [| by apply tx_ret_Ok in H as [? _]].
  all: apply same_registration_true in Hreg as (rec & -> & Hd & Ht).
  all: apply tx_bind_Ok in H as (rev_row & s & [-> ->]%tx_get_Ok & H).
  all: apply tx_bind_Ok in H as (rev & s & [Hrev ->]%lift_Ok & H).
  all: apply tx_bind_Ok in H as (same & s & [-> ->]%tx_read_Ok & H).
  all: apply tx_bind_Ok in H as (same & s & [Hsame ->]%lift_Ok & H).
  all: destruct same; [| by apply tx_ret_Ok in H as [? _]].
  all: apply same_head_true in Hsame as (He & -> & Hm & Hh).
  all: apply tx_bind_Ok in H as (v & d & Ha & H).
  all: apply tx_bind_Ok in H as ([] & s2 & [_ ->]%tx_insert_Ok & H).
  all: apply tx_bind_Ok in H as ([] & s2 & [_ ->]%tx_insert_Ok & H).
  all: apply tx_bind_Ok in H as ([] & s2 & [_ ->]%tx_insert_Ok & H).
  all: apply tx_bind_Ok in H as ([] & s2 & [_ ->]%tx_insert_Ok & [Hc ->]%tx_ret_Ok).
  2: done.
  split_and!; [| done | by exists v, d]. unfold head_matches. split_and!; eauto.
Qed.

(** ** Reading a published head *)

Lemma published_generation p g (db : DB) :
  valid_component p = true → published p g db → 0 < g → g <= u64_max →
  source_generation_metadata p db = Ok (Some g).
Proof.
  intros Hp (Hh & Hr & Hm & Hv) H0 Hg. unfold source_generation_metadata.
  apply result_bind_Ok. exists tt. split; [by apply validate_key_component_Ok |].
  rewrite Hh, Hr, Hm. apply result_bind_Ok. exists (Some (show_u64 g)).
  split; [apply transpose_Ok; eauto using bounded_text_show |].
  apply result_bind_Ok. exists tt. split; [done |]. apply result_bind_Ok. exists tt. split; [done |].
  apply result_bind_Ok. exists tt. split; [done |].
  assert (Hgen : generation p (Some (show_u64 g)) = Ok g)
    by (unfold generation; by rewrite (parse_show_u64 g Hg)).
  apply result_bind_Ok. exists tt. split; [| by apply transpose_Ok; eauto].
  rewrite bool_decide_false by done. apply result_bind_Ok. eexists. split; [done |].
  apply ensure_Ok, negb_true_iff, N.eqb_neq. lia.
Qed.

Lemma published_requirement p g (db : DB) :
  valid_component p = true → published p g db → 0 < g → g <= u64_max →
  is_Some (db !! (PROJECTS, p)) →
  none_or_one (meta (flag_key p LEGACY_ATTESTED) db) = true →
  source_snapshot_requirement p db = Ok (g, Managed).
Proof.
  intros Hp (Hh & Hr & Hm & Hv) H0 Hg Hreg Hl. unfold source_snapshot_requirement.
  apply result_bind_Ok. exists tt. split; [by apply validate_key_component_Ok |].
  apply result_bind_Ok. exists tt. split; [by apply ensure_Ok, bool_decide_eq_true |].
  rewrite Hh, Hr, Hm. apply result_bind_Ok. exists (Some (show_u64 g)).
  split; [apply transpose_Ok; eauto using bounded_text_show |].
  apply result_bind_Ok. exists tt. split; [done |]. apply result_bind_Ok. exists tt. split; [done |].
  apply result_bind_Ok. exists tt. split; [done |].
  apply result_bind_Ok. exists tt. split; [by apply ensure_Ok |].
  assert (Hgen : generation p (Some (show_u64 g)) = Ok g)
    by (unfold generation; by rewrite (parse_show_u64 g Hg)).
  apply result_bind_Ok. eexists. split; [done |].
  apply result_bind_Ok. exists tt. split; [| done].
  apply ensure_Ok, orb_true_iff. right. apply negb_true_iff, N.eqb_neq. lia.
Qed.

(** ** Capturing a head *)

Lemma alloc_rel_advance p : preserves (alloc_rel p) (advance_revision p).
Proof.
  intros db v db' (_ & _ & F & _)%advance_revision_spec. split.
  - intros k Hk. unfold meta. apply F; intros [= He].
    + revert He. apply project_key_not_sequence_suffix; set_solver.
    + apply project_key_inj_r in He. set_solver.
  - intros t k Ht. apply F; congruence.
Qed.

Lemma alloc_rel_mark p : preserves (alloc_rel p) (mark_identity_unverified p).
Proof.
  assert (Hs : ∀ s v, s ∉ [HEAD; REQUIRED; MANAGED; LEGACY_ATTESTED] →
    preserves (alloc_rel p) (tx_set_meta (project_key p s) v)).
  { intros s v Hs. apply (preserves_insert _). intros db. split.
    - intros k Hk. apply meta_set_ne. set_solver.
    - intros t k Ht. rewrite lookup_insert_ne; congruence. }
  unfold mark_identity_unverified. apply (preserves_bind _); [apply alloc_rel_advance | intros e].
  apply (preserves_bind _); [apply Hs; set_solver | intros _].
  apply (preserves_bind _); [apply Hs; set_solver | intros _]. apply (preserves_ret _).
Qed.

Lemma bounded_text_Ok b s : bounded_text b = Ok s → s = b.
Proof.
  intros H. unfold bounded_text in H. apply result_bind_Ok in H as (_ & _ & H).
  by apply from_utf8_Ok in H as [_ ->].
Qed.

Lemma transpose_bounded_text o r : transpose bounded_text o = Ok r → r = o.
Proof.
  intros H. apply transpose_Ok in H. destruct o as [b|]; [| done].
  destruct H as (s & Hs & ->). by apply bounded_text_Ok in Hs as ->.
Qed.

Lemma transpose_validated o r :
  transpose (λ v, _ ← validate_managed (Some v); Ok v) o = Ok r → r = o.
Proof.
  intros H. apply transpose_Ok in H. destruct o as [b|]; [| done].
  destruct H as (s & Hs & ->). by apply result_bind_Ok in Hs as (_ & _ & [= ->]).
Qed.

Lemma head_cell_decoded p (db : DB) v :
  cell_value (HeadRevision p) db = Some v →
  transpose head_revision (meta (revision_key p) db) = Ok (Some v).
Proof.
  unfold cell_value, cell_key. simpl. fold (revision_key p).
  destruct (meta (revision_key p) db) as [b|]; simpl; [| done].
  destruct (head_revision b); simpl; [by intros [= ->] | done].
Qed.
Lemma epoch_cell_decoded p (db : DB) v :
  cell_value (IdentityEpoch p) db = Some v →
  transpose head_revision (meta (flag_key p IDENTITY_EPOCH) db) = Ok (Some v).
Proof.
  unfold cell_value, cell_key. simpl. fold (flag_key p IDENTITY_EPOCH).
  destruct (meta (flag_key p IDENTITY_EPOCH) db) as [b|]; simpl; [| done].
  destruct (head_revision b); simpl; [by intros [= ->] | done].
Qed.

Lemma capture_read_matches p (db : DB) tk :
  capture_read p db = Ok (Some tk) →
  ht_project_id tk = p ∧ head_matches tk db ∧ generation p (ht_raw_head tk) = Ok (ht_generation tk).
Proof.
  intros H. apply result_bind_Ok in H as (row & Hrow & H).
  apply result_bind_Ok in H as (project & Hp%ok_or_Ok & H).
  apply result_bind_Ok in H as (checks & Hc & H).
  apply result_bind_Ok in H as (epoch & He & H). apply result_bind_Ok in H as (rev & Hr & H).
  destruct rev as [r|]; [| done]. destruct epoch as [e|]; [| done]. injection H as <-. subst row.
  unfold capture_checks in Hc. apply result_bind_Ok in Hc as (raw & Hraw & Hc).
  apply result_bind_Ok in Hc as (g & Hg & Hc). apply result_bind_Ok in Hc as (_ & _ & Hc).
  apply result_bind_Ok in Hc as (m & Hm & Hc). do 2 apply result_bind_Ok in Hc as (_ & _ & Hc).
  injection Hc as <-. apply transpose_bounded_text in Hraw as ->.
  apply transpose_validated in Hm as ->.
  split_and!; [done | | done]. unfold head_matches; simpl. split_and!; eauto.
Qed.

Lemma capture_write_matches p (db db' : DB) tk :
  capture_write p db = (db', Ok tk) →
  ht_project_id tk = p ∧ head_matches tk db' ∧ alloc_rel p db db' ∧
  generation p (ht_raw_head tk) = Ok (ht_generation tk).
Proof.
  intros H. apply write_tx_inv in H as [H|(_ & s1 & H)].
  all: apply tx_bind_Ok in H as (row & s & [Hrow ->]%tx_get_decoded_Ok & H).
  all: apply tx_bind_Ok in H as (project & s & [->%ok_or_Ok ->]%lift_Ok & H).
  all: apply tx_bind_Ok in H as (raw_row & s & [-> ->]%tx_get_Ok & H).
  all: apply tx_bind_Ok in H as (raw & s & [Hraw ->]%lift_Ok & H).
  all: apply tx_bind_Ok in H as (req & s & [-> ->]%tx_get_Ok & H).
  all: apply tx_bind_Ok in H as ([] & s & [_ ->]%lift_Ok & H).
  all: apply tx_bind_Ok in H as (m_row & s & [-> ->]%tx_get_Ok & H).
  all: apply tx_bind_Ok in H as (m & s & [Hm ->]%lift_Ok & H).
  all: apply tx_bind_Ok in H as ([] & s & [_ ->]%lift_Ok & H).
  all: apply tx_bind_Ok in H as (rev_row & s & [-> ->]%tx_get_Ok & H).
  all: apply tx_bind_Ok in H as (orev & s & [Hrev ->]%lift_Ok & H).
  all: apply tx_bind_Ok in H as (e_row & s & [-> ->]%tx_get_Ok & H).
  all: apply tx_bind_Ok in H as (oepoch & s & [Hep ->]%lift_Ok & H).
  all: apply tx_bind_Ok in H as (g & s & [Hg ->]%lift_Ok & H).
  all: apply tx_bind_Ok in H as ([] & s & [_ ->]%lift_Ok & H).
  all: apply tx_bind_Ok in H as (rev & d1 & H1 & H).
  all: apply tx_bind_Ok in H as (re & d2 & H2 & [Hc ->]%tx_ret_Ok).
  2: done.
  injection Hc as ->. apply transpose_bounded_text in Hraw as ->.
  apply transpose_validated in Hm as ->.
  assert (A1 : alloc_rel p db d1 ∧ cell_value (HeadRevision p) d1 = Some rev ∧
    cell_value (IdentityEpoch p) d1 = cell_value (IdentityEpoch p) db).
  { destruct orev as [r|].
    - apply tx_ret_Ok in H1 as [-> ->]. split_and!; [done | by apply head_cell_transpose | done].
    - pose proof (alloc_rel_advance _ _ _ _ H1). apply advance_revision_spec in H1. tauto. }
  destruct A1 as (A1 & Hrev1 & Hep1).
  assert (A2 : alloc_rel p d1 d2 ∧ cell_value (HeadRevision p) d2 = Some re.1 ∧
    cell_value (IdentityEpoch p) d2 = Some re.2).
  { destruct oepoch as [e|].
    - apply tx_ret_Ok in H2 as [-> ->]. split_and!; [done | done |]. rewrite Hep1.
      by apply epoch_cell_transpose.
    - apply tx_bind_Ok in H2 as (e & s & H2 & [-> ->]%tx_ret_Ok).
      pose proof (alloc_rel_mark _ _ _ _ H2). apply mark_identity_unverified_spec in H2. tauto. }
  destruct A2 as (A2 & Hrev2 & Hep2). assert (A : alloc_rel p db d2) by (by etrans).
  destruct A as [AM AP]. unfold head_matches; simpl. split_and!; [done | | | | | | done | done].
  - exists project. split_and!; [| done | done]. unfold get_decoded. rewrite AP by done. exact Hrow.
  - by apply head_cell_decoded.
  - by apply epoch_cell_decoded.
  - apply (AM MANAGED). set_solver.
  - apply (AM HEAD). set_solver.
Qed.

End head_spec.

(** * Theorems *)

Section head_theorems.
Context `{RU : !RulesEnv}.

Lemma capture_matches p (db db' : DB) tk :
  capture_source_head p db = (db', Ok tk) →
  valid_component p = true ∧ ht_project_id tk = p ∧ head_matches tk db' ∧
  generation p (ht_raw_head tk) = Ok (ht_generation tk).
Proof.
  unfold capture_source_head. destruct (_ ← vk "project_id" p; capture_read p db) as [o|] eqn:E;
    [| done].
  assert (Hp : valid_component p = true).
  { apply result_bind_Ok in E as ([] & Hp & _). by apply validate_key_component_Ok in Hp. }
  destruct o as [tk'|].
  - intros [= <- <-]. apply result_bind_Ok in E as (_ & _ & E). split; [done |].
    by apply capture_read_matches.
  - intros H%capture_write_matches. tauto.
Qed.

Lemma reachable_capture p (db : DB) : reachable db → reachable (capture_source_head p db).1.
Proof.
  intros Hr. eapply rtc_r; [exact Hr |].
  by apply (step_run (CaptureHead p)).
Qed.

(** What a publication on the current head leaves. *)
Lemma publish_effect tk (db d : DB) next v :
  head_matches tk db → ht_generation tk < next → next <= u64_max →
  valid_component (ht_project_id tk) = true →
  advance_revision (ht_project_id tk) db = Ok (v, d) →
  let db' := publish_rows (ht_project_id tk) next d in
  active_source_generation (ht_project_id tk) db' = Ok next ∧
  source_identity_needs_verification (ht_project_id tk) db' = Ok false ∧
  ¬ head_matches tk db'.
Proof.
  intros Hm Hlt Hmax Hp Ha db'. set (p := ht_project_id tk) in *.
  destruct Hm as (_ & Hr & He & _). fold p in Hr, He.
  pose proof (publish_rows_published p next d) as Hpub. fold db' in Hpub.
  pose proof Ha as (d1 & prev & epoch & Hn & Hprev & _ & _)%advance_revision_Ok.
  apply head_cell_transpose in Hr. rewrite Hr in Hprev. subst prev. simpl in Hn.
  apply next_revision_range in Hn as [Hfloor _].
  apply advance_revision_spec in Ha as (_ & _ & F & Hh & _).
  assert (Hrev : transpose head_revision (meta (revision_key p) db') = Ok (Some v)).
  { unfold db', revision_key. rewrite publish_rows_frame by set_solver. by apply head_cell_decoded. }
  assert (Hep : transpose head_revision (meta (flag_key p IDENTITY_EPOCH) db')
    = Ok (Some (ht_identity_epoch tk))).
  { unfold db', flag_key. rewrite publish_rows_frame by set_solver.
    unfold meta. rewrite F; [exact He | |].
    - intros [= Hs]. by apply (reserved_not_sequence p IDENTITY_EPOCH) in Hs; [| set_solver].
    - by apply (cell_key_ne (IdentityEpoch p) (HeadRevision p)). }
  split_and!.
  - apply result_bind_Ok. exists (Some next). split; [apply published_generation; done || lia | done].
  - unfold source_identity_needs_verification, source_stat_cache_state.
    apply result_bind_Ok. exists (false, Some (ht_identity_epoch tk)). split; [| done].
    apply result_bind_Ok. exists tt. split; [by apply validate_key_component_Ok |].
    apply result_bind_Ok. eexists. split; [exact Hep |].
    destruct Hpub as (_ & _ & _ & ->). done.
  - intros (_ & Hr' & _). fold p in Hr'. rewrite Hrev in Hr'. injection Hr' as ->. lia.
Qed.

(** A publication from a head captured without interference succeeds: the
    active generation is then the published one, the source identity is
    verified, and the token of the capture is no longer current. *)
Theorem captured_head_publishes p db db1 tk n next :
  reachable db → capture_source_head p db = (db1, Ok tk) →
  last_revision db1 = Ok n → n < u64_max →
  ht_generation tk < next → next <= u64_max →
  ∃ db2, publish_source_head tk next db1 = (db2, Ok true) ∧
    active_source_generation p db2 = Ok next ∧
    source_identity_needs_verification p db2 = Ok false ∧
    source_head_is_current tk db2 ≠ Ok true.
Proof.
  intros Hr Hcap Hn Hlt Hnext Hmax. pose proof (reachable_capture p db Hr) as Hr1.
  rewrite Hcap in Hr1. simpl in Hr1. apply capture_matches in Hcap as (Hp & Hid & Hm & _).
  destruct (reachable_inv _ Hr1) as [_ (n' & Hn' & Hb)]. rewrite Hn in Hn'. injection Hn' as <-.
  pose proof Hm as (_ & Hrev & Hep & _). rewrite Hid in Hrev, Hep.
  pose proof (Hb (HeadRevision p) _ Hp (head_cell_transpose _ _ _ Hrev)).
  pose proof (Hb (IdentityEpoch p) _ Hp (epoch_cell_transpose _ _ _ Hep)).
  destruct (advance_revision_eq p db1 _ _ _ Hn Hrev Hep) as (v & d & Ha); [simpl; lia |].
  rewrite <-Hid in Ha, Hp |- *. eexists. split; [by eapply publish_on_match |].
  destruct (publish_effect tk db1 d next v Hm Hnext Hmax Hp Ha) as (H1 & H2 & H3).
  split_and!; [done | done |]. by rewrite head_matches_current.
Qed.

(** A publication succeeds only on the exact head of its token (same
    registration, revision, identity epoch, managed flag and raw value) and
    with a later generation; it then makes that generation the active one. *)
Theorem publish_only_on_captured_head base next db db' :
  valid_component (ht_project_id base) = true → next <= u64_max →
  publish_source_head base next db = (db', Ok true) →
  head_matches base db ∧ ht_generation base < next ∧
  active_source_generation (ht_project_id base) db' = Ok next ∧ ¬ head_matches base db'.
Proof.
  intros Hp Hmax (Hm & Hlt & v & d & Ha & ->)%publish_true_matches.
  destruct (publish_effect base db d next v Hm Hlt Hmax Hp Ha) as (H1 & _ & H3). done.
Qed.

End head_theorems.

(** ** Registration and recovery *)

Section recovery_theorems.
Context `{RU : !RulesEnv}.

Lemma recovery_metadata_frame p (db db' : DB) md seq g :
  recovery_metadata p db = Ok (md, seq) →
  (∀ k, meta (project_key p k) db' = meta (project_key p k) db) →
  meta REVISION_SEQUENCE db' = Some (u64_to_vec g) → seq <= g → g <= u64_max →
  recovery_metadata p db' = Ok (md, g).
Proof.
  intros H Hk Hs Hle Hg. unfold recovery_metadata, head_key, flag_key, revision_key in *.
  rewrite !Hk, Hs.
  do 16 (apply result_bind_Ok in H as (? & ? & H); apply result_bind_Ok; eexists;
         split; [eassumption |]).
  apply result_bind_Ok in H as (srow & _ & H). apply result_bind_Ok in H as (sraw & _ & H).
  apply result_bind_Ok in H as (s & _ & H). apply result_bind_Ok in H as ([] & Hb & H).
  apply ensure_Ok, N.leb_le in Hb. injection H as <- <-.
  apply result_bind_Ok. exists (Some (u64_to_vec g)). split.
  { apply transpose_Ok. exists (u64_to_vec g). split; [| done].
    apply result_bind_Ok. exists tt. split; [| done].
    apply ensure_Ok, N.leb_le. rewrite u64_to_vec_text. apply slen_show_u64. }
  apply result_bind_Ok. eexists. split; [done |].
  apply result_bind_Ok. exists g. split; [by apply u64_round_trip |].
  apply result_bind_Ok. exists tt. split; [apply ensure_Ok, N.leb_le; lia | done].
Qed.

Lemma recovery_metadata_sequence p (db : DB) md seq :
  recovery_metadata p db = Ok (md, seq) → last_revision db = Ok seq ∧
  transpose head_revision (meta (revision_key p) db) = Ok (Some (rm_revision md)) ∧
  transpose head_revision (meta (flag_key p IDENTITY_EPOCH) db) = Ok (Some (rm_identity_epoch md)) ∧
  rm_raw_head md = meta (head_key p) db ∧ N.max (rm_revision md) (rm_identity_epoch md) <= seq.
Proof.
  assert (Hl : ∀ row n o, read_limited row n = Ok o → o = row).
  { intros row n o Ho. apply transpose_Ok in Ho. destruct row as [b|]; [| done].
    destruct Ho as (b' & Hb & ->). by apply result_bind_Ok in Hb as (_ & _ & [= ->]). }
  unfold recovery_metadata. intros H.
  apply result_bind_Ok in H as (raw & Hraw%Hl & H).
  do 8 apply result_bind_Ok in H as (? & _ & H).
  apply result_bind_Ok in H as (rr & Hrr%Hl & H). apply result_bind_Ok in H as (rrow & ->%ok_or_Ok & H).
  apply result_bind_Ok in H as (rev & Hrev & H).
  apply result_bind_Ok in H as (er & Her%Hl & H). apply result_bind_Ok in H as (erow & ->%ok_or_Ok & H).
  apply result_bind_Ok in H as (epoch & Hep & H). apply result_bind_Ok in H as (_ & _ & H).
  apply result_bind_Ok in H as (sr & Hsr%Hl & H). apply result_bind_Ok in H as (srow & ->%ok_or_Ok & H).
  apply result_bind_Ok in H as (s & Hs & H). apply result_bind_Ok in H as ([] & Hb & H).
  apply ensure_Ok, N.leb_le in Hb. injection H as <- <-. simpl.
  split_and!; [| | | done | done].
  - unfold last_revision. rewrite <-Hsr. apply result_bind_Ok. exists (Some s). split; [| done].
    apply transpose_Ok. eauto.
  - rewrite <-Hrr. apply transpose_Ok. eauto.
  - rewrite <-Her. apply transpose_Ok. eauto.
Qed.

Lemma recovery_matches_Some base (db : DB) seq :
  recovery_matches base db = Ok (Some seq) ↔
  ∃ project, get_decoded PROJECTS (rt_project_id base) db = Ok (Some project) ∧
    rt_matches_source_identity base (directory project) (project_type project) = true ∧
    recovery_metadata (rt_project_id base) db = Ok (rt_metadata base, seq).
Proof.
  unfold recovery_matches. rewrite result_bind_Ok. split.
  - intros (o & Hp & H). destruct o as [project|]; [| done]. exists project.
    destruct (rt_matches_source_identity _ _ _); [| done].
    apply result_bind_Ok in H as ([md s] & Hm & H). simpl in H.
    case_decide as Hd; [| done]. injection H as <-. by rewrite <-Hd.
  - intros (project & Hp & Hi & Hm). exists (Some project). split; [done |]. rewrite Hi.
    apply result_bind_Ok. eexists. split; [exact Hm |]. simpl. by rewrite decide_True.
Qed.

(** A recovery reservation is above the revision sequence, the floor the
    caller observed and the damaged head, and while nothing intervenes its
    publication succeeds and makes the reserved generation the active one. *)
Theorem reserved_recovery_publishes base floor db db1 r :
  valid_component (rt_project_id base) = true →
  reserve_source_recovery base floor db = (db1, Ok (Some r)) →
  (∀ n, last_revision db = Ok n → n < rr_generation r) ∧ floor < rr_generation r ∧
  numeric_head (rm_raw_head (rt_metadata base)) < rr_generation r ∧
  ∃ db2, publish_source_recovery r db1 = (db2, Ok true) ∧
    active_source_generation (rt_project_id base) db2 = Ok (rr_generation r).
Proof.
  intros Hp H. set (p := rt_project_id base) in *.
  apply write_tx_inv in H as [H|(_ & s1 & H)].
  all: apply tx_bind_Ok in H as (m & s & [-> ->]%tx_read_Ok & H).
  all: apply tx_bind_Ok in H as (m & s & [Hm ->]%lift_Ok & H).
  all: destruct m as [seq|]; [| by apply tx_ret_Ok in H as [? _]].
  all: apply tx_bind_Ok in H as ([] & s & [Hfl%ensure_Ok%N.ltb_lt ->]%lift_Ok & H).
  all: apply tx_bind_Ok in H as (g & d & Hg & [Hc ->]%tx_ret_Ok).
  2: done.
  injection Hc as ->. cbn [rr_generation].
  pose proof Hm as (project & Hpr & Hid & Hmd)%recovery_matches_Some. fold p in Hpr, Hmd.
  pose proof Hmd as (Hlast & Hrev & Hep & _ & Hle)%recovery_metadata_sequence.
  pose proof Hg as (n & Hn & Hgv & Hgm & Hd)%next_revision_Ok.
  rewrite Hlast in Hn. injection Hn as <-. subst d.
  split_and!; [intros n Hn; rewrite Hlast in Hn; injection Hn as <-; lia | lia | lia |].
  set (d := <[(META, REVISION_SEQUENCE) := u64_to_vec g]> db) in *.
  assert (Hk : ∀ k, meta (project_key p k) d = meta (project_key p k) db).
  { intros k. apply meta_insert_ne. intros [= He]. symmetry in He.
    by apply project_key_not_sequence in He. }
  assert (Hm' : recovery_matches base d = Ok (Some g)).
  { apply recovery_matches_Some. exists project. split_and!; [| done |].
    - unfold get_decoded. unfold d. rewrite lookup_insert_ne; done.
    - eapply recovery_metadata_frame; [done | exact Hk | apply meta_set_eq | lia | done]. }
  pose proof Hm' as (? & _ & _ & Hmd')%recovery_matches_Some.
  apply recovery_metadata_sequence in Hmd' as (Hlast' & Hrev' & Hep' & _).
  destruct (advance_revision_eq p d g _ _ Hlast' Hrev' Hep') as (v & d2 & Ha); [simpl; lia |].
  exists (publish_rows p g d2). split.
  - unfold publish_source_recovery, write_tx. cbn [rr_base rr_generation]. cbv zeta. fold p.
    erewrite tx_bind_eq by (apply tx_read_Ok; split; reflexivity).
    erewrite tx_lift_bind_eq by exact Hm'. cbv iota.
    erewrite tx_lift_bind_eq by (by apply ensure_Ok, N.leb_le).
    by erewrite tx_bind_eq by exact Ha.
  - apply result_bind_Ok. exists (Some g). split; [| done].
    apply published_generation; [done | apply publish_rows_published | lia | done].
Qed.

End recovery_theorems.
