(* ===== verification/ReindexSpec.v ===== *)
(** What the recovery requirements promise: the project row shows the oldest
    pending reason, a token settles its own reason only, and a requirement
    stays pending until its own token (or a dismissal) removes it. *)
From S2P Require Import Prelude Text Store Records Concrete Reindex SourceHead Registry.
From S2P Require Import Rules Revisions Lifecycle Machine.

Open Scope N_scope.

(** * Lemmas *)

(** ** The oldest pending reason *)

Lemma foldl_min_spec x l :
  foldl N.min x l ∈ x :: l ∧ ∀ y, y ∈ x :: l → foldl N.min x l <= y.
Proof.
  revert x. induction l as [|z l IH]; intros x; simpl.
  - split; [set_solver |]. intros y [->|Hy]%elem_of_cons; [lia | by apply elem_of_nil in Hy].
  - destruct (IH (N.min x z)) as [Hin Hle]. split.
    + apply elem_of_cons in Hin as [->|Hin]; [| set_solver].
      destruct (N.min_spec x z) as [[_ ->]|[_ ->]]; set_solver.
    + intros y Hy. assert (Hmin := Hle (N.min x z) ltac:(set_solver)).
      apply elem_of_cons in Hy as [->|Hy]; [lia |].
      apply elem_of_cons in Hy as [->|Hy]; [lia | apply Hle; set_solver].
Qed.

Lemma elem_of_pending_values r s :
  s ∈ since_ms <$> pending_values r ↔ ∃ reason q, pending r !! reason = Some q ∧ since_ms q = s.
Proof.
  rewrite list_elem_of_fmap. unfold pending_values. setoid_rewrite list_elem_of_omap. split.
  - intros (q & -> & reason & _ & Hq). eauto.
  - intros (reason & q & Hq & <-). exists q. split; [done |]. exists reason.
    split; [| done]. destruct reason; unfold reasons; set_solver.
Qed.

Lemma requirements_since_spec r s :
  requirements_since_ms r = Some s ↔
  (∃ reason q, pending r !! reason = Some q ∧ since_ms q = s) ∧
  ∀ reason q, pending r !! reason = Some q → s <= since_ms q.
Proof.
  unfold requirements_since_ms. setoid_rewrite <-elem_of_pending_values.
  assert (Hall : ∀ t, (∀ reason q, pending r !! reason = Some q → t <= since_ms q) ↔
    ∀ y, y ∈ since_ms <$> pending_values r → t <= y).
  { intros t. setoid_rewrite elem_of_pending_values. split; [naive_solver |].
    intros H reason q Hq. apply H. eauto. }
  rewrite Hall. destruct (since_ms <$> pending_values r) as [|x l].
  - split; [done |]. intros [Hin _]. by apply elem_of_nil in Hin.
  - destruct (foldl_min_spec x l) as [Hin Hle]. split; [intros [= <-]; done |].
    intros [Hs Hmin]. f_equal. apply N.le_antisymm; [by apply Hle | by apply Hmin].
Qed.

(** ** Settlement *)

Section reindex_spec.
Context `{RE : !RegistryEnv}.

Lemma settle_true_spec tok (db db' : DB) :
  settle_reindex_requirement tok db = (db', Ok true) →
  ∃ rec stored, valid_component (tok_project_id tok) = true ∧
    get_decoded PROJECTS (tok_project_id tok) db = Ok (Some rec) ∧
    get_decoded META (key (tok_project_id tok)) db = Ok stored ∧
    token (stored_or_legacy stored rec) (tok_project_id tok) (tok_reason tok) = Some tok ∧
    ∃ u, write_requirements rec
      {| revision := revision (stored_or_legacy stored rec);
         pending := delete (tok_reason tok) (pending (stored_or_legacy stored rec)) |} db = Ok (u, db').
Proof.
  intros H. apply write_tx_inv in H as [H|(_ & s1 & H)].
  all: apply tx_bind_Ok in H as ([] & s & [Hp ->]%lift_Ok & H).
  all: apply tx_bind_Ok in H as (project & s & [Hst ->]%tx_get_decoded_Ok & H).
  all: destruct project as [rec|]; [| by apply tx_ret_Ok in H as [? _]].
  all: apply tx_bind_Ok in H as (stored & s & [Hk ->]%tx_get_decoded_Ok & H).
  all: cbv zeta in H; case_decide; [| by apply tx_ret_Ok in H as [? _]].
  all: apply tx_bind_Ok in H as (u & d & Hw & [Hc ->]%tx_ret_Ok).
  2: done.
  exists rec, stored. apply validate_key_component_Ok in Hp. eauto 10.
Qed.

Lemma write_requirements_Ok project r (d d' : DB) u :
  write_requirements project r d = Ok (u, d') ↔
  d' = <[(PROJECTS, project_id project) := to_vec (set_since project (requirements_since_ms r))]>
         (<[(META, key (project_id project)) := to_vec r]> d).
Proof.
  unfold write_requirements. rewrite tx_bind_Ok. setoid_rewrite tx_insert_Ok. destruct u. naive_solver.
Qed.

(** Reading the token of a reason back. *)
Lemma requirement_token_written p project r reason (d : DB) :
  valid_component p = true → project_id project = p →
  reindex_requirement_token p reason
    (<[(PROJECTS, p) := to_vec project]> (<[(META, key p) := to_vec r]> d)) = Ok (token r p reason).
Proof.
  intros Hp Hid. unfold reindex_requirement_token.
  apply result_bind_Ok. exists tt. split; [by apply validate_key_component_Ok |].
  apply result_bind_Ok. exists (Some project). split; [apply get_decoded_insert_eq |].
  apply result_bind_Ok. exists (Some r). split; [| done].
  rewrite get_decoded_insert_ne by done. apply get_decoded_insert_eq.
Qed.

(** A recorded requirement: the rows it leaves, and the token of its reason. *)
Lemma record_true_spec p reason since only (db db' : DB) tok :
  registry_inv db →
  record_reindex_requirement p reason since only db = (db', Ok (Some (tok, true))) →
  valid_component p = true ∧
  ∃ project r s q d, project_id project = p ∧
    token r p reason = Some tok ∧ pending r !! reason = Some q ∧ since_ms q <= since ∧
    tok_project_id tok = p ∧ tok_reason tok = reason ∧
    db' = <[(PROJECTS, p) := to_vec (set_since (touch project s) (requirements_since_ms r))]>
            (<[(META, key p) := to_vec r]> d).
Proof.
  intros Hinv H. apply write_tx_inv in H as [H|(_ & s1 & H)].
  all: apply tx_bind_Ok in H as ([] & s & [Hp ->]%lift_Ok & H).
  all: apply tx_bind_Ok in H as (stored & s & [Hst ->]%tx_get_decoded_Ok & H).
  all: destruct stored as [project|]; [| by apply tx_ret_Ok in H as [? _]].
  all: apply tx_bind_Ok in H as (imported & d0 & Hi & H).
  all: cbv zeta in H; set (r0 := default default_requirements imported) in *.
  all: destruct (if only then _ else None); [by apply tx_ret_Ok in H as [? _] |].
  all: apply tx_bind_Ok in H as (rev & d1 & Hn & H).
  all: apply tx_bind_Ok in H as (u & d2 & Hw & [Hc ->]%tx_ret_Ok).
  2: done.
  apply validate_key_component_Ok in Hp. split; [done |].
  destruct (stored_project _ _ _ Hinv Hp Hst) as (Hid & _).
  apply write_requirements_Ok in Hw. cbn [project_id touch] in Hw. rewrite Hid in Hw.
  set (s' := match pending r0 !! reason with Some q => N.min (since_ms q) since | None => since end)
    in *.
  assert (Hs' : s' <= since) by (unfold s'; destruct (pending r0 !! reason); lia).
  set (q' := {| since_ms := s'; req_revision := rev |}) in *.
  set (r' := {| revision := rev; pending := <[reason := q']> (pending r0) |}) in *.
  assert (Hq : pending r' !! reason = Some q') by apply lookup_insert_eq.
  exists project, r', s', q', d1. unfold token in *. rewrite Hq in *.
  injection Hc as ->. by split_and!.
Qed.

(** A requirement that is not optional is always newly recorded. *)
Lemma record_flag p reason since (db db' : DB) tok :
  record_reindex_requirement p reason since false db ≠ (db', Ok (Some (tok, false))).
Proof.
  intros H. apply write_tx_inv in H as [H|(_ & s1 & H)].
  all: apply tx_bind_Ok in H as ([] & s & [_ ->]%lift_Ok & H).
  all: apply tx_bind_Ok in H as (stored & s & [_ ->]%tx_get_decoded_Ok & H).
  all: destruct stored as [project|]; [| by apply tx_ret_Ok in H as [? _]].
  all: apply tx_bind_Ok in H as (imported & d0 & _ & H); cbv zeta in H.
  all: apply tx_bind_Ok in H as (rev & d1 & _ & H).
  all: apply tx_bind_Ok in H as (u & d2 & _ & [Hc _]%tx_ret_Ok).
  2: done.
  injection Hc as Hc. by destruct (token _ _ _).
Qed.

Lemma settle_current_token tok project r (d : DB) :
  valid_component (tok_project_id tok) = true → project_id project = tok_project_id tok →
  token r (tok_project_id tok) (tok_reason tok) = Some tok →
  (settle_reindex_requirement tok
     (<[(PROJECTS, tok_project_id tok) := to_vec project]>
        (<[(META, key (tok_project_id tok)) := to_vec r]> d))).2 = Ok true.
Proof.
  intros Hp Hid Htok. set (p := tok_project_id tok) in *.
  unfold settle_reindex_requirement, write_tx, tx_project, read_requirements. cbv zeta. fold p.
  erewrite tx_lift_bind_eq by (by apply validate_key_component_Ok).
  erewrite tx_bind_eq.
  2:{ apply tx_get_decoded_Ok. split; [apply get_decoded_insert_eq | done]. }
  cbv iota. erewrite tx_bind_eq.
  2:{ apply tx_get_decoded_Ok. split; [| done]. rewrite get_decoded_insert_ne by done.
      apply get_decoded_insert_eq. }
  unfold stored_or_legacy. cbn [default from_option]. rewrite decide_True by done.
  by erewrite tx_bind_eq by (by apply (write_requirements_Ok _ _ _ _ tt)).
Qed.

End reindex_spec.

(** * Theorems *)

Section reindex_theorems.
Context `{RU : !RulesEnv}.

(** In every reachable database a registered project shows exactly the
    oldest time of its pending recovery reasons, and no time when none is
    pending. *)
Theorem project_shows_oldest_reason p db rec :
  reachable db → get_project p db = Ok (Some rec) →
  ∃ stored, get_decoded META (key p) db = Ok stored ∧
    ∀ s, reindex_required_since_ms rec = Some s ↔
      (∃ reason q, pending (default default_requirements stored) !! reason = Some q ∧ since_ms q = s) ∧
      ∀ reason q, pending (default default_requirements stored) !! reason = Some q → s <= since_ms q.
Proof.
  intros Hr Hg. apply result_bind_Ok in Hg as ([] & Hp & Hg). apply validate_key_component_Ok in Hp.
  destruct (reachable_inv _ Hr) as [Hinv _].
  destruct (stored_project _ _ _ Hinv Hp Hg) as (_ & _ & _ & Hn & Hs).
  unfold get_decoded, requirements_are in *. fold (meta (key p) db).
  destruct (meta (key p) db) as [raw|].
  - destruct (Hs raw eq_refl) as (r & Hraw & ->). exists (Some r). simpl. rewrite Hraw.
    split; [done |]. intros s. apply requirements_since_spec.
  - exists None. split; [done |]. intros s. rewrite (Hn eq_refl). simpl. split; [done |].
    intros [(reason & q & Hq & _) _]. by rewrite lookup_empty in Hq.
Qed.

(** A settlement that succeeds removes its own reason and keeps the token
    of every other reason, so repairing one subsystem never settles the
    failure of another. *)
Theorem settle_keeps_other_reasons tok db db' reason :
  reachable db → settle_reindex_requirement tok db = (db', Ok true) →
  reindex_requirement_token (tok_project_id tok) (tok_reason tok) db = Ok (Some tok) ∧
  reindex_requirement_token (tok_project_id tok) (tok_reason tok) db' = Ok None ∧
  (reason ≠ tok_reason tok →
   reindex_requirement_token (tok_project_id tok) reason db' =
   reindex_requirement_token (tok_project_id tok) reason db).
Proof.
  intros Hr (rec & stored & Hp & Hst & Hk & Htok & u & Hw)%settle_true_spec.
  destruct (reachable_inv _ Hr) as [Hinv _].
  destruct (stored_project _ _ _ Hinv Hp Hst) as (Hid & _).
  apply write_requirements_Ok in Hw. rewrite Hid in Hw. subst db'.
  set (p := tok_project_id tok) in *.
  assert (Hold : ∀ reason, reindex_requirement_token p reason db =
    Ok (token (stored_or_legacy stored rec) p reason)).
  { intros r. apply result_bind_Ok. exists tt. split; [by apply validate_key_component_Ok |].
    apply result_bind_Ok. eexists. split; [exact Hst |].
    apply result_bind_Ok. eexists. split; [exact Hk | done]. }
  rewrite !requirement_token_written by done. rewrite !Hold. split_and!; [by f_equal | |].
  - unfold token. cbn [pending]. by rewrite lookup_delete_eq.
  - intros Hne. unfold token. cbn [pending]. by rewrite lookup_delete_ne.
Qed.

(** A recovery requirement that is recorded is pending under the returned
    token, the project shows a time not after it, and that token settles it. *)
Theorem recorded_requirement_settles p reason since db db1 tok :
  reachable db → require_reindex p reason since db = (db1, Ok (Some tok)) →
  reindex_requirement_token p reason db1 = Ok (Some tok) ∧
  (∃ rec s, get_project p db1 = Ok (Some rec) ∧ reindex_required_since_ms rec = Some s ∧ s <= since) ∧
  (settle_reindex_requirement tok db1).2 = Ok true.
Proof.
  intros Hr H. destruct (reachable_inv _ Hr) as [Hinv _]. unfold require_reindex in H.
  destruct (record_reindex_requirement p reason since false db) as [d [o|e]] eqn:E; [| done].
  simpl in H. injection H as -> Ho. destruct o as [[tok' b]|]; [| done]. simpl in Ho.
  injection Ho as ->. destruct b; [| by apply record_flag in E].
  apply record_true_spec in E as
    (Hp & project & r & s & q & d & Hid & Htok & Hq & Hle & <- & <- & ->); [| done].
  set (p := tok_project_id tok) in *. split_and!.
  - by rewrite requirement_token_written, Htok.
  - destruct (requirements_since_ms r) as [t|] eqn:Hs.
    + exists (set_since (touch project s) (Some t)), t. split_and!; [| done |].
      * apply result_bind_Ok. exists tt. split; [by apply validate_key_component_Ok |].
        apply get_decoded_insert_eq.
      * apply requirements_since_spec in Hs as [_ Hs]. specialize (Hs _ _ Hq). lia.
    + exfalso. assert (Hin : since_ms q ∈ since_ms <$> pending_values r)
        by (apply elem_of_pending_values; eauto).
      unfold requirements_since_ms in Hs. destruct (since_ms <$> pending_values r); [| done].
      by apply elem_of_nil in Hin.
  - by apply settle_current_token.
Qed.

End reindex_theorems.
