(* ===== verification/RegistrySpec.v ===== *)
(** What the registry's stores promise: isolation of the projects' rows,
    compare-and-exchange, the orphaned-job cleanup, the persisted kill switch
    and the bounded metadata inspection. *)
From S2P Require Import Prelude Text Store Records Concrete Reindex SourceHead Registry.
From S2P Require Import Rules Revisions Lifecycle Machine.

Open Scope N_scope.

(** * Definitions *)

Section registry_spec.
Context `{RE : !RegistryEnv}.

(** The rows of a database that belong to project [p]. *)
Definition owned (p : string) (db : DB) (j : TableId * string) : Prop :=
  match j.1 with
  | PROJECTS => j.2 = p
  | JOBS => ∃ raw job, db !! j = Some raw ∧ from_slice raw = Ok job ∧ job_project_id job = Some p
  | MEMORY_BANK | REPO_RULES | WATCHES | META => starts_with (project_prefix p) j.2 = true
  end.

(** * Lemmas *)

Lemma lookup_delete_prefix_all t p (db : DB) j :
  delete_keys t (prefix_rows t p db).*1 db !! j =
  if decide (j.1 = t ∧ starts_with (project_prefix p) j.2 = true) then None else db !! j.
Proof.
  rewrite lookup_delete_keys. destruct j as [t' k]; simpl.
  destruct (decide (t' = t ∧ starts_with (project_prefix p) k = true)) as [[-> Hs]|Hn].
  - case_decide as Hd; [done |]. destruct (db !! (t, k)) as [v|] eqn:E; [| done].
    destruct Hd. split; [done |]. apply list_elem_of_fmap. exists (k, v). split; [done |].
    by apply elem_of_prefix_scan.
  - rewrite decide_False; [done |]. intros [-> Hin]. apply Hn. split; [done |].
    by apply prefix_rows_key in Hin.
Qed.

Lemma decode_rows_Ok `{!Json A} rows (out : list (string * A)) :
  decode_rows rows = Ok out ↔
  Forall2 (λ kv ka, ka.1 = kv.1 ∧ from_slice kv.2 = Ok ka.2) rows out.
Proof.
  unfold decode_rows. rewrite result_traverse_Ok.
  split; intros H; (eapply Forall2_impl; [exact H |]); intros [k v] [k' a]; simpl.
  - intros (a' & Ha & [= <- <-])%result_bind_Ok. done.
  - intros [<- Ha]. apply result_bind_Ok. eauto.
Qed.

Lemma elem_of_decoded `{!Json A} rows (out : list (string * A)) k a :
  decode_rows rows = Ok out → (k, a) ∈ out → ∃ v, (k, v) ∈ rows ∧ from_slice v = Ok a.
Proof.
  intros Hd%decode_rows_Ok Hin. destruct (Forall2_elem_r _ _ _ _ Hd Hin) as ([k' v] & Hin' & He & Hf).
  simpl in *. subst. eauto.
Qed.

Lemma elem_of_rows_decoded `{!Json A} rows (out : list (string * A)) k v :
  decode_rows rows = Ok out → (k, v) ∈ rows → ∃ a, (k, a) ∈ out ∧ from_slice v = Ok a.
Proof.
  intros Hd%decode_rows_Ok Hin. destruct (Forall2_elem_l _ _ _ _ Hd Hin) as ([k' a] & Hin' & He & Hf).
  simpl in *. subst. eauto.
Qed.

Lemma lookup_delete_jobs p (db db' : DB) u j :
  tx_delete_jobs p db = Ok (u, db') →
  (j.1 = JOBS → owned p db j → db' !! j = None) ∧
  (j.1 ≠ JOBS ∨ ¬ owned p db j → db' !! j = db !! j).
Proof.
  unfold tx_delete_jobs. intros H.
  apply tx_bind_Ok in H as (rows & s & [-> ->]%tx_read_Ok & H).
  apply tx_bind_Ok in H as (jobs & s & [Hj ->]%lift_Ok & ->%tx_modify_Ok).
  rewrite lookup_delete_keys. destruct j as [t k]; simpl. unfold owned; simpl. split.
  - intros -> (raw & job & Hraw & Hjob & Hp). rewrite decide_True; [done |]. split; [done |].
    apply elem_of_table_rows in Hraw. 
    destruct (elem_of_rows_decoded _ _ _ _ Hj Hraw) as (job' & Hin & Hjob').
    rewrite Hjob in Hjob'. injection Hjob' as <-.
    apply list_elem_of_fmap. exists (k, job). split; [done |]. apply list_elem_of_filter. by split.
  - intros Hn. rewrite decide_False; [done |]. intros [-> Hin].
    destruct Hn as [Hn|Hn]; [done |]. apply Hn.
    apply list_elem_of_fmap in Hin as ([k' job] & -> & [Hp Hin]%list_elem_of_filter). simpl in *.
    destruct (elem_of_decoded _ _ _ _ Hj Hin) as (v & Hv & Hjob).
    apply elem_of_table_rows in Hv. eauto.
Qed.

(** ** Compare-and-exchange *)

Lemma tx_head_write_plain p k changes : k ≠ HEAD → tx_head_write p k changes = (_ ← mret 0; mret tt).
Proof. intros Hk. unfold tx_head_write. by rewrite (proj2 (String.eqb_neq k HEAD)). Qed.

Lemma compare_exchange_meta_eq p k e v (db : DB) :
  valid_component p = true → valid_component k = true → k ≠ HEAD →
  compare_exchange_meta p k e v db =
  if decide (meta (project_key p k) db = e)
  then (<[(META, project_key p k) := v]> db, Ok true) else (db, Ok false).
Proof.
  intros Hp Hk Hh. unfold compare_exchange_meta, write_tx, tx_meta.
  erewrite tx_lift_bind_eq by (by apply validate_key_component_Ok).
  erewrite tx_lift_bind_eq by (by apply validate_key_component_Ok).
  erewrite tx_bind_eq by (by apply tx_get_Ok). unfold meta.
  case_decide; [| done]. by rewrite tx_head_write_plain.
Qed.

(** ** Aborting jobs *)

Definition abort_rows (now : N) (l : list (string * JobRecord)) (db : DB) : DB :=
  foldl (λ db kj, <[(JOBS, kj.1) := to_vec (abort_job now kj.2)]> db) db l.

Lemma lookup_abort_rows_ne now l (db : DB) j :
  (∀ k job, (k, job) ∈ l → j ≠ (JOBS, k)) → abort_rows now l db !! j = db !! j.
Proof.
  revert db. induction l as [|[k job] l IH]; intros db Hj; simpl; [done |].
  unfold abort_rows in *. simpl. rewrite IH by set_solver. apply lookup_insert_ne.
  intros He. by apply (Hj k job); [set_solver |].
Qed.

Lemma lookup_abort_rows now l (db : DB) k job :
  NoDup l.*1 → (k, job) ∈ l → abort_rows now l db !! (JOBS, k) = Some (to_vec (abort_job now job)).
Proof.
  revert db. induction l as [|[k' job'] l IH]; intros db Hnd Hin; [by apply elem_of_nil in Hin |].
  apply NoDup_cons in Hnd as [Hn Hnd]. change (abort_rows now ((k', job') :: l) db)
    with (abort_rows now l (<[(JOBS, k') := to_vec (abort_job now job')]> db)).
  apply elem_of_cons in Hin as [[= <- <-]|Hin]; [| by apply IH].
  rewrite lookup_abort_rows_ne; [apply lookup_insert_eq |].
  intros k2 job2 Hin [= <-]. apply Hn. apply list_elem_of_fmap. by exists (k, job2).
Qed.

Lemma decoded_keys `{!Json A} rows (out : list (string * A)) :
  decode_rows rows = Ok out → out.*1 = rows.*1.
Proof.
  intros Hd%decode_rows_Ok. induction Hd as [|x y ? ? [He _] _ IH]; [done |].
  rewrite !fmap_cons. by rewrite He, IH.
Qed.

Definition running (jobs : list (string * JobRecord)) : list (string * JobRecord) :=
  filter (λ kj, is_running kj.2 = true) jobs.

Lemma existsb_running jobs : existsb (λ kj, is_running kj.2) jobs = false ↔ running jobs = [].
Proof.
  unfold running. induction jobs as [|kj jobs IH]; simpl; [done |].
  rewrite filter_cons, orb_false_iff. destruct (is_running kj.2); simpl; naive_solver.
Qed.

Lemma decode_rows_total `{!Json A} (rows : list (string * bytes)) :
  (∀ k v, (k, v) ∈ rows → ∃ a : A, from_slice v = Ok a) → ∃ out, decode_rows (A:=A) rows = Ok out.
Proof.
  induction rows as [|[k v] rows IH]; intros Hr; [by exists [] |].
  destruct (Hr k v) as [a Ha]; [set_solver |].
  destruct IH as [out Ho]; [intros k' v' Hin; apply (Hr k'); set_solver |].
  exists ((k, a) :: out). unfold decode_rows in *. cbn [result_traverse].
  apply result_bind_Ok. exists (k, a). split; [apply result_bind_Ok; eauto |].
  apply result_bind_Ok. eauto.
Qed.

(** After the aborts no row is running. *)
Lemma cleanup_leaves_none now jobs (db : DB) :
  decode_rows (table_rows JOBS db) = Ok jobs → NoDup (running jobs).*1 →
  ∃ jobs', decode_rows (table_rows JOBS (abort_rows now (running jobs) db)) = Ok jobs' ∧
           running jobs' = [].
Proof.
  intros Hj Hnd. set (db' := abort_rows now (running jobs) db).
  assert (Hrow : ∀ k v, db' !! (JOBS, k) = Some v →
    ∃ job, from_slice v = Ok job ∧ is_running job = false).
  { intros k v Hv. destruct (decide (k ∈ (running jobs).*1)) as [Hin|Hn].
    - apply list_elem_of_fmap in Hin as ([k' job] & -> & Hin). simpl in Hv.
      unfold db' in Hv. rewrite (lookup_abort_rows _ _ _ _ job) in Hv by done. injection Hv as <-.
      exists (abort_job now job). by rewrite from_slice_to_vec.
    - assert (Hv' : db !! (JOBS, k) = Some v).
      { rewrite <-Hv. symmetry. apply lookup_abort_rows_ne. intros k' job Hin [= ->].
        apply Hn, list_elem_of_fmap. by exists (k', job). }
      apply elem_of_table_rows in Hv'.
      destruct (elem_of_rows_decoded _ _ _ _ Hj Hv') as (job & Hin & Hjob).
      exists job. split; [done |]. apply not_true_is_false. intros Hr. apply Hn, list_elem_of_fmap.
      exists (k, job). split; [done |]. by apply list_elem_of_filter. }
  destruct (decode_rows_total (A:=JobRecord) (table_rows JOBS db')) as [jobs' Hj'].
  { intros k v Hin%elem_of_table_rows. destruct (Hrow _ _ Hin) as (job & Hjob & _). eauto. }
  exists jobs'. split; [done |]. destruct (running jobs') as [|[k job] l] eqn:E; [done |].
  assert (Hin : (k, job) ∈ running jobs') by (rewrite E; set_solver).
  apply list_elem_of_filter in Hin as [Hr Hin]. simpl in Hr.
  destruct (elem_of_decoded _ _ _ _ Hj' Hin) as (v & Hv%elem_of_table_rows & Hjob).
  destruct (Hrow _ _ Hv) as (job' & Hjob' & Hr'). congruence.
Qed.

Lemma cleanup_eq now (db : DB) jobs :
  decode_rows (table_rows JOBS db) = Ok jobs →
  cleanup_orphaned_jobs now db =
  (abort_rows now (running jobs) db, Ok (N.of_nat (length (running jobs)))).
Proof.
  intros Hj. unfold cleanup_orphaned_jobs. rewrite Hj.
  destruct (existsb _ jobs) eqn:E; [| by apply existsb_running in E as ->].
  unfold abort_running, write_tx. erewrite tx_bind_eq by (by apply tx_read_Ok).
  erewrite tx_lift_bind_eq by exact Hj. cbv zeta. fold (running jobs).
  erewrite tx_bind_eq by (by apply (tx_modify_Ok _ _ tt)).
  destruct (running jobs) as [|kj l] eqn:Hr.
  - apply existsb_running in Hr. congruence.
  - done.
Qed.

(** ** Bounded inspection *)

Definition entry_bytes (es : list (string * string)) : N :=
  foldr (λ kv n, slen kv.1 + slen kv.2 + n) 0 es.

Lemma entry_bytes_app es es' : entry_bytes (es ++ es') = entry_bytes es + entry_bytes es'.
Proof. induction es as [|e es IH]; simpl; [done | rewrite IH; lia]. Qed.

(** What one inspection reports of the matching rows [ms]. *)
Record page_ok (len : nat) (mx mt : N) (ms : list (string * bytes)) (page : MetaPrefixPage) : Prop := {
  page_counts : N.of_nat (length (entries page)) + omitted_values page = inspected page;
  page_inspected : inspected page = N.min mx (N.of_nat (length ms));
  page_more : has_more page = (mx <? N.of_nat (length ms));
  page_bytes : entry_bytes (entries page) <= mt;
  page_rows : ∀ k v, (k, v) ∈ entries page → ∃ fk, (fk, v) ∈ ms ∧ k = sdrop len fk;
}.

Lemma inspect_rows_ok len prefix mx mv mt rows seen page :
  mx <> 0 → N.of_nat (length seen) <= mx →
  N.of_nat (length (entries page)) + omitted_values page = inspected page →
  inspected page = N.of_nat (length seen) → has_more page = false →
  entry_bytes (entries page) <= mt →
  (∀ k v, (k, v) ∈ entries page → ∃ fk, (fk, v) ∈ seen ∧ k = sdrop len fk) →
  page_ok len mx mt (seen ++ take_while (λ kv, starts_with prefix kv.1) rows)
    (inspect_rows len prefix mx mv mt rows page (entry_bytes (entries page))).
Proof.
  intros Hmx. revert seen page. induction rows as [|[fk value] rows IH]; intros seen page Hle Hc Hi Hm Hb Hr.
  - simpl. rewrite app_nil_r. split; [done | lia | | done | done].
    rewrite Hm. symmetry. apply N.ltb_ge. lia.
  - cbn [inspect_rows take_while fst]. destruct (starts_with prefix fk) eqn:Hs; cbn [negb].
    2:{ rewrite app_nil_r. split; [done | lia | | done | done].
        rewrite Hm. symmetry. apply N.ltb_ge. lia. }
    destruct (N.eqb_spec (inspected page) mx) as [He|Hne].
    + split; simpl; [done | | | done |].
      * rewrite length_app. simpl. lia.
      * symmetry. apply N.ltb_lt. rewrite length_app. simpl. lia.
      * intros k v Hin. destruct (Hr k v Hin) as (fk' & Hin' & ->). exists fk'. set_solver.
    + rewrite (cons_middle (fk, value)), app_assoc.
      assert (Hlen : length (seen ++ [(fk, value)]) = S (length seen)) by (rewrite length_app; simpl; lia).
      case_match eqn:Ha.
      * apply andb_true_iff in Ha as [Ha _]. apply andb_true_iff in Ha as [Ha Ht].
        destruct (checked_add _ _) as [n|] eqn:Hn; [| done].
        apply checked_add_Some in Hn as [-> _].
        destruct (checked_add (entry_bytes _) _) as [n|] eqn:Hn; [| done].
        apply checked_add_Some in Hn as [-> _]. apply N.leb_le in Ht.
        set (page' := {| entries := entries page ++ [(sdrop len fk, value)] |}).
        assert (Hbytes : entry_bytes (entries page') =
          entry_bytes (entries page) + (slen (sdrop len fk) + slen value))
          by (simpl; rewrite entry_bytes_app; simpl; lia).
        rewrite <-Hbytes. apply IH; simpl; try done.
        -- lia.
        -- rewrite length_app. simpl. lia.
        -- lia.
        -- rewrite <-Hbytes in Ht. done.
        -- intros k v [Hin|Hin]%elem_of_app.
           ++ destruct (Hr k v Hin) as (fk' & Hin' & ->). exists fk'. set_solver.
           ++ apply list_elem_of_singleton in Hin as [= -> ->]. exists fk. set_solver.
      * set (page' := {| entries := entries page |}).
        change (entry_bytes (entries page)) with (entry_bytes (entries page')).
        apply IH; simpl; try done; try lia.
        intros k v Hin. destruct (Hr k v Hin) as (fk' & Hin' & ->). exists fk'. set_solver.
Qed.

End registry_spec.

(** * Theorems *)

Section registry_theorems.
Context `{RU : !RulesEnv}.

Lemma owned_frame p (db db' : DB) j : db' !! j = db !! j → owned p db' j ↔ owned p db j.
Proof. intros He. unfold owned. destruct j as [[] k]; simpl in *; rewrite ?He; done. Qed.

(** Deleting a project removes exactly its rows: every row that belongs to
    it is gone from every table, and every row of another project (and every
    other job) is untouched. *)
Theorem delete_all_removes_exactly p db db' j :
  reachable db → delete_all_for_project p db = (db', Ok tt) →
  (owned p db j → db' !! j = None) ∧
  (¬ owned p db j → j ≠ (META, REVISION_SEQUENCE) → db' !! j = db !! j).
Proof.
  intros Hr H. destruct (reachable_inv _ Hr) as [Hinv _].
  apply write_tx_inv in H as [E|(_ & s1 & E)].
  all: apply tx_bind_Ok in E as ([] & s & [Hp ->]%lift_Ok & E); apply validate_key_component_Ok in Hp.
  all: apply tx_bind_Ok in E as ([] & s0 & Hc & E).
  all: apply tx_bind_Ok in E as ([] & s2 & [_ ->]%tx_remove_Ok & E).
  all: apply tx_bind_Ok in E as ([] & d1 & ->%tx_modify_Ok & E).
  all: apply tx_bind_Ok in E as ([] & d2 & ->%tx_modify_Ok & E).
  all: apply tx_bind_Ok in E as ([] & d3 & H3%tx_modify_Ok & E).
  all: apply tx_bind_Ok in E as ([] & d4 & H4 & E).
  all: apply tx_bind_Ok in E as ([] & d5 & H5%tx_modify_Ok & [Hc5 ->]%tx_ret_Ok).
  2: done.
  apply clear_pending_on_delete_spec in Hc as [[_ F] _]; [| done | done].
  assert (Hkey : (META, key p) = j → owned p db j)
    by (intros <-; apply starts_with_prefix_key).
  assert (F3 : d3 !! j = if decide (j = (PROJECTS, p) ∨
      (j.1 = MEMORY_BANK ∨ j.1 = REPO_RULES ∨ j.1 = WATCHES) ∧
      starts_with (project_prefix p) j.2 = true) then None else s0 !! j).
  { subst d3. rewrite !lookup_delete_prefix_all. destruct j as [t k]; simpl.
    destruct (decide ((t, k) = (PROJECTS, p))) as [[= -> ->]|Hne].
    - rewrite !decide_False by naive_solver. rewrite lookup_delete_eq, decide_True; auto.
    - rewrite lookup_delete_ne by congruence. repeat case_decide; naive_solver. }
  apply lookup_delete_jobs with (j := j) in H4 as [H4a H4b].
  subst d5. rewrite lookup_delete_prefix_all.
  destruct (decide (j = (META, REVISION_SEQUENCE))) as [->|Hs]; [split; [intros Ho | done] |].
  { by rewrite decide_True by (split; [done | exact Ho]). }
  assert (F0 : j.1 ≠ META ∨ ¬ owned p db j → s0 !! j = db !! j).
  { intros Hn. apply F; [done |]. intros He. destruct Hn as [Hn|Hn]; [by subst j | auto]. }
  assert (Hin : ∀ t k, t ≠ META → t ≠ JOBS → j = (t, k) →
    (owned p db j → j = (PROJECTS, p) ∨ (t = MEMORY_BANK ∨ t = REPO_RULES ∨ t = WATCHES) ∧
       starts_with (project_prefix p) k = true) ∧
    (j = (PROJECTS, p) ∨ (t = MEMORY_BANK ∨ t = REPO_RULES ∨ t = WATCHES) ∧
       starts_with (project_prefix p) k = true → owned p db j)).
  { intros t k Ht1 Ht2 ->. unfold owned. destruct t; [| | | | done | done]; simpl.
    { split; [intros ->; by left | intros [[= ->]|[[?|[?|?]] _]]; done]. }
    all: split; [intros Ho; right; split; [auto | done] | intros [[=]|[_ ?]]; done]. }
  destruct j as [t k]. simpl in *.
  destruct (decide (t = META)) as [->|Ht1].
  { split; intros Ho; [by rewrite decide_True | intros _].
    rewrite decide_False by (intros [_ ?]; by apply Ho).
    rewrite H4b by (by left). rewrite F3, decide_False; [by apply F0; right |].
    intros [?|[[?|[?|?]] _]]; done. }
  rewrite decide_False by (by intros [? _]).
  destruct (decide (t = JOBS)) as [->|Ht2].
  { assert (F3' : d3 !! (JOBS, k) = db !! (JOBS, k)).
    { rewrite F3, decide_False; [apply F0; by left |]. intros [?|[[?|[?|?]] _]]; done. }
    rewrite (owned_frame p db d3 (JOBS, k) F3'), F3' in *. split; [auto | intros Ho _; auto]. }
  destruct (Hin t k Ht1 Ht2 eq_refl) as [Hin1 Hin2]. rewrite H4b by (by left). rewrite F3.
  split; intros Ho; [by rewrite decide_True by auto | intros _].
  rewrite decide_False by auto. apply F0. by left.
Qed.

(** Compare-and-exchange on a metadata key: it succeeds exactly when the
    stored value is the expected one, then only that row changes and a second
    caller that expects the same old value loses; otherwise nothing changes. *)
Theorem compare_exchange_one_winner p k expected v db :
  valid_component p = true → valid_component k = true → k ≠ HEAD → expected ≠ Some v →
  (meta (project_key p k) db = expected →
   ∃ db', compare_exchange_meta p k expected v db = (db', Ok true) ∧
     meta (project_key p k) db' = Some v ∧
     (∀ j, j ≠ (META, project_key p k) → db' !! j = db !! j) ∧
     ∀ w, compare_exchange_meta p k expected w db' = (db', Ok false)) ∧
  (meta (project_key p k) db ≠ expected → compare_exchange_meta p k expected v db = (db, Ok false)).
Proof.
  intros Hp Hk Hh Hv. rewrite compare_exchange_meta_eq by done. split; intros He.
  - rewrite decide_True by done. eexists. split; [done |]. unfold meta. rewrite lookup_insert_eq.
    split_and!; [done | intros j Hj; by rewrite lookup_insert_ne |]. intros w.
    rewrite compare_exchange_meta_eq by done. unfold meta. rewrite lookup_insert_eq.
    by rewrite decide_False by congruence.
  - by rewrite decide_False.
Qed.

(** Startup cleanup aborts exactly the running jobs and counts them: a
    running job is stored aborted with the restart message, every other row of
    the database is untouched, a second cleanup finds nothing to do, and a
    malformed job fails the cleanup without a change. *)
Theorem cleanup_aborts_running_jobs now later db :
  match decode_rows (A := JobRecord) (table_rows JOBS db) with
  | Fail e => cleanup_orphaned_jobs now db = (db, Fail e)
  | Ok jobs =>
      ∃ db', cleanup_orphaned_jobs now db = (db', Ok (N.of_nat (length (running jobs)))) ∧
        (∀ k job, (k, job) ∈ running jobs → get_decoded JOBS k db' = Ok (Some (abort_job now job))) ∧
        (∀ j, (∀ k job, (k, job) ∈ running jobs → j ≠ (JOBS, k)) → db' !! j = db !! j) ∧
        cleanup_orphaned_jobs later db' = (db', Ok 0)
  end.
Proof.
  destruct (decode_rows (table_rows JOBS db)) as [jobs|e] eqn:Hj;
    [| unfold cleanup_orphaned_jobs; by rewrite Hj].
  assert (Hnd : NoDup jobs.*1).
  { rewrite (decoded_keys _ _ Hj). apply NoDup_table_rows. }
  assert (Hndr : NoDup (running jobs).*1) by (by apply NoDup_fst_filter).
  eexists. split; [by apply cleanup_eq |]. split_and!.
  - intros k job Hin. unfold get_decoded. rewrite (lookup_abort_rows _ _ _ _ job) by done. simpl.
    by rewrite from_slice_to_vec.
  - intros j Hn. by apply lookup_abort_rows_ne.
  - destruct (cleanup_leaves_none now jobs db Hj Hndr) as (jobs' & Hj' & Hr').
    rewrite (cleanup_eq later _ jobs') by done. by rewrite Hr'.
Qed.

(** The kill switch that was persisted last is the one that is read. *)
Theorem kill_switch_round_trip on db :
  (set_adp_kill_switch on db).2 = Ok tt ∧
  get_adp_kill_switch (set_adp_kill_switch on db).1 = Ok on.
Proof.
  split; [done |]. unfold get_adp_kill_switch, get_global_flag, set_adp_kill_switch, set_global_flag,
    guarded, put_row, write_tx. simpl. unfold meta. rewrite lookup_insert_eq. by destruct on.
Qed.

(** The bounded inspection of a metadata prefix stays inside its budgets
    and says so when it is incomplete: it inspects the first [max_entries]
    matching rows, counts each as an entry or an omission, reports [has_more]
    exactly when more rows match, retains at most the total budget, and every
    entry it returns is a stored value under a key with the prefix. *)
Theorem bounded_inspection_is_honest p prefix mx mv mt db page :
  list_meta_prefix_bounded p prefix mx mv mt db = Ok page →
  let matching := prefix_scan (project_prefix p +:+ prefix) (table_rows META db) in
  N.of_nat (length (entries page)) + omitted_values page = inspected page ∧
  inspected page = N.min mx (N.of_nat (length matching)) ∧
  has_more page = (mx <? N.of_nat (length matching)) ∧
  entry_bytes (entries page) <= mt ∧
  ∀ k v, (k, v) ∈ entries page → starts_with prefix k = true ∧ meta (project_key p k) db = Some v.
Proof.
  intros H matching. unfold list_meta_prefix_bounded in H.
  apply result_bind_Ok in H as ([] & Hp & H). apply result_bind_Ok in H as ([] & Hk & H).
  apply result_bind_Ok in H as ([] & Hb & H). apply ensure_Ok in Hb.
  rewrite !andb_true_iff, !N.leb_le in Hb. destruct Hb as [[[[[[_ _] Hmx] _] _] _] _].
  injection H as <-.
  destruct (inspect_rows_ok (String.length (project_prefix p)) (project_prefix p +:+ prefix) mx mv mt
    (range_from (project_prefix p +:+ prefix) (table_rows META db)) [] empty_page) as [H1 H2 H3 H4 H5];
    try done; try (simpl; lia); [set_solver |].
  split_and!; [done | done | done | done |]. intros k v Hin.
  destruct (H5 k v Hin) as (fk & Hfk & ->). simpl in Hfk.
  apply elem_of_prefix_scan in Hfk as [Hs Hv]. apply starts_with_spec in Hs as [t ->].
  rewrite app_assoc_str, sdrop_app by done. split; [apply starts_with_spec; eauto |].
  unfold meta, project_key. by rewrite <-app_assoc_str.
Qed.

End registry_theorems.
