(* ===== verification/Discussions.v ===== *)
(** [engram_core::registry::review_discussion]: captured review discussions. A
    capture is metadata that names a body by its hash; both are written once and
    for good, under one quota, in one transaction; they are read back by their
    exact identity and listed a page at a time. *)
From S2P Require Import Prelude Text Store Records Reindex SourceHead Registry.

Open Scope N_scope.

(** * Definitions *)

Definition PREFIX : string := "review_discussion_v1" +:+ str1 NUL.
Definition BODIES : string := "review_discussion_payload_v1" +:+ str1 NUL.
Definition QUOTA : string := "review_discussion_quota_v1".
Definition byte_2 : string := str1 (ascii_of_N 2).
Definition zeros3 : string := str1 NUL +:+ str1 NUL +:+ str1 NUL.
Definition MAGIC : string := "EGQD" +:+ zeros3 +:+ byte_2.
Definition LINK : string := "EGDC" +:+ zeros3 +:+ byte_2.
Definition METADATA_BYTES : N := 64 * 1024.
Definition BODY_BYTES : N := 256 * 1024.
Definition REVIEW_DISCUSSION_BATCH_BYTES : N := 4 * 1024 * 1024.
Definition REVIEW_DISCUSSION_BATCH_ROWS : N := 1024.
Definition REVIEW_DISCUSSION_PROJECT_ROWS : N := 4096.
Definition REVIEW_DISCUSSION_PROJECT_BYTES : N := 128 * 1024 * 1024.

Record ReviewDiscussionRecord := {
  review_id : string;
  thread_id : N;
  capture_blake3 : string;
  payload : string;
  raw_payload_blake3 : string;
  raw_payload : string;
}.
Record ReviewDiscussionWrite := {
  stored : N;
  unchanged : N;
  stored_payloads : N;
  reused_payloads : N;
  retained_records : N;
  retained_bytes : N;
  retained_captures : N;
  retained_payloads : N;
}.
Record ReviewDiscussionReference := {
  ref_thread_id : N;
  ref_capture_blake3 : string;
  ref_raw_utf8_blake3 : string;
  cursor : string;
}.
Record ReviewDiscussionPage := { page_records : list ReviewDiscussionReference; page_next : option string }.

(** ** Keys *)

Definition hash_valid (h : string) : bool := (slen h =? 64) && string_forallb is_lower_hexdigit h.
Definition scope (project review : string) : result string :=
  _ ← vk "project_id" project;
  _ ← vk "review_id" review;
  _ ← ensure ((slen project <=? 128) && (slen review <=? 256)) "review capture identity too long" [];
  Ok (project_key project (PREFIX +:+ review +:+ str1 NUL)).
Definition body_key (project h : string) : result string :=
  _ ← ensure (hash_valid h) "invalid review payload hash" [];
  Ok (project_key project (BODIES +:+ h)).
Definition quota_key (project : string) : string := project_key project QUOTA.
(** [format!("{thread:020}")]. *)
Definition padded (n : N) : string := repeat_char "0" (20 - String.length (show_u64 n)) +:+ show_u64 n.
Definition suffix_text (thread : N) (h : string) : string := padded thread +:+ ":" +:+ h.
Definition suffix (thread : N) (h : string) : result string :=
  _ ← ensure (hash_valid h) "capture hash must be 64 lowercase hexadecimal characters" [];
  Ok (suffix_text thread h).
Definition parse_suffix (value : string) : result (N * string) :=
  _ ← ensure (slen value =? 85) "invalid capture catalog cursor length" [];
  nh ← ok_or (split_once ":" value) (Bail "invalid capture identity" []);
  thread ← parse_u64 nh.1;
  sx ← suffix thread nh.2;
  _ ← ensure (String.eqb sx value) "noncanonical capture identity" [];
  Ok (thread, nh.2).
Definition quota (b : bytes) : result (N * N) :=
  _ ← ensure ((slen b =? 24) && String.eqb (stake 8 b) MAGIC) "invalid or unsupported capture quota; preserved" [];
  let rows := from_le_bytes (stake 8 (sdrop 8 b)) in
  let total := from_le_bytes (stake 8 (sdrop 16 b)) in
  _ ← ensure ((rows <=? REVIEW_DISCUSSION_PROJECT_ROWS) && (total <=? REVIEW_DISCUSSION_PROJECT_BYTES))
        "inconsistent capture quota; preserved" [];
  Ok (rows, total).
Definition unpack (b : bytes) : result (string * bytes) :=
  _ ← ensure ((72 <=? slen b) && (slen b <=? 72 + METADATA_BYTES) && String.eqb (stake 8 b) LINK)
        "unsupported capture metadata format; preserved" [];
  h ← from_utf8 (stake 64 (sdrop 8 b));
  _ ← ensure (hash_valid h) "invalid capture payload reference; preserved" [];
  Ok (h, sdrop 72 b).

(** [a.checked_add(x).and_then(|n| n.checked_add(y))]. *)
Definition checked_add2 (a x y : N) : option N := checked_add a x ≫= λ n, checked_add n y.

Section discussions.
Context `{RE : !RegistryEnv} `{HB : !Blake3}.

(** ** The batch, before the transaction *)

Record Batch := { batch_bytes : N; batch_keys : gset string; bodies : gmap string bytes }.
Definition capture_key (project : string) (r : ReviewDiscussionRecord) : result string :=
  sc ← scope project (review_id r);
  sx ← suffix (thread_id r) (capture_blake3 r);
  Ok (sc +:+ sx).
Definition check_record (project : string) (b : Batch) (r : ReviewDiscussionRecord) : result Batch :=
  _ ← ensure ((slen (payload r) <=? METADATA_BYTES) && (slen (raw_payload r) <=? BODY_BYTES)
              && String.eqb (blake3_hex (payload r)) (capture_blake3 r)
              && String.eqb (blake3_hex (raw_payload r)) (raw_payload_blake3 r))
        "capture metadata/body exceeds budget or differs from its content hash" [];
  total ← ok_or (checked_add2 (batch_bytes b) (slen (payload r)) (slen (raw_payload r))) (Bail "capture batch overflow" []);
  _ ← ensure (total <=? REVIEW_DISCUSSION_BATCH_BYTES) "review capture batch byte budget exceeded" [];
  k ← capture_key project r;
  _ ← ensure (bool_decide (k ∉ batch_keys b)) "duplicate capture metadata in batch" [];
  _ ← ensure (match bodies b !! raw_payload_blake3 r with Some prior => String.eqb prior (raw_payload r) | None => true end)
        "same body hash names different bytes; preserved" [];
  Ok {| batch_bytes := total; batch_keys := {[k]} ∪ batch_keys b;
        bodies := <[raw_payload_blake3 r := raw_payload r]> (bodies b) |}.
(** A loop whose body may fail. *)
Fixpoint result_foldl {S A} (f : S → A → result S) (s : S) (l : list A) : result S :=
  match l with [] => Ok s | a :: l' => s' ← f s a; result_foldl f s' l' end.
Definition check_batch (project : string) (records : list ReviewDiscussionRecord) : result Batch :=
  _ ← vk "project_id" project;
  _ ← ensure ((slen project <=? 128) && (N.of_nat (length records) <=? REVIEW_DISCUSSION_BATCH_ROWS))
        "review capture batch count exceeded" [];
  result_foldl (check_record project) {| batch_bytes := 0; batch_keys := ∅; bodies := ∅ |} records.

(** ** The inventory *)

Record Inventory := { inv_rows : N; inv_bytes : N; capture_count : N; body_count : N }.
Definition check_body_row (project : string) (kv : string * bytes) : result () :=
  ensure (hash_valid (default "" (strip_prefix (project_key project BODIES) kv.1)) && (slen kv.2 <=? BODY_BYTES))
    "unsupported payload inventory; preserved" [].
Definition check_capture_row (project : string) (db : DB) (kv : string * bytes) : result () :=
  rt ← ok_or (split_once NUL (default "" (strip_prefix (project_key project PREFIX) kv.1)))
         (Bail "invalid capture inventory key" []);
  _ ← vk "review_id" rt.1;
  _ ← ensure (slen rt.1 <=? 256) "invalid capture review identity" [];
  th ← parse_suffix rt.2;
  hm ← unpack kv.2;
  _ ← ensure (String.eqb (blake3_hex hm.2) th.2) "capture metadata hash differs; preserved" [];
  bk ← body_key project hm.1;
  body ← ok_or (meta bk db) (Bail "capture references a missing raw payload; preserved" []);
  ensure (slen body <=? BODY_BYTES) "capture raw payload exceeds budget; preserved" [].
Definition observe (is_body : bool) (project : string) (db : DB) (i : Inventory) (kv : string * bytes) : result Inventory :=
  _ ← ensure ((inv_rows i <? REVIEW_DISCUSSION_PROJECT_ROWS) && (slen kv.1 <=? 512))
        "capture inventory count/key budget exceeded; preserved" [];
  _ ← (if is_body then check_body_row project kv else check_capture_row project db kv);
  total ← ok_or (checked_add2 (inv_bytes i) (slen kv.1) (slen kv.2)) (Bail "capture inventory overflow" []);
  _ ← ensure (total <=? REVIEW_DISCUSSION_PROJECT_BYTES) "capture inventory byte budget exceeded; preserved" [];
  Ok {| inv_rows := inv_rows i + 1; inv_bytes := total;
        capture_count := capture_count i + (if is_body then 0 else 1);
        body_count := body_count i + (if is_body then 1 else 0) |}.
Definition family (is_body : bool) (project : string) (db : DB) : list (string * bytes) :=
  prefix_scan (project_key project (if is_body then BODIES else PREFIX)) (table_rows META db).
Definition inventory (project : string) (db : DB) : result Inventory :=
  i ← result_foldl (observe false project db) {| inv_rows := 0; inv_bytes := 0; capture_count := 0; body_count := 0 |}
        (family false project db);
  result_foldl (observe true project db) i (family true project db).

(** ** Storing *)

(** The objects and bytes with what is pending, and the pending rows. *)
Record Pending := { count_rows : N; count_bytes : N; pending_rows : list (string * bytes) }.
Definition add_pending (cost : option N) (row : string * bytes) (s : Pending) : result Pending :=
  rows ← ok_or (checked_add (count_rows s) 1) (Bail "object count overflow" []);
  total ← ok_or cost (Bail "object bytes overflow" []);
  Ok {| count_rows := rows; count_bytes := total; pending_rows := pending_rows s ++ [row] |}.
Definition plan_body (project : string) (db : DB) (s : Pending) (hp : string * bytes) : result Pending :=
  k ← body_key project hp.1;
  match meta k db with
  | Some prior => _ ← ensure (String.eqb prior hp.2) "immutable raw payload differs; preserved" []; Ok s
  | None => add_pending (checked_add2 (count_bytes s) (slen k) (slen hp.2)) (k, hp.2) s
  end.
Definition link (r : ReviewDiscussionRecord) : bytes := LINK +:+ raw_payload_blake3 r +:+ payload r.
Definition plan_capture (project : string) (db : DB) (s : Pending) (r : ReviewDiscussionRecord) : result Pending :=
  k ← capture_key project r;
  match meta k db with
  | Some prior =>
      hm ← unpack prior;
      _ ← ensure (String.eqb hm.1 (raw_payload_blake3 r) && String.eqb hm.2 (payload r))
            "immutable capture metadata differs; preserved" [];
      Ok s
  | None => add_pending (checked_add2 (count_bytes s) (slen k) 72 ≫= λ n, checked_add n (slen (payload r))) (k, link r) s
  end.
Definition insert_rows (rows : list (string * bytes)) (db : DB) : DB :=
  foldl (λ db kv, <[(META, kv.1) := kv.2]> db) db rows.
Definition quota_row (rows total : N) : bytes := MAGIC +:+ to_le_bytes rows +:+ to_le_bytes total.

Definition store_review_discussions (project : string) (records : list ReviewDiscussionRecord)
  : DB → DB * result ReviewDiscussionWrite :=
  guarded (check_batch project records) (λ batch, write_tx (λ db,
    stated ← transpose quota (meta (quota_key project) db);
    seen ← inventory project db;
    _ ← ensure (bool_decide (is_Some stated) || (inv_rows seen =? 0))
          "retained captures/bodies lack quota authority; preserved" [];
    _ ← ensure (bool_decide (default (0, 0) stated = (inv_rows seen, inv_bytes seen)))
          "capture quota differs from retained inventory; preserved" [];
    let hps := sort_rows (map_to_list (bodies batch)) in
    pb ← result_foldl (plan_body project db)
           {| count_rows := inv_rows seen; count_bytes := inv_bytes seen; pending_rows := [] |} hps;
    pc ← result_foldl (plan_capture project db)
           {| count_rows := count_rows pb; count_bytes := count_bytes pb; pending_rows := [] |} records;
    _ ← ensure ((count_rows pc <=? REVIEW_DISCUSSION_PROJECT_ROWS) && (count_bytes pc <=? REVIEW_DISCUSSION_PROJECT_BYTES))
          "retained discussion quota exceeded (4096 total capture/body objects,128 MiB); existing evidence preserved; no summaries published by this import" [];
    let new_captures := N.of_nat (length (pending_rows pc)) in
    let new_bodies := N.of_nat (length (pending_rows pb)) in
    let w :=
      {| stored := new_captures; unchanged := N.of_nat (length records) - new_captures;
         stored_payloads := new_bodies; reused_payloads := N.of_nat (length hps) - new_bodies;
         retained_records := count_rows pc; retained_bytes := count_bytes pc;
         retained_captures := capture_count seen + new_captures; retained_payloads := body_count seen + new_bodies |} in
    if bool_decide (pending_rows pb = []) && bool_decide (pending_rows pc = []) then Ok (Rollback w, db)
    else
      Ok (Commit w,
          <[(META, quota_key project) := quota_row (count_rows pc) (count_bytes pc)]>
            (insert_rows (pending_rows pc) (insert_rows (pending_rows pb) db))))).

(** ** Reading *)

Definition inspect_review_discussion {T} (project review : string) (thread : N) (h : string)
    (inspect : bytes → bytes → result T) (db : DB) : result T :=
  sc ← scope project review;
  sx ← suffix thread h;
  value ← ok_or (meta (sc +:+ sx) db) (Bail "exact captured discussion metadata unavailable" []);
  hm ← unpack value;
  _ ← ensure (String.eqb (blake3_hex hm.2) h) "capture metadata hash differs; preserved" [];
  bk ← body_key project hm.1;
  body ← ok_or (meta bk db) (Bail "exact captured raw payload unavailable" []);
  _ ← ensure ((slen body <=? BODY_BYTES) && String.eqb (blake3_hex body) hm.1)
        "raw payload failed bounded hash check; preserved" [];
  inspect hm.2 body.

Definition reference_of (local : string) (value : bytes) : result ReviewDiscussionReference :=
  th ← parse_suffix local;
  hm ← unpack value;
  _ ← ensure (String.eqb (blake3_hex hm.2) th.2) "catalog capture metadata hash differs; preserved" [];
  Ok {| ref_thread_id := th.1; ref_capture_blake3 := th.2; ref_raw_utf8_blake3 := hm.1; cursor := local |}.
(** The loop over the range: the references, and whether one more is there. *)
Fixpoint list_rows (prefix : string) (after : option string) (acc : list ReviewDiscussionReference) (rows : list (string * bytes))
  : result (list ReviewDiscussionReference * bool) :=
  match rows with
  | [] => Ok (acc, false)
  | (k, v) :: rows =>
      match strip_prefix prefix k with
      | None => Ok (acc, false)
      | Some local =>
          if bool_decide (is_Some after) && bool_decide (String.le local (default "" after)) then list_rows prefix after acc rows
          else
            _ ← ensure (slen local =? 85) "unsupported capture catalog key; preserved" [];
            if Nat.eqb (length acc) 16 then Ok (acc, true)
            else
              r ← reference_of local v;
              list_rows prefix after (acc ++ [r]) rows
      end
  end.
Definition list_review_discussions (project review : string) (after : option string) (db : DB) : result ReviewDiscussionPage :=
  prefix ← scope project review;
  _ ← (match after with Some a => _ ← parse_suffix a; Ok tt | None => Ok tt end);
  rm ← list_rows prefix after [] (range_from (prefix +:+ default "" after) (table_rows META db));
  Ok {| page_records := rm.1;
        page_next := if rm.2 : bool then cursor <$> last rm.1 else None |}.
End discussions.
