(* ===== verification/DiscussionsSpec.v ===== *)
(** What the captured discussions promise: evidence is written once and kept for
    good, what is stored is read back, the quota is the inventory, and the pages
    of a review list every capture once. *)
From S2P Require Import Prelude Text Unicode Store Records Concrete Reindex SourceHead Registry Rules RulesSpec Discussions.

Open Scope N_scope.

(** * Definitions *)

Section spec.
Context `{RE : !RegistryEnv} `{HB : !Blake3}.

Definition family_prefix (is_body : bool) (p : string) : string := project_key p (if is_body then BODIES else PREFIX).
Definition review_prefix (p review : string) : string := project_key p (PREFIX +:+ review +:+ str1 NUL).
Definition ckey (p : string) (r : ReviewDiscussionRecord) : string :=
  review_prefix p (review_id r) +:+ suffix_text (thread_id r) (capture_blake3 r).
Definition bkey (p h : string) : string := project_key p (BODIES +:+ h).

(** A caller's stores, one after the other. *)
Definition run_stores (ops : list (string * list ReviewDiscussionRecord)) (db : DB) : DB :=
  foldl (λ db op, (store_review_discussions op.1 op.2 db).1) db ops.

(** What the loop over a batch accepts. *)
Record record_good (p : string) (r : ReviewDiscussionRecord) : Prop := {
  good_payload : slen (payload r) <= METADATA_BYTES;
  good_raw : slen (raw_payload r) <= BODY_BYTES;
  good_capture_hash : capture_blake3 r = blake3_hex (payload r);
  good_raw_hash : raw_payload_blake3 r = blake3_hex (raw_payload r);
  good_review : valid_component (review_id r) = true ∧ slen (review_id r) <= 256;
  good_project : valid_component p = true ∧ slen p <= 128;
}.
Definition row_good (is_body : bool) (p : string) (db : DB) (kv : string * bytes) : Prop :=
  slen kv.1 <= 512 ∧ (if is_body then check_body_row p kv else check_capture_row p db kv) = Ok tt.
(** The rows a store adds. *)
Definition new_bodies (p : string) (db : DB) (hps : list (string * bytes)) : list (string * bytes) :=
  omap (λ hp, match meta (bkey p hp.1) db with None => Some (bkey p hp.1, hp.2) | Some _ => None end) hps.
Definition new_captures (p : string) (db : DB) (records : list ReviewDiscussionRecord) : list (string * bytes) :=
  omap (λ r, match meta (ckey p r) db with None => Some (ckey p r, link r) | Some _ => None end) records.

(** * Lemmas *)

(** ** Keys *)

Lemma hash_valid_spec h : hash_valid h = true ↔ String.length h = 64%nat ∧ string_forallb is_lower_hexdigit h = true.
Proof. unfold hash_valid, slen. rewrite andb_true_iff, N.eqb_eq. intuition lia. Qed.
Lemma blake3_valid b : hash_valid (blake3_hex b) = true.
Proof. apply hash_valid_spec, blake3_hex_shape. Qed.
Lemma scope_Ok p review sc : scope p review = Ok sc ↔
  (valid_component p = true ∧ slen p <= 128) ∧ (valid_component review = true ∧ slen review <= 256) ∧ sc = review_prefix p review.
Proof.
  unfold scope, vk. split.
  - intros H. res_inv H. repeat match goal with H : validate_key_component _ _ = Ok ?u |- _ => destruct u; apply validate_key_component_Ok in H end.
    rewrite andb_true_iff, !N.leb_le in *. tauto.
  - intros ([Hp Hl1] & [Hr Hl2] & ->). rewrite !(proj2 (validate_key_component_Ok _ _)) by done.
    cbn [mbind result_bind]. rewrite ensure_bind_Ok, andb_true_iff, !N.leb_le. done.
Qed.
Lemma body_key_Ok p h k : body_key p h = Ok k ↔ hash_valid h = true ∧ k = bkey p h.
Proof. unfold body_key. rewrite ensure_bind_Ok. naive_solver. Qed.
Lemma suffix_Ok n h sx : suffix n h = Ok sx ↔ hash_valid h = true ∧ sx = suffix_text n h.
Proof. unfold suffix. rewrite ensure_bind_Ok. naive_solver. Qed.
Lemma capture_key_Ok p r k : capture_key p r = Ok k ↔
  (valid_component p = true ∧ slen p <= 128) ∧ (valid_component (review_id r) = true ∧ slen (review_id r) <= 256) ∧
  hash_valid (capture_blake3 r) = true ∧ k = ckey p r.
Proof.
  unfold capture_key. split.
  - intros H. res_inv H. rewrite scope_Ok, suffix_Ok in *. naive_solver.
  - intros (Hp & Hr & Hh & ->). rewrite (proj2 (scope_Ok _ _ _)) by (split_and!; done || apply Hp || apply Hr).
    cbn [mbind result_bind]. by rewrite (proj2 (suffix_Ok _ _ _)) by done.
Qed.

Lemma project_key_app p a b : project_key p a +:+ b = project_key p (a +:+ b).
Proof. unfold project_key. by rewrite app_assoc_str. Qed.
Lemma ckey_family p r : starts_with (family_prefix false p) (ckey p r) = true.
Proof.
  unfold ckey, review_prefix, family_prefix. rewrite project_key_app. apply starts_with_spec.
  exists ((review_id r +:+ str1 NUL) +:+ suffix_text (thread_id r) (capture_blake3 r)).
  by rewrite project_key_app, !app_assoc_str.
Qed.
Lemma bkey_family p h : starts_with (family_prefix true p) (bkey p h) = true.
Proof. apply starts_with_spec. exists h. unfold family_prefix, bkey. by rewrite project_key_app. Qed.
Lemma family_other b p k : starts_with (family_prefix b p) k = true → starts_with (family_prefix (negb b) p) k = false.
Proof.
  intros [t ->]%starts_with_spec. destruct (starts_with (family_prefix (negb b) p) (family_prefix b p +:+ t)) eqn:E; [| done].
  apply starts_with_spec in E as [t' E]. unfold family_prefix in E. rewrite !project_key_app in E. apply project_key_inj_r in E.
  by destruct b.
Qed.
Lemma quota_family b p q : valid_component p = true → valid_component q = true → starts_with (family_prefix b p) (quota_key q) = false.
Proof.
  intros Hp Hq. destruct (starts_with (family_prefix b p) (quota_key q)) eqn:E; [| done].
  apply starts_with_spec in E as [t E]. unfold family_prefix, quota_key in E. rewrite project_key_app in E.
  apply project_key_inj_NUL in E as [_ E]; [by destruct b | by apply valid_component_no_NUL..].
Qed.
Lemma bkey_inj p h h' : bkey p h = bkey p h' → h = h'.
Proof. unfold bkey. intros H%project_key_inj_r. by apply app_inj_l in H. Qed.

(** ** The text of an identity *)

Lemma repeat_char_length c n : String.length (repeat_char c n) = n.
Proof. induction n as [|n IH]; cbn; [done | by rewrite IH]. Qed.
Lemma padded_length n : String.length (padded n) = 20%nat.
Proof.
  unfold padded. rewrite length_app_str, repeat_char_length. pose proof (slen_show_u64 n). unfold slen in *. lia.
Qed.
Lemma padded_digits n : string_forallb is_ascii_digit (padded n) = true.
Proof.
  unfold padded. induction (20 - String.length (show_u64 n))%nat as [|k IH]; cbn [repeat_char]; [apply show_u64_digits |].
  rewrite app_cons. cbn [string_forallb]. by rewrite IH.
Qed.
Lemma digits_no_colon s : string_forallb is_ascii_digit s = true → contains_char ":" s = false.
Proof.
  induction s as [|c s IH]; [done |]. cbn [string_forallb]. rewrite andb_true_iff. intros [Hc Hs]. rewrite contains_char_cons.
  rewrite IH by done. destruct (Ascii.eqb_spec c ":") as [->|]; [done |]. by destruct (Ascii.eqb_spec ":" c).
Qed.
Lemma digits_value_zeros k s acc : acc = 0 → digits_value (repeat_char "0" k +:+ s) acc = digits_value s 0.
Proof. intros ->. induction k as [|k IH]; [done |]. cbn [repeat_char]. rewrite app_cons. cbn [digits_value]. exact IH. Qed.
Lemma parse_padded n : n <= u64_max → parse_u64 (padded n) = Ok n.
Proof.
  intros Hn. unfold padded. destruct (20 - String.length (show_u64 n))%nat as [|k] eqn:Ek; [by apply parse_show_u64 |].
  cbn [repeat_char]. rewrite app_cons.
  assert (Hv : digits_value (show_u64 n) 0 = Some n).
  { unfold show_u64. rewrite show_digits_value; [done |]. unfold u64_max in Hn. change (10 ^ N.of_nat 20) with 100000000000000000000. lia. }
  unfold parse_u64. cbn [digits_value]. change (is_ascii_digit "0") with true. cbv iota.
  change (10 * 0 + (N_of_ascii "0" - 48)) with 0. rewrite digits_value_zeros, Hv by done. by rewrite (proj2 (N.leb_le _ _) Hn).
Qed.
Lemma suffix_length n h : hash_valid h = true → slen (suffix_text n h) = 85.
Proof. intros [Hl _]%hash_valid_spec. unfold suffix_text, slen. rewrite !length_app_str, padded_length, Hl. done. Qed.
Lemma split_once_first c a b : contains_char c a = false → split_once c (a +:+ String c b) = Some (a, b).
Proof.
  induction a as [|x a IH]; rewrite ?app_nil_l, ?app_cons; cbn [split_once]; [by rewrite Ascii.eqb_refl |].
  rewrite contains_char_cons, orb_false_iff. intros [Hx Ha]. rewrite Ascii.eqb_sym, Hx, IH by done. done.
Qed.
Lemma parse_suffix_text n h : n <= u64_max → hash_valid h = true → parse_suffix (suffix_text n h) = Ok (n, h).
Proof.
  intros Hn Hh. unfold parse_suffix. rewrite ensure_bind_Ok, suffix_length by done. split; [done |].
  assert (Hs : split_once ":" (suffix_text n h) = Some (padded n, h)) by apply split_once_first, digits_no_colon, padded_digits.
  rewrite Hs.
  cbn [ok_or mbind result_bind fst snd]. rewrite parse_padded by done. cbn [mbind result_bind].
  rewrite (proj2 (suffix_Ok _ _ _)) by done. cbn [mbind result_bind]. by rewrite String.eqb_refl.
Qed.
Lemma parse_suffix_Ok s n h : parse_suffix s = Ok (n, h) → s = suffix_text n h ∧ hash_valid h = true ∧ n <= u64_max.
Proof.
  unfold parse_suffix. intros [_ H]%ensure_bind_Ok. apply result_bind_Ok in H as ([x y] & _ & H). cbn [fst snd] in H.
  apply result_bind_Ok in H as (k & Hk & H). apply result_bind_Ok in H as (sx & [Hh ->]%suffix_Ok & H).
  apply ensure_bind_Ok in H as [<-%String.eqb_eq [= <- <-]]. split_and!; try done. by eapply parse_u64_bound.
Qed.

(** ** Links *)

Lemma lower_hex_valid h : string_forallb is_lower_hexdigit h = true → utf8_valid h = true.
Proof.
  induction h as [|a h IH]; [done |]. cbn [string_forallb]. intros [Ha Hh]%andb_true_iff. apply utf8_valid_one; [| by apply IH].
  unfold is_lower_hexdigit, is_ascii_digit, in_range in *. rewrite orb_true_iff, !andb_true_iff, !N.leb_le in Ha.
  rewrite andb_true_iff, !N.leb_le. lia.
Qed.
Lemma unpack_link h m : hash_valid h = true → slen m <= METADATA_BYTES → unpack (LINK +:+ h +:+ m) = Ok (h, m).
Proof.
  intros Hh Hm. pose proof (proj1 (hash_valid_spec h) Hh) as [Hl Hx]. unfold unpack.
  assert (Hlen : slen (LINK +:+ h +:+ m) = 72 + slen m) by (assert (slen h = 64) by (unfold slen; by rewrite Hl); assert (slen LINK = 8) by done; rewrite !slen_app; lia).
  rewrite (stake_app 8), (sdrop_app 8) by done. rewrite (stake_app 64) by done.
  assert (Hd : sdrop 72 (LINK +:+ h +:+ m) = m).
  { rewrite <-app_assoc_str. apply sdrop_app. rewrite length_app_str, Hl. done. }
  rewrite Hd, Hlen, ensure_bind_Ok, !andb_true_iff, !N.leb_le. split; [split; [lia | apply String.eqb_refl] |].
  unfold from_utf8. rewrite lower_hex_valid by done. cbn [mbind result_bind]. by rewrite ensure_bind_Ok.
Qed.
Lemma sdrop_sdrop m n s : sdrop m (sdrop n s) = sdrop (n + m) s.
Proof. revert n. induction s as [|c s IH]; intros [|n]; cbn; first [done | by destruct m | apply IH]. Qed.
Lemma unpack_Ok b h m : unpack b = Ok (h, m) → hash_valid h = true ∧ b = LINK +:+ h +:+ m.
Proof.
  unfold unpack. intros [Hb H]%ensure_bind_Ok. apply result_bind_Ok in H as (x & [_ ->]%from_utf8_Ok & H).
  apply ensure_bind_Ok in H as [Hh Heq]. apply andb_true_iff in Hb as [_ HL%String.eqb_eq].
  remember (sdrop 72 b) as y eqn:Ey. remember (stake 64 (sdrop 8 b)) as x eqn:Ex. injection Heq as <- <-. split; [done |].
  pose proof (sdrop_sdrop 64 8 b) as E. change (8 + 64)%nat with 72%nat in E. by rewrite <-HL, Ex, Ey, <-E, !stake_sdrop.
Qed.
Lemma unpack_length b h m : unpack b = Ok (h, m) → slen m <= METADATA_BYTES ∧ slen b <= 72 + METADATA_BYTES.
Proof.
  intros H. pose proof (unpack_Ok _ _ _ H) as [Hh ->]. unfold unpack in H. apply ensure_bind_Ok in H as [Hb _].
  rewrite !andb_true_iff, !N.leb_le, !slen_app in Hb. apply hash_valid_spec in Hh as [Hl _].
  assert (slen h = 64) by (unfold slen; by rewrite Hl). assert (slen LINK = 8) by done. rewrite !slen_app. lia.
Qed.

(** ** The inventory *)

Definition inv_ok (i : Inventory) : Prop :=
  inv_rows i <= REVIEW_DISCUSSION_PROJECT_ROWS ∧ inv_bytes i <= REVIEW_DISCUSSION_PROJECT_BYTES.
Definition add_rows (is_body : bool) (i : Inventory) (rows : list (string * bytes)) : Inventory :=
  let n := N.of_nat (length rows) in
  {| inv_rows := inv_rows i + n; inv_bytes := inv_bytes i + cost rows;
     capture_count := capture_count i + (if is_body then 0 else n); body_count := body_count i + (if is_body then n else 0) |}.
Definition rows_of (is_body : bool) (p : string) (db : DB) : list (string * bytes) := family is_body p db.
Definition empty_inventory : Inventory := {| inv_rows := 0; inv_bytes := 0; capture_count := 0; body_count := 0 |}.

Lemma checked_add2_Some a x y n : checked_add2 a x y = Some n ↔ n = a + x + y ∧ n <= u64_max.
Proof.
  unfold checked_add2. rewrite bind_Some. setoid_rewrite checked_add_Some. split.
  - intros (m & [-> Hm] & -> & Hn). done.
  - intros [-> Hn]. exists (a + x). split; [split; [done | lia] | done].
Qed.
Lemma observe_Ok b p db i kv i' : observe b p db i kv = Ok i' ↔
  inv_rows i + 1 <= REVIEW_DISCUSSION_PROJECT_ROWS ∧ row_good b p db kv ∧
  inv_bytes i + cost [kv] <= REVIEW_DISCUSSION_PROJECT_BYTES ∧ i' = add_rows b i [kv].
Proof.
  destruct kv as [k v]. unfold observe, row_good, add_rows. cbn [fst snd cost length]. rewrite ensure_bind_Ok, andb_true_iff, N.ltb_lt, N.leb_le.
  rewrite result_bind_Ok. split.
  - intros ([Hr Hk] & [] & Hrow & H). apply result_bind_Ok in H as (t & Ht%ok_or_Ok%checked_add2_Some & H).
    apply ensure_bind_Ok in H as [Hle%N.leb_le [= <-]]. destruct Ht as [-> _]. split_and!; [lia | done | done | lia |].
    f_equal; try lia; by destruct b.
  - intros (Hr & [Hk Hrow] & Hle & ->). split; [lia |]. exists tt. split; [done |].
    rewrite (proj2 (checked_add2_Some _ _ _ (inv_bytes i + slen k + slen v))).
    + cbn [ok_or mbind result_bind]. rewrite ensure_bind_Ok, N.leb_le. split; [lia |]. f_equal. f_equal; try lia; by destruct b.
    + split; [done |]. unfold REVIEW_DISCUSSION_PROJECT_BYTES, u64_max in *. lia.
Qed.
Lemma observe_all b p db i rows i' : inv_ok i →
  result_foldl (observe b p db) i rows = Ok i' ↔ Forall (row_good b p db) rows ∧ inv_ok (add_rows b i rows) ∧ i' = add_rows b i rows.
Proof.
  revert i. induction rows as [|kv rows IH]; intros i Hi; cbn [result_foldl].
  - assert (Hz : add_rows b i [] = i) by (destruct i, b; unfold add_rows; cbn; f_equal; lia). rewrite Hz. naive_solver.
  - assert (Hs : ∀ i, add_rows b (add_rows b i [kv]) rows = add_rows b i (kv :: rows)).
    { intros j. unfold add_rows. destruct kv as [k v]. cbn [inv_rows inv_bytes capture_count body_count length cost]. f_equal; destruct b; lia. }
    rewrite result_bind_Ok, Forall_cons. split.
    + intros (j & (Hr & Hg & Hb & ->)%observe_Ok & H). apply IH in H as (Hall & Hok & ->); [| unfold inv_ok, add_rows; cbn [inv_rows inv_bytes length]; lia].
      rewrite <-Hs. done.
    + intros ([Hg Hall] & Hok & ->). exists (add_rows b i [kv]). rewrite <-Hs in Hok.
      assert (Hok1 : inv_ok (add_rows b i [kv])) by (unfold inv_ok, add_rows in *; cbn [inv_rows inv_bytes length] in *; lia).
      split; [| apply IH; rewrite <-?Hs; done]. apply observe_Ok. unfold inv_ok, add_rows in Hok1. cbn [inv_rows inv_bytes length] in Hok1.
      split_and!; [lia | done | lia | done].
Qed.
(** The inventory, in one piece. *)
Lemma inventory_Ok p db i : inventory p db = Ok i ↔
  let C := family false p db in let B := family true p db in
  Forall (row_good false p db) C ∧ Forall (row_good true p db) B ∧
  N.of_nat (length C + length B) <= REVIEW_DISCUSSION_PROJECT_ROWS ∧ cost C + cost B <= REVIEW_DISCUSSION_PROJECT_BYTES ∧
  i = {| inv_rows := N.of_nat (length C + length B); inv_bytes := cost C + cost B;
         capture_count := N.of_nat (length C); body_count := N.of_nat (length B) |}.
Proof.
  cbv zeta. unfold inventory. fold empty_inventory. set (C := family false p db). set (B := family true p db). rewrite result_bind_Ok.
  assert (H0 : inv_ok empty_inventory) by (unfold inv_ok; cbn; split; discriminate || lia).
  assert (Hadd : add_rows true (add_rows false empty_inventory C) B = {| inv_rows := N.of_nat (length C + length B); inv_bytes := cost C + cost B;
         capture_count := N.of_nat (length C); body_count := N.of_nat (length B) |}).
  { unfold add_rows, empty_inventory. cbn [inv_rows inv_bytes capture_count body_count]. f_equal; lia. }
  rewrite <-Hadd. split.
  - intros (j & (HC & Hok & ->)%observe_all & H); [| done]. apply observe_all in H as (HB' & Hok' & ->); [| done].
    rewrite Hadd in *. destruct Hok' as [? ?]. cbn [inv_rows inv_bytes] in *. done.
  - intros (HC & HB' & Hr & Hb & ->). exists (add_rows false empty_inventory C).
    assert (Hok : inv_ok (add_rows false empty_inventory C)) by (unfold inv_ok, add_rows; cbn [inv_rows inv_bytes empty_inventory]; lia).
    split; [by apply observe_all | apply observe_all; [done |]]. split_and!; [done | | done]. rewrite Hadd. unfold inv_ok. cbn [inv_rows inv_bytes]. done.
Qed.

(** ** The batch *)

Lemma result_foldl_app {S A} (f : S → A → result S) s l k :
  result_foldl f s (l ++ k) = (s' ← result_foldl f s l; result_foldl f s' k).
Proof. revert s. induction l as [|a l IH]; intros s; [done |]. cbn [result_foldl app]. destruct (f s a); cbn [mbind result_bind]; [apply IH | done]. Qed.
Lemma result_foldl_snoc {S A} (f : S → A → result S) s l a s' :
  result_foldl f s (l ++ [a]) = Ok s' ↔ ∃ t, result_foldl f s l = Ok t ∧ f t a = Ok s'.
Proof.
  rewrite result_foldl_app, result_bind_Ok. cbn [result_foldl]. split; intros (t & Ht & H); exists t; (split; [done |]).
  - by apply result_bind_Ok in H as (u & Hu & [= <-]).
  - by rewrite H.
Qed.

(** What a checked batch is. *)
Record batch_good (p : string) (records : list ReviewDiscussionRecord) (b : Batch) : Prop := {
  good_records : Forall (record_good p) records;
  good_keys : NoDup (ckey p <$> records);
  good_key_set k : k ∈ batch_keys b ↔ k ∈ ckey p <$> records;
  good_bodies r : r ∈ records → bodies b !! raw_payload_blake3 r = Some (raw_payload r);
  good_body h v : bodies b !! h = Some v → ∃ r, r ∈ records ∧ h = raw_payload_blake3 r ∧ v = raw_payload r;
}.
Lemma check_record_Ok p b r b' : check_record p b r = Ok b' →
  record_good p r ∧ ckey p r ∉ batch_keys b ∧ (∀ prior, bodies b !! raw_payload_blake3 r = Some prior → prior = raw_payload r) ∧
  batch_keys b' = {[ckey p r]} ∪ batch_keys b ∧ bodies b' = <[raw_payload_blake3 r := raw_payload r]> (bodies b).
Proof.
  unfold check_record. intros [Hc H]%ensure_bind_Ok. apply result_bind_Ok in H as (t & _ & H). apply ensure_bind_Ok in H as [_ H].
  apply result_bind_Ok in H as (k & (Hp & Hr & Hh & ->)%capture_key_Ok & H). apply ensure_bind_Ok in H as [Hk%bool_decide_eq_true H].
  apply ensure_bind_Ok in H as [Hb [= <-]]. rewrite !andb_true_iff, !N.leb_le, !String.eqb_eq in Hc. destruct Hc as [[[Hm Hraw] Hch] Hrh].
  split_and!; try done. intros prior Hprior. rewrite Hprior in Hb. by apply String.eqb_eq.
Qed.
Lemma check_batch_Ok p records b : check_batch p records = Ok b →
  valid_component p = true ∧ slen p <= 128 ∧ batch_good p records b.
Proof.
  unfold check_batch. intros H. apply result_bind_Ok in H as ([] & Hp%validate_key_component_Ok & H).
  apply ensure_bind_Ok in H as [[Hl%N.leb_le _]%andb_true_iff H]. split_and!; [done | done |].
  revert b H. induction records as [|r records IH] using rev_ind; intros b H.
  { injection H as <-. split; try constructor; cbn; set_solver. }
  apply result_foldl_snoc in H as (b0 & H0 & (Hg & Hk & Hprior & Hkeys & Hbodies)%check_record_Ok). destruct (IH b0 H0) as [G1 G2 G3 G4 G5].
  split.
  - apply Forall_app. split; [done | by apply Forall_singleton].
  - rewrite fmap_app. apply NoDup_app. split_and!; [done | | apply NoDup_singleton].
    intros k Hk' Hr%list_elem_of_singleton. subst k. by apply Hk, G3.
  - intros k. rewrite Hkeys, fmap_app, elem_of_app, elem_of_union, G3. cbn. set_solver.
  - intros r' [Hr'| ->%list_elem_of_singleton]%elem_of_app; rewrite Hbodies; [| apply lookup_insert_eq].
    specialize (G4 r' Hr'). destruct (decide (raw_payload_blake3 r' = raw_payload_blake3 r)) as [E|]; [| by rewrite lookup_insert_ne].
    rewrite E, lookup_insert_eq. rewrite E in G4. by apply Hprior in G4 as ->.
  - intros h v. rewrite Hbodies, lookup_insert_Some. intros [[<- <-]|[_ (r' & ? & ? & ?)%G5]]; [exists r | exists r']; set_solver.
Qed.

(** ** What is pending *)

Lemma add_pending_Ok cost0 row s s' : add_pending cost0 row s = Ok s' ↔
  ∃ total, cost0 = Some total ∧ count_rows s + 1 <= u64_max ∧
    s' = {| count_rows := count_rows s + 1; count_bytes := total; pending_rows := pending_rows s ++ [row] |}.
Proof.
  unfold add_pending. rewrite result_bind_Ok. split.
  - intros (n & [-> Hn]%ok_or_Ok%checked_add_Some & H). apply result_bind_Ok in H as (t & Ht%ok_or_Ok & [= <-]). by exists t.
  - intros (t & -> & Hn & ->). exists (count_rows s + 1). split; [by apply ok_or_Ok, checked_add_Some | done].
Qed.
Definition pend (s : Pending) (rows : list (string * bytes)) : Pending :=
  {| count_rows := count_rows s + N.of_nat (length rows); count_bytes := count_bytes s + cost rows; pending_rows := pending_rows s ++ rows |}.
Lemma pend_nil s : pend s [] = s.
Proof. destruct s. unfold pend. cbn. f_equal; [lia | lia | apply app_nil_r]. Qed.
Lemma pend_app s l k : pend (pend s l) k = pend s (l ++ k).
Proof. unfold pend. cbn [count_rows count_bytes pending_rows]. rewrite length_app, cost_app, app_assoc. f_equal; lia. Qed.

Lemma plan_body_fold p db s hps s' : result_foldl (plan_body p db) s hps = Ok s' →
  s' = pend s (new_bodies p db hps) ∧
  Forall (λ hp, hash_valid hp.1 = true ∧ (meta (bkey p hp.1) db = None ∨ meta (bkey p hp.1) db = Some hp.2)) hps.
Proof.
  revert s'. induction hps as [|[h v] hps IH] using rev_ind; intros s'.
  { intros [= <-]. by rewrite pend_nil. }
  intros (t & Ht & H)%result_foldl_snoc. destruct (IH t Ht) as [-> Hall]. unfold plan_body in H. cbn [fst snd] in H.
  apply result_bind_Ok in H as (k & [Hh ->]%body_key_Ok & H). unfold new_bodies. rewrite omap_app. fold (new_bodies p db hps). cbn [omap list_omap fst snd].
  rewrite Forall_app, Forall_singleton. cbn [fst snd]. destruct (meta (bkey p h) db) as [prior|].
  - apply ensure_bind_Ok in H as [->%String.eqb_eq [= <-]]. rewrite app_nil_r. auto.
  - apply add_pending_Ok in H as (t' & [-> _]%checked_add2_Some & _ & ->). split; [| auto].
    rewrite <-pend_app. unfold pend. cbn [count_rows count_bytes pending_rows length cost]. f_equal; lia.
Qed.
Lemma plan_capture_fold p db s records s' : Forall (λ r, hash_valid (raw_payload_blake3 r) = true) records →
  result_foldl (plan_capture p db) s records = Ok s' →
  s' = pend s (new_captures p db records) ∧
  Forall (λ r, meta (ckey p r) db = None ∨ ∃ b, meta (ckey p r) db = Some b ∧ unpack b = Ok (raw_payload_blake3 r, payload r)) records.
Proof.
  revert s'. induction records as [|r records IH] using rev_ind; intros s' Hraw.
  { intros [= <-]. by rewrite pend_nil. }
  apply Forall_app in Hraw as [Hraws Hraw]. rewrite Forall_singleton in Hraw.
  intros (t & Ht & H)%result_foldl_snoc. destruct (IH t Hraws Ht) as [-> Hall]. unfold plan_capture in H.
  apply result_bind_Ok in H as (k & (_ & _ & Hh & ->)%capture_key_Ok & H). unfold new_captures. rewrite omap_app. fold (new_captures p db records). cbn [omap list_omap].
  rewrite Forall_app, Forall_singleton. destruct (meta (ckey p r) db) as [prior|].
  - apply result_bind_Ok in H as ([h m] & Hu & H). cbn [fst snd] in H.
    apply ensure_bind_Ok in H as [[->%String.eqb_eq ->%String.eqb_eq]%andb_true_iff [= <-]]. rewrite app_nil_r. eauto 10.
  - apply add_pending_Ok in H as (t' & Hc & _ & ->). split; [| auto]. apply bind_Some in Hc as (n & [-> _]%checked_add2_Some & [-> _]%checked_add_Some).
    rewrite <-pend_app. unfold pend. cbn [count_rows count_bytes pending_rows length cost]. f_equal.
    assert (Hl : slen (link r) = 72 + slen (payload r)); [| lia].
    apply hash_valid_spec in Hraw as [Hlen _]. unfold link. assert (slen LINK = 8) by done.
    assert (slen (raw_payload_blake3 r) = 64) by (unfold slen; by rewrite Hlen). rewrite !slen_app. lia.
Qed.

(** ** The rows of a committed store *)

Definition stored_db (p : string) (db : DB) (hps : list (string * bytes)) (records : list ReviewDiscussionRecord) (rows total : N) : DB :=
  <[(META, quota_key p) := quota_row rows total]> (insert_rows (new_captures p db records) (insert_rows (new_bodies p db hps) db)).
Lemma lookup_insert_rows_discussion rows db j :
  NoDup rows.*1 → insert_rows rows db !! j = match j with
    | (META, k) => match (list_to_map rows : gmap string bytes) !! k with Some v => Some v | None => db !! j end
    | _ => db !! j end.
Proof.
  unfold insert_rows. revert db. induction rows as [|[k v] rows IH]; intros db Hnd; cbn [foldl]; [by destruct j as [[] ?] |].
  apply NoDup_cons in Hnd as [Hk Hnd]. rewrite IH by done. destruct j as [[] k']; try (rewrite lookup_insert_ne; [done | by intros [=]]).
  cbn [list_to_map foldr fst snd]. destruct (decide (k = k')) as [->|Hne].
  - rewrite lookup_insert_eq, lookup_insert_eq. by rewrite (proj1 (not_elem_of_list_to_map _ _)) by done.
  - rewrite lookup_insert_ne by congruence. by rewrite lookup_insert_ne by congruence.
Qed.
Lemma insert_rows_meta rows db k v : NoDup rows.*1 → (∀ w, (k, w) ∈ rows → meta k db = None) →
  meta k (insert_rows rows db) = Some v ↔ (k, v) ∈ rows ∨ meta k db = Some v.
Proof.
  intros Hnd Hnew. unfold meta at 1. rewrite lookup_insert_rows_discussion by done.
  destruct ((list_to_map rows : gmap string bytes) !! k) as [w|] eqn:E.
  - pose proof (elem_of_list_to_map_2 _ _ _ E) as Hin. rewrite (Hnew w Hin). split; [intros [= ->]; by left |].
    intros [H|?]; [| done]. apply (elem_of_list_to_map_1 (M := gmap string)) in H; [congruence | done].
  - split; [by right |]. intros [H|?]; [| done]. apply not_elem_of_list_to_map in E. exfalso. apply E, list_elem_of_fmap. by exists (k, v).
Qed.

Lemma new_bodies_spec p db hps k v : (k, v) ∈ new_bodies p db hps ↔ ∃ h, (h, v) ∈ hps ∧ k = bkey p h ∧ meta k db = None.
Proof.
  unfold new_bodies. rewrite list_elem_of_omap. split.
  - intros ([h w] & Hin & Hk). cbn [fst snd] in Hk. destruct (meta (bkey p h) db) eqn:E; [done |]. injection Hk as <- <-. by exists h.
  - intros (h & Hin & -> & Hm). exists (h, v). split; [done |]. cbn [fst snd]. by rewrite Hm.
Qed.
Lemma new_captures_spec p db records k v : (k, v) ∈ new_captures p db records ↔
  ∃ r, r ∈ records ∧ k = ckey p r ∧ v = link r ∧ meta k db = None.
Proof.
  unfold new_captures. rewrite list_elem_of_omap. split.
  - intros (r & Hin & Hk). destruct (meta (ckey p r) db) eqn:E; [done |]. injection Hk as <- <-. by exists r.
  - intros (r & Hin & -> & -> & Hm). exists r. split; [done |]. by rewrite Hm.
Qed.
Lemma NoDup_new_bodies p db hps : NoDup hps.*1 → NoDup (new_bodies p db hps).*1.
Proof.
  induction hps as [|[h v] hps IH]; [constructor |]. cbn. intros [Hh Hnd]%NoDup_cons. destruct (meta (bkey p h) db) eqn:E; [by apply IH |].
  cbn. apply NoDup_cons. split; [| by apply IH]. intros ([k w] & Hk & (h' & Hin & Hk' & _)%new_bodies_spec)%list_elem_of_fmap.
  cbn in Hk. rewrite Hk' in Hk. apply bkey_inj in Hk as <-. apply Hh, list_elem_of_fmap. by exists (h, w).
Qed.
Lemma NoDup_new_captures p db records : NoDup (ckey p <$> records) → NoDup (new_captures p db records).*1.
Proof.
  induction records as [|r records IH]; [constructor |]. cbn. intros [Hr Hnd]%NoDup_cons. destruct (meta (ckey p r) db) eqn:E; [by apply IH |].
  cbn. apply NoDup_cons. split; [| by apply IH]. intros ([k w] & Hk & (r' & Hin & Hk' & _)%new_captures_spec)%list_elem_of_fmap.
  cbn in Hk. apply Hr, list_elem_of_fmap. exists r'. split; [congruence | done].
Qed.
Lemma new_bodies_family p db hps k v : (k, v) ∈ new_bodies p db hps → starts_with (family_prefix true p) k = true.
Proof. intros (h & _ & -> & _)%new_bodies_spec. apply bkey_family. Qed.
Lemma new_captures_family p db records k v : (k, v) ∈ new_captures p db records → starts_with (family_prefix false p) k = true.
Proof. intros (r & _ & -> & _ & _)%new_captures_spec. apply ckey_family. Qed.

Section committed.
Context (p : string) (db : DB) (hps : list (string * bytes)) (records : list ReviewDiscussionRecord) (rows total : N).
Hypothesis Hp : valid_component p = true.
Hypothesis Hhps : NoDup hps.*1.
Hypothesis Hrecords : NoDup (ckey p <$> records).
Notation db' := (stored_db p db hps records rows total).
Notation news b := (if b : bool then new_bodies p db hps else new_captures p db records).

Lemma stored_meta k v : k ≠ quota_key p →
  meta k db' = Some v ↔ (k, v) ∈ new_captures p db records ∨ (k, v) ∈ new_bodies p db hps ∨ meta k db = Some v.
Proof.
  intros Hk. unfold stored_db, meta at 1. rewrite lookup_insert_ne by congruence.
  assert (HB' : ∀ k v, meta k (insert_rows (new_bodies p db hps) db) = Some v ↔ (k, v) ∈ new_bodies p db hps ∨ meta k db = Some v).
  { intros k' v'. apply insert_rows_meta; [by apply NoDup_new_bodies |]. by intros w (h & _ & _ & ?)%new_bodies_spec. }
  change (meta k (insert_rows (new_captures p db records) (insert_rows (new_bodies p db hps) db)) = Some v ↔
    (k, v) ∈ new_captures p db records ∨ (k, v) ∈ new_bodies p db hps ∨ meta k db = Some v).
  rewrite insert_rows_meta, HB'; [done | by apply NoDup_new_captures |].
  intros w Hw. destruct (meta k (insert_rows (new_bodies p db hps) db)) as [u|] eqn:E; [| done].
  apply HB' in E as [E|E].
  - apply new_bodies_family, family_other in E. apply new_captures_family in Hw. cbn [negb] in E. congruence.
  - apply new_captures_spec in Hw as (r & _ & _ & _ & Hn). congruence.
Qed.
Lemma stored_other t k : t ≠ META → db' !! (t, k) = db !! (t, k).
Proof.
  intros Ht. unfold stored_db. rewrite lookup_insert_ne by congruence. rewrite !lookup_insert_rows_discussion by (by apply NoDup_new_captures || by apply NoDup_new_bodies).
  by destruct t.
Qed.
(** Each family grows by its new rows. *)
Lemma family_nodup b q (d : DB) : NoDup (family b q d).*1.
Proof.
  unfold family. rewrite prefix_scan_filter by apply table_rows_sorted. apply NoDup_fst_filter, NoDup_table_rows.
Qed.
Lemma elem_of_family b q (d : DB) k v : (k, v) ∈ family b q d ↔ starts_with (family_prefix b q) k = true ∧ meta k d = Some v.
Proof. apply elem_of_prefix_scan. Qed.
Lemma family_stored b : family b p db' ≡ₚ news b ++ family b p db.
Proof.
  assert (Hnews : ∀ k v, (k, v) ∈ news b → starts_with (family_prefix b p) k = true ∧ meta k db = None).
  { intros k v Hin. destruct b; [split; [by eapply new_bodies_family |] | split; [by eapply new_captures_family |]].
    - by apply new_bodies_spec in Hin as (? & _ & _ & ?).
    - by apply new_captures_spec in Hin as (? & _ & _ & _ & ?). }
  apply NoDup_Permutation.
  - eapply NoDup_fmap_1, family_nodup.
  - apply (NoDup_fmap_1 fst). rewrite fmap_app. apply NoDup_app. split_and!; [| | apply family_nodup].
    + destruct b; [by apply NoDup_new_bodies | by apply NoDup_new_captures].
    + intros k ([k1 v1] & -> & [_ H1]%Hnews)%list_elem_of_fmap ([k2 v2] & Hk & [_ H2]%elem_of_family)%list_elem_of_fmap. cbn in *. congruence.
  - intros [k v]. rewrite elem_of_app, !elem_of_family. split.
    + intros [Hs Hm]. apply stored_meta in Hm as [Hm|[Hm|Hm]]; [| | by right |].
      * destruct b; [| by left]. apply new_captures_family, family_other in Hm. cbn [negb] in Hm. congruence.
      * destruct b; [by left |]. apply new_bodies_family, family_other in Hm. cbn [negb] in Hm. congruence.
      * intros ->. by rewrite quota_family in Hs.
    + intros [Hin|[Hs Hm]].
      * destruct (Hnews _ _ Hin) as [Hs _]. split; [done |]. apply stored_meta; [intros ->; by rewrite quota_family in Hs |]. destruct b; auto.
      * split; [done |]. apply stored_meta; [intros ->; by rewrite quota_family in Hs | auto].
Qed.
End committed.

(** ** A store *)

(** What a store that returns has checked, and what it has written. *)
Record Stored (p : string) (records : list ReviewDiscussionRecord) (w : ReviewDiscussionWrite) (db db' : DB) (hps : list (string * bytes)) : Prop := {
  st_project : valid_component p = true ∧ slen p <= 128;
  st_records : Forall (record_good p) records;
  st_keys : NoDup (ckey p <$> records);
  st_bodies_nodup : NoDup hps.*1;
  st_body h v : (h, v) ∈ hps ↔ ∃ r, r ∈ records ∧ h = raw_payload_blake3 r ∧ v = raw_payload r;
  st_old_bodies : Forall (λ hp, meta (bkey p hp.1) db = None ∨ meta (bkey p hp.1) db = Some hp.2) hps;
  st_old_captures : Forall (λ r, meta (ckey p r) db = None ∨ ∃ b, meta (ckey p r) db = Some b ∧ unpack b = Ok (raw_payload_blake3 r, payload r)) records;
  st_inventory : ∃ i, inventory p db = Ok i ∧
    (∃ stated, transpose quota (meta (quota_key p) db) = Ok stated ∧ default (0, 0) stated = (inv_rows i, inv_bytes i)) ∧
    retained_records w = inv_rows i + N.of_nat (length (new_bodies p db hps) + length (new_captures p db records)) ∧
    retained_bytes w = inv_bytes i + (cost (new_bodies p db hps) + cost (new_captures p db records)) ∧
    retained_captures w = capture_count i + N.of_nat (length (new_captures p db records)) ∧
    retained_payloads w = body_count i + N.of_nat (length (new_bodies p db hps));
  st_limits : retained_records w <= REVIEW_DISCUSSION_PROJECT_ROWS ∧ retained_bytes w <= REVIEW_DISCUSSION_PROJECT_BYTES;
  st_written : db' = stored_db p db hps records (retained_records w) (retained_bytes w) ∨
    (new_bodies p db hps = [] ∧ new_captures p db records = [] ∧ db' = db);
}.
Lemma record_good_raw p records : Forall (record_good p) records → Forall (λ r, hash_valid (raw_payload_blake3 r) = true) records.
Proof. intros H. eapply Forall_impl; [exact H |]. intros r Hr. rewrite (good_raw_hash _ _ Hr). apply blake3_valid. Qed.
Lemma store_cases p records db :
  let db' := (store_review_discussions p records db).1 in
  match (store_review_discussions p records db).2 with
  | Ok w => ∃ hps, Stored p records w db db' hps
  | Fail _ => db' = db
  end.
Proof.
  intros db'. unfold db', store_review_discussions, guarded. destruct (check_batch p records) as [batch|e] eqn:Hb; [| done].
  apply check_batch_Ok in Hb as (Hp & Hl & [G1 G2 G3 G4 G5]).
  match goal with |- context [write_tx ?b db] => set (body := b) end.
  destruct (write_tx body db) as [d [w|e]] eqn:Hw; cbn [fst snd]; [| by pose proof (write_tx_unchanged body db e) as Hu; rewrite Hw in Hu; apply Hu].
  set (hps := sort_rows (map_to_list (bodies batch))) in *.
  assert (Hhps : NoDup hps.*1) by (unfold hps; rewrite sort_rows_perm; apply NoDup_fst_map_to_list).
  assert (Hin : ∀ h v, (h, v) ∈ hps ↔ ∃ r, r ∈ records ∧ h = raw_payload_blake3 r ∧ v = raw_payload r).
  { intros h v. unfold hps. rewrite sort_rows_perm, elem_of_map_to_list. split; [apply G5 |]. intros (r & Hr & -> & ->). by apply G4. }
  assert (Hbody : ∃ out, body db = Ok out ∧ match out.1 with Commit w' => w' = w ∧ out.2 = d | Rollback w' => w' = w ∧ d = db end).
  { unfold write_tx in Hw. destruct (body db) as [[[w'|w'] d']|]; simplify_eq; by eexists. }
  destruct Hbody as (out & Hbody & Hout). unfold body in Hbody.
  apply result_bind_Ok in Hbody as (stated & Hstated & Hbody). apply result_bind_Ok in Hbody as (seen & Hseen & Hbody).
  apply ensure_bind_Ok in Hbody as [_ Hbody]. apply ensure_bind_Ok in Hbody as [Hq%bool_decide_eq_true Hbody].
  apply result_bind_Ok in Hbody as (pb & (-> & Hob)%plan_body_fold & Hbody).
  apply result_bind_Ok in Hbody as (pc & (-> & Hoc)%plan_capture_fold & Hbody); [| by eapply record_good_raw].
  apply ensure_bind_Ok in Hbody as [[Hlr%N.leb_le Hlb%N.leb_le]%andb_true_iff Hbody].
  exists hps. cbn [pend count_rows count_bytes pending_rows app] in *.
  assert (Hw' : out.1 = Commit w ∨ out.1 = Rollback w) by (destruct out as [[w'|w'] ?]; naive_solver).
  set (nb := new_bodies p db hps) in *. set (nc := new_captures p db records) in *.
  assert (Hrec : retained_records w = inv_rows seen + N.of_nat (length nb) + N.of_nat (length nc) ∧
    retained_bytes w = inv_bytes seen + cost nb + cost nc ∧ retained_captures w = capture_count seen + N.of_nat (length nc) ∧
    retained_payloads w = body_count seen + N.of_nat (length nb)).
  { destruct (_ && _) in Hbody; injection Hbody as <-; cbn [fst] in Hw'; destruct Hw' as [Hw'|Hw']; try discriminate Hw';
      injection Hw' as <-; done. }
  destruct Hrec as (Hr1 & Hr2 & Hr3 & Hr4).
  split; try done.
  - eapply Forall_impl; [exact Hob |]. tauto.
  - exists seen. fold nb nc. split_and!; [done | by eexists | lia | lia | done | done].
  - rewrite Hr1, Hr2. lia.
  - destruct (bool_decide (nb = []) && bool_decide (nc = [])) eqn:E; injection Hbody as <-; cbn [fst snd] in Hout; destruct Hout as [_ Hd].
    + right. apply andb_true_iff in E as [E1%bool_decide_eq_true E2%bool_decide_eq_true]. done.
    + left. rewrite <-Hd. unfold stored_db. fold nb nc. by rewrite Hr1, Hr2.
Qed.

Definition store_db (p : string) (records : list ReviewDiscussionRecord) (db : DB) : DB := (store_review_discussions p records db).1.
Lemma Stored_meta p records w db db' hps k v : Stored p records w db db' hps → k ≠ quota_key p →
  meta k db' = Some v ↔ (k, v) ∈ new_captures p db records ∨ (k, v) ∈ new_bodies p db hps ∨ meta k db = Some v.
Proof.
  intros [[Hp _] _ Hk Hh _ _ _ _ _ [->|(Hnb & Hnc & ->)]] Hne; [by apply stored_meta |]. rewrite Hnb, Hnc. set_solver.
Qed.
(** Evidence stays as it is, whatever is stored for whatever project. *)
Lemma store_keeps b q p records db k v : valid_component q = true → starts_with (family_prefix b q) k = true →
  meta k db = Some v → meta k (store_db p records db) = Some v.
Proof.
  intros Hq Hk Hv. unfold store_db. pose proof (store_cases p records db) as H. cbv zeta in H.
  destruct (store_review_discussions p records db) as [db' [w|e]]; cbn [fst snd] in *; [| by subst].
  destruct H as [hps H]. apply (Stored_meta _ _ _ _ _ _ k v H); [| auto].
  intros ->. by rewrite quota_family in Hk by (done || apply H).
Qed.
Lemma run_keeps b q ops db k v : valid_component q = true → starts_with (family_prefix b q) k = true →
  meta k db = Some v → meta k (run_stores ops db) = Some v.
Proof.
  intros Hq Hk. unfold run_stores. revert db. induction ops as [|op ops IH]; intros db Hv; [done |]. cbn [foldl].
  apply IH. by apply (store_keeps b q).
Qed.

(** Reading an identity that is there. *)
Lemma inspect_there {T} p review thread h (inspect : bytes → bytes → result T) db b raw_hash m raw :
  valid_component p = true → slen p <= 128 → valid_component review = true → slen review <= 256 → hash_valid h = true →
  meta (review_prefix p review +:+ suffix_text thread h) db = Some b → unpack b = Ok (raw_hash, m) → h = blake3_hex m →
  meta (bkey p raw_hash) db = Some raw → slen raw <= BODY_BYTES → raw_hash = blake3_hex raw →
  inspect_review_discussion p review thread h inspect db = inspect m raw.
Proof.
  intros Hp Hl Hr Hl' Hh Hb Hu Hm Hraw Hlen Hrh. unfold inspect_review_discussion. rewrite (proj2 (scope_Ok _ _ _)) by done.
  cbn [mbind result_bind]. rewrite (proj2 (suffix_Ok _ _ _)) by done. cbn [mbind result_bind]. rewrite Hb. cbn [ok_or mbind result_bind].
  rewrite Hu. cbn [mbind result_bind fst snd]. rewrite <-Hm, String.eqb_refl. cbn [ensure mbind result_bind].
  rewrite (proj2 (body_key_Ok p raw_hash (bkey p raw_hash))) by (split; [rewrite Hrh; apply blake3_valid | done]). cbn [mbind result_bind]. rewrite Hraw.
  cbn [ok_or mbind result_bind]. rewrite <-Hrh, String.eqb_refl, (proj2 (N.leb_le (slen raw) BODY_BYTES) Hlen). done.
Qed.
Lemma inspect_Ok {T} p review thread h (inspect : bytes → bytes → result T) db x :
  inspect_review_discussion p review thread h inspect db = Ok x →
  ∃ b raw_hash m raw, (valid_component p = true ∧ slen p <= 128) ∧ (valid_component review = true ∧ slen review <= 256) ∧ hash_valid h = true ∧
    meta (review_prefix p review +:+ suffix_text thread h) db = Some b ∧ unpack b = Ok (raw_hash, m) ∧ h = blake3_hex m ∧
    meta (bkey p raw_hash) db = Some raw ∧ slen raw <= BODY_BYTES ∧ raw_hash = blake3_hex raw ∧ inspect m raw = Ok x.
Proof.
  unfold inspect_review_discussion. intros H. apply result_bind_Ok in H as (sc & (Hp & Hr & ->)%scope_Ok & H).
  apply result_bind_Ok in H as (sx & [Hh ->]%suffix_Ok & H). apply result_bind_Ok in H as (b & Hb%ok_or_Ok & H).
  apply result_bind_Ok in H as ([rh m] & Hu & H). cbn [fst snd] in H. apply ensure_bind_Ok in H as [Hm%String.eqb_eq H].
  apply result_bind_Ok in H as (bk & [_ ->]%body_key_Ok & H). apply result_bind_Ok in H as (raw & Hraw%ok_or_Ok & H).
  apply ensure_bind_Ok in H as [[Hl%N.leb_le Hrh%String.eqb_eq]%andb_true_iff H]. exists b, rh, m, raw. destruct Hp, Hr. by split_and!.
Qed.
Lemma review_prefix_family p review t : starts_with (family_prefix false p) (review_prefix p review +:+ t) = true.
Proof.
  apply starts_with_spec. exists (review +:+ str1 NUL +:+ t). unfold review_prefix, family_prefix. by rewrite !project_key_app, !app_assoc_str.
Qed.

(** ** The quota *)

Lemma quota_row_Ok rows total : rows <= REVIEW_DISCUSSION_PROJECT_ROWS → total <= REVIEW_DISCUSSION_PROJECT_BYTES →
  quota (quota_row rows total) = Ok (rows, total).
Proof.
  intros Hr Ht. unfold quota, quota_row. unfold REVIEW_DISCUSSION_PROJECT_ROWS, REVIEW_DISCUSSION_PROJECT_BYTES in *.
  pose proof (le_split_length 8 rows) as L1. pose proof (le_split_length 8 total) as L2. fold (to_le_bytes rows) in L1. fold (to_le_bytes total) in L2.
  rewrite (stake_app 8), (sdrop_app 8) by done. rewrite (stake_app 8) by done.
  assert (Hd : sdrop 16 (MAGIC +:+ to_le_bytes rows +:+ to_le_bytes total) = to_le_bytes total).
  { rewrite <-app_assoc_str. apply sdrop_app. by rewrite length_app_str, L1. }
  assert (Hs : stake 8 (to_le_bytes total) = to_le_bytes total).
  { rewrite <-(app_nil_r_str (to_le_bytes total)) at 1. by apply stake_app. }
  rewrite Hd, Hs, !from_to_le_bytes by (unfold u64_max; lia). rewrite ensure_bind_Ok, andb_true_iff, N.eqb_eq, String.eqb_refl. split.
  - split; [| done]. unfold slen. rewrite !length_app_str, L1, L2. done.
  - rewrite ensure_bind_Ok, andb_true_iff, !N.leb_le. done.
Qed.
Lemma split_family b p t : default "" (strip_prefix (project_key p (if b : bool then BODIES else PREFIX)) (family_prefix b p +:+ t)) = t.
Proof. unfold family_prefix. by rewrite strip_prefix_app. Qed.
(** The row of a new body, and that of a new capture whose body is there. *)
Lemma new_body_good p db db' hps records w k v : Stored p records w db db' hps → (k, v) ∈ new_bodies p db hps → row_good true p db' (k, v).
Proof.
  intros H (h & Hin & -> & _)%new_bodies_spec. apply (st_body _ _ _ _ _ _ H) in Hin as (r & Hr & -> & ->).
  assert (Hg : record_good p r) by (eapply Forall_forall; [apply (st_records _ _ _ _ _ _ H) | done]). destruct Hg as [_ Hraw _ Hrh _ [_ Hl]].
  assert (Hlen : slen (raw_payload_blake3 r) = 64) by (rewrite Hrh; unfold slen; by rewrite (proj1 (blake3_hex_shape _))).
  split; cbn [fst snd].
  - unfold bkey, project_key, project_prefix. rewrite !slen_app, Hlen. change (slen (str1 NUL)) with 1. change (slen BODIES) with 29. lia.
  - unfold check_body_row. cbn [fst snd]. change (project_key p BODIES) with (family_prefix true p).
    assert (Hs : strip_prefix (family_prefix true p) (bkey p (raw_payload_blake3 r)) = Some (raw_payload_blake3 r)).
    { apply strip_prefix_Some. unfold family_prefix, bkey. by rewrite project_key_app. }
    rewrite Hs. cbn [default]. apply ensure_Ok. rewrite andb_true_iff, N.leb_le, Hrh. split; [apply blake3_valid | done].
Qed.
Lemma new_capture_good p db db' hps records w k v : Stored p records w db db' hps → Forall (λ r, thread_id r <= u64_max) records →
  (∀ r, r ∈ records → meta (bkey p (raw_payload_blake3 r)) db' = Some (raw_payload r)) →
  (k, v) ∈ new_captures p db records → row_good false p db' (k, v).
Proof.
  intros H Ht Hbody (r & Hr & -> & -> & _)%new_captures_spec. specialize (Hbody r Hr).
  assert (Hth : thread_id r <= u64_max) by (by eapply Forall_forall in Ht).
  assert (Hg : record_good p r) by (eapply Forall_forall; [apply (st_records _ _ _ _ _ _ H) | done]). destruct Hg as [Hm Hraw Hc Hrh [Hrev Hrl] [_ Hl]].
  assert (Hv : hash_valid (capture_blake3 r) = true) by (rewrite Hc; apply blake3_valid). split; cbn [fst snd].
  - unfold ckey, review_prefix. rewrite project_key_app. unfold project_key, project_prefix. rewrite !slen_app, suffix_length by done.
    change (slen (str1 NUL)) with 1. change (slen PREFIX) with 21. lia.
  - unfold check_capture_row. cbn [fst snd].
    assert (Hs : strip_prefix (project_key p PREFIX) (ckey p r) = Some (review_id r +:+ String NUL (suffix_text (thread_id r) (capture_blake3 r)))).
    { apply strip_prefix_Some. unfold ckey, review_prefix. by rewrite !project_key_app, !app_assoc_str. }
    assert (Hsp : split_once NUL (review_id r +:+ String NUL (suffix_text (thread_id r) (capture_blake3 r))) =
      Some (review_id r, suffix_text (thread_id r) (capture_blake3 r))) by by apply split_once_first, valid_component_no_NUL.
    rewrite Hs. cbn [from_option]. unfold id at 1. rewrite Hsp.
    cbn [ok_or mbind result_bind fst snd]. rewrite (proj2 (validate_key_component_Ok "review_id" _) Hrev : vk "review_id" (review_id r) = Ok tt).
    cbn [mbind result_bind]. rewrite ensure_bind_Ok, N.leb_le. split; [done |].
    rewrite parse_suffix_text by done. cbn [mbind result_bind]. unfold link. rewrite unpack_link by (rewrite ?Hrh; apply blake3_valid || done).
    cbn [mbind result_bind fst snd]. rewrite <-Hc, String.eqb_refl. cbn [ensure mbind result_bind].
    rewrite (proj2 (body_key_Ok p (raw_payload_blake3 r) (bkey p (raw_payload_blake3 r)))) by (split; [rewrite Hrh; apply blake3_valid | done]).
    cbn [mbind result_bind]. rewrite Hbody. cbn [ok_or mbind result_bind]. by apply ensure_Ok, N.leb_le.
Qed.
(** What was good stays good. *)
Lemma row_good_keeps b p db db' kv : (∀ k v, starts_with (family_prefix true p) k = true → meta k db = Some v → meta k db' = Some v) →
  row_good b p db kv → row_good b p db' kv.
Proof.
  intros Hkeep [Hk Hrow]. split; [done |]. destruct b; [done |]. revert Hrow. unfold check_capture_row. intros H.
  apply result_bind_Ok in H as (rt & Hrt & H). apply result_bind_Ok in H as ([] & Hv & H). apply ensure_bind_Ok in H as [Hl H].
  apply result_bind_Ok in H as (th & Hth & H). apply result_bind_Ok in H as (hm & Hhm & H). apply ensure_bind_Ok in H as [Hh H].
  apply result_bind_Ok in H as (bk & Hbk & H). apply result_bind_Ok in H as (body & Hbody%ok_or_Ok & H).
  rewrite Hrt. cbn [mbind result_bind]. rewrite Hv. cbn [mbind result_bind]. rewrite ensure_bind_Ok. split; [done |]. rewrite Hth. cbn [mbind result_bind].
  rewrite Hhm. cbn [mbind result_bind]. rewrite ensure_bind_Ok. split; [done |]. rewrite Hbk. cbn [mbind result_bind].
  apply body_key_Ok in Hbk as [_ ->]. rewrite (Hkeep _ _ (bkey_family p _) Hbody). done.
Qed.
Lemma body_there p db db' hps records w r : Stored p records w db db' hps → store_db p records db = db' → r ∈ records →
  meta (bkey p (raw_payload_blake3 r)) db' = Some (raw_payload r).
Proof.
  intros H Hdb Hr. assert (Hp : valid_component p = true) by apply H.
  assert (Hin : (raw_payload_blake3 r, raw_payload r) ∈ hps) by (apply (st_body _ _ _ _ _ _ H); by exists r).
  pose proof (proj1 (Forall_forall _ _) (st_old_bodies _ _ _ _ _ _ H) _ Hin) as [Hn|Hb]; cbn [fst snd] in *.
  - apply (Stored_meta _ _ _ _ _ _ _ _ H); [intros E; pose proof (bkey_family p (raw_payload_blake3 r)) as Hf; by rewrite E, quota_family in Hf |].
    right; left. apply new_bodies_spec. by exists (raw_payload_blake3 r).
  - rewrite <-Hdb. apply (store_keeps true p); [done | apply bkey_family | done].
Qed.

(** * Theorems *)

(** C13. Captured evidence is immutable: what an exact identity reads once it reads
    after any stores, of any records, for any projects. *)
Theorem captured_evidence_is_immutable {T} (ops : list (string * list ReviewDiscussionRecord)) (db : DB) (p review : string) (thread : N)
    (h : string) (inspect : bytes → bytes → result T) (x : T) :
  inspect_review_discussion p review thread h inspect db = Ok x →
  inspect_review_discussion p review thread h inspect (run_stores ops db) = Ok x.
Proof.
  intros (b & rh & m & raw & [Hp Hl] & [Hr Hl'] & Hh & Hb & Hu & Hm & Hraw & Hlen & Hrh & Hx)%inspect_Ok.
  rewrite <-Hx. apply (inspect_there p review thread h inspect _ b rh m raw); try done.
  - apply (run_keeps false p); [done | apply review_prefix_family | done].
  - apply (run_keeps true p); [done | apply bkey_family | done].
Qed.

(** C14. Every record of a successful store is read back with its metadata and its
    body, then and after any further stores. *)
Theorem stored_discussion_is_read_back {T} (ops : list (string * list ReviewDiscussionRecord)) (db : DB) (p : string)
    (records : list ReviewDiscussionRecord) (w : ReviewDiscussionWrite) (r : ReviewDiscussionRecord) (inspect : bytes → bytes → result T) :
  (store_review_discussions p records db).2 = Ok w → r ∈ records →
  inspect_review_discussion p (review_id r) (thread_id r) (capture_blake3 r) inspect
    (run_stores ops (store_review_discussions p records db).1) = inspect (payload r) (raw_payload r).
Proof.
  intros Hw Hr. pose proof (store_cases p records db) as H. cbv zeta in H. rewrite Hw in H. destruct H as [hps H].
  fold (store_db p records db) in *. assert (Hg : record_good p r) by (eapply Forall_forall; [apply (st_records _ _ _ _ _ _ H) | done]).
  destruct Hg as [Hm Hraw Hc Hrh [Hrev Hrl] [Hp Hl]].
  assert (Hcap : ∃ b, meta (ckey p r) (store_db p records db) = Some b ∧ unpack b = Ok (raw_payload_blake3 r, payload r)).
  { pose proof (proj1 (Forall_forall _ _) (st_old_captures _ _ _ _ _ _ H) r Hr) as [Hn|(b & Hb & Hu)].
    - exists (link r). split; [| apply unpack_link; [rewrite Hrh; apply blake3_valid | done]].
      apply (Stored_meta _ _ _ _ _ _ _ _ H); [intros E; pose proof (ckey_family p r) as Hf; by rewrite E, quota_family in Hf |].
      left. apply new_captures_spec. by exists r.
    - exists b. split; [| done]. apply (store_keeps false p); [done | apply ckey_family | done]. }
  pose proof (body_there _ _ _ _ _ _ _ H eq_refl Hr) as Hbody.
  destruct Hcap as (b & Hb & Hu).
  apply (inspect_there _ _ _ _ _ _ b (raw_payload_blake3 r) (payload r) (raw_payload r)); try done.
  - rewrite Hc. apply blake3_valid.
  - apply (run_keeps false p); [done | apply review_prefix_family | done].
  - apply (run_keeps true p); [done | apply bkey_family | done].
Qed.

(** C15. The quota is the inventory: after a successful store the rows of the project
    can all be accounted for, their count and their bytes are what the quota row
    states and what the caller is told, within the limits; so no store that
    follows is refused for its inventory. A failed store changes nothing. *)
Theorem discussion_quota_is_the_inventory (db : DB) (p : string) (records : list ReviewDiscussionRecord) :
  Forall (λ r, thread_id r <= u64_max) records →
  let db' := (store_review_discussions p records db).1 in
  match (store_review_discussions p records db).2 with
  | Fail _ => db' = db
  | Ok w =>
      inventory p db' = Ok {| inv_rows := retained_records w; inv_bytes := retained_bytes w;
                              capture_count := retained_captures w; body_count := retained_payloads w |} ∧
      (∃ stated, transpose quota (meta (quota_key p) db') = Ok stated ∧ default (0, 0) stated = (retained_records w, retained_bytes w)) ∧
      retained_records w <= REVIEW_DISCUSSION_PROJECT_ROWS ∧ retained_bytes w <= REVIEW_DISCUSSION_PROJECT_BYTES
  end.
Proof.
  intros Hth db'. pose proof (store_cases p records db) as H. cbv zeta in H. fold db' in H.
  destruct (store_review_discussions p records db).2 as [w|e]; [| done]. destruct H as [hps H].
  pose proof (st_limits _ _ _ _ _ _ H) as [Hl1 Hl2]. destruct (st_inventory _ _ _ _ _ _ H) as (i & Hi & (stated & Hst & Hq) & W1 & W2 & W3 & W4).
  destruct (st_written _ _ _ _ _ _ H) as [Hdb|(Hnb & Hnc & Hdb)]; cycle 1.
  { rewrite Hnb, Hnc in *. cbn [length cost] in *. rewrite Hdb. split_and!; [| exists stated; split; [done |] | done | done].
    - rewrite Hi. f_equal. destruct i as [i1 i2 i3 i4]. cbn [inv_rows inv_bytes capture_count body_count] in *. f_equal; lia.
    - rewrite Hq. f_equal; lia. }
  assert (Hp : valid_component p = true) by apply H.
  assert (Hfam : ∀ b, family b p db' ≡ₚ (if b : bool then new_bodies p db hps else new_captures p db records) ++ family b p db).
  { intros b. rewrite Hdb. apply family_stored; [done | apply H | apply H]. }
  assert (Hkeep : ∀ b k v, starts_with (family_prefix b p) k = true → meta k db = Some v → meta k db' = Some v) by (intros b k v; by apply store_keeps).
  apply inventory_Ok in Hi as (HC & HB' & _ & _ & ->). cbn [inv_rows inv_bytes capture_count body_count] in *.
  split_and!; try done.
  - assert (Hbody : ∀ r, r ∈ records → meta (bkey p (raw_payload_blake3 r)) db' = Some (raw_payload r)) by (intros r Hr; by eapply body_there).
    pose proof (Hfam false) as Hf0. pose proof (Hfam true) as Hf1. cbv iota in Hf0, Hf1. clear Hfam Hdb Hst. clearbody db'.
    assert (Hsize : ∀ l k m : list (string * bytes), l ≡ₚ k ++ m → N.of_nat (length l) = N.of_nat (length k) + N.of_nat (length m) ∧ cost l = cost k + cost m).
    { intros l k m Hperm. split; [rewrite (Permutation_length Hperm), length_app; lia | rewrite (cost_perm _ _ Hperm); apply cost_app]. }
    destruct (Hsize _ _ _ Hf0) as [N0 C0]. destruct (Hsize _ _ _ Hf1) as [N1 C1].
    apply inventory_Ok. cbv zeta. rewrite C0, C1, Nat2N.inj_add, N0, N1. split_and!; [| | lia | lia | f_equal; lia].
    + apply (Permutation_Forall (Permutation_sym Hf0)), Forall_app. split.
      * apply Forall_forall. intros [k v] Hin. by eapply new_capture_good.
      * eapply Forall_impl; [exact HC |]. intros kv. apply row_good_keeps. by apply Hkeep.
    + apply (Permutation_Forall (Permutation_sym Hf1)), Forall_app. split.
      * apply Forall_forall. intros [k v] Hin. by eapply new_body_good.
      * eapply Forall_impl; [exact HB' |]. intros kv. apply row_good_keeps. by apply Hkeep.
  - exists (Some (retained_records w, retained_bytes w)). split; [| done]. rewrite Hdb. unfold stored_db, meta. rewrite lookup_insert_eq.
    cbn [transpose]. by rewrite quota_row_Ok.
Qed.
End spec.

(** The pages of a review's captures, followed from cursor to cursor, and stores
    of concrete discussions. *)

Open Scope N_scope.

(** * Definitions *)

Section pages.
Context `{RE : !RegistryEnv} `{HB : !Blake3}.

(** The rows of a review in the order of the table, by the part of the key after
    the review. *)
Definition captures (p review : string) (db : DB) : list (string * bytes) :=
  omap (λ kv, (λ l, (l, kv.2)) <$> strip_prefix (review_prefix p review) kv.1)
    (prefix_scan (review_prefix p review) (table_rows META db)).
(** A caller that follows the cursors to the end, in at most [fuel] pages. *)
Fixpoint all_pages (fuel : nat) (p review : string) (after : option string) (db : DB)
  : result (option (list ReviewDiscussionReference)) :=
  match fuel with
  | O => Ok None
  | S fuel =>
      page ← list_review_discussions p review after db;
      match page_next page with
      | None => Ok (Some (page_records page))
      | Some c => rest ← all_pages fuel p review (Some c) db; Ok (app (page_records page) <$> (rest : option (list ReviewDiscussionReference)))
      end
  end.
Definition the_ref (lv : string * bytes) : ReviewDiscussionReference :=
  match reference_of lv.1 lv.2 with
  | Ok r => r
  | Fail _ => {| ref_thread_id := 0; ref_capture_blake3 := ""; ref_raw_utf8_blake3 := ""; cursor := lv.1 |}
  end.
Definition listable (lv : string * bytes) : Prop := ∃ r, reference_of lv.1 lv.2 = Ok r.
(** What is left after a cursor. *)
Definition beyond (after : option string) (lv : string * bytes) : Prop :=
  match after with Some a => ¬ String.le lv.1 a | None => True end.
#[export] Instance beyond_dec after lv : Decision (beyond after lv).
Proof. destruct after; apply _. Defined.

(** * Lemmas *)

Lemma the_ref_cursor lv : cursor (the_ref lv) = lv.1.
Proof.
  unfold the_ref, reference_of. destruct (parse_suffix lv.1) as [th|]; [| done]. cbn [mbind result_bind].
  destruct (unpack lv.2) as [hm|]; [| done]. cbn [mbind result_bind]. by destruct (ensure _ _ _).
Qed.
Lemma listable_parse lv : listable lv → is_ok (parse_suffix lv.1) = true ∧ slen lv.1 = 85.
Proof.
  intros [r H]. unfold reference_of in H. apply result_bind_Ok in H as ([n h] & Hp & _). rewrite Hp. split; [done |].
  apply parse_suffix_Ok in Hp as (-> & Hh & _). by apply suffix_length.
Qed.

(** ** One page *)

Section page.
Context (prefix : string) (after : option string).
Notation keyed L := ((λ lv : string * bytes, (prefix +:+ lv.1, lv.2)) <$> L).
Lemma list_rows_prefix acc rows :
  list_rows prefix after acc rows = list_rows prefix after acc (take_while (λ kv, starts_with prefix kv.1) rows).
Proof.
  revert acc. induction rows as [|[k v] rows IH]; intros acc; [done |]. cbn [list_rows take_while fst]. unfold starts_with at 1.
  destruct (strip_prefix prefix k) as [l|] eqn:E; [| done]. rewrite (bool_decide_true (is_Some (Some l))) by eauto. cbn [list_rows]. rewrite E.
  destruct (_ && _); [apply IH |]. destruct (ensure _ _ _); [cbn [mbind result_bind] | done]. destruct (Nat.eqb _ _); [done |].
  destruct (reference_of l v); [cbn [mbind result_bind]; apply IH | done].
Qed.
Lemma list_rows_keyed acc L : Forall listable L → (length acc <= 16)%nat →
  let M := filter (beyond after) L in
  list_rows prefix after acc (keyed L) = Ok (acc ++ (the_ref <$> take (16 - length acc) M), bool_decide (16 < length acc + length M)%nat).
Proof.
  intros HL. revert acc. induction HL as [|[l v] L Hl HL IH]; intros acc Hacc M.
  { cbn. rewrite take_nil. cbn. rewrite app_nil_r. by rewrite bool_decide_false by lia. }
  cbn [fmap list_fmap list_rows fst snd]. rewrite strip_prefix_app.
  assert (Hskip : bool_decide (is_Some after) && bool_decide (String.le l (default "" after)) = bool_decide (¬ beyond after (l, v))).
  { destruct after as [a|]; cbn [default from_option beyond fst].
    - rewrite bool_decide_true by eauto. cbn [andb]. apply bool_decide_ext. unfold beyond. cbn [fst]. split; [intros H Hn; exact (Hn H) | intros H; by apply dec_stable].
    - rewrite (bool_decide_false (is_Some None)) by (by intros [? ?]). symmetry. apply bool_decide_false. intros H. by apply H. }
  rewrite Hskip. unfold M. rewrite filter_cons. destruct (decide (beyond after (l, v))) as [Hb|Hb].
  - rewrite bool_decide_false by auto. destruct (listable_parse _ Hl) as [_ Hlen]. cbn [fst] in Hlen. rewrite Hlen, N.eqb_refl. unfold ensure.
    cbn [mbind result_bind]. destruct (Nat.eqb_spec (length acc) 16) as [H16|Hne].
    + rewrite H16. cbn [Nat.sub take fmap list_fmap length]. rewrite app_nil_r, bool_decide_true by lia. done.
    + destruct Hl as [r Hr]. cbn [fst snd] in Hr. rewrite Hr. cbn [mbind result_bind]. rewrite IH by (rewrite length_app; cbn; lia).
      replace (16 - length acc)%nat with (S (16 - length (acc ++ [r])))%nat by (rewrite length_app; cbn; lia).
      cbn [take fmap list_fmap]. assert (Hthe : the_ref (l, v) = r) by (unfold the_ref; cbn [fst snd]; by rewrite Hr).
      rewrite Hthe, <-app_assoc. cbn [app]. f_equal. f_equal. apply bool_decide_ext. rewrite length_app. cbn [length]. lia.
  - rewrite bool_decide_true by done. by apply IH.
Qed.
End page.

(** ** The rows of a review *)

Section review.
Context (p review : string) (db : DB).
Notation sc := (review_prefix p review).
Notation T := (table_rows META db).
Notation C := (captures p review db).
Notation keyed L := ((λ lv : string * bytes, (sc +:+ lv.1, lv.2)) <$> L).

Lemma captures_keyed : keyed C = prefix_scan sc T.
Proof.
  unfold captures. assert (H : Forall (λ kv, starts_with sc kv.1 = true) (prefix_scan sc T)).
  { apply Forall_forall. intros [k v] [Hk _]%elem_of_prefix_scan. done. }
  induction H as [|[k v] l [t Hk]%starts_with_spec Hl IH]; [done |]. cbn [omap list_omap fst snd] in *. subst k.
  rewrite strip_prefix_app. cbn. f_equal. exact IH.
Qed.
Lemma elem_of_captures l v : (l, v) ∈ C ↔ meta (sc +:+ l) db = Some v.
Proof.
  assert (H : (sc +:+ l, v) ∈ keyed C ↔ (l, v) ∈ C).
  { rewrite list_elem_of_fmap. split; [| by exists (l, v)]. intros ([l' v'] & [= Hl ->] & Hin). apply app_inj_l in Hl. by subst. }
  rewrite <-H, captures_keyed, elem_of_prefix_scan. unfold meta. split; [tauto |]. split; [| done]. apply starts_with_spec. by exists l.
Qed.
Lemma captures_sorted : StronglySorted (λ a b, String.le a.1 b.1) C ∧ NoDup C.*1.
Proof.
  assert (Hs : StronglySorted row_le (keyed C)).
  { rewrite captures_keyed, prefix_scan_filter by apply table_rows_sorted. apply StronglySorted_filter, table_rows_sorted. }
  assert (Hn : NoDup (keyed C).*1).
  { rewrite captures_keyed, prefix_scan_filter by apply table_rows_sorted. apply NoDup_fst_filter, NoDup_table_rows. }
  split.
  - clear Hn. induction C as [|lv l IH]; [constructor |]. cbn in Hs. apply StronglySorted_inv in Hs as [Hs Hall]. constructor; [by apply IH |].
    rewrite Forall_fmap in Hall. eapply Forall_impl; [exact Hall |]. intros lv'. cbn. unfold row_le. cbn. apply string_le_app.
  - assert (Hm : (keyed C).*1 = (λ l, sc +:+ l) <$> C.*1) by (rewrite <-!list_fmap_compose; done). rewrite Hm in Hn. by apply NoDup_fmap_1 in Hn.
Qed.
(** The range from a cursor on, up to the end of the review. *)
Lemma range_captures after :
  take_while (λ kv, starts_with sc kv.1) (range_from (sc +:+ default "" after) T) = keyed (filter (λ lv, String.le (default "" after) lv.1) C).
Proof.
  set (a := default "" after).
  assert (Hs : StronglySorted row_le (range_from (sc +:+ a) T)) by apply StronglySorted_filter, table_rows_sorted.
  rewrite take_while_filter.
  - assert (H1 : filter (λ x : string * bytes, starts_with sc x.1 = true) (range_from (sc +:+ a) T) = filter (λ kv, String.le (sc +:+ a) kv.1) (keyed C)).
    { rewrite captures_keyed, prefix_scan_filter by apply table_rows_sorted. unfold range_from. rewrite !list_filter_filter.
      apply list_filter_iff. intros kv. tauto. }
    rewrite H1. clear H1 Hs. induction C as [|lv l IH]; [done |]. cbn [fmap list_fmap]. rewrite !filter_cons. cbn [fst].
    destruct (decide (String.le a lv.1)) as [Hle|Hle].
    + rewrite decide_True by by apply string_le_app. cbn [fmap list_fmap]. f_equal. exact IH.
    + rewrite decide_False by by rewrite string_le_app. exact IH.
  - intros l1 x l2 y Hl Hx Hy.
    assert (Hle : String.le sc x.1).
    { assert (Hin : x ∈ l1 ++ x :: l2) by set_solver. rewrite <-Hl in Hin. apply list_elem_of_filter in Hin as [Hin _].
      etrans; [apply string_le_prefix | exact Hin]. }
    rewrite Hl in Hs. apply StronglySorted_app_1_r, StronglySorted_cons in Hs as [Hall _].
    rewrite Forall_forall in Hall. eapply prefix_interval; [done | by apply Hall | done].
Qed.
End review.

(** ** Every page *)

Lemma filter_beyond_sorted (A B : list (string * bytes)) (x : string * bytes) :
  StronglySorted (λ a b, String.le a.1 b.1) (A ++ x :: B) → NoDup (A ++ x :: B).*1 →
  filter (beyond (Some x.1)) (A ++ x :: B) = B.
Proof.
  intros Hs Hn. rewrite filter_app, filter_cons, decide_False by (intros H; apply H; reflexivity).
  assert (HA : filter (beyond (Some x.1)) A = []).
  { apply elem_of_nil_inv. intros lv [Hlt Hin]%list_elem_of_filter. apply Hlt. apply list_elem_of_split in Hin as (A1 & A2 & ->).
    rewrite <-app_assoc in Hs. apply StronglySorted_app_1_r in Hs. cbn in Hs. apply StronglySorted_inv in Hs as [_ Hall].
    rewrite Forall_forall in Hall. apply Hall. set_solver. }
  assert (HB' : filter (beyond (Some x.1)) B = B).
  { apply filter_all. intros lv Hin Hle. apply StronglySorted_app_1_r, StronglySorted_inv in Hs as [_ Hall].
    rewrite Forall_forall in Hall. assert (Heq : x.1 = lv.1) by (apply (anti_symm String.le); [by apply Hall | done]).
    rewrite fmap_app in Hn. apply NoDup_app in Hn as (_ & _ & Hn). cbn [fmap list_fmap] in Hn. apply NoDup_cons in Hn as [Hn _].
    apply Hn. rewrite Heq. apply list_elem_of_fmap. by exists lv. }
  by rewrite HA, HB'.
Qed.
Lemma list_page p review after db : valid_component p = true → slen p <= 128 → valid_component review = true → slen review <= 256 →
  Forall listable (captures p review db) → match after with Some a => is_ok (parse_suffix a) = true | None => True end →
  let M := filter (beyond after) (captures p review db) in
  list_review_discussions p review after db =
    Ok {| page_records := the_ref <$> take 16 M; page_next := if decide (16 < length M)%nat then fst <$> last (take 16 M) else None |}.
Proof.
  intros Hp Hl Hr Hl' HL Ha M. unfold list_review_discussions. rewrite (proj2 (scope_Ok _ _ _)) by done. cbn [mbind result_bind].
  assert (Hcheck : match after with Some a => _ ← parse_suffix a; Ok tt | None => Ok tt end = Ok tt).
  { destruct after as [a|]; [| done]. by destruct (parse_suffix a). }
  rewrite Hcheck. cbn [mbind result_bind]. rewrite list_rows_prefix, range_captures.
  rewrite list_rows_keyed; [| | cbn; lia].
  - cbn [app length Nat.sub mbind result_bind fst snd Nat.add]. rewrite list_filter_filter.
    assert (HM : filter (λ x, beyond after x ∧ String.le (default "" after) x.1) (captures p review db) = M).
    { unfold M. apply list_filter_iff. intros lv. destruct after as [a|]; cbn [beyond default from_option].
      - split; [tauto |]. intros Hn. split; [done |]. destruct (total String.le a lv.1) as [|H]; [done | by destruct (Hn H)].
      - split; [by intros [? _] | intros _; split; [done | apply (string_le_prefix "")]]. }
    rewrite HM. f_equal. f_equal. destruct (decide (16 < length M)%nat); [rewrite bool_decide_true by done | by rewrite bool_decide_false by done].
    rewrite fmap_last. destruct (last (take 16 M)); [| done]. cbn. by rewrite the_ref_cursor.
  - rewrite Forall_forall in *. intros lv [_ Hin]%list_elem_of_filter. by apply HL.
Qed.
(** Following the cursors from anywhere. *)
Lemma all_pages_spec p review db fuel after :
  valid_component p = true → slen p <= 128 → valid_component review = true → slen review <= 256 →
  Forall listable (captures p review db) → match after with Some a => is_ok (parse_suffix a) = true | None => True end →
  (0 < fuel)%nat → (length (filter (beyond after) (captures p review db)) <= 16 * fuel)%nat →
  all_pages fuel p review after db = Ok (Some (the_ref <$> filter (beyond after) (captures p review db))).
Proof.
  intros Hp Hl Hr Hl' HL. revert after. induction fuel as [|fuel IH]; intros after Ha H0 Hf; [lia |]. cbn [all_pages].
  rewrite list_page by done. cbn [mbind result_bind page_next page_records]. set (M := filter (beyond after) (captures p review db)) in *.
  destruct (decide (16 < length M)%nat) as [Hmore|Hlast]; [| by rewrite take_ge by lia].
  destruct (last (take 16 M)) as [x|] eqn:Hx; cycle 1.
  { apply last_None, take_nil_inv in Hx as [|Hx]; [done |]. apply (f_equal length) in Hx. change (length M = 0%nat) in Hx. lia. }
  apply last_Some in Hx as [A HA]. assert (HM : M = A ++ x :: drop 16 M) by (rewrite <-(take_drop 16 M) at 1; rewrite HA; by rewrite <-app_assoc).
  destruct (captures_sorted p review db) as [Hsort Hnd].
  assert (Hbeyond : filter (beyond (Some x.1)) (captures p review db) = drop 16 M).
  { transitivity (filter (beyond (Some x.1)) M).
    - unfold M. rewrite list_filter_filter. apply list_filter_iff. intros lv. split; [| tauto]. intros Hn. split; [done |].
      destruct after as [a|]; [| done]. intros Hle. apply Hn. cbn. etrans; [exact Hle |].
      assert (Hxm : x ∈ M) by (rewrite HM; set_solver). apply list_elem_of_filter in Hxm as [Hxa _]. cbn in Hxa.
      destruct (total String.le a x.1) as [|H]; [done | by destruct (Hxa H)].
    - rewrite HM at 1. rewrite filter_beyond_sorted; [done | |]; rewrite <-HM.
      + by apply StronglySorted_filter.
      + by apply NoDup_fst_filter. }
  cbn [fmap option_fmap option_map]. rewrite IH, Hbeyond.
  - cbn [mbind result_bind fmap option_fmap option_map]. by rewrite <-fmap_app, take_drop.
  - assert (Hxm : x ∈ M) by (rewrite HM; set_solver). apply list_elem_of_filter in Hxm as [_ Hxc].
    rewrite Forall_forall in HL. by apply listable_parse, HL.
  - lia.
  - rewrite Hbeyond, length_drop. lia.
Qed.

(** Where the inventory of a project can be taken, the captures of its reviews
    can be listed. *)
Lemma inventory_listable p review db i : inventory p db = Ok i → valid_component review = true → Forall listable (captures p review db).
Proof.
  intros (HC & _)%inventory_Ok Hr. apply Forall_forall. intros [l v] Hin%elem_of_captures.
  assert (Hfam : (review_prefix p review +:+ l, v) ∈ family false p db) by (apply elem_of_family; split; [apply review_prefix_family | done]).
  rewrite Forall_forall in HC. destruct (HC _ Hfam) as [_ Hrow]. unfold check_capture_row in Hrow. cbn [fst snd] in Hrow.
  assert (Hs : strip_prefix (project_key p PREFIX) (review_prefix p review +:+ l) = Some (review +:+ String NUL l)).
  { apply strip_prefix_Some. unfold review_prefix. by rewrite !project_key_app, !app_assoc_str. }
  assert (Hsp : split_once NUL (review +:+ String NUL l) = Some (review, l)) by by apply split_once_first, valid_component_no_NUL.
  rewrite Hs in Hrow. cbn [from_option] in Hrow. unfold id at 1 in Hrow. rewrite Hsp in Hrow. cbn [ok_or mbind result_bind fst snd] in Hrow.
  apply result_bind_Ok in Hrow as (u & _ & Hrow). apply ensure_bind_Ok in Hrow as [_ Hrow]. apply result_bind_Ok in Hrow as (th & Hth & Hrow).
  apply result_bind_Ok in Hrow as (hm & Hhm & Hrow). apply ensure_bind_Ok in Hrow as [Hh _].
  unfold listable, reference_of. cbn [fst snd]. rewrite Hth. cbn [mbind result_bind]. rewrite Hhm. cbn [mbind result_bind]. rewrite Hh.
  cbn [ensure mbind result_bind]. by eexists.
Qed.

(** * Theorems *)

(** C16. Paging is complete: where the inventory of the project can be taken, a caller
    that follows the cursors of a review ends, after one page per sixteen
    captures at most and one more, with every capture of the review once, in the
    order of the keys, each with the hashes its row states. *)
Theorem pages_list_every_capture (p review : string) (db : DB) (i : Inventory) :
  inventory p db = Ok i → valid_component p = true → slen p <= 128 → valid_component review = true → slen review <= 256 →
  ∃ refs, all_pages (S (length (captures p review db) / 16)) p review None db = Ok (Some refs) ∧
    Forall2 (λ lv r, reference_of lv.1 lv.2 = Ok r) (captures p review db) refs ∧
    NoDup (cursor <$> refs) ∧
    ∀ l, l ∈ cursor <$> refs ↔ is_Some (meta (review_prefix p review +:+ l) db).
Proof.
  intros Hi Hp Hl Hr Hl'. pose proof (inventory_listable p review db i Hi Hr) as HL. exists (the_ref <$> captures p review db).
  assert (Hcur : cursor <$> (the_ref <$> captures p review db) = (captures p review db).*1).
  { rewrite <-list_fmap_compose. apply list_fmap_ext. intros ? lv _. apply the_ref_cursor. }
  split_and!.
  - assert (Hall : filter (beyond None) (captures p review db) = captures p review db) by by apply filter_all.
    rewrite all_pages_spec; rewrite ?Hall; try done; [lia |]. pose proof (Nat.div_mod_eq (length (captures p review db)) 16).
    pose proof (Nat.mod_upper_bound (length (captures p review db)) 16 ltac:(lia)). lia.
  - clear -HL. induction HL as [|lv l [r Hlv] Hl IH]; [constructor |]. cbn. constructor; [| exact IH]. unfold the_ref. by rewrite Hlv.
  - rewrite Hcur. apply captures_sorted.
  - intros l. rewrite Hcur, list_elem_of_fmap. split.
    + intros ([l' v] & -> & Hin%elem_of_captures). by exists v.
    + intros [v Hv]. exists (l, v). split; [done | by apply elem_of_captures].
Qed.
End pages.

(** * Concrete discussions *)

Section concrete.
#[local] Existing Instance concrete_env.
#[local] Existing Instance toy_blake3.

Definition discussion (n : N) (text raw : string) : ReviewDiscussionRecord :=
  {| review_id := "PR-1"; thread_id := n; capture_blake3 := blake3_hex text; payload := text;
     raw_payload_blake3 := blake3_hex raw; raw_payload := raw |}.
Definition question : ReviewDiscussionRecord := discussion 7 "thread 7" "why is this not tested?".
Definition answer : ReviewDiscussionRecord := discussion 12 "thread 12, the same body" "why is this not tested?".
Definition first_import : DB := (store_review_discussions "p" [question] ∅).1.
Definition second_import : DB := (store_review_discussions "p" [question; answer] first_import).1.

(** The second import adds one capture, and reuses the body. *)
Example second_import_reuses :
  (store_review_discussions "p" [question; answer] first_import).2 =
  Ok {| stored := 1; unchanged := 1; stored_payloads := 0; reused_payloads := 1; retained_records := 3;
        retained_bytes := 520; retained_captures := 2; retained_payloads := 1 |}.
Proof. vm_compute. reflexivity. Qed.

Lemma captured_evidence_is_immutable_witness :
  inspect_review_discussion "p" "PR-1" 7 (blake3_hex "thread 7") (λ m b, Ok (m, b))
    (run_stores [("p", [question; answer]); ("q", [answer])] first_import) = Ok ("thread 7", "why is this not tested?").
Proof. apply captured_evidence_is_immutable. vm_compute. reflexivity. Defined.
Lemma stored_discussion_is_read_back_witness :
  inspect_review_discussion "p" "PR-1" 12 (blake3_hex "thread 12, the same body") (λ m b, Ok (m, b))
    (run_stores [("q", [question])] second_import) = Ok ("thread 12, the same body", "why is this not tested?").
Proof.
  unfold second_import. destruct (store_review_discussions "p" [question; answer] first_import).2 as [w|] eqn:E; [| by vm_compute in E].
  assert (Hin : answer ∈ [question; answer]) by (right; left).
  exact (stored_discussion_is_read_back [("q", [question])] first_import "p" [question; answer] w answer (λ m b, Ok (m, b)) E Hin).
Defined.
Lemma discussion_quota_is_the_inventory_witness :
  inventory "p" second_import = Ok {| inv_rows := 3; inv_bytes := 520; capture_count := 2; body_count := 1 |}.
Proof.
  pose proof (discussion_quota_is_the_inventory first_import "p" [question; answer]) as H.
  rewrite second_import_reuses in H. apply H. repeat constructor; vm_compute; discriminate.
Defined.
Lemma pages_list_every_capture_witness :
  ∃ refs, all_pages 1 "p" "PR-1" None second_import = Ok (Some refs) ∧ NoDup (cursor <$> refs).
Proof.
  destruct (inventory "p" second_import) as [i|] eqn:E; [| by vm_compute in E].
  destruct (pages_list_every_capture "p" "PR-1" second_import i E) as (refs & Hall & _ & Hnd & _);
    [reflexivity | vm_compute; discriminate | reflexivity | vm_compute; discriminate |].
  exists refs. split; [| exact Hnd]. replace 1%nat with (S (length (captures "p" "PR-1" second_import) / 16)) by (vm_compute; reflexivity). exact Hall.
Defined.
End concrete.
