(* ===== verification/Coordinator.v ===== *)
(** [engram_index::hybrid::mutation]: the coordinator that admits index
    mutations and excludes vector recovery. The state under the mutex, its
    operations, the drops of its permits, and the system of a coordinator with
    the permits alive. *)
From S2P Require Import Prelude Text.

Open Scope N_scope.

(** * Definitions *)

Inductive CoordinationError :=
  | Unavailable (why : string)
  | Busy
  | MutationCountOverflow
  | ReservationExhausted.

Inductive Phase := Ready | Exclusive (reservation : N) | Uncertain.

#[export] Instance CoordinationError_eq_dec : EqDecision CoordinationError.
Proof. solve_decision. Defined.
#[export] Instance Phase_eq_dec : EqDecision Phase.
Proof. solve_decision. Defined.

Record State := {
  phase : Phase;
  mutations : N;
  pending_operations : N;
  next_reservation : N;
  faulted : bool;
}.

(** The state behind its mutex. [cid] is the identity [Arc::ptr_eq] compares. *)
Record Coordinator := { cid : nat; poisoned : bool; state : State }.

Definition with_state (c : Coordinator) (s : State) : Coordinator :=
  {| cid := cid c; poisoned := poisoned c; state := s |}.
Definition set_faulted (s : State) : State :=
  {| phase := phase s; mutations := mutations s; pending_operations := pending_operations s;
     next_reservation := next_reservation s; faulted := true |}.
Definition set_phase (s : State) (ph : Phase) : State :=
  {| phase := ph; mutations := mutations s; pending_operations := pending_operations s;
     next_reservation := next_reservation s; faulted := faulted s |}.
Definition set_counts (s : State) (m p : N) : State :=
  {| phase := phase s; mutations := m; pending_operations := p;
     next_reservation := next_reservation s; faulted := faulted s |}.

Definition new_coordinator (id : nat) : Coordinator :=
  {| cid := id; poisoned := false;
     state := {| phase := Ready; mutations := 0; pending_operations := 0;
                 next_reservation := 0; faulted := false |} |}.

(** Permits carry the coordinator that issued them. *)
Record MutationPermit := { mp_coordinator : nat }.
Record OperationPermit := { op_coordinator : nat }.
Record RecoveryPermit := {
  rp_coordinator : nat;
  reservation : N;
  publication_possible : bool;
}.

(** An operation returns the coordinator and its answer. *)
Definition Answer (A : Type) : Type := Coordinator * (A + CoordinationError).

Definition checked_state (c : Coordinator) : State + CoordinationError :=
  if poisoned c then inr (Unavailable "coordination lock poisoned")
  else if faulted (state c) then inr (Unavailable "coordination invariant violated")
  else inl (state c).

Definition is_ready (s : State) : bool := bool_decide (phase s = Ready).

Definition try_mutation (c : Coordinator) : Answer MutationPermit :=
  match checked_state c with
  | inr e => (c, inr e)
  | inl s =>
      if negb (is_ready s) || negb (pending_operations s =? 0) then (c, inr Busy)
      else match checked_add (mutations s) 1 with
           | None => (c, inr MutationCountOverflow)
           | Some m => (with_state c (set_counts s m (pending_operations s)),
                        inl {| mp_coordinator := cid c |})
           end
  end.

Definition reserve_operation (c : Coordinator) (s : State) : Answer OperationPermit :=
  match checked_add (pending_operations s) 1 with
  | None => (c, inr MutationCountOverflow)
  | Some p =>
      match checked_add (mutations s) 1 with
      | None => (c, inr MutationCountOverflow)
      | Some m => (with_state c (set_counts s m p), inl {| op_coordinator := cid c |})
      end
  end.

Definition try_operation (c : Coordinator) : Answer OperationPermit :=
  match checked_state c with
  | inr e => (c, inr e)
  | inl s => if negb (is_ready s) || negb (pending_operations s =? 0) then (c, inr Busy)
             else reserve_operation c s
  end.

Definition validate_mutation (c : Coordinator) (permit : MutationPermit) : () + CoordinationError :=
  if negb (Nat.eqb (cid c) (mp_coordinator permit)) then
    inr (Unavailable "foreign mutation capability")
  else match checked_state c with
       | inr e => inr e
       | inl s => if negb (is_ready s) || (mutations s =? 0) then inr Busy else inl tt
       end.

Definition operation_within (c : Coordinator) (permit : MutationPermit) : Answer OperationPermit :=
  if negb (Nat.eqb (cid c) (mp_coordinator permit)) then
    (c, inr (Unavailable "foreign mutation capability"))
  else match checked_state c with
       | inr e => (c, inr e)
       | inl s => if negb (is_ready s) || (mutations s =? 0) then (c, inr Busy)
                  else reserve_operation c s
       end.

(** [state_for_drop]: a poisoned lock is entered and marks the fault. *)
Definition state_for_drop (c : Coordinator) : State :=
  if poisoned c then set_faulted (state c) else state c.

Definition mark_faulted (c : Coordinator) : Coordinator :=
  with_state c (set_faulted (state_for_drop c)).

Definition recovery_allowed (resume : bool) (ph : Phase) : bool :=
  match resume, ph with false, Ready | true, Uncertain => true | _, _ => false end.

Definition reserve_recovery (resume : bool) (c : Coordinator) : Answer RecoveryPermit :=
  match checked_state c with
  | inr e => (c, inr e)
  | inl s =>
      if negb (recovery_allowed resume (phase s)) || negb (mutations s =? 0)
         || negb (pending_operations s =? 0) then (c, inr Busy)
      else match checked_add (next_reservation s) 1 with
           | None => (c, inr ReservationExhausted)
           | Some r =>
               (with_state c {| phase := Exclusive r; mutations := mutations s;
                                pending_operations := pending_operations s;
                                next_reservation := r; faulted := faulted s |},
                inl {| rp_coordinator := cid c; reservation := r; publication_possible := resume |})
           end
  end.
Definition try_recovery : Coordinator → Answer RecoveryPermit := reserve_recovery false.
Definition try_resume_uncertain : Coordinator → Answer RecoveryPermit := reserve_recovery true.

Definition fault_if (b : bool) (s : State) : State := if b then set_faulted s else s.

(** [Drop for MutationPermit]. *)
Definition drop_mutation (c : Coordinator) : Coordinator :=
  let s := fault_if (negb (is_ready (state_for_drop c))) (state_for_drop c) in
  with_state c
    (if mutations s =? 0 then set_faulted s
     else set_counts s (mutations s - 1) (pending_operations s)).

(** [Drop for OperationPermit]; [panicking] is [std::thread::panicking()]. *)
Definition drop_operation (panicking : bool) (c : Coordinator) : Coordinator :=
  let s0 := state_for_drop c in
  let s := fault_if (negb (is_ready s0) || (pending_operations s0 =? 0) || (mutations s0 =? 0)
                     || panicking) s0 in
  with_state c (set_counts s (if 0 <? mutations s then mutations s - 1 else mutations s)
                  (if 0 <? pending_operations s then pending_operations s - 1
                   else pending_operations s)).

Definition owns (s : State) (rp : RecoveryPermit) : bool :=
  bool_decide (phase s = Exclusive (reservation rp)) && (mutations s =? 0).

(** [Drop for RecoveryPermit] while it is live. *)
Definition drop_recovery (rp : RecoveryPermit) (c : Coordinator) : Coordinator :=
  let s := state_for_drop c in
  with_state c
    (if owns s rp then set_phase s (if publication_possible rp then Uncertain else Ready)
     else set_faulted s).

Definition mark_publication_possible (rp : RecoveryPermit) (c : Coordinator)
  : Coordinator * RecoveryPermit * (() + CoordinationError) :=
  match checked_state c with
  | inr e => (c, rp, inr e)
  | inl s =>
      if owns s rp then
        (c, {| rp_coordinator := rp_coordinator rp; reservation := reservation rp;
               publication_possible := true |}, inl tt)
      else (with_state c (set_faulted s), rp, inr (Unavailable "exclusive recovery ownership lost"))
  end.

(** [finish_activation] consumes the permit: on a failure it is dropped live. *)
Definition finish_activation (rp : RecoveryPermit) (c : Coordinator) : Answer () :=
  match checked_state c with
  | inr e => (drop_recovery rp c, inr e)
  | inl s =>
      if owns s rp then (with_state c (set_phase s Ready), inl tt)
      else (drop_recovery rp (with_state c (set_faulted s)),
            inr (Unavailable "exclusive recovery ownership lost"))
  end.

(** ** The coordinator with its live permits *)

Record World := {
  coordinator : Coordinator;
  mutation_permits : nat;
  operation_permits : nat;
  recovery_permits : list RecoveryPermit;
}.

Definition start (id : nat) : World :=
  {| coordinator := new_coordinator id; mutation_permits := 0; operation_permits := 0;
     recovery_permits := [] |}.

(** The mutex makes every operation one step; a permit is used and dropped by
    its owner at any time. *)
Inductive step : World → World → Prop :=
  | step_mutation c m o rs c' p :
      try_mutation c = (c', inl p) → step (Build_World c m o rs) (Build_World c' (S m) o rs)
  | step_operation c m o rs c' p :
      try_operation c = (c', inl p) → step (Build_World c m o rs) (Build_World c' m (S o) rs)
  | step_operation_within c m o rs c' p mp :
      (0 < m)%nat → operation_within c mp = (c', inl p) →
      step (Build_World c m o rs) (Build_World c' m (S o) rs)
  | step_recovery c m o rs c' rp resume :
      reserve_recovery resume c = (c', inl rp) →
      step (Build_World c m o rs) (Build_World c' m o (rp :: rs))
  | step_mark c m o rs1 rp rs2 c' rp' r :
      mark_publication_possible rp c = (c', rp', r) →
      step (Build_World c m o (rs1 ++ rp :: rs2)) (Build_World c' m o (rs1 ++ rp' :: rs2))
  | step_finish c m o rs1 rp rs2 c' r :
      finish_activation rp c = (c', r) →
      step (Build_World c m o (rs1 ++ rp :: rs2)) (Build_World c' m o (rs1 ++ rs2))
  | step_drop_mutation c m o rs :
      step (Build_World c (S m) o rs) (Build_World (drop_mutation c) m o rs)
  | step_drop_operation c m o rs panicking :
      step (Build_World c m (S o) rs) (Build_World (drop_operation panicking c) m o rs)
  | step_drop_recovery c m o rs1 rp rs2 :
      step (Build_World c m o (rs1 ++ rp :: rs2)) (Build_World (drop_recovery rp c) m o (rs1 ++ rs2))
  | step_fault c m o rs : step (Build_World c m o rs) (Build_World (mark_faulted c) m o rs)
  | step_poison c m o rs :
      step (Build_World c m o rs)
        (Build_World {| cid := cid c; poisoned := true; state := state c |} m o rs).

Definition reachable (id : nat) (w : World) : Prop := rtc step (start id) w.

(** The counters count the live permits, and a recovery is alone. *)
Definition consistent (w : World) : Prop :=
  let s := state (coordinator w) in
  mutations s = N.of_nat (mutation_permits w + operation_permits w) ∧
  pending_operations s = N.of_nat (operation_permits w) ∧
  match phase s with
  | Ready => recovery_permits w = []
  | Uncertain => recovery_permits w = [] ∧ mutations s = 0
  | Exclusive r => (∃ rp, recovery_permits w = [rp] ∧ reservation rp = r) ∧ mutations s = 0
  end.

(** * Lemmas *)

Lemma checked_state_Ok c s : checked_state c = inl s → s = state c ∧ poisoned c = false ∧ faulted s = false.
Proof. unfold checked_state. destruct (poisoned c), (faulted (state c)) eqn:E; naive_solver. Qed.

Lemma state_for_drop_rows c :
  let s := state_for_drop c in
  phase s = phase (state c) ∧ mutations s = mutations (state c) ∧
  pending_operations s = pending_operations (state c).
Proof. unfold state_for_drop. by destruct (poisoned c). Qed.

Lemma is_ready_true s : is_ready s = true ↔ phase s = Ready.
Proof. unfold is_ready. by rewrite bool_decide_eq_true. Qed.

(** What the admission of an operation adds. *)
Lemma reserve_operation_Ok c s c' p :
  reserve_operation c s = (c', inl p) →
  c' = with_state c (set_counts s (mutations s + 1) (pending_operations s + 1)).
Proof.
  unfold reserve_operation. intros H. repeat case_match; simplify_eq.
  repeat match goal with E : checked_add _ _ = Some _ |- _ => apply checked_add_Some in E as [-> _] end.
  done.
Qed.

Lemma consistent_owned w rp :
  consistent w → rp ∈ recovery_permits w →
  recovery_permits w = [rp] ∧ owns (state (coordinator w)) rp = true.
Proof.
  intros (_ & _ & H) Hin. unfold owns. destruct (phase (state (coordinator w))) eqn:E.
  - rewrite H in Hin. by apply elem_of_nil in Hin.
  - destruct H as ((rp' & Hr & He) & Hm). rewrite Hr in Hin |- *.
    apply list_elem_of_singleton in Hin as ->. split; [done |].
    by rewrite He, bool_decide_true, (proj2 (N.eqb_eq _ _)).
  - destruct H as [H _]. rewrite H in Hin. by apply elem_of_nil in Hin.
Qed.

Lemma singleton_split {A} (l1 l2 : list A) x y : l1 ++ x :: l2 = [y] → l1 = [] ∧ l2 = [] ∧ x = y.
Proof. destruct l1 as [|z [|]]; intros [=]; naive_solver. Qed.

(** The state an admission starts from. *)
Lemma admitted_ready c s :
  checked_state c = inl s → negb (is_ready s) = false → s = state c ∧ phase (state c) = Ready.
Proof.
  intros (-> & _ & _)%checked_state_Ok Hr. split; [done |].
  by apply is_ready_true, negb_false_iff.
Qed.

Lemma try_mutation_Ok c c' p :
  try_mutation c = (c', inl p) →
  phase (state c) = Ready ∧ pending_operations (state c) = 0 ∧
  c' = with_state c (set_counts (state c) (mutations (state c) + 1) 0).
Proof.
  unfold try_mutation. intros H. destruct (checked_state c) as [s|e] eqn:Hs; [| done].
  destruct (negb (is_ready s)) eqn:Hr; [done |]. apply admitted_ready in Hs as [-> Hs]; [| done].
  simpl in H. destruct (N.eqb_spec (pending_operations (state c)) 0) as [Hp|]; [| done].
  simpl in H. destruct (checked_add _ _) as [m|] eqn:Hm; [| done].
  apply checked_add_Some in Hm as [-> _]. injection H as <- _. by rewrite Hp.
Qed.

Lemma try_operation_Ok c c' p :
  try_operation c = (c', inl p) →
  phase (state c) = Ready ∧
  c' = with_state c (set_counts (state c) (mutations (state c) + 1) (pending_operations (state c) + 1)).
Proof.
  unfold try_operation. intros H. destruct (checked_state c) as [s|e] eqn:Hs; [| done].
  destruct (negb (is_ready s)) eqn:Hr; [done |]. apply admitted_ready in Hs as [-> Hs]; [| done].
  simpl in H. case_match; [done |]. by apply reserve_operation_Ok in H.
Qed.

Lemma operation_within_Ok c mp c' p :
  operation_within c mp = (c', inl p) →
  phase (state c) = Ready ∧
  c' = with_state c (set_counts (state c) (mutations (state c) + 1) (pending_operations (state c) + 1)).
Proof.
  unfold operation_within. intros H. case_match; [done |].
  destruct (checked_state c) as [s|e] eqn:Hs; [| done].
  destruct (negb (is_ready s)) eqn:Hr; [done |]. apply admitted_ready in Hs as [-> Hs]; [| done].
  simpl in H. case_match; [done |]. by apply reserve_operation_Ok in H.
Qed.

Lemma reserve_recovery_Ok resume c c' rp :
  reserve_recovery resume c = (c', inl rp) →
  recovery_allowed resume (phase (state c)) = true ∧
  mutations (state c) = 0 ∧ pending_operations (state c) = 0 ∧
  reservation rp = next_reservation (state c) + 1 ∧ faulted (state c) = false ∧ poisoned c = false ∧
  c' = with_state c {| phase := Exclusive (reservation rp); mutations := 0; pending_operations := 0;
                       next_reservation := reservation rp; faulted := false |}.
Proof.
  unfold reserve_recovery. intros H. destruct (checked_state c) as [s|e] eqn:Hs; [| done].
  apply checked_state_Ok in Hs as (-> & Hpo & Hf). case_match eqn:Hb; [done |].
  apply orb_false_iff in Hb as [[Ha%negb_false_iff Hm%negb_false_iff%N.eqb_eq]%orb_false_iff
    Hp%negb_false_iff%N.eqb_eq].
  destruct (checked_add _ _) as [r|] eqn:Hr; [| done]. apply checked_add_Some in Hr as [-> _].
  injection H as <- <-. simpl. by rewrite Hm, Hp, Hf.
Qed.

Lemma fault_if_rows b s :
  phase (fault_if b s) = phase s ∧ mutations (fault_if b s) = mutations s ∧
  pending_operations (fault_if b s) = pending_operations s.
Proof. by destruct b. Qed.

Lemma drop_mutation_rows c :
  mutations (state c) ≠ 0 →
  phase (state (drop_mutation c)) = phase (state c) ∧
  mutations (state (drop_mutation c)) = mutations (state c) - 1 ∧
  pending_operations (state (drop_mutation c)) = pending_operations (state c).
Proof.
  intros Hm. unfold drop_mutation, with_state. simpl. destruct (state_for_drop_rows c) as (P & M & O).
  destruct (fault_if_rows (negb (is_ready (state_for_drop c))) (state_for_drop c)) as (P' & M' & O').
  rewrite M', M, (proj2 (N.eqb_neq _ _)) by done. simpl. by rewrite P', P, O', O.
Qed.

Lemma drop_operation_rows panicking c :
  phase (state (drop_operation panicking c)) = phase (state c) ∧
  mutations (state (drop_operation panicking c)) = mutations (state c) - 1 ∧
  pending_operations (state (drop_operation panicking c)) = pending_operations (state c) - 1.
Proof.
  unfold drop_operation. simpl. destruct (state_for_drop_rows c) as (P & M & O).
  match goal with |- context [fault_if ?b ?s] =>
    destruct (fault_if_rows b s) as (P' & M' & O'); generalize dependent (fault_if b s) end.
  intros s1 P' M' O'. rewrite P', P, M', M, O', O.
  split_and!; [done | |]; case_match eqn:E; try done; apply N.ltb_ge in E; lia.
Qed.

(** A recovery permit that owns the coordinator gives it back. *)
Lemma drop_recovery_rows rp c :
  owns (state c) rp = true →
  mutations (state (drop_recovery rp c)) = mutations (state c) ∧
  pending_operations (state (drop_recovery rp c)) = pending_operations (state c) ∧
  phase (state (drop_recovery rp c)) = (if publication_possible rp then Uncertain else Ready) ∧
  (poisoned c = false → faulted (state (drop_recovery rp c)) = faulted (state c)).
Proof.
  intros Ho. unfold drop_recovery. simpl. destruct (state_for_drop_rows c) as (P & M & O).
  assert (owns (state_for_drop c) rp = true) as -> by (unfold owns; by rewrite P, M).
  simpl. rewrite M, O. split_and!; try done. unfold state_for_drop. by intros ->.
Qed.

Lemma owns_mutations s rp : owns s rp = true → mutations s = 0.
Proof. unfold owns. by intros [_ ?%N.eqb_eq]%andb_true_iff. Qed.

Lemma released_consistent c c' m o rp :
  consistent (Build_World c m o [rp]) → mutations (state c') = mutations (state c) →
  pending_operations (state c') = pending_operations (state c) →
  (phase (state c') = Ready ∨ phase (state c') = Uncertain) → mutations (state c) = 0 →
  consistent (Build_World c' m o []).
Proof.
  unfold consistent. simpl. intros (Hm & Ho & _) -> -> Hp H0. split_and!; [done | done |].
  by destruct Hp as [->| ->].
Qed.

Lemma step_consistent w w' : step w w' → consistent w → consistent w'.
Proof.
  intros Hs Hc. destruct Hs as [c m o rs c' p H|c m o rs c' p H|c m o rs c' p mp Hm H
    |c m o rs c' rp resume H|c m o rs1 rp rs2 c' rp' r H|c m o rs1 rp rs2 c' r H|c m o rs
    |c m o rs pan|c m o rs1 rp rs2|c m o rs|c m o rs].
  - apply try_mutation_Ok in H as (HR & Hp & ->). unfold consistent in *. simpl in *.
    rewrite HR in *. split_and!; [lia | lia | apply Hc].
  - apply try_operation_Ok in H as (HR & ->). unfold consistent in *. simpl in *.
    rewrite HR in *. split_and!; [lia | lia | apply Hc].
  - apply operation_within_Ok in H as (HR & ->). unfold consistent in *. simpl in *.
    rewrite HR in *. split_and!; [lia | lia | apply Hc].
  - apply reserve_recovery_Ok in H as (Ha & Hm & Hp & Hr & _ & _ & ->). unfold consistent in *.
    simpl in *. destruct Hc as (H1 & H2 & H3). split_and!; [lia | lia | | done].
    exists rp. split; [| done]. destruct resume, (phase (state c)); try done; [| by rewrite H3].
    by destruct H3 as [-> _].
  - destruct (consistent_owned _ rp Hc) as [Hrs Ho]; [simpl; set_solver |]. simpl in Hrs, Ho.
    apply singleton_split in Hrs as (-> & -> & _). unfold mark_publication_possible in H.
    destruct (checked_state c) as [s|e] eqn:Hst; [| by injection H as <- <- _].
    apply checked_state_Ok in Hst as (-> & _ & _). rewrite Ho in H. injection H as <- <- _.
    unfold consistent in *. simpl in *. destruct Hc as (H1 & H2 & H3). split_and!; [done | done |].
    destruct (phase (state c)); [done | | naive_solver].
    destruct H3 as ((rp' & [= <-] & <-) & H0). split; [by eexists | done].
  - destruct (consistent_owned _ rp Hc) as [Hrs Ho]; [simpl; set_solver |]. simpl in Hrs, Ho.
    apply singleton_split in Hrs as (-> & -> & _). unfold finish_activation in H.
    destruct (drop_recovery_rows rp c Ho) as (R1 & R2 & R3 & _).
    destruct (checked_state c) as [s|e] eqn:Hst.
    + apply checked_state_Ok in Hst as (-> & _ & _). rewrite Ho in H. injection H as <- _.
      eapply released_consistent; [done | done | done | by left | by eapply owns_mutations].
    + injection H as <- _.
      eapply released_consistent; [done | done | done | | by eapply owns_mutations].
      rewrite R3. destruct (publication_possible rp); auto.
  - unfold consistent in *. cbn [coordinator mutation_permits operation_permits recovery_permits] in *.
    destruct Hc as (H1 & H2 & H3).
    destruct (drop_mutation_rows c) as (P & M & O); [lia |]. rewrite P, M, O.
    split_and!; [lia | done |]. destruct (phase (state c)); [done | lia | lia].
  - unfold consistent in *. cbn [coordinator mutation_permits operation_permits recovery_permits] in *.
    destruct Hc as (H1 & H2 & H3).
    destruct (drop_operation_rows pan c) as (P & M & O). rewrite P, M, O.
    split_and!; [lia | lia |]. destruct (phase (state c)); [done | lia | lia].
  - destruct (consistent_owned _ rp Hc) as [Hrs Ho]; [simpl; set_solver |]. simpl in Hrs, Ho.
    apply singleton_split in Hrs as (-> & -> & _).
    destruct (drop_recovery_rows rp c Ho) as (R1 & R2 & R3 & _).
    eapply released_consistent; [done | done | done | | by eapply owns_mutations].
    rewrite R3. destruct (publication_possible rp); auto.
  - unfold consistent in *. simpl in *. destruct (state_for_drop_rows c) as (P & M & O).
    by rewrite P, M, O.
  - done.
Qed.

Lemma reachable_consistent id w : reachable id w → consistent w.
Proof.
  intros Hr. unfold reachable in Hr. assert (H0 : consistent (start id)) by (by split_and!).
  revert H0. induction Hr as [w|w1 w2 w3 Hs _ IH]; [done |]. intros H. by eapply IH, step_consistent.
Qed.

Lemma recovery_excludes_zero id w :
  reachable id w → recovery_permits w ≠ [] →
  mutation_permits w = 0%nat ∧ operation_permits w = 0%nat.
Proof.
  intros (Hm & Ho & Hp)%reachable_consistent Hr.
  destruct (phase (state (coordinator w))); [done | lia | by destruct Hp].
Qed.

(** * Theorems *)

(** C9. Recovery excludes mutation: in every reachable state of a coordinator
    and its permits, however they are interleaved, dropped, faulted or
    poisoned, at most one recovery permit is alive, and while one is, no
    mutation and no operation permit is; the counters are the live permits. *)
Theorem recovery_excludes_mutations id w :
  reachable id w →
  (length (recovery_permits w) <= 1)%nat ∧
  (recovery_permits w ≠ [] → mutation_permits w = 0%nat ∧ operation_permits w = 0%nat) ∧
  mutations (state (coordinator w)) = N.of_nat (mutation_permits w + operation_permits w) ∧
  pending_operations (state (coordinator w)) = N.of_nat (operation_permits w).
Proof.
  intros (Hm & Ho & Hp)%reachable_consistent.
  destruct (phase (state (coordinator w))) as [|r|].
  - rewrite Hp. split_and!; [simpl; lia | done | done | done].
  - destruct Hp as ((rp & -> & _) & H0). split_and!; [simpl; lia | intros _; lia | done | done].
  - destruct Hp as [-> H0]. split_and!; [simpl; lia | done | done | done].
Qed.

(** C10. An interrupted publication stays closed: once a recovery permit whose
    publication may have taken effect is dropped, no mutation and no ordinary
    recovery is admitted; only the resumption of the uncertain state is, and it
    owns the coordinator alone. *)
Theorem interrupted_publication_needs_resume id c m o rp :
  reachable id (Build_World c m o [rp]) → publication_possible rp = true →
  poisoned c = false → faulted (state c) = false → next_reservation (state c) < u64_max →
  let c' := drop_recovery rp c in
  try_mutation c' = (c', inr Busy) ∧ try_operation c' = (c', inr Busy) ∧
  try_recovery c' = (c', inr Busy) ∧
  ∃ c'' rp', try_resume_uncertain c' = (c'', inl rp') ∧ publication_possible rp' = true ∧
    owns (state c'') rp' = true.
Proof.
  intros Hr Hpub Hpo Hf Hn c'. pose proof (reachable_consistent _ _ Hr) as Hc.
  destruct (consistent_owned _ rp Hc) as [_ Ho]; [simpl; set_solver |]. simpl in Ho.
  destruct Hc as (_ & Hop & _). simpl in Hop.
  assert (Hpend : pending_operations (state c) = 0).
  { destruct (recovery_excludes_zero id (Build_World c m o [rp]) Hr) as [_ Hz]; [done |].
    simpl in Hz. lia. }
  assert (Hs : checked_state c' = inl {| phase := Uncertain; mutations := 0; pending_operations := 0;
    next_reservation := next_reservation (state c); faulted := false |}).
  { unfold checked_state, c', drop_recovery, state_for_drop. rewrite Hpo. simpl. rewrite Hpo, Ho. simpl.
    rewrite Hf, Hpub. unfold set_phase.
    by rewrite (owns_mutations _ _ Ho), Hpend, Hf. }
  unfold try_mutation, try_operation, try_recovery, try_resume_uncertain, reserve_recovery.
  rewrite Hs. split_and!; [done | done | done |]. simpl.
  rewrite (proj2 (checked_add_Some _ _ _)) by (split; [reflexivity | lia]).
  do 2 eexists. split; [done |]. split; [done |]. unfold owns. simpl. by rewrite bool_decide_true.
Qed.

(** * Witnesses *)

(** An exclusive recovery, and its permit after the publication began. *)
Definition demo_exclusive : Coordinator := (try_recovery (new_coordinator 7)).1.
Definition demo_permit (possible : bool) : RecoveryPermit :=
  {| rp_coordinator := 7; reservation := 1; publication_possible := possible |}.

Lemma demo_reachable : reachable 7 (Build_World demo_exclusive 0 0 [demo_permit true]).
Proof.
  eapply rtc_l; [by eapply (step_recovery (new_coordinator 7) 0 0 [] _ _ false) |].
  apply rtc_once. by apply (step_mark demo_exclusive 0 0 [] (demo_permit false) [] demo_exclusive
    (demo_permit true) (inl tt)).
Qed.

Lemma recovery_excludes_mutations_witness :
  let w := Build_World demo_exclusive 0 0 [demo_permit true] in
  (length (recovery_permits w) <= 1)%nat ∧
  (recovery_permits w ≠ [] → mutation_permits w = 0%nat ∧ operation_permits w = 0%nat) ∧
  mutations (state (coordinator w)) = N.of_nat (mutation_permits w + operation_permits w) ∧
  pending_operations (state (coordinator w)) = N.of_nat (operation_permits w).
Proof. exact (recovery_excludes_mutations 7 _ demo_reachable). Defined.

Lemma interrupted_publication_needs_resume_witness :
  let c' := drop_recovery (demo_permit true) demo_exclusive in
  try_mutation c' = (c', inr Busy) ∧ try_operation c' = (c', inr Busy) ∧
  try_recovery c' = (c', inr Busy) ∧
  ∃ c'' rp', try_resume_uncertain c' = (c'', inl rp') ∧ publication_possible rp' = true ∧
    owns (state c'') rp' = true.
Proof.
  exact (interrupted_publication_needs_resume 7 demo_exclusive 0 0 (demo_permit true) demo_reachable
    eq_refl eq_refl eq_refl eq_refl).
Defined.
