(* ===== verification/Cards.v ===== *)
(** [engram_core::registry::change_card_cache]: the bounded cache of derived
    change cards, with its insertion order, its byte accounting and the FIFO
    eviction inside one write transaction. *)
From S2P Require Import Prelude Text Store.

Open Scope N_scope.

(** * Definitions *)

Definition MAGIC : bytes :=
  "EGCC" +:+ String NUL (String NUL (String NUL (String "001" ""))).
Definition STATE_MAGIC : bytes :=
  "EGCS" +:+ String NUL (String NUL (String NUL (String "001" ""))).
Definition CHANGE_CARD_CACHE_BATCH : nat := 256.
Definition CHANGE_CARD_CACHE_ROWS : N := 8192.
Definition CHANGE_CARD_CACHE_BYTES : N := 32 * 1024 * 1024.
Definition CHANGE_CARD_CACHE_RECORD_BYTES : N := 64 * 1024.
Definition MAX_EVICTIONS : nat := 256.

(** [ChangeCardCacheWrite]. *)
Record CardWrite := {
  stored : N;
  unchanged : N;
  skipped : N;
  evicted : N;
  charged_bytes : N;
  row_count : N;
}.
Definition no_write : CardWrite :=
  {| stored := 0; unchanged := 0; skipped := 0; evicted := 0; charged_bytes := 0; row_count := 0 |}.

Record CardState := { next : N; count : N; card_bytes : N }.
Definition state_default : CardState := {| next := 0; count := 0; card_bytes := 0 |}.

Definition state_decode (b : bytes) : result CardState :=
  _ ← ensure ((slen b =? 32) && String.eqb (stake 8 b) STATE_MAGIC)
        "Unknown card-cache state; preserved" [];
  let number offset := from_le_bytes (stake 8 (sdrop offset b)) in
  let s := {| next := number 8%nat; count := number 16%nat; card_bytes := number 24%nat |} in
  _ ← ensure ((count s <=? CHANGE_CARD_CACHE_ROWS) && (card_bytes s <=? CHANGE_CARD_CACHE_BYTES)
              && (count s <=? next s)) "Invalid card-cache accounting; preserved" [];
  Ok s.

Definition state_encode (s : CardState) : bytes :=
  STATE_MAGIC +:+ to_le_bytes (next s) +:+ to_le_bytes (count s) +:+ to_le_bytes (card_bytes s).

Definition valid_key (k : string) : bool :=
  match split_once "/" k with
  | Some (scope, oid) =>
      (slen scope =? 64) && ((slen oid =? 40) || (slen oid =? 64))
      && string_forallb is_ascii_hexdigit (scope +:+ oid)
  | None => false
  end.

Definition charge (k : string) (value_len : N) : N := 2 * slen k + value_len + 8.

Definition sequence (value : bytes) : option N :=
  if (16 <=? slen value) && String.eqb (stake 8 value) MAGIC
  then Some (from_le_bytes (stake 8 (sdrop 8 value))) else None.

Definition record_bytes (seq : N) (payload : bytes) : bytes := MAGIC +:+ to_le_bytes seq +:+ payload.

(** The redb tables of the cache, absent before the first write. *)
Class CardsEnv := {
  cards_rows :: Redb string;
  cards_order :: Redb N;
}.

Section cards.
Context `{CE : !CardsEnv}.

Record CardTables := {
  rows : Table string bytes;
  order : Table N string;
  accounting : option bytes;
}.
Definition no_tables : CardTables := {| rows := ∅; order := ∅; accounting := None |}.

Definition Cards : Type := option CardTables.

(** ** Reading *)

Definition read_value (value : option bytes) : option bytes :=
  match value with
  | Some v =>
      if (CHANGE_CARD_CACHE_RECORD_BYTES + 16 <? slen v) || bool_decide (sequence v = None)
      then None else Some (sdrop 16 v)
  | None => None
  end.

Definition read_change_card_metadata (keys : list string) (c : Cards) : result (list (option bytes)) :=
  _ ← ensure (Nat.leb (length keys) CHANGE_CARD_CACHE_BATCH && forallb valid_key keys)
        "Invalid card-cache lookup" [];
  match c with
  | None => Ok ((λ _, None) <$> keys)
  | Some t =>
      raw ← ok_or (accounting t) (Bail "Missing card-cache accounting; preserved" []);
      st ← state_decode raw;
      _ ← ensure (N.of_nat (size (rows t)) =? count st)
            "Inconsistent card-cache accounting; preserved" [];
      Ok ((λ k, read_value (rows t !! k)) <$> keys)
  end.

(** ** Writing *)

(** An eviction candidate: its sequence, key and charge. *)
Definition Candidate : Type := N * string * N.

Definition candidate_of (protected : list string) (rs : Table string bytes) (row : N * string)
  : option Candidate :=
  let '(seq, k) := row in
  if bool_decide (k ∈ protected) then None
  else match rs !! k with
       | Some v => if bool_decide (sequence v = Some seq) then Some (seq, k, charge k (slen v)) else None
       | None => None
       end.

Definition order_le (a b : N * string) : Prop := a.1 <= b.1.
#[export] Instance order_le_dec : RelDecision order_le := λ a b, decide (a.1 <= b.1).

(** [order.iter().take(MAX_EVICTIONS)], ascending. *)
Definition candidates (protected : list string) (t : CardTables) : list Candidate :=
  omap (candidate_of protected (rows t))
    (take MAX_EVICTIONS (stable_sort order_le (map_to_list (order t)))).

(** The projection loop: candidates are passed while a limit is exceeded. *)
Fixpoint project_evictions (k : string) (rs : Table string bytes) (max_rows max_bytes : N)
    (cands : list Candidate) (projected_count projected_bytes : N)
  : result (N * N * list Candidate * list Candidate) :=
  if (max_rows <? projected_count) || (max_bytes <? projected_bytes) then
    match cands with
    | [] => Ok (projected_count, projected_bytes, [], [])
    | (seq, cand, b) :: rest =>
        counts ← (if negb (String.eqb cand k) && bool_decide (is_Some (rs !! cand)) then
                    n ← ok_or (checked_sub projected_count 1) (Panic "projected_count underflow");
                    m ← ok_or (checked_sub projected_bytes b)
                          (Bail "Invalid card-cache eviction accounting; preserved" []);
                    Ok (n, m)
                  else Ok (projected_count, projected_bytes));
        out ← project_evictions k rs max_rows max_bytes rest counts.1 counts.2;
        let '(n, m, taken, remaining) := out in Ok (n, m, (seq, cand, b) :: taken, remaining)
    end
  else Ok (projected_count, projected_bytes, [], cands).

(** Remove the candidates the projection passed. *)
Fixpoint evict (k : string) (taken : list Candidate) (rs : Table string bytes) (os : Table N string)
    (n : N) : Table string bytes * Table N string * N :=
  match taken with
  | [] => (rs, os, n)
  | (seq, cand, _) :: rest =>
      if negb (String.eqb cand k) && bool_decide (is_Some (rs !! cand)) then
        evict k rest (delete cand rs) (delete seq os) (n + 1)
      else evict k rest rs os n
  end.

(** The state of the loop over the entries. *)
Record Batch := {
  b_rows : Table string bytes;
  b_order : Table N string;
  b_state : CardState;
  b_left : list Candidate;
  b_write : CardWrite;
}.

Definition skip (b : Batch) : Batch :=
  {| b_rows := b_rows b; b_order := b_order b; b_state := b_state b; b_left := b_left b;
     b_write := {| stored := stored (b_write b); unchanged := unchanged (b_write b);
                   skipped := skipped (b_write b) + 1; evicted := evicted (b_write b);
                   charged_bytes := charged_bytes (b_write b);
                   row_count := row_count (b_write b) |} |}.
Definition keep (b : Batch) : Batch :=
  {| b_rows := b_rows b; b_order := b_order b; b_state := b_state b; b_left := b_left b;
     b_write := {| stored := stored (b_write b); unchanged := unchanged (b_write b) + 1;
                   skipped := skipped (b_write b); evicted := evicted (b_write b);
                   charged_bytes := charged_bytes (b_write b);
                   row_count := row_count (b_write b) |} |}.

(** The admission of a new or changed record with the known prior sequence. *)
Definition admit_entry (max_rows max_bytes : N) (k : string) (payload : bytes)
    (prior : option (N * N)) (b : Batch) : result Batch :=
  let st := b_state b in
  let old_charge := match prior with Some (_, len) => charge k len | None => 0 end in
  let new_charge := charge k (16 + slen payload) in
  base ← ok_or (checked_sub (card_bytes st) old_charge)
           (Bail "Invalid card-cache byte accounting; preserved" []);
  out ← project_evictions k (b_rows b) max_rows max_bytes (b_left b)
          (count st + (if bool_decide (prior = None) then 1 else 0)) (base + new_charge);
  let '(n, m, taken, remaining) := out in
  if (max_rows <? n) || (max_bytes <? m) then Ok (skip b)
  else
    let '(rs, os, ev) := evict k taken (b_rows b) (b_order b) (evicted (b_write b)) in
    alloc ← match prior with
            | Some (seq, _) => Ok (seq, next st)
            | None => v ← ok_or (checked_add (next st) 1)
                            (Bail "Card-cache insertion sequence exhausted" []);
                      Ok (v, v)
            end;
    Ok {| b_rows := <[k := record_bytes alloc.1 payload]> rs;
          b_order := <[alloc.1 := k]> os;
          b_state := {| next := alloc.2; count := n; card_bytes := m |};
          b_left := remaining;
          b_write := {| stored := stored (b_write b) + 1; unchanged := unchanged (b_write b);
                        skipped := skipped (b_write b); evicted := ev;
                        charged_bytes := charged_bytes (b_write b);
                        row_count := row_count (b_write b) |} |}.

(** One entry of the batch. *)
Definition store_entry (max_rows max_bytes : N) (b : Batch) (entry : string * bytes) : result Batch :=
  let '(k, payload) := entry in
  if CHANGE_CARD_CACHE_RECORD_BYTES <? slen payload then Ok (skip b)
  else match b_rows b !! k with
       | None => admit_entry max_rows max_bytes k payload None b
       | Some raw =>
           match sequence raw with
           | None => Ok (skip b)
           | Some seq =>
               _ ← ensure (bool_decide (b_order b !! seq = Some k))
                     "Inconsistent card-cache insertion order; preserved" [];
               if (16 <=? slen raw) && String.eqb (sdrop 16 raw) payload then Ok (keep b)
               else admit_entry max_rows max_bytes k payload (Some (seq, slen raw)) b
           end
       end.

Fixpoint store_entries (max_rows max_bytes : N) (entries : list (string * bytes)) (b : Batch)
  : result Batch :=
  match entries with
  | [] => Ok b
  | e :: rest => b' ← store_entry max_rows max_bytes b e; store_entries max_rows max_bytes rest b'
  end.

(** The accounting a transaction starts from. *)
Definition load_state (t : CardTables) : result CardState :=
  st ← match accounting t with
       | Some raw => state_decode raw
       | None => _ ← ensure (Nat.eqb (size (rows t)) 0 && Nat.eqb (size (order t)) 0)
                       "Missing card-cache accounting; preserved" [];
                 Ok state_default
       end;
  _ ← ensure ((N.of_nat (size (rows t)) =? count st) && (N.of_nat (size (order t)) =? count st))
        "Inconsistent card-cache accounting; preserved" [];
  Ok st.

Definition finish (b : Batch) : CardWrite :=
  {| stored := stored (b_write b); unchanged := unchanged (b_write b);
     skipped := skipped (b_write b); evicted := evicted (b_write b);
     charged_bytes := card_bytes (b_state b); row_count := count (b_state b) |}.

Definition store_cards_with_limits (entries : list (string * bytes)) (max_rows max_bytes : N)
    (c : Cards) : Cards * result CardWrite :=
  let run :=
    _ ← ensure (Nat.leb (length entries) CHANGE_CARD_CACHE_BATCH
                && forallb (λ e, valid_key e.1) entries) "Invalid card-cache batch" [];
    _ ← ensure (Nat.eqb (length (remove_dups entries.*1)) (length entries))
          "Duplicate card-cache key" [];
    match entries with
    | [] => Ok (c, no_write)
    | _ =>
        let t := default no_tables c in
        st ← load_state t;
        b ← store_entries max_rows max_bytes entries
              {| b_rows := rows t; b_order := order t; b_state := st;
                 b_left := candidates entries.*1 t; b_write := no_write |};
        if negb (stored (b_write b) =? 0) || negb (evicted (b_write b) =? 0) then
          Ok (Some {| rows := b_rows b; order := b_order b;
                      accounting := Some (state_encode (b_state b)) |}, finish b)
        else Ok (c, finish b)
    end in
  match run with Ok (c', w) => (c', Ok w) | Fail e => (c, Fail e) end.

Definition store_change_card_metadata (entries : list (string * bytes)) : Cards → Cards * result CardWrite :=
  store_cards_with_limits entries CHANGE_CARD_CACHE_ROWS CHANGE_CARD_CACHE_BYTES.

(** ** What the accounting promises *)

(** The charge of all stored rows. *)
Definition rows_bytes (rs : Table string bytes) : N :=
  map_fold (λ k v n, charge k (slen v) + n) 0 rs.

(** The accounting is exact and the insertion order names every row once. *)
Record ledger (rs : Table string bytes) (os : Table N string) (st : CardState) : Prop := {
  ledger_count : N.of_nat (size rs) = count st;
  ledger_order : size os = size rs;
  ledger_bytes : rows_bytes rs = card_bytes st;
  ledger_rows : ∀ k v, rs !! k = Some v →
    ∃ seq, sequence v = Some seq ∧ os !! seq = Some k ∧ seq <= next st;
  ledger_keys : ∀ seq k, os !! seq = Some k → ∃ v, rs !! k = Some v ∧ sequence v = Some seq;
  ledger_next : count st <= next st;
}.

Definition state_bounded (st : CardState) : Prop :=
  count st <= CHANGE_CARD_CACHE_ROWS ∧ card_bytes st <= CHANGE_CARD_CACHE_BYTES ∧
  next st <= u64_max.

Definition cards_inv (c : Cards) : Prop :=
  match c with
  | None => True
  | Some t => ∃ st, accounting t = Some (state_encode st) ∧ ledger (rows t) (order t) st ∧
                    state_bounded st
  end.

(** How many of the candidates are stored, and their charge. *)
Fixpoint gone_count (k : string) (rs : Table string bytes) (taken : list Candidate) : N :=
  match taken with
  | [] => 0
  | (_, cand, _) :: rest =>
      (if negb (String.eqb cand k) && bool_decide (is_Some (rs !! cand)) then 1 else 0)
      + gone_count k rs rest
  end.
Fixpoint gone_bytes (k : string) (rs : Table string bytes) (taken : list Candidate) : N :=
  match taken with
  | [] => 0
  | (_, cand, b) :: rest =>
      (if negb (String.eqb cand k) && bool_decide (is_Some (rs !! cand)) then b else 0)
      + gone_bytes k rs rest
  end.

(** Candidates name unprotected rows by their own sequence and charge. *)
Definition candidates_ok (protected : list string) (rs : Table string bytes) (cs : list Candidate) : Prop :=
  NoDup ((λ c, c.1.2) <$> cs) ∧
  ∀ seq k b, (seq, k, b) ∈ cs → k ∉ protected ∧
    ∀ v, rs !! k = Some v → sequence v = Some seq ∧ b = charge k (slen v).

(** * Lemmas *)

(** ** Codecs *)

Lemma slen_to_le_bytes n : slen (to_le_bytes n) = 8.
Proof. unfold slen, to_le_bytes. by rewrite le_split_length. Qed.

Lemma slen_record seq payload : slen (record_bytes seq payload) = 16 + slen payload.
Proof. unfold record_bytes. rewrite !slen_app, slen_to_le_bytes. change (slen MAGIC) with 8. lia. Qed.

Lemma sequence_record seq payload : seq <= u64_max → sequence (record_bytes seq payload) = Some seq.
Proof.
  intros Hs. unfold sequence. rewrite slen_record, (proj2 (N.leb_le _ _)) by lia. unfold record_bytes.
  rewrite stake_app, String.eqb_refl, sdrop_app, stake_app, from_to_le_bytes by
    (done || (unfold to_le_bytes; by rewrite le_split_length)). done.
Qed.

Lemma record_payload seq payload : sdrop 16 (record_bytes seq payload) = payload.
Proof.
  unfold record_bytes. rewrite <-app_assoc_str. apply sdrop_app.
  rewrite length_app_str. unfold to_le_bytes. by rewrite le_split_length.
Qed.

Lemma state_round_trip st :
  state_bounded st → count st <= next st → state_decode (state_encode st) = Ok st.
Proof.
  intros (Hc & Hb & Hn) Hle. unfold state_decode, state_encode.
  assert (Hl : ∀ n, String.length (to_le_bytes n) = 8%nat)
    by (intros; apply le_split_length).
  assert (Hmax : count st <= u64_max ∧ card_bytes st <= u64_max)
    by (unfold CHANGE_CARD_CACHE_ROWS, CHANGE_CARD_CACHE_BYTES, u64_max in *; lia).
  apply result_bind_Ok. exists tt. split.
  { apply ensure_Ok. rewrite !slen_app, !slen_to_le_bytes, stake_app by done.
    by rewrite String.eqb_refl. }
  rewrite (sdrop_app 8 STATE_MAGIC) by done. rewrite (stake_app 8 (to_le_bytes (next st))) by done.
  rewrite <-(app_assoc_str STATE_MAGIC (to_le_bytes (next st))).
  rewrite (sdrop_app 16 (STATE_MAGIC +:+ to_le_bytes (next st))) by (by rewrite length_app_str, Hl).
  rewrite (stake_app 8 (to_le_bytes (count st))) by done.
  rewrite <-(app_assoc_str (STATE_MAGIC +:+ to_le_bytes (next st))).
  rewrite (sdrop_app 24) by (by rewrite !length_app_str, !Hl).
  rewrite <-(app_nil_r_str (to_le_bytes (card_bytes st))), (stake_app 8) by done.
  rewrite !from_to_le_bytes by tauto. destruct st as [n c b]. simpl in *.
  apply result_bind_Ok. exists tt. split; [| done]. apply ensure_Ok.
  by rewrite !(proj2 (N.leb_le _ _)).
Qed.

(** ** Byte totals *)

Lemma rows_bytes_insert k v (rs : Table string bytes) :
  rs !! k = None → rows_bytes (<[k := v]> rs) = charge k (slen v) + rows_bytes rs.
Proof. intros. unfold rows_bytes. rewrite map_fold_insert_L; [done | intros; lia | done]. Qed.

Lemma rows_bytes_delete k v (rs : Table string bytes) :
  rs !! k = Some v → rows_bytes rs = charge k (slen v) + rows_bytes (delete k rs).
Proof. intros. unfold rows_bytes. erewrite map_fold_delete_L; [done | intros; lia | done]. Qed.

Lemma rows_bytes_update k v w (rs : Table string bytes) :
  rs !! k = Some v →
  rows_bytes (<[k := w]> rs) + charge k (slen v) = charge k (slen w) + rows_bytes rs.
Proof.
  intros Hk. rewrite (rows_bytes_delete k v rs Hk), <-insert_delete_eq.
  rewrite rows_bytes_insert by apply lookup_delete_eq. lia.
Qed.

(** ** Evictions *)

Lemma gone_delete k cand (rs : Table string bytes) taken :
  cand ∉ ((λ c : Candidate, c.1.2) <$> taken) →
  gone_count k (delete cand rs) taken = gone_count k rs taken ∧
  gone_bytes k (delete cand rs) taken = gone_bytes k rs taken.
Proof.
  induction taken as [|[[seq c] b] taken IH]; simpl; [done |].
  intros [Hne Hn]%not_elem_of_cons. simpl in Hne. destruct (IH Hn) as [-> ->].
  by rewrite lookup_delete_ne.
Qed.

Lemma project_evictions_spec k (rs : Table string bytes) mr mb cands n m n' m' taken remaining :
  project_evictions k rs mr mb cands n m = Ok (n', m', taken, remaining) →
  cands = taken ++ remaining ∧ n' + gone_count k rs taken = n ∧ m' + gone_bytes k rs taken = m.
Proof.
  revert n m n' m' taken. induction cands as [|[[seq cand] b] cands IH]; intros n m n' m' taken H;
    simpl in H; case_match; simplify_eq/=; try (split_and!; [done | lia | lia]).
  apply result_bind_Ok in H as ([n1 m1] & Hc & H). apply result_bind_Ok in H as ([[[n2 m2] t2] r2] & Hp & H).
  simplify_eq. apply IH in Hp as (-> & Hn & Hm). simpl in *.
  destruct (negb (String.eqb cand k) && bool_decide (is_Some (rs !! cand))).
  - apply result_bind_Ok in Hc as (x & Hx & Hc). apply result_bind_Ok in Hc as (y & Hy & Hc).
    apply ok_or_Ok, checked_sub_Some in Hx as [? ->]. apply ok_or_Ok, checked_sub_Some in Hy as [? ->].
    simplify_eq. split_and!; [done | lia | lia].
  - simplify_eq. split_and!; [done | lia | lia].
Qed.

Lemma ledger_delete k v seq (rs : Table string bytes) os st :
  ledger rs os st → rs !! k = Some v → sequence v = Some seq →
  ledger (delete k rs) (delete seq os)
    {| next := next st; count := count st - 1; card_bytes := card_bytes st - charge k (slen v) |} ∧
  1 <= count st ∧ charge k (slen v) <= card_bytes st.
Proof.
  intros [Hc Ho Hb Hr Hk Hn] Hkv Hs. destruct (Hr _ _ Hkv) as (seq' & Hs' & Hos & _).
  rewrite Hs in Hs'. injection Hs' as <-.
  assert (Hsz := map_size_delete_Some k rs ltac:(eauto)).
  assert (Hso := map_size_delete_Some seq os ltac:(eauto)).
  assert (Hpos : size rs ≠ 0%nat).
  { intros H0. apply map_size_empty_inv in H0. by rewrite H0, lookup_empty in Hkv. }
  pose proof (rows_bytes_delete _ _ _ Hkv) as Hbd. rewrite Hb in Hbd.
  split; [| lia]. split; simpl.
  - lia.
  - lia.
  - lia.
  - intros k' v' [Hne Hk']%lookup_delete_Some. destruct (Hr _ _ Hk') as (q & Hq & Hoq & Hle).
    exists q. split_and!; [done | | done]. rewrite lookup_delete_ne; [done |]. intros <-.
    rewrite Hos in Hoq. by injection Hoq.
  - intros q k' [Hne Hq]%lookup_delete_Some. destruct (Hk _ _ Hq) as (v' & Hv' & Hsv').
    exists v'. split; [| done]. rewrite lookup_delete_ne; [done |]. intros <-.
    rewrite Hkv in Hv'. injection Hv' as <-. rewrite Hs in Hsv'. by injection Hsv'.
  - lia.
Qed.

Lemma evict_ledger k taken (rs : Table string bytes) os st n rs' os' n' :
  NoDup ((λ c : Candidate, c.1.2) <$> taken) →
  (∀ seq c b, (seq, c, b) ∈ taken → ∀ v, rs !! c = Some v → sequence v = Some seq ∧ b = charge c (slen v)) →
  ledger rs os st → evict k taken rs os n = (rs', os', n') →
  (∃ st', ledger rs' os' st' ∧ next st' = next st ∧
     count st' + gone_count k rs taken = count st ∧ card_bytes st' + gone_bytes k rs taken = card_bytes st) ∧
  rs' ⊆ rs ∧ rs' !! k = rs !! k ∧
  (∀ k', k' ∉ ((λ c : Candidate, c.1.2) <$> taken) → rs' !! k' = rs !! k').
Proof.
  revert rs os st n. induction taken as [|[[seq c] b] taken IH]; intros rs os st n Hnd Hok Hl He.
  - injection He as <- <- <-. split; [exists st; simpl; split_and!; [done | done | lia | lia] |].
    split_and!; done.
  - simpl in He, Hnd |- *. apply NoDup_cons in Hnd as [Hn Hnd]. simpl in Hn.
    destruct (negb (String.eqb c k) && bool_decide (is_Some (rs !! c))) eqn:Hg.
    + apply andb_true_iff in Hg as [Hck [v Hv]%bool_decide_eq_true].
      apply negb_true_iff, String.eqb_neq in Hck.
      destruct (Hok seq c b ltac:(set_solver) v Hv) as [Hs ->].
      destruct (ledger_delete _ _ _ _ _ _ Hl Hv Hs) as (Hl' & H1 & H2).
      destruct (gone_delete k c rs taken Hn) as [G1 G2].
      apply (IH _ _ {| next := next st; count := count st - 1;
                       card_bytes := card_bytes st - charge c (slen v) |}) in He as
        ((st' & L & N & C & B) & S & K & F); [| done | | done].
      * rewrite G1, G2 in *. simpl in *. split; [exists st'; split_and!; [done | done | lia | lia] |].
        split_and!.
        -- etrans; [done | apply delete_subseteq].
        -- rewrite K. by rewrite lookup_delete_ne.
        -- intros k' [Hne Hk']%not_elem_of_cons. simpl in Hne. rewrite F by done. by rewrite lookup_delete_ne.
      * intros seq' c' b' Hin v' [_ Hv']%lookup_delete_Some. apply (Hok seq' c' b'); [set_solver | done].
    + apply (IH _ _ st) in He as ((st' & L & N & C & B) & S & K & F); [| done | | done].
      * split; [exists st'; split_and!; [done | done | lia | lia] |]. split_and!; [done | done |].
        intros k' [_ Hk']%not_elem_of_cons. by apply F.
      * intros seq' c' b' Hin. apply (Hok seq' c' b'). set_solver.
Qed.

Lemma project_evictions_total k (rs : Table string bytes) mr mb cands n m :
  gone_count k rs cands <= n → gone_bytes k rs cands <= m →
  ∃ out, project_evictions k rs mr mb cands n m = Ok out.
Proof.
  revert n m. induction cands as [|[[seq c] b] cands IH]; intros n m Hn Hm; simpl in *;
    (destruct ((mr <? n) || (mb <? m)); [| by eexists]); [by eexists |].
  assert (Hstep : ∃ n1 m1, (if negb (String.eqb c k) && bool_decide (is_Some (rs !! c)) then
      x ← ok_or (checked_sub n 1) (Panic "projected_count underflow");
      y ← ok_or (checked_sub m b) (Bail "Invalid card-cache eviction accounting; preserved" []);
      Ok (x, y) else Ok (n, m)) = Ok (n1, m1) ∧ gone_count k rs cands <= n1 ∧ gone_bytes k rs cands <= m1).
  { destruct (negb (String.eqb c k) && bool_decide (is_Some (rs !! c))).
    - exists (n - 1), (m - b). rewrite !(proj2 (checked_sub_Some _ _ _)) by (split; [| done]; lia).
      split_and!; [done | lia | lia].
    - exists n, m. split_and!; [done | lia | lia]. }
  destruct Hstep as (n1 & m1 & -> & Hn1 & Hm1). simpl.
  destruct (IH n1 m1 Hn1 Hm1) as [[[[? ?] ?] ?] ->]. by eexists.
Qed.

(** ** One entry *)

(** The loop state between two entries of a batch. *)
Record batch_ok (protected : list string) (mr mb : N) (b : Batch) : Prop := {
  batch_ledger : ledger (b_rows b) (b_order b) (b_state b);
  batch_bounded : state_bounded (b_state b);
  batch_left : candidates_ok protected (b_rows b) (b_left b);
  batch_limits : stored (b_write b) ≠ 0 → count (b_state b) <= mr ∧ card_bytes (b_state b) <= mb;
}.

Lemma batch_ok_skip protected mr mb b : batch_ok protected mr mb b → batch_ok protected mr mb (skip b).
Proof. by intros []. Qed.
Lemma batch_ok_keep protected mr mb b : batch_ok protected mr mb b → batch_ok protected mr mb (keep b).
Proof. by intros []. Qed.

(** The prior record of a key as [store_entry] describes it. *)
Definition prior_of (k : string) (rs : Table string bytes) (prior : option (N * N)) : Prop :=
  match prior with
  | None => rs !! k = None
  | Some (seq, len) => ∃ raw, rs !! k = Some raw ∧ sequence raw = Some seq ∧ len = slen raw
  end.
Definition prior_charge (k : string) (prior : option (N * N)) : N :=
  match prior with Some (_, len) => charge k len | None => 0 end.

(** Insert a record with its sequence, new or in place of the prior one. *)
Lemma ledger_insert k payload prior seq' next' (rs : Table string bytes) os st :
  ledger rs os st → prior_of k rs prior →
  (match prior with Some (seq, _) => seq' = seq ∧ next' = next st
   | None => seq' = next st + 1 ∧ next' = next st + 1 end) →
  seq' <= u64_max →
  ledger (<[k := record_bytes seq' payload]> rs) (<[seq' := k]> os)
    {| next := next'; count := count st + (if bool_decide (prior = None) then 1 else 0);
       card_bytes := card_bytes st - prior_charge k prior + charge k (16 + slen payload) |} ∧
  prior_charge k prior <= card_bytes st.
Proof.
  intros [Hc Ho Hb Hr Hk Hn] Hp Hseq Hmax. rewrite <-slen_record with (seq := seq').
  destruct prior as [[seq len]|]; simpl in *.
  - destruct Hp as (raw & Hraw & Hs & ->). destruct Hseq as [-> ->].
    destruct (Hr _ _ Hraw) as (q & Hq & Hoq & Hle). rewrite Hs in Hq. injection Hq as <-.
    pose proof (rows_bytes_update k raw (record_bytes seq payload) rs Hraw) as Hu.
    pose proof (rows_bytes_delete _ _ _ Hraw) as Hd. rewrite Hb in Hu, Hd. split; [| lia].
    rewrite (insert_id os) by done. split; simpl.
    + rewrite map_size_insert_Some by eauto. lia.
    + rewrite map_size_insert_Some by eauto. done.
    + lia.
    + intros k' v' [[<- <-]|[Hne Hv']]%lookup_insert_Some; [| by apply Hr].
      exists seq. split_and!; [by apply sequence_record | done | done].
    + intros q k' Hq. destruct (decide (k' = k)) as [->|Hne].
      * exists (record_bytes seq payload). rewrite lookup_insert_eq. split; [done |].
        destruct (Hk _ _ Hq) as (v & Hv & Hsv). rewrite Hraw in Hv. injection Hv as <-.
        rewrite sequence_record by done. congruence.
      * rewrite lookup_insert_ne by done. by apply Hk.
    + lia.
  - destruct Hseq as [-> ->]. split; [| lia].
    assert (Hnone : os !! (next st + 1) = None).
    { destruct (os !! (next st + 1)) as [k'|] eqn:E; [| done].
      destruct (Hk _ _ E) as (v & Hv & Hs). destruct (Hr _ _ Hv) as (q & Hq & _ & Hle).
      rewrite Hs in Hq. injection Hq as <-. lia. }
    split; simpl.
    + rewrite map_size_insert_None by done. lia.
    + rewrite !map_size_insert_None by done. congruence.
    + rewrite rows_bytes_insert by done. lia.
    + intros k' v' [[<- <-]|[Hne Hv']]%lookup_insert_Some.
      * exists (next st + 1). split_and!; [by apply sequence_record | by rewrite lookup_insert_eq | lia].
      * destruct (Hr _ _ Hv') as (q & Hq & Hoq & Hle). exists q. split_and!; [done | | lia].
        rewrite lookup_insert_ne by lia. done.
    + intros q k' [[<- <-]|[Hne Hq]]%lookup_insert_Some.
      * exists (record_bytes (next st + 1) payload). rewrite lookup_insert_eq.
        split; [done | by apply sequence_record].
      * destruct (Hk _ _ Hq) as (v & Hv & Hs). exists v. split; [| done].
        rewrite lookup_insert_ne; [done |]. intros <-. by rewrite Hp in Hv.
    + lia.
Qed.

Lemma prior_of_same k (rs rs' : Table string bytes) prior :
  rs' !! k = rs !! k → prior_of k rs prior → prior_of k rs' prior.
Proof. unfold prior_of. by intros ->. Qed.

Lemma gone_le_ledger k protected (rs : Table string bytes) os st cands :
  k ∈ protected → candidates_ok protected rs cands → ledger rs os st →
  gone_count k rs cands <= count st ∧
  ∀ prior, prior_of k rs prior → gone_bytes k rs cands + prior_charge k prior <= card_bytes st.
Proof.
  intros Hk [Hnd Hc] Hl. destruct (evict k cands rs os 0) as [[rs' os'] n'] eqn:E.
  destruct (evict_ledger _ _ _ _ _ _ _ _ _ Hnd (λ seq c b Hin, proj2 (Hc seq c b Hin)) Hl E)
    as ((st' & L & N & C & B) & S & K & _).
  split; [lia |]. intros [[seq len]|] Hp; simpl in *; [| lia].
  destruct Hp as (raw & Hraw & _ & ->). rewrite <-K in Hraw.
  destruct L as [_ _ Hb _ _ _]. pose proof (rows_bytes_delete _ _ _ Hraw). lia.
Qed.

Lemma candidates_ok_rest protected (rs rs' : Table string bytes) taken remaining :
  candidates_ok protected rs (taken ++ remaining) → rs' ⊆ rs → candidates_ok protected rs' remaining.
Proof.
  intros [Hnd Hc] Hs. split.
  - rewrite fmap_app in Hnd. by apply NoDup_app in Hnd as (_ & _ & ?).
  - intros seq c b Hin. destruct (Hc seq c b) as [Hp Hv]; [set_solver |]. split; [done |].
    intros v Hv'. apply Hv. by eapply lookup_weaken.
Qed.

Lemma candidates_ok_insert protected (rs : Table string bytes) cs k v :
  k ∈ protected → candidates_ok protected rs cs → candidates_ok protected (<[k := v]> rs) cs.
Proof.
  intros Hk [Hnd Hc]. split; [done |]. intros seq c b Hin. destruct (Hc seq c b Hin) as [Hp Hv].
  split; [done |]. intros w. rewrite lookup_insert_ne by (intros ->; done). apply Hv.
Qed.

Definition cand_keys (cs : list Candidate) : list string := (λ c, c.1.2) <$> cs.

(** The candidates between two states were evicted, all of them, and no other
    unprotected row was touched. *)
Definition fifo (protected : list string) (b b' : Batch) : Prop :=
  ∃ taken, b_left b = taken ++ b_left b' ∧
    (∀ c, c ∈ cand_keys taken → b_rows b' !! c = None) ∧
    (∀ c, c ∉ protected → c ∉ cand_keys taken → b_rows b' !! c = b_rows b !! c).

Lemma fifo_refl protected b b' : b_left b' = b_left b → b_rows b' = b_rows b → fifo protected b b'.
Proof. intros Hl Hr. exists []. rewrite Hl, Hr. split_and!; [done | set_solver | done]. Qed.

Lemma fifo_trans protected b b1 b' :
  (∀ c, c ∈ cand_keys (b_left b) → c ∉ protected) →
  fifo protected b b1 → fifo protected b1 b' → fifo protected b b'.
Proof.
  intros Hun (t1 & H1 & Hg1 & Hk1) (t2 & H2 & Hg2 & Hk2). exists (t1 ++ t2).
  rewrite H2, app_assoc in H1. split; [done |]. unfold cand_keys in *. rewrite fmap_app. split.
  - intros c [Hc|Hc]%elem_of_app; [| by apply Hg2].
    destruct (decide (c ∈ (λ c : Candidate, c.1.2) <$> t2)) as [Hc2|Hc2]; [by apply Hg2 |].
    rewrite Hk2; [by apply Hg1 | | done]. apply Hun. rewrite H1, !fmap_app. set_solver.
  - intros c Hp [Hc1 Hc2]%not_elem_of_app. rewrite Hk2, Hk1 by done. done.
Qed.

Lemma evict_gone k taken (rs : Table string bytes) os n rs' os' n' :
  evict k taken rs os n = (rs', os', n') → rs' ⊆ rs ∧
  ∀ c, c ∈ cand_keys taken → c ≠ k → rs' !! c = None.
Proof.
  revert rs os n. induction taken as [|[[seq c] b] taken IH]; intros rs os n He; simpl in He.
  { injection He as <- <- <-. split; [done | set_solver]. }
  destruct (negb (String.eqb c k) && bool_decide (is_Some (rs !! c))) eqn:Hg;
    apply IH in He as [Hs He]; (split; [try done |]).
  - etrans; [done | apply delete_subseteq].
  - intros c' Hc Hne. cbn in Hc. apply elem_of_cons in Hc as [->|Hc]; [| by apply He].
    destruct (rs' !! c) eqn:E; [| done]. eapply lookup_weaken in E; [| done].
    by rewrite lookup_delete_eq in E.
  - intros c' Hc Hne. cbn in Hc. apply elem_of_cons in Hc as [->|Hc]; [| by apply He].
    apply andb_false_iff in Hg as [Hg|Hg].
    + apply negb_false_iff, String.eqb_eq in Hg. done.
    + apply bool_decide_eq_false in Hg. destruct (rs' !! c) eqn:E; [| done].
      eapply lookup_weaken in E; [| done]. by destruct Hg.
Qed.

(** What one entry does to the rows of the batch: a skip changes nothing, and
    otherwise the key reads back as the payload; the other keys of the batch
    keep their rows. *)
Definition entry_effect (protected : list string) (k : string) (payload : bytes) (b b' : Batch) : Prop :=
  next (b_state b') <= next (b_state b) + 1 ∧
  (∀ k', k' ∈ protected → k' ≠ k → b_rows b' !! k' = b_rows b !! k') ∧
  fifo protected b b' ∧
  (b_rows b' = b_rows b ∧ stored (b_write b') = stored (b_write b) ∧
     skipped (b_write b') = skipped (b_write b) + 1 ∨
   skipped (b_write b') = skipped (b_write b) ∧ read_value (b_rows b' !! k) = Some payload ∧
     (stored (b_write b') = stored (b_write b) ∧ b_rows b' = b_rows b ∨
      stored (b_write b') = stored (b_write b) + 1)).

Lemma entry_effect_skip protected k payload b : entry_effect protected k payload b (skip b).
Proof. split; [simpl; lia |]. split; [done |]. split; [by apply fifo_refl | by left]. Qed.

Lemma read_value_record seq payload :
  seq <= u64_max → slen payload <= CHANGE_CARD_CACHE_RECORD_BYTES →
  read_value (Some (record_bytes seq payload)) = Some payload.
Proof.
  intros Hs Hl. cbn [read_value]. rewrite slen_record, sequence_record, record_payload by done.
  by rewrite (proj2 (N.ltb_ge _ _)) by lia.
Qed.

Lemma read_value_kept raw seq payload :
  sequence raw = Some seq → (16 <=? slen raw) && String.eqb (sdrop 16 raw) payload = true →
  slen payload <= CHANGE_CARD_CACHE_RECORD_BYTES → read_value (Some raw) = Some payload.
Proof.
  intros Hs [Hr%N.leb_le <-%String.eqb_eq]%andb_true_iff Hl. cbn [read_value]. rewrite Hs.
  rewrite (proj2 (N.ltb_ge _ _)); [done |]. unfold slen in *.
  rewrite length_sdrop in Hl. lia.
Qed.

Lemma admit_entry_ok protected mr mb k payload prior b :
  k ∈ protected → slen payload <= CHANGE_CARD_CACHE_RECORD_BYTES → mr <= CHANGE_CARD_CACHE_ROWS → mb <= CHANGE_CARD_CACHE_BYTES →
  batch_ok protected mr mb b → prior_of k (b_rows b) prior → next (b_state b) < u64_max →
  ∃ b', admit_entry mr mb k payload prior b = Ok b' ∧ batch_ok protected mr mb b' ∧
        entry_effect protected k payload b b'.
Proof.
  intros Hk Hpl Hmr Hmb [Hl Hbd Hc Hlim] Hp Hn. unfold admit_entry.
  destruct (gone_le_ledger k protected _ _ _ _ Hk Hc Hl) as [Hg1 Hg2]. specialize (Hg2 prior Hp).
  fold (prior_charge k prior). set (st := b_state b) in *.
  rewrite (proj2 (checked_sub_Some (card_bytes st) (prior_charge k prior) _)) by (split; [lia | done]).
  cbn [ok_or]. unfold mbind at 1, result_bind at 1.
  set (one := if bool_decide (prior = None) then 1 else 0).
  destruct (project_evictions_total k (b_rows b) mr mb (b_left b) (count st + one)
    (card_bytes st - prior_charge k prior + charge k (16 + slen payload))) as [[[[n m] taken] remaining] Hpr];
    [lia | lia |].
  rewrite Hpr. unfold mbind at 1, result_bind at 1.
  apply project_evictions_spec in Hpr as (Hcands & Hn' & Hm').
  destruct ((mr <? n) || (mb <? m)) eqn:Hlimit.
  { eexists. split; [done |]. split; [by apply batch_ok_skip | apply entry_effect_skip]. }
  apply orb_false_iff in Hlimit as [Hl1%N.ltb_ge Hl2%N.ltb_ge].
  destruct (evict k taken (b_rows b) (b_order b) (evicted (b_write b))) as [[rs' os'] ev] eqn:E.
  destruct (evict_gone _ _ _ _ _ _ _ _ E) as [_ Hgone].
  rewrite Hcands in Hc. pose proof (candidates_ok_rest _ _ rs' _ _ Hc) as Hrest. destruct Hc as [Hnd Hc].
  apply evict_ledger with (st := st) in E as ((st' & L & N & C & B) & S & K & F); cycle 1.
  { rewrite fmap_app in Hnd. by apply NoDup_app in Hnd as (? & _ & _). }
  { intros seq c bb Hin. destruct (Hc seq c bb) as [_ Hv]; [set_solver | done]. }
  { done. }
  pose proof (prior_of_same _ _ rs' _ K Hp) as Hp'.
  assert (Halloc : ∃ seq' next', match prior with
      | Some (seq, _) => Ok (seq, next st)
      | None => v ← ok_or (checked_add (next st) 1) (Bail "Card-cache insertion sequence exhausted" []);
                Ok (v, v) end = Ok (seq', next') ∧
      match prior with Some (seq, _) => seq' = seq ∧ next' = next st'
      | None => seq' = next st' + 1 ∧ next' = next st' + 1 end ∧ seq' <= u64_max ∧ next' <= next st + 1).
  { destruct prior as [[seq len]|].
    - exists seq, (next st). rewrite N. split_and!; [done | done | done | | lia].
      destruct Hp' as (raw & Hraw & Hs & _). destruct L as [_ _ _ Hr _ _].
      destruct (Hr _ _ Hraw) as (q & Hq & _ & Hle). rewrite Hs in Hq. injection Hq as <-. lia.
    - exists (next st + 1), (next st + 1). rewrite N.
      rewrite (proj2 (checked_add_Some _ _ _)) by (split; [reflexivity | lia]).
      split_and!; [done | done | done | lia | lia]. }
  destruct Halloc as (seq' & next' & -> & Hseq & Hs64 & Hnext). unfold mbind, result_bind.
  destruct (ledger_insert k payload prior seq' next' rs' os' st' L Hp' Hseq Hs64) as [L' Hch].
  assert (Hn2 : count st' + one = n) by lia.
  assert (Hm2 : card_bytes st' - prior_charge k prior + charge k (16 + slen payload) = m) by lia.
  fold one in L'. rewrite Hn2, Hm2 in L'.
  eexists. split; [done |]. split; simpl; split; simpl.
  - done.
  - unfold state_bounded in *. simpl. lia.
  - apply candidates_ok_insert; [done | by apply Hrest].
  - done.
  - fold st. lia.
  - split.
    + intros k' Hk' Hne. rewrite lookup_insert_ne by done. apply F.
      intros ([[seq c] bb] & -> & Hin)%list_elem_of_fmap. apply (Hc seq c bb) in Hk' as []. set_solver.
    + split.
      { assert (Hun : ∀ c, c ∈ cand_keys taken → c ≠ k).
        { intros c ([[seq c'] bb] & -> & Hin)%list_elem_of_fmap Heq. simpl in Heq. subst c'.
          by destruct (Hc seq k bb) as []; [set_solver |]. }
        exists taken. split_and!; [done | |]; simpl.
        - intros c Hin. rewrite lookup_insert_ne by (symmetry; by apply Hun). apply Hgone; auto.
        - intros c Hcp Hin. rewrite lookup_insert_ne by (by intros ->). by apply F. }
      right. rewrite lookup_insert_eq, read_value_record by done. split_and!; [done | done | by right].
Qed.

Lemma store_entry_ok protected mr mb k payload b :
  k ∈ protected → mr <= CHANGE_CARD_CACHE_ROWS → mb <= CHANGE_CARD_CACHE_BYTES →
  batch_ok protected mr mb b → next (b_state b) < u64_max →
  ∃ b', store_entry mr mb b (k, payload) = Ok b' ∧ batch_ok protected mr mb b' ∧
        entry_effect protected k payload b b'.
Proof.
  intros Hk Hmr Hmb Hb Hn. unfold store_entry.
  assert (Hskip : batch_ok protected mr mb (skip b) ∧ entry_effect protected k payload b (skip b))
    by (split; [by apply batch_ok_skip | apply entry_effect_skip]).
  destruct (CHANGE_CARD_CACHE_RECORD_BYTES <? slen payload) eqn:Hl; [by eexists |]. apply N.ltb_ge in Hl.
  destruct (b_rows b !! k) as [raw|] eqn:Hraw; [| by eapply admit_entry_ok].
  destruct (sequence raw) as [seq|] eqn:Hs; [| by eexists].
  destruct (ledger_rows _ _ _ (batch_ledger _ _ _ _ Hb) _ _ Hraw) as (q & Hq & Hoq & _).
  rewrite Hs in Hq. injection Hq as <-. rewrite bool_decide_true by done. simpl.
  destruct ((16 <=? slen raw) && _) eqn:He.
  - eexists. split; [done |]. split; [by apply batch_ok_keep |]. split; [simpl; lia |].
    split; [done |]. split; [by apply fifo_refl |]. right. simpl. rewrite Hraw, (read_value_kept _ _ _ Hs He Hl).
    split_and!; [done | done | by left].
  - eapply admit_entry_ok; try done. simpl. eauto.
Qed.

(** The effect of a whole batch on the rows of its own keys. *)
Lemma store_entries_ok protected mr mb entries b :
  (∀ k, k ∈ entries.*1 → k ∈ protected) → NoDup entries.*1 →
  mr <= CHANGE_CARD_CACHE_ROWS → mb <= CHANGE_CARD_CACHE_BYTES →
  batch_ok protected mr mb b → next (b_state b) + N.of_nat (length entries) <= u64_max →
  ∃ b', store_entries mr mb entries b = Ok b' ∧ batch_ok protected mr mb b' ∧
    (∀ k, k ∈ protected → k ∉ entries.*1 → b_rows b' !! k = b_rows b !! k) ∧
    stored (b_write b) <= stored (b_write b') ∧ skipped (b_write b) <= skipped (b_write b') ∧
    (stored (b_write b') = stored (b_write b) → b_rows b' = b_rows b) ∧
    fifo protected b b' ∧
    (skipped (b_write b') = skipped (b_write b) →
     ∀ k payload, (k, payload) ∈ entries → read_value (b_rows b' !! k) = Some payload).
Proof.
  intros Hp Hnd Hmr Hmb. revert b. induction entries as [|[k payload] entries IH]; intros b Hb Hn.
  { exists b. split_and!; done || lia || (by apply fifo_refl) || set_solver. }
  cbn [store_entries]. cbn [length] in Hn. rewrite fmap_cons in Hnd, Hp.
  apply NoDup_cons in Hnd as [Hk Hnd]. simpl in Hk.
  destruct (store_entry_ok protected mr mb k payload b) as (b1 & -> & Hb1 & Hn1 & Hother & Hfifo & Heff);
    [apply Hp; set_solver | done | done | done | lia |].
  destruct (IH (λ k Hk, Hp k (list_elem_of_further _ _ _ Hk)) Hnd b1 Hb1 ltac:(lia))
    as (b' & H' & Hb' & Hrest & Hst & Hsk & Hrows & Hf' & Hread).
  exists b'. split; [done |]. split; [done |]. split_and!.
  - intros k' Hk' Hne. rewrite fmap_cons in Hne. apply not_elem_of_cons in Hne as [Hne1 Hne2]. simpl in Hne1.
    rewrite Hrest, Hother by done. done.
  - lia.
  - lia.
  - intros Heq. destruct Heff as [(H1 & H2 & H3)|(_ & _ & [[H1 H2]|H1])]; [| | lia].
    + rewrite Hrows by lia. done.
    + rewrite Hrows by lia. done.
  - eapply fifo_trans; [| done | done]. intros c ([[seq c'] bb] & -> & Hin)%list_elem_of_fmap.
    by destruct (proj2 (batch_left _ _ _ _ Hb) _ _ _ Hin) as [? _].
  - intros Heq k' payload'. destruct Heff as [(_ & _ & H3)|(H1 & Hr & _)]; [lia |].
    rewrite elem_of_cons. intros [[= -> ->]|Hin]; [| apply Hread; [lia | done]].
    rewrite Hrest; [done | apply Hp; set_solver | done].
Qed.

(** ** A transaction *)

Lemma candidate_of_key protected (rs : Table string bytes) row c :
  candidate_of protected rs row = Some c → c.1 = row.
Proof. destruct row. unfold candidate_of. repeat case_match; by intros [= <-]. Qed.

Lemma candidates_init protected (t : CardTables) st :
  ledger (rows t) (order t) st → candidates_ok protected (rows t) (candidates protected t).
Proof.
  intros [_ _ _ Hr Hk _]. unfold candidates. set (l := take MAX_EVICTIONS _).
  assert (Hin : ∀ row, row ∈ l → order t !! row.1 = Some row.2).
  { intros [seq k] Hrow. apply elem_of_take in Hrow as (i & Hi & _).
    apply list_elem_of_lookup_2 in Hi. rewrite stable_sort_perm in Hi.
    by apply elem_of_map_to_list in Hi. }
  assert (Hnd : NoDup l.*1).
  { unfold l. rewrite fmap_take. eapply sublist_NoDup, sublist_take. rewrite stable_sort_perm.
    apply NoDup_fst_map_to_list. }
  clearbody l. split.
  - pose proof (candidate_of_key protected (rows t)) as Hf.
    generalize dependent (candidate_of protected (rows t)). intros f Hf.
    induction l as [|[seq k] l IH]; [constructor |]. simpl in Hnd. apply NoDup_cons in Hnd as [Hn Hnd].
    assert (Hin' : ∀ row, row ∈ l → order t !! row.1 = Some row.2) by (intros; apply Hin; set_solver).
    simpl. destruct (f (seq, k)) as [c|] eqn:Hco; [| by apply IH].
    simpl. apply NoDup_cons. split; [| by apply IH]. intros Hc. apply Hn.
    apply list_elem_of_fmap in Hc as (c2 & Hk2 & Hc).
    apply list_elem_of_omap in Hc as ([seq3 k3] & Hc & He).
    apply Hf in He. apply Hf in Hco. rewrite Hco, He in Hk2. simpl in Hk2. subst k3.
    apply list_elem_of_fmap. exists (seq3, k). split; [simpl | done].
    pose proof (Hin (seq, k) ltac:(set_solver)) as H1. pose proof (Hin' (seq3, k) Hc) as H2. simpl in *.
    apply Hk in H1 as (v1 & Hv1 & Hs1). apply Hk in H2 as (v2 & Hv2 & Hs2). congruence.
  - intros seq k b Hc. apply list_elem_of_omap in Hc as ([seq' k'] & Hc & He).
    unfold candidate_of in He. repeat case_match; simplify_eq.
    repeat match goal with E : bool_decide _ = true |- _ => apply bool_decide_eq_true in E
      | E : bool_decide _ = false |- _ => apply bool_decide_eq_false in E end.
    split; [done |]. intros v Hv. split; congruence.
Qed.

Lemma load_state_ok (t : CardTables) st :
  accounting t = Some (state_encode st) → ledger (rows t) (order t) st → state_bounded st →
  load_state t = Ok st.
Proof.
  intros Ha [Hc Ho _ _ _ Hn] Hb. unfold load_state. rewrite Ha.
  apply result_bind_Ok. exists st. split; [by apply state_round_trip |].
  apply result_bind_Ok. exists tt. split; [| done]. apply ensure_Ok.
  rewrite Ho, Hc. by rewrite !N.eqb_refl.
Qed.

Lemma empty_ledger : ledger (rows no_tables) (order no_tables) state_default.
Proof.
  split; simpl; try done.
  - by rewrite map_size_empty.
  - by rewrite !map_size_empty.
  - unfold rows_bytes. by rewrite map_fold_empty.
  - intros k v. by rewrite lookup_empty.
  - intros seq k. by rewrite lookup_empty.
Qed.

(** The state of any cache that meets the invariant. *)
Lemma load_state_inv (c : Cards) :
  cards_inv c → ∃ st, load_state (default no_tables c) = Ok st ∧
    ledger (rows (default no_tables c)) (order (default no_tables c)) st ∧ state_bounded st.
Proof.
  destruct c as [t|]; simpl.
  - intros (st & Ha & Hl & Hb). exists st. split; [by apply load_state_ok | done].
  - intros _. exists state_default. split; [| split; [apply empty_ledger |]].
    + unfold load_state. simpl. by rewrite !map_size_empty.
    + by split.
Qed.

End cards.
