(* ===== verification/CardsSpec.v ===== *)
(** What the change-card cache promises ([Cards.v]): exact accounting within
    the limits after every write, batches that read back, and first-in
    first-out eviction. *)
From S2P Require Import Prelude Text Store Records Concrete Cards.

Open Scope N_scope.

(** * Definitions *)

(** A batch the entry points accept: at most 256 well-formed distinct keys. *)
Definition valid_batch (entries : list (string * bytes)) : Prop :=
  (length entries <= CHANGE_CARD_CACHE_BATCH)%nat ∧ forallb (λ e, valid_key e.1) entries = true ∧
  NoDup entries.*1.

(** The cache over [gmap] tables. *)
Definition concrete_cards : CardsEnv := {| cards_rows := gmap_redb; cards_order := gmap_redb |}.

Section spec.
Context `{CE : !CardsEnv}.

Definition cards_tables (c : Cards) : CardTables := default no_tables c.

(** The last sequence of a cache, zero before the first write. *)
Definition last_sequence (c : Cards) : N :=
  match load_state (cards_tables c) with Ok st => next st | Fail _ => 0 end.

(** ** Helper lemmas *)

Lemma dups_length (l : list string) : NoDup l → length (remove_dups l) = length l.
Proof.
  intros Hl. apply Permutation_length, NoDup_Permutation; [apply NoDup_remove_dups | done |].
  intros x. apply elem_of_remove_dups.
Qed.

Lemma omap_app_inv {A B} (f : A → option B) l k1 k2 :
  omap f l = k1 ++ k2 → ∃ l1 l2, l = l1 ++ l2 ∧ k1 = omap f l1 ∧ k2 = omap f l2.
Proof.
  revert k1. induction l as [|a l IH]; intros k1 H.
  - symmetry in H. apply app_eq_nil in H as [-> ->]. by exists [], [].
  - cbn in H. destruct (f a) as [b|] eqn:Ha.
    + destruct k1 as [|b' k1]; simpl in H.
      { exists [], (a :: l). split_and!; [done | done |]. cbn. by rewrite Ha. }
      injection H as <- H. destruct (IH k1 H) as (l1 & l2 & -> & -> & ->).
      exists (a :: l1), l2. split_and!; [done | | done]. cbn. by rewrite Ha.
    + destruct (IH k1 H) as (l1 & l2 & -> & -> & ->).
      exists (a :: l1), l2. split_and!; [done | | done]. cbn. by rewrite Ha.
Qed.

Lemma candidate_of_seq protected (rs : Table string bytes) row c :
  candidate_of protected rs row = Some c → ∃ v, rs !! row.2 = Some v ∧ sequence v = Some row.1.
Proof.
  destruct row as [seq k]. unfold candidate_of. repeat case_match; try done. intros _.
  eexists. split; [done |]. by eapply bool_decide_eq_true.
Qed.

Lemma order_total : Total order_le.
Proof. intros [a ?] [b ?]. unfold order_le. simpl. lia. Qed.
Lemma order_trans : Transitive order_le.
Proof. intros [a ?] [b ?] [c ?]. unfold order_le. simpl. lia. Qed.

Lemma forallb_fmap_fst (f : string → bool) (entries : list (string * bytes)) :
  forallb f entries.*1 = forallb (λ e, f e.1) entries.
Proof. induction entries as [|e entries IH]; [done |]. cbn. f_equal. apply IH. Qed.

(** A row of a sorted list that has a larger row in a prefix is in the prefix. *)
Lemma sorted_prefix (l1 l2 : list (N * string)) x y :
  StronglySorted order_le (l1 ++ l2) → y ∈ l1 → x ∈ l1 ++ l2 → x.1 < y.1 → x ∈ l1.
Proof.
  intros Hs Hy [Hx|Hx]%elem_of_app Hlt; [done |]. exfalso.
  assert (Hle : order_le y x); [| unfold order_le in Hle; lia].
  induction l1 as [|z l1 IH]; [set_solver |]. simpl in Hs. apply StronglySorted_inv in Hs as [Hs Hall].
  apply elem_of_cons in Hy as [->|Hy]; [| by apply IH].
  rewrite Forall_forall in Hall. apply Hall. set_solver.
Qed.

(** An older unprotected row comes before a candidate in any prefix. *)
Lemma candidates_prefix protected (t : CardTables) st taken rest k1 v1 seq1 k2 v2 seq2 :
  ledger (rows t) (order t) st → candidates protected t = taken ++ rest →
  rows t !! k1 = Some v1 → sequence v1 = Some seq1 → k1 ∉ protected →
  rows t !! k2 = Some v2 → sequence v2 = Some seq2 →
  seq1 < seq2 → k2 ∈ cand_keys taken → k1 ∈ cand_keys taken.
Proof.
  intros [_ _ _ Hr Hk _] Hc Hk1 Hs1 Hp1 Hk2 Hs2 Hlt Hin.
  unfold candidates in Hc. set (l := stable_sort order_le (map_to_list (order t))) in Hc.
  assert (Hsort : StronglySorted order_le l)
    by (apply stable_sort_sorted; [apply order_trans | apply order_total]).
  assert (Hmem : ∀ k v seq, rows t !! k = Some v → sequence v = Some seq → (seq, k) ∈ l).
  { intros k v seq Hv Hsv. unfold l. rewrite stable_sort_perm. apply elem_of_map_to_list.
    destruct (Hr _ _ Hv) as (q & Hq & Hoq & _). congruence. }
  pose proof (Hmem _ _ _ Hk1 Hs1) as Hm1. rewrite <-(take_drop MAX_EVICTIONS l) in Hsort, Hm1.
  set (l1 := take MAX_EVICTIONS l) in *. set (l2 := drop MAX_EVICTIONS l) in *. clearbody l1 l2.
  apply omap_app_inv in Hc as (la & lb & -> & Hta & Htb).
  assert (H2 : (seq2, k2) ∈ la).
  { apply list_elem_of_fmap in Hin as (c & -> & Hin). subst taken.
    apply list_elem_of_omap in Hin as (row & Hrow & Hc). pose proof (candidate_of_seq _ _ _ _ Hc) as (v & Hv & Hsv).
    apply candidate_of_key in Hc as <-. destruct c as [[q k] bb]. simpl in *. congruence. }
  assert (H1 : (seq1, k1) ∈ la).
  { rewrite <-app_assoc in Hsort, Hm1. by eapply (sorted_prefix la (lb ++ l2)). }
  apply list_elem_of_fmap. exists (seq1, k1, charge k1 (slen v1)). split; [done |]. subst taken.
  apply list_elem_of_omap. exists (seq1, k1). split; [done |]. unfold candidate_of.
  by rewrite bool_decide_false, Hk1, bool_decide_true.
Qed.

(** What a run over a non-empty valid batch is made of. *)
Lemma store_run (c : Cards) entries mr mb :
  cards_inv c → valid_batch entries → entries ≠ [] →
  mr <= CHANGE_CARD_CACHE_ROWS → mb <= CHANGE_CARD_CACHE_BYTES →
  last_sequence c + N.of_nat (length entries) <= u64_max →
  let t := cards_tables c in
  ∃ st b c',
    let b0 := {| b_rows := rows t; b_order := order t; b_state := st;
                 b_left := candidates entries.*1 t; b_write := no_write |} in
    ledger (rows t) (order t) st ∧ state_bounded st ∧
    store_cards_with_limits entries mr mb c = (c', Ok (finish b)) ∧
    store_entries mr mb entries b0 = Ok b ∧ batch_ok entries.*1 mr mb b ∧
    rows (cards_tables c') = b_rows b ∧ cards_inv c' ∧
    (c' = None → b_rows b = ∅) ∧
    fifo entries.*1 b0 b ∧
    (stored (b_write b) = 0 → b_rows b = rows t) ∧
    (skipped (b_write b) = 0 →
     ∀ k payload, (k, payload) ∈ entries → read_value (b_rows b !! k) = Some payload).
Proof.
  intros Hinv (Hlen & Hkeys & Hnd) Hne Hmr Hmb Hnext t.
  destruct (load_state_inv c Hinv) as (st & Hload & Hl & Hb). fold (cards_tables c) in *. fold t in Hload, Hl.
  unfold last_sequence in Hnext. fold t in Hnext. rewrite Hload in Hnext.
  set (b0 := {| b_rows := rows t; b_order := order t; b_state := st;
                b_left := candidates entries.*1 t; b_write := no_write |}).
  destruct (store_entries_ok entries.*1 mr mb entries b0) as
    (b & Hrun & Hok & _ & _ & _ & Hrows & Hfifo & Hread); try done.
  { split; [done | done | by eapply candidates_init | done]. }
  exists st, b. unfold store_cards_with_limits.
  rewrite (proj2 (Nat.leb_le _ _) Hlen), Hkeys, (dups_length _ Hnd), length_fmap, Nat.eqb_refl.
  fold (cards_tables c). fold t. rewrite Hload. destruct entries as [|e entries]; [done |].
  cbn [ensure andb]. unfold mbind, result_bind. fold b0. rewrite Hrun.
  destruct (negb (stored (b_write b) =? 0) || negb (evicted (b_write b) =? 0)) eqn:Hc.
  - eexists. split_and!; try done. simpl. exists (b_state b). by destruct Hok.
  - apply orb_false_iff in Hc as [Hc _]. apply negb_false_iff, N.eqb_eq in Hc.
    assert (Hsame : b_rows b = rows t) by (by apply Hrows).
    exists c. split_and!; try done. intros ->. by rewrite Hsame.
Qed.

(** ** Records of another format *)

Lemma evict_other k taken (rs : Table string bytes) os n rs' os' n' k' :
  k' ∉ cand_keys taken → evict k taken rs os n = (rs', os', n') → rs' !! k' = rs !! k'.
Proof.
  revert rs os n. induction taken as [|[[seq c] b] taken IH]; intros rs os n Hk He; simpl in He.
  { by injection He as <- <- <-. }
  cbn in Hk. apply not_elem_of_cons in Hk as [Hne Hk]. simpl in Hne.
  case_match; apply IH in He as ->; try done. by rewrite lookup_delete_ne.
Qed.

Lemma admit_entry_other mr mb k payload prior b b' k' :
  k' ≠ k → k' ∉ cand_keys (b_left b) → admit_entry mr mb k payload prior b = Ok b' →
  b_rows b' !! k' = b_rows b !! k' ∧ k' ∉ cand_keys (b_left b').
Proof.
  intros Hne Hk H. unfold admit_entry in H. apply result_bind_Ok in H as (base & _ & H).
  apply result_bind_Ok in H as ([[[n m] taken] remaining] & Hp & H).
  apply project_evictions_spec in Hp as (Hl & _). rewrite Hl in Hk. unfold cand_keys in *.
  rewrite fmap_app in Hk. apply not_elem_of_app in Hk as [Hk1 Hk2].
  destruct ((mr <? n) || (mb <? m)).
  { injection H as <-. simpl. split; [done |]. rewrite Hl, fmap_app. by apply not_elem_of_app. }
  destruct (evict k taken (b_rows b) (b_order b) (evicted (b_write b))) as [[rs os] ev] eqn:E.
  apply result_bind_Ok in H as (alloc & _ & H). injection H as <-. simpl. split; [| done].
  rewrite lookup_insert_ne by done. exact (evict_other _ _ _ _ _ _ _ _ _ Hk1 E).
Qed.

Lemma store_entries_unknown mr mb entries b b' k v :
  sequence v = None → b_rows b !! k = Some v → k ∉ cand_keys (b_left b) →
  store_entries mr mb entries b = Ok b' → b_rows b' !! k = Some v.
Proof.
  intros Hv. revert b. induction entries as [|[k0 payload] entries IH]; intros b Hk Hl H.
  { by injection H as <-. }
  apply result_bind_Ok in H as (b1 & H1 & H).
  assert (b_rows b1 !! k = Some v ∧ k ∉ cand_keys (b_left b1)) as []; [| by apply (IH b1)].
  clear H. unfold store_entry in H1. case_match; [by injection H1 as <- |].
  destruct (decide (k0 = k)) as [->|Hne].
  - rewrite Hk, Hv in H1. by injection H1 as <-.
  - assert (k ≠ k0) by congruence. rewrite <-Hk. destruct (b_rows b !! k0) as [raw|]; [| by eapply admit_entry_other].
    case_match; [| by injection H1 as <-]. apply result_bind_Ok in H1 as (_ & _ & H1).
    case_match; [by injection H1 as <- | by eapply admit_entry_other].
Qed.

(** ** The promises *)

(** Every accepted batch is written without an error, and afterwards the
    accounting row is exact: it decodes to the number of rows and to their
    total charge, the insertion order names every row once, and the report
    returns these totals. A batch that stored something leaves the cache
    within the limits of the call. *)
Theorem store_keeps_accounting (c : Cards) entries mr mb :
  cards_inv c → valid_batch entries →
  mr <= CHANGE_CARD_CACHE_ROWS → mb <= CHANGE_CARD_CACHE_BYTES →
  last_sequence c + N.of_nat (length entries) <= u64_max →
  ∃ c' w, store_cards_with_limits entries mr mb c = (c', Ok w) ∧ cards_inv c' ∧
    (entries ≠ [] → row_count w = N.of_nat (size (rows (cards_tables c'))) ∧
                    charged_bytes w = rows_bytes (rows (cards_tables c'))) ∧
    (stored w ≠ 0 → row_count w <= mr ∧ charged_bytes w <= mb).
Proof.
  intros Hinv Hv Hmr Hmb Hn. destruct (decide (entries = [])) as [->|Hne].
  { exists c, no_write. by split_and!. }
  destruct (store_run c entries mr mb Hinv Hv Hne Hmr Hmb Hn)
    as (st & b & c' & _ & _ & Hst & _ & [[Hc _ Hby _ _ _] _ _ Hlim] & Hrows & Hinv' & _).
  exists c', (finish b). rewrite Hrows. simpl. by split_and!.
Qed.

(** A batch of which nothing was skipped reads back: looking its keys up
    in the resulting cache returns exactly the stored payloads. *)
Theorem stored_cards_read_back (c c' : Cards) entries mr mb w :
  cards_inv c → valid_batch entries →
  mr <= CHANGE_CARD_CACHE_ROWS → mb <= CHANGE_CARD_CACHE_BYTES →
  last_sequence c + N.of_nat (length entries) <= u64_max →
  store_cards_with_limits entries mr mb c = (c', Ok w) → skipped w = 0 →
  read_change_card_metadata entries.*1 c' = Ok (Some <$> entries.*2).
Proof.
  intros Hinv Hv Hmr Hmb Hn Hs Hw. destruct (decide (entries = [])) as [->|Hne].
  { injection Hs as <- <-. destruct c as [t|]; [| done]. destruct Hinv as (st & Ha & [Hc _ _ _ _ Hle] & Hb).
    unfold read_change_card_metadata. simpl. rewrite Ha. cbn. rewrite state_round_trip by done.
    cbn. by rewrite Hc, N.eqb_refl. }
  destruct (store_run c entries mr mb Hinv Hv Hne Hmr Hmb Hn)
    as (st & b & c1 & _ & _ & Hst & _ & _ & Hrows & Hinv' & Hnone & _ & _ & Hread).
  rewrite Hs in Hst. injection Hst as <- ->. specialize (Hread Hw). destruct Hv as (Hlen & Hkeys & _).
  unfold read_change_card_metadata. rewrite length_fmap, (proj2 (Nat.leb_le _ _) Hlen).
  rewrite forallb_fmap_fst, Hkeys. destruct c' as [t|].
  - destruct Hinv' as (st' & Ha & [Hc _ _ _ _ Hle] & Hb). simpl in Hrows.
    unfold mbind, result_bind. rewrite Ha. cbn [ensure andb ok_or].
    rewrite state_round_trip by done. rewrite Hc, N.eqb_refl. cbn [ensure]. f_equal.
    rewrite <-!list_fmap_compose. apply list_fmap_ext. intros i [k payload] Hi. simpl.
    rewrite Hrows. apply Hread. by eapply list_elem_of_lookup_2.
  - destruct entries as [|[k payload] entries]; [done |].
    specialize (Hread k payload ltac:(set_solver)). by rewrite Hnone, lookup_empty in Hread.
Qed.

(** Eviction is first in, first out: when a batch evicts a row outside of
    the batch, every older row outside of the batch is evicted too. *)
Theorem eviction_is_oldest_first (c c' : Cards) entries mr mb w k1 k2 v1 v2 seq1 seq2 :
  cards_inv c → valid_batch entries →
  mr <= CHANGE_CARD_CACHE_ROWS → mb <= CHANGE_CARD_CACHE_BYTES →
  last_sequence c + N.of_nat (length entries) <= u64_max →
  store_cards_with_limits entries mr mb c = (c', Ok w) →
  rows (cards_tables c) !! k1 = Some v1 → sequence v1 = Some seq1 → k1 ∉ entries.*1 →
  rows (cards_tables c) !! k2 = Some v2 → sequence v2 = Some seq2 → k2 ∉ entries.*1 →
  seq1 < seq2 → rows (cards_tables c') !! k2 = None → rows (cards_tables c') !! k1 = None.
Proof.
  intros Hinv Hv Hmr Hmb Hn Hs Hk1 Hs1 Hp1 Hk2 Hs2 Hp2 Hlt Hgone.
  destruct (decide (entries = [])) as [->|Hne].
  { injection Hs as <- <-. congruence. }
  destruct (store_run c entries mr mb Hinv Hv Hne Hmr Hmb Hn)
    as (st & b & c1 & Hl & _ & Hst & _ & _ & Hrows & _ & _ & (taken & Ht & Hevicted & Hkept) & _).
  rewrite Hs in Hst. injection Hst as <- _. rewrite Hrows in *. simpl in *.
  apply Hevicted. destruct (decide (k2 ∈ cand_keys taken)) as [Hin|Hnin];
    [| rewrite Hkept in Hgone by done; congruence].
  eapply candidates_prefix; [exact Hl | exact Ht | exact Hk1 | done | done | exact Hk2 | done | done | done].
Qed.

(** A record whose format the cache does not know is neither replaced nor
    evicted by any successful write, whatever the rest of the cache holds. *)
Theorem unknown_record_survives (c c' : Cards) entries mr mb w k v :
  store_cards_with_limits entries mr mb c = (c', Ok w) →
  rows (cards_tables c) !! k = Some v → sequence v = None →
  rows (cards_tables c') !! k = Some v.
Proof.
  intros Hs Hk Hv. unfold store_cards_with_limits in Hs.
  match type of Hs with (match ?r with _ => _ end) = _ => destruct r as [[c1 w1]|] eqn:H; [| done] end.
  injection Hs as -> ->. apply result_bind_Ok in H as (_ & _ & H). apply result_bind_Ok in H as (_ & _ & H).
  destruct entries as [|e entries]; [by injection H as <- _ |].
  apply result_bind_Ok in H as (st & _ & H). apply result_bind_Ok in H as (b & Hb & H).
  apply (store_entries_unknown _ _ _ _ _ k v) in Hb; [| done | done |].
  - case_match; injection H as <- _; done.
  - simpl. intros ([[q k'] n] & -> & Hin)%list_elem_of_fmap.
    apply list_elem_of_omap in Hin as (row & _ & Hc). destruct (candidate_of_seq _ _ _ _ Hc) as (v' & Hv' & Hs').
    apply candidate_of_key in Hc as <-. simpl in *. fold (cards_tables c) in Hv'. congruence.
Qed.

End spec.

(** * Witnesses *)

#[local] Existing Instance concrete_cards.

Fixpoint repeat_text (n : nat) (s : string) : string :=
  match n with O => "" | S n' => s +:+ repeat_text n' s end.
(** A key of the cache, told apart by one hexadecimal digit. *)
Definition demo_key (digit : string) : string :=
  repeat_text 64 "a" +:+ "/" +:+ repeat_text 39 "b" +:+ digit.

Definition demo_first : list (string * bytes) := [(demo_key "1", "one"); (demo_key "2", "two")].
Definition demo_cards : Cards := (store_cards_with_limits demo_first 3 4096 None).1.
Definition demo_more : list (string * bytes) := [(demo_key "3", "three"); (demo_key "4", "four")].

Lemma result_pair {A B} (r : A * B) b : r.2 = b → r = (r.1, b).
Proof. destruct r. simpl. by intros ->. Qed.

Lemma demo_valid entries :
  (length entries <=? CHANGE_CARD_CACHE_BATCH)%nat && forallb (λ e, valid_key e.1) entries
    && bool_decide (NoDup entries.*1) = true → valid_batch entries.
Proof.
  intros [[H1 H2]%andb_true_iff H3]%andb_true_iff.
  split; [by apply Nat.leb_le |]. split; [done |]. by eapply bool_decide_eq_true.
Qed.

Lemma demo_cards_inv : cards_inv demo_cards.
Proof.
  destruct (store_run None demo_first 3 4096) as (st & b & c' & _ & _ & Hs & _ & _ & _ & Hinv & _).
  - done.
  - by apply demo_valid.
  - done.
  - done.
  - done.
  - done.
  - unfold demo_cards. by rewrite Hs.
Qed.

Lemma store_keeps_accounting_witness :
  ∃ c' w, store_cards_with_limits demo_more 2 4096 demo_cards = (c', Ok w) ∧ cards_inv c' ∧
    (demo_more ≠ [] → row_count w = N.of_nat (size (rows (cards_tables c'))) ∧
                      charged_bytes w = rows_bytes (rows (cards_tables c'))) ∧
    (stored w ≠ 0 → row_count w <= 2 ∧ charged_bytes w <= 4096).
Proof.
  apply (store_keeps_accounting demo_cards demo_more 2 4096).
  - exact demo_cards_inv.
  - by apply demo_valid.
  - evaluates.
  - evaluates.
  - evaluates.
Defined.

Definition demo_report : CardWrite :=
  {| stored := 2; unchanged := 0; skipped := 0; evicted := 2; charged_bytes := 477; row_count := 2 |}.

Lemma stored_cards_read_back_witness :
  let c' := (store_cards_with_limits demo_more 2 4096 demo_cards).1 in
  read_change_card_metadata demo_more.*1 c' = Ok (Some <$> demo_more.*2).
Proof.
  intros c'. apply (stored_cards_read_back demo_cards c' demo_more 2 4096 demo_report).
  - exact demo_cards_inv.
  - by apply demo_valid.
  - evaluates.
  - evaluates.
  - evaluates.
  - refine (result_pair (store_cards_with_limits demo_more 2 4096 demo_cards) (Ok demo_report) _).
    evaluates.
  - evaluates.
Defined.

Lemma eviction_is_oldest_first_witness :
  let c' := (store_cards_with_limits demo_more 2 4096 demo_cards).1 in
  rows (cards_tables c') !! demo_key "1" = None.
Proof.
  intros c'. apply (eviction_is_oldest_first demo_cards c' demo_more 2 4096 demo_report
    (demo_key "1") (demo_key "2") (record_bytes 1 "one") (record_bytes 2 "two") 1 2).
  - exact demo_cards_inv.
  - by apply demo_valid.
  - evaluates.
  - evaluates.
  - evaluates.
  - refine (result_pair (store_cards_with_limits demo_more 2 4096 demo_cards) (Ok demo_report) _).
    evaluates.
  - evaluates.
  - evaluates.
  - apply (bool_decide_eq_false_1 (_ ∈ _)). evaluates.
  - evaluates.
  - evaluates.
  - apply (bool_decide_eq_false_1 (_ ∈ _)). evaluates.
  - evaluates.
  - evaluates.
Defined.

(** A cache that holds a record of a later format. *)
Definition demo_foreign : Cards :=
  Some {| rows := <[demo_key "9" := "EGCX later format"]> ∅; order := <[1 := demo_key "9"]> ∅;
          accounting := Some (state_encode {| next := 1; count := 1; card_bytes := 300 |}) |}.

Lemma unknown_record_survives_witness :
  let entries := (demo_key "9", "mine") :: demo_more in
  let c' := (store_cards_with_limits entries 3 4096 demo_foreign).1 in
  rows (cards_tables c') !! demo_key "9" = Some "EGCX later format".
Proof.
  intros entries c'. apply (unknown_record_survives demo_foreign c' entries 3 4096
    {| stored := 2; unchanged := 0; skipped := 1; evicted := 0; charged_bytes := 777; row_count := 3 |}
    (demo_key "9") "EGCX later format").
  - refine (result_pair (store_cards_with_limits entries 3 4096 demo_foreign) (Ok _) _). evaluates.
  - evaluates.
  - evaluates.
Defined.
