(* ===== verification/Witnesses.v ===== *)
(** The registry's theorems at concrete inputs: a small history of operations
    on the database over [gmap] reaches states where the hypotheses of each
    theorem hold, and the theorem is applied there. *)
From S2P Require Import Prelude Text Store Records Concrete Reindex SourceHead Registry.
From S2P Require Import Rules ConcreteRules Revisions Lifecycle Machine HeadSpec ReindexSpec.
From S2P Require Import RegistrySpec.

Open Scope N_scope.

#[local] Existing Instance concrete_rules.

(** * Definitions *)

(** Run a list of operations. *)
Definition run_all (ops : list Op) (db : DB) : DB := foldl (λ d o, run o d) db ops.

Definition disciplined_bool (o : Op) : bool :=
  let ok k := bool_decide (k ∉ revision_suffixes) in
  match o with
  | RegisterSourceProject rec => bool_decide (reindex_required_since_ms rec = None)
  | SetMeta _ k _ | CompareExchangeMeta _ k _ _ | SetGlobalFlag k _
  | PublishRules _ _ _ _ k _ _ => ok k
  | CompareExchangeCompanion _ k _ _ ck _ => ok k && ok ck
  | _ => true
  end.

Lemma disciplined_bool_ok o : disciplined_bool o = true → disciplined o.
Proof.
  destruct o; simpl; try done; rewrite ?andb_true_iff, ?bool_decide_eq_true; done.
Qed.

Lemma run_all_steps ops (db : DB) : forallb disciplined_bool ops = true → rtc step db (run_all ops db).
Proof.
  revert db. induction ops as [|o ops IH]; intros db H; [constructor |]. simpl in *.
  apply andb_true_iff in H as [Ho H]. eapply rtc_l; [| by apply IH].
  constructor. by apply disciplined_bool_ok.
Qed.

(** The result of a call, beside the database it leaves. *)
Lemma result_of {A B} (r : A * B) b : r.2 = b → r = (r.1, b).
Proof. destruct r. simpl. by intros ->. Qed.

Definition demo_project : ProjectRecord :=
  {| project_id := "p"; project_name := "demo"; project_type := "rust"; directory := "/d";
     created_at_ms := 1; updated_at_ms := 1; reindex_required_since_ms := None |}.
Definition other_project : ProjectRecord :=
  {| project_id := "q"; project_name := "other"; project_type := "rust"; directory := "/e";
     created_at_ms := 2; updated_at_ms := 2; reindex_required_since_ms := None |}.

(** A registered project with its head captured. *)
Definition ops_captured : list Op :=
  [RegisterSourceProject demo_project; RegisterSourceProject other_project; CaptureHead "p"].
Definition db_captured : DB := run_all ops_captured ∅.

Definition head_of (db : DB) : SourceHeadToken :=
  match (capture_source_head "p" db).2 with
  | Ok tk => tk
  | Fail _ => {| ht_project_id := "p"; ht_raw_head := None; ht_managed := None; ht_generation := 0;
                 ht_revision := 0; ht_identity_epoch := 0; ht_directory := ""; ht_project_type := "" |}
  end.
Definition demo_token : SourceHeadToken := head_of db_captured.

Lemma db_captured_reachable : reachable db_captured.
Proof. by apply run_all_steps. Qed.

(** ** Tokens *)


Definition demo_requirement : ReindexRequirementToken :=
  {| tok_project_id := "p"; tok_reason := Vector; tok_revision := 5 |}.
Definition db_required : DB := run_all [RecordReindex "p" Vector 40 false] db_captured.

Lemma db_required_reachable : reachable db_required.
Proof. by apply (run_all_steps (ops_captured ++ [RecordReindex "p" Vector 40 false])). Qed.

Lemma stale_reindex_token_never_settles_witness :
  let ops1 := [DismissReindex "p"] in
  let ops2 := [RecordReindex "p" Vector 50 false] in
  let db2 := run_all ops2 (run_all ops1 db_required) in
  (settle_reindex_requirement demo_requirement db2).1 = db2 ∧
  (settle_reindex_requirement demo_requirement db2).2 ≠ Ok true.
Proof.
  intros ops1 ops2 db2.
  apply (stale_reindex_token_never_settles db_required (run_all ops1 db_required)).
  - exact db_required_reachable.
  - evaluates.
  - by apply run_all_steps.
  - evaluates.
  - by apply run_all_steps.
Defined.

Lemma revisions_are_allocated_once_witness :
  ∃ n n', last_revision db_captured = Ok n ∧ last_revision db_required = Ok n' ∧ n <= n' ∧
    ∀ c v, valid_cell c → cell_value c db_required = Some v →
      (cell_value c db_captured = Some v ∧ v <= n) ∨ (n < v ∧ v <= n').
Proof.
  apply revisions_are_allocated_once; [exact db_captured_reachable |].
  exact (step_run (RecordReindex "p" Vector 40 false) db_captured I).
Defined.

(** ** Heads *)

Lemma captured_head_publishes_witness :
  let db1 := (capture_source_head "p" db_captured).1 in
  ∃ db2, publish_source_head demo_token 5 db1 = (db2, Ok true) ∧
    active_source_generation "p" db2 = Ok 5 ∧
    source_identity_needs_verification "p" db2 = Ok false ∧
    source_head_is_current demo_token db2 ≠ Ok true.
Proof.
  intros db1. apply (captured_head_publishes "p" db_captured db1 demo_token 4 5).
  - exact db_captured_reachable.
  - apply result_of. evaluates.
  - evaluates.
  - evaluates.
  - evaluates.
  - evaluates.
Defined.

Lemma publish_only_on_captured_head_witness :
  let db' := (publish_source_head demo_token 5 db_captured).1 in
  head_matches demo_token db_captured ∧ ht_generation demo_token < 5 ∧
  active_source_generation "p" db' = Ok 5 ∧ ¬ head_matches demo_token db'.
Proof.
  intros db'. apply (publish_only_on_captured_head demo_token 5 db_captured db').
  - evaluates.
  - evaluates.
  - apply result_of. evaluates.
Defined.

(** A head whose managed generation is gone, as recovery finds it. *)
Definition db_damaged : DB := delete (META, head_key "p") (publish_source_head demo_token 5 db_captured).1.
Definition damaged_token : SourceRecoveryToken :=
  match capture_source_recovery "p" db_damaged with
  | Ok tk => tk
  | Fail _ => {| rt_project_id := ""; rt_directory := ""; rt_project_type := "";
                 rt_metadata := {| rm_raw_head := None; rm_required := None; rm_verified := None;
                                   rm_legacy_attested := None; rm_managed := None;
                                   rm_revision := 0; rm_identity_epoch := 0 |} |}
  end.

Lemma reserved_recovery_publishes_witness :
  let db1 := (reserve_source_recovery damaged_token 7 db_damaged).1 in
  let r := {| rr_base := damaged_token; rr_generation := 8 |} in
  (∀ n, last_revision db_damaged = Ok n → n < rr_generation r) ∧ 7 < rr_generation r ∧
  numeric_head (rm_raw_head (rt_metadata damaged_token)) < rr_generation r ∧
  ∃ db2, publish_source_recovery r db1 = (db2, Ok true) ∧
    active_source_generation "p" db2 = Ok 8.
Proof.
  intros db1 r. apply (reserved_recovery_publishes damaged_token 7 db_damaged db1 r).
  - evaluates.
  - apply result_of. evaluates.
Defined.

(** ** Recovery requirements *)

Lemma project_shows_oldest_reason_witness :
  ∃ stored, get_decoded META (key "p") db_required = Ok stored ∧
    ∀ s, Some 40 = Some s ↔
      (∃ reason q, pending (default default_requirements stored) !! reason = Some q ∧ since_ms q = s) ∧
      ∀ reason q, pending (default default_requirements stored) !! reason = Some q → s <= since_ms q.
Proof.
  apply (project_shows_oldest_reason "p" db_required (touch (set_since demo_project (Some 40)) 40));
    [exact db_required_reachable | evaluates].
Defined.

Lemma settle_keeps_other_reasons_witness :
  let db' := (settle_reindex_requirement demo_requirement db_required).1 in
  reindex_requirement_token "p" Vector db_required = Ok (Some demo_requirement) ∧
  reindex_requirement_token "p" Vector db' = Ok None ∧
  (Source ≠ Vector →
   reindex_requirement_token "p" Source db' = reindex_requirement_token "p" Source db_required).
Proof.
  intros db'. apply (settle_keeps_other_reasons demo_requirement db_required db' Source).
  - exact db_required_reachable.
  - apply result_of. evaluates.
Defined.

Lemma recorded_requirement_settles_witness :
  let db1 := (require_reindex "p" Vector 40 db_captured).1 in
  reindex_requirement_token "p" Vector db1 = Ok (Some demo_requirement) ∧
  (∃ rec s, get_project "p" db1 = Ok (Some rec) ∧ reindex_required_since_ms rec = Some s ∧ s <= 40) ∧
  (settle_reindex_requirement demo_requirement db1).2 = Ok true.
Proof.
  intros db1. apply (recorded_requirement_settles "p" Vector 40 db_captured db1 demo_requirement).
  - exact db_captured_reachable.
  - apply result_of. evaluates.
Defined.

(** ** Deletion and metadata *)

Lemma delete_all_removes_exactly_witness :
  let db' := (delete_all_for_project "p" db_required).1 in
  let j := (META, project_key "q" IDENTITY_EPOCH) in
  (owned "p" db_required j → db' !! j = None) ∧
  (¬ owned "p" db_required j → j ≠ (META, REVISION_SEQUENCE) → db' !! j = db_required !! j).
Proof.
  intros db' j. apply (delete_all_removes_exactly "p" db_required db' j).
  - exact db_required_reachable.
  - apply result_of. evaluates.
Defined.

Lemma compare_exchange_one_winner_witness :
  (meta (project_key "p" "lease") db_captured = None →
   ∃ db', compare_exchange_meta "p" "lease" None "a" db_captured = (db', Ok true) ∧
     meta (project_key "p" "lease") db' = Some "a" ∧
     (∀ j, j ≠ (META, project_key "p" "lease") → db' !! j = db_captured !! j) ∧
     ∀ w, compare_exchange_meta "p" "lease" None w db' = (db', Ok false)) ∧
  (meta (project_key "p" "lease") db_captured ≠ None →
   compare_exchange_meta "p" "lease" None "a" db_captured = (db_captured, Ok false)).
Proof.
  apply (compare_exchange_one_winner "p" "lease" None "a" db_captured).
  - evaluates.
  - evaluates.
  - evaluates.
  - evaluates.
Defined.

Lemma bounded_inspection_is_honest_witness :
  let matching := prefix_scan (project_prefix "p" +:+ "source") (table_rows META db_captured) in
  let page := {| entries := [(REQUIRED, "1")]; inspected := 1; omitted_values := 0; has_more := true |} in
  N.of_nat (length (entries page)) + omitted_values page = inspected page ∧
  inspected page = N.min 1 (N.of_nat (length matching)) ∧
  has_more page = (1 <? N.of_nat (length matching)) ∧
  entry_bytes (entries page) <= 100 ∧
  ∀ k v, (k, v) ∈ entries page → starts_with "source" k = true ∧
    meta (project_key "p" k) db_captured = Some v.
Proof.
  intros matching page. apply (bounded_inspection_is_honest "p" "source" 1 10 100). evaluates.
Defined.
