(* ===== verification/RuleWitnesses.v ===== *)
(** The theorems on rules, ownership and adoption at concrete inputs: a
    project with a manual rule, the adoption of that rule by a source, and a
    publication of that source. *)
From S2P Require Import Prelude Text Unicode Store Records Concrete Reindex SourceHead.
From S2P Require Import Registry Rules Ownership Adoption ConcreteRules RulesSpec Revisions.
From S2P Require Import Lifecycle OwnershipSpec AdoptionSpec Machine Witnesses.

Open Scope N_scope.

#[local] Existing Instance concrete_adoption.

(** * Definitions *)

Definition of_ok {A} (d : A) (r : result A) : A := match r with Ok a => a | Fail _ => d end.

Definition legacy_rule : RepoRule :=
  {| rule_id := "r1"; file_pattern := "src/**"; rule_text := "No unwrap."; priority := 5%Z;
     rule_updated_at_ms := 42; introduced_at := None; provenance := None |}.
Definition db_rule : DB := (put_repo_rule "p" legacy_rule db_captured).1.

Definition no_snapshot : RuleOwnershipSnapshot :=
  {| os_project_id := ""; os_project_raw := ""; os_identity_epoch_raw := None; os_corpus_revision_raw := None;
     os_rules := []; os_receipts := [] |}.
Definition demo_snapshot : RuleOwnershipSnapshot := of_ok no_snapshot (snapshot_rule_ownership "p" db_rule).

(** The rule as its source states it, and the plan that hands it over. *)
Definition demo_projection : string := object_to_vec (<["id" := "R1"]> (<["source" := "docs/rules.md"]> ∅)).
Definition demo_plan : LegacyAdoptionPlan :=
  {| plan_origin := "docs/rules.md"; plan_source_blake3 := toy_hex "x"; plan_authored := true;
     plan_bindings := [{| b_rule_id := "r1";
                          b_expected_raw_blake3 := toy_hex (to_vec (Json := RepoRule_json) legacy_rule);
                          b_source_rule_id := "R1"; b_source_projection_json := demo_projection;
                          b_decision := AdoptUnverified |}] |}.
Definition no_prepared : Prepared :=
  {| p_rows := ∅; p_receipt_key := ""; p_receipt := ""; p_audit_key := ""; p_audit := "";
     p_outcome := {| out_audit_key := ""; out_plan_blake3 := ""; out_receipt_blake3 := "";
                     out_adopted_rule_ids := []; out_searchable_evidence_published := false |} |}.
Definition demo_prepared : Prepared := of_ok no_prepared (prepare demo_snapshot demo_plan "ADR-1").
Definition db_adopted : DB := (adopt_legacy_repo_rules demo_snapshot demo_plan "ADR-1" db_rule).1.

(** A source that publishes a second rule. *)
Definition source_rule : RepoRule :=
  {| rule_id := "r2"; file_pattern := "*.rs"; rule_text := "Document errors."; priority := 1%Z;
     rule_updated_at_ms := 50; introduced_at := None; provenance := Some "quality-gate source: docs/b.md" |}.
Definition source_receipt (rules : list RepoRule) : RuleSourceReceipt :=
  {| origin := "docs/b.md"; source_hash := toy_hex "b"; authored := true; receipt_pending := false;
     doc_ids := []; receipt_rules := rules; cleanup := []; corpus_revision := ""; legacy_aliases := [] |}.
Definition source_b : string := source_key "docs/b.md".
Definition db_source : DB := (set_meta "p" source_b (receipt_to_vec (source_receipt [])) db_rule).1.

(** A receipt that is not one. *)
Definition db_garbled : DB := (set_meta "p" "quality_source:bad" "{" db_rule).1.

Definition stored_receipt : RuleSourceReceipt :=
  of_ok (source_receipt []) (receipt_decode (p_receipt_key demo_prepared) (p_receipt demo_prepared)).
Definition stored_rule : RepoRule := default legacy_rule (head (receipt_rules stored_receipt)).

(** * Witnesses *)

Lemma ok_of {A} d (r : result A) : is_ok r = true → r = Ok (of_ok d r).
Proof. by destruct r. Qed.

Lemma ownership_inventory_is_complete_witness :
  (∀ s, snapshot_rule_ownership "p" db_rule = Ok s →
     within_budget s ∧
     (∀ id v, (id, v) ∈ os_rules s ↔ db_rule !! (REPO_RULES, project_key "p" id) = Some v) ∧
     (∀ o v, (RECEIPT_PREFIX +:+ o, v) ∈ os_receipts s ↔
        meta (project_key "p" (RECEIPT_PREFIX +:+ o)) db_rule = Some v) ∧
     NoDup (os_rules s).*1 ∧ NoDup (os_receipts s).*1) ∧
  (is_ok (snapshot_rule_ownership "p" db_rule) = true ↔
   ∃ raw, db_rule !! (PROJECTS, "p") = Some raw ∧ within_budget (inventory "p" raw db_rule)).
Proof. apply ownership_inventory_is_complete. evaluates. Defined.

Definition renamed_project : ProjectRecord :=
  {| project_id := "p"; project_name := "renamed"; project_type := "rust"; directory := "/d";
     created_at_ms := 7; updated_at_ms := 9; reindex_required_since_ms := None |}.
Lemma adoption_basis_ignores_display_edits_witness :
  adoption_basis_digest (of_ok no_snapshot (snapshot_rule_ownership "p" (put_project renamed_project db_rule).1))
  = Ok (of_ok "" (adoption_basis_digest demo_snapshot)).
Proof.
  apply (adoption_basis_ignores_display_edits renamed_project demo_project db_rule
           (put_project renamed_project db_rule).1 demo_snapshot).
  - evaluates.
  - evaluates.
  - evaluates.
  - apply result_of. evaluates.
  - apply (ok_of no_snapshot). evaluates.
  - apply (ok_of ""). evaluates.
  - apply (ok_of no_snapshot). evaluates.
Defined.

Lemma claimed_rule_is_closed_witness :
  (∀ rule, rule_id rule = "r1" → ∃ e, put_repo_rule "p" rule db_adopted = (db_adopted, Fail e)) ∧
  (∃ e, delete_repo_rule "p" "r1" db_adopted = (db_adopted, Fail e)) ∧
  (∀ expected remove upsert rk' er' r' db', rk' ≠ p_receipt_key demo_prepared → "r1" ∈ affected_ids remove upsert →
     publish_repo_rule_source "p" expected remove upsert rk' er' r' db_adopted ≠ (db', Ok tt)).
Proof.
  apply (claimed_rule_is_closed "p" (p_receipt_key demo_prepared) (p_receipt demo_prepared) stored_receipt
           stored_rule db_adopted).
  - evaluates.
  - evaluates.
  - apply (ok_of (source_receipt [])). evaluates.
  - apply list_elem_of_lookup_2 with 0%nat. evaluates.
Defined.

Lemma unreadable_receipt_closes_rules_witness :
  (∀ rule, ∃ e', put_repo_rule "p" rule db_garbled = (db_garbled, Fail e')) ∧
  (∀ id, ∃ e', delete_repo_rule "p" id db_garbled = (db_garbled, Fail e')) ∧
  (∀ expected remove upsert rk' er' r' db',
     publish_repo_rule_source "p" expected remove upsert rk' er' r' db_garbled ≠ (db', Ok tt)).
Proof.
  apply (unreadable_receipt_closes_rules "p" "quality_source:bad" "{" SerdeError db_garbled); evaluates.
Defined.

Lemma source_publication_is_exact_witness :
  let db' := (publish_repo_rule_source "p" [] [] [source_rule] source_b (receipt_to_vec (source_receipt []))
                (receipt_to_vec (source_receipt [source_rule])) db_source).1 in
  meta (project_key "p" source_b) db_source = Some (receipt_to_vec (source_receipt [])) ∧
  meta (project_key "p" source_b) db' = Some (receipt_to_vec (source_receipt [source_rule])) ∧
  (∀ id, id ∈ affected_ids [] [source_rule] →
     get_decoded REPO_RULES (project_key "p" id) db_source = Ok (find_rule id [])) ∧
  (∀ rule, rule ∈ [source_rule] → get_decoded REPO_RULES (project_key "p" (rule_id rule)) db' = Ok (Some rule)) ∧
  (∀ id, id ∈ [] → id ∉ rule_id <$> [source_rule] → db' !! (REPO_RULES, project_key "p" id) = None) ∧
  (∀ j, j ≠ (META, project_key "p" source_b) →
     (∀ id, id ∈ affected_ids [] [source_rule] → j ≠ (REPO_RULES, project_key "p" id)) → db' !! j = db_source !! j).
Proof.
  intros db'.
  apply (source_publication_is_exact "p" [] [] [source_rule] source_b (receipt_to_vec (source_receipt []))
           (receipt_to_vec (source_receipt [source_rule])) db_source db').
  - apply NoDup_singleton.
  - apply result_of. evaluates.
Defined.

Lemma prepared_adoption_commits_witness :
  ∃ db' s', adopt_legacy_repo_rules demo_snapshot demo_plan "ADR-1" db_rule = (db', Ok (p_outcome demo_prepared)) ∧
    snapshot_rule_ownership "p" db' = Ok s' ∧
    os_rules s' ≡ₚ replace_rows (p_rows demo_prepared) (os_rules demo_snapshot) ∧
    os_receipts s' ≡ₚ adopted_receipts demo_snapshot (p_receipt_key demo_prepared) (p_receipt demo_prepared) ∧
    meta (project_key "p" (p_audit_key demo_prepared)) db' = Some (p_audit demo_prepared).
Proof.
  apply (prepared_adoption_commits "p" demo_snapshot demo_plan "ADR-1" demo_prepared db_rule).
  - apply (ok_of no_snapshot). evaluates.
  - apply (ok_of no_prepared). evaluates.
  - evaluates.
Defined.

Lemma adoption_changes_only_provenance_witness :
  ∃ raw old receipt,
    ("r1", raw) ∈ os_rules demo_snapshot ∧ from_slice raw = Ok old ∧ rule_id old = "r1" ∧
    from_slice (default "" (p_rows demo_prepared !! "r1"))
    = Ok (with_provenance old (Some (SOURCE_PROVENANCE +:+ plan_origin demo_plan))) ∧
    receipt_encode receipt = Ok (p_receipt demo_prepared) ∧
    receipt_validate receipt (p_receipt_key demo_prepared) = Ok tt ∧
    with_provenance old (Some (SOURCE_PROVENANCE +:+ plan_origin demo_plan)) ∈ receipt_rules receipt.
Proof.
  apply (adoption_changes_only_provenance demo_snapshot demo_plan "ADR-1" demo_prepared "r1").
  - apply (ok_of no_prepared). evaluates.
  - evaluates.
Defined.
