(* ===== verification/Paths.v ===== *)
(** [engram_core::paths]: the normalization of project-relative paths. The
    conversions that consult the file system ([from_relative] and the cache of
    canonical roots) are not modelled. *)
From S2P Require Import Prelude Text Unicode.

(** * Definitions *)

Definition BACKSLASH : ascii := "\"%char.
Definition SLASH : ascii := "/"%char.

(** A [RelPath] is its text. *)
Definition RelPath : Type := string.

(** [str::trim_matches('/')]. *)
Definition trim_slashes (s : string) : string :=
  let front := strip_fuel (strip_prefix "/") (String.length s) s in
  strip_fuel (strip_suffix "/") (String.length front) front.

(** The loop of [RelPath::new] over the raw segments: the kept segments, last
    first, and whether a [..] found nothing to leave. *)
Definition rel_step (st : list string * bool) (raw : string) : list string * bool :=
  let '(parts, escaped) := st in
  let seg := trim raw in
  if String.eqb seg "" || String.eqb seg "." then (parts, escaped)
  else if String.eqb seg ".." then
    match parts with
    | [] => ([], true)
    | _ :: rest => (rest, escaped)
    end
  else if contains_char NUL seg || has_control seg then (parts, escaped)
  else (seg :: parts, escaped).

Definition rel_segments (path : string) : list string :=
  split_char SLASH (trim_slashes (replace_char BACKSLASH SLASH path)).

(** [RelPath::new]. *)
Definition rel_path_new (path : string) : RelPath :=
  let '(parts, attempted_root_escape) := foldl rel_step ([], false) (rel_segments path) in
  if attempted_root_escape then "" else join "/" (rev parts).

Definition rel_path_is_empty (p : RelPath) : bool := String.eqb p "".

(** [self.0.rsplit('/').next()]. *)
Definition rel_path_file_name (p : RelPath) : option string := last (split_char SLASH p).

(** ** What a normalized path is *)

(** A kept segment: trimmed, not empty, not a dot segment, without controls
    and separators. *)
Definition good_segment (s : string) : Prop :=
  trimmed s ∧ s ≠ "" ∧ s ≠ "." ∧ s ≠ ".." ∧ contains_char NUL s = false ∧ has_control s = false ∧
  contains_char SLASH s = false ∧ contains_char BACKSLASH s = false.

Definition normalized (p : RelPath) : Prop :=
  p = "" ∨ ∃ segs, segs ≠ [] ∧ p = join "/" segs ∧ split_char SLASH p = segs ∧ Forall good_segment segs.

(** The names and the parent steps of a list of raw segments. *)
Definition is_parent (raw : string) : bool := String.eqb (trim raw) "..".
Definition is_name (raw : string) : bool :=
  let seg := trim raw in
  negb (String.eqb seg "" || String.eqb seg "." || String.eqb seg ".." || contains_char NUL seg || has_control seg).
Definition count (f : string → bool) (l : list string) : nat := length (filter (λ s, f s = true) l).

(** Some prefix of the path leaves more directories than it entered. *)
Definition leaves_root (segs : list string) : Prop :=
  ∃ l1 l2, segs = l1 ++ l2 ∧ (count is_name l1 < count is_parent l1)%nat.

(** * Lemmas *)

Lemma split_char_nonempty c s : split_char c s ≠ [].
Proof. destruct s as [|d s]; simpl; [done |]. destruct (Ascii.eqb d c); [done |]. by destruct (split_char c s). Qed.

Lemma split_char_app c a s :
  contains_char c a = false → split_char c (a +:+ String c s) = a :: split_char c s.
Proof.
  induction a as [|d a IH]; intros Ha.
  - rewrite app_nil_l. simpl. by rewrite Ascii.eqb_refl.
  - rewrite contains_char_cons in Ha. apply orb_false_iff in Ha as [Hd Ha].
    rewrite app_cons. simpl. rewrite Ascii.eqb_sym in Hd. rewrite Hd, IH by done. done.
Qed.

Lemma split_char_whole c s : contains_char c s = false → split_char c s = [s].
Proof.
  induction s as [|d s IH]; intros Hs; [done |]. rewrite contains_char_cons in Hs.
  apply orb_false_iff in Hs as [Hd Hs]. rewrite Ascii.eqb_sym in Hd. simpl. by rewrite Hd, IH.
Qed.

Lemma split_join c l :
  l ≠ [] → Forall (λ s, contains_char c s = false) l → split_char c (join (str1 c) l) = l.
Proof.
  intros Hne Hall. induction Hall as [|s l Hs Hall IH]; [done |].
  destruct l as [|t l]; [by apply split_char_whole |].
  change (join (str1 c) (s :: t :: l)) with (s +:+ str1 c +:+ join (str1 c) (t :: l)).
  unfold str1 at 1. rewrite app_cons, app_nil_l, split_char_app by done. by rewrite IH.
Qed.

Lemma split_char_pieces c s piece : piece ∈ split_char c s → contains_char c piece = false.
Proof.
  revert piece. induction s as [|d s IH]; intros piece; simpl.
  { intros ->%list_elem_of_singleton. done. }
  destruct (Ascii.eqb d c) eqn:Hd.
  - intros [->|Hin]%elem_of_cons; [done | by apply IH].
  - destruct (split_char c s) as [|w ws]; [by intros ->%list_elem_of_singleton; rewrite contains_char_cons, Ascii.eqb_sym, Hd |].
    intros [->|Hin]%elem_of_cons; [| apply IH; set_solver].
    rewrite contains_char_cons, Ascii.eqb_sym, Hd. apply IH. set_solver.
Qed.

(** A character of a piece is a character of the whole. *)
Lemma split_char_sub c d s piece :
  contains_char d s = false → piece ∈ split_char c s → contains_char d piece = false.
Proof.
  revert piece. induction s as [|e s IH]; intros piece Hs; simpl.
  { by intros ->%list_elem_of_singleton. }
  rewrite contains_char_cons in Hs. apply orb_false_iff in Hs as [He Hs]. destruct (Ascii.eqb e c).
  - intros [->|Hin]%elem_of_cons; [done | by apply IH].
  - destruct (split_char c s) as [|w ws] eqn:E; [by intros ->%list_elem_of_singleton; rewrite contains_char_cons, He |].
    intros [->|Hin]%elem_of_cons; [| apply IH; [done | set_solver]].
    rewrite contains_char_cons, He. apply IH; [done | set_solver].
Qed.

Lemma replace_char_gone a b s : a ≠ b → contains_char a (replace_char a b s) = false.
Proof.
  intros Hab. unfold replace_char. induction s as [|c s IH]; simpl; [done |].
  rewrite contains_char_cons, IH, orb_false_r. destruct (Ascii.eqb c a) eqn:E.
  - by apply Ascii.eqb_neq.
  - by rewrite Ascii.eqb_sym.
Qed.

Lemma replace_char_id a b s : contains_char a s = false → replace_char a b s = s.
Proof.
  unfold replace_char. induction s as [|c s IH]; simpl; [done |].
  rewrite contains_char_cons. intros [Hc Hs]%orb_false_iff. rewrite Ascii.eqb_sym in Hc. by rewrite Hc, IH.
Qed.

Lemma contains_char_split d a b :
  contains_char d (a +:+ b) = false → contains_char d a = false ∧ contains_char d b = false.
Proof. by rewrite contains_char_app, orb_false_iff. Qed.

Lemma trim_char d s : contains_char d s = false → trimmed (trim s) ∧ contains_char d (trim s) = false.
Proof. apply (trim_spec (λ t, contains_char d t = false)). apply contains_char_split. Qed.

(** ** The loop *)

Lemma rel_step_good parts escaped raw :
  Forall good_segment parts → contains_char SLASH raw = false → contains_char BACKSLASH raw = false →
  Forall good_segment (rel_step (parts, escaped) raw).1.
Proof.
  intros Hp Hs Hb. unfold rel_step. destruct (trim_char SLASH raw Hs) as [Ht Hs'].
  destruct (trim_char BACKSLASH raw Hb) as [_ Hb'].
  destruct (String.eqb (trim raw) "" || String.eqb (trim raw) ".") eqn:E1; [done |].
  apply orb_false_iff in E1 as [H1%String.eqb_neq H2%String.eqb_neq].
  destruct (String.eqb (trim raw) "..") eqn:E2; [by destruct Hp; [constructor |] |].
  apply String.eqb_neq in E2. destruct (contains_char NUL (trim raw) || has_control (trim raw)) eqn:E3; [done |].
  apply orb_false_iff in E3 as [H3 H4]. constructor; [| done]. by split_and!.
Qed.

Lemma rel_loop_good segs st :
  Forall good_segment st.1 →
  (∀ raw, raw ∈ segs → contains_char SLASH raw = false ∧ contains_char BACKSLASH raw = false) →
  Forall good_segment (foldl rel_step st segs).1.
Proof.
  revert st. induction segs as [|raw segs IH]; intros [parts escaped] Hp Hr; [done |]. simpl.
  apply IH; [| intros; apply Hr; set_solver]. destruct (Hr raw) as [H1 H2]; [set_solver |].
  by apply rel_step_good.
Qed.

Lemma strip_fuel_sub f (P : string → Prop) fuel s :
  (∀ s t, f s = Some t → P s → P t) → P s → P (strip_fuel f fuel s).
Proof.
  intros Hf. revert s. induction fuel as [|fuel IH]; intros s Hs; simpl; [done |].
  destruct (f s) eqn:E; [| done]. apply IH. by eapply Hf.
Qed.

Lemma trim_slashes_char d s : contains_char d s = false → contains_char d (trim_slashes s) = false.
Proof.
  intros Hs. unfold trim_slashes.
  apply (strip_fuel_sub _ (λ t, contains_char d t = false)).
  { intros a b ->%strip_suffix_Some. by intros []%contains_char_split. }
  apply (strip_fuel_sub _ (λ t, contains_char d t = false)); [| done].
  intros a b ->%strip_prefix_Some. by intros []%contains_char_split.
Qed.

Lemma rel_segments_clean path raw :
  raw ∈ rel_segments path → contains_char SLASH raw = false ∧ contains_char BACKSLASH raw = false.
Proof.
  intros Hr. split; [by eapply split_char_pieces |].
  eapply split_char_sub; [| exact Hr]. by apply trim_slashes_char, replace_char_gone.
Qed.

Lemma good_loop segs parts escaped :
  Forall good_segment segs → foldl rel_step (parts, escaped) segs = (rev segs ++ parts, escaped).
Proof.
  intros Hg. revert parts. induction Hg as [|s segs (Ht & H1 & H2 & H3 & H4 & H5 & _) _ IH]; intros parts; [done |].
  simpl. rewrite (trim_trimmed _ Ht).
  rewrite (proj2 (String.eqb_neq s "")), (proj2 (String.eqb_neq s ".")), (proj2 (String.eqb_neq s "..")) by done.
  simpl. rewrite H4, H5. simpl. rewrite IH. simpl. by rewrite <-app_assoc.
Qed.

Lemma string_snoc_cases (s : string) : s = "" ∨ ∃ t c, s = t +:+ str1 c.
Proof.
  induction s as [|d s [->|(t & c & ->)]]; [by left | right; by exists "", d | right].
  by exists (String d t), c.
Qed.

Lemma string_snoc_inj a b c d : a +:+ String c "" = b +:+ String d "" → a = b ∧ c = d.
Proof.
  revert b. induction a as [|x a IH]; intros [|y b]; rewrite ?app_nil_l, ?app_cons; intros H; injection H.
  - by intros ->.
  - intros H1 _. by destruct b.
  - intros H1 _. by destruct a.
  - intros H2 ->. apply IH in H2 as [-> ->]. done.
Qed.

(** Text without a slash at either end is left alone. *)
Lemma trim_slashes_id s :
  strip_prefix "/" s = None → strip_suffix "/" s = None → trim_slashes s = s.
Proof.
  intros Hp Hs. unfold trim_slashes.
  assert (H : ∀ f fuel, f s = None → strip_fuel f fuel s = s) by (intros f [|fuel] E; simpl; [done | by rewrite E]).
  by rewrite !H.
Qed.

Lemma join_ends segs :
  segs ≠ [] → Forall good_segment segs →
  strip_prefix "/" (join "/" segs) = None ∧ strip_suffix "/" (join "/" segs) = None.
Proof.
  intros Hne Hg. split.
  - destruct Hg as [|s segs (_ & H1 & _ & _ & _ & _ & Hs & _) _]; [done |].
    destruct (strip_prefix "/" (join "/" (s :: segs))) as [t|] eqn:E; [| done]. apply strip_prefix_Some in E.
    destruct s as [|c s]; [done |]. rewrite contains_char_cons in Hs. apply orb_false_iff in Hs as [Hc _].
    exfalso. assert (Hc' : c = SLASH) by (destruct segs; simpl in E; rewrite ?app_cons in E; by injection E).
    by rewrite Hc', Ascii.eqb_refl in Hc.
  - destruct (strip_suffix "/" (join "/" segs)) as [t|] eqn:E; [| done]. apply strip_suffix_Some in E. exfalso.
    revert t E. induction Hg as [|s segs (_ & H1 & _ & _ & _ & _ & Hs & _) Hg IH]; intros t E; [done |].
    destruct segs as [|s2 segs].
    + simpl in E. subst s. by rewrite contains_char_mid in Hs.
    + change (join "/" (s :: s2 :: segs)) with (s +:+ "/" +:+ join "/" (s2 :: segs)) in E.
      destruct (string_snoc_cases (join "/" (s2 :: segs))) as [H0|(u & c & Hu)].
      * apply Forall_cons_1 in Hg as [(_ & Hne2 & _) _]. destruct s2; [done |]. by destruct segs.
      * rewrite Hu, <-!app_assoc_str in E. apply (IH ltac:(done) u).
        unfold str1 in E. apply string_snoc_inj in E as [_ ->]. done.
Qed.

(** ** What the loop computes *)

Lemma count_snoc f l x : count f (l ++ [x]) = (count f l + (if f x then 1 else 0))%nat.
Proof.
  unfold count. rewrite filter_app, length_app. f_equal. rewrite filter_cons, filter_nil.
  by destruct (f x); simpl.
Qed.

Lemma leaves_root_snoc l x :
  leaves_root (l ++ [x]) ↔ leaves_root l ∨ (count is_name (l ++ [x]) < count is_parent (l ++ [x]))%nat.
Proof.
  split.
  - intros (l1 & l2 & He & Hc). destruct (decide (l2 = [])) as [->|Hl2].
    + rewrite app_nil_r in He. subst l1. by right.
    + destruct (exists_last Hl2) as (l3 & y & ->). rewrite app_assoc in He.
      apply app_inj_tail in He as [-> ->]. left. by exists l1, l3.
  - intros [(l1 & l2 & -> & Hc)|Hc]; [| exists (l ++ [x]), []; by rewrite app_nil_r].
    exists l1, (l2 ++ [x]). by rewrite app_assoc.
Qed.

(** A raw segment is a name, a parent step, or neither. *)
Lemma rel_step_cases parts escaped raw :
  (is_name raw = true ∧ is_parent raw = false ∧ rel_step (parts, escaped) raw = (trim raw :: parts, escaped)) ∨
  (is_name raw = false ∧ is_parent raw = true ∧
     rel_step (parts, escaped) raw = match parts with [] => ([], true) | _ :: rest => (rest, escaped) end) ∨
  (is_name raw = false ∧ is_parent raw = false ∧ rel_step (parts, escaped) raw = (parts, escaped)).
Proof.
  unfold is_name, is_parent, rel_step.
  destruct (String.eqb (trim raw) "") eqn:E1.
  { apply String.eqb_eq in E1. rewrite E1. right. right. done. }
  destruct (String.eqb (trim raw) ".") eqn:E2.
  { apply String.eqb_eq in E2. rewrite E2. right. right. done. }
  destruct (String.eqb (trim raw) "..") eqn:E3; [right; left; done |]. simpl.
  destruct (contains_char NUL (trim raw)); [right; right; done |].
  destruct (has_control (trim raw)); [right; right; done | left; done].
Qed.

Lemma rel_loop_spec segs parts escaped :
  foldl rel_step ([], false) segs = (parts, escaped) →
  (escaped = true ↔ leaves_root segs) ∧
  (escaped = false → (length parts + count is_parent segs)%nat = count is_name segs ∧
     rev parts `sublist_of` (trim <$> filter (λ s, is_name s = true) segs)).
Proof.
  revert parts escaped. induction segs as [|raw segs IH] using rev_ind; intros parts escaped H.
  { injection H as <- <-. split; [| done]. split; [done |].
    intros (l1 & l2 & He & Hc). symmetry in He. apply app_eq_nil in He as [-> ->]. by apply Nat.lt_irrefl in Hc. }
  rewrite foldl_snoc in H. destruct (foldl rel_step ([], false) segs) as [ps esc] eqn:E.
  destruct (IH ps esc eq_refl) as [IHe IHl]. rewrite leaves_root_snoc, <-IHe, !count_snoc, filter_app, fmap_app.
  destruct (rel_step_cases ps esc raw) as [(Hn & Hp & Hr)|[(Hn & Hp & Hr)|(Hn & Hp & Hr)]];
    rewrite Hr in H; rewrite Hn, Hp, filter_cons, Hn; simpl.
  - injection H as <- <-. split.
    + split; [by left |]. intros [?|Hlt]; [done |]. destruct esc; [done |].
      destruct (IHl eq_refl) as [Hc _]. lia.
    + intros Hesc. destruct (IHl Hesc) as [Hc Hs]. simpl. split; [lia |]. by apply sublist_app.
  - rewrite ?filter_nil, ?app_nil_r; simpl; rewrite ?app_nil_r. destruct ps as [|p ps].
    + injection H as <- <-. split; [| done]. split; [intros _ | done].
      destruct esc; [by left | right]. destruct (IHl eq_refl) as [Hc _]. simpl in Hc. lia.
    + injection H as <- <-. split.
      * split; [by left |]. intros [?|Hlt]; [done |]. destruct esc; [done |].
        destruct (IHl eq_refl) as [Hc _]. simpl in Hc. lia.
      * intros Hesc. destruct (IHl Hesc) as [Hc Hs]. simpl in *. split; [lia |].
        etrans; [| exact Hs]. by apply sublist_inserts_r.
  - rewrite ?filter_nil, ?app_nil_r; simpl; rewrite ?app_nil_r. injection H as <- <-. split.
    + split; [by left |]. intros [?|Hlt]; [done |]. destruct esc; [done |].
      destruct (IHl eq_refl) as [Hc _]. lia.
    + intros Hesc. destruct (IHl Hesc). split; [lia | done].
Qed.

(** A normalized path is a fixed point. *)
Lemma rel_path_new_join segs :
  segs ≠ [] → Forall good_segment segs → rel_path_new (join "/" segs) = join "/" segs.
Proof.
  intros Hne Hg. unfold rel_path_new, rel_segments. rewrite replace_char_id.
  - destruct (join_ends segs Hne Hg) as [Hp Hs]. rewrite (trim_slashes_id _ Hp Hs).
    change "/" with (str1 SLASH). rewrite split_join; [| done |].
    + rewrite good_loop by done. rewrite app_nil_r, List.rev_involutive. done.
    + eapply Forall_impl; [exact Hg |]. intros s Hs'. apply Hs'.
  - clear Hne. induction Hg as [|s segs Hs Hg IH]; [done |].
    destruct segs as [|s2 segs]; [apply Hs |].
    change (join "/" (s :: s2 :: segs)) with (s +:+ "/" +:+ join "/" (s2 :: segs)).
    rewrite !contains_char_app, IH, orb_false_r. destruct Hs as (_ & _ & _ & _ & _ & _ & _ & ->). done.
Qed.

Lemma rel_path_new_cases path :
  rel_path_new path = "" ∨
  ∃ segs, segs ≠ [] ∧ Forall good_segment segs ∧ rel_path_new path = join "/" segs.
Proof.
  unfold rel_path_new. destruct (foldl rel_step ([], false) (rel_segments path)) as [parts escaped] eqn:E.
  destruct escaped; [by left |]. destruct (decide (parts = [])) as [->|Hne]; [by left | right].
  exists (rev parts). split; [| split; [| done]].
  - intros H. apply Hne. rewrite <-(List.rev_involutive parts), H. done.
  - apply Forall_rev. change parts with (parts, false).1. rewrite <-E.
    apply rel_loop_good; [constructor | apply rel_segments_clean].
Qed.

(** * Theorems *)


(** Normalization is idempotent: a [RelPath] read back is itself. *)
Theorem rel_path_new_idempotent path : rel_path_new (rel_path_new path) = rel_path_new path.
Proof.
  destruct (rel_path_new_cases path) as [->|(segs & Hne & Hg & ->)]; [by vm_compute |].
  by apply rel_path_new_join.
Qed.

(** A path that leaves the root at any point becomes the empty sentinel;
    every other path keeps names of the path in their order, one for each
    name that no parent step takes back. *)
Theorem rel_path_never_escapes path :
  (leaves_root (rel_segments path) → rel_path_new path = "") ∧
  (¬ leaves_root (rel_segments path) →
   ∃ segs, rel_path_new path = join "/" segs ∧
     (length segs + count is_parent (rel_segments path))%nat = count is_name (rel_segments path) ∧
     segs `sublist_of` (trim <$> filter (λ s, is_name s = true) (rel_segments path))).
Proof.
  unfold rel_path_new. destruct (foldl rel_step ([], false) (rel_segments path)) as [parts escaped] eqn:E.
  destruct (rel_loop_spec _ _ _ E) as [He Hl]. split; [by intros ->%He |].
  intros Hn. destruct escaped; [by destruct Hn; apply He |]. destruct (Hl eq_refl) as [Hc Hs].
  exists (rev parts). rewrite List.length_rev. done.
Qed.

Lemma rel_path_never_escapes_witness :
  rel_path_new "src/..\../etc" = "" ∧
  ∃ segs, rel_path_new "/a/./b/../c.rs" = join "/" segs ∧
    (length segs + 1)%nat = 3%nat ∧ segs `sublist_of` ["a"; "b"; "c.rs"].
Proof.
  split.
  - apply (proj1 (rel_path_never_escapes "src/..\../etc")).
    exists ["src"; ".."; ".."], ["etc"]. split; [by vm_compute | vm_compute; lia].
  - apply (proj2 (rel_path_never_escapes "/a/./b/../c.rs")).
    rewrite <-(proj1 (rel_loop_spec (rel_segments "/a/./b/../c.rs") ["c.rs"; "a"] false ltac:(by vm_compute))).
    done.
Defined.
