(* ===== verification/Namespaces.v ===== *)
(** [engram_core::namespaces]: the update and retention policy of every
    namespace of the document index. *)
From S2P Require Import Prelude Text.

Open Scope N_scope.

(** * Definitions *)

Inductive NamespaceVersioning := Snapshot | AppendOnly | GlobalMutable.
#[export] Instance NamespaceVersioning_eq_dec : EqDecision NamespaceVersioning.
Proof. solve_decision. Defined.

Inductive NamespaceRetention := KeepLatestOnly | KeepLastGenerations (n : N) | KeepForever.
#[export] Instance NamespaceRetention_eq_dec : EqDecision NamespaceRetention.
Proof. solve_decision. Defined.

Record NamespacePolicy := { versioning : NamespaceVersioning; retention : NamespaceRetention }.

Inductive NamespaceScope := GenerationScoped | Global.

Definition NAMESPACE_MEMORY : string := "memory".
Definition NAMESPACE_HISTORY : string := "history".
Definition NAMESPACE_ANTIPATTERN : string := "antipattern".
Definition NAMESPACE_WONTFIX : string := "wontfix_patterns".
Definition NAMESPACE_QUALITY_GATE : string := "quality_gate".
Definition NAMESPACE_MEMORY_BANK : string := "memory_bank".
Definition NAMESPACE_INSIGHTS : string := "insights".
Definition NAMESPACE_BUSINESS_LOGIC : string := "business_logic".
Definition NAMESPACE_REVIEW_VERDICT : string := "review_verdict".

Definition KNOWLEDGE_NAMESPACES : list string :=
  [NAMESPACE_MEMORY_BANK; NAMESPACE_INSIGHTS; NAMESPACE_BUSINESS_LOGIC; NAMESPACE_ANTIPATTERN;
   NAMESPACE_WONTFIX; NAMESPACE_QUALITY_GATE; NAMESPACE_REVIEW_VERDICT].

Definition KNOWN_NAMESPACES : list string :=
  [NAMESPACE_MEMORY; NAMESPACE_HISTORY; NAMESPACE_ANTIPATTERN; NAMESPACE_WONTFIX;
   NAMESPACE_QUALITY_GATE; NAMESPACE_MEMORY_BANK; NAMESPACE_INSIGHTS; NAMESPACE_BUSINESS_LOGIC;
   NAMESPACE_REVIEW_VERDICT].

Definition kept_forever : NamespacePolicy := {| versioning := GlobalMutable; retention := KeepForever |}.

(** The arms of [get_policy], in the order of its match. *)
Definition policies : list (string * NamespacePolicy) :=
  [(NAMESPACE_MEMORY, {| versioning := Snapshot; retention := KeepLatestOnly |});
   (NAMESPACE_HISTORY, kept_forever);
   (NAMESPACE_ANTIPATTERN, kept_forever);
   (NAMESPACE_WONTFIX, kept_forever);
   (NAMESPACE_QUALITY_GATE, kept_forever);
   (NAMESPACE_MEMORY_BANK, kept_forever);
   (NAMESPACE_INSIGHTS, kept_forever);
   (NAMESPACE_BUSINESS_LOGIC, kept_forever);
   (NAMESPACE_REVIEW_VERDICT, kept_forever)].

Fixpoint match_policy (namespace : string) (arms : list (string * NamespacePolicy)) : result NamespacePolicy :=
  match arms with
  | [] => Fail (Bail "Unknown namespace: {}" [namespace])
  | (name, policy) :: rest =>
      if String.eqb namespace name then Ok policy else match_policy namespace rest
  end.

Definition get_policy (namespace : string) : result NamespacePolicy := match_policy namespace policies.

Definition get_namespace_scope (namespace : string) : NamespaceScope :=
  match get_policy namespace with
  | Ok policy =>
      match versioning policy with
      | Snapshot | AppendOnly => GenerationScoped
      | GlobalMutable => Global
      end
  | Fail _ => GenerationScoped
  end.

(** * Lemmas *)

Lemma match_policy_Ok ns arms policy : match_policy ns arms = Ok policy → (ns, policy) ∈ arms.
Proof.
  induction arms as [|[name q] arms IH]; simpl; [done |]. destruct (String.eqb ns name) eqn:E.
  - apply String.eqb_eq in E as ->. intros [= ->]. set_solver.
  - intros H%IH. set_solver.
Qed.

Lemma match_policy_known ns arms : ns ∈ arms.*1 ↔ is_ok (match_policy ns arms) = true.
Proof.
  induction arms as [|[name q] arms IH]; simpl; [by rewrite elem_of_nil |]. rewrite elem_of_cons.
  destruct (String.eqb ns name) eqn:E.
  - apply String.eqb_eq in E as ->. split; [done | by left].
  - apply String.eqb_neq in E. rewrite <-IH. simpl. naive_solver.
Qed.

(** A known namespace is either the code namespace or global. *)
Lemma policy_cases ns policy :
  get_policy ns = Ok policy →
  ns = NAMESPACE_MEMORY ∧ policy = {| versioning := Snapshot; retention := KeepLatestOnly |} ∨
  ns ≠ NAMESPACE_MEMORY ∧ policy = kept_forever.
Proof.
  intros H%match_policy_Ok. unfold policies in H.
  repeat (apply elem_of_cons in H as [[= -> ->]|H]; [first [by left | by right] |]).
  by apply elem_of_nil in H.
Qed.

(** * Theorems *)

(** Exactly the known namespaces have a policy, and only the code
    namespace is tied to a generation: every other known namespace, the
    knowledge namespaces among them, is global and kept forever, so a reindex
    purges none of it; an unknown namespace is treated as safe to purge. *)
Theorem only_code_is_purged_with_its_generation ns :
  (is_ok (get_policy ns) = true ↔ ns ∈ KNOWN_NAMESPACES) ∧
  (ns ∈ KNOWLEDGE_NAMESPACES → ns ∈ KNOWN_NAMESPACES ∧ ns ≠ NAMESPACE_MEMORY) ∧
  (get_namespace_scope ns = Global ↔ ns ∈ KNOWN_NAMESPACES ∧ ns ≠ NAMESPACE_MEMORY) ∧
  (get_namespace_scope ns = Global ↔ get_policy ns = Ok kept_forever).
Proof.
  assert (Hknown : is_ok (get_policy ns) = true ↔ ns ∈ KNOWN_NAMESPACES)
    by (unfold get_policy; by rewrite <-match_policy_known).
  split; [done |]. split.
  { unfold KNOWLEDGE_NAMESPACES. intros H. repeat (apply elem_of_cons in H as [->|H];
      [split; [by apply (bool_decide_unpack _) | done] |]). by apply elem_of_nil in H. }
  rewrite <-Hknown. unfold get_namespace_scope. destruct (get_policy ns) as [policy|e] eqn:E.
  - destruct (policy_cases _ _ E) as [[-> ->]|[Hne ->]]; simpl; naive_solver.
  - simpl. naive_solver.
Qed.
