(* ===== verification/Ids.v ===== *)
(** [engram_core::ids]: the identifiers of graph nodes, documents and contents
    and the primary keys of the index. [NodeId::table] and [NodeId::column]
    fold case over all of Unicode and are not modelled. *)
From S2P Require Import Prelude Text Store Records Concrete Namespaces.

Open Scope N_scope.

(** * Definitions *)

Definition COLON : ascii := ":"%char.

(** [NodeId]'s constructors; a [NodeId] is its text. *)
Definition node_symbol (kind : string) (fqn : option string) (rel_path name : string) (start_line : N) : string :=
  "sym:" +:+ kind +:+ ":" +:+ rel_path +:+ ":" +:+ name +:+ ":" +:+ show_u64 start_line.
(** [Path::is_absolute] on Unix; the assertion is in debug builds only. *)
Definition node_file (debug : bool) (rel_path : string) : result string :=
  if debug && starts_with "/" rel_path then Fail (Panic "NodeId::file") else Ok ("file:" +:+ rel_path).
Definition node_sql (kind normalized_content : string) : string :=
  "sql:" +:+ kind +:+ ":" +:+ normalized_content.
Definition node_page (rel_path : string) : string := "page:" +:+ rel_path.
Definition node_control (page_rel_path control_id : string) : string :=
  "control:" +:+ page_rel_path +:+ ":" +:+ control_id.
Definition node_gis_config (page_rel_path config_key : string) : string :=
  "gis_config:" +:+ page_rel_path +:+ ":" +:+ config_key.
Definition node_state (state_type key : string) : string := "state:" +:+ state_type +:+ ":" +:+ key.
Definition node_binding_field (field_name : string) : string := "binding_field:" +:+ field_name.
Definition node_ui_container (page_rel_path container_id : string) : string :=
  "ui_container:" +:+ page_rel_path +:+ ":" +:+ container_id.

(** [build_pk]; the assertions are in debug builds only. *)
Definition build_pk (debug : bool) (project_id namespace : string) (generation : N) (doc_id : string)
  : result string :=
  if debug && (contains_char COLON project_id || contains_char COLON namespace) then
    Fail (Panic "build_pk")
  else
    let effective_gen :=
      match get_policy namespace with
      | Ok policy => if bool_decide (versioning policy = GlobalMutable) then 0 else generation
      | Fail _ => generation
      end in
    Ok (project_id +:+ ":" +:+ namespace +:+ ":" +:+ show_u64 effective_gen +:+ ":" +:+ doc_id).

(** The loop of [ContentHash::compute]: every line ending becomes [\n]. *)
Fixpoint normalize_newlines (content : bytes) : bytes :=
  match content with
  | "" => ""
  | String c rest =>
      if Ascii.eqb c CR then
        match rest with
        | String d rest' =>
            if Ascii.eqb d LF then String LF (normalize_newlines rest')
            else String LF (normalize_newlines rest)
        | "" => String LF ""
        end
      else String c (normalize_newlines rest)
  end.

(** The bytes [DocIdStr::compute] hashes; a [u32] is four bytes. *)
Definition doc_preimage (rel_path : string) (start_line end_line : N) (content_hash : string) : bytes :=
  rel_path +:+ str1 NUL +:+ le_split 4 start_line +:+ str1 NUL +:+ le_split 4 end_line +:+ str1 NUL
  +:+ content_hash.

Definition u32_max : N := 4294967295.

Section hashes.
Context `{!Blake3}.

Definition content_hash_compute (content : bytes) : string :=
  if contains_char CR content then blake3_hex (normalize_newlines content) else blake3_hex content.

Definition doc_id_compute (rel_path : string) (start_line end_line : N) (content_hash : string) : string :=
  blake3_hex (doc_preimage rel_path start_line end_line content_hash).
End hashes.

(** The text with Windows line endings. *)
Fixpoint to_crlf (s : string) : string :=
  match s with
  | "" => ""
  | String c s' => if Ascii.eqb c LF then String CR (String LF (to_crlf s')) else String c (to_crlf s')
  end.

(** * Lemmas *)

Lemma string_forallb_no_char f c s : f c = false → string_forallb f s = true → contains_char c s = false.
Proof.
  intros Hc. induction s as [|d s IH]; [done |]. cbn [string_forallb].
  intros [Hd Hs]%andb_true_iff. rewrite contains_char_cons, (IH Hs), orb_false_r.
  apply Ascii.eqb_neq. congruence.
Qed.

Lemma show_u64_no_colon n : contains_char COLON (show_u64 n) = false.
Proof. apply (string_forallb_no_char is_ascii_digit); [done | apply show_u64_digits]. Qed.

Lemma colon_inj a b x y :
  contains_char COLON a = false → contains_char COLON b = false →
  a +:+ ":" +:+ x = b +:+ ":" +:+ y → a = b ∧ x = y.
Proof. intros Ha Hb. apply (sep_inj COLON); done. Qed.

Lemma colon_inj_r a b x y :
  contains_char COLON x = false → contains_char COLON y = false →
  a +:+ ":" +:+ x = b +:+ ":" +:+ y → a = b ∧ x = y.
Proof. intros Hx Hy. apply (sep_inj_r COLON); done. Qed.

Lemma le_split_inj k a b x y :
  a < 256 ^ N.of_nat k → b < 256 ^ N.of_nat k →
  le_split k a +:+ x = le_split k b +:+ y → a = b ∧ x = y.
Proof.
  intros Ha Hb H.
  assert (Hs : stake k (le_split k a +:+ x) = stake k (le_split k b +:+ y)) by by rewrite H.
  rewrite !stake_app in Hs by by rewrite le_split_length.
  assert (a = b) as ->; [| split; [done | by apply app_inj_l in H]].
  rewrite <-(from_le_split k a Ha), <-(from_le_split k b Hb). by rewrite Hs.
Qed.

Lemma normalize_no_CR s : contains_char CR (normalize_newlines s) = false.
Proof.
  assert (H : ∀ n s, (String.length s <= n)%nat → contains_char CR (normalize_newlines s) = false);
    [| by eapply H].
  clear s. intros n. induction n as [|n IH]; intros [|c s] Hl; simpl in Hl; try done; try lia.
  cbn [normalize_newlines]. destruct (Ascii.eqb c CR) eqn:E.
  - destruct s as [|d s]; [done |]. simpl in Hl.
    destruct (Ascii.eqb d LF); rewrite contains_char_cons, IH; done || (simpl; lia).
  - rewrite contains_char_cons, IH, orb_false_r by lia. by rewrite Ascii.eqb_sym.
Qed.

Lemma normalize_id s : contains_char CR s = false → normalize_newlines s = s.
Proof.
  induction s as [|c s IH]; [done |]. rewrite contains_char_cons. intros [Hc Hs]%orb_false_iff.
  cbn [normalize_newlines]. rewrite Ascii.eqb_sym in Hc. by rewrite Hc, IH.
Qed.

Lemma normalize_to_crlf s : contains_char CR s = false → normalize_newlines (to_crlf s) = s.
Proof.
  induction s as [|c s IH]; [done |]. rewrite contains_char_cons. intros [Hc Hs]%orb_false_iff.
  cbn [to_crlf]. rewrite Ascii.eqb_sym in Hc. destruct (Ascii.eqb c LF) eqn:E.
  - apply Ascii.eqb_eq in E as ->. simpl. by rewrite IH.
  - cbn [normalize_newlines]. by rewrite Hc, IH.
Qed.

(** The loop is only skipped where it would change nothing. *)
Lemma content_hash_normalized `{!Blake3} s : content_hash_compute s = blake3_hex (normalize_newlines s).
Proof. unfold content_hash_compute. destruct (contains_char CR s) eqn:E; [done | by rewrite normalize_id]. Qed.

(** * Theorems *)

(** Primary keys identify documents: two keys that a debug build accepts
    are equal only for the same project, namespace and document, and the same
    generation unless the namespace is global, where one document keeps its
    key in every generation. *)
Theorem primary_keys_identify p1 ns1 g1 d1 p2 ns2 g2 d2 k :
  g1 <= u64_max → g2 <= u64_max →
  build_pk true p1 ns1 g1 d1 = Ok k → build_pk true p2 ns2 g2 d2 = Ok k →
  p1 = p2 ∧ ns1 = ns2 ∧ d1 = d2 ∧ (get_namespace_scope ns1 = Global ∨ g1 = g2).
Proof.
  intros Hg1 Hg2. unfold build_pk. simpl.
  destruct (contains_char COLON p1 || contains_char COLON ns1) eqn:E1; [done |].
  destruct (contains_char COLON p2 || contains_char COLON ns2) eqn:E2; [done |].
  apply orb_false_iff in E1 as [Hp1 Hn1]. apply orb_false_iff in E2 as [Hp2 Hn2].
  intros [= <-] [= H]. apply colon_inj in H as [<- H]; [| done | done].
  apply colon_inj in H as [<- H]; [| done | done].
  apply colon_inj in H as [H <-]; [| apply show_u64_no_colon | apply show_u64_no_colon].
  split_and!; [done | done | done |]. unfold get_namespace_scope.
  destruct (get_policy ns2) as [policy|]; cycle 1.
  { right. symmetry. by apply show_u64_inj in H. }
  case_bool_decide as Hv; [left; by rewrite Hv |]. right. symmetry. by apply show_u64_inj in H.
Qed.

(** A symbol id names one symbol: with a kind and a path without a colon,
    two ids are equal only for the same kind, path, name and line. *)
Theorem symbol_ids_identify kind1 kind2 fqn1 fqn2 path1 path2 name1 name2 l1 l2 :
  contains_char COLON kind1 = false → contains_char COLON kind2 = false →
  contains_char COLON path1 = false → contains_char COLON path2 = false →
  l1 <= u32_max → l2 <= u32_max →
  node_symbol kind1 fqn1 path1 name1 l1 = node_symbol kind2 fqn2 path2 name2 l2 →
  kind1 = kind2 ∧ path1 = path2 ∧ name1 = name2 ∧ l1 = l2.
Proof.
  intros Hk1 Hk2 Hp1 Hp2 Hl1 Hl2 H. unfold node_symbol in H. apply app_inj_l in H.
  apply colon_inj in H as [-> H]; [| done | done]. apply colon_inj in H as [-> H]; [| done | done].
  apply colon_inj_r in H as [-> H]; [| apply show_u64_no_colon | apply show_u64_no_colon].
  apply show_u64_inj in H; [done | unfold u32_max, u64_max in *; lia ..].
Qed.

(** A document id stands for one place and content: for paths without a
    NUL, equal ids mean an equal path, range and content hash, or two
    different inputs of the hash function with one digest. *)
Theorem doc_ids_identify `{!Blake3} path1 path2 s1 s2 e1 e2 h1 h2 :
  contains_char NUL path1 = false → contains_char NUL path2 = false →
  s1 <= u32_max → s2 <= u32_max → e1 <= u32_max → e2 <= u32_max →
  doc_id_compute path1 s1 e1 h1 = doc_id_compute path2 s2 e2 h2 →
  (path1 = path2 ∧ s1 = s2 ∧ e1 = e2 ∧ h1 = h2) ∨
  ∃ x y, x ≠ y ∧ blake3_hex x = blake3_hex y.
Proof.
  intros Hp1 Hp2 Hs1 Hs2 He1 He2 Heq. unfold doc_id_compute in Heq.
  destruct (decide (doc_preimage path1 s1 e1 h1 = doc_preimage path2 s2 e2 h2)) as [E|Hne]; [left | right; eauto].
  clear Heq. assert (Hb : ∀ n, n <= u32_max → n < 256 ^ N.of_nat 4) by (intros n Hn; unfold u32_max in Hn; simpl; lia).
  unfold doc_preimage in E. apply (sep_inj NUL) in E as [-> E]; [| done | done].
  apply le_split_inj in E as [-> E]; [| by apply Hb | by apply Hb].
  apply app_inj_l in E. apply le_split_inj in E as [-> E]; [| by apply Hb | by apply Hb].
  apply app_inj_l in E as ->. done.
Qed.

(** Line endings do not change a content hash: text and the same text
    with Windows line endings hash alike, and the hashed bytes hold no
    carriage return. *)
Theorem content_hash_ignores_line_endings `{!Blake3} s :
  contains_char CR s = false →
  content_hash_compute (to_crlf s) = content_hash_compute s ∧
  ∀ t, content_hash_compute t = blake3_hex (normalize_newlines t) ∧ contains_char CR (normalize_newlines t) = false.
Proof.
  intros Hs. split.
  - by rewrite !content_hash_normalized, normalize_to_crlf, normalize_id.
  - intros t. split; [apply content_hash_normalized | apply normalize_no_CR].
Qed.

(** * Witnesses *)

Lemma primary_keys_identify_witness :
  "p" = "p" ∧ "history" = "history" ∧ "pr:1" = "pr:1" ∧ (get_namespace_scope "history" = Global ∨ 3 = 36).
Proof.
  apply (primary_keys_identify "p" "history" 3 "pr:1" "p" "history" 36 "pr:1" "p:history:0:pr:1").
  - evaluates.
  - evaluates.
  - evaluates.
  - evaluates.
Defined.

Lemma symbol_ids_identify_witness :
  "fn" = "fn" ∧ "src/a.rs" = "src/a.rs" ∧ "A::b" = "A::b" ∧ 12 = 12.
Proof.
  apply (symbol_ids_identify "fn" "fn" None (Some "A::b") "src/a.rs" "src/a.rs" "A::b" "A::b" 12 12); evaluates.
Defined.

Lemma doc_ids_identify_witness :
  ("a.rs" = "a.rs" ∧ 1 = 1 ∧ 9 = 9 ∧ "00" = "00") ∨
  ∃ x y, x ≠ y ∧ blake3_hex (Blake3 := toy_blake3) x = blake3_hex (Blake3 := toy_blake3) y.
Proof. apply (doc_ids_identify (H := toy_blake3) "a.rs" "a.rs" 1 1 9 9 "00" "00"); evaluates. Defined.

Lemma content_hash_ignores_line_endings_witness :
  let hash := content_hash_compute (H := toy_blake3) in
  let text := "a" +:+ str1 LF +:+ "b" in
  hash (to_crlf text) = hash text ∧
  ∀ t, hash t = blake3_hex (Blake3 := toy_blake3) (normalize_newlines t) ∧
       contains_char CR (normalize_newlines t) = false.
Proof.
  intros hash text. apply (content_hash_ignores_line_endings (H := toy_blake3) text). evaluates.
Defined.
