(* ===== verification/Checkpoint.v ===== *)
(** [engram_core::checkpoint]: the durable checkpoints from which interrupted
    jobs resume. *)
From S2P Require Import Prelude Text Store Records Concrete.

Open Scope N_scope.

(** * Definitions *)

Inductive JobPhase :=
  | Scanning | Parsing | TantivyIndexing | VectorIndexing | GraphBuilding | PostProcessing
  | Completed | Failed | Cancelled.
#[export] Instance JobPhase_eq_dec : EqDecision JobPhase.
Proof. solve_decision. Defined.

(** [Display for JobPhase]. *)
Definition phase_text (ph : JobPhase) : string :=
  match ph with
  | Scanning => "scanning" | Parsing => "parsing" | TantivyIndexing => "tantivy_indexing"
  | VectorIndexing => "vector_indexing" | GraphBuilding => "graph_building"
  | PostProcessing => "post_processing" | Completed => "completed" | Failed => "failed"
  | Cancelled => "cancelled"
  end.

Inductive CancellationOutcome := CancelledWithTombstone | CancelledWithoutTombstone.

Record Checkpoint := {
  cp_job_id : string;
  cp_project_id : string;
  phase : JobPhase;
  items_processed : N;
  items_total : N;
  cp_generation : N;
  idempotency_key : string;
  resume_state : option string;
  cp_updated_at_ms : N;
  cp_error : option string;
}.

Definition set_phase (cp : Checkpoint) (ph : JobPhase) : Checkpoint :=
  {| cp_job_id := cp_job_id cp; cp_project_id := cp_project_id cp; phase := ph;
     items_processed := items_processed cp; items_total := items_total cp;
     cp_generation := cp_generation cp; idempotency_key := idempotency_key cp;
     resume_state := resume_state cp; cp_updated_at_ms := cp_updated_at_ms cp; cp_error := cp_error cp |}.

(** The phases that end a job: [Completed | Failed | Cancelled]. *)
Definition is_finished (cp : Checkpoint) : bool :=
  match phase cp with Completed | Failed | Cancelled => true | _ => false end.
Definition is_resumable (cp : Checkpoint) : bool := negb (is_finished cp).

(** The table of checkpoints and the codec of its rows. *)
Class CheckpointEnv := {
  ck_redb :: Redb string;
  ck_json :: Json Checkpoint;
  ck_blake3 :: Blake3;
}.

(** The bytes of [compute_idempotency_key]. *)
Definition idempotency_input (p dir : string) (generation : N) : string :=
  p +:+ str1 NUL +:+ dir +:+ str1 NUL +:+ show_u64 generation.

Definition newer (a b : Checkpoint) : Prop := cp_updated_at_ms b <= cp_updated_at_ms a.
#[export] Instance newer_dec : RelDecision newer :=
  λ a b, decide (cp_updated_at_ms b <= cp_updated_at_ms a).

Section checkpoint.
Context `{CK : !CheckpointEnv}.

Notation Store := (Table string bytes).

Definition compute_idempotency_key (p dir : string) (generation : N) : string :=
  blake3_hex (idempotency_input p dir generation).

(** [table.iter()] in key order. *)
Definition checkpoint_rows (db : Store) : list (string * bytes) := sort_rows (map_to_list db).

Definition put (cp : Checkpoint) : Store → Store * result () :=
  write_tx (_ ← tx_insert (cp_job_id cp) (to_vec cp); mret (Commit tt)).

Definition get (job_id : string) (db : Store) : result (option Checkpoint) :=
  transpose from_slice (db !! job_id).

(** The scan of [find_resumable]: the first of the newest candidates. *)
Fixpoint find_newest (p : string) (rows : list (string * bytes)) (best : option Checkpoint)
  : result (option Checkpoint) :=
  match rows with
  | [] => Ok best
  | (_, v) :: rest =>
      cp ← from_slice v;
      find_newest p rest
        (if String.eqb (cp_project_id cp) p && is_resumable cp
            && match best with Some b => cp_updated_at_ms b <? cp_updated_at_ms cp | None => true end
         then Some cp else best)
  end.
Definition find_resumable (p : string) (db : Store) : result (option Checkpoint) :=
  find_newest p (checkpoint_rows db) None.

Fixpoint find_key (k : string) (rows : list (string * bytes)) : result (option Checkpoint) :=
  match rows with
  | [] => Ok None
  | (_, v) :: rest =>
      cp ← from_slice v;
      if String.eqb (idempotency_key cp) k then Ok (Some cp) else find_key k rest
  end.
Definition find_by_idempotency_key (k : string) (db : Store) : result (option Checkpoint) :=
  find_key k (checkpoint_rows db).

Definition tombstone (job_id : string) (db : Store) : Store * CancellationOutcome :=
  match get job_id db with
  | Ok (Some cp) =>
      match put (set_phase cp Cancelled) db with
      | (db', Ok _) => (db', CancelledWithTombstone)
      | (db', Fail _) => (db', CancelledWithoutTombstone)
      end
  | _ => (db, CancelledWithoutTombstone)
  end.

Definition remove (job_id : string) : Store → Store * result () :=
  write_tx (_ ← tx_remove job_id; mret (Commit tt)).

Definition list_all (db : Store) : result (list Checkpoint) :=
  cps ← result_traverse (λ kv, from_slice kv.2) (checkpoint_rows db);
  Ok (stable_sort newer cps).

(** [now.saturating_sub(max_age_ms)]. *)
Definition cutoff (now max_age_ms : N) : N := now - max_age_ms.
Definition expired (cut : N) (cp : Checkpoint) : bool := is_finished cp && (cp_updated_at_ms cp <? cut).

Definition cleanup_old (now max_age_ms : N) : Store → Store * result N :=
  write_tx (
    rows ← tx_read checkpoint_rows;
    cps ← lift (result_traverse (λ kv, cp ← from_slice kv.2; Ok (kv.1, cp)) rows);
    let to_remove := (filter (λ kc : string * Checkpoint, expired (cutoff now max_age_ms) kc.2 = true) cps).*1 in
    _ ← tx_modify (λ db, foldl (λ db k, delete k db) db to_remove);
    mret (Commit (N.of_nat (length to_remove)))).

(** Every row is the checkpoint of its key, as [put] stores it. *)
Definition keyed (db : Store) : Prop :=
  ∀ k v, db !! k = Some v → ∃ cp, from_slice v = Ok cp ∧ cp_job_id cp = k.

(** A candidate of [find_resumable]. *)
Definition candidate (p : string) (db : Store) (cp : Checkpoint) : Prop :=
  (∃ k v, db !! k = Some v ∧ from_slice v = Ok cp) ∧ cp_project_id cp = p ∧ is_resumable cp = true.

(** * Lemmas *)

(** Case analysis on the test of a conditional, in the goal or a hypothesis. *)
Ltac split_if E :=
  match goal with
  | |- context [if ?c then _ else _] => destruct c eqn:E
  | _ : context [if ?c then _ else _] |- _ => destruct c eqn:E
  end.

Lemma elem_of_checkpoint_rows (db : Store) k v : (k, v) ∈ checkpoint_rows db ↔ db !! k = Some v.
Proof. unfold checkpoint_rows. by rewrite sort_rows_perm, elem_of_map_to_list. Qed.

Lemma NoDup_checkpoint_rows (db : Store) : NoDup (checkpoint_rows db).*1.
Proof. unfold checkpoint_rows. rewrite sort_rows_perm. apply NoDup_fst_map_to_list. Qed.

Lemma put_eq cp (db : Store) : put cp db = (<[cp_job_id cp := to_vec cp]> db, Ok tt).
Proof. done. Qed.

Lemma keyed_put cp (db : Store) : keyed db → keyed (put cp db).1.
Proof.
  intros Hk k v. rewrite put_eq. simpl. intros [[<- <-]|[_ Hv]]%lookup_insert_Some; [| by apply Hk].
  exists cp. split; [apply from_slice_to_vec | done].
Qed.

Lemma find_newest_spec p rows best out :
  (∀ b, best = Some b → cp_project_id b = p ∧ is_resumable b = true) →
  find_newest p rows best = Ok out →
  match out with
  | Some cp =>
      (best = Some cp ∨ (∃ k v, (k, v) ∈ rows ∧ from_slice v = Ok cp)) ∧
      cp_project_id cp = p ∧ is_resumable cp = true ∧
      (∀ b, best = Some b → cp_updated_at_ms b <= cp_updated_at_ms cp) ∧
      (∀ k v cp', (k, v) ∈ rows → from_slice v = Ok cp' → cp_project_id cp' = p → is_resumable cp' = true →
         cp_updated_at_ms cp' <= cp_updated_at_ms cp)
  | None => best = None ∧
      ∀ k v cp', (k, v) ∈ rows → from_slice v = Ok cp' → cp_project_id cp' = p → is_resumable cp' = false
  end.
Proof.
  revert best. induction rows as [|[k v] rows IH]; intros best Hb H.
  { injection H as <-. destruct best as [b|]; [| split; [done | set_solver]].
    destruct (Hb b eq_refl). split_and!; [by left | done | done | | set_solver]. intros ? [= <-]. lia. }
  cbn [find_newest] in H. apply result_bind_Ok in H as (cp & Hcp & H).
  match type of H with find_newest _ _ ?b = _ => set (best' := b) in H end.
  assert (Hb' : ∀ b, best' = Some b → cp_project_id b = p ∧ is_resumable b = true).
  { unfold best'. intros b. split_if E; [| apply Hb]. intros [= <-].
    apply andb_true_iff in E as [[E1%String.eqb_eq E2]%andb_true_iff _]. done. }
  specialize (IH best' Hb' H). destruct out as [out|].
  - destruct IH as (Hfrom & Hp & Hr & Hbest & Hrows).
    assert (Hold : ∀ b, best = Some b → cp_updated_at_ms b <= cp_updated_at_ms out).
    { intros b ->. unfold best' in Hbest. split_if E; [| by apply Hbest].
      apply andb_true_iff in E as [_ E%N.ltb_lt]. specialize (Hbest cp eq_refl). lia. }
    split_and!; [| done | done | done |].
    + destruct Hfrom as [Hf|(k' & v' & Hin & Hf)]; [| right; exists k', v'; split; [set_solver | done]].
      unfold best' in Hf. split_if E; [| by left]. injection Hf as <-. right. exists k, v. split; [set_solver | done].
    + intros k' v' cp' [[= -> ->]|Hin]%elem_of_cons Hd Hp' Hr'; [| by eapply Hrows].
      rewrite Hcp in Hd. injection Hd as <-. unfold best' in Hbest.
      rewrite Hp', String.eqb_refl, Hr' in Hbest. simpl in Hbest. destruct best as [b|]; [| by apply Hbest].
      destruct (N.ltb_spec (cp_updated_at_ms b) (cp_updated_at_ms cp)); [by apply Hbest |].
      specialize (Hold b eq_refl). lia.
  - destruct IH as [Hn Hrows]. unfold best' in Hn. split_if E; [done |]. split; [done |].
    intros k' v' cp' [[= -> ->]|Hin]%elem_of_cons Hd Hp'; [| by eapply Hrows].
    rewrite Hcp in Hd. injection Hd as <-. rewrite Hn, Hp', String.eqb_refl in E. simpl in E.
    by rewrite andb_true_r in E.
Qed.

Lemma find_newest_total p (rows : list (string * bytes)) best :
  (∀ k v, (k, v) ∈ rows → ∃ cp : Checkpoint, from_slice v = Ok cp) → ∃ out, find_newest p rows best = Ok out.
Proof.
  revert best. induction rows as [|[k v] rows IH]; intros best Hr; [by exists best |].
  destruct (Hr k v) as [cp Hcp]; [set_solver |]. cbn [find_newest]. rewrite Hcp. simpl.
  apply IH. intros k' v' Hin. apply (Hr k' v'). set_solver.
Qed.

Lemma lookup_delete_store (db : Store) ks k :
  foldl (λ db k, delete k db) db ks !! k = if decide (k ∈ ks) then None else db !! k.
Proof.
  revert db. induction ks as [|k' ks IH]; intros db; cbn [foldl]; [by rewrite decide_False by set_solver |].
  rewrite IH. destruct (decide (k ∈ ks)); [by rewrite decide_True by set_solver |].
  destruct (decide (k = k')) as [->|Hne].
  - by rewrite lookup_delete_eq, decide_True by set_solver.
  - rewrite lookup_delete_ne by done. by rewrite decide_False by set_solver.
Qed.

(** * Theorems *)

(** A job resumes from the right place: over stored checkpoints that can
    be read, [find_resumable] returns a stored checkpoint of the project that
    is neither completed, failed nor cancelled and is the newest of these, and
    returns none only when there is none. *)
Theorem find_resumable_is_newest p db :
  keyed db →
  ∃ out, find_resumable p db = Ok out ∧
    match out with
    | Some cp => candidate p db cp ∧ ∀ cp', candidate p db cp' → cp_updated_at_ms cp' <= cp_updated_at_ms cp
    | None => ∀ cp', ¬ candidate p db cp'
    end.
Proof.
  intros Hk. destruct (find_newest_total p (checkpoint_rows db) None) as [out Hout].
  { intros k v Hin%elem_of_checkpoint_rows. destruct (Hk _ _ Hin) as (cp & ? & _). eauto. }
  exists out. split; [done |]. apply find_newest_spec in Hout; [| done]. destruct out as [cp|].
  - destruct Hout as ([?|(k & v & Hin%elem_of_checkpoint_rows & Hd)] & Hp & Hr & _ & Hmax); [done |].
    split; [split_and!; eauto |]. intros cp' ((k' & v' & Hin' & Hd') & Hp' & Hr').
    eapply Hmax; [by apply elem_of_checkpoint_rows | done | done | done].
  - destruct Hout as [_ Hnone]. intros cp' ((k' & v' & Hin' & Hd') & Hp' & Hr').
    eapply elem_of_checkpoint_rows, Hnone in Hin'; [| done | done]. congruence.
Qed.

(** A tombstoned job never resumes: cancelling a stored job writes the
    tombstone, keeps every other checkpoint, and no resume lookup returns the
    job afterwards. *)
Theorem tombstoned_job_never_resumes jid cp db :
  keyed db → get jid db = Ok (Some cp) →
  ∃ db', tombstone jid db = (db', CancelledWithTombstone) ∧ keyed db' ∧
    get jid db' = Ok (Some (set_phase cp Cancelled)) ∧
    (∀ k, k ≠ jid → db' !! k = db !! k) ∧
    ∀ p cp', find_resumable p db' = Ok (Some cp') → cp_job_id cp' ≠ jid.
Proof.
  intros Hk Hg.
  assert (Hid : cp_job_id cp = jid).
  { unfold get in Hg. apply transpose_Ok in Hg. destruct (db !! jid) as [v|] eqn:E; [| done].
    destruct Hg as (cp1 & Hd & [= ->]). destruct (Hk _ _ E) as (cp2 & Hd2 & Hid). congruence. }
  unfold tombstone. rewrite Hg, put_eq. eexists. split; [done |].
  pose proof (keyed_put (set_phase cp Cancelled) db Hk) as Hk'. rewrite put_eq in Hk'. simpl in Hk'.
  simpl. rewrite Hid in *. split_and!; [done | | |].
  - unfold get. rewrite lookup_insert_eq. simpl. by rewrite from_slice_to_vec.
  - intros k Hne. by rewrite lookup_insert_ne.
  - intros p cp' Hf%find_newest_spec; [| done]. destruct Hf as ([?|(k & v & Hin & Hd)] & _ & Hr & _); [done |].
    apply elem_of_checkpoint_rows in Hin. destruct (Hk' _ _ Hin) as (cp2 & Hd2 & Hid2).
    rewrite Hd in Hd2. injection Hd2 as <-. intros Hj. rewrite Hj in Hid2. subst k.
    rewrite lookup_insert_eq in Hin. injection Hin as <-. rewrite from_slice_to_vec in Hd. by injection Hd as <-.
Qed.

(** Cleanup removes exactly the finished checkpoints older than the
    cutoff: no job that can still resume is ever dropped. *)
Theorem cleanup_keeps_resumable_jobs now max_age db :
  keyed db →
  ∃ db' n, cleanup_old now max_age db = (db', Ok n) ∧
    (∀ k v cp, db !! k = Some v → from_slice v = Ok cp →
       db' !! k = if is_finished cp && (cp_updated_at_ms cp <? cutoff now max_age) then None else Some v) ∧
    (∀ k, db !! k = None → db' !! k = None).
Proof.
  intros Hk. unfold cleanup_old, write_tx.
  assert (Htot : ∃ cps, result_traverse (λ kv : string * bytes, cp ← from_slice kv.2; Ok (kv.1, cp))
    (checkpoint_rows db) = Ok (cps : list (string * Checkpoint))).
  { assert (Hall : ∀ kv, kv ∈ checkpoint_rows db → ∃ cp : Checkpoint, from_slice kv.2 = Ok cp).
    { intros [k v] Hin%elem_of_checkpoint_rows. destruct (Hk _ _ Hin) as (cp & ? & _). eauto. }
    revert Hall. generalize (checkpoint_rows db). intros l. induction l as [|kv l IH]; intros Hall; [by eexists |].
    destruct (Hall kv) as [cp Hcp]; [set_solver |]. destruct IH as [cps Hcps]; [intros; apply Hall; set_solver |].
    cbn [result_traverse]. rewrite Hcp. cbn [mbind result_bind]. rewrite Hcps. by eexists. }
  destruct Htot as [cps Hcps].
  rewrite (tx_bind_eq (tx_read checkpoint_rows) _ db (checkpoint_rows db) db) by done.
  rewrite (tx_lift_bind_eq _ _ _ cps) by done. erewrite (tx_bind_eq (tx_modify _)) by done.
  do 2 eexists. split; [done |]. apply result_traverse_Ok in Hcps.
  assert (Hmem : ∀ k cp, (k, cp) ∈ cps ↔ ∃ v, db !! k = Some v ∧ from_slice v = Ok cp).
  { intros k cp. split.
    - intros Hin. destruct (Forall2_elem_r _ _ _ _ Hcps Hin) as ([k' v] & Hin' & Hd). simpl in Hd.
      apply result_bind_Ok in Hd as (cp' & Hd & [= <- <-]). exists v. by rewrite <-elem_of_checkpoint_rows.
    - intros (v & Hv & Hd). apply elem_of_checkpoint_rows in Hv.
      destruct (Forall2_elem_l _ _ _ _ Hcps Hv) as ([k' cp'] & Hin & Hd'). simpl in Hd'.
      rewrite Hd in Hd'. by injection Hd' as <- <-. }
  split.
  - intros k v cp Hv Hd. rewrite lookup_delete_store. fold (expired (cutoff now max_age) cp).
    destruct (decide (k ∈ _)) as [Hin|Hn].
    + apply list_elem_of_fmap in Hin as ([k' cp'] & -> & [He Hin]%list_elem_of_filter). simpl in *.
      apply Hmem in Hin as (v' & Hv' & Hd'). assert (cp' = cp) as -> by congruence. by rewrite He.
    + destruct (expired (cutoff now max_age) cp) eqn:He; [| done]. destruct Hn.
      apply list_elem_of_fmap. exists (k, cp). split; [done |]. apply list_elem_of_filter. split; [done |].
      apply Hmem. eauto.
  - intros k Hv. rewrite lookup_delete_store. by case_decide.
Qed.

End checkpoint.

(** * Witnesses *)

(** A concrete store: the fields of a checkpoint as texts. *)
Definition all_phases : list JobPhase :=
  [Scanning; Parsing; TantivyIndexing; VectorIndexing; GraphBuilding; PostProcessing; Completed; Failed; Cancelled].
Definition read_phase (s : string) : JobPhase :=
  default Failed (head (filter (λ ph, phase_text ph = s) all_phases)).
Definition read_N (s : string) : N := match countable_from_slice s with Ok n => n | Fail _ => 0 end.
Definition option_to_list (o : option string) : list string := match o with Some s => [s] | None => [] end.
Definition checkpoint_to_vec (cp : Checkpoint) : bytes :=
  write_fields [cp_job_id cp; cp_project_id cp; phase_text (phase cp); countable_to_vec (items_processed cp);
                countable_to_vec (items_total cp); countable_to_vec (cp_generation cp); idempotency_key cp;
                write_fields (option_to_list (resume_state cp)); countable_to_vec (cp_updated_at_ms cp);
                write_fields (option_to_list (cp_error cp))].
Definition checkpoint_from_slice (s : bytes) : result Checkpoint :=
  match read_fields s with
  | Some [j; p; ph; a; b; g; k; r; u; e] =>
      Ok (Build_Checkpoint j p (read_phase ph) (read_N a) (read_N b) (read_N g) k
            (read_fields r ≫= head) (read_N u) (read_fields e ≫= head))
  | _ => Fail SerdeError
  end.
Lemma checkpoint_round_trip cp : checkpoint_from_slice (checkpoint_to_vec cp) = Ok cp.
Proof.
  assert (Ho : ∀ o, (read_fields (write_fields (option_to_list o)) ≫= head) = o)
    by (intros []; by rewrite read_write_fields).
  unfold checkpoint_from_slice, checkpoint_to_vec. rewrite read_write_fields. unfold read_N.
  rewrite !Ho, !countable_round_trip. destruct cp as [? ? [] ? ? ? ? ? ? ?]; done.
Qed.
Definition concrete_checkpoints : CheckpointEnv :=
  {| ck_redb := gmap_redb;
     ck_json := {| to_vec := checkpoint_to_vec; from_slice := checkpoint_from_slice;
                   from_slice_to_vec := checkpoint_round_trip |};
     ck_blake3 := toy_blake3 |}.

Section witnesses.
#[local] Existing Instance concrete_checkpoints.

Definition demo_checkpoint (j : string) (ph : JobPhase) (t : N) : Checkpoint :=
  {| cp_job_id := j; cp_project_id := "p"; phase := ph; items_processed := 4; items_total := 9;
     cp_generation := 2; idempotency_key := compute_idempotency_key "p" "/d" 2;
     resume_state := Some "left"; cp_updated_at_ms := t; cp_error := None |}.
(** Two jobs to resume and a completed one that is newer. *)
Definition demo_store : Table string bytes :=
  foldl (λ db cp, (put cp db).1) ∅
    [demo_checkpoint "j1" Parsing 10; demo_checkpoint "j2" GraphBuilding 20; demo_checkpoint "j3" Completed 5].

Lemma demo_store_keyed : keyed demo_store.
Proof. unfold demo_store. cbn [foldl]. do 3 apply keyed_put. by intros k v Hv%lookup_empty_Some. Qed.

Lemma find_resumable_is_newest_witness :
  ∃ out, find_resumable "p" demo_store = Ok out ∧
    match out with
    | Some cp => candidate "p" demo_store cp ∧
                 ∀ cp', candidate "p" demo_store cp' → cp_updated_at_ms cp' <= cp_updated_at_ms cp
    | None => ∀ cp', ¬ candidate "p" demo_store cp'
    end.
Proof. apply find_resumable_is_newest. exact demo_store_keyed. Defined.

Lemma tombstoned_job_never_resumes_witness :
  ∃ db', tombstone "j2" demo_store = (db', CancelledWithTombstone) ∧ keyed db' ∧
    get "j2" db' = Ok (Some (set_phase (demo_checkpoint "j2" GraphBuilding 20) Cancelled)) ∧
    (∀ k, k ≠ "j2" → db' !! k = demo_store !! k) ∧
    ∀ p cp', find_resumable p db' = Ok (Some cp') → cp_job_id cp' ≠ "j2".
Proof.
  apply tombstoned_job_never_resumes; [exact demo_store_keyed |]. evaluates.
Defined.

Lemma cleanup_keeps_resumable_jobs_witness :
  ∃ db' n, cleanup_old 1000 900 demo_store = (db', Ok n) ∧
    (∀ k v cp, demo_store !! k = Some v → from_slice v = Ok cp →
       db' !! k = if is_finished cp && (cp_updated_at_ms cp <? cutoff 1000 900) then None else Some v) ∧
    (∀ k, demo_store !! k = None → db' !! k = None).
Proof. apply cleanup_keeps_resumable_jobs. exact demo_store_keyed. Defined.
End witnesses.
