(* ===== verification/F64.v ===== *)
(** The floating-point numbers of the decision code: IEEE binary64 with the
    rounding of the hardware, as the standard library's specification of it
    computes, the [f64] methods the code calls, and the printing of
    [format!]'s [{:.N}]. *)
From Stdlib Require Export Floats.SpecFloat.
From S2P Require Import Prelude Text.

(** * Definitions *)

Definition f64 : Type := spec_float.
Definition f32 : Type := spec_float.

(** [n as f64]: rounded to nearest, ties to even. *)
Definition f64_of_Z (n : Z) : f64 := binary_normalize 53 1024 n 0 false.
Definition f64_of_N (n : N) : f64 := f64_of_Z (Z.of_N n).

(** [x as f64] of an [f32]: every [f32] is an [f64]. *)
Definition f64_of_f32 (x : f32) : f64 :=
  match x with
  | S754_finite s m e => binary_round 53 1024 s m e
  | _ => x
  end.

Definition f64_add (x y : f64) : f64 := SFadd 53 1024 x y.
Definition f64_sub (x y : f64) : f64 := SFsub 53 1024 x y.
Definition f64_mul (x y : f64) : f64 := SFmul 53 1024 x y.
Definition f64_div (x y : f64) : f64 := SFdiv 53 1024 x y.
Definition f64_neg (x : f64) : f64 := SFopp x.

(** The literal of the decimal fraction [n / d]: for [n] and [d] that are
    doubles themselves, the quotient is the double nearest to the fraction. *)
Definition f64_lit (n d : Z) : f64 := f64_div (f64_of_Z n) (f64_of_Z d).

Definition f64_lt (x y : f64) : bool := SFltb x y.
Definition f64_le (x y : f64) : bool := SFleb x y.
Definition f64_is_nan (x : f64) : bool := match x with S754_nan => true | _ => false end.

(** [f64::min], [f64::max]: the other operand for a NaN. *)
Definition f64_min (x y : f64) : f64 :=
  if f64_is_nan x then y else if f64_is_nan y then x else if f64_lt y x then y else x.
Definition f64_max (x y : f64) : f64 :=
  if f64_is_nan x then y else if f64_is_nan y then x else if f64_lt x y then y else x.
(** [f64::clamp]: a NaN stays a NaN. *)
Definition f64_clamp (x lo hi : f64) : f64 :=
  let x := if f64_lt x lo then lo else x in
  if f64_lt hi x then hi else x.

(** [x as u64]: toward zero, saturating; a NaN is zero. *)
Definition f64_to_u64 (x : f64) : N :=
  match x with
  | S754_finite false m (Zneg k) => N.min (N.pos m / 2 ^ N.pos k) u64_max
  | S754_finite false m e => N.min (N.pos m * 2 ^ Z.to_N e) u64_max
  | S754_infinity false => u64_max
  | _ => 0%N
  end.

Definition f64_zero : f64 := S754_zero false.
Definition f64_one : f64 := f64_of_Z 1.

(** [Iterator::sum::<f64>()], which starts from [-0.0]. *)
Definition f64_sum (l : list f64) : f64 := foldl f64_add (S754_zero true) l.

(** ** Binary32 *)

Definition f32_of_N (n : N) : f32 := binary_normalize 24 128 (Z.of_N n) 0 false.
Definition f32_add (x y : f32) : f32 := SFadd 24 128 x y.
Definition f32_sub (x y : f32) : f32 := SFsub 24 128 x y.
Definition f32_mul (x y : f32) : f32 := SFmul 24 128 x y.
Definition f32_div (x y : f32) : f32 := SFdiv 24 128 x y.
Definition f32_max (x y : f32) : f32 := f64_max x y.
Definition f32_lt (x y : f32) : bool := SFltb x y.
(** [x as f32]. *)
Definition f32_of_f64 (x : f64) : f32 :=
  match x with
  | S754_finite s m e => binary_round 24 128 s m e
  | _ => x
  end.

(** ** Parsing *)

Fixpoint span_digits (s : string) : string * string :=
  match s with
  | String c s' => if is_ascii_digit c then let '(ds, rest) := span_digits s' in (String c ds, rest) else ("", s)
  | "" => ("", "")
  end.
Definition digits_N (s : string) : N := default 0%N (digits_value s 0).
Definition split_sign (s : string) : bool * string :=
  match s with
  | String "+" s' => (false, s')
  | String "-" s' => (true, s')
  | _ => (false, s)
  end.
(** What may follow the mantissa: nothing, or an exponent with a digit. *)
Definition parse_exponent (s : string) : option Z :=
  match s with
  | "" => Some 0%Z
  | String c s' =>
      if Ascii.eqb c "e" || Ascii.eqb c "E" then
        let '(neg, s') := split_sign s' in
        match span_digits s' with
        | ("", _) => None
        | (ds, "") => Some (if neg then - Z.of_N (digits_N ds) else Z.of_N (digits_N ds))%Z
        | _ => None
        end
      else None
  end.
(** The [f32] nearest to [m * 10^e], ties to even. *)
Definition f32_of_decimal (neg : bool) (m : N) (e : Z) : f32 :=
  match m with
  | N0 => S754_zero neg
  | Npos _ =>
      let '(num, den) := match e with Zneg k => (m, (10 ^ Npos k)%N) | _ => ((m * 10 ^ Z.to_N e)%N, 1%N) end in
      let '(mz, ez, lz) := SFdiv_core_binary 24 128 (Z.of_N num) 0 (Z.of_N den) 0 in
      binary_round_aux 24 128 neg mz ez lz
  end.
(** [str::parse::<f32>().ok()]. *)
Definition parse_f32 (s : string) : option f32 :=
  let '(neg, s) := split_sign s in
  let lower := string_map (λ c, let n := N_of_ascii c in
    if (65 <=? n)%N && (n <=? 90)%N then ascii_of_N (n + 32) else c) s in
  if String.eqb lower "inf" || String.eqb lower "infinity" then Some (S754_infinity neg)
  else if String.eqb lower "nan" then Some S754_nan
  else
    let '(int, rest) := span_digits s in
    let '(frac, rest) := match rest with String "." r => span_digits r | _ => ("", rest) end in
    match int, frac with
    | "", "" => None
    | _, _ =>
        e ← parse_exponent rest;
        Some (f32_of_decimal neg (digits_N (int +:+ frac)) (e - Z.of_nat (String.length frac)))
    end.

(** ** Printing *)

(** Decimal of any natural number: it has no more digits than bits. *)
Definition show_N (n : N) : string := show_digits (S (N.size_nat n)) n "".

(** [m * 2^e * 10^d] rounded to an integer, ties to even. *)
Definition scaled (d : N) (m : positive) (e : Z) : N :=
  let n := (N.pos m * 10 ^ d)%N in
  match e with
  | Zneg k =>
      let q := (n / 2 ^ N.pos k)%N in
      let r := (n mod 2 ^ N.pos k)%N in
      match (2 * r ?= 2 ^ N.pos k)%N with
      | Lt => q
      | Eq => if N.even q then q else (q + 1)%N
      | Gt => (q + 1)%N
      end
  | _ => (n * 2 ^ Z.to_N e)%N
  end.

Definition pad_zeros (d : nat) (s : string) : string :=
  foldr String s (replicate (d - String.length s) "0"%char).

Definition show_scaled (d : N) (n : N) : string :=
  if (d =? 0)%N then show_N n
  else show_N (n / 10 ^ d) +:+ "." +:+ pad_zeros (N.to_nat d) (show_N (n mod 10 ^ d)).

(** [format!("{:.d}", x)]. *)
Definition fixed (d : N) (x : f64) : string :=
  match x with
  | S754_nan => "NaN"
  | S754_infinity s => (if s then "-" else "") +:+ "inf"
  | S754_zero s => (if s then "-" else "") +:+ show_scaled d 0
  | S754_finite s m e => (if s then "-" else "") +:+ show_scaled d (scaled d m e)
  end.

(** In the closed unit interval. *)
Definition in_unit (x : f64) : Prop := f64_le f64_zero x = true ∧ f64_le x f64_one = true.

(** * Lemmas *)

Lemma f64_compare_swap x y : SFcompare y x = CompOpp <$> SFcompare x y.
Proof.
  assert (Hp : ∀ p q, Pos.compare_cont Eq q p = CompOpp (Pos.compare_cont Eq p q)).
  { intros p q. apply (Pos.compare_antisym p q). }
  destruct x as [[]|[]| |[] m1 e1], y as [[]|[]| |[] m2 e2]; try reflexivity; simpl.
  - rewrite (Z.compare_antisym e1 e2), (Hp m1 m2). by destruct (Z.compare e1 e2).
  - rewrite (Z.compare_antisym e1 e2), (Hp m1 m2). by destruct (Z.compare e1 e2).
Qed.

Lemma f64_compare_nan x y : SFcompare x y = None → f64_is_nan x = true ∨ f64_is_nan y = true.
Proof. destruct x as [[]|[]| |[]], y as [[]|[]| |[]]; simpl; intros; first [done | by left | by right]. Qed.

(** Of two numbers the smaller is not above the other. *)
Lemma f64_not_lt x y : f64_is_nan x = false → f64_is_nan y = false → f64_lt x y = false → f64_le y x = true.
Proof.
  intros Hx Hy. unfold f64_lt, f64_le, SFltb, SFleb. rewrite (f64_compare_swap x y).
  destruct (SFcompare x y) as [[]|] eqn:E; simpl; [done | done | done |].
  destruct (f64_compare_nan _ _ E); congruence.
Qed.

Lemma f64_clamp_unit x : f64_clamp x f64_zero f64_one = S754_nan ∨ in_unit (f64_clamp x f64_zero f64_one).
Proof.
  unfold f64_clamp. destruct (f64_is_nan x) eqn:Hnan; [left; by destruct x |]. right.
  destruct (f64_lt x f64_zero) eqn:Hlo; [by split; vm_compute |].
  destruct (f64_lt f64_one x) eqn:Hhi; [by split; vm_compute |].
  split; apply f64_not_lt; done || by vm_compute.
Qed.

Lemma f64_le_nan_l x : f64_le S754_nan x = false.
Proof. done. Qed.
Lemma f64_le_nan_r x : f64_le x S754_nan = false.
Proof. by destruct x. Qed.

(** One tenth, rounded up in its last bit; a tie that goes to the even side; and
    what is not a number. *)
Example parse_f32_tenth : parse_f32 "0.1" = Some (S754_finite false 13421773 (-27)).
Proof. vm_compute. reflexivity. Qed.
Example parse_f32_tie : parse_f32 "16777217" = parse_f32 "1.6777216e7".
Proof. vm_compute. reflexivity. Qed.
Example parse_f32_rejects : parse_f32 <$> ["."; "1e"; "1.5x"; ""] = [None; None; None; None].
Proof. vm_compute. reflexivity. Qed.
