(* ===== verification/Memory.v ===== *)
(** [engram_core::memory]: the memory budget the subsystems share. Its counters
    are atomics without a lock, so a call is a sequence of atomic accesses that
    other threads interleave with; the operations are given both as the code
    reads and as the steps of a thread. The accesses of all threads are taken to
    happen in one order. Metrics and log lines are left out. *)
From S2P Require Import Prelude Text F64.

Open Scope N_scope.

(** * Definitions *)

Inductive MemoryDecision := Allowed | SoftPressure | Rejected.
Inductive Subsystem := Tantivy | LanceDb | GraphStore | DocStore | ParseBuffer | Misc.
#[export] Instance MemoryDecision_eq_dec : EqDecision MemoryDecision.
Proof. solve_decision. Defined.
#[export] Instance Subsystem_eq_dec : EqDecision Subsystem.
Proof. solve_decision. Defined.
Definition subsystem_name (s : Subsystem) : string :=
  match s with
  | Tantivy => "Tantivy" | LanceDb => "LanceDb" | GraphStore => "Graph" | DocStore => "DocStore"
  | ParseBuffer => "ParseBuffer" | Misc => "Misc"
  end.
Definition subsystems : list Subsystem := [Tantivy; LanceDb; GraphStore; DocStore; ParseBuffer; Misc].

Definition DEFAULT_BUDGET_BYTES : N := 2 * 1024 * 1024 * 1024.
Definition SOFT_LIMIT_RATIO : f64 := f64_lit 4 5.

(** [MemoryBudgetInner]. *)
Record MemoryBudget := {
  budget : N;
  used : N;
  pressure_active : bool;
  subsystem_counter : Subsystem → N;
}.
Definition new_budget (budget_bytes : N) : MemoryBudget :=
  {| budget := if budget_bytes =? 0 then DEFAULT_BUDGET_BYTES else budget_bytes;
     used := 0; pressure_active := false; subsystem_counter := λ _, 0 |}.

(** [AtomicU64::fetch_add] and [fetch_sub] wrap around. *)
Definition wrapping_add (a b : N) : N := (a + b) mod 2 ^ 64.
Definition wrapping_sub (a b : N) : N := (a + (2 ^ 64 - b)) mod 2 ^ 64.
Definition saturating_add (a b : N) : N := N.min (a + b) u64_max.

Definition soft_limit (budget : N) : N := f64_to_u64 (f64_mul (f64_of_N budget) SOFT_LIMIT_RATIO).

(** One access each. *)
Definition set_used (n : N) (m : MemoryBudget) : MemoryBudget :=
  {| budget := budget m; used := n; pressure_active := pressure_active m; subsystem_counter := subsystem_counter m |}.
Definition set_pressure (b : bool) (m : MemoryBudget) : MemoryBudget :=
  {| budget := budget m; used := used m; pressure_active := b; subsystem_counter := subsystem_counter m |}.
Definition set_counter (s : Subsystem) (n : N) (m : MemoryBudget) : MemoryBudget :=
  {| budget := budget m; used := used m; pressure_active := pressure_active m;
     subsystem_counter := λ t, if decide (t = s) then n else subsystem_counter m t |}.
Definition set_budget (budget_bytes : N) (m : MemoryBudget) : MemoryBudget :=
  {| budget := budget_bytes; used := used m; pressure_active := pressure_active m; subsystem_counter := subsystem_counter m |}.
Definition add_counter (s : Subsystem) (bytes : N) (m : MemoryBudget) : MemoryBudget :=
  set_counter s (wrapping_add (subsystem_counter m s) bytes) m.
Definition sub_counter (s : Subsystem) (bytes : N) (m : MemoryBudget) : MemoryBudget :=
  set_counter s (wrapping_sub (subsystem_counter m s) bytes) m.
Definition is_under_pressure (m : MemoryBudget) : bool := pressure_active m.

(** ** A call, when no other thread runs *)

(** The closure of [fetch_update]. *)
Definition admit_bytes (budget bytes current : N) : option N :=
  let new_used := saturating_add current bytes in
  if budget <? new_used then None else Some new_used.
Definition try_allocate (bytes : N) (subsystem : Subsystem) (m : MemoryBudget) : MemoryBudget * MemoryDecision :=
  match admit_bytes (budget m) bytes (used m) with
  | None => (set_pressure true m, Rejected)
  | Some new_used =>
      let m := add_counter subsystem bytes (set_used new_used m) in
      if soft_limit (budget m) <? new_used then (set_pressure true m, SoftPressure)
      else (set_pressure false m, Allowed)
  end.
Definition release (bytes : N) (subsystem : Subsystem) (m : MemoryBudget) : MemoryBudget :=
  let new_used := used m - bytes in
  let m := sub_counter subsystem bytes (set_used (wrapping_sub (used m) bytes) m) in
  if new_used <=? soft_limit (budget m) then set_pressure false m else m.

(** [AllocationGuard]: what was granted, to be released by its drop. *)
Record AllocationGuard := { guard_bytes : N; guard_subsystem : Subsystem }.
Definition try_new (bytes : N) (subsystem : Subsystem) (operation : string) (m : MemoryBudget)
  : MemoryBudget * result AllocationGuard :=
  let '(m, decision) := try_allocate bytes subsystem m in
  (m, match decision with
      | Rejected => Fail (Bail "memory budget exceeded for {operation}: requested={}B, used={}B, budget={}B, subsystem={:?}"
                            [operation; show_u64 bytes; show_u64 (used m); show_u64 (budget m); subsystem_name subsystem])
      | _ => Ok {| guard_bytes := bytes; guard_subsystem := subsystem |}
      end).
Definition drop_guard (g : AllocationGuard) (m : MemoryBudget) : MemoryBudget :=
  release (guard_bytes g) (guard_subsystem g) m.

Record MemoryBreakdown := {
  total_used : N;
  total_budget : N;
  by_subsystem : list (Subsystem * N);
  under_pressure : bool;
}.
Definition breakdown (m : MemoryBudget) : MemoryBreakdown :=
  {| total_used := used m; total_budget := budget m;
     by_subsystem := (λ s, (s, subsystem_counter m s)) <$> subsystems; under_pressure := pressure_active m |}.

(** ** The accesses of a thread *)

(** Where a thread is: before an access of [try_allocate], holding a guard, or
    before an access of [release]. *)
Inductive Thread :=
  | Idle
  | AllocBudget (bytes : N) (s : Subsystem)
  | AllocUsed (bytes : N) (s : Subsystem) (limit : N)
  | AllocCas (bytes : N) (s : Subsystem) (limit current : N)
  | AllocReject (bytes : N)
  | AllocCount (bytes : N) (s : Subsystem) (limit new_used : N)
  | AllocFlag (bytes : N) (s : Subsystem) (limit new_used : N)
  | Held (bytes : N) (s : Subsystem)
  | ReleaseUsed (bytes : N) (s : Subsystem)
  | ReleaseCount (bytes : N) (s : Subsystem) (new_used : N)
  | ReleaseBudget (new_used : N)
  | ReleaseFlag (limit new_used : N).

(** The next access. The exchange of [fetch_update] may fail on its own, and
    then tries again with the value it saw. *)
Inductive access : Thread → MemoryBudget → Thread → MemoryBudget → Prop :=
  | load_budget bytes s m : access (AllocBudget bytes s) m (AllocUsed bytes s (budget m)) m
  | load_used bytes s limit m : access (AllocUsed bytes s limit) m (AllocCas bytes s limit (used m)) m
  | refuse bytes s limit current m :
      admit_bytes limit bytes current = None →
      access (AllocCas bytes s limit current) m (AllocReject bytes) m
  | exchange bytes s limit current new_used m :
      admit_bytes limit bytes current = Some new_used → used m = current →
      access (AllocCas bytes s limit current) m (AllocCount bytes s limit new_used) (set_used new_used m)
  | exchange_again bytes s limit current new_used m :
      admit_bytes limit bytes current = Some new_used →
      access (AllocCas bytes s limit current) m (AllocCas bytes s limit (used m)) m
  | flag_rejected bytes m : access (AllocReject bytes) m Idle (set_pressure true m)
  | count_up bytes s limit new_used m :
      access (AllocCount bytes s limit new_used) m (AllocFlag bytes s limit new_used) (add_counter s bytes m)
  | flag_granted bytes s limit new_used m :
      access (AllocFlag bytes s limit new_used) m (Held bytes s) (set_pressure (soft_limit limit <? new_used) m)
  | drop_held bytes s m : access (Held bytes s) m (ReleaseUsed bytes s) m
  | subtract bytes s m :
      access (ReleaseUsed bytes s) m (ReleaseCount bytes s (used m - bytes)) (set_used (wrapping_sub (used m) bytes) m)
  | count_down bytes s new_used m :
      access (ReleaseCount bytes s new_used) m (ReleaseBudget new_used) (sub_counter s bytes m)
  | reload_budget new_used m : access (ReleaseBudget new_used) m (ReleaseFlag (budget m) new_used) m
  | flag_released limit new_used m :
      access (ReleaseFlag limit new_used) m Idle (if new_used <=? soft_limit limit then set_pressure false m else m).

(** The budget with the threads that use it. *)
Record System := { shared : MemoryBudget; threads : list Thread }.
(** A thread starts a request of a [u64], a thread makes its next access, or the
    budget is set, to at most [most]. *)
Inductive step (most : N) : System → System → Prop :=
  | request m ts i bytes s :
      ts !! i = Some Idle → bytes <= u64_max →
      step most {| shared := m; threads := ts |} {| shared := m; threads := <[i := AllocBudget bytes s]> ts |}
  | run m m' ts i t t' :
      ts !! i = Some t → access t m t' m' →
      step most {| shared := m; threads := ts |} {| shared := m'; threads := <[i := t']> ts |}
  | configure m ts budget_bytes :
      budget_bytes <= most →
      step most {| shared := m; threads := ts |} {| shared := set_budget budget_bytes m; threads := ts |}.
Definition start (budget_bytes : N) (n : nat) : System :=
  {| shared := new_budget budget_bytes; threads := replicate n Idle |}.
Definition reachable (most budget_bytes : N) (n : nat) : System → Prop := rtc (step most) (start budget_bytes n).

(** A schedule: the requests, and who makes its next access. *)
Inductive Event := Request (i : nat) (bytes : N) (s : Subsystem) | Run (i : nat).
Definition next_access (t : Thread) (m : MemoryBudget) : option (Thread * MemoryBudget) :=
  match t with
  | Idle => None
  | AllocBudget bytes s => Some (AllocUsed bytes s (budget m), m)
  | AllocUsed bytes s limit => Some (AllocCas bytes s limit (used m), m)
  | AllocCas bytes s limit current =>
      match admit_bytes limit bytes current with
      | None => Some (AllocReject bytes, m)
      | Some new_used =>
          if used m =? current then Some (AllocCount bytes s limit new_used, set_used new_used m)
          else Some (AllocCas bytes s limit (used m), m)
      end
  | AllocReject _ => Some (Idle, set_pressure true m)
  | AllocCount bytes s limit new_used => Some (AllocFlag bytes s limit new_used, add_counter s bytes m)
  | AllocFlag bytes s limit new_used => Some (Held bytes s, set_pressure (soft_limit limit <? new_used) m)
  | Held bytes s => Some (ReleaseUsed bytes s, m)
  | ReleaseUsed bytes s => Some (ReleaseCount bytes s (used m - bytes), set_used (wrapping_sub (used m) bytes) m)
  | ReleaseCount bytes s new_used => Some (ReleaseBudget new_used, sub_counter s bytes m)
  | ReleaseBudget new_used => Some (ReleaseFlag (budget m) new_used, m)
  | ReleaseFlag limit new_used => Some (Idle, if new_used <=? soft_limit limit then set_pressure false m else m)
  end.
Definition exec (y : System) (e : Event) : System :=
  match e with
  | Request i bytes s =>
      match threads y !! i with
      | Some Idle => if bytes <=? u64_max then {| shared := shared y; threads := <[i := AllocBudget bytes s]> (threads y) |} else y
      | _ => y
      end
  | Run i =>
      match threads y !! i ≫= λ t, next_access t (shared y) with
      | Some (t, m) => {| shared := m; threads := <[i := t]> (threads y) |}
      | None => y
      end
  end.

(** * Lemmas *)

(** The bytes of a thread that [used] counts, and those a counter counts. *)
Definition committed (t : Thread) : N :=
  match t with
  | AllocCount bytes _ _ _ | AllocFlag bytes _ _ _ | Held bytes _ | ReleaseUsed bytes _ => bytes
  | _ => 0
  end.
Definition counted (s : Subsystem) (t : Thread) : N :=
  match t with
  | AllocFlag bytes s' _ _ | Held bytes s' | ReleaseUsed bytes s' | ReleaseCount bytes s' _ =>
      if decide (s' = s) then bytes else 0
  | _ => 0
  end.
(** What a thread remembers, where it matters. *)
Definition remembers (most : N) (t : Thread) : Prop :=
  match t with
  | AllocUsed _ _ limit | AllocCas _ _ limit _ => limit <= most
  | ReleaseCount bytes _ _ => bytes <= most
  | _ => True
  end.
Definition total (f : Thread → N) (ts : list Thread) : N := foldr (λ t acc, f t + acc) 0 ts.

Lemma total_cons f t ts : total f (t :: ts) = f t + total f ts.
Proof. done. Qed.
Lemma total_insert f ts i t t' :
  ts !! i = Some t → total f (<[i := t']> ts) + f t = total f ts + f t'.
Proof.
  revert i. induction ts as [|u ts IH]; intros i H; [done |]. destruct i as [|i].
  - injection H as ->. change (<[0%nat := t']> (t :: ts)) with (t' :: ts). rewrite !total_cons. lia.
  - change (<[S i := t']> (u :: ts)) with (u :: <[i := t']> ts). rewrite !total_cons. specialize (IH i H). lia.
Qed.
Lemma total_elem f ts t : t ∈ ts → f t <= total f ts.
Proof.
  induction ts as [|u ts IH]; [by intros ?%elem_of_nil |]. rewrite total_cons.
  intros [->|Ht%IH]%elem_of_cons; lia.
Qed.
Lemma total_zero f ts : (∀ t, t ∈ ts → f t = 0) → total f ts = 0.
Proof.
  induction ts as [|t ts IH]; intros H; cbn; [done |]. rewrite H by left. unfold total in IH.
  rewrite IH; [done |]. intros u Hu. apply H. by right.
Qed.

(** The account: [used] is what the threads have committed, within the limit, and
    each counter is what they have counted. *)
Record Account (most : N) (y : System) : Prop := {
  account_used : used (shared y) = total committed (threads y);
  account_limit : used (shared y) <= most;
  account_counter : ∀ s, subsystem_counter (shared y) s = total (counted s) (threads y) mod 2 ^ 64;
  account_budget : budget (shared y) <= most;
  account_memory : Forall (remembers most) (threads y);
}.

Lemma wrapping_sub_exact a b : b <= a → a <= u64_max → wrapping_sub a b = a - b.
Proof.
  unfold wrapping_sub, u64_max. intros Hba Ha. replace (a + (2 ^ 64 - b)) with ((a - b) + 1 * 2 ^ 64) by lia.
  rewrite N.Div0.mod_add. apply N.mod_small. lia.
Qed.
Lemma admit_bytes_Some limit bytes current n :
  admit_bytes limit bytes current = Some n → limit < u64_max → n = current + bytes ∧ n <= limit.
Proof.
  unfold admit_bytes, saturating_add. intros H Hl.
  destruct (N.ltb_spec limit (N.min (current + bytes) u64_max)); [done |]. injection H as <-. lia.
Qed.
Lemma wrapping_add_mod a b x : a = x mod 2 ^ 64 → wrapping_add a b = (x + b) mod 2 ^ 64.
Proof. intros ->. unfold wrapping_add. by rewrite N.Div0.add_mod_idemp_l. Qed.
Lemma wrapping_sub_mod a b x : a = (x + b) mod 2 ^ 64 → b <= u64_max → wrapping_sub a b = x mod 2 ^ 64.
Proof.
  intros -> Hb. unfold wrapping_sub. rewrite N.Div0.add_mod_idemp_l.
  replace (x + b + (2 ^ 64 - b)) with (x + 1 * 2 ^ 64) by (unfold u64_max in Hb; lia). apply N.Div0.mod_add.
Qed.

(** ** Every access keeps the account *)

Section account.
Context (most : N) (Hmost : most < u64_max).

Lemma access_account m ts i t t' m' :
  Account most {| shared := m; threads := ts |} → ts !! i = Some t → access t m t' m' →
  Account most {| shared := m'; threads := <[i := t']> ts |}.
Proof.
  intros [Hu Hl Hc Hb Hm] Hi Ha. cbn [shared threads] in *.
  pose proof (total_insert committed ts i t t' Hi) as Htot.
  assert (Ht : remembers most t) by (rewrite Forall_lookup in Hm; eauto).
  assert (Hle : committed t <= used m) by (rewrite Hu; by eapply total_elem, list_elem_of_lookup_2).
  assert (Hct : ∀ s, total (counted s) (<[i := t']> ts) + counted s t = total (counted s) ts + counted s t')
    by (intros s; by apply total_insert).
  inversion Ha; subst; cbn [committed remembers] in *.
  (* Most accesses change neither the account nor what is counted. *)
  all: try (split; cbn [shared threads used budget subsystem_counter set_pressure];
       [lia | done | intros u; specialize (Hct u); cbn [counted] in Hct; rewrite Hc; f_equal; lia | done
       | apply Forall_insert; done]).
  - destruct (admit_bytes_Some limit bytes (used m) new_used) as [-> Hn]; [done | lia |].
    split; cbn [shared threads used budget subsystem_counter set_used]; [lia | lia | | done | by apply Forall_insert].
    intros u. specialize (Hct u). cbn [counted] in Hct. rewrite Hc. f_equal. lia.
  - split; cbn [shared threads used budget subsystem_counter add_counter set_counter]; [lia | done | | done | by apply Forall_insert].
    intros u. specialize (Hct u). cbn [counted] in Hct. destruct (decide (u = s)) as [->|Hne].
    + rewrite decide_True in Hct by done. rewrite (wrapping_add_mod _ _ _ (Hc s)). f_equal. lia.
    + rewrite decide_False in Hct by done. rewrite Hc. f_equal. lia.
  - split; cbn [shared threads used budget subsystem_counter set_used].
    + rewrite wrapping_sub_exact by lia. lia.
    + rewrite wrapping_sub_exact by lia. lia.
    + intros u. specialize (Hct u). cbn [counted] in Hct. rewrite Hc. f_equal. lia.
    + done.
    + apply Forall_insert; [done |]. cbn. lia.
  - split; cbn [shared threads used budget subsystem_counter sub_counter set_counter]; [lia | done | | done | by apply Forall_insert].
    intros u. specialize (Hct u). cbn [counted] in Hct. destruct (decide (u = s)) as [->|Hne].
    + rewrite decide_True in Hct by done. apply wrapping_sub_mod; [| lia]. rewrite Hc. f_equal. lia.
    + rewrite decide_False in Hct by done. rewrite Hc. f_equal. lia.
  - assert (Hsame : ∀ b : bool, Account most {| shared := if b then set_pressure false m else m; threads := <[i := Idle]> ts |}).
    { intros b. split; cbn [shared threads]; [destruct b; cbn; lia | by destruct b | | by destruct b | by apply Forall_insert].
      intros u. specialize (Hct u). cbn [counted] in Hct. destruct b; cbn [subsystem_counter set_pressure]; rewrite Hc; f_equal; lia. }
    apply Hsame.
Qed.

Lemma step_account y y' : Account most y → step most y y' → Account most y'.
Proof.
  intros Hy Hs. destruct Hs as [m ts i bytes s Hi Hb|m m' ts i t t' Hi Ha|m ts b Hb].
  - destruct Hy as [Hu Hl Hc Hbm Hm]. cbn [shared threads] in *.
    pose proof (total_insert committed ts i _ (AllocBudget bytes s) Hi) as Htot. cbn [committed] in Htot.
    split; cbn [shared threads]; [lia | done | | done | by apply Forall_insert]. intros u.
    pose proof (total_insert (counted u) ts i _ (AllocBudget bytes s) Hi) as Hct. cbn [counted] in Hct.
    rewrite Hc. f_equal. lia.
  - by eapply access_account.
  - destruct Hy as [Hu Hl Hc Hbm Hm]. by split.
Qed.

Lemma start_account budget_bytes n : budget (new_budget budget_bytes) <= most → Account most (start budget_bytes n).
Proof.
  intros Hb. assert (Hz : ∀ f, f Idle = 0 → total f (replicate n Idle) = 0).
  { intros f Hf. apply total_zero. by intros t [-> _]%elem_of_replicate. }
  split; cbn [start shared threads]; [by rewrite Hz | cbn; lia | | done | by apply Forall_replicate].
  intros s. rewrite Hz by done. by rewrite N.mod_0_l.
Qed.
End account.

(** ** When no call is under way *)

Definition quiet (t : Thread) : Prop := match t with Idle | Held _ _ => True | _ => False end.
Definition held (s : Subsystem) (t : Thread) : N :=
  match t with Held bytes s' => if decide (s' = s) then bytes else 0 | _ => 0 end.

Definition over_subsystems (f : Subsystem → N) : N := foldr (λ s acc, f s + acc) 0 subsystems.

Lemma quiet_counted s ts : Forall quiet ts → total (counted s) ts = total (held s) ts.
Proof. induction 1 as [|t ts Ht _ IH]; [done |]. rewrite !total_cons, IH. by destruct t. Qed.
Lemma held_committed ts : Forall quiet ts → over_subsystems (λ s, total (held s) ts) = total committed ts.
Proof.
  induction 1 as [|t ts Ht _ IH]; [done |]. unfold over_subsystems, subsystems, foldr in *. rewrite !total_cons, <-IH.
  destruct t as [| | | | | | |bytes s| | | |]; try done; cbn [held committed].
  destruct s; repeat case_decide; first [congruence | lia].
Qed.
Lemma held_le s ts : Forall quiet ts → total (held s) ts <= total committed ts.
Proof.
  induction 1 as [|t ts Ht _ IH]; [done |]. rewrite !total_cons. destruct t; cbn [held committed] in *; try done; try lia.
  case_decide; lia.
Qed.

(** * Theorems *)

(** C33. On every interleaving of the accesses of any number of threads, whatever
    budgets up to a limit are configured meanwhile, the bytes in use are exactly
    those that were granted and not given back, and never pass the limit. When no
    call is under way each subsystem's counter is what its guards hold, and the
    counters add up to the bytes in use; nothing is left when all are dropped. *)
Theorem budget_is_never_exceeded most budget_bytes n y :
  most < u64_max → budget (new_budget budget_bytes) <= most → reachable most budget_bytes n y →
  used (shared y) = total committed (threads y) ∧ used (shared y) <= most ∧
  (Forall quiet (threads y) →
     (∀ s, subsystem_counter (shared y) s = total (held s) (threads y)) ∧
     over_subsystems (subsystem_counter (shared y)) = used (shared y)).
Proof.
  intros Hmost Hb Hr. assert (Hy : Account most y).
  { revert Hr. unfold reachable. apply rtc_ind_r; [by apply start_account | intros ? ? _ ? ?; by eapply step_account]. }
  destruct Hy as [Hu Hl Hc _ _]. split_and!; [done | done |]. intros Hq.
  assert (Hs : ∀ s, subsystem_counter (shared y) s = total (held s) (threads y)).
  { intros s. rewrite Hc, quiet_counted by done. apply N.mod_small. pose proof (held_le s _ Hq). unfold u64_max in Hmost. lia. }
  split; [done |]. rewrite Hu, <-held_committed by done. unfold over_subsystems. cbn [foldr subsystems]. by rewrite !Hs.
Qed.

(** Granting and giving back, when no other thread runs: a request is refused
    exactly when it does not fit, refusing changes only the flag, and what a
    guard was granted its drop gives back. *)
Theorem allocation_is_given_back bytes s m :
  used m + bytes < u64_max → budget m < u64_max → bytes <= subsystem_counter m s + bytes < 2 ^ 64 →
  let '(m', decision) := try_allocate bytes s m in
  (decision = Rejected ↔ budget m < used m + bytes) ∧
  (decision = Rejected → m' = set_pressure true m) ∧
  (decision ≠ Rejected →
     used m' = used m + bytes ∧ pressure_active m' = bool_decide (decision = SoftPressure) ∧
     used (release bytes s m') = used m ∧ budget (release bytes s m') = budget m ∧
     ∀ t, subsystem_counter (release bytes s m') t = subsystem_counter m t).
Proof.
  intros Hu Hb Hc. unfold try_allocate, admit_bytes, saturating_add. rewrite N.min_l by lia.
  destruct (N.ltb_spec (budget m) (used m + bytes)) as [Hlt|Hge]; [done |].
  assert (Hback : ∀ b, let m' := set_pressure b (add_counter s bytes (set_used (used m + bytes) m)) in
    used (release bytes s m') = used m ∧ budget (release bytes s m') = budget m ∧
    ∀ t, subsystem_counter (release bytes s m') t = subsystem_counter m t).
  { intros b m'. assert (Hrel : ∀ m0 : MemoryBudget, ∀ c : bool, used (if c then set_pressure false m0 else m0) = used m0 ∧
      budget (if c then set_pressure false m0 else m0) = budget m0 ∧
      subsystem_counter (if c then set_pressure false m0 else m0) = subsystem_counter m0) by (by intros ? []).
    unfold release. destruct (Hrel (sub_counter s bytes (set_used (wrapping_sub (used m') bytes) m'))
      (used m' - bytes <=? soft_limit (budget (sub_counter s bytes (set_used (wrapping_sub (used m') bytes) m'))))) as (-> & -> & ->).
    cbn. split_and!; [| done |].
    - rewrite wrapping_sub_exact by lia. lia.
    - intros t. unfold wrapping_add. destruct (decide (t = s)) as [->|]; [| done]. rewrite decide_True by done.
      rewrite N.mod_small by lia. rewrite wrapping_sub_exact; unfold u64_max; lia. }
  destruct (soft_limit _ <? _); (split; [split; [done | intros; exfalso; lia] | split; [done | intros _]]);
    (split; [done | split; [done | apply Hback]]).
Qed.

(** * Witnesses *)

Lemma next_access_sound t m t' m' : next_access t m = Some (t', m') → access t m t' m'.
Proof.
  destruct t; cbn [next_access]; try (intros [= <- <-]; constructor).
  destruct (admit_bytes _ _ _) eqn:Ha; [| by intros [= <- <-]; constructor].
  destruct (N.eqb_spec (used m) current); intros [= <- <-]; [by constructor | by eapply exchange_again].
Qed.
Lemma exec_steps most es y : rtc (step most) y (foldl exec y es).
Proof.
  revert y. induction es as [|e es IH]; intros y; [apply rtc_refl |]. cbn [foldl]. transitivity (exec y e); [| apply IH].
  destruct y as [m ts]. destruct e as [i bytes s|i]; cbn [exec threads shared].
  - destruct (ts !! i) as [[]|] eqn:Hi; try apply rtc_refl. destruct (N.leb_spec bytes u64_max); [| apply rtc_refl].
    by apply rtc_once, request.
  - destruct (ts !! i) as [t|] eqn:Hi; [| apply rtc_refl]. cbn [mbind option_bind].
    destruct (next_access t m) as [[t' m']|] eqn:Ht; [| apply rtc_refl].
    eapply rtc_once, run; [done | by apply next_access_sound].
Qed.

(** A thread that frees fifty bytes is overtaken, before it clears the flag, by
    one that takes ninety of a hundred. *)
Definition overtaken : list Event :=
  Request 0 50 Misc :: replicate 5 (Run 0) ++ replicate 4 (Run 0) ++
  Request 1 90 Misc :: replicate 5 (Run 1) ++ [Run 0].
Definition overtaken_end : System := foldl exec (start 100 2) overtaken.

(** No call is under way and more than the soft limit is in use, but the flag
    says that there is no pressure. *)
Theorem pressure_flag_can_be_stale :
  reachable 100 100 2 overtaken_end ∧ threads overtaken_end = [Idle; Held 90 Misc] ∧
  soft_limit (budget (shared overtaken_end)) < used (shared overtaken_end) ∧
  is_under_pressure (shared overtaken_end) = false.
Proof. split; [apply exec_steps |]. vm_compute. done. Qed.

Lemma budget_is_never_exceeded_witness :
  used (shared overtaken_end) = total committed (threads overtaken_end) ∧ used (shared overtaken_end) <= 100 ∧
  (Forall quiet (threads overtaken_end) →
     (∀ s, subsystem_counter (shared overtaken_end) s = total (held s) (threads overtaken_end)) ∧
     over_subsystems (subsystem_counter (shared overtaken_end)) = used (shared overtaken_end)).
Proof. apply (budget_is_never_exceeded 100 100 2 overtaken_end); [done | done | apply exec_steps]. Defined.

Lemma allocation_is_given_back_witness :
  let m := new_budget 1000 in
  let '(m', decision) := try_allocate 900 Tantivy m in
  (decision = Rejected ↔ budget m < used m + 900) ∧
  (decision = Rejected → m' = set_pressure true m) ∧
  (decision ≠ Rejected →
     used m' = used m + 900 ∧ pressure_active m' = bool_decide (decision = SoftPressure) ∧
     used (release 900 Tantivy m') = used m ∧ budget (release 900 Tantivy m') = budget m ∧
     ∀ t, subsystem_counter (release 900 Tantivy m') t = subsystem_counter m t).
Proof. intros m. apply (allocation_is_given_back 900 Tantivy m); vm_compute; done. Defined.

Example demo_soft_limit : soft_limit 1000000 = 800000 ∧ (try_allocate 850000 Tantivy (new_budget 1000000)).2 = SoftPressure.
Proof. vm_compute. done. Qed.
