(* ===== verification/Safety.v ===== *)
(** [engram_server::services::safety_service]: the safety policy an automated
    edit is evaluated against. *)
From S2P Require Import Prelude Text F64.

Open Scope N_scope.

(** * Definitions *)

Inductive RiskLevel := RiskLow | RiskMedium | RiskHigh | RiskCritical.
#[export] Instance RiskLevel_eq_dec : EqDecision RiskLevel.
Proof. solve_decision. Defined.

(** [Display for RiskLevel]. *)
Definition risk_level_text (r : RiskLevel) : string :=
  match r with RiskLow => "low" | RiskMedium => "medium" | RiskHigh => "high" | RiskCritical => "critical" end.

Record PolicyCheck := {
  check_name : string;
  check_passed : bool;
  score : f64;
  threshold : f64;
  check_detail : string;
}.

Record PolicyDecision := {
  allowed : bool;
  risk_level : RiskLevel;
  checks : list PolicyCheck;
  pd_confidence : f64;
  summary : string;
  mitigations : list string;
}.

Record SafetyEvalRequest := {
  req_project_id : string;
  affected_files : list string;
  refactor_type : string;
  impact_node_count : N;
  impact_confidence : f64;
  test_coverage : f64;
  anti_pattern_clear : bool;
  downstream_dependents : N;
  touches_global_state : bool;
  touches_database : bool;
}.

(** The two counters of the process the policy keeps. *)
Record SafetyMetrics := { refactors_approved : N; refactors_blocked : N }.
(** [Counter::inc]: [fetch_add] wraps. *)
Definition counter_inc (n : N) : N := (n + 1) mod (u64_max + 1).
Definition count_approved (m : SafetyMetrics) : SafetyMetrics :=
  {| refactors_approved := counter_inc (refactors_approved m); refactors_blocked := refactors_blocked m |}.
Definition count_blocked (m : SafetyMetrics) : SafetyMetrics :=
  {| refactors_approved := refactors_approved m; refactors_blocked := counter_inc (refactors_blocked m) |}.

Definition compute_risk_level (req : SafetyEvalRequest) : RiskLevel :=
  let files := N.of_nat (length (affected_files req)) in
  let s1 := if files <=? 3 then 0 else if files <=? 10 then 1 else if files <=? 30 then 2 else 3 in
  let d := downstream_dependents req in
  let s2 := if d <=? 5 then 0 else if d <=? 20 then 1 else if d <=? 50 then 2 else 3 in
  let s3 := if touches_global_state req then 2 else 0 in
  let s4 := if touches_database req then 2 else 0 in
  let s5 := if f64_lt (impact_confidence req) (f64_lit 5 10) then 2
            else if f64_lt (impact_confidence req) (f64_lit 7 10) then 1 else 0 in
  let score := s1 + s2 + s3 + s4 + s5 in
  if score <=? 2 then RiskLow else if score <=? 5 then RiskMedium else if score <=? 8 then RiskHigh else RiskCritical.

(** The tests of the six checks. *)
Definition impact_passed (req : SafetyEvalRequest) (min_confidence : f64) : bool :=
  f64_le min_confidence (impact_confidence req).
Definition coverage_known (req : SafetyEvalRequest) : bool := f64_le f64_zero (test_coverage req).
Definition coverage_passed (req : SafetyEvalRequest) (min_coverage : f64) : bool :=
  coverage_known req && f64_le min_coverage (test_coverage req).
Definition blast_radius_ok (req : SafetyEvalRequest) : bool := downstream_dependents req <=? 50.
Definition state_safe (req : SafetyEvalRequest) : bool :=
  negb (touches_global_state req) || f64_le (f64_lit 9 10) (impact_confidence req).
Definition db_safe (req : SafetyEvalRequest) : bool :=
  negb (touches_database req)
  || f64_le (f64_lit 9 10) (impact_confidence req) && f64_le (f64_lit 8 10) (test_coverage req).

Definition percent (x : f64) : string := fixed 1 (f64_mul x (f64_of_Z 100)) +:+ "%".

(** The checks, in the order they are pushed; each failed one blocks. *)
Definition safety_checks (req : SafetyEvalRequest) (min_confidence min_coverage : f64) : list PolicyCheck :=
  [{| check_name := "impact_confidence"; check_passed := impact_passed req min_confidence;
      score := impact_confidence req; threshold := min_confidence;
      check_detail := "Impact analysis confidence: " +:+ fixed 2 (impact_confidence req)
        +:+ " (threshold: " +:+ fixed 2 min_confidence +:+ ")" |};
   {| check_name := "test_coverage"; check_passed := coverage_passed req min_coverage;
      score := f64_max (test_coverage req) f64_zero; threshold := min_coverage;
      check_detail :=
        if coverage_known req then
          "Test coverage of affected files: " +:+ percent (test_coverage req)
          +:+ " (threshold: " +:+ percent min_coverage +:+ ")"
        else "Test coverage unknown — coverage gate is fail-closed; measure coverage or use a policy override (ENG-AUD-2026-EXH-P1-0005)" |};
   {| check_name := "anti_pattern_clear"; check_passed := anti_pattern_clear req;
      score := if anti_pattern_clear req then f64_one else f64_zero; threshold := f64_one;
      check_detail := if anti_pattern_clear req then "No known anti-patterns in affected files"
                      else "Anti-pattern guard flagged issues in affected files" |};
   {| check_name := "blast_radius"; check_passed := blast_radius_ok req;
      score := if blast_radius_ok req then f64_one else f64_lit 3 10; threshold := f64_lit 5 10;
      check_detail := "Downstream dependents: " +:+ show_N (downstream_dependents req) +:+ " (max safe: 50)" |};
   {| check_name := "global_state_safety"; check_passed := state_safe req;
      score := if state_safe req then f64_one else f64_lit 2 10; threshold := f64_lit 5 10;
      check_detail := if touches_global_state req
                      then "Edit touches global state — requires high impact confidence"
                      else "Edit does not touch global state" |};
   {| check_name := "database_safety"; check_passed := db_safe req;
      score := if db_safe req then f64_one else f64_lit 1 10; threshold := f64_lit 5 10;
      check_detail := if touches_database req
                      then "Edit touches database — requires high confidence AND coverage"
                      else "Edit does not touch database queries" |}].

(** The mitigation pushed for a failed check. *)
Definition mitigation_for (c : PolicyCheck) : string :=
  let n := check_name c in
  if String.eqb n "impact_confidence" then
    "Run a deeper impact analysis with more graph hops to improve confidence"
  else if String.eqb n "test_coverage" then "Add or verify tests for affected files before proceeding"
  else if String.eqb n "anti_pattern_clear" then "Review and resolve flagged anti-patterns before refactoring"
  else if String.eqb n "blast_radius" then "Break the refactoring into smaller, incremental changes"
  else if String.eqb n "global_state_safety" then
    "Audit all global state access paths before modifying shared state"
  else if String.eqb n "database_safety" then
    "Create database migration scripts and rollback procedures first"
  else "Review and address: " +:+ check_detail c.

Definition passed_checks (cs : list PolicyCheck) : list PolicyCheck := filter (λ c, check_passed c = true) cs.
Definition failed_checks (cs : list PolicyCheck) : list PolicyCheck := filter (λ c, check_passed c = false) cs.

Definition safety_summary (ok : bool) (passed total : N) (risk : RiskLevel) (ms : list string) : string :=
  if ok then
    "Edit approved: " +:+ show_N passed +:+ "/" +:+ show_N total
    +:+ " checks passed (risk: " +:+ risk_level_text risk +:+ ")"
  else
    "Edit BLOCKED: " +:+ show_N (total - passed) +:+ "/" +:+ show_N total
    +:+ " checks failed (risk: " +:+ risk_level_text risk +:+ "). "
    +:+ (if bool_decide (ms = []) then "" else "See mitigations below.").

(** [evaluate_safety], with the counters of the process as its state. *)
Definition evaluate_safety (req : SafetyEvalRequest) (policy_enabled : bool) (min_confidence min_coverage : f64)
    (m : SafetyMetrics) : SafetyMetrics * PolicyDecision :=
  if negb policy_enabled then
    (count_approved m,
     {| allowed := true; risk_level := RiskLow; checks := []; pd_confidence := f64_one;
        summary := "Safety policy is disabled — edit allowed by default"; mitigations := [] |})
  else
    let cs := safety_checks req min_confidence min_coverage in
    let blocking := existsb (λ c, negb (check_passed c)) cs in
    let risk := compute_risk_level req in
    let passed_count := N.of_nat (length (passed_checks cs)) in
    let total := N.of_nat (length cs) in
    let ms := mitigation_for <$> failed_checks cs in
    let ok := negb blocking in
    ((if ok then count_approved m else count_blocked m),
     {| allowed := ok; risk_level := risk; checks := cs;
        pd_confidence := f64_div (f64_of_N passed_count) (f64_of_N total);
        summary := safety_summary ok passed_count total risk ms; mitigations := ms |}).

(** * Lemmas *)

Lemma existsb_failed cs : existsb (λ c, negb (check_passed c)) cs = false ↔ failed_checks cs = [].
Proof.
  unfold failed_checks. induction cs as [|c cs IH]; [done |]. cbn [existsb].
  destruct (check_passed c) eqn:E; [by rewrite filter_cons_False by congruence |].
  by rewrite filter_cons_True by done.
Qed.

Lemma passed_checks_le cs : (length (passed_checks cs) <= length cs)%nat.
Proof. apply length_filter. Qed.

(** Any share of the six checks is in the unit interval. *)
Lemma share_of_six n : n <= 6 → in_unit (f64_div (f64_of_N n) (f64_of_N 6)).
Proof.
  intros Hn. assert (n = 0 ∨ n = 1 ∨ n = 2 ∨ n = 3 ∨ n = 4 ∨ n = 5 ∨ n = 6) as H by lia.
  destruct H as [->|[->|[->|[->|[->|[->| ->]]]]]]; by split; vm_compute.
Qed.

(** * Theorems *)

(** C38. The safety policy fails closed: with the policy enabled an edit is
    allowed exactly when its impact confidence reaches the minimum, its
    coverage is known and reaches the minimum, no anti-pattern is flagged, at
    most fifty dependents follow, an edit of global state has 0.9 confidence,
    and an edit of the database has that and 0.8 coverage, so a measurement
    that is not a number never allows it. A blocked edit gets one mitigation
    for every failed check and an allowed one none, the confidence is in the
    unit interval, and each evaluation is counted once. *)
Theorem safety_policy_fails_closed req min_confidence min_coverage m :
  let '(m', d) := evaluate_safety req true min_confidence min_coverage m in
  (allowed d = true ↔
     f64_le min_confidence (impact_confidence req) = true ∧
     f64_le f64_zero (test_coverage req) = true ∧ f64_le min_coverage (test_coverage req) = true ∧
     anti_pattern_clear req = true ∧ downstream_dependents req <= 50 ∧
     (touches_global_state req = true → f64_le (f64_lit 9 10) (impact_confidence req) = true) ∧
     (touches_database req = true → f64_le (f64_lit 9 10) (impact_confidence req) = true ∧
                                     f64_le (f64_lit 8 10) (test_coverage req) = true)) ∧
  (f64_is_nan (impact_confidence req) = true ∨ f64_is_nan (test_coverage req) = true → allowed d = false) ∧
  (allowed d = true ↔ mitigations d = []) ∧
  mitigations d = mitigation_for <$> failed_checks (checks d) ∧
  in_unit (pd_confidence d) ∧
  m' = if allowed d then count_approved m else count_blocked m.
Proof.
  unfold evaluate_safety. cbn [negb]. set (cs := safety_checks req min_confidence min_coverage).
  assert (Hiff : existsb (λ c, negb (check_passed c)) cs = false ↔
    impact_passed req min_confidence = true ∧ coverage_passed req min_coverage = true ∧
    anti_pattern_clear req = true ∧ blast_radius_ok req = true ∧ state_safe req = true ∧ db_safe req = true).
  { unfold cs, safety_checks. cbn [existsb check_passed].
    rewrite !orb_false_iff, !negb_false_iff. intuition. }
  assert (Hok : negb (existsb (λ c, negb (check_passed c)) cs) = true ↔
    f64_le min_confidence (impact_confidence req) = true ∧
    f64_le f64_zero (test_coverage req) = true ∧ f64_le min_coverage (test_coverage req) = true ∧
    anti_pattern_clear req = true ∧ downstream_dependents req <= 50 ∧
    (touches_global_state req = true → f64_le (f64_lit 9 10) (impact_confidence req) = true) ∧
    (touches_database req = true → f64_le (f64_lit 9 10) (impact_confidence req) = true ∧
                                    f64_le (f64_lit 8 10) (test_coverage req) = true)).
  { rewrite negb_true_iff, Hiff.
    unfold impact_passed, coverage_passed, coverage_known, blast_radius_ok, state_safe, db_safe.
    rewrite N.leb_le, !orb_true_iff, !andb_true_iff, !negb_true_iff.
    destruct (touches_global_state req), (touches_database req); intuition congruence. }
  assert (Hlen : length cs = 6%nat) by done. clearbody cs.
  cbn [allowed mitigations checks pd_confidence]. split_and!.
  - exact Hok.
  - intros Hnan. apply not_true_iff_false. rewrite Hok. intros (Hi & Hc & _).
    destruct (impact_confidence req), (test_coverage req);
      rewrite ?f64_le_nan_r in Hi; rewrite ?f64_le_nan_r in Hc; destruct Hnan; done.
  - rewrite negb_true_iff, existsb_failed. destruct (failed_checks cs); [done |]. split; done.
  - done.
  - rewrite Hlen. apply share_of_six. pose proof (passed_checks_le cs). lia.
  - done.
Qed.
