(* ===== verification/Decision.v ===== *)
(** [engram_server::services::autonomous_decision_service]: the gates that
    decide whether an autonomous change may be applied, the aggregate
    confidence and the verdict. *)
From S2P Require Import Prelude Text Unicode Store F64 Safety.

Open Scope N_scope.

(** * Data *)

Inductive AdpVerdict := Allow | Deny | Abstain.
#[export] Instance AdpVerdict_eq_dec : EqDecision AdpVerdict.
Proof. solve_decision. Defined.

(** [Display for AdpVerdict]. *)
Definition verdict_text (v : AdpVerdict) : string :=
  match v with Allow => "allow" | Deny => "deny" | Abstain => "abstain" end.

Record GateResult := {
  gate_id : string;
  gate_name : string;
  passed : bool;
  confidence : f64;
  detail : string;
  skipped : bool;
}.

Record AdpDecision := {
  verdict : AdpVerdict;
  d_confidence : f64;
  reasons : list string;
  failed_gates : list string;
  required_followups : list string;
  gate_results : list GateResult;
}.

Inductive RiskProfile := ProfileLow | ProfileMedium | ProfileHigh.
#[export] Instance RiskProfile_eq_dec : EqDecision RiskProfile.
Proof. solve_decision. Defined.

Inductive RiskBand := BandLow | BandMedium | BandHigh | BandCritical.
(** [RiskBand::as_str] of [blast_radius_service]. *)
Definition risk_band_text (b : RiskBand) : string :=
  match b with BandLow => "Low" | BandMedium => "Medium" | BandHigh => "High" | BandCritical => "Critical" end.

Record ReconciliationScores := {
  confirmed_ratio : f64;
  contradicted_ratio : f64;
  confidence_delta : f64;
  static_paths_count : N;
}.

Record GraphImpactMetrics := {
  downstream_dependency_count : N;
  reads_state_count : N;
  writes_state_count : N;
  sql_calls_count : N;
  queries_table_count : N;
  injects_script_count : N;
  join_failed : bool;
}.

Inductive RetrievalMode := Skipped | Cached | Live.
#[export] Instance RetrievalMode_eq_dec : EqDecision RetrievalMode.
Proof. solve_decision. Defined.
(** The derived [Debug]. *)
Definition retrieval_mode_text (m : RetrievalMode) : string :=
  match m with Skipped => "Skipped" | Cached => "Cached" | Live => "Live" end.

Record AdpInput := {
  extraction_confidence : option f64;
  extraction_band : option string;
  trace_used_fallback : bool;
  trace_candidate_count : N;
  safety_decision : option PolicyDecision;
  retrieval_production_ready : option bool;
  retrieval_ndcg : option f64;
  retrieval_recall : option f64;
  blast_radius_risk : option N;
  blast_radius_band : option RiskBand;
  blast_radius_downstream : option N;
  blast_causal_truncated : option bool;
  immune_verdict : option string;
  immune_confidence : option f32;
  require_runtime_evidence : bool;
  has_runtime_evidence : bool;
  risk_profile : RiskProfile;
  min_extraction_confidence : f64;
  min_safety_confidence : f64;
  max_blast_radius_for_auto : N;
  reconciliation : option ReconciliationScores;
  graph_impact : option GraphImpactMetrics;
  retrieval_mode : RetrievalMode;
  migration_class : option string;
}.

(** * The gates *)

Definition bool_text (b : bool) : string := if b then "true" else "false".

Definition evaluate_extraction_confidence_gate (input : AdpInput) : GateResult :=
  match extraction_confidence input with
  | Some score =>
      let threshold := min_extraction_confidence input in
      let ok := f64_le threshold score in
      {| gate_id := "extraction_confidence"; gate_name := "Extraction Confidence"; passed := ok;
         confidence := score;
         detail :=
           if ok then
             "Extraction confidence " +:+ fixed 2 score +:+ " >= threshold " +:+ fixed 2 threshold
             +:+ " (band: " +:+ default "unknown" (extraction_band input) +:+ ")"
           else
             "Extraction confidence " +:+ fixed 2 score +:+ " < threshold " +:+ fixed 2 threshold
             +:+ " — extraction unreliable";
         skipped := false |}
  | None =>
      {| gate_id := "extraction_confidence"; gate_name := "Extraction Confidence"; passed := false;
         confidence := f64_zero; detail := "No extraction confidence data provided"; skipped := true |}
  end.

Definition evaluate_trace_certainty_gate (input : AdpInput) : GateResult :=
  if negb (trace_used_fallback input) && (trace_candidate_count input <=? 1) then
    {| gate_id := "trace_certainty"; gate_name := "Trace Certainty"; passed := true; confidence := f64_one;
       detail := "Trace resolution was deterministic (no fallback candidates)"; skipped := false |}
  else
    let penalty :=
      if 1 <? trace_candidate_count input then
        f64_sub f64_one (f64_min (f64_mul (f64_of_N (trace_candidate_count input)) (f64_lit 2 10)) (f64_lit 8 10))
      else f64_lit 5 10 in
    {| gate_id := "trace_certainty"; gate_name := "Trace Certainty"; passed := false; confidence := penalty;
       detail := "Trace used fallback candidate resolution (" +:+ show_N (trace_candidate_count input)
         +:+ " candidates). Ambiguous control mapping — cannot auto-apply without explicit disambiguation.";
       skipped := false |}.

Definition evaluate_safety_policy_gate (input : AdpInput) : GateResult :=
  match safety_decision input with
  | Some decision =>
      {| gate_id := "safety_policy"; gate_name := "Safety Policy"; passed := allowed decision;
         confidence := pd_confidence decision; detail := summary decision; skipped := false |}
  | None =>
      {| gate_id := "safety_policy"; gate_name := "Safety Policy"; passed := false; confidence := f64_zero;
         detail := "Safety evaluation not performed"; skipped := true |}
  end.

Definition evaluate_retrieval_quality_gate (input : AdpInput) : GateResult :=
  let ndcg := default f64_zero (retrieval_ndcg input) in
  let recall := default f64_zero (retrieval_recall input) in
  match retrieval_production_ready input with
  | Some ready =>
      let raw_conf := f64_min (f64_div (f64_add ndcg recall) (f64_of_Z 2)) f64_one in
      {| gate_id := "retrieval_quality"; gate_name := "Retrieval Quality"; passed := ready;
         confidence := match retrieval_mode input with Cached => f64_mul raw_conf (f64_lit 9 10) | _ => raw_conf end;
         detail := "Retrieval NDCG@10=" +:+ fixed 2 ndcg +:+ ", Recall@10=" +:+ fixed 2 recall
           +:+ ", mode=" +:+ retrieval_mode_text (retrieval_mode input)
           +:+ ", production_ready=" +:+ bool_text ready;
         skipped := false |}
  | None =>
      let is_skipped := bool_decide (retrieval_mode input = Skipped) in
      {| gate_id := "retrieval_quality"; gate_name := "Retrieval Quality"; passed := false;
         confidence := f64_zero;
         detail := if is_skipped then "Retrieval benchmark not run or incomplete; quality is unavailable"
                   else "Retrieval benchmark not run";
         skipped := is_skipped |}
  end.

Definition ADVISORY_CONFIDENCE_CEILING : f64 := f64_lit 6 10.

Definition evaluate_blast_radius_gate (input : AdpInput) : GateResult :=
  match blast_radius_risk input with
  | Some risk =>
      let max_allowed := max_blast_radius_for_auto input in
      let incomplete := default false (blast_causal_truncated input) in
      let ok := (risk <=? max_allowed) && negb incomplete in
      let band := default "unknown" (risk_band_text <$> blast_radius_band input) in
      {| gate_id := "blast_radius"; gate_name := "Blast Radius / Risk"; passed := ok;
         confidence :=
           if ok then
             f64_add (f64_lit 3 10)
               (f64_mul (f64_sub f64_one (f64_div (f64_of_N risk) (f64_of_Z 10)))
                  (f64_sub ADVISORY_CONFIDENCE_CEILING (f64_lit 3 10)))
           else f64_lit 1 10;
         detail := "Migration risk " +:+ show_N risk +:+ "/10 (" +:+ band +:+ ")"
           +:+ (if incomplete then
                  " [CAUSAL COVERAGE INCOMPLETE — score computed from a subset; gate fails on that alone]"
                else "")
           +:+ " — max allowed for auto-apply: " +:+ show_N max_allowed +:+ "/10 (1-hop degree: "
           +:+ show_N (default 0 (blast_radius_downstream input))
           +:+ "). ADVISORY: this is an uncalibrated 1-hop heuristic with capped counts, not a transitive change-impact analysis; confidence is bounded at "
           +:+ fixed 1 ADVISORY_CONFIDENCE_CEILING
           +:+ " and must not be read as authorization for an autonomous edit.";
         skipped := false |}
  | None =>
      {| gate_id := "blast_radius"; gate_name := "Blast Radius / Risk"; passed := false;
         confidence := f64_zero; detail := "Blast radius not computed"; skipped := true |}
  end.

Definition evaluate_anti_pattern_gate (input : AdpInput) : GateResult :=
  match immune_verdict input with
  | Some v =>
      let ok := String.eqb v "PASS" in
      let conf := f64_of_f32 (default f64_zero (immune_confidence input)) in
      {| gate_id := "anti_pattern"; gate_name := "Anti-Pattern Guard"; passed := ok;
         confidence := if ok then f64_sub f64_one conf else conf;
         detail := "Immune verdict: " +:+ v +:+ " (similarity: " +:+ fixed 2 conf +:+ ")";
         skipped := false |}
  | None =>
      {| gate_id := "anti_pattern"; gate_name := "Anti-Pattern Guard"; passed := false;
         confidence := f64_zero; detail := "Anti-pattern check not performed"; skipped := true |}
  end.

Definition compute_reconciliation_confidence (recon : ReconciliationScores) : f64 :=
  if static_paths_count recon =? 0 then f64_zero
  else
    let base := f64_mul (confirmed_ratio recon) (f64_lit 7 10) in
    let penalty := f64_mul (contradicted_ratio recon) (f64_lit 5 10) in
    let uplift := f64_mul (f64_max (confidence_delta recon) f64_zero) (f64_lit 3 10) in
    f64_clamp (f64_add (f64_sub base penalty) uplift) f64_zero f64_one.

Definition evaluate_runtime_evidence_gate (input : AdpInput) : GateResult :=
  if negb (require_runtime_evidence input) then
    {| gate_id := "runtime_evidence"; gate_name := "Runtime Evidence"; passed := true; confidence := f64_one;
       detail := "Runtime evidence not required for this evaluation"; skipped := true |}
  else
    match reconciliation input with
    | Some recon =>
        let c := compute_reconciliation_confidence recon in
        {| gate_id := "runtime_evidence"; gate_name := "Runtime Evidence";
           passed := f64_le (f64_lit 6 10) c && f64_lt (contradicted_ratio recon) (f64_lit 2 10);
           confidence := c;
           detail := "Reconciliation: " +:+ fixed 0 (f64_mul (confirmed_ratio recon) (f64_of_Z 100))
             +:+ "% confirmed, " +:+ fixed 0 (f64_mul (contradicted_ratio recon) (f64_of_Z 100))
             +:+ "% contradicted, delta=" +:+ fixed 2 (confidence_delta recon)
             +:+ ", paths=" +:+ show_N (static_paths_count recon);
           skipped := false |}
    | None =>
        let has := has_runtime_evidence input in
        {| gate_id := "runtime_evidence"; gate_name := "Runtime Evidence"; passed := has;
           confidence := if has then f64_lit 7 10 else f64_zero;
           detail :=
             if has then
               "Runtime evidence available (boolean mode — upgrade to reconciliation for higher confidence)"
             else "Runtime evidence required but not available — deploy instrumentation first";
           skipped := false |}
    end.

(** * The pipeline *)

(** The locals of [evaluate_gates]. *)
Record Acc := {
  a_results : list GateResult;
  a_failed : list string;
  a_reasons : list string;
  a_followups : list string;
  has_hard_deny : bool;
  has_abstain : bool;
}.
Definition start : Acc :=
  {| a_results := []; a_failed := []; a_reasons := []; a_followups := [];
     has_hard_deny := false; has_abstain := false |}.

Definition push_reason (r : string) (a : Acc) : Acc :=
  {| a_results := a_results a; a_failed := a_failed a; a_reasons := a_reasons a ++ [r];
     a_followups := a_followups a; has_hard_deny := has_hard_deny a; has_abstain := has_abstain a |}.
Definition push_followup (f : string) (a : Acc) : Acc :=
  {| a_results := a_results a; a_failed := a_failed a; a_reasons := a_reasons a;
     a_followups := a_followups a ++ [f]; has_hard_deny := has_hard_deny a; has_abstain := has_abstain a |}.
Definition push_failed (g : string) (a : Acc) : Acc :=
  {| a_results := a_results a; a_failed := a_failed a ++ [g]; a_reasons := a_reasons a;
     a_followups := a_followups a; has_hard_deny := has_hard_deny a; has_abstain := has_abstain a |}.
Definition push_result (g : GateResult) (a : Acc) : Acc :=
  {| a_results := a_results a ++ [g]; a_failed := a_failed a; a_reasons := a_reasons a;
     a_followups := a_followups a; has_hard_deny := has_hard_deny a; has_abstain := has_abstain a |}.
Definition hard_deny (a : Acc) : Acc :=
  {| a_results := a_results a; a_failed := a_failed a; a_reasons := a_reasons a;
     a_followups := a_followups a; has_hard_deny := true; has_abstain := has_abstain a |}.
Definition must_abstain (a : Acc) : Acc :=
  {| a_results := a_results a; a_failed := a_failed a; a_reasons := a_reasons a;
     a_followups := a_followups a; has_hard_deny := has_hard_deny a; has_abstain := true |}.

(** One gate: a failure that is not a skip has its consequence and is recorded. *)
Definition gate_failed (g : GateResult) : bool := negb (passed g) && negb (skipped g).
Definition run_gate (g : GateResult) (on_fail : Acc → Acc) (a : Acc) : Acc :=
  push_result g (if gate_failed g then push_failed (gate_id g) (on_fail a) else a).

Definition gate_1 (input : AdpInput) : Acc → Acc :=
  let g := evaluate_extraction_confidence_gate input in
  run_gate g (λ a,
    if bool_decide (is_Some (extraction_confidence input)) then push_reason (detail g) (hard_deny a)
    else push_followup "Run get_extraction_confidence for affected files to provide extraction evidence"
           (must_abstain a)).

Definition gate_2 (input : AdpInput) : Acc → Acc :=
  let g := evaluate_trace_certainty_gate input in
  run_gate g (λ a,
    push_followup "Disambiguate control mapping: provide explicit control_id or handler_fqn"
      (push_reason (detail g) (must_abstain a))).

Definition gate_3 (input : AdpInput) : Acc → Acc :=
  let g := evaluate_safety_policy_gate input in
  run_gate g (λ a,
    if bool_decide (is_Some (safety_decision input)) then push_reason (detail g) (hard_deny a)
    else push_followup "Run evaluate_safety for the proposed change" (must_abstain a)).

Definition gate_4 (input : AdpInput) : Acc → Acc :=
  let g := evaluate_retrieval_quality_gate input in
  run_gate g (λ a,
    if bool_decide (is_Some (retrieval_production_ready input)) then push_reason (detail g) (hard_deny a)
    else push_followup "Run benchmark_retrieval to validate search quality" (must_abstain a)).

Definition gate_5 (input : AdpInput) : Acc → Acc :=
  let g := evaluate_blast_radius_gate input in
  run_gate g (λ a,
    if bool_decide (is_Some (blast_radius_risk input)) then
      push_followup "Blast-radius heuristic exceeded the auto-apply bar — supply causal/runtime evidence (impact_analysis on the changed symbols, tests, or a human review) before applying autonomously"
        (push_reason (detail g +:+ " (advisory: abstain, not deny)") (must_abstain a))
    else push_followup "Run compute_blast_radius on affected files to assess risk" (must_abstain a)).

Definition gate_6 (input : AdpInput) : Acc → Acc :=
  let g := evaluate_anti_pattern_gate input in
  run_gate g (λ a,
    match immune_verdict input with
    | Some v =>
        push_reason (detail g)
          (if String.eqb v "BLOCK" then hard_deny a
           else if bool_decide (risk_profile input ≠ ProfileLow) then must_abstain a else a)
    | None => push_followup "Run immune_check on the proposed code change" (must_abstain a)
    end).

Definition gate_7 (input : AdpInput) : Acc → Acc :=
  let g := evaluate_runtime_evidence_gate input in
  run_gate g (λ a,
    push_followup "Deploy instrumentation pack and collect runtime evidence before auto-applying"
      (push_reason (detail g) (must_abstain a))).

Definition count_skipped (l : list GateResult) : N := N.of_nat (length (filter (λ g, skipped g = true) l)).
Definition applicable (l : list GateResult) : list GateResult := filter (λ g, skipped g = false) l.
Definition count_applicable (l : list GateResult) : N := N.of_nat (length (applicable l)).

(** The meta-gate over the results of the seven gates. *)
Definition evidence_gate (results : list GateResult) : GateResult :=
  let insufficient := count_skipped results in
  let total := count_applicable results in
  {| gate_id := "evidence_sufficiency"; gate_name := "Evidence Sufficiency";
     passed := if total =? 0 then false else insufficient <=? total / 3;
     confidence :=
       if 0 <? total then f64_div (f64_sub (f64_of_N total) (f64_of_N insufficient)) (f64_of_N total)
       else f64_zero;
     detail := show_N (total - insufficient) +:+ " of " +:+ show_N total
       +:+ " applicable gates had sufficient evidence";
     skipped := false |}.

Definition gate_8 (a : Acc) : Acc :=
  let g := evidence_gate (a_results a) in
  push_result g
    (if passed g then a
     else
       let a := must_abstain a in
       if bool_decide (gate_id g ∈ a_failed a) then a else push_failed (gate_id g) a).

Definition gates (input : AdpInput) : Acc :=
  gate_8 (gate_7 input (gate_6 input (gate_5 input (gate_4 input (gate_3 input (gate_2 input
    (gate_1 input start))))))).

(** * The aggregate confidence *)

Definition gate_reliability_weight (id : string) : f64 :=
  if String.eqb id "extraction_confidence" then f64_lit 20 100
  else if String.eqb id "trace_certainty" then f64_lit 15 100
  else if String.eqb id "safety_policy" then f64_lit 25 100
  else if String.eqb id "retrieval_quality" then f64_lit 10 100
  else if String.eqb id "blast_radius" then f64_lit 15 100
  else if String.eqb id "anti_pattern" then f64_lit 10 100
  else if String.eqb id "runtime_evidence" then f64_lit 5 100
  else f64_lit 10 100.

Definition class_threshold_adjustment (class : option string) : f64 :=
  match class with
  | Some c =>
      if String.eqb c "data_access" || String.eqb c "database_migration" then f64_neg (f64_lit 5 100)
      else if String.eqb c "static_asset" || String.eqb c "configuration" then f64_lit 5 100
      else f64_zero
  | None => f64_zero
  end.

Definition interaction_penalty (results : list GateResult) : f64 :=
  let failed id := existsb (λ g, String.eqb (gate_id g) id && gate_failed g) results in
  if failed "safety_policy" && failed "blast_radius" then f64_lit 10 100 else f64_zero.

(** The weighted sum and the sum of the weights. *)
Definition weigh (acc : f64 * f64) (g : GateResult) : f64 * f64 :=
  let w := gate_reliability_weight (gate_id g) in
  (f64_add acc.1 (f64_mul (confidence g) w), f64_add acc.2 w).

Definition aggregate_confidence (class : option string) (results : list GateResult) : f64 :=
  let l := applicable results in
  if bool_decide (l = []) then f64_zero
  else
    let '(weighted_sum, total_weight) := foldl weigh (f64_zero, f64_zero) l in
    let base := if f64_lt f64_zero total_weight then f64_div weighted_sum total_weight else f64_zero in
    f64_clamp (f64_sub (f64_add base (class_threshold_adjustment class)) (interaction_penalty results))
      f64_zero f64_one.

Definition verdict_of (a : Acc) : AdpVerdict :=
  if has_hard_deny a then Deny
  else if has_abstain a || bool_decide (a_failed a ≠ []) then Abstain
  else Allow.

Definition evaluate_gates (input : AdpInput) : AdpDecision :=
  let a := gates input in
  let v := verdict_of a in
  {| verdict := v;
     d_confidence := aggregate_confidence (migration_class input) (a_results a);
     reasons := a_reasons a;
     failed_gates := a_failed a;
     required_followups :=
       if bool_decide (v = Abstain) && bool_decide (a_followups a = [])
       then ["Provide additional evidence for failing gates to proceed"] else a_followups a;
     gate_results := a_results a |}.
