(* ===== verification/Rollout.v ===== *)
(** [engram_server::services::autonomous_decision_service], what is done with
    a decision: the rollout phases and the kill switch, the decision of a
    migration wave, the text of both, and the report kept for audit. *)
From S2P Require Import Prelude Text Unicode Store F64 Safety Decision.

Open Scope N_scope.

Definition nl : string := str1 LF.

(** * Rollout policy *)

Inductive RolloutPhase := Shadow | Advisory | Guarded | Autonomous.
#[export] Instance RolloutPhase_eq_dec : EqDecision RolloutPhase.
Proof. solve_decision. Defined.

(** [RolloutPhase::as_str]. *)
Definition phase_as_str (ph : RolloutPhase) : string :=
  match ph with Shadow => "shadow" | Advisory => "advisory" | Guarded => "guarded" | Autonomous => "autonomous" end.

Section from_str.
Context `{!Lowercase}.

(** The [Err(String)] of these functions is the formatted message. *)
Definition rollout_phase_from_str (s : string) : string + RolloutPhase :=
  let l := to_lowercase s in
  if String.eqb l "shadow" then inr Shadow
  else if String.eqb l "advisory" then inr Advisory
  else if String.eqb l "guarded" then inr Guarded
  else if String.eqb l "autonomous" then inr Autonomous
  else inl ("unknown rollout_phase '" +:+ l +:+ "': must be one of shadow, advisory, guarded, autonomous").

Definition risk_profile_from_str (s : string) : string + RiskProfile :=
  let l := to_lowercase s in
  if String.eqb l "low" then inr ProfileLow
  else if String.eqb l "medium" then inr ProfileMedium
  else if String.eqb l "high" then inr ProfileHigh
  else inl ("unknown risk_profile '" +:+ l +:+ "': must be one of low, medium, high").
End from_str.

(** [decision] with another verdict and one more reason. *)
Definition override_verdict (d : AdpDecision) (v : AdpVerdict) (reason : string) : AdpDecision :=
  {| verdict := v; d_confidence := d_confidence d; reasons := reasons d ++ [reason];
     failed_gates := failed_gates d; required_followups := required_followups d;
     gate_results := gate_results d |}.

Definition SHADOW_MARK : string := "[SHADOW] Original verdict was '".
Definition ADVISORY_MARK : string := "[ADVISORY] Original verdict was '".

Definition apply_rollout_policy (d : AdpDecision) (phase : RolloutPhase) (kill_switch : bool) : AdpDecision :=
  if kill_switch then
    {| verdict := Deny; d_confidence := f64_zero;
       reasons := ["ADP kill-switch is active — all autonomous decisions are denied"];
       failed_gates := ["kill_switch"];
       required_followups := ["Deactivate kill-switch in configuration to resume ADP"];
       gate_results := gate_results d |}
  else
    match phase with
    | Shadow =>
        override_verdict d Allow (SHADOW_MARK +:+ verdict_text (verdict d) +:+ "' — logged only, not enforced")
    | Advisory =>
        match verdict d with
        | Deny | Abstain =>
            override_verdict d Allow
              (ADVISORY_MARK +:+ verdict_text (verdict d) +:+ "' — override to allow with warning")
        | Allow => d
        end
    | Guarded | Autonomous => d
    end.

(** The first reason that records an override, with the text up to the quote. *)
Fixpoint detect_rollout_override (rs : list string) : option (string * string) :=
  match rs with
  | [] => None
  | r :: rest =>
      match strip_prefix SHADOW_MARK r ≫= split_once "'"%char with
      | Some (orig, _) => Some ("shadow", orig)
      | None =>
          match strip_prefix ADVISORY_MARK r ≫= split_once "'"%char with
          | Some (orig, _) => Some ("advisory", orig)
          | None => detect_rollout_override rest
          end
      end
  end.

(** * The decision of a wave *)

Record WaveAdpInput := {
  wave_number : N;
  wave_name : string;
  items : list (string * AdpInput);
  cross_item_deps : N;
}.

Record WaveItemDecision := { file_path : string; decision : AdpDecision }.

Record WaveAdpDecision := {
  w_wave_number : N;
  w_wave_name : string;
  w_verdict : AdpVerdict;
  w_confidence : f64;
  item_decisions : list WaveItemDecision;
  blocking_items : list string;
  interaction_penalties : list string;
}.

(** The loop over the items: the decisions, the blocking files, whether one is
    denied, whether one abstains, and the items with a high blast radius. *)
Record WaveAcc := {
  wa_decisions : list WaveItemDecision;
  wa_blocking : list string;
  wa_deny : bool;
  wa_abstain : bool;
  wa_high_blast : N;
}.
Definition wave_start : WaveAcc :=
  {| wa_decisions := []; wa_blocking := []; wa_deny := false; wa_abstain := false; wa_high_blast := 0 |}.

Definition wave_step (a : WaveAcc) (item : string * AdpInput) : WaveAcc :=
  let d := evaluate_gates item.2 in
  {| wa_decisions := wa_decisions a ++ [{| file_path := item.1; decision := d |}];
     wa_blocking := match verdict d with
                    | Deny | Abstain => wa_blocking a ++ [item.1]
                    | Allow => wa_blocking a
                    end;
     wa_deny := wa_deny a || bool_decide (verdict d = Deny);
     wa_abstain := wa_abstain a || bool_decide (verdict d = Abstain);
     wa_high_blast := if 5 <? default 0 (blast_radius_risk item.2) then wa_high_blast a + 1 else wa_high_blast a |}.

Definition evaluate_wave (input : WaveAdpInput) : WaveAdpDecision :=
  let a := foldl wave_step wave_start (items input) in
  let len := N.of_nat (length (items input)) in
  let high := 3 <? wa_high_blast a in
  let pens_1 :=
    if high then
      [show_N (wa_high_blast a) +:+ " items have blast radius > 5; consider splitting this wave"]
    else [] in
  let pens_2 :=
    if (1 <? len) && (len * 2 <? cross_item_deps input) then
      ["High internal coupling (" +:+ show_N (cross_item_deps input) +:+ " cross-deps for " +:+ show_N len
       +:+ " items); migration order matters"]
    else [] in
  {| w_wave_number := wave_number input; w_wave_name := wave_name input;
     w_verdict := if wa_deny a then Deny else if wa_abstain a || high then Abstain else Allow;
     w_confidence :=
       if bool_decide (wa_decisions a = []) then f64_zero
       else f64_div (f64_sum ((λ i, d_confidence (decision i)) <$> wa_decisions a))
              (f64_of_N (N.of_nat (length (wa_decisions a))));
     item_decisions := wa_decisions a; blocking_items := wa_blocking a;
     interaction_penalties := pens_1 ++ pens_2 |}.

(** * Texts *)

Definition concat_lines {A} (f : A → string) (l : list A) : string := foldr (λ a s, f a +:+ s) "" l.
Definition length_N {A} (l : list A) : N := N.of_nat (length l).

Definition format_wave_decision (d : WaveAdpDecision) : string :=
  "# Wave " +:+ show_N (w_wave_number d) +:+ " — " +:+ w_wave_name d +:+ " ADP Result" +:+ nl +:+ nl
  +:+ "**Verdict:** " +:+ verdict_text (w_verdict d) +:+ nl
  +:+ "**Confidence:** " +:+ fixed 2 (w_confidence d) +:+ nl
  +:+ "**Items:** " +:+ show_N (length_N (item_decisions d)) +:+ nl +:+ nl
  +:+ (if bool_decide (blocking_items d = []) then ""
       else "## Blocking Items" +:+ nl
            +:+ concat_lines (λ b, "- `" +:+ b +:+ "`" +:+ nl) (blocking_items d) +:+ nl)
  +:+ (if bool_decide (interaction_penalties d = []) then ""
       else "## Cross-Item Interaction Penalties" +:+ nl
            +:+ concat_lines (λ p, "- " +:+ p +:+ nl) (interaction_penalties d) +:+ nl)
  +:+ "## Per-Item Results" +:+ nl
  +:+ concat_lines (λ i,
        "### `" +:+ file_path i +:+ "`" +:+ nl
        +:+ "**Verdict:** " +:+ verdict_text (verdict (decision i))
        +:+ " | **Confidence:** " +:+ fixed 2 (d_confidence (decision i)) +:+ nl
        +:+ (if bool_decide (failed_gates (decision i) = []) then ""
             else "Failed gates: " +:+ join ", " (failed_gates (decision i)) +:+ nl)
        +:+ nl) (item_decisions d).

Definition recommendation_for_gate (name : string) : string :=
  let named := String.eqb name in
  if named "blast_radius" || named "blast_radius_threshold" then
    "Scope the change to a specific method rather than the whole file, or run `compute_blast_radius` / `impact_analysis` for the dependency list"
  else if named "evidence_sufficiency" || named "runtime_evidence" then
    "Run `generate_characterization_tests` to establish baseline behavior before changing, or `generate_instrumentation_code` to gather runtime evidence"
  else if named "anti_pattern" || named "anti_pattern_check" then
    "Run `immune_check` with the proposed snippet to see specific anti-pattern matches and their source commits"
  else if named "safety_policy" || named "safety_policy_check" then
    "Review CLAUDE.md conventions for this project and confirm the change complies with the stated safety policy"
  else if named "extraction_confidence" then
    "Run `get_extraction_confidence` for a signal-by-signal breakdown of the confidence score and remediation guidance"
  else if named "trace_certainty" || named "trace_confidence" then
    "Run `trace_ui_event` or `trace_data_flow` against the target symbol to get richer provenance before committing"
  else if named "retrieval_quality" then
    "Re-run `search_memory` with `use_mmr: true` or adjust path filters to surface higher-quality retrieval evidence"
  else if named "kill_switch" then
    "Deactivate the ADP kill-switch in configuration to resume autonomous decisioning"
  else "Investigate this gate's evidence below, or run `get_gate_diagnostics` for a detailed breakdown".

(** [by_name]: a map of the results from their names, a later one replacing
    an earlier one. *)
Definition by_name (results : list GateResult) (name : string) : option GateResult :=
  last (filter (λ g, gate_name g = name) results).

Definition gate_status (g : GateResult) : string :=
  if skipped g then "SKIP" else if passed g then "PASS" else "FAIL".

Definition format_header (d : AdpDecision) (rollout : option (string * string)) : string :=
  let plain :=
    "# Autonomous Decision Gate Result" +:+ nl +:+ nl
    +:+ "**Verdict:** " +:+ verdict_text (verdict d) +:+ nl
    +:+ "**Confidence:** " +:+ fixed 2 (d_confidence d) +:+ nl +:+ nl in
  match rollout with
  | Some (phase, orig) =>
      if String.eqb orig "deny" || String.eqb orig "abstain" then
        let '(icon, phase_human) :=
          if String.eqb phase "shadow" then ("⚠️ SHADOW DENY", "shadow")
          else if String.eqb phase "advisory" then ("⚠️ ADVISORY DENY", "advisory")
          else ("⚠️ OVERRIDE", phase) in
        let failed := length_N (failed_gates d) in
        let total := length_N (gate_results d) in
        "# " +:+ icon +:+ " — This change WOULD be blocked in production mode." +:+ nl +:+ nl
        +:+ "**Original verdict:** " +:+ orig +:+ "  " +:+ nl
        +:+ "**Rollout phase:** " +:+ phase_human +:+ "  " +:+ nl
        +:+ "**Confidence:** " +:+ fixed 2 (d_confidence d) +:+ "  " +:+ nl
        +:+ "**Failed gates:** " +:+ show_N failed +:+ " of " +:+ show_N total +:+ "  " +:+ nl
        +:+ "**Passing gates:** " +:+ show_N (total - failed) +:+ " of " +:+ show_N total +:+ nl +:+ nl
      else plain
  | None => plain
  end.

(** The entry of one failed gate: its number, its name, what [by_name] finds
    under it and the recommendation. *)
Definition failed_gate_detail (results : list GateResult) (g : string) : string :=
  default "(no detail)" (detail <$> by_name results g).
Definition failed_gate_confidence (results : list GateResult) (g : string) : f64 :=
  default f64_zero (confidence <$> by_name results g).
Definition format_failed_gate (results : list GateResult) (ig : N * string) : string :=
  show_N (ig.1 + 1) +:+ ". **`" +:+ ig.2 +:+ "`** (confidence " +:+ fixed 2 (failed_gate_confidence results ig.2)
  +:+ ") — " +:+ failed_gate_detail results ig.2 +:+ nl
  +:+ "   _Recommended:_ " +:+ recommendation_for_gate ig.2 +:+ nl.

(** [iter().enumerate()]. *)
Fixpoint enumerate {A} (i : N) (l : list A) : list (N * A) :=
  match l with [] => [] | a :: l' => (i, a) :: enumerate (i + 1) l' end.

Definition format_decision (d : AdpDecision) : string :=
  let rollout := detect_rollout_override (reasons d) in
  let passing := gate_name <$> filter (λ g, negb (skipped g) && passed g = true) (gate_results d) in
  let plain_reasons :=
    filter (λ r, negb (starts_with "[SHADOW]" r) && negb (starts_with "[ADVISORY]" r) = true) (reasons d) in
  format_header d rollout
  +:+ (if bool_decide (failed_gates d = []) then ""
       else "## Failed gates (" +:+ show_N (length_N (failed_gates d)) +:+ ")" +:+ nl
            +:+ concat_lines (format_failed_gate (gate_results d)) (enumerate 0 (failed_gates d)) +:+ nl)
  +:+ (if bool_decide (passing = []) then ""
       else "## Passing gates (" +:+ show_N (length_N passing) +:+ " of "
            +:+ show_N (length_N (gate_results d)) +:+ ")" +:+ nl
            +:+ "✓ " +:+ join ", " ((λ n, "`" +:+ n +:+ "`") <$> passing) +:+ nl +:+ nl)
  +:+ (if bool_decide (plain_reasons = []) then ""
       else "## Reasons" +:+ nl +:+ concat_lines (λ r, "- " +:+ r +:+ nl) plain_reasons +:+ nl)
  +:+ (if bool_decide (required_followups d = []) then ""
       else "## Required follow-ups" +:+ nl
            +:+ concat_lines (λ f, "- " +:+ f +:+ nl) (required_followups d) +:+ nl)
  +:+ "## Gate details" +:+ nl
  +:+ concat_lines (λ g,
        "- [" +:+ gate_status g +:+ "] **" +:+ gate_name g +:+ "** (confidence: " +:+ fixed 2 (confidence g)
        +:+ "): " +:+ detail g +:+ nl) (gate_results d)
  +:+ match rollout with
      | Some (phase, orig) =>
          nl +:+ "_Current rollout phase: **" +:+ phase +:+ "** — original verdict '" +:+ orig
          +:+ "' was overridden to '" +:+ verdict_text (verdict d)
          +:+ "'. Denials are logged for calibration._" +:+ nl
      | None => ""
      end.

(** * The report of a decision *)

Record GateEvidence := {
  ge_gate_id : string;
  ge_gate_name : string;
  status : string;
  ge_confidence : f64;
  ge_detail : string;
  threshold_delta : option f64;
}.

Record ConfigSnapshot := {
  adp_min_extraction_confidence : f64;
  safety_min_confidence : f64;
  safety_min_coverage : f64;
  adp_max_blast_radius : N;
  safety_policy_enabled : bool;
  gate_code_version : string;
  evidence_schema_version : string;
  evidence_hash : string;
  crate_version : string;
  runtime_triple : string;
  gate_source_hash : string;
  rollout_phase : string;
  cs_kill_switch : bool;
}.

Record AdpDecisionReport (Value : Type) := {
  schema_version : string;
  timestamp : string;
  build_id : string;
  rep_project_id : string;
  proposed_change : string;
  target_files : list string;
  rep_risk_profile : string;
  rep_verdict : string;
  rep_confidence : f64;
  rep_reasons : list string;
  rep_failed_gates : list string;
  rep_required_followups : list string;
  gate_evidence : list GateEvidence;
  input_snapshot : Value;
  config_snapshot : ConfigSnapshot;
}.
Arguments Build_AdpDecisionReport {Value}.
Arguments gate_evidence {Value}.
Arguments config_snapshot {Value}.
Arguments rep_verdict {Value}.

(** What the build stamps into the binary (the version of the crate, the
    operating system and architecture, the hash of this source file), and the
    serialization of the evidence, [None] where it fails. *)
Class ReportEnv := {
  report_blake3 :: Blake3;
  env_crate_version : string;
  env_os : string;
  env_arch : string;
  env_gate_source_hash : string;
  evidence_json : list GateEvidence → option bytes;
}.

Definition evidence_of (g : GateResult) : GateEvidence :=
  {| ge_gate_id := gate_id g; ge_gate_name := gate_name g; status := gate_status g;
     ge_confidence := confidence g; ge_detail := detail g; threshold_delta := None |}.

Section report.
Context `{!ReportEnv} {Value : Type}.

(** The snapshot with the fields the report itself stamps. *)
Definition stamp_config (evidence : list GateEvidence) (c : ConfigSnapshot) : ConfigSnapshot :=
  {| adp_min_extraction_confidence := adp_min_extraction_confidence c;
     safety_min_confidence := safety_min_confidence c; safety_min_coverage := safety_min_coverage c;
     adp_max_blast_radius := adp_max_blast_radius c; safety_policy_enabled := safety_policy_enabled c;
     gate_code_version := gate_code_version c; evidence_schema_version := evidence_schema_version c;
     evidence_hash := blake3_hex (default "" (evidence_json evidence));
     crate_version := env_crate_version;
     runtime_triple := env_os +:+ "/" +:+ env_arch;
     gate_source_hash := env_gate_source_hash;
     rollout_phase := rollout_phase c; cs_kill_switch := cs_kill_switch c |}.

(** [now_ms] is the system clock, [0] before the epoch. *)
Definition build_decision_report (d : AdpDecision) (project change : string) (files : list string)
    (profile : string) (snapshot : Value) (config : ConfigSnapshot) (build : string) (now_ms : N)
  : AdpDecisionReport Value :=
  let evidence := evidence_of <$> gate_results d in
  {| schema_version := "1.0.0"; timestamp := show_N now_ms +:+ "ms"; build_id := build;
     rep_project_id := project; proposed_change := change; target_files := files;
     rep_risk_profile := profile; rep_verdict := verdict_text (verdict d); rep_confidence := d_confidence d;
     rep_reasons := reasons d; rep_failed_gates := failed_gates d;
     rep_required_followups := required_followups d; gate_evidence := evidence;
     input_snapshot := snapshot; config_snapshot := stamp_config evidence config |}.
End report.
