(* ===== verification/Replay.v ===== *)
(** [engram_server::services::autonomous_decision_service] over the corpus of
    [engram_core::benchmark]: the replay of recorded scenarios and the
    confusion matrix of a corpus. *)
From S2P Require Import Prelude Text Unicode Store F64 Safety Decision Rollout.

Open Scope N_scope.

(** * Definitions *)

Record AdpScenarioInput := {
  s_extraction_confidence : option f64;
  s_extraction_band : option string;
  s_trace_used_fallback : bool;
  s_trace_candidate_count : N;
  s_safety_allowed : option bool;
  s_safety_confidence : option f64;
  s_retrieval_production_ready : option bool;
  s_retrieval_ndcg : option f64;
  s_retrieval_recall : option f64;
  s_blast_radius_risk : option N;
  s_blast_radius_band : option string;
  s_blast_radius_downstream : option N;
  s_immune_verdict : option string;
  s_immune_confidence : option f32;
  s_require_runtime_evidence : bool;
  s_has_runtime_evidence : bool;
  s_risk_profile : string;
  s_min_extraction_confidence : f64;
  s_min_safety_confidence : f64;
  s_max_blast_radius_for_auto : N;
  s_reconciliation_confirmed_ratio : option f64;
  s_reconciliation_contradicted_ratio : option f64;
  s_reconciliation_confidence_delta : option f64;
  s_reconciliation_static_paths : option N;
  s_retrieval_mode : option string;
  s_migration_class : option string;
  s_blast_causal_truncated : option bool;
}.

Record AdpScenario := {
  scenario_id : string;
  description : string;
  risk_class : string;
  source : string;
  input : AdpScenarioInput;
  expected_verdict : string;
  expected_failed_gates : list string;
  rationale : string;
}.

Record AdpCorpus := {
  c_schema_version : string;
  c_name : string;
  c_description : string;
  scenarios : list AdpScenario;
}.

Record AdpCorpusResult := {
  r_scenario_id : string;
  r_expected_verdict : string;
  actual_verdict : string;
  verdict_matches : bool;
  r_expected_failed_gates : list string;
  actual_failed_gates : list string;
  gates_match : bool;
  r_confidence : f64;
  r_decision : AdpDecision;
}.

Record AdpConfusionMatrix := {
  total : N;
  true_allow : N;
  true_deny : N;
  true_abstain : N;
  false_allow : N;
  false_deny : N;
  mismatched_abstain : N;
}.

(** A safety decision from the two recorded values; both are needed. *)
Definition replayed_safety (s : AdpScenarioInput) : option PolicyDecision :=
  match s_safety_allowed s, s_safety_confidence s with
  | Some ok, Some c =>
      Some {| allowed := ok; risk_level := if ok then RiskLow else RiskHigh; checks := [];
              pd_confidence := c;
              summary := if ok then "Replayed safety decision: allowed" else "Replayed safety decision: blocked";
              mitigations := [] |}
  | _, _ => None
  end.

Definition replayed_reconciliation (s : AdpScenarioInput) : option ReconciliationScores :=
  match s_reconciliation_confirmed_ratio s, s_reconciliation_contradicted_ratio s with
  | Some confirmed, Some contradicted =>
      Some {| confirmed_ratio := confirmed; contradicted_ratio := contradicted;
              confidence_delta := default f64_zero (s_reconciliation_confidence_delta s);
              static_paths_count := default 0 (s_reconciliation_static_paths s) |}
  | _, _ => None
  end.

Definition replayed_mode (s : AdpScenarioInput) : RetrievalMode :=
  let absent := if bool_decide (is_Some (s_retrieval_production_ready s)) then Live else Skipped in
  match s_retrieval_mode s with
  | Some m => if String.eqb m "cached" then Cached else if String.eqb m "live" then Live else absent
  | None => absent
  end.

Section replay.
Context `{!Lowercase}.

Definition replayed_band (s : AdpScenarioInput) : option RiskBand :=
  b ← s_blast_radius_band s;
  let l := to_lowercase b in
  if String.eqb l "low" then Some BandLow
  else if String.eqb l "medium" then Some BandMedium
  else if String.eqb l "high" then Some BandHigh
  else if String.eqb l "critical" then Some BandCritical
  else None.

Definition replayed_input (s : AdpScenarioInput) (profile : RiskProfile) : AdpInput :=
  {| extraction_confidence := s_extraction_confidence s; extraction_band := s_extraction_band s;
     trace_used_fallback := s_trace_used_fallback s; trace_candidate_count := s_trace_candidate_count s;
     safety_decision := replayed_safety s;
     retrieval_production_ready := s_retrieval_production_ready s;
     retrieval_ndcg := s_retrieval_ndcg s; retrieval_recall := s_retrieval_recall s;
     blast_radius_risk := s_blast_radius_risk s; blast_radius_band := replayed_band s;
     blast_radius_downstream := s_blast_radius_downstream s;
     blast_causal_truncated := s_blast_causal_truncated s;
     immune_verdict := s_immune_verdict s; immune_confidence := s_immune_confidence s;
     require_runtime_evidence := s_require_runtime_evidence s;
     has_runtime_evidence := s_has_runtime_evidence s; risk_profile := profile;
     min_extraction_confidence := s_min_extraction_confidence s;
     min_safety_confidence := s_min_safety_confidence s;
     max_blast_radius_for_auto := s_max_blast_radius_for_auto s;
     reconciliation := replayed_reconciliation s; graph_impact := None;
     retrieval_mode := replayed_mode s; migration_class := s_migration_class s |}.

Definition replay_from_scenario (s : AdpScenarioInput) : string + AdpDecision :=
  match risk_profile_from_str (s_risk_profile s) with
  | inl e => inl e
  | inr profile => inr (evaluate_gates (replayed_input s profile))
  end.

(** One scenario of [run_corpus]; a scenario without a decision panics. *)
Definition run_scenario (sc : AdpScenario) : result AdpCorpusResult :=
  match replay_from_scenario (input sc) with
  | inl _ => Fail (Panic "corpus scenario has invalid risk_profile value")
  | inr d =>
      let actual := verdict_text (verdict d) in
      Ok {| r_scenario_id := scenario_id sc; r_expected_verdict := expected_verdict sc;
            actual_verdict := actual; verdict_matches := String.eqb actual (expected_verdict sc);
            r_expected_failed_gates := expected_failed_gates sc; actual_failed_gates := failed_gates d;
            gates_match :=
              bool_decide (list_to_set (C := gset string) (expected_failed_gates sc) =
                           list_to_set (failed_gates d));
            r_confidence := d_confidence d; r_decision := d |}
  end.
Definition run_corpus (c : AdpCorpus) : result (list AdpCorpusResult) :=
  result_traverse run_scenario (scenarios c).
End replay.

(** The cells of the matrix, in the order of the match. *)
Inductive Cell := TrueAllow | TrueDeny | TrueAbstain | FalseAllow | FalseDeny | MismatchedAbstain.
#[export] Instance Cell_eq_dec : EqDecision Cell.
Proof. solve_decision. Defined.

Definition cell_of (r : AdpCorpusResult) : Cell :=
  let expected := String.eqb (r_expected_verdict r) in
  let actual := String.eqb (actual_verdict r) in
  if expected "allow" && actual "allow" then TrueAllow
  else if expected "deny" && actual "deny" then TrueDeny
  else if expected "abstain" && actual "abstain" then TrueAbstain
  else if actual "allow" && negb (expected "allow") then FalseAllow
  else if expected "allow" && negb (actual "allow") then FalseDeny
  else MismatchedAbstain.

Definition count_cell (m : AdpConfusionMatrix) (r : AdpCorpusResult) : AdpConfusionMatrix :=
  let add c := if decide (cell_of r = c) then 1 else 0 in
  {| total := total m; true_allow := true_allow m + add TrueAllow; true_deny := true_deny m + add TrueDeny;
     true_abstain := true_abstain m + add TrueAbstain; false_allow := false_allow m + add FalseAllow;
     false_deny := false_deny m + add FalseDeny;
     mismatched_abstain := mismatched_abstain m + add MismatchedAbstain |}.

(** [AdpConfusionMatrix::from_results]. *)
Definition from_results (rs : list AdpCorpusResult) : AdpConfusionMatrix :=
  foldl count_cell
    {| total := N.of_nat (length rs); true_allow := 0; true_deny := 0; true_abstain := 0;
       false_allow := 0; false_deny := 0; mismatched_abstain := 0 |} rs.

Definition false_allow_rate (m : AdpConfusionMatrix) : f64 :=
  if total m =? 0 then f64_zero else f64_div (f64_of_N (false_allow m)) (f64_of_N (total m)).
Definition false_deny_rate (m : AdpConfusionMatrix) : f64 :=
  if total m =? 0 then f64_zero else f64_div (f64_of_N (false_deny m)) (f64_of_N (total m)).
