(* ===== verification/DecisionSpec.v ===== *)
(** What the gates of [Decision.v] decide: the evidence a change needs before
    it is allowed, what denies it, and what the decision reports. *)
From S2P Require Import Prelude Text Store F64 Safety Decision.

Open Scope N_scope.

(** * Specification *)

(** The seven gates that look at the input, in order. *)
Definition seven (input : AdpInput) : list GateResult :=
  [evaluate_extraction_confidence_gate input; evaluate_trace_certainty_gate input;
   evaluate_safety_policy_gate input; evaluate_retrieval_quality_gate input;
   evaluate_blast_radius_gate input; evaluate_anti_pattern_gate input;
   evaluate_runtime_evidence_gate input].

(** Runtime evidence that satisfies its gate. *)
Definition runtime_ok (input : AdpInput) : Prop :=
  match reconciliation input with
  | Some recon => f64_le (f64_lit 6 10) (compute_reconciliation_confidence recon) = true ∧
                  f64_lt (contradicted_ratio recon) (f64_lit 2 10) = true
  | None => has_runtime_evidence input = true
  end.

(** The evidence the caller did not gather or ask for. *)
Definition missing_evidence (input : AdpInput) : N :=
  let none {A} (o : option A) : N := match o with Some _ => 0 | None => 1 end in
  none (extraction_confidence input) + none (safety_decision input)
  + none (retrieval_production_ready input) + none (blast_radius_risk input)
  + none (immune_verdict input) + (if require_runtime_evidence input then 0 else 1).

(** Evidence against the change that no other evidence outweighs. *)
Definition hard_evidence (input : AdpInput) : Prop :=
  (∃ x, extraction_confidence input = Some x ∧ f64_le (min_extraction_confidence input) x = false) ∨
  (∃ d, safety_decision input = Some d ∧ allowed d = false) ∨
  retrieval_production_ready input = Some false ∨
  immune_verdict input = Some "BLOCK".

(** Every gate that was evaluated is satisfied. *)
Definition evidence_holds (input : AdpInput) : Prop :=
  (∀ x, extraction_confidence input = Some x → f64_le (min_extraction_confidence input) x = true) ∧
  (trace_used_fallback input = false ∧ trace_candidate_count input <= 1) ∧
  (∀ d, safety_decision input = Some d → allowed d = true) ∧
  (retrieval_production_ready input = Some true ∨
   retrieval_production_ready input = None ∧ retrieval_mode input = Skipped) ∧
  (∀ r, blast_radius_risk input = Some r →
     r <= max_blast_radius_for_auto input ∧ blast_causal_truncated input ≠ Some true) ∧
  (∀ v, immune_verdict input = Some v → v = "PASS") ∧
  (require_runtime_evidence input = true → runtime_ok input).

(** * Lemmas *)

(** ** The accumulator *)

(** The reason a gate may give: its detail, marked where it is advisory. *)
Definition reason_of (g : GateResult) (r : string) : Prop :=
  r = detail g ∨ r = detail g +:+ " (advisory: abstain, not deny)".

(** The consequence of a failure of [g] leaves the results and the record of
    failed gates alone, denies only with a reason, and gives no reason but
    its own. *)
Definition consequence (g : GateResult) (f : Acc → Acc) : Prop :=
  ∀ a, a_results (f a) = a_results a ∧ a_failed (f a) = a_failed a ∧
       (has_hard_deny (f a) = true → has_hard_deny a = true ∨ a_reasons (f a) ≠ []) ∧
       (∃ rs, a_reasons (f a) = a_reasons a ++ rs ∧ Forall (reason_of g) rs).

Definition failed_ids (l : list GateResult) : list string := gate_id <$> filter (λ g, gate_failed g = true) l.

Lemma failed_ids_snoc l g :
  failed_ids (l ++ [g]) = failed_ids l ++ (if gate_failed g then [gate_id g] else []).
Proof.
  unfold failed_ids. rewrite filter_app, fmap_app. f_equal.
  destruct (gate_failed g) eqn:E; [by rewrite filter_cons_True by done |].
  by rewrite filter_cons_False by congruence.
Qed.

(** What is true of the accumulator after the gates [l]. *)
Record recorded (l : list GateResult) (a : Acc) : Prop := {
  rec_results : a_results a = l;
  rec_failed : a_failed a = failed_ids l;
  rec_flags : has_hard_deny a = true ∨ has_abstain a = true → a_failed a ≠ [];
  rec_deny : has_hard_deny a = true → a_reasons a ≠ [];
  rec_reasons : ∀ r, r ∈ a_reasons a → ∃ g, g ∈ l ∧ reason_of g r;
}.

Lemma run_gate_recorded g f l a : consequence g f → recorded l a → recorded (l ++ [g]) (run_gate g f a).
Proof.
  intros Hf [Hr Hl Hflags Hdeny Hrs]. destruct (Hf a) as (H1 & H2 & H3 & rs & H4 & H5).
  unfold run_gate. destruct (gate_failed g) eqn:E; split; cbn [push_result push_failed a_results a_failed
    a_reasons has_hard_deny has_abstain]; rewrite ?failed_ids_snoc, ?E, ?app_nil_r.
  - by rewrite H1, Hr.
  - by rewrite H2, Hl.
  - intros _ Happ. by apply app_eq_nil in Happ as [_ ?].
  - intros [Hd|Hd]%H3; [| done]. rewrite H4. intros [Hn _]%app_eq_nil. by apply Hdeny in Hd.
  - rewrite H4. intros r [Hin|Hin]%elem_of_app.
    + destruct (Hrs _ Hin) as (g' & ? & ?). exists g'. split; [set_solver | done].
    + exists g. split; [set_solver |]. by eapply Forall_forall in H5.
  - by rewrite Hr.
  - done.
  - done.
  - done.
  - intros r Hin. destruct (Hrs _ Hin) as (g' & ? & ?). exists g'. split; [set_solver | done].
Qed.

Ltac consequence :=
  intros ?; repeat case_match; repeat case_bool_decide; split_and!; try done;
  try (intros ?; first [by left | right; by intros [_ ?]%app_eq_nil]);
  first [exists []; split; [symmetry; apply app_nil_r | apply Forall_nil_2]
        | eexists; split; [reflexivity |]; apply Forall_singleton; first [by left | by right]].

Lemma gates_recorded input :
  recorded (seven input)
    (gate_7 input (gate_6 input (gate_5 input (gate_4 input (gate_3 input (gate_2 input (gate_1 input start))))))).
Proof.
  change (seven input) with
    ((((((([] ++ [evaluate_extraction_confidence_gate input]) ++ [evaluate_trace_certainty_gate input])
      ++ [evaluate_safety_policy_gate input]) ++ [evaluate_retrieval_quality_gate input])
      ++ [evaluate_blast_radius_gate input]) ++ [evaluate_anti_pattern_gate input])
      ++ [evaluate_runtime_evidence_gate input]).
  unfold gate_1, gate_2, gate_3, gate_4, gate_5, gate_6, gate_7.
  do 7 (apply run_gate_recorded; [consequence |]).
  split; [done | done | by intros [?|?] | done | by intros r ?%elem_of_nil].
Qed.

(** The flags are raised by a failing gate only, as its consequence says. *)
Lemma run_gate_flags g f a :
  has_hard_deny (run_gate g f a) = (if gate_failed g then has_hard_deny (f a) else has_hard_deny a) ∧
  has_abstain (run_gate g f a) = (if gate_failed g then has_abstain (f a) else has_abstain a).
Proof. unfold run_gate. by destruct (gate_failed g). Qed.

(** A gate that denies on evidence [b] against the change. *)
Lemma deny_gate_flag g (b : bool) r f a :
  has_hard_deny (run_gate g (λ a, if b then push_reason r (hard_deny a) else push_followup f (must_abstain a)) a)
  = has_hard_deny a || (gate_failed g && b).
Proof.
  rewrite (proj1 (run_gate_flags _ _ _)). destruct (gate_failed g), b; simpl; by rewrite ?orb_true_r, ?orb_false_r.
Qed.

(** A gate that never denies. *)
Lemma abstain_gate_flag g f a :
  (∀ a, has_hard_deny (f a) = has_hard_deny a) → has_hard_deny (run_gate g f a) = has_hard_deny a.
Proof. intros Hf. rewrite (proj1 (run_gate_flags _ _ _)), Hf. by destruct (gate_failed g). Qed.

Definition denies (input : AdpInput) : bool :=
  gate_failed (evaluate_extraction_confidence_gate input) && bool_decide (is_Some (extraction_confidence input))
  || gate_failed (evaluate_safety_policy_gate input) && bool_decide (is_Some (safety_decision input))
  || gate_failed (evaluate_retrieval_quality_gate input) && bool_decide (is_Some (retrieval_production_ready input))
  || gate_failed (evaluate_anti_pattern_gate input) && bool_decide (immune_verdict input = Some "BLOCK").

Lemma gate_6_flag input a :
  has_hard_deny (gate_6 input a) = has_hard_deny a ||
    (gate_failed (evaluate_anti_pattern_gate input) && bool_decide (immune_verdict input = Some "BLOCK")).
Proof.
  unfold gate_6. rewrite (proj1 (run_gate_flags _ _ _)).
  destruct (gate_failed _); [| by rewrite orb_false_r]. cbn [andb].
  destruct (immune_verdict input) as [v|]; [| by rewrite bool_decide_eq_false_2, orb_false_r by done].
  destruct (String.eqb_spec v "BLOCK") as [->|Hne]; [by rewrite bool_decide_eq_true_2, orb_true_r by done |].
  assert (Some v ≠ Some "BLOCK") by congruence.
  rewrite (bool_decide_eq_false_2 (Some v = _)), orb_false_r by done. by case_bool_decide.
Qed.

Lemma gate_8_flag a : has_hard_deny (gate_8 a) = has_hard_deny a.
Proof. unfold gate_8. destruct (passed _); [done |]. by case_bool_decide. Qed.

Lemma gates_deny input : has_hard_deny (gates input) = denies input.
Proof.
  unfold gates, denies. rewrite gate_8_flag.
  unfold gate_7. rewrite abstain_gate_flag by done. rewrite gate_6_flag.
  unfold gate_5. rewrite abstain_gate_flag by (intros; by case_bool_decide).
  unfold gate_4, gate_3. rewrite !deny_gate_flag. unfold gate_2. rewrite abstain_gate_flag by done.
  unfold gate_1. rewrite deny_gate_flag. done.
Qed.

Lemma gate_8_passed l a :
  recorded l a → passed (evidence_gate l) = true → gate_8 a = push_result (evidence_gate l) a.
Proof. intros [Hr _ _ _ _] Hp. unfold gate_8. by rewrite Hr, Hp. Qed.

Lemma gate_8_failed l a :
  recorded l a → passed (evidence_gate l) = false → a_failed (gate_8 a) ≠ [].
Proof.
  intros [Hr _ _ _ _] Hp. unfold gate_8. rewrite Hr, Hp. case_bool_decide as Hin.
  - simpl in *. intros Hn. rewrite Hn in Hin. by apply elem_of_nil in Hin.
  - simpl. intros [_ ?]%app_eq_nil. done.
Qed.

(** Each gate has its identifier and its display name, whatever the input. *)
Lemma seven_ids_names input :
  (λ g, (gate_id g, gate_name g)) <$> seven input =
  [("extraction_confidence", "Extraction Confidence"); ("trace_certainty", "Trace Certainty");
   ("safety_policy", "Safety Policy"); ("retrieval_quality", "Retrieval Quality");
   ("blast_radius", "Blast Radius / Risk"); ("anti_pattern", "Anti-Pattern Guard");
   ("runtime_evidence", "Runtime Evidence")].
Proof.
  unfold seven. cbn [fmap list_fmap]. repeat (apply (f_equal2 cons)); [.. | done].
  - unfold evaluate_extraction_confidence_gate. by case_match.
  - unfold evaluate_trace_certainty_gate. by case_match.
  - unfold evaluate_safety_policy_gate. by case_match.
  - unfold evaluate_retrieval_quality_gate. by case_match.
  - unfold evaluate_blast_radius_gate. by case_match.
  - unfold evaluate_anti_pattern_gate. by case_match.
  - unfold evaluate_runtime_evidence_gate. case_match; [done | by case_match].
Qed.

Lemma seven_ids input g : g ∈ seven input → gate_id g ≠ gate_id (evidence_gate (seven input)).
Proof.
  intros Hin. apply (list_elem_of_fmap_2 (λ g, (gate_id g, gate_name g))) in Hin.
  rewrite seven_ids_names in Hin. cbn [evidence_gate gate_id]. intros Heq.
  repeat (apply elem_of_cons in Hin as [Hin|Hin]; [congruence |]). by apply elem_of_nil in Hin.
Qed.

(** ** The verdict *)

Lemma evidence_gate_seven input :
  passed (evidence_gate (seven input)) = bool_decide (count_skipped (seven input) <= 1).
Proof.
  assert (Hsum : count_applicable (seven input) + count_skipped (seven input) = 7).
  { unfold count_applicable, count_skipped, applicable. 
    assert (H : ∀ l, (length (filter (λ g, skipped g = false) l) + length (filter (λ g, skipped g = true) l))%nat
                     = length l).
    { intros l. induction l as [|g l IH]; [done |]. rewrite !filter_cons. destruct (skipped g); simpl; lia. }
    specialize (H (seven input)). change (length (seven input)) with 7%nat in H. lia. }
  unfold evidence_gate. cbn [passed]. generalize dependent (count_applicable (seven input)).
  generalize (count_skipped (seven input)). intros s t Hsum.
  destruct (N.eqb_spec t 0) as [->|Ht]; [symmetry; apply bool_decide_eq_false_2; lia |].
  assert (s = 0 ∨ s = 1 ∨ s = 2 ∨ s = 3 ∨ s = 4 ∨ s = 5 ∨ s = 6) as Hs by lia.
  destruct Hs as [->|[->|[->|[->|[->|[->| ->]]]]]]; (match type of Hsum with ?t + ?k = 7 =>
    assert (t = 7 - k) as -> by lia end); by vm_compute.
Qed.

Lemma count_skipped_cons g l : count_skipped (g :: l) = (if skipped g then 1 else 0) + count_skipped l.
Proof. unfold count_skipped. rewrite filter_cons. destruct (skipped g); simpl; lia. Qed.

Lemma skipped_seven input :
  retrieval_production_ready input ≠ None ∨ retrieval_mode input = Skipped →
  count_skipped (seven input) = missing_evidence input.
Proof.
  intros Hr. unfold seven, missing_evidence. rewrite !count_skipped_cons.
  assert (skipped (evaluate_trace_certainty_gate input) = false) as ->
    by (unfold evaluate_trace_certainty_gate; by case_match).
  assert (skipped (evaluate_retrieval_quality_gate input)
          = match retrieval_production_ready input with Some _ => false | None => true end) as ->.
  { unfold evaluate_retrieval_quality_gate. destruct (retrieval_production_ready input); [done |].
    destruct Hr as [?|Hr]; [done |]. by rewrite Hr. }
  assert (skipped (evaluate_runtime_evidence_gate input) = negb (require_runtime_evidence input)) as ->.
  { unfold evaluate_runtime_evidence_gate. destruct (require_runtime_evidence input); [| done]. by destruct (reconciliation input). }
  unfold evaluate_extraction_confidence_gate, evaluate_safety_policy_gate, evaluate_blast_radius_gate,
    evaluate_anti_pattern_gate. change (count_skipped []) with 0.
  destruct (extraction_confidence input), (safety_decision input), (blast_radius_risk input),
    (immune_verdict input), (require_runtime_evidence input), (retrieval_production_ready input); reflexivity.
Qed.

Lemma failed_ids_nil l : failed_ids l = [] ↔ Forall (λ g, gate_failed g = false) l.
Proof.
  unfold failed_ids. induction l as [|g l IH]; [done |]. rewrite filter_cons, Forall_cons, <-IH.
  destruct (gate_failed g); simpl; naive_solver.
Qed.

Lemma gate_failed_passed g : gate_failed g = false ↔ passed g = true ∨ skipped g = true.
Proof. unfold gate_failed. destruct (passed g), (skipped g); naive_solver. Qed.

(** A decision allows exactly when nothing is recorded as failed. *)
Lemma verdict_allow input : verdict (evaluate_gates input) = Allow ↔ failed_gates (evaluate_gates input) = [].
Proof.
  unfold evaluate_gates. cbn [verdict failed_gates]. pose proof (gates_recorded input) as Hrec.
  unfold verdict_of, gates. set (a := gate_7 input _) in *.
  destruct (passed (evidence_gate (seven input))) eqn:Hp.
  - rewrite (gate_8_passed _ _ Hrec Hp). cbn [push_result has_hard_deny has_abstain a_failed].
    pose proof (rec_flags _ _ Hrec) as Hf.
    destruct (has_hard_deny a), (has_abstain a); cbn [orb]; [naive_solver .. |].
    case_bool_decide; naive_solver.
  - pose proof (gate_8_failed _ _ Hrec Hp) as Hn.
    rewrite (bool_decide_eq_true_2 _ Hn), orb_true_r. by destruct (has_hard_deny _).
Qed.

Lemma failed_none input :
  failed_gates (evaluate_gates input) = [] ↔
  Forall (λ g, gate_failed g = false) (seven input) ∧ count_skipped (seven input) <= 1.
Proof.
  unfold evaluate_gates. cbn [failed_gates]. pose proof (gates_recorded input) as Hrec. unfold gates.
  pose proof (evidence_gate_seven input) as He.
  destruct (passed (evidence_gate (seven input))) eqn:Hp.
  - rewrite (gate_8_passed _ _ Hrec Hp). cbn [push_result a_failed]. rewrite (rec_failed _ _ Hrec), failed_ids_nil.
    symmetry in He. apply bool_decide_eq_true in He. naive_solver.
  - pose proof (gate_8_failed _ _ Hrec Hp) as Hn. symmetry in He. apply bool_decide_eq_false in He. naive_solver.
Qed.

Lemma gate_1_holds input :
  gate_failed (evaluate_extraction_confidence_gate input) = false ↔
  ∀ x, extraction_confidence input = Some x → f64_le (min_extraction_confidence input) x = true.
Proof.
  unfold evaluate_extraction_confidence_gate, gate_failed.
  destruct (extraction_confidence input); simpl; [| naive_solver].
  rewrite andb_true_r, negb_false_iff. naive_solver.
Qed.
Lemma gate_2_holds input :
  gate_failed (evaluate_trace_certainty_gate input) = false ↔
  trace_used_fallback input = false ∧ trace_candidate_count input <= 1.
Proof.
  rewrite <-N.leb_le, <-(negb_true_iff (trace_used_fallback input)), <-andb_true_iff.
  unfold evaluate_trace_certainty_gate, gate_failed. by destruct (negb (trace_used_fallback input) && _).
Qed.
Lemma gate_3_holds input :
  gate_failed (evaluate_safety_policy_gate input) = false ↔
  ∀ d, safety_decision input = Some d → allowed d = true.
Proof.
  unfold evaluate_safety_policy_gate, gate_failed. destruct (safety_decision input); simpl; [| naive_solver].
  rewrite andb_true_r, negb_false_iff. naive_solver.
Qed.
Lemma gate_4_holds input :
  gate_failed (evaluate_retrieval_quality_gate input) = false ↔
  retrieval_production_ready input = Some true ∨
  retrieval_production_ready input = None ∧ retrieval_mode input = Skipped.
Proof.
  unfold evaluate_retrieval_quality_gate, gate_failed.
  destruct (retrieval_production_ready input) as [[]|]; simpl; [naive_solver | naive_solver |].
  case_bool_decide; naive_solver.
Qed.
Lemma gate_5_holds input :
  gate_failed (evaluate_blast_radius_gate input) = false ↔
  ∀ r, blast_radius_risk input = Some r →
    r <= max_blast_radius_for_auto input ∧ blast_causal_truncated input ≠ Some true.
Proof.
  unfold evaluate_blast_radius_gate, gate_failed. destruct (blast_radius_risk input) as [r|]; simpl; [| naive_solver].
  rewrite andb_true_r, negb_false_iff, andb_true_iff, N.leb_le, negb_true_iff.
  destruct (blast_causal_truncated input) as [[]|]; naive_solver.
Qed.
Lemma gate_6_holds input :
  gate_failed (evaluate_anti_pattern_gate input) = false ↔ ∀ v, immune_verdict input = Some v → v = "PASS".
Proof.
  unfold evaluate_anti_pattern_gate, gate_failed. destruct (immune_verdict input) as [v|]; simpl; [| naive_solver].
  rewrite andb_true_r, negb_false_iff, String.eqb_eq. naive_solver.
Qed.
Lemma gate_7_holds input :
  gate_failed (evaluate_runtime_evidence_gate input) = false ↔
  (require_runtime_evidence input = true → runtime_ok input).
Proof.
  unfold evaluate_runtime_evidence_gate, gate_failed, runtime_ok.
  destruct (require_runtime_evidence input); [| by split].
  destruct (reconciliation input); cbn [negb passed skipped]; rewrite andb_true_r, negb_false_iff, ?andb_true_iff;
    (split; [by intros H _ | by intros H; apply H]).
Qed.

Lemma seven_hold input : Forall (λ g, gate_failed g = false) (seven input) ↔ evidence_holds input.
Proof.
  unfold seven, evidence_holds.
  rewrite !Forall_cons, gate_1_holds, gate_2_holds, gate_3_holds, gate_4_holds, gate_5_holds, gate_6_holds,
    gate_7_holds, Forall_nil. tauto.
Qed.

Lemma denies_hard_evidence input : denies input = true ↔ hard_evidence input.
Proof.
  assert (H1 : gate_failed (evaluate_extraction_confidence_gate input)
                 && bool_decide (is_Some (extraction_confidence input)) = true ↔
    ∃ x, extraction_confidence input = Some x ∧ f64_le (min_extraction_confidence input) x = false).
  { unfold evaluate_extraction_confidence_gate, gate_failed. destruct (extraction_confidence input); simpl; [| naive_solver].
    rewrite !andb_true_r, negb_true_iff. naive_solver. }
  assert (H3 : gate_failed (evaluate_safety_policy_gate input) && bool_decide (is_Some (safety_decision input)) = true ↔
    ∃ d, safety_decision input = Some d ∧ allowed d = false).
  { unfold evaluate_safety_policy_gate, gate_failed. destruct (safety_decision input); simpl; [| naive_solver].
    rewrite !andb_true_r, negb_true_iff. naive_solver. }
  assert (H4 : gate_failed (evaluate_retrieval_quality_gate input)
                 && bool_decide (is_Some (retrieval_production_ready input)) = true ↔
    retrieval_production_ready input = Some false).
  { unfold evaluate_retrieval_quality_gate, gate_failed.
    destruct (retrieval_production_ready input) as [[]|]; simpl; [done | done |].
    rewrite andb_false_r. done. }
  assert (H6 : gate_failed (evaluate_anti_pattern_gate input) && bool_decide (immune_verdict input = Some "BLOCK") = true ↔
    immune_verdict input = Some "BLOCK").
  { rewrite andb_true_iff, bool_decide_eq_true. split; [naive_solver |]. intros H. split; [| done].
    unfold evaluate_anti_pattern_gate, gate_failed. by rewrite H. }
  unfold denies, hard_evidence. rewrite !orb_true_iff, H1, H3, H4, H6. tauto.
Qed.

(** The gates' record: [evidence_sufficiency] is not a name of the others. *)
Lemma gates_results_failed input :
  a_results (gates input) = seven input ++ [evidence_gate (seven input)] ∧
  a_failed (gates input) = failed_ids (seven input ++ [evidence_gate (seven input)]).
Proof.
  pose proof (gates_recorded input) as Hrec. unfold gates, gate_8. generalize dependent (gate_7 input
    (gate_6 input (gate_5 input (gate_4 input (gate_3 input (gate_2 input (gate_1 input start))))))). intros a Hrec.
  rewrite (rec_results _ _ Hrec), failed_ids_snoc. unfold gate_failed. cbn [skipped evidence_gate].
  rewrite andb_true_r. destruct (passed (evidence_gate (seven input))); cbn [negb push_result a_results a_failed].
  - rewrite app_nil_r. split; [by rewrite (rec_results _ _ Hrec) | apply Hrec].
  - rewrite bool_decide_eq_false_2.
    + cbn. by rewrite (rec_results _ _ Hrec), (rec_failed _ _ Hrec).
    + cbn [must_abstain a_failed]. rewrite (rec_failed _ _ Hrec). unfold failed_ids.
      intros (g & Hid & [_ Hin]%list_elem_of_filter)%list_elem_of_fmap.
      apply (seven_ids _ _ Hin). by rewrite <-Hid.
Qed.

Lemma gates_reasons input :
  a_reasons (gates input) =
  a_reasons (gate_7 input (gate_6 input (gate_5 input (gate_4 input (gate_3 input (gate_2 input (gate_1 input start))))))).
Proof.
  unfold gates, gate_8. destruct (passed _); [done |]. by case_bool_decide.
Qed.

(** * Theorems *)


(** C7. Only hard evidence denies: a change is denied exactly for an
    extraction confidence that was measured and misses its minimum, a safety
    decision that blocks it, a failed retrieval benchmark or an anti-pattern
    block; the blast-radius heuristic, the runtime evidence, an ambiguous
    trace and evidence that is missing can only make the pipeline abstain. *)
Theorem only_hard_evidence_denies input :
  verdict (evaluate_gates input) = Deny ↔ hard_evidence input.
Proof.
  unfold evaluate_gates. cbn [verdict]. unfold verdict_of. rewrite gates_deny.
  pose proof (denies_hard_evidence input) as Hd.
  destruct (denies input); [naive_solver |]. split; [| naive_solver].
  by destruct (has_abstain _ || _).
Qed.

(** A decision explains itself: it lists all eight gates in order, the
    failed ones are exactly those listed, nothing has failed exactly when the
    change is allowed, a denial has a reason, an abstention says what to
    gather, and the confidence is in the unit interval or not a number. *)
Theorem decision_explains_itself input :
  let d := evaluate_gates input in
  gate_results d = seven input ++ [evidence_gate (seven input)] ∧
  failed_gates d = failed_ids (gate_results d) ∧
  (verdict d = Allow ↔ failed_gates d = []) ∧
  (verdict d = Deny → reasons d ≠ []) ∧
  (verdict d = Abstain → required_followups d ≠ []) ∧
  (d_confidence d = S754_nan ∨ in_unit (d_confidence d)).
Proof.
  intros d. pose proof (gates_recorded input) as Hrec. pose proof (gates_results_failed input) as [Hr Hf].
  split_and!.
  - exact Hr.
  - unfold d, evaluate_gates. cbn [failed_gates gate_results]. by rewrite Hr, Hf.
  - apply verdict_allow.
  - unfold d, evaluate_gates, verdict_of. cbn [verdict reasons]. rewrite gates_reasons.
    unfold gates. rewrite gate_8_flag. pose proof (rec_deny _ _ Hrec) as Hd.
    destruct (has_hard_deny _); [by intros _; apply Hd |]. by case_match.
  - unfold d, evaluate_gates. cbn [verdict required_followups]. intros ->. rewrite bool_decide_eq_true_2 by done.
    cbn [andb]. by case_bool_decide.
  - unfold d, evaluate_gates, aggregate_confidence. cbn [d_confidence].
    case_bool_decide; [right; by split; vm_compute |]. destruct (foldl weigh _ _). apply f64_clamp_unit.
Qed.
