(* ===== verification/RolloutSpec.v ===== *)
(** What the rollout policy, the wave decision and the texts of
    [Rollout.v] and the corpus of [Replay.v] promise. *)
From S2P Require Import Prelude Text Unicode Store F64 Safety Decision DecisionSpec Rollout Replay.

Open Scope N_scope.

(** * Lemmas *)

(** ** Marks of an override *)

(** A text that does not open with a bracket, so that it is no mark. *)
Definition unmarked (s : string) : Prop := starts_with "[" s = false.

Lemma unmarked_app c s t : c ≠ "["%char → unmarked (String c s +:+ t).
Proof.
  intros Hc. unfold unmarked. apply not_true_iff_false. rewrite starts_with_spec. rewrite app_cons.
  intros [u [= ?]%eq_sym]. done.
Qed.

Lemma strip_prefix_unmarked p s : unmarked s → strip_prefix (String "[" p) s = None.
Proof.
  intros Hs. destruct (strip_prefix _ s) as [t|] eqn:E; [| done]. apply strip_prefix_Some in E as ->.
  apply not_true_iff_false in Hs. destruct Hs. apply starts_with_spec. by exists (p +:+ t).
Qed.

Lemma detect_unmarked rs rest :
  Forall unmarked rs → detect_rollout_override (rs ++ rest) = detect_rollout_override rest.
Proof.
  induction 1 as [|r rs Hr _ IH]; [done |]. cbn [app detect_rollout_override].
  unfold SHADOW_MARK, ADVISORY_MARK. by rewrite !strip_prefix_unmarked by done.
Qed.

Lemma split_once_app c a s : contains_char c a = false → split_once c (a +:+ String c s) = Some (a, s).
Proof.
  induction a as [|d a IH]; intros Ha.
  - rewrite app_nil_l. simpl. by rewrite Ascii.eqb_refl.
  - rewrite contains_char_cons in Ha. apply orb_false_iff in Ha as [Hd Ha].
    rewrite app_cons. simpl. rewrite Ascii.eqb_sym in Hd. by rewrite Hd, IH.
Qed.

Lemma verdict_text_quoted v rest : split_once "'"%char (verdict_text v +:+ String "'" rest) = Some (verdict_text v, rest).
Proof. apply split_once_app. by destruct v. Qed.

Lemma detect_shadow v rest :
  detect_rollout_override [SHADOW_MARK +:+ verdict_text v +:+ String "'" rest] = Some ("shadow", verdict_text v).
Proof. cbn [detect_rollout_override]. rewrite strip_prefix_app. cbn [mbind option_bind]. by rewrite verdict_text_quoted. Qed.

Lemma detect_advisory v rest :
  detect_rollout_override [ADVISORY_MARK +:+ verdict_text v +:+ String "'" rest] = Some ("advisory", verdict_text v).
Proof.
  cbn [detect_rollout_override].
  assert (strip_prefix SHADOW_MARK (ADVISORY_MARK +:+ verdict_text v +:+ String "'" rest) = None) as -> by done.
  rewrite strip_prefix_app. cbn [mbind option_bind]. by rewrite verdict_text_quoted.
Qed.

(** ** The reasons of the gates are no marks *)

Lemma safety_summary_unmarked req enabled c cov m : unmarked (summary (evaluate_safety req enabled c cov m).2).
Proof.
  unfold evaluate_safety. destruct enabled; cbn [negb snd summary]; [| done].
  unfold safety_summary. case_match; by apply unmarked_app.
Qed.

Lemma unmarked_details input :
  (∀ d, safety_decision input = Some d → unmarked (summary d)) →
  Forall (λ g, unmarked (detail g)) (seven input).
Proof.
  intros Hs. unfold seven. repeat apply Forall_cons_2; [.. | by apply Forall_nil_2].
  - unfold evaluate_extraction_confidence_gate. case_match; [| done]. cbn [detail]. case_match; by apply unmarked_app.
  - unfold evaluate_trace_certainty_gate. case_match; [done |]. by apply unmarked_app.
  - unfold evaluate_safety_policy_gate. case_match; [by apply Hs | done].
  - unfold evaluate_retrieval_quality_gate. case_match; [by apply unmarked_app |]. cbn [detail]. by case_match.
  - unfold evaluate_blast_radius_gate. case_match; [by apply unmarked_app | done].
  - unfold evaluate_anti_pattern_gate. case_match; [by apply unmarked_app | done].
  - unfold evaluate_runtime_evidence_gate. case_match; [done |].
    case_match; [by apply unmarked_app | cbn [detail]; by case_match].
Qed.

Lemma unmarked_more s t : s ≠ "" → unmarked s → unmarked (s +:+ t).
Proof.
  destruct s as [|c s]; [done |]. intros _ Hs. apply unmarked_app. intros ->.
  apply not_true_iff_false in Hs. destruct Hs. apply starts_with_spec. by exists s.
Qed.

Lemma unmarked_reasons input :
  (∀ d, safety_decision input = Some d → unmarked (summary d)) → Forall unmarked (reasons (evaluate_gates input)).
Proof.
  intros Hs. apply Forall_forall. intros r Hin. unfold evaluate_gates in Hin. cbn [reasons] in Hin.
  rewrite gates_reasons in Hin. apply (rec_reasons _ _ (gates_recorded input)) in Hin as (g & Hg & Hr).
  pose proof (unmarked_details _ Hs) as Hall. rewrite Forall_forall in Hall. specialize (Hall _ Hg).
  destruct Hr as [->| ->]; [done |]. destruct (detail g) as [|c s] eqn:E; [done |]. rewrite <-E in *.
  apply unmarked_more; [by rewrite E | done].
Qed.

(** ** The wave *)

Definition item_verdict (item : string * AdpInput) : AdpVerdict := verdict (evaluate_gates item.2).
Definition high_blast (item : string * AdpInput) : bool := 5 <? default 0 (blast_radius_risk item.2).

(** The step, with the verdict of its item named. *)
Lemma wave_step_eq a i :
  wave_step a i =
  {| wa_decisions := wa_decisions a ++ [{| file_path := i.1; decision := evaluate_gates i.2 |}];
     wa_blocking := match item_verdict i with Deny | Abstain => wa_blocking a ++ [i.1] | Allow => wa_blocking a end;
     wa_deny := wa_deny a || bool_decide (item_verdict i = Deny);
     wa_abstain := wa_abstain a || bool_decide (item_verdict i = Abstain);
     wa_high_blast := if high_blast i then wa_high_blast a + 1 else wa_high_blast a |}.
Proof. unfold wave_step, item_verdict, high_blast. reflexivity. Qed.

Lemma wave_fold l :
  let a := foldl wave_step wave_start l in
  wa_decisions a = (λ i, {| file_path := i.1; decision := evaluate_gates i.2 |}) <$> l ∧
  wa_blocking a = fst <$> filter (λ i, item_verdict i ≠ Allow) l ∧
  (wa_deny a = true ↔ ∃ i, i ∈ l ∧ item_verdict i = Deny) ∧
  (wa_abstain a = true ↔ ∃ i, i ∈ l ∧ item_verdict i = Abstain) ∧
  wa_high_blast a = N.of_nat (length (filter (λ i, high_blast i = true) l)).
Proof.
  assert (Hex : ∀ (P : string * AdpInput → Prop) i l, (∃ x, x ∈ l ∧ P x) ∨ P i ↔ ∃ x, x ∈ l ++ [i] ∧ P x).
  { intros P i l0. set_solver. }
  induction l as [|i l IH] using rev_ind.
  { do 2 (split; [done |]). split; [| split; [| done]]; (split; [done | by intros (? & ?%elem_of_nil & _)]). }
  cbv zeta in *. rewrite foldl_app. cbn [foldl]. set (a := foldl wave_step wave_start l) in *.
  destruct IH as (H1 & H2 & H3 & H4 & H5). rewrite wave_step_eq.
  cbn [wa_decisions wa_blocking wa_deny wa_abstain wa_high_blast].
  rewrite fmap_app, !filter_app, fmap_app, length_app, H1, H2, H5, !orb_true_iff, H3, H4, !bool_decide_eq_true.
  rewrite !(Hex _ i l). split; [done |]. split; [| split; [done | split; [done |]]].
  - rewrite filter_cons. destruct (item_verdict i); simpl; by rewrite ?app_nil_r.
  - rewrite filter_cons. destruct (high_blast i); simpl; lia.
Qed.

(** ** Names of the failed gates *)

(** The identifiers of the gates, and the names they are displayed under. *)
Definition gate_ids : list string :=
  ["extraction_confidence"; "trace_certainty"; "safety_policy"; "retrieval_quality"; "blast_radius";
   "anti_pattern"; "runtime_evidence"; "evidence_sufficiency"].
Definition gate_names : list string :=
  ["Extraction Confidence"; "Trace Certainty"; "Safety Policy"; "Retrieval Quality"; "Blast Radius / Risk";
   "Anti-Pattern Guard"; "Runtime Evidence"; "Evidence Sufficiency"].

Lemma gates_ids_names input :
  gate_id <$> gate_results (evaluate_gates input) = gate_ids ∧
  gate_name <$> gate_results (evaluate_gates input) = gate_names.
Proof.
  unfold evaluate_gates. cbn [gate_results]. rewrite (proj1 (gates_results_failed input)), !fmap_app.
  assert (H1 : gate_id <$> seven input = take 7 gate_ids).
  { pose proof (f_equal (fmap fst) (seven_ids_names input)) as H. rewrite <-list_fmap_compose in H. exact H. }
  assert (H2 : gate_name <$> seven input = take 7 gate_names).
  { pose proof (f_equal (fmap snd) (seven_ids_names input)) as H. rewrite <-list_fmap_compose in H. exact H. }
  by rewrite H1, H2.
Qed.

Lemma by_name_other results name : name ∉ gate_name <$> results → by_name results name = None.
Proof.
  intros Hn. unfold by_name. assert (filter (λ g, gate_name g = name) results = []) as ->; [| done].
  induction results as [|g l IH]; [done |]. rewrite fmap_cons, not_elem_of_cons in Hn.
  rewrite filter_cons_False by naive_solver. apply IH, Hn.
Qed.

(** ** The confusion matrix *)

Definition count_results (P : AdpCorpusResult → bool) (rs : list AdpCorpusResult) : N :=
  N.of_nat (length (filter (λ r, P r = true) rs)).

Lemma count_results_cons P r rs : count_results P (r :: rs) = (if P r then 1 else 0) + count_results P rs.
Proof. unfold count_results. rewrite filter_cons. destruct (P r); simpl; lia. Qed.

Lemma count_results_split (P Q R : AdpCorpusResult → bool) rs :
  (∀ r, r ∈ rs → (if P r then 1 else 0) = (if Q r then 1 else 0) + (if R r then 1 else 0)) →
  count_results P rs = count_results Q rs + count_results R rs.
Proof.
  induction rs as [|r rs IH]; intros H; [done |]. rewrite !count_results_cons, IH by (intros; apply H; set_solver).
  specialize (H r ltac:(set_solver)). lia.
Qed.

Definition in_cell (c : Cell) (r : AdpCorpusResult) : bool := bool_decide (cell_of r = c).

(** Every cell counts the results that fall in it. *)
Lemma from_results_cells rs :
  let m := from_results rs in
  total m = N.of_nat (length rs) ∧
  true_allow m = count_results (in_cell TrueAllow) rs ∧ true_deny m = count_results (in_cell TrueDeny) rs ∧
  true_abstain m = count_results (in_cell TrueAbstain) rs ∧
  false_allow m = count_results (in_cell FalseAllow) rs ∧ false_deny m = count_results (in_cell FalseDeny) rs ∧
  mismatched_abstain m = count_results (in_cell MismatchedAbstain) rs.
Proof.
  assert (Hgen : ∀ m, let m' := foldl count_cell m rs in
    total m' = total m ∧
    true_allow m' = true_allow m + count_results (in_cell TrueAllow) rs ∧
    true_deny m' = true_deny m + count_results (in_cell TrueDeny) rs ∧
    true_abstain m' = true_abstain m + count_results (in_cell TrueAbstain) rs ∧
    false_allow m' = false_allow m + count_results (in_cell FalseAllow) rs ∧
    false_deny m' = false_deny m + count_results (in_cell FalseDeny) rs ∧
    mismatched_abstain m' = mismatched_abstain m + count_results (in_cell MismatchedAbstain) rs).
  { induction rs as [|r rs IH]; intros m; [cbn; unfold count_results; cbn; lia |]. cbn [foldl].
    rewrite !count_results_cons. unfold in_cell at 1 3 5 7 9 11.
    destruct (IH (count_cell m r)) as (H1 & H2 & H3 & H4 & H5 & H6 & H7).
    cbv zeta. rewrite H1, H2, H3, H4, H5, H6, H7. unfold count_cell. cbn [total true_allow true_deny true_abstain
      false_allow false_deny mismatched_abstain]. destruct (cell_of r); simpl; lia. }
  exact (Hgen (Build_AdpConfusionMatrix (N.of_nat (length rs)) 0 0 0 0 0 0)).
Qed.

(** A result of the corpus compares the text of its decision's verdict. *)
Definition honest (r : AdpCorpusResult) : Prop :=
  actual_verdict r = verdict_text (verdict (r_decision r)) ∧
  verdict_matches r = String.eqb (actual_verdict r) (r_expected_verdict r).

Lemma run_corpus_honest `{!Lowercase} c rs : run_corpus c = Ok rs → Forall honest rs ∧ length rs = length (scenarios c).
Proof.
  intros Hrs%result_traverse_Ok. split; [| by apply Forall2_length in Hrs].
  apply Forall_forall. intros r Hr. destruct (Forall2_elem_r _ _ _ _ Hrs Hr) as (sc & _ & Hsc).
  unfold run_scenario in Hsc. destruct (replay_from_scenario (input sc)); [done |]. by injection Hsc as <-.
Qed.

(** Where the verdict of a result is the expected one, and where it is
    allowed against the expectation. *)
Lemma honest_cells r :
  honest r →
  verdict_matches r = in_cell TrueAllow r || in_cell TrueDeny r || in_cell TrueAbstain r ∧
  in_cell FalseAllow r = bool_decide (verdict (r_decision r) = Allow) && negb (verdict_matches r).
Proof.
  intros [Ha Hm]. rewrite Hm. unfold in_cell, cell_of. rewrite Ha.
  generalize (r_expected_verdict r). intros e.
  destruct (verdict (r_decision r)); cbn [verdict_text]; rewrite (String.eqb_sym _ e);
    destruct (String.eqb_spec e "allow") as [->|]; [done | | done | | done |];
    destruct (String.eqb_spec e "deny") as [->|]; [done | | done | | done |];
    destruct (String.eqb_spec e "abstain") as [->|]; done.
Qed.

(** * Theorems *)

(** C8. The kill switch and the phases enforce what they say: with the
    switch on every decision is a denial, whatever the evidence and the
    phase; otherwise the observing phases always allow and the enforcing ones
    keep the verdict, and the gate results are kept for audit in any case. *)
Theorem rollout_enforces_its_phase d phase kill_switch :
  let d' := apply_rollout_policy d phase kill_switch in
  verdict d' = (if kill_switch then Deny
                else match phase with Shadow | Advisory => Allow | Guarded | Autonomous => verdict d end) ∧
  gate_results d' = gate_results d ∧
  (kill_switch = false → failed_gates d' = failed_gates d ∧ d_confidence d' = d_confidence d) ∧
  (kill_switch = false → phase = Guarded ∨ phase = Autonomous → d' = d).
Proof.
  destruct kill_switch; [done |]. destruct phase; cbn -[String.append]; try destruct (verdict d) eqn:E;
    split_and!; try done; by intros _ [?|?].
Qed.

(** An override is never silent: for a change whose safety decision, if
    any, comes from the safety policy, what the rollout phase overrode is
    read back from the reasons as the phase and the original verdict, and
    nothing is read back where nothing was overridden. *)
Theorem override_is_read_back input phase kill_switch :
  (∀ sd, safety_decision input = Some sd →
     ∃ req enabled min_confidence min_coverage m,
       sd = (evaluate_safety req enabled min_confidence min_coverage m).2) →
  let d := evaluate_gates input in
  detect_rollout_override (reasons (apply_rollout_policy d phase kill_switch)) =
  if kill_switch then None
  else match phase with
       | Shadow => Some ("shadow", verdict_text (verdict d))
       | Advisory => if bool_decide (verdict d = Allow) then None else Some ("advisory", verdict_text (verdict d))
       | Guarded | Autonomous => None
       end.
Proof.
  intros Hsafe d. destruct kill_switch; [done |].
  assert (Hu : Forall unmarked (reasons d)).
  { apply unmarked_reasons. intros sd (? & ? & ? & ? & ? & ->)%Hsafe. apply safety_summary_unmarked. }
  assert (Hnone : detect_rollout_override (reasons d) = None).
  { rewrite <-(app_nil_r (reasons d)). by rewrite detect_unmarked. }
  unfold apply_rollout_policy. destruct phase; [| | done | done].
  - cbn [override_verdict reasons]. rewrite detect_unmarked by done. apply detect_shadow.
  - destruct (verdict d) eqn:E; [done | |]; cbn [override_verdict reasons]; rewrite detect_unmarked by done.
    + apply (detect_advisory Deny).
    + apply (detect_advisory Abstain).
Qed.

(** A wave is as strict as its strictest item: it is denied exactly when
    an item is, allowed exactly when every item is and at most three items
    have a blast radius above five, each item has its own decision in order,
    and the blocking items are exactly the files that are not allowed. *)
Theorem wave_is_as_strict_as_its_items input :
  let w := evaluate_wave input in
  (w_verdict w = Deny ↔ ∃ i, i ∈ items input ∧ item_verdict i = Deny) ∧
  (w_verdict w = Allow ↔
     (∀ i, i ∈ items input → item_verdict i = Allow) ∧
     (length (filter (λ i, high_blast i = true) (items input)) <= 3)%nat) ∧
  item_decisions w = (λ i, {| file_path := i.1; decision := evaluate_gates i.2 |}) <$> items input ∧
  blocking_items w = fst <$> filter (λ i, item_verdict i ≠ Allow) (items input).
Proof.
  destruct (wave_fold (items input)) as (H1 & H2 & H3 & H4 & H5). unfold evaluate_wave.
  cbn [w_verdict item_decisions blocking_items]. set (a := foldl wave_step wave_start (items input)) in *.
  rewrite H5. split; [| split; [| done]].
  - rewrite <-H3. destruct (wa_deny a); [done |]. split; [by case_match | done].
  - set (n := length _) in *.
    assert (Hall : (∀ i, i ∈ items input → item_verdict i = Allow) ↔ wa_deny a = false ∧ wa_abstain a = false).
    { rewrite <-!not_true_iff_false, H3, H4. split.
      - intros H. split; intros (i & Hi & Hv); specialize (H i Hi); congruence.
      - intros [Hd Ha] i Hi. destruct (item_verdict i) eqn:E; [done | destruct Hd | destruct Ha]; eauto. }
    rewrite Hall. destruct (wa_deny a), (wa_abstain a), (N.ltb_spec 3 (N.of_nat n)); simpl; split;
      try done; try (intros [[] ?]; done || lia); intros; (split; [done | lia]).
Qed.

(** The text of a decision loses what it cites: the details of a failed
    gate are looked up by identifier in a map from display names, so every
    failed gate of a decision is printed as having no detail and confidence
    zero, whatever its result says. *)
Theorem failed_gate_details_are_lost input g :
  g ∈ failed_gates (evaluate_gates input) →
  let results := gate_results (evaluate_gates input) in
  failed_gate_detail results g = "(no detail)" ∧ failed_gate_confidence results g = f64_zero ∧
  ∃ x, x ∈ results ∧ gate_id x = g ∧ gate_failed x = true.
Proof.
  intros Hg results. destruct (gates_results_failed input) as [Hr Hf]. destruct (gates_ids_names input) as [Hids Hnames].
  assert (Hin : g ∈ gate_ids).
  { rewrite <-Hids. unfold evaluate_gates in *. cbn [failed_gates gate_results] in *. rewrite Hf in Hg. rewrite Hr.
    unfold failed_ids in Hg. apply list_elem_of_fmap in Hg as (x & -> & [_ Hx]%list_elem_of_filter).
    by apply list_elem_of_fmap_2. }
  assert (Hnot : g ∉ gate_names).
  { unfold gate_ids in Hin. repeat (apply elem_of_cons in Hin as [->|Hin];
      [by apply (bool_decide_eq_false_1 (_ ∈ _)); vm_compute |]). by apply elem_of_nil in Hin. }
  assert (Hnone : by_name results g = None) by (apply by_name_other; unfold results; by rewrite Hnames).
  unfold failed_gate_detail, failed_gate_confidence. rewrite Hnone. split; [done |]. split; [done |].
  unfold results, evaluate_gates in *. cbn [failed_gates gate_results] in *. rewrite Hf in Hg. rewrite Hr.
  apply list_elem_of_fmap in Hg as (x & -> & [Hx Hin']%list_elem_of_filter). eauto.
Qed.

(** The calibration counts are right: a corpus whose scenarios name valid
    risk profiles runs to the end, the six cells of its confusion matrix add
    up to the scenarios, the three agreeing cells count the scenarios whose
    verdict is the expected one, and the dangerous cell counts exactly those
    allowed against the expectation. *)
Theorem confusion_matrix_counts `{!Lowercase} c :
  (∀ sc, sc ∈ scenarios c → is_Some (match risk_profile_from_str (s_risk_profile (input sc)) with
                                     | inr p => Some p | inl _ => None end)) →
  ∃ rs, run_corpus c = Ok rs ∧
    let m := from_results rs in
    total m = N.of_nat (length (scenarios c)) ∧
    true_allow m + true_deny m + true_abstain m + false_allow m + false_deny m + mismatched_abstain m = total m ∧
    true_allow m + true_deny m + true_abstain m = count_results verdict_matches rs ∧
    false_allow m = count_results (λ r, bool_decide (verdict (r_decision r) = Allow) && negb (verdict_matches r)) rs.
Proof.
  intros Hv.
  assert (Hrun : ∃ rs, run_corpus c = Ok rs).
  { unfold run_corpus. induction (scenarios c) as [|sc l IH]; [by exists [] |].
    destruct IH as [rs Hrs]; [intros; apply Hv; set_solver |]. specialize (Hv sc ltac:(set_solver)).
    assert (Hsc : ∃ r, run_scenario sc = Ok r).
    { unfold run_scenario, replay_from_scenario. destruct (risk_profile_from_str _); [by destruct Hv | by eexists]. }
    destruct Hsc as [r Hr]. exists (r :: rs). cbn [result_traverse]. rewrite Hr. cbn [mbind result_bind].
    by rewrite Hrs. }
  destruct Hrun as [rs Hrs]. exists rs. split; [done |]. destruct (run_corpus_honest _ _ Hrs) as [Hh Hlen].
  cbv zeta. destruct (from_results_cells rs) as (-> & -> & -> & -> & -> & -> & ->). rewrite <-Hlen.
  clear Hrs Hlen Hv. rewrite Forall_forall in Hh. split; [done |].
  assert (Hcell : ∀ r, r ∈ rs →
    verdict_matches r = in_cell TrueAllow r || in_cell TrueDeny r || in_cell TrueAbstain r ∧
    in_cell FalseAllow r = bool_decide (verdict (r_decision r) = Allow) && negb (verdict_matches r)).
  { intros r Hr. by apply honest_cells, Hh. }
  split; [| split].
  - clear Hh Hcell. induction rs as [|r rs IH]; [done |]. rewrite !count_results_cons. cbn [length].
    unfold in_cell at 1 3 5 7 9 11. destruct (cell_of r); simpl; lia.
  - clear Hh. induction rs as [|r rs IH]; [done |]. rewrite !count_results_cons.
    rewrite <-IH by (intros; apply Hcell; set_solver).
    rewrite (proj1 (Hcell r ltac:(set_solver))). unfold in_cell. destruct (cell_of r); simpl; lia.
  - clear Hh. induction rs as [|r rs IH]; [done |]. rewrite !count_results_cons.
    rewrite IH by (intros; apply Hcell; set_solver). by rewrite (proj2 (Hcell r ltac:(set_solver))).
Qed.

(** * Witnesses *)

(** A small edit with evidence of every kind but a benchmark, its coverage
    below the policy's minimum. *)
Definition demo_request : SafetyEvalRequest :=
  {| req_project_id := "p"; affected_files := ["a.rs"]; refactor_type := "rename"; impact_node_count := 5;
     impact_confidence := f64_lit 95 100; test_coverage := f64_lit 25 100; anti_pattern_clear := true;
     downstream_dependents := 3; touches_global_state := false; touches_database := false |}.
Definition demo_safety : PolicyDecision :=
  (evaluate_safety demo_request true (f64_lit 7 10) (f64_lit 6 10)
     {| refactors_approved := 0; refactors_blocked := 0 |}).2.
Definition demo_input : AdpInput :=
  {| extraction_confidence := Some (f64_lit 9 10); extraction_band := Some "high"; trace_used_fallback := false;
     trace_candidate_count := 0; safety_decision := Some demo_safety; retrieval_production_ready := None;
     retrieval_ndcg := None; retrieval_recall := None; blast_radius_risk := Some 8;
     blast_radius_band := Some BandHigh; blast_radius_downstream := Some 3; blast_causal_truncated := None;
     immune_verdict := Some "PASS"; immune_confidence := None; require_runtime_evidence := false;
     has_runtime_evidence := false; risk_profile := ProfileMedium; min_extraction_confidence := f64_lit 5 10;
     min_safety_confidence := f64_lit 7 10; max_blast_radius_for_auto := 6; reconciliation := None;
     graph_impact := None; retrieval_mode := Skipped; migration_class := None |}.

Lemma override_is_read_back_witness :
  detect_rollout_override (reasons (apply_rollout_policy (evaluate_gates demo_input) Shadow false))
  = Some ("shadow", "deny").
Proof.
  refine (eq_trans (override_is_read_back demo_input Shadow false _) _).
  - intros sd [= <-]. do 5 eexists. reflexivity.
  - evaluates.
Defined.

Lemma failed_gate_details_are_lost_witness :
  let results := gate_results (evaluate_gates demo_input) in
  failed_gate_detail results "blast_radius" = "(no detail)" ∧
  failed_gate_confidence results "blast_radius" = f64_zero ∧
  ∃ x, x ∈ results ∧ gate_id x = "blast_radius" ∧ gate_failed x = true.
Proof. apply (failed_gate_details_are_lost demo_input "blast_radius"). apply (bool_decide_unpack _). evaluates. Defined.

Definition demo_scenario_input : AdpScenarioInput :=
  {| s_extraction_confidence := Some (f64_lit 9 10); s_extraction_band := Some "high";
     s_trace_used_fallback := false; s_trace_candidate_count := 0; s_safety_allowed := Some true;
     s_safety_confidence := Some (f64_lit 95 100); s_retrieval_production_ready := Some true;
     s_retrieval_ndcg := Some (f64_lit 8 10); s_retrieval_recall := Some (f64_lit 9 10);
     s_blast_radius_risk := Some 2; s_blast_radius_band := Some "Low"; s_blast_radius_downstream := Some 3;
     s_immune_verdict := Some "PASS"; s_immune_confidence := Some (binary_normalize 24 128 5 (-7) false);
     s_require_runtime_evidence := false; s_has_runtime_evidence := false; s_risk_profile := "Medium";
     s_min_extraction_confidence := f64_lit 5 10; s_min_safety_confidence := f64_lit 7 10;
     s_max_blast_radius_for_auto := 6; s_reconciliation_confirmed_ratio := None;
     s_reconciliation_contradicted_ratio := None; s_reconciliation_confidence_delta := None;
     s_reconciliation_static_paths := None; s_retrieval_mode := None; s_migration_class := None;
     s_blast_causal_truncated := None |}.
Definition demo_corpus : AdpCorpus :=
  {| c_schema_version := "1.0.0"; c_name := "demo"; c_description := "";
     scenarios := [{| scenario_id := "s001"; description := "Safe rename"; risk_class := "low";
                      source := "synthetic"; input := demo_scenario_input; expected_verdict := "allow";
                      expected_failed_gates := []; rationale := "" |};
                   {| scenario_id := "s002"; description := "Expected to wait"; risk_class := "low";
                      source := "synthetic"; input := demo_scenario_input; expected_verdict := "abstain";
                      expected_failed_gates := []; rationale := "" |}] |}.

Lemma confusion_matrix_counts_witness :
  ∃ rs, run_corpus (H := ascii_lowercase) demo_corpus = Ok rs ∧
    let m := from_results rs in
    total m = 2 ∧
    true_allow m + true_deny m + true_abstain m + false_allow m + false_deny m + mismatched_abstain m = total m ∧
    true_allow m + true_deny m + true_abstain m = count_results verdict_matches rs ∧
    false_allow m = count_results (λ r, bool_decide (verdict (r_decision r) = Allow) && negb (verdict_matches r)) rs.
Proof.
  apply (confusion_matrix_counts (H := ascii_lowercase) demo_corpus). intros sc Hin.
  apply elem_of_cons in Hin as [->|Hin]; [by exists ProfileMedium |].
  apply elem_of_cons in Hin as [->|Hin]; [by exists ProfileMedium | by apply elem_of_nil in Hin].
Defined.

(** The safe scenario is allowed. *)
Example demo_scenario_allowed :
  (λ d : AdpDecision, verdict d) <$> match replay_from_scenario (H := ascii_lowercase) demo_scenario_input with inr d => Some d | inl _ => None end
  = Some Allow.
Proof. evaluates. Qed.
