(* ===== verification/FileSystem.v ===== *)
(** The file system the path guards ask, as a Unix kernel answers: directories,
    files and symbolic links under canonical absolute paths, directories whose
    entries may not be looked up, and the resolution of a path with at most
    forty links. Paths are [std::path]'s: a raw path keeps the dots (a trailing
    slash resolves like a trailing dot), [path_components] drops them. Names are
    not limited in length. *)
From S2P Require Import Prelude Text.

(** * Definitions *)

(** [std::path::Component] on Unix, where no path has a prefix. *)
Inductive Component := RootDir | CurDir | ParentDir | Normal (name : string).
#[export] Instance Component_eq_dec : EqDecision Component.
Proof. solve_decision. Defined.

(** A [Path] as it is written: only its head may be [RootDir]. *)
Definition path : Type := list Component.

(** [Path::new]. *)
Definition component_of (piece : string) : Component :=
  if String.eqb piece "" || String.eqb piece "." then CurDir
  else if String.eqb piece ".." then ParentDir
  else Normal piece.
Definition path_of (s : string) : path :=
  match split_char "/" s with
  | [""] => []
  | "" :: rest => RootDir :: (component_of <$> rest)
  | pieces => component_of <$> pieces
  end.

(** [Path::components]: a dot counts at the head only. *)
Definition drop_dots (p : path) : path := filter (λ c, c ≠ CurDir) p.
Definition path_components (p : path) : path :=
  match p with CurDir :: rest => CurDir :: drop_dots rest | _ => drop_dots p end.
Definition is_absolute (p : path) : bool := match p with RootDir :: _ => true | _ => false end.

(** [Path::join]: an absolute path replaces, an empty one leaves a trailing
    slash. [PathBuf::push] of one component. *)
Definition path_join (p q : path) : path :=
  match q with
  | RootDir :: _ => q
  | [] => match p with [] => [] | _ => p ++ [CurDir] end
  | _ => p ++ q
  end.
Definition push (p : path) (c : Component) : path := path_join p [c].

(** [Path::parent] and [Path::file_name]. *)
Definition path_parent (p : path) : option path :=
  let cs := path_components p in
  match last cs with
  | None | Some RootDir => None
  | Some _ => Some (take (length cs - 1) cs)
  end.
Definition path_file_name (p : path) : option string :=
  match last (path_components p) with Some (Normal n) => Some n | _ => None end.

(** [Path::starts_with], of the components. *)
Fixpoint comps_start_with (p root : path) : bool :=
  match root, p with
  | [], _ => true
  | c :: root', d :: p' => bool_decide (c = d) && comps_start_with p' root'
  | _, [] => false
  end.
Definition path_starts_with (p root : path) : bool :=
  comps_start_with (path_components p) (path_components root).

(** A path in a message. *)
Definition show_component (c : Component) : string :=
  match c with RootDir => "" | CurDir => "." | ParentDir => ".." | Normal n => n end.
Definition show_path (p : path) : string := join "/" (show_component <$> p).

Inductive Node := Dir | File (content : string) | Link (target : path).

#[export] Instance Node_eq_dec : EqDecision Node.
Proof. solve_decision. Defined.

Record FS := {
  nodes : gmap (list string) Node;   (** by canonical path; the root is a directory *)
  sealed : gset (list string);       (** directories without search permission *)
  cwd : list string;
}.

(** How a system call fails, and its message. *)
Inductive IoError :=
  NotFound | NotADirectory | TooManyLinks | PermissionDenied | IsADirectory | InvalidData | InvalidInput.
#[export] Instance IoError_eq_dec : EqDecision IoError.
Proof. solve_decision. Defined.
Definition show_io (e : IoError) : string :=
  match e with
  | NotFound => "No such file or directory (os error 2)"
  | NotADirectory => "Not a directory (os error 20)"
  | TooManyLinks => "Too many levels of symbolic links (os error 40)"
  | PermissionDenied => "Permission denied (os error 13)"
  | IsADirectory => "Is a directory (os error 21)"
  | InvalidData => "stream did not contain valid UTF-8"
  | InvalidInput => "file name contained an unexpected NUL byte"
  end.

Definition io (A : Type) : Type := IoError + A.

Definition MAX_LINKS : nat := 40.

(** Resolution of the components [todo] from the directory [cur]. Every link
    uses one of the remaining [links], every other step a component. *)
Fixpoint walk (fs : FS) (links : nat) : list string → path → io (list string) :=
  fix go cur todo :=
    match todo with
    | [] => inr cur
    | RootDir :: rest => go [] rest
    | c :: rest =>
        if bool_decide (cur ∈ sealed fs) then inl PermissionDenied
        else match c with
             | RootDir | CurDir => go cur rest
             | ParentDir => go (take (length cur - 1) cur) rest
             | Normal n =>
                 match nodes fs !! (cur ++ [n]) with
                 | None => inl NotFound
                 | Some Dir => go (cur ++ [n]) rest
                 | Some (File _) => match rest with [] => inr (cur ++ [n]) | _ => inl NotADirectory end
                 | Some (Link target) =>
                     match links with
                     | O => inl TooManyLinks
                     | S links' => walk fs links' cur (target ++ rest)
                     end
                 end
             end
    end.

(** A path with a NUL byte never reaches the kernel. *)
Definition has_nul (p : path) : bool :=
  existsb (λ c, match c with Normal n => contains_char NUL n | _ => false end) p.
Definition resolve (fs : FS) (p : path) : io (list string) :=
  if has_nul p then inl InvalidInput
  else match p with [] => inl NotFound | _ => walk fs MAX_LINKS (cwd fs) p end.

(** The absolute path of a canonical location. *)
Definition abs (l : list string) : path := RootDir :: (Normal <$> l).

(** [std::fs::canonicalize]. *)
Definition canonicalize (fs : FS) (p : path) : io path :=
  match resolve fs p with inl e => inl e | inr l => inr (abs l) end.

(** What is at a location, and the node a last name stands for without
    following it: [std::fs::symlink_metadata]. *)
Definition node_at (fs : FS) (l : list string) : option Node :=
  match l with [] => Some Dir | _ => nodes fs !! l end.
Definition lookup_in (fs : FS) (dir : list string) (n : string) : io Node :=
  match node_at fs dir with
  | Some Dir =>
      if bool_decide (dir ∈ sealed fs) then inl PermissionDenied
      else match nodes fs !! (dir ++ [n]) with Some node => inr node | None => inl NotFound end
  | Some _ => inl NotADirectory
  | None => inl NotFound
  end.
Definition symlink_metadata (fs : FS) (p : path) : io Node :=
  match last p with
  | Some (Normal n) =>
      if has_nul p then inl InvalidInput
      else match (match take (length p - 1) p with
                  | [] => inr (cwd fs)
                  | dir => resolve fs dir
                  end) with
           | inl e => inl e
           | inr d => lookup_in fs d n
           end
  | _ =>
      match resolve fs p with
      | inl e => inl e
      | inr l => match node_at fs l with Some node => inr node | None => inl NotFound end
      end
  end.
Definition is_symlink (n : Node) : bool := match n with Link _ => true | _ => false end.

(** [open(2)] for reading with [O_NOFOLLOW]: a link as the last name fails. *)
Definition open_nofollow_flag (fs : FS) (p : path) : io Node :=
  match symlink_metadata fs p with
  | inr (Link _) => inl TooManyLinks
  | r => r
  end.
(** [read_to_string] on an open handle. *)
Definition read_handle (n : Node) : io string :=
  match n with
  | File content => if utf8_valid content then inr content else inl InvalidData
  | _ => inl IsADirectory
  end.

(** A location that is walked to without a link. *)
Definition reach (fs : FS) (l : list string) : Prop :=
  walk fs 0 [] (Normal <$> l) = inr l.

(** A file system is a tree of names without NUL, and the working directory
    can be walked to. *)
Record fs_wf (fs : FS) : Prop := {
  wf_parent : ∀ l n node, nodes fs !! (l ++ [n]) = Some node → node_at fs l = Some Dir;
  wf_names : ∀ l node, nodes fs !! l = Some node → has_nul (Normal <$> l) = false;
  wf_cwd : reach fs (cwd fs);
  wf_cwd_dir : node_at fs (cwd fs) = Some Dir;
}.


(** The same, evaluated. *)
Definition is_tree (fs : FS) : bool :=
  bool_decide (map_Forall (λ l _, node_at fs (take (length l - 1) l) = Some Dir ∧
                                  has_nul (Normal <$> l) = false) (nodes fs))
  && bool_decide (walk fs 0 [] (Normal <$> cwd fs) = inr (cwd fs))
  && bool_decide (node_at fs (cwd fs) = Some Dir).

(** * Lemmas *)

Lemma is_tree_wf fs : is_tree fs = true → fs_wf fs.
Proof.
  unfold is_tree. rewrite !andb_true_iff, !bool_decide_eq_true. intros [[H ?] ?]. split; [..| done | done].
  - intros l n node Hn. apply H in Hn as [Hn _]. by rewrite length_app, Nat.add_sub, take_app_length in Hn.
  - intros l node Hn. by apply H in Hn as [_ Hn].
Qed.

Lemma walk_eq fs k cur todo :
  walk fs k cur todo =
  match todo with
  | [] => inr cur
  | RootDir :: rest => walk fs k [] rest
  | c :: rest =>
      if bool_decide (cur ∈ sealed fs) then inl PermissionDenied
      else match c with
           | RootDir | CurDir => walk fs k cur rest
           | ParentDir => walk fs k (take (length cur - 1) cur) rest
           | Normal n =>
               match nodes fs !! (cur ++ [n]) with
               | None => inl NotFound
               | Some Dir => walk fs k (cur ++ [n]) rest
               | Some (File _) => match rest with [] => inr (cur ++ [n]) | _ => inl NotADirectory end
               | Some (Link target) =>
                   match k with O => inl TooManyLinks | S k' => walk fs k' cur (target ++ rest) end
               end
           end
  end.
Proof. destruct k, todo as [|[| | |n] rest]; reflexivity. Qed.

Lemma node_at_snoc fs l n : node_at fs (l ++ [n]) = nodes fs !! (l ++ [n]).
Proof. unfold node_at. destruct (l ++ [n]) eqn:E; [by destruct l | done]. Qed.

Lemma walk_nil fs k cur : walk fs k cur [] = inr cur.
Proof. by rewrite walk_eq. Qed.

(** One name of a walk that succeeds. *)
Lemma walk_name fs k cur n rest l :
  walk fs k cur (Normal n :: rest) = inr l ↔
  cur ∉ sealed fs ∧
  ((nodes fs !! (cur ++ [n]) = Some Dir ∧ walk fs k (cur ++ [n]) rest = inr l) ∨
   (∃ c, nodes fs !! (cur ++ [n]) = Some (File c) ∧ rest = [] ∧ l = cur ++ [n]) ∨
   (∃ t k', nodes fs !! (cur ++ [n]) = Some (Link t) ∧ k = S k' ∧ walk fs k' cur (t ++ rest) = inr l)).
Proof.
  rewrite walk_eq. case_bool_decide; [split; [done | tauto] |].
  destruct (nodes fs !! (cur ++ [n])) as [[|c|t]|].
  - naive_solver.
  - destruct rest; naive_solver.
  - destruct k; naive_solver.
  - naive_solver.
Qed.

(** A walk that succeeds passes through the end of each of its prefixes. *)
Lemma walk_split fs k cur p q l :
  walk fs k cur (p ++ q) = inr l →
  ∃ k' c, walk fs k cur p = inr c ∧ walk fs k' c q = inr l.
Proof.
  revert cur p. induction k as [k IHk] using lt_wf_ind. intros cur p. revert cur.
  induction p as [|c p IHp]; intros cur; [rewrite walk_nil; eauto |].
  cbn [app]. destruct c as [| | |n].
  - rewrite (walk_eq _ _ _ (_ :: _)), (walk_eq _ _ _ (RootDir :: p)). apply IHp.
  - rewrite (walk_eq _ _ _ (_ :: _)), (walk_eq _ _ _ (CurDir :: p)).
    case_bool_decide; [done | apply IHp].
  - rewrite (walk_eq _ _ _ (_ :: _)), (walk_eq _ _ _ (ParentDir :: p)).
    case_bool_decide; [done | apply IHp].
  - rewrite walk_name. setoid_rewrite walk_name. intros (Hs & [[Hn Hw]|[(c & Hn & Hr & ->)|(t & k' & Hn & -> & Hw)]]).
    + apply IHp in Hw as (k' & c & ? & ?). naive_solver.
    + apply app_eq_nil in Hr as [-> ->]. exists 0%nat, (cur ++ [n]). rewrite walk_nil. naive_solver.
    + rewrite app_assoc in Hw. apply IHk in Hw as (k2 & c & ? & ?); [| lia]. exists k2, c. naive_solver.
Qed.

(** Without links a walk of names ends where it is told to. *)
Lemma walk_names fs cur ns l : walk fs 0 cur (Normal <$> ns) = inr l → l = cur ++ ns.
Proof.
  revert cur. induction ns as [|n ns IH]; intros cur; cbn [fmap list_fmap].
  - rewrite walk_nil, app_nil_r. congruence.
  - rewrite walk_name. intros (_ & [[_ H]|[(c & _ & H & ->)|(t & k & _ & [=] & _)]]).
    + apply IH in H as ->. by rewrite <-app_assoc.
    + by apply fmap_nil_inv in H as ->.
Qed.

Lemma walk_more_links fs k cur ns l :
  walk fs 0 cur (Normal <$> ns) = inr l → walk fs k cur (Normal <$> ns) = inr l.
Proof.
  revert cur. induction ns as [|n ns IH]; intros cur; cbn [fmap list_fmap]; [by rewrite !walk_nil |].
  rewrite !walk_name. intros (Hs & [[Hn H]|[H|(t & k' & _ & [=] & _)]]); naive_solver.
Qed.

(** A walk goes on from a directory it reached. *)
Lemma walk_app fs k cur p c :
  walk fs k cur p = inr c → p = [] ∨ node_at fs c = Some Dir →
  ∃ k', (k' <= k)%nat ∧ ∀ q, walk fs k cur (p ++ q) = walk fs k' c q.
Proof.
  intros H Hd. destruct (decide (p = [])) as [->|Hp].
  { rewrite walk_nil in H. injection H as ->. by exists k. }
  destruct Hd as [|Hd]; [done |]. clear Hp. revert cur p H.
  induction k as [k IHk] using lt_wf_ind. intros cur p. revert cur.
  induction p as [|x p IHp]; intros cur H.
  { rewrite walk_nil in H. injection H as ->. by exists k. }
  cbn [app]. setoid_rewrite (walk_eq _ _ _ (x :: p ++ _)). rewrite walk_eq in H.
  destruct x as [| | |n]; [by apply IHp | | |]; (case_bool_decide; [done |]); [by apply IHp.. |].
  destruct (nodes fs !! (cur ++ [n])) as [[|f|t]|] eqn:Hn; [by apply IHp | | | done].
  - destruct p; [| done]. injection H as <-. rewrite node_at_snoc in Hd. congruence.
  - destruct k as [|k]; [done |]. setoid_rewrite app_assoc.
    destruct (IHk k ltac:(lia) _ _ H) as (k' & ? & ?). exists k'. split; [lia | done].
Qed.

Lemma walk_names_app fs cur ns q c :
  walk fs 0 cur (Normal <$> ns) = inr c → ns = [] ∨ node_at fs c = Some Dir →
  walk fs 0 cur ((Normal <$> ns) ++ q) = walk fs 0 c q.
Proof.
  intros H Hd. destruct (walk_app _ _ _ _ _ H) as (k & Hk & ->).
  - destruct Hd as [-> | ?]; auto.
  - by replace k with 0%nat by lia.
Qed.

Lemma reach_nil fs : reach fs [].
Proof. apply walk_nil. Qed.

Lemma reach_snoc fs l n :
  reach fs l → node_at fs l = Some Dir → l ∉ sealed fs →
  (nodes fs !! (l ++ [n]) = Some Dir ∨ ∃ c, nodes fs !! (l ++ [n]) = Some (File c)) →
  reach fs (l ++ [n]).
Proof.
  unfold reach. intros Hr Hd Hs Hn. rewrite fmap_app, (walk_names_app _ _ _ _ l) by auto.
  apply walk_name. split; [done |]. rewrite walk_nil.
  destruct Hn as [Hn|[c Hn]]; [left | right; left]; naive_solver.
Qed.

Lemma reach_parent fs l n : fs_wf fs → reach fs (l ++ [n]) → reach fs l ∧ node_at fs l = Some Dir.
Proof.
  unfold reach. rewrite fmap_app. intros Hwf H. apply walk_split in H as (k & c & H1 & H2).
  pose proof (walk_names _ _ _ _ H1) as ->. split; [done |]. cbn [fmap list_fmap app] in H2.
  apply walk_name in H2 as (_ & H2).
  destruct H2 as [[H2 _]|[(? & H2 & _)|(? & ? & H2 & _)]]; by eapply wf_parent.
Qed.

(** A walk ends at a location that needs no link, and at a directory unless its
    last component is a name. *)
Lemma walk_reach fs k cur p l :
  fs_wf fs → reach fs cur → node_at fs cur = Some Dir → walk fs k cur p = inr l →
  reach fs l ∧ is_Some (node_at fs l) ∧ (node_at fs l = Some Dir ∨ ∃ n, last p = Some (Normal n)).
Proof.
  intros Hwf. revert cur p. induction k as [k IHk] using lt_wf_ind. intros cur p. revert cur.
  induction p as [|c p IHp]; intros cur Hr Hd; [rewrite walk_nil; intros [= <-]; eauto |].
  assert (Hlast : ∀ n, last p = Some (Normal n) → last (c :: p) = Some (Normal n)).
  { intros n Hn. by rewrite last_cons, Hn. }
  assert (Hgo : ∀ cur', reach fs cur' → node_at fs cur' = Some Dir → walk fs k cur' p = inr l →
    reach fs l ∧ is_Some (node_at fs l) ∧ (node_at fs l = Some Dir ∨ ∃ n, last (c :: p) = Some (Normal n))).
  { intros cur' ? ? Hw. apply IHp in Hw as (? & ? & Hw); [| done..]. naive_solver. }
  clear IHp. destruct c as [| | |n].
  - rewrite walk_eq. apply Hgo; [apply reach_nil | done].
  - rewrite walk_eq. case_bool_decide; [done | by apply Hgo].
  - rewrite walk_eq. case_bool_decide; [done |].
    destruct cur as [|m cur _] using rev_ind; [by apply Hgo |].
    rewrite length_app, Nat.add_sub, take_app_length. apply reach_parent in Hr as [??]; [by apply Hgo | done].
  - rewrite walk_name. intros (Hs & [[Hn Hw]|[(c & Hn & -> & ->)|(t & k' & Hn & -> & Hw)]]).
    + apply Hgo in Hw; [done | apply reach_snoc; auto | by rewrite node_at_snoc].
    + rewrite node_at_snoc, Hn. split; [apply reach_snoc; eauto |]. eauto.
    + apply IHk in Hw as (? & ? & Hw); [| lia | done..]. split_and!; [done.. |].
      destruct Hw as [?|[m Hm]]; [by left | right]. rewrite last_app in Hm. rewrite last_cons.
      destruct (last p); eauto.
Qed.

Lemma resolve_walk fs p l :
  resolve fs p = inr l ↔ has_nul p = false ∧ p ≠ [] ∧ walk fs MAX_LINKS (cwd fs) p = inr l.
Proof. unfold resolve. generalize MAX_LINKS. destruct (has_nul p), p; naive_solver. Qed.

Lemma resolve_reach fs p l :
  fs_wf fs → resolve fs p = inr l →
  reach fs l ∧ is_Some (node_at fs l) ∧ (node_at fs l = Some Dir ∨ ∃ n, last p = Some (Normal n)).
Proof.
  intros Hwf (_ & _ & H)%resolve_walk.
  eapply walk_reach; [done | apply wf_cwd | apply wf_cwd_dir |]; done.
Qed.

Lemma reach_names fs l : fs_wf fs → reach fs l → has_nul (Normal <$> l) = false.
Proof.
  intros Hwf H. destruct l as [|n l _] using rev_ind; [done |].
  unfold reach in H. rewrite fmap_app in H. apply walk_split in H as (k & c & H1 & H2).
  pose proof (walk_names _ _ _ _ H1) as ->. apply walk_name in H2 as (_ & H2).
  destruct H2 as [[H2 _]|[(? & H2 & _)|(? & ? & H2 & _)]]; by eapply wf_names.
Qed.

Lemma resolve_abs fs l : fs_wf fs → reach fs l → resolve fs (abs l) = inr l.
Proof.
  intros Hwf H. unfold resolve, abs. pose proof (reach_names _ _ Hwf H) as Hn.
  unfold has_nul in *. cbn [existsb orb]. rewrite Hn, walk_eq. by apply walk_more_links.
Qed.

(** A canonical path is its own canonical path. *)
Lemma canonicalize_idempotent fs p q :
  fs_wf fs → canonicalize fs p = inr q → canonicalize fs q = inr q ∧ ∃ l, q = abs l ∧ resolve fs p = inr l.
Proof.
  unfold canonicalize at 1. intros Hwf H. destruct (resolve fs p) as [|l] eqn:E; [done |].
  injection H as <-. apply resolve_reach in E as [Hr _]; [| done]. unfold canonicalize.
  rewrite resolve_abs by done. eauto.
Qed.

Lemma drop_dots_cons c p : c ≠ CurDir → drop_dots (c :: p) = c :: drop_dots p.
Proof. intros H. by apply (filter_cons_True (λ c, c ≠ CurDir) c p). Qed.

Lemma drop_dots_app p q : drop_dots (p ++ q) = drop_dots p ++ drop_dots q.
Proof. apply filter_app. Qed.

Lemma drop_dots_names ns : drop_dots (Normal <$> ns) = Normal <$> ns.
Proof. induction ns as [|n ns IH]; [done |]. cbn [fmap list_fmap]. by rewrite drop_dots_cons, IH. Qed.

Lemma has_nul_app p q : has_nul (p ++ q) = has_nul p || has_nul q.
Proof. apply existsb_app. Qed.

Lemma resolve_split fs p q l :
  p ≠ [] → resolve fs (p ++ q) = inr l → ∃ k c, resolve fs p = inr c ∧ walk fs k c q = inr l.
Proof.
  setoid_rewrite resolve_walk. rewrite has_nul_app. intros Hp ([Hnp Hnq]%orb_false_iff & _ & Hw).
  apply walk_split in Hw as (k & c & ? & ?). by exists k, c.
Qed.

(** Dots between the names change nothing where the path resolves. *)
Lemma walk_drop_dot fs k cur p q l :
  walk fs k cur (p ++ CurDir :: q) = inr l → walk fs k cur (p ++ q) = inr l.
Proof.
  revert cur p. induction k as [k IHk] using lt_wf_ind. intros cur p. revert cur.
  induction p as [|c p IHp]; intros cur; cbn [app].
  { rewrite walk_eq. by case_bool_decide. }
  rewrite (walk_eq _ _ _ (c :: p ++ q)), walk_eq. destruct c as [| | |n]; [apply IHp | | |];
    (case_bool_decide; [done |]); [apply IHp.. |].
  destruct (nodes fs !! (cur ++ [n])) as [[|f|t]|]; [apply IHp | by destruct p | | done].
  destruct k as [|k]; [done |]. rewrite !app_assoc. apply IHk. lia.
Qed.

Lemma resolve_drop_dots fs p q l :
  p ≠ [] → resolve fs (p ++ q) = inr l → resolve fs (p ++ drop_dots q) = inr l.
Proof.
  intros Hp. rewrite !resolve_walk, !has_nul_app. intros ([-> Hq]%orb_false_iff & _ & H).
  split_and!; [| by destruct p |].
  - clear H. induction q as [|c q IH]; [done |]. apply orb_false_iff in Hq as [Hc Hq].
    destruct (decide (c = CurDir)) as [->|]; [by apply IH |]. rewrite drop_dots_cons by done.
    apply IH in Hq. cbn [orb] in Hq |- *. unfold has_nul in *. cbn [existsb]. by rewrite Hc, Hq.
  - clear Hq. revert p Hp H. induction q as [|c q IH]; intros p Hp H; [done |].
    destruct (decide (c = CurDir)) as [->|].
    + apply walk_drop_dot in H. by apply IH in H.
    + rewrite drop_dots_cons by done. rewrite cons_middle, app_assoc in H |- *.
      apply IH in H; [done | by destruct p].
Qed.

(** What is seen without following a link is what the path resolves to. *)
Lemma symlink_metadata_resolve fs p node :
  symlink_metadata fs p = inr node → is_symlink node = false →
  ∃ l, resolve fs p = inr l ∧ node_at fs l = Some node.
Proof.
  unfold symlink_metadata. destruct p as [|x p _] using rev_ind; [done |]. rewrite last_snoc.
  assert (Hr : match resolve fs (p ++ [x]) with
               | inl e => inl e
               | inr l => match node_at fs l with Some node => inr node | None => inl NotFound end
               end = inr node → ∃ l, resolve fs (p ++ [x]) = inr l ∧ node_at fs l = Some node).
  { clear. destruct (resolve fs (p ++ [x])) as [|l]; [discriminate |].
    destruct (node_at fs l) eqn:?; intros [= <-]; eauto. }
  destruct x as [| | |n]; [by auto.. |]. clear Hr.
  rewrite length_app, Nat.add_sub, take_app_length. destruct (has_nul (p ++ [Normal n])) eqn:Hnul; [done |].
  intros H Hlink.
  assert (∃ d, walk fs MAX_LINKS (cwd fs) p = inr d ∧ lookup_in fs d n = inr node) as (d & Hd & Hl).
  { destruct p as [|y p]; [exists (cwd fs); by rewrite walk_nil |]. destruct (resolve fs (y :: p)) as [|d] eqn:E; [discriminate |].
    apply resolve_walk in E as (_ & _ & E). by exists d. }
  clear H. unfold lookup_in in Hl. destruct (node_at fs d) as [[]|] eqn:Hdir; try done.
  case_bool_decide; [done |]. destruct (nodes fs !! (d ++ [n])) as [node'|] eqn:Hn; [| done].
  injection Hl as ->. exists (d ++ [n]). rewrite node_at_snoc. split; [| done].
  apply resolve_walk. split_and!; [done | by destruct p |].
  destruct (walk_app _ _ _ _ _ Hd) as (k & _ & ->); [by right |]. apply walk_name. rewrite walk_nil.
  split; [done |]. destruct node as [|f|t]; [by left | right; left; by exists f | done].
Qed.

Lemma path_starts_with_spec p root :
  path_starts_with p root = true ↔ path_components root `prefix_of` path_components p.
Proof.
  unfold path_starts_with. generalize (path_components p). generalize (path_components root). clear.
  intros root. induction root as [|c root IH]; intros p.
  { split; [intros _; apply prefix_nil | by destruct p]. }
  destruct p as [|d p]; simpl.
  - split; [done |]. intros H. by apply prefix_nil_inv in H.
  - rewrite andb_true_iff, bool_decide_eq_true, IH. split.
    + intros [-> H]. by apply prefix_cons.
    + intros H. split; [by eapply prefix_cons_inv_1 | by eapply prefix_cons_inv_2].
Qed.

Lemma path_components_abs_app l q : path_components (abs l ++ q) = abs l ++ drop_dots q.
Proof.
  unfold path_components, abs. cbn [app]. rewrite drop_dots_cons by done.
  by rewrite drop_dots_app, drop_dots_names.
Qed.

Lemma path_components_abs l : path_components (abs l) = abs l.
Proof. rewrite <-(app_nil_r (abs l)) at 1. by rewrite path_components_abs_app, app_nil_r. Qed.
