(* ===== verification/SafePath.v ===== *)
(** [engram_core::security], the path guards: [PathContext] with its allowed
    roots and [resolve_path], and [safe_join], [safe_open_read] and
    [safe_read_to_string] for a path below a project directory. A guard asks the
    file system of FileSystem.v; the check and the [open] it protects may see
    two different ones. *)
From S2P Require Import Prelude Text FileSystem Store.

(** * Definitions *)

Record PathContext := { allowed_roots : list path }.
Definition roots (self : PathContext) : list path := allowed_roots self.

(** On Unix nothing is stripped. *)
Definition strip_unc_prefix (p : path) : path := p.

(** [PathContext::new]: the roots that canonicalize, and the others' messages. *)
Fixpoint usable_roots (fs : FS) (l : list path) : list path * list string :=
  match l with
  | [] => ([], [])
  | r :: rest =>
      let '(ok, skipped) := usable_roots fs rest in
      match canonicalize fs r with
      | inr canon => (strip_unc_prefix canon :: ok, skipped)
      | inl e => (ok, (show_path r +:+ " (" +:+ show_io e +:+ ")") :: skipped)
      end
  end.
Definition PathContext_new (fs : FS) (allowed : list path) : result PathContext :=
  match allowed with
  | [] => Fail (Config "allowed_roots cannot be empty" [])
  | _ =>
      let '(ok, skipped) := usable_roots fs allowed in
      match ok with
      | [] => Fail (Config "no usable allowed root remains — every configured allowed root is unreachable: {}"
                     [join "; " skipped])
      | _ => Ok {| allowed_roots := ok |}
      end
  end.

(** The components below [partial], one after the other: none may be a link,
    and a failure other than [NotFound] counts as one. *)
Fixpoint check_links (fs : FS) (symlink : path → Err) (unverified : path → IoError → Err)
    (partial : path) (comps : list Component) : result () :=
  match comps with
  | [] => Ok tt
  | c :: rest =>
      let partial := push partial c in
      match symlink_metadata fs partial with
      | inr meta =>
          if is_symlink meta then Fail (symlink partial)
          else check_links fs symlink unverified partial rest
      | inl NotFound => check_links fs symlink unverified partial rest
      | inl e => Fail (unverified partial e)
      end
  end.

Definition MAX_ANCESTOR_DEPTH : nat := 128.
Definition MAX_CANONICAL_DEPTH : nat := 128.

Definition traversal_detected : string := "cannot access {input:?}: path traversal via '..' detected".

Definition suffix_symlink (input partial : path) : Err :=
  PathNotAllowed "cannot access {input:?}: symlink in unresolved path component {partial:?}"
    [show_path input; show_path partial].
Definition suffix_unverified (input partial : path) (e : IoError) : Err :=
  PathNotAllowed "cannot access {input:?}: unable to verify path component {partial:?}: {e}"
    [show_path input; show_path partial; show_io e].

(** Below the nearest ancestor that exists. *)
Definition below_ancestor (fs : FS) (input canon_ancestor suffix : path) : result path :=
  if bool_decide (ParentDir ∈ path_components suffix) then
    Fail (PathNotAllowed traversal_detected [show_path input])
  else
    _ ← check_links fs (suffix_symlink input) (suffix_unverified input)
          canon_ancestor (path_components suffix);
    Ok (path_join canon_ancestor suffix).

(** The loop over the ancestors; [fuel] counts the levels left. *)
Fixpoint ascend (fs : FS) (input : path) (fuel : nat) (ancestor suffix : path) : result path :=
  match fuel with
  | O => Fail (PathNotAllowed "cannot access {input:?}: ancestor walk exceeded {MAX_ANCESTOR_DEPTH} levels"
                 [show_path input])
  | S fuel =>
      match path_parent ancestor with
      | None => Fail (PathNotAllowed "cannot access {input:?}: no existing ancestor directory found"
                        [show_path input])
      | Some parent =>
          let suffix := match path_file_name ancestor with
                        | Some name => path_join [Normal name] suffix
                        | None => suffix
                        end in
          match canonicalize fs parent with
          | inr canon_ancestor => below_ancestor fs input canon_ancestor suffix
          | inl _ => ascend fs input fuel parent suffix
          end
      end
  end.

Definition resolve_path (fs : FS) (self : PathContext) (input : path) : result path :=
  canon ← match canonicalize fs input with
          | inr canon => Ok canon
          | inl _ => ascend fs input MAX_ANCESTOR_DEPTH input []
          end;
  let canon := strip_unc_prefix canon in
  let canonical_depth := length (path_components canon) in
  if bool_decide (MAX_CANONICAL_DEPTH < canonical_depth)%nat then
    Fail (PathNotAllowed "{canon:?} resolved to {canonical_depth} components, exceeding the maximum allowed depth of {MAX_CANONICAL_DEPTH}"
            [show_path canon; show_u64 (N.of_nat canonical_depth)])
  else if existsb (path_starts_with canon) (allowed_roots self) then Ok canon
  else Fail (PathNotAllowed "{canon:?} is outside allowed_roots" [show_path canon]).

Definition reserved_names : list string :=
  ["CON"; "PRN"; "AUX"; "NUL"; "COM0"; "COM1"; "COM2"; "COM3"; "COM4"; "COM5"; "COM6"; "COM7"; "COM8";
   "COM9"; "LPT0"; "LPT1"; "LPT2"; "LPT3"; "LPT4"; "LPT5"; "LPT6"; "LPT7"; "LPT8"; "LPT9"].
Definition is_windows_reserved_name (name : string) : bool :=
  let stem := default name (head (split_char "." name)) in
  bool_decide (string_map to_ascii_upper stem ∈ reserved_names).

(** The components of [sub_path], until one is refused. *)
Fixpoint check_components (sub_path : string) (comps : list Component) : result () :=
  match comps with
  | [] => Ok tt
  | ParentDir :: _ => Fail (PathNotAllowed "path traversal via '..' not allowed: {sub_path:?}" [sub_path])
  | Normal c :: rest =>
      if is_windows_reserved_name c then
        Fail (PathNotAllowed "Windows reserved device name not allowed: {sub_path:?}" [sub_path])
      else check_components sub_path rest
  | _ :: rest => check_components sub_path rest
  end.

Definition safe_join (fs : FS) (base_dir : path) (sub_path : string) : result path :=
  if contains_char NUL sub_path then
    shown ← str_slice_to "safe_join" (Nat.min (String.length sub_path) 80) sub_path;
    Fail (PathNotAllowed "path contains NUL byte: {:?}" [shown])
  else
    let rel := path_of sub_path in
    if is_absolute rel || starts_with "/" sub_path || starts_with "\" sub_path then
      Fail (PathNotAllowed "absolute path not allowed: {sub_path:?}" [sub_path])
    else
      _ ← check_components sub_path (path_components rel);
      _ ← check_links fs
            (λ partial, PathNotAllowed "symlink not allowed in path: {partial:?}" [show_path partial])
            (λ partial e, PathNotAllowed "ENG-AUD-2026-0006: cannot verify path component {:?}: {e} — failing closed for safety"
                            [show_path partial; show_io e])
            base_dir (path_components rel);
      Ok (path_join base_dir rel).

(** [open_no_follow], where [O_NOFOLLOW] has the value the code gives it. *)
Definition open_no_follow (fs : FS) (p : path) : io Node := open_nofollow_flag fs p.

(** The check sees [fs], the [open] sees [fs']. The metadata of the open handle
    is that of the node. *)
Definition safe_open_read (fs fs' : FS) (base_dir : path) (sub_path : string) : result Node :=
  p ← safe_join fs base_dir sub_path;
  match open_no_follow fs' p with
  | inl e => Fail (PathNotAllowed "AUD-2026-EXH-0007: cannot open {:?} (possible symlink at open boundary): {e}"
                     [show_path p; show_io e])
  | inr file =>
      if is_symlink file then
        Fail (PathNotAllowed "AUD-2026-EXH-0007: symlink detected via handle metadata for {:?}" [show_path p])
      else Ok file
  end.
Definition safe_read_to_string (fs fs' : FS) (base_dir : path) (sub_path : string) : result string :=
  file ← safe_open_read fs fs' base_dir sub_path;
  match read_handle file with
  | inl e => Fail (PathNotAllowed "read error for {sub_path:?}: {e}" [sub_path; show_io e])
  | inr content => Ok content
  end.

(** The names a checked relative path is made of. *)
Definition names_of (comps : list Component) : list string :=
  omap (λ c, match c with Normal n => Some n | _ => None end) comps.
Definition is_dot_or_name (c : Component) : bool :=
  match c with CurDir | Normal _ => true | _ => false end.

(** A project with a link out of it, a link to it, and a file outside. *)
Definition demo_fs : FS := {|
  nodes := list_to_map [
    (["w"], Dir); (["w"; "p"], Dir); (["w"; "p"; "a.txt"], File "hi"); (["w"; "p"; "out"], Link (path_of "/etc"));
    (["w"; "p"; "src"], Dir); (["w"; "p"; "src"; "passwd"], File "ours");
    (["w"; "l"], Link (path_of "p")); (["etc"], Dir); (["etc"; "passwd"], File "root")];
  sealed := ∅;
  cwd := ["w"];
|}.
Definition demo_ctx : PathContext := {| allowed_roots := [path_of "/w/p"] |}.

(** The same after the directory [src] gave way to a link. *)
Definition demo_fs_swapped : FS := {|
  nodes := <[ ["w"; "p"; "src"] := Link (path_of "/etc") ]> (delete ["w"; "p"; "src"; "passwd"] (nodes demo_fs));
  sealed := ∅;
  cwd := ["w"];
|}.
(** The same after the file [a.txt] did. *)
Definition demo_fs_link : FS := {|
  nodes := <[ ["w"; "p"; "a.txt"] := Link (path_of "/etc/passwd") ]> (nodes demo_fs);
  sealed := ∅;
  cwd := ["w"];
|}.

(** * Lemmas *)

Lemma push_dot_or_name p c : is_dot_or_name c = true → push p c = p ++ [c].
Proof. by destruct c. Qed.

(** Components that pass the link check lead nowhere else. *)
Lemma check_links_inside fs symlink unverified partial comps c l :
  fs_wf fs → check_links fs symlink unverified partial comps = Ok tt →
  forallb is_dot_or_name comps = true →
  resolve fs partial = inr c → resolve fs (partial ++ comps) = inr l → l = c ++ names_of comps.
Proof.
  intros Hwf. revert partial c. induction comps as [|x comps IH]; intros partial c Hc Hx Hp Hl.
  { rewrite app_nil_r in Hl |- *. congruence. }
  cbn [forallb] in Hx. apply andb_true_iff in Hx as [Hx Hxs].
  assert (Hne : partial ≠ []) by (intros ->; discriminate Hp).
  cbn [check_links] in Hc. rewrite push_dot_or_name in Hc by done.
  rewrite cons_middle, app_assoc in Hl.
  pose proof Hl as Hl'. apply resolve_split in Hl' as (k & c' & Hc' & _); [| by destruct partial].
  pose proof Hc' as Hc2. apply resolve_split in Hc2 as (k2 & c2 & Hc2 & Hw); [| done].
  rewrite Hp in Hc2. injection Hc2 as <-.
  destruct x as [| | |n]; try discriminate Hx.
  - rewrite walk_eq, walk_nil in Hw. case_bool_decide; [discriminate |]. injection Hw as <-.
    refine (IH (partial ++ [CurDir]) c _ Hxs Hc' Hl).
    destruct (symlink_metadata fs (partial ++ [CurDir])) as [e | m]; [by destruct e |].
    by destruct (is_symlink m).
  - assert (Hmeta : symlink_metadata fs (partial ++ [Normal n]) = lookup_in fs c n).
    { unfold symlink_metadata. rewrite last_snoc, length_app, Nat.add_sub, take_app_length.
      apply resolve_walk in Hc' as [-> _].
      destruct partial; [done |]. by rewrite Hp. }
    rewrite Hmeta in Hc. unfold lookup_in in Hc.
    apply walk_name in Hw as (Hs & Hw). rewrite walk_nil in Hw.
    assert (Hd : node_at fs c = Some Dir).
    { destruct Hw as [[? _]|[(? & ? & _)|(? & ? & ? & _)]]; by eapply wf_parent. }
    rewrite Hd, bool_decide_eq_false_2 in Hc by done.
    assert (c' = c ++ [n] ∧ check_links fs symlink unverified (partial ++ [Normal n]) comps = Ok tt) as [-> Hc2].
    { destruct Hw as [[Hn [= <-]]|[(f & Hn & _ & ->)|(t & k' & Hn & _)]]; rewrite Hn in Hc; done. }
    change (names_of (Normal n :: comps)) with ([n] ++ names_of comps). rewrite app_assoc.
    by apply (IH (partial ++ [Normal n])).
Qed.

Lemma check_components_Ok sub comps :
  check_components sub comps = Ok tt →
  ParentDir ∉ comps ∧ Forall (λ n, is_windows_reserved_name n = false) (names_of comps).
Proof.
  induction comps as [|[| | |n] comps IH]; cbn [check_components]; intros H.
  - split; [apply not_elem_of_nil | constructor].
  - apply IH in H as [? ?]. split; [set_solver | done].
  - apply IH in H as [? ?]. split; [set_solver | done].
  - discriminate.
  - destruct (is_windows_reserved_name n) eqn:E; [discriminate |]. apply IH in H as [? ?].
    split; [set_solver | by constructor].
Qed.

Lemma component_of_not_root s : component_of s ≠ RootDir.
Proof. unfold component_of. repeat case_match; discriminate. Qed.

Lemma path_of_relative s : is_absolute (path_of s) = false → RootDir ∉ path_of s.
Proof.
  assert (Hm : ∀ l : list string, RootDir ∉ (component_of <$> l : list Component)).
  { intros l (x & Hx & _)%list_elem_of_fmap. by destruct (component_of_not_root x). }
  unfold path_of. repeat case_match; intros Ha; simplify_eq; try apply not_elem_of_nil; try apply Hm; done.
Qed.

Lemma elem_of_drop_dots c p : c ∈ drop_dots p ↔ c ≠ CurDir ∧ c ∈ p.
Proof. unfold drop_dots. by rewrite list_elem_of_filter. Qed.

Lemma path_components_sub c p : c ∈ path_components p → c ∈ p.
Proof.
  unfold path_components. destruct p as [|[| | |n] p]; rewrite ?elem_of_cons, ?elem_of_drop_dots, ?elem_of_cons; tauto.
Qed.

Lemma names_of_app p q : names_of (p ++ q) = names_of p ++ names_of q.
Proof. apply omap_app. Qed.
Lemma names_of_names ns : names_of (Normal <$> ns) = ns.
Proof. induction ns as [|n ns IH]; [done |]. change (n :: names_of (Normal <$> ns) = n :: ns). by rewrite IH. Qed.

Lemma names_of_drop_dots p : names_of (drop_dots p) = names_of p.
Proof.
  induction p as [|c p IH]; [done |]. destruct (decide (c = CurDir)) as [->|]; [done |].
  rewrite drop_dots_cons by done. change (c :: drop_dots p) with ([c] ++ drop_dots p).
  change (c :: p) with ([c] ++ p). by rewrite !names_of_app, IH.
Qed.
Lemma names_of_components p : names_of (path_components p) = names_of p.
Proof.
  rewrite <-(names_of_drop_dots p). destruct p as [|[| | |n] p]; done.
Qed.

Lemma resolve_components fs p q l :
  p ≠ [] → resolve fs (p ++ q) = inr l → resolve fs (p ++ path_components q) = inr l.
Proof.
  intros Hp H. destruct q as [|[| | |n] q]; try by apply resolve_drop_dots.
  change (path_components (CurDir :: q)) with ([CurDir] ++ drop_dots q).
  change (CurDir :: q) with ([CurDir] ++ q) in H. rewrite app_assoc in H |- *.
  apply resolve_drop_dots; [by destruct p | done].
Qed.

Lemma path_join_relative p q :
  p ≠ [] → RootDir ∉ q → path_join p q = p ++ match q with [] => [CurDir] | _ => q end.
Proof. intros Hp Hq. destruct q as [|[| | |n] q]; try done; [by destruct p | set_solver]. Qed.

(** What [safe_join] has checked. *)
Lemma safe_join_Ok fs base sub p :
  safe_join fs base sub = Ok p →
  contains_char NUL sub = false ∧ starts_with "/" sub = false ∧ starts_with "\" sub = false ∧
  check_components sub (path_components (path_of sub)) = Ok tt ∧
  RootDir ∉ path_of sub ∧
  (∃ s u, check_links fs s u base (path_components (path_of sub)) = Ok tt) ∧
  p = path_join base (path_of sub).
Proof.
  unfold safe_join. destruct (contains_char NUL sub).
  { unfold str_slice_to. by destruct (is_char_boundary _ _). }
  destruct (is_absolute (path_of sub)) eqn:Ha; [done |].
  destruct (starts_with "/" sub); [done |]. destruct (starts_with "\" sub); [done |]. cbn [orb].
  rewrite result_bind_Ok. intros ([] & Hc & Hl). apply result_bind_Ok in Hl as ([] & Hl & [= <-]).
  split_and!; try done; [by apply path_of_relative |]. eauto.
Qed.

Lemma safe_join_dots_and_names fs base sub p :
  safe_join fs base sub = Ok p → forallb is_dot_or_name (path_components (path_of sub)) = true.
Proof.
  intros (_ & _ & _ & [Hp _]%check_components_Ok & Hr & _)%safe_join_Ok.
  apply forallb_forall. intros c Hc%list_elem_of_In.
  assert (c ≠ RootDir) by (intros ->; by apply Hr, path_components_sub).
  destruct c; naive_solver.
Qed.

Lemma safe_join_resolves fs base sub p b l :
  fs_wf fs → safe_join fs base sub = Ok p → resolve fs base = inr b → resolve fs p = inr l →
  l = b ++ names_of (path_of sub).
Proof.
  intros Hwf Hj Hb Hl. pose proof (safe_join_dots_and_names _ _ _ _ Hj) as Hd.
  apply safe_join_Ok in Hj as (_ & _ & _ & _ & Hr & (s & u & Hc) & ->).
  assert (Hne : base ≠ []) by (intros ->; discriminate Hb).
  rewrite path_join_relative in Hl by done. rewrite <-names_of_components.
  eapply check_links_inside; [done | done | done | done |].
  destruct (path_of sub) as [|c q]; [by apply (resolve_drop_dots _ _ [CurDir]) | by apply resolve_components].
Qed.

Lemma check_links_Fail fs s u partial comps e :
  check_links fs s u partial comps = Fail e → (∃ p, e = s p) ∨ ∃ p io, e = u p io.
Proof.
  revert partial. induction comps as [|c comps IH]; intros partial; cbn [check_links]; [discriminate |].
  destruct (symlink_metadata fs (push partial c)) as [io | m].
  - destruct io; [apply IH | intros [= <-]; eauto..].
  - destruct (is_symlink m); [intros [= <-]; eauto | apply IH].
Qed.

(** The suffix [resolve_path] collects: names, and a slash after the last. *)
Definition suffix_of (suffix : path) (ns : list string) : Prop :=
  path_components suffix = Normal <$> ns ∧
  ∀ a, a ≠ [] → path_join a suffix = a ++ (Normal <$> ns) ++ [CurDir].

Lemma suffix_of_nil : suffix_of [] [].
Proof. split; [done |]. by intros [|c a]. Qed.

Lemma suffix_of_name n suffix ns :
  suffix_of suffix ns → suffix_of (path_join [Normal n] suffix) (n :: ns).
Proof.
  intros [_ Hj]. rewrite Hj by done. split.
  - change (drop_dots ((Normal <$> (n :: ns)) ++ [CurDir]) = Normal <$> (n :: ns)).
    by rewrite drop_dots_app, drop_dots_names, app_nil_r.
  - done.
Qed.

Lemma drop_dots_id p : CurDir ∉ p → drop_dots p = p.
Proof.
  induction p as [|c p IH]; [done |]. intros [? ?]%not_elem_of_cons. rewrite drop_dots_cons by congruence.
  by rewrite IH.
Qed.
Lemma path_components_tail p : CurDir ∉ tail (path_components p).
Proof.
  assert (Hd : ∀ q, CurDir ∉ drop_dots q) by (intros q; rewrite elem_of_drop_dots; tauto).
  destruct p as [|[| | |n] p]; [apply not_elem_of_nil | apply Hd..].
Qed.
Lemma path_components_id p : CurDir ∉ tail p → path_components p = p.
Proof.
  destruct p as [|c p]; [done |]. cbn [tail]. intros Hp. destruct (decide (c = CurDir)) as [->|].
  - unfold path_components. by rewrite drop_dots_id.
  - transitivity (drop_dots (c :: p)); [by destruct c | by rewrite drop_dots_cons, drop_dots_id].
Qed.

Lemma path_parent_Some p q :
  path_parent p = Some q →
  ∃ c, path_components p = q ++ [c] ∧ path_components q = q ∧
       names_of [c] = match path_file_name p with Some n => [n] | None => [] end.
Proof.
  unfold path_parent, path_file_name. pose proof (path_components_tail p) as Ht.
  destruct (path_components p) as [|c cs _] using rev_ind; [done |].
  rewrite last_snoc, length_app, Nat.add_sub, take_app_length. intros H.
  assert (q = cs) as -> by (destruct c; congruence). exists c. split_and!; [done | | by destruct c].
  apply path_components_id. destruct cs; [apply not_elem_of_nil |]. set_solver.
Qed.

Lemma resolve_canonicalize fs p q : canonicalize fs p = inr q → ∃ d, q = abs d ∧ resolve fs p = inr d.
Proof. unfold canonicalize. destruct (resolve fs p); [discriminate |]. intros [= <-]. eauto. Qed.

Lemma names_not_dotdot ns : ParentDir ∉ (Normal <$> ns : list Component).
Proof. by intros (n & [=] & _)%list_elem_of_fmap. Qed.

(** The nearest ancestor with a canonical path, and the names below it. *)
Lemma below_ancestor_eq fs input d suffix ns :
  suffix_of suffix ns →
  below_ancestor fs input (abs d) suffix =
    (_ ← check_links fs (suffix_symlink input) (suffix_unverified input) (abs d) (Normal <$> ns);
     Ok (abs d ++ (Normal <$> ns) ++ [CurDir])).
Proof.
  intros [Hc Hj]. unfold below_ancestor. rewrite Hc, Hj by done.
  rewrite bool_decide_eq_false_2; [done | apply names_not_dotdot].
Qed.

Lemma ascend_cases fs input fuel anc suffix ns :
  suffix_of suffix ns →
  (∃ t, ascend fs input fuel anc suffix = Fail (PathNotAllowed t [show_path input]) ∧ t ≠ traversal_detected) ∨
  ∃ parent rest d, path_components anc = parent ++ rest ∧ rest ≠ [] ∧ resolve fs parent = inr d ∧
    ascend fs input fuel anc suffix =
      (_ ← check_links fs (suffix_symlink input) (suffix_unverified input) (abs d) (Normal <$> names_of rest ++ ns);
       Ok (abs d ++ (Normal <$> names_of rest ++ ns) ++ [CurDir])).
Proof.
  revert anc suffix ns. induction fuel as [|fuel IH]; intros anc suffix ns Hs; cbn [ascend].
  { left. eexists. split; [done |]. discriminate. }
  destruct (path_parent anc) as [parent|] eqn:Hp; [| left; eexists; split; [done | discriminate]].
  apply path_parent_Some in Hp as (c & Hanc & Hpar & Hn).
  assert (Hs' : suffix_of match path_file_name anc with Some name => path_join [Normal name] suffix | None => suffix end
                  (names_of [c] ++ ns)).
  { rewrite Hn. destruct (path_file_name anc); [by apply suffix_of_name | done]. }
  clear Hs Hn. destruct (canonicalize fs parent) as [e|q] eqn:Hq.
  - destruct (IH parent _ _ Hs') as [?|(up & rest & d & Hup & Hrest & Hd & ->)]; [by left |].
    right. exists up, (rest ++ [c]), d. rewrite Hanc, <-Hpar, Hup, names_of_app, <-!app_assoc.
    split_and!; try done. by destruct rest.
  - apply resolve_canonicalize in Hq as (d & -> & Hd).
    rewrite (below_ancestor_eq fs input d _ _ Hs').
    right. by exists parent, [c], d.
Qed.

Lemma usable_roots_canonical fs l q : q ∈ (usable_roots fs l).1 → ∃ d, q = abs d.
Proof.
  induction l as [|r l IH]; [intros []%not_elem_of_nil |]. cbn [usable_roots].
  destruct (usable_roots fs l) as [ok skipped]. destruct (canonicalize fs r) as [e|canon] eqn:E; cbn [fst] in *; [done |].
  apply resolve_canonicalize in E as (d & -> & _). intros [->|]%elem_of_cons; [by exists d | by apply IH].
Qed.

Lemma roots_canonical fs allowed ctx q :
  PathContext_new fs allowed = Ok ctx → q ∈ roots ctx → ∃ d, q = abs d.
Proof.
  unfold PathContext_new, roots. destruct allowed as [|r l]; [discriminate |].
  pose proof (usable_roots_canonical fs (r :: l) q) as Hq. destruct (usable_roots fs (r :: l)) as [ok skipped].
  destruct ok; [discriminate |]. intros [= <-]. apply Hq.
Qed.

(** Where [resolve_path] gets its answer, before the roots are looked at. *)
Lemma resolve_path_Ok fs ctx input q :
  resolve_path fs ctx input = Ok q →
  (∃ root, root ∈ roots ctx ∧ path_starts_with q root = true) ∧
  (length (path_components q) <= MAX_CANONICAL_DEPTH)%nat ∧
  (canonicalize fs input = inr q ∨
   ∃ e, canonicalize fs input = inl e ∧ ascend fs input MAX_ANCESTOR_DEPTH input [] = Ok q).
Proof.
  unfold resolve_path, strip_unc_prefix. rewrite result_bind_Ok. intros (canon & Hc & H). cbv zeta in H.
  case_bool_decide as Hd; [discriminate |]. destruct (existsb _ _) eqn:He; [| discriminate]. injection H as ->.
  split_and!; [| lia |].
  - apply existsb_exists in He as (root & Hr & ?). exists root. by rewrite list_elem_of_In.
  - destruct (canonicalize fs input) as [e|c]; [right; by exists e | left]. injection Hc as ->. reflexivity.
Qed.

Lemma abs_prefix r l : abs r `prefix_of` abs l → r `prefix_of` l.
Proof.
  unfold abs. intros [k Hk]. injection Hk as Hk. revert l Hk. induction r as [|n r IH]; intros l Hk; [apply prefix_nil |].
  destruct l as [|m l]; [done |].
  injection Hk as <- Hk. by apply prefix_cons, IH.
Qed.

Lemma resolve_check_links fs s u d ns l :
  fs_wf fs → reach fs d → check_links fs s u (abs d) (Normal <$> ns) = Ok tt →
  resolve fs (abs d ++ (Normal <$> ns) ++ [CurDir]) = inr l → l = d ++ ns.
Proof.
  intros Hwf Hr Hc Hl. rewrite <-(names_of_names ns).
  eapply (check_links_inside fs s u (abs d)); [done | done | | by apply resolve_abs |].
  - by apply forallb_forall; intros c (n & -> & _)%list_elem_of_In%list_elem_of_fmap.
  - apply resolve_drop_dots in Hl; [| done]. by rewrite drop_dots_app, drop_dots_names, app_nil_r in Hl.
Qed.

(** * Theorems *)

(** C39. A joined path leads nowhere else: where it resolves, it resolves to the
    names of [sub_path] below the base directory, whatever links the file system
    holds; and these names are no devices, with no way up among them. *)
Theorem safe_join_stays_inside fs base_dir sub_path p b l :
  fs_wf fs → safe_join fs base_dir sub_path = Ok p →
  resolve fs base_dir = inr b → resolve fs p = inr l →
  l = b ++ names_of (path_of sub_path) ∧ ParentDir ∉ path_of sub_path ∧ is_absolute (path_of sub_path) = false ∧
  Forall (λ n, is_windows_reserved_name n = false) (names_of (path_of sub_path)).
Proof.
  intros Hwf Hj Hb Hl. split; [by eapply safe_join_resolves |].
  apply safe_join_Ok in Hj as (_ & _ & _ & [Hp Hn]%check_components_Ok & Hr & _).
  rewrite names_of_components in Hn. split_and!; [| | done].
  - intros Hin. apply Hp. unfold path_components. destruct (path_of sub_path) as [|[] q];
      rewrite ?elem_of_cons, ?elem_of_drop_dots, ?elem_of_cons in *; naive_solver.
  - destruct (path_of sub_path) as [|[] q]; [done | set_solver | done..].
Qed.

(** What is read is the file at that place below the base directory. *)
Theorem safe_read_reads_below_base fs base_dir sub_path b content :
  fs_wf fs → safe_read_to_string fs fs base_dir sub_path = Ok content → resolve fs base_dir = inr b →
  nodes fs !! (b ++ names_of (path_of sub_path)) = Some (File content).
Proof.
  unfold safe_read_to_string, safe_open_read. intros Hwf H Hb.
  apply result_bind_Ok in H as (file & H & Hread). apply result_bind_Ok in H as (p & Hj & Hopen).
  assert (symlink_metadata fs p = inr (File content)) as Hm.
  { unfold open_no_follow, open_nofollow_flag in Hopen. destruct (symlink_metadata fs p) as [|[|c|t]]; try discriminate;
      injection Hopen as <-; [discriminate |]. cbn [read_handle] in Hread. destruct (utf8_valid c); [| discriminate].
    by injection Hread as ->. }
  apply symlink_metadata_resolve in Hm as (l & Hl & Hn); [| done].
  rewrite <-(safe_join_resolves _ _ _ _ _ _ Hwf Hj Hb Hl). by destruct l.
Qed.

(** A link put in the place of the file between the check and the [open] is
    refused by the [open]. *)
Theorem swapped_link_is_refused fs fs' base_dir sub_path p target :
  safe_join fs base_dir sub_path = Ok p → symlink_metadata fs' p = inr (Link target) →
  safe_read_to_string fs fs' base_dir sub_path =
  Fail (PathNotAllowed "AUD-2026-EXH-0007: cannot open {:?} (possible symlink at open boundary): {e}"
          [show_path p; "Too many levels of symbolic links (os error 40)"]).
Proof.
  unfold safe_read_to_string, safe_open_read, open_no_follow, open_nofollow_flag. intros -> Hm.
  cbn [mbind result_bind]. by rewrite Hm.
Qed.

(** A resolved path is under an allowed root, in names only, and leads nowhere
    else: where it resolves, it resolves to these names. *)
Theorem resolved_path_is_under_a_root fs0 allowed ctx fs input q :
  fs_wf fs → PathContext_new fs0 allowed = Ok ctx → resolve_path fs ctx input = Ok q →
  ∃ r l0, abs r ∈ roots ctx ∧ r `prefix_of` l0 ∧ path_components q = abs l0 ∧
          (length l0 < MAX_CANONICAL_DEPTH)%nat ∧ ∀ l, resolve fs q = inr l → l = l0.
Proof.
  intros Hwf Hnew ((root & Hroot & Hs) & Hlen & Hq)%resolve_path_Ok.
  destruct (roots_canonical _ _ _ _ Hnew Hroot) as [r ->].
  assert (∃ l0, path_components q = abs l0 ∧ ∀ l, resolve fs q = inr l → l = l0) as (l0 & Hl0 & Hres).
  { destruct Hq as [Hq|(e & _ & Ha)].
    - apply resolve_canonicalize in Hq as (d & -> & Hd). exists d. split; [apply path_components_abs |].
      apply resolve_reach in Hd as (Hd & _); [| done]. apply resolve_abs in Hd; [| done]. intros l. rewrite Hd. congruence.
    - destruct (ascend_cases fs input MAX_ANCESTOR_DEPTH input [] [] suffix_of_nil)
        as [(t & Ht & _)|(parent & rest & d & _ & _ & Hd & He)]; [congruence |].
      rewrite Ha in He. rewrite app_nil_r in He. symmetry in He. apply result_bind_Ok in He as ([] & Hc & Hok).
      assert (q = abs d ++ (Normal <$> names_of rest) ++ [CurDir]) as -> by congruence.
      exists (d ++ names_of rest). split.
      + rewrite path_components_abs_app, drop_dots_app, drop_dots_names, app_nil_r. unfold abs.
        by rewrite fmap_app.
      + intros l. apply resolve_reach in Hd as (Hd & _); [| done]. by eapply resolve_check_links. }
  exists r, l0. rewrite path_starts_with_spec, Hl0, path_components_abs in Hs. rewrite Hl0 in Hlen.
  unfold abs in Hlen. cbn [length] in Hlen. rewrite length_fmap in Hlen.
  split_and!; [done | by apply abs_prefix | done | lia | done].
Qed.

(** A path that does not exist yet is the canonical path of an ancestor, the
    names below it with every [..] among them left out, and a trailing slash:
    whatever becomes of the file system, it never names a file. *)
Theorem fresh_path_ends_in_a_slash fs ctx input e q :
  canonicalize fs input = inl e → resolve_path fs ctx input = Ok q →
  (∃ parent rest d, path_components input = parent ++ rest ∧ rest ≠ [] ∧ canonicalize fs parent = inr (abs d) ∧
     q = abs d ++ (Normal <$> names_of rest) ++ [CurDir]) ∧
  ∀ fs' l, fs_wf fs' → resolve fs' q = inr l → node_at fs' l = Some Dir.
Proof.
  intros He (_ & _ & [Hq|(_ & _ & Ha)])%resolve_path_Ok; [congruence |].
  destruct (ascend_cases fs input MAX_ANCESTOR_DEPTH input [] [] suffix_of_nil)
    as [(t & Ht & _)|(parent & rest & d & Hin & Hrest & Hd & Hq)]; [congruence |].
  rewrite Ha, app_nil_r in Hq. symmetry in Hq. apply result_bind_Ok in Hq as ([] & _ & Hok).
  assert (q = abs d ++ (Normal <$> names_of rest) ++ [CurDir]) as -> by congruence. clear Hok. split.
  - exists parent, rest, d. unfold canonicalize. by rewrite Hd.
  - intros fs' l Hwf Hl. apply resolve_reach in Hl as (_ & _ & [?|[n Hn]]); [done | | done].
    rewrite app_assoc, last_snoc in Hn. discriminate.
Qed.

(** The check against [..] in the part that does not exist never fails, since
    no such component is kept: a path that leads out of the root is taken for
    the path in it that is left without the dots. *)
Theorem dotdot_is_dropped_not_detected :
  (∀ fs ctx input args, resolve_path fs ctx input ≠ Fail (PathNotAllowed traversal_detected args)) ∧
  resolve_path demo_fs demo_ctx (path_of "/w/p/new/../../etc/x") = Ok (path_of "/w/p/new/etc/x/").
Proof.
  split; [| vm_compute; reflexivity]. intros fs ctx input args. unfold resolve_path, strip_unc_prefix.
  assert (Hlate : ∀ canon, (if bool_decide (MAX_CANONICAL_DEPTH < length (path_components canon))%nat
      then Fail (PathNotAllowed "{canon:?} resolved to {canonical_depth} components, exceeding the maximum allowed depth of {MAX_CANONICAL_DEPTH}"
                   [show_path canon; show_u64 (N.of_nat (length (path_components canon)))])
      else if existsb (path_starts_with canon) (allowed_roots ctx) then Ok canon
      else Fail (PathNotAllowed "{canon:?} is outside allowed_roots" [show_path canon]))
    ≠ Fail (PathNotAllowed traversal_detected args)).
  { intros canon. case_bool_decide; [discriminate |]. by destruct (existsb _ _). }
  destruct (canonicalize fs input); [| apply Hlate].
  destruct (ascend_cases fs input MAX_ANCESTOR_DEPTH input [] [] suffix_of_nil)
    as [(t & -> & Ht)|(parent & rest & d & _ & _ & _ & ->)]; [cbn [mbind result_bind]; congruence |].
  destruct (check_links _ _ _ _ _) as [[]|err] eqn:E; cbn [mbind result_bind]; [apply Hlate |].
  apply check_links_Fail in E as [[x ->]|(x & y & ->)]; discriminate.
Qed.

(** The [open] protects the last name only: a directory above it that gives way
    to a link between the check and the [open] is followed, out of the base
    directory. *)
Theorem swapped_directory_is_followed :
  safe_read_to_string demo_fs demo_fs (path_of "/w/p") "src/passwd" = Ok "ours" ∧
  safe_read_to_string demo_fs demo_fs_swapped (path_of "/w/p") "src/passwd" = Ok "root" ∧
  is_ok (safe_join demo_fs_swapped (path_of "/w/p") "src/passwd") = false.
Proof. vm_compute. auto. Qed.

(** The message for a NUL byte cuts the path at its eightieth byte, and panics
    where this byte is inside a character. *)
Theorem nul_rejection_panics_inside_a_character fs base_dir :
  safe_join fs base_dir straddling_value = Fail (Panic "safe_join").
Proof. reflexivity. Qed.

(** * Witnesses *)

Lemma demo_fs_wf : fs_wf demo_fs.
Proof. apply is_tree_wf. vm_compute. reflexivity. Qed.

Lemma safe_join_stays_inside_witness :
  ["w"; "p"; "src"; "passwd"] = ["w"; "p"] ++ names_of (path_of "./src//passwd") ∧
  ParentDir ∉ path_of "./src//passwd" ∧ is_absolute (path_of "./src//passwd") = false ∧
  Forall (λ n, is_windows_reserved_name n = false) (names_of (path_of "./src//passwd")).
Proof.
  apply (safe_join_stays_inside demo_fs (path_of "/w/l") "./src//passwd" (path_of "/w/l/./src/./passwd")).
  - exact demo_fs_wf.
  - vm_compute. reflexivity.
  - vm_compute. reflexivity.
  - vm_compute. reflexivity.
Defined.

Lemma safe_read_reads_below_base_witness :
  nodes demo_fs !! (["w"; "p"] ++ names_of (path_of "a.txt")) = Some (File "hi").
Proof.
  apply (safe_read_reads_below_base demo_fs (path_of "/w/l") "a.txt" ["w"; "p"] "hi").
  - exact demo_fs_wf.
  - vm_compute. reflexivity.
  - vm_compute. reflexivity.
Defined.

Lemma swapped_link_is_refused_witness :
  safe_read_to_string demo_fs demo_fs_link (path_of "/w/p") "a.txt" =
  Fail (PathNotAllowed "AUD-2026-EXH-0007: cannot open {:?} (possible symlink at open boundary): {e}"
          ["/w/p/a.txt"; "Too many levels of symbolic links (os error 40)"]).
Proof.
  apply (swapped_link_is_refused demo_fs demo_fs_link (path_of "/w/p") "a.txt" (path_of "/w/p/a.txt")
           (path_of "/etc/passwd")); vm_compute; reflexivity.
Defined.

Lemma resolved_path_is_under_a_root_witness :
  ∃ r l0, abs r ∈ roots {| allowed_roots := [path_of "/w/p"] |} ∧ r `prefix_of` l0 ∧
    path_components (path_of "/w/p/a.txt") = abs l0 ∧ (length l0 < MAX_CANONICAL_DEPTH)%nat ∧
    ∀ l, resolve demo_fs (path_of "/w/p/a.txt") = inr l → l = l0.
Proof.
  apply (resolved_path_is_under_a_root demo_fs [path_of "l"; path_of "/gone"] demo_ctx demo_fs
           (path_of "l/./src/../a.txt")).
  - exact demo_fs_wf.
  - vm_compute. reflexivity.
  - vm_compute. reflexivity.
Defined.

Lemma fresh_path_ends_in_a_slash_witness :
  (∃ parent rest d, path_components (path_of "l/x/y.txt") = parent ++ rest ∧ rest ≠ [] ∧
     canonicalize demo_fs parent = inr (abs d) ∧
     path_of "/w/p/x/y.txt/" = abs d ++ (Normal <$> names_of rest) ++ [CurDir]) ∧
  ∀ fs' l, fs_wf fs' → resolve fs' (path_of "/w/p/x/y.txt/") = inr l → node_at fs' l = Some Dir.
Proof.
  apply (fresh_path_ends_in_a_slash demo_fs demo_ctx (path_of "l/x/y.txt") NotFound); vm_compute; reflexivity.
Defined.
