(* ===== verification/Graph.v ===== *)
(** [engram_graph::store]: the property graph in its redb tables. Nodes and
    edges are bincode rows under composite keys; two adjacency tables mirror
    the edges by source and by target. A redb table is a finite map that is
    iterated in key order, pairs lexicographically. *)
From S2P Require Import Prelude Text Store Namespaces.

Open Scope N_scope.

(** * Definitions *)

Inductive EdgeKind :=
  | CoOccurrence | TemporalCoupling | InsightKind | Calls | Dependency | AntiPattern | Contains | Imports
  | SqlCalls | HasColumn | ForeignKey | QueriesTable | ReadsState | WritesState | DataBinding
  | RegistersControl | IncludesFile | UnresolvedStateRead | UnresolvedStateWrite | ExposesWebService
  | ExposesHttpHandler | ExposesWcfService | ContainsUi | UiLayoutNeighbor | ReadsColumn | RegistersModule
  | RegistersHandler | ManipulatesDom | TriggersPostback | ApiCall | ParameterBinding | SpatialCall
  | StateAffinity | InjectsScript | CallsStoredProcedure | StoredProcReadsTable | StoredProcWritesTable
  | FillsRegion | ObservedRuntimeControl | ObservedRuntimeSql | ReadsSetting | InheritsFrom | Implements
  | TestOracle.
#[export] Instance EdgeKind_eq_dec : EqDecision EdgeKind.
Proof. solve_decision. Defined.

(** [EdgeKind::ALL] with [as_str]. *)
Definition kind_names : list (EdgeKind * string) :=
  [(CoOccurrence, "co_occurrence"); (TemporalCoupling, "temporal_coupling"); (InsightKind, "insight");
   (Calls, "calls"); (Dependency, "dependency"); (AntiPattern, "anti_pattern"); (Contains, "contains");
   (Imports, "imports"); (SqlCalls, "sql_calls"); (HasColumn, "has_column"); (ForeignKey, "foreign_key");
   (QueriesTable, "queries_table"); (ReadsState, "reads_state"); (WritesState, "writes_state");
   (DataBinding, "data_binding"); (RegistersControl, "registers_control"); (IncludesFile, "includes_file");
   (UnresolvedStateRead, "unresolved_state_read"); (UnresolvedStateWrite, "unresolved_state_write");
   (ExposesWebService, "exposes_web_service"); (ExposesHttpHandler, "exposes_http_handler");
   (ExposesWcfService, "exposes_wcf_service"); (ContainsUi, "contains_ui");
   (UiLayoutNeighbor, "ui_layout_neighbor"); (ReadsColumn, "reads_column");
   (RegistersModule, "registers_module"); (RegistersHandler, "registers_handler");
   (ManipulatesDom, "manipulates_dom"); (TriggersPostback, "triggers_postback"); (ApiCall, "api_call");
   (ParameterBinding, "parameter_binding"); (SpatialCall, "spatial_call"); (StateAffinity, "state_affinity");
   (InjectsScript, "injects_script"); (CallsStoredProcedure, "calls_stored_procedure");
   (StoredProcReadsTable, "stored_proc_reads_table"); (StoredProcWritesTable, "stored_proc_writes_table");
   (FillsRegion, "fills_region"); (ObservedRuntimeControl, "observed_runtime_control");
   (ObservedRuntimeSql, "observed_runtime_sql"); (ReadsSetting, "reads_setting");
   (InheritsFrom, "inherits_from"); (Implements, "implements_interface"); (TestOracle, "test_oracle")].
Definition ALL : list EdgeKind := kind_names.*1.
Definition as_str (k : EdgeKind) : string :=
  default "" (snd <$> head (filter (λ kn, kn.1 = k) kind_names)).
Definition parse (s : string) : option EdgeKind :=
  fst <$> head (filter (λ kn, kn.2 = s) kind_names).
Definition is_historical (k : EdgeKind) : bool :=
  match k with TemporalCoupling | CoOccurrence => true | _ => false end.

(** Metadata is the text of its JSON value. *)
Record Node := {
  node_id : string;
  node_type : string;
  node_name : string;
  node_namespace : string;
  node_language : string;
  file_path : string;
  start_line : N;
  end_line : N;
  node_generation : N;
  node_metadata : option string;
}.
Record Edge := {
  source_id : string;
  target_id : string;
  edge_namespace : string;
  edge_language : string;
  edge_kind : EdgeKind;
  weight : N;
  edge_generation : N;
  edge_metadata : option string;
  updated_at_ms : N;
}.
#[export] Instance Node_eq_dec : EqDecision Node.
Proof. solve_decision. Defined.
#[export] Instance Edge_eq_dec : EqDecision Edge.
Proof. solve_decision. Defined.

(** [bincode] on the two rows. *)
Class Bincode := {
  node_bytes : Node → bytes;
  node_of_bytes : bytes → result Node;
  edge_bytes : Edge → bytes;
  edge_of_bytes : bytes → result Edge;
  node_round_trip : ∀ n, node_of_bytes (node_bytes n) = Ok n;
  edge_round_trip : ∀ e, edge_of_bytes (edge_bytes e) = Ok e;
}.

Record GraphDB := {
  NODES : gmap string bytes;
  EDGES : gmap string bytes;
  ADJ_OUT : gmap (string * string) bytes;
  ADJ_IN : gmap (string * string) bytes;
  GMETA : gmap string bytes;
  CENTRALITY : gmap string bytes;
  INSIGHT_FINGERPRINTS : gmap string bytes;
}.
Definition empty_db : GraphDB :=
  {| NODES := ∅; EDGES := ∅; ADJ_OUT := ∅; ADJ_IN := ∅; GMETA := ∅; CENTRALITY := ∅; INSIGHT_FINGERPRINTS := ∅ |}.
Definition with_nodes (t : gmap string bytes) (db : GraphDB) : GraphDB :=
  {| NODES := t; EDGES := EDGES db; ADJ_OUT := ADJ_OUT db; ADJ_IN := ADJ_IN db; GMETA := GMETA db;
     CENTRALITY := CENTRALITY db; INSIGHT_FINGERPRINTS := INSIGHT_FINGERPRINTS db |}.
Definition with_edges (e : gmap string bytes) (o i : gmap (string * string) bytes) (db : GraphDB) : GraphDB :=
  {| NODES := NODES db; EDGES := e; ADJ_OUT := o; ADJ_IN := i; GMETA := GMETA db;
     CENTRALITY := CENTRALITY db; INSIGHT_FINGERPRINTS := INSIGHT_FINGERPRINTS db |}.
Definition with_meta (t : gmap string bytes) (db : GraphDB) : GraphDB :=
  {| NODES := NODES db; EDGES := EDGES db; ADJ_OUT := ADJ_OUT db; ADJ_IN := ADJ_IN db; GMETA := t;
     CENTRALITY := CENTRALITY db; INSIGHT_FINGERPRINTS := INSIGHT_FINGERPRINTS db |}.
Definition with_centrality (t : gmap string bytes) (db : GraphDB) : GraphDB :=
  {| NODES := NODES db; EDGES := EDGES db; ADJ_OUT := ADJ_OUT db; ADJ_IN := ADJ_IN db; GMETA := GMETA db;
     CENTRALITY := t; INSIGHT_FINGERPRINTS := INSIGHT_FINGERPRINTS db |}.
Definition with_fingerprints (t : gmap string bytes) (db : GraphDB) : GraphDB :=
  {| NODES := NODES db; EDGES := EDGES db; ADJ_OUT := ADJ_OUT db; ADJ_IN := ADJ_IN db; GMETA := GMETA db;
     CENTRALITY := CENTRALITY db; INSIGHT_FINGERPRINTS := t |}.

(** ** Keys and adjacency values *)

Definition u32_max : N := 4294967295.
Definition saturating_add32 (a b : N) : N := N.min (a + b) u32_max.

Definition nul (a b : string) : string := a +:+ String NUL b.
Definition edge_key (p : string) (k : EdgeKind) (s t : string) : string := nul p (nul (as_str k) (nul s t)).
Definition adj_key (p : string) (k : EdgeKind) (n : string) : string := nul p (nul (as_str k) n).
Definition node_key (p n : string) : string := nul p n.
Definition kind_prefix (p : string) (k : EdgeKind) : string := nul p (nul (as_str k) "").

Definition encode_adj_value (w ts : N) : bytes := le_split 4 w +:+ le_split 8 ts.
Definition decode_adj_value (b : bytes) : result (N * N) :=
  _ ← ensure (12 <=? slen b) "decode_adj_value: expected 12 bytes, got {} — possible DB corruption"
        [show_u64 (slen b)];
  Ok (from_le_bytes (stake 4 b), from_le_bytes (stake 8 (sdrop 4 b))).

(** ** Ranges *)

Definition rows {V} (t : gmap string V) : list (string * V) := sort_rows (map_to_list t).
(** A scan of the rows whose key starts with a prefix. *)
Definition scan {V} (prefix : string) (t : gmap string V) : list (string * V) := prefix_scan prefix (rows t).

Definition pair_le (a b : string * string) : Prop :=
  if decide (a.1 = b.1) then String.le a.2 b.2 else String.le a.1 b.1.
#[export] Instance pair_le_dec : RelDecision pair_le.
Proof. intros a b. unfold pair_le. destruct (decide (a.1 = b.1)); apply _. Defined.
Definition pair_row_le {V} (a b : (string * string) * V) : Prop := pair_le a.1 b.1.
#[export] Instance pair_row_le_dec {V} : RelDecision (@pair_row_le V) := λ a b, decide (pair_le a.1 b.1).
Definition pair_rows {V} (t : gmap (string * string) V) : list ((string * string) * V) :=
  merge_sort pair_row_le (map_to_list t).
(** The rows from [(prefix, "")] on, until the first component fails the test. *)
Definition pair_scan {V} (keep : string → bool) (prefix : string) (t : gmap (string * string) V)
  : list ((string * string) * V) :=
  take_while (λ kv, keep kv.1.1) (filter (λ kv, pair_le (prefix, "") kv.1) (pair_rows t)).
(** The neighbors under one adjacency key, in id order. *)
Definition adj_scan {V} (prefix : string) (t : gmap (string * string) V) : list (string * V) :=
  (λ kv, (kv.1.2, kv.2)) <$> pair_scan (String.eqb prefix) prefix t.

Definition heaviest {A} (w : A → N) (a b : A) : Prop := w b <= w a.
#[export] Instance heaviest_dec {A} (w : A → N) : RelDecision (heaviest w) := λ a b, decide (w b <= w a).
(** [sort_by(|a, b| b.weight.cmp(&a.weight))], which is stable, then [truncate]. *)
Definition heaviest_first {A} (w : A → N) (limit : nat) (l : list A) : list A :=
  take limit (stable_sort (heaviest w) l).

(** ** The rows of an edge *)

Section graph.
Context `{BC : !Bincode}.

Definition check_key (name value : string) : result () := validate_key_component name value.
Definition check_endpoints (es : list Edge) : result () :=
  _ ← result_traverse (λ e, _ ← check_key "source_id" (source_id e); check_key "target_id" (target_id e)) es;
  Ok tt.

Definition key_of (p : string) (e : Edge) : string := edge_key p (edge_kind e) (source_id e) (target_id e).

(** The three inserts, and the three removals, that keep the mirrors. *)
Definition put_edge (p : string) (e : Edge) (db : GraphDB) : GraphDB :=
  let v := encode_adj_value (weight e) (updated_at_ms e) in
  with_edges (<[key_of p e := edge_bytes e]> (EDGES db))
    (<[(adj_key p (edge_kind e) (source_id e), target_id e) := v]> (ADJ_OUT db))
    (<[(adj_key p (edge_kind e) (target_id e), source_id e) := v]> (ADJ_IN db)) db.
Definition drop_edge (p : string) (k : EdgeKind) (s t : string) (db : GraphDB) : GraphDB :=
  with_edges (delete (edge_key p k s t) (EDGES db))
    (delete (adj_key p k s, t) (ADJ_OUT db)) (delete (adj_key p k t, s) (ADJ_IN db)) db.

(** ** Upserts *)

Definition merge_metadata (node : Node) (inherited : option string) : Node :=
  match inherited with
  | Some _ => {| node_id := node_id node; node_type := node_type node; node_name := node_name node;
                 node_namespace := node_namespace node; node_language := node_language node;
                 file_path := file_path node; start_line := start_line node; end_line := end_line node;
                 node_generation := node_generation node; node_metadata := inherited |}
  | None => node
  end.

Definition tx_upsert_node (p : string) (node : Node) : Tx GraphDB () := λ db,
  _ ← check_key "node_id" (node_id node);
  inherited ← match node_metadata node with
              | None => old ← transpose node_of_bytes (NODES db !! node_key p (node_id node));
                        Ok (old ≫= node_metadata)
              | Some _ => Ok None
              end;
  Ok (tt, with_nodes (<[node_key p (node_id node) := node_bytes (merge_metadata node inherited)]> (NODES db)) db).
Fixpoint upsert_nodes_in_tx (p : string) (nodes : list Node) : Tx GraphDB () :=
  match nodes with
  | [] => mret tt
  | n :: rest => _ ← tx_upsert_node p n; upsert_nodes_in_tx p rest
  end.

Definition upsert_nodes (p : string) (nodes : list Node) (db : GraphDB) : GraphDB * result () :=
  match nodes with
  | [] => (db, Ok tt)
  | _ => guarded (check_key "project_id" p) (λ _,
           write_tx (_ ← upsert_nodes_in_tx p nodes; mret (Commit tt))) db
  end.

Definition put_edges (p : string) (es : list Edge) (db : GraphDB) : GraphDB :=
  foldl (λ db e, put_edge p e db) db es.

Definition tx_put_edges (p : string) (es : list Edge) : Tx GraphDB () := λ db, Ok (tt, put_edges p es db).

Definition upsert_edges (p : string) (es : list Edge) (db : GraphDB) : GraphDB * result () :=
  match es with
  | [] => (db, Ok tt)
  | _ => guarded (_ ← check_key "project_id" p; check_endpoints es) (λ _,
           write_tx (_ ← tx_put_edges p es; mret (Commit tt))) db
  end.

Definition upsert_nodes_and_edges (p : string) (nodes : list Node) (es : list Edge) (db : GraphDB)
  : GraphDB * result () :=
  match nodes, es with
  | [], [] => (db, Ok tt)
  | _, _ =>
      guarded (_ ← check_key "project_id" p;
               _ ← result_traverse (λ n, check_key "node_id" (node_id n)) nodes;
               check_endpoints es) (λ _,
        write_tx (_ ← upsert_nodes_in_tx p nodes; _ ← tx_put_edges p es; mret (Commit tt))) db
  end.

(** ** Replacing a snapshot *)

Definition snapshot_holds (p : string) (expected : list Edge) (db : GraphDB) : bool :=
  forallb (λ e, bool_decide (EDGES db !! key_of p e = Some (edge_bytes e))) expected.
Definition drop_edges (p : string) (es : list Edge) (db : GraphDB) : GraphDB :=
  foldl (λ db e, drop_edge p (edge_kind e) (source_id e) (target_id e) db) db es.
Definition put_absent (p : string) (es : list Edge) (db : GraphDB) : GraphDB :=
  foldl (λ db e, match EDGES db !! key_of p e with Some _ => db | None => put_edge p e db end) db es.

Definition replace_edge_snapshot (p : string) (expected replacements : list Edge)
  : GraphDB → GraphDB * result () :=
  guarded (_ ← check_key "project_id" p; check_endpoints (expected ++ replacements)) (λ _,
    write_tx (λ db,
      _ ← ensure (snapshot_holds p expected db) "edge snapshot changed during resolver refresh; retry" [];
      Ok (Commit tt, put_absent p replacements (drop_edges p expected db)))).

(** ** Increments *)

Definition bumped (now generation delta : N) (e : Edge) : Edge :=
  {| source_id := source_id e; target_id := target_id e; edge_namespace := edge_namespace e;
     edge_language := edge_language e; edge_kind := edge_kind e;
     weight := saturating_add32 (weight e) delta; edge_generation := generation;
     edge_metadata := edge_metadata e; updated_at_ms := now |}.
Definition new_edge (namespace language : string) (k : EdgeKind) (s t : string) (delta generation now : N) : Edge :=
  {| source_id := s; target_id := t; edge_namespace := namespace; edge_language := language; edge_kind := k;
     weight := delta; edge_generation := generation; edge_metadata := None; updated_at_ms := now |}.

(** The rows of an edge found under the key of [k], [s] and [t]. *)
Definition store_increment (p : string) (k : EdgeKind) (s t : string) (now : N) (e : Edge) (db : GraphDB)
  : GraphDB :=
  let v := encode_adj_value (weight e) now in
  with_edges (<[edge_key p k s t := edge_bytes e]> (EDGES db))
    (<[(adj_key p k s, t) := v]> (ADJ_OUT db)) (<[(adj_key p k t, s) := v]> (ADJ_IN db)) db.

(** [increment_edge] checks no key, and takes an unreadable row for a missing one. *)
Definition increment_edge (now : N) (p namespace language : string) (k : EdgeKind) (s t : string)
    (delta generation : N) : GraphDB → GraphDB * result N :=
  write_tx (λ db,
    let maybe_edge := match EDGES db !! edge_key p k s t with
                      | Some v => match edge_of_bytes v with Ok e => Some e | Fail _ => None end
                      | None => None
                      end in
    let final := match maybe_edge with
                 | Some e => bumped now generation delta e
                 | None => new_edge namespace language k s t delta generation now
                 end in
    Ok (Commit (weight final), store_increment p k s t now final db)).

Definition increment : Type := EdgeKind * string * string * N.

Definition tx_increment (now : N) (p namespace language : string) (generation : N) (i : increment)
  : Tx GraphDB () := λ db,
  let '(k, s, t, delta) := i in
  existing ← transpose edge_of_bytes (EDGES db !! edge_key p k s t);
  let e := match existing with
           | Some e => bumped now generation delta e
           | None => new_edge namespace language k s t delta generation now
           end in
  Ok (tt, store_increment p k s t now e db).
Fixpoint increment_edges_in_tx (now : N) (p namespace language : string) (generation : N)
    (incs : list increment) : Tx GraphDB () :=
  match incs with
  | [] => mret tt
  | i :: rest => _ ← tx_increment now p namespace language generation i;
                 increment_edges_in_tx now p namespace language generation rest
  end.

Definition check_increments (incs : list increment) : result () :=
  _ ← result_traverse (λ i : increment, let '(_, s, t, _) := i in
        _ ← check_key "source_id" s; check_key "target_id" t) incs;
  Ok tt.

Definition batch_increment_edges (now : N) (p namespace language : string) (generation : N)
    (incs : list increment) (db : GraphDB) : GraphDB * result () :=
  match incs with
  | [] => (db, Ok tt)
  | _ => guarded (_ ← check_key "project_id" p; check_increments incs) (λ _,
           write_tx (_ ← increment_edges_in_tx now p namespace language generation incs; mret (Commit tt))) db
  end.

(** Both directions of every pair of different nodes. *)
Definition directed (pairs : list increment) : list increment :=
  pairs ≫= λ pr : increment, let '(k, a, b, delta) := pr in
    if String.eqb a b then [] else [(k, a, b, delta); (k, b, a, delta)].

Definition batch_increment_undirected_edges (now : N) (p namespace language : string) (generation : N)
    (pairs : list increment) : GraphDB → GraphDB * result () :=
  batch_increment_edges now p namespace language generation (directed pairs).

Definition increment_undirected_edge (now : N) (p namespace language : string) (k : EdgeKind) (a b : string)
    (delta generation : N) (db : GraphDB) : GraphDB * result () :=
  if String.eqb a b then (db, Ok tt)
  else batch_increment_undirected_edges now p namespace language generation [(k, a, b, delta)] db.

Definition upsert_nodes_and_increment_undirected_edges (now : N) (p namespace language : string)
    (generation : N) (nodes : list Node) (pairs : list increment) (db : GraphDB) : GraphDB * result () :=
  match nodes, pairs with
  | [], [] => (db, Ok tt)
  | _, _ =>
      guarded (_ ← check_key "project_id" p;
               _ ← result_traverse (λ n, check_key "node_id" (node_id n)) nodes;
               check_increments pairs) (λ _,
        write_tx (_ ← upsert_nodes_in_tx p nodes;
                  _ ← increment_edges_in_tx now p namespace language generation (directed pairs);
                  mret (Commit tt))) db
  end.

(** ** Deletions *)

(** [Vec::chunks]. *)
Fixpoint chunks_fuel {A} (fuel : nat) (n : nat) (l : list A) : list (list A) :=
  match fuel, l with
  | S fuel, _ :: _ => take n l :: chunks_fuel fuel n (drop n l)
  | _, _ => []
  end.
Definition chunks {A} (n : nat) (l : list A) : list (list A) := chunks_fuel (length l) n l.

(** [splitn(4, '\0')] of an edge key. *)
Definition edge_key_parts (key : string) : option (string * string * string) :=
  match split_once NUL key with
  | Some (_, rest) =>
      match split_once NUL rest with
      | Some (kind, rest) =>
          match split_once NUL rest with
          | Some (s, t) => Some (kind, s, t)
          | None => None
          end
      | None => None
      end
  | None => None
  end.

(** One stale edge key: its mirrors when the key can be read, then the row. *)
Definition purge_edge_key (p : string) (key : string) (db : GraphDB) : GraphDB :=
  let '(o, i) := match edge_key_parts key with
                 | Some (kind, s, t) =>
                     match parse kind with
                     | Some k => (delete (adj_key p k s, t) (ADJ_OUT db), delete (adj_key p k t, s) (ADJ_IN db))
                     | None => (ADJ_OUT db, ADJ_IN db)
                     end
                 | None => (ADJ_OUT db, ADJ_IN db)
                 end in
  with_edges (delete key (EDGES db)) o i db.

Definition NODE_BATCH : nat := 1000.

(** The keys of the rows a test selects; a row that cannot be read fails. *)
Definition stale_keys {A} (decode : bytes → result A) (stale : A → bool) (rows : list (string * bytes))
  : result (list string) :=
  keyed ← result_traverse (λ kv, a ← decode kv.2; Ok (kv.1, stale a)) rows;
  Ok (filter (λ ks : string * bool, ks.2 = true) keyed).*1.

Definition purge_where (p : string) (is_stale : string → N → bool) (db : GraphDB)
  : GraphDB * result (N * N) :=
  match stale_keys node_of_bytes (λ n, is_stale (node_namespace n) (node_generation n)) (scan (nul p "") (NODES db)) with
  | Fail e => (db, Fail e)
  | Ok nks =>
      let db1 := foldl (λ db batch, with_nodes (foldl (λ t k, delete k t) (NODES db) batch) db) db
                       (chunks NODE_BATCH nks) in
      match stale_keys edge_of_bytes (λ e, is_stale (edge_namespace e) (edge_generation e)) (scan (nul p "") (EDGES db1)) with
      | Fail e => (db1, Fail e)
      | Ok eks =>
          (foldl (λ db batch, foldl (λ db k, purge_edge_key p k db) db batch) db1 (chunks NODE_BATCH eks),
           Ok (N.of_nat (length nks), N.of_nat (length eks)))
      end
  end.

(** The two readings of the retention policy. *)
Definition stale_unless (active : N) (namespace : string) (generation : N) : bool :=
  match get_policy namespace with
  | Ok policy =>
      match retention policy with
      | KeepLatestOnly => negb (generation =? active)
      | KeepLastGenerations n => generation <? active - (n - 1)
      | KeepForever => false
      end
  | Fail _ => false
  end.
Definition stale_below (baseline : N) (namespace : string) (generation : N) : bool :=
  match get_policy namespace with
  | Ok policy =>
      match retention policy with
      | KeepLatestOnly => generation <? baseline
      | KeepLastGenerations n => generation <? baseline - (n - 1)
      | KeepForever => false
      end
  | Fail _ => false
  end.

Definition purge_old_generations (p : string) (active : N) (db : GraphDB) : GraphDB * result () :=
  let '(db', r) := purge_where p (stale_unless active) db in
  (db', _ ← r; Ok tt).
Definition purge_generations_below (p : string) (baseline : N) : GraphDB → GraphDB * result (N * N) :=
  purge_where p (stale_below baseline).

(** One table drained in batches of [n] keys, until a scan finds none. The fuel
    counts the batches. *)
Fixpoint drain {K V} `{Countable K} (fuel : nat) (n : nat) (find : gmap K V → list K) (t : gmap K V) (removed : nat)
  : option (gmap K V * nat) :=
  match take n (find t) with
  | [] => Some (t, removed)
  | batch =>
      match fuel with
      | O => None
      | S fuel => drain fuel n find (foldl (λ t k, delete k t) t batch) (removed + length batch)%nat
      end
  end.
Definition drain_all {K V} `{Countable K} (n : nat) (find : gmap K V → list K) (t : gmap K V) : option (gmap K V * nat) :=
  drain (size t) n find t 0.

Definition EDGE_BATCH : nat := N.to_nat 5000.
Definition PROJECT_BATCH : nat := N.to_nat 2000.

Definition adj_with_prefix (prefix : string) (t : gmap (string * string) bytes) : list (string * string) :=
  (pair_scan (starts_with prefix) prefix t).*1.

Definition delete_edges_of_kind (p : string) (k : EdgeKind) (db : GraphDB) : option (GraphDB * N) :=
  let prefix := kind_prefix p k in
  '(edges, removed) ← drain_all EDGE_BATCH (λ t, (scan prefix t).*1) (EDGES db);
  '(out, _) ← drain_all EDGE_BATCH (adj_with_prefix prefix) (ADJ_OUT db);
  '(inc, _) ← drain_all EDGE_BATCH (adj_with_prefix prefix) (ADJ_IN db);
  Some (with_edges edges out inc db, N.of_nat removed).

Definition delete_project_data (p : string) (db : GraphDB) : option GraphDB :=
  let prefix := nul p "" in
  let keys (t : gmap string bytes) := (scan prefix t).*1 in
  '(nodes, _) ← drain_all PROJECT_BATCH keys (NODES db);
  '(edges, _) ← drain_all PROJECT_BATCH keys (EDGES db);
  '(meta, _) ← drain_all PROJECT_BATCH keys (GMETA db);
  '(centrality, _) ← drain_all PROJECT_BATCH keys (CENTRALITY db);
  '(prints, _) ← drain_all PROJECT_BATCH keys (INSIGHT_FINGERPRINTS db);
  '(out, _) ← drain_all PROJECT_BATCH (adj_with_prefix prefix) (ADJ_OUT db);
  '(inc, _) ← drain_all PROJECT_BATCH (adj_with_prefix prefix) (ADJ_IN db);
  Some {| NODES := nodes; EDGES := edges; ADJ_OUT := out; ADJ_IN := inc; GMETA := meta;
          CENTRALITY := centrality; INSIGHT_FINGERPRINTS := prints |}.

End graph.
