(* ===== verification/GraphRows.v ===== *)
(** Ranges over the graph tables: what a scan of a key prefix sees, and what the
    batched deletion of its rows leaves. *)
From S2P Require Import Prelude Text Store Graph.

Open Scope N_scope.

(** * Definitions *)

(** A scan that finds exactly the keys of a table with a property. *)
Definition finds {K V} `{Countable K} (find : gmap K V → list K) (P : K → bool) : Prop :=
  ∀ t, NoDup (find t) ∧ ∀ k, k ∈ find t ↔ P k = true ∧ is_Some (t !! k).

(** * Lemmas *)

Lemma elem_of_rows {V} (t : gmap string V) k v : (k, v) ∈ rows t ↔ t !! k = Some v.
Proof. unfold rows. by rewrite sort_rows_perm, elem_of_map_to_list. Qed.
Lemma rows_sorted {V} (t : gmap string V) : StronglySorted row_le (rows t).
Proof. apply sort_rows_sorted. Qed.
Lemma NoDup_rows {V} (t : gmap string V) : NoDup (rows t).*1.
Proof. unfold rows. rewrite sort_rows_perm. apply NoDup_fst_map_to_list. Qed.

Lemma scan_filter {V} (prefix : string) (t : gmap string V) :
  scan prefix t = filter (λ kv, starts_with prefix kv.1 = true) (rows t).
Proof. apply prefix_scan_filter, rows_sorted. Qed.

Lemma elem_of_scan {V} (prefix : string) (t : gmap string V) k v :
  (k, v) ∈ scan prefix t ↔ starts_with prefix k = true ∧ t !! k = Some v.
Proof. by rewrite scan_filter, list_elem_of_filter, elem_of_rows. Qed.

Lemma scan_finds prefix V : finds (λ t : gmap string V, (scan prefix t).*1) (starts_with prefix).
Proof.
  intros t. split.
  - rewrite scan_filter. apply NoDup_fst_filter, NoDup_rows.
  - intros k. rewrite list_elem_of_fmap. split.
    + intros ([k' v] & -> & [? ?]%elem_of_scan). eauto.
    + intros [? [v ?]]. exists (k, v). by rewrite elem_of_scan.
Qed.

(** ** Pairs *)

Lemma pair_le_trans : Transitive pair_le.
Proof.
  intros [a b] [c d] [e f]. unfold pair_le. cbn [fst snd]. repeat case_decide; subst; try done.
  - intros; by etrans.
  - intros H1 H2. exfalso. match goal with Hne : _ ≠ _ |- _ => apply Hne end. by apply (anti_symm String.le).
  - intros; by etrans.
Qed.
Lemma pair_le_total : Total pair_le.
Proof.
  intros [a b] [c d]. unfold pair_le. cbn [fst snd].
  destruct (String.le_total a c), (String.le_total b d); repeat case_decide; subst; auto; congruence.
Qed.

Lemma elem_of_pair_rows {V} (t : gmap (string * string) V) k v : (k, v) ∈ pair_rows t ↔ t !! k = Some v.
Proof. unfold pair_rows. by rewrite merge_sort_Permutation, elem_of_map_to_list. Qed.
Lemma pair_rows_sorted {V} (t : gmap (string * string) V) : StronglySorted pair_row_le (pair_rows t).
Proof.
  apply StronglySorted_merge_sort.
  - intros x y z. apply pair_le_trans.
  - intros x y. apply pair_le_total.
Qed.
Lemma NoDup_pair_rows {V} (t : gmap (string * string) V) : NoDup (pair_rows t).*1.
Proof. unfold pair_rows. rewrite merge_sort_Permutation. apply NoDup_fst_map_to_list. Qed.

Lemma pair_le_start p a b : pair_le (p, "") (a, b) ↔ String.le p a.
Proof.
  unfold pair_le. cbn [fst snd]. case_decide; [subst | done]. split; [intros _ | intros _; apply (string_le_prefix "" b)].
  apply reflexivity.
Qed.

(** The keys a test keeps are consecutive from [prefix] on. *)
Definition interval (keep : string → bool) (prefix : string) : Prop :=
  (∀ a, keep a = true → String.le prefix a) ∧
  (∀ a b, String.le prefix a → String.le a b → keep a = false → keep b = false).

Lemma interval_starts_with p : interval (starts_with p) p.
Proof.
  split; [| intros a b; apply prefix_interval]. intros a [t ->]%starts_with_spec. apply string_le_prefix.
Qed.
Lemma interval_eqb p : interval (String.eqb p) p.
Proof.
  split; [by intros a ->%String.eqb_eq |]. intros a b Hp Hab Ha%String.eqb_neq. apply String.eqb_neq.
  intros <-. apply Ha. by apply (anti_symm String.le).
Qed.

Lemma pair_scan_filter {V} (keep : string → bool) (prefix : string) (t : gmap (string * string) V) :
  interval keep prefix → pair_scan keep prefix t = filter (λ kv, keep kv.1.1 = true) (pair_rows t).
Proof.
  intros [Hge Hint]. unfold pair_scan. rewrite take_while_filter.
  - rewrite list_filter_filter. apply list_filter_iff. intros [[a b] v]. cbn [fst snd].
    rewrite pair_le_start. naive_solver.
  - intros l1 x l2 y Hl Hx Hy.
    assert (Hs := StronglySorted_filter _ (λ kv : string * string * V, pair_le (prefix, "") kv.1) _ (pair_rows_sorted t)).
    assert (Hp : pair_le (prefix, "") x.1).
    { assert (Hin : x ∈ l1 ++ x :: l2) by set_solver. rewrite <-Hl in Hin. by apply list_elem_of_filter in Hin as [? _]. }
    rewrite Hl in Hs. apply StronglySorted_app_1_r, StronglySorted_cons in Hs as [Hall _].
    rewrite Forall_forall in Hall. specialize (Hall _ Hy).
    destruct x as [[a b] v], y as [[c d] w]. unfold pair_row_le in Hall. cbn [fst snd] in *.
    rewrite pair_le_start in Hp. apply (Hint a c); [done | | done].
    unfold pair_le in Hall. cbn [fst snd] in Hall. case_decide; [by subst | done].
Qed.

Lemma elem_of_pair_scan {V} (keep : string → bool) (prefix : string) (t : gmap (string * string) V) k v :
  interval keep prefix → (k, v) ∈ pair_scan keep prefix t ↔ keep k.1 = true ∧ t !! k = Some v.
Proof. intros Hi. by rewrite pair_scan_filter, list_elem_of_filter, elem_of_pair_rows. Qed.

Lemma adj_with_prefix_finds p : finds (adj_with_prefix p) (λ k, starts_with p k.1).
Proof.
  intros t. unfold adj_with_prefix. split.
  - rewrite pair_scan_filter by apply interval_starts_with. apply NoDup_fst_filter, NoDup_pair_rows.
  - intros k. rewrite list_elem_of_fmap. split.
    + intros ([k' v] & -> & [? ?]%elem_of_pair_scan); [eauto | apply interval_starts_with].
    + intros [? [v ?]]. exists (k, v). rewrite elem_of_pair_scan; [done | apply interval_starts_with].
Qed.

Lemma elem_of_adj_scan {V} (prefix : string) (t : gmap (string * string) V) n v :
  (n, v) ∈ adj_scan prefix t ↔ t !! (prefix, n) = Some v.
Proof.
  unfold adj_scan. rewrite list_elem_of_fmap. split.
  - intros ([[a b] w] & [= -> ->] & [Ha%String.eqb_eq ?]%elem_of_pair_scan); [by subst | apply interval_eqb].
  - intros H. exists ((prefix, n), v). split; [done |]. apply elem_of_pair_scan; [apply interval_eqb |].
    split; [apply String.eqb_refl | done].
Qed.

Lemma NoDup_adj_scan {V} (prefix : string) (t : gmap (string * string) V) : NoDup (adj_scan prefix t).*1.
Proof.
  unfold adj_scan. rewrite pair_scan_filter by apply interval_eqb.
  pose proof (NoDup_fst_filter (λ kv, String.eqb prefix kv.1.1 = true) _ (NoDup_pair_rows t)) as Hn.
  assert (Hall : Forall (λ kv, kv.1.1 = prefix) (filter (λ kv, String.eqb prefix kv.1.1 = true) (pair_rows t))).
  { apply Forall_forall. by intros x [<-%String.eqb_eq _]%list_elem_of_filter. }
  revert Hn Hall. generalize (filter (λ kv : string * string * V, String.eqb prefix kv.1.1 = true) (pair_rows t)).
  intros l. induction l as [|[[a b] v] l IH]; [intros; constructor |]. cbn [fmap list_fmap fst snd].
  intros [Hk Hl]%NoDup_cons [Ha Hall]%Forall_cons. cbn [fst] in Ha. subst a. apply NoDup_cons. split; [| auto].
  intros ([n w] & -> & ([[c d] u] & [= -> ->] & Hin)%list_elem_of_fmap)%list_elem_of_fmap.
  rewrite Forall_forall in Hall. pose proof (Hall _ Hin) as Hc. cbn [fst snd] in *. subst c.
  apply Hk, list_elem_of_fmap. by exists ((prefix, d), u).
Qed.

(** ** Draining a table *)

Definition drop_matching {K V} `{Countable K} (P : K → bool) (t : gmap K V) : gmap K V :=
  filter (λ kv : K * V, P kv.1 = false) t.

Lemma lookup_drop_matching {K V} `{Countable K} (P : K → bool) (t : gmap K V) k :
  drop_matching P t !! k = if P k then None else t !! k.
Proof.
  unfold drop_matching. destruct (P k) eqn:E.
  - apply map_lookup_filter_None. right. intros x _. cbn [fst]. congruence.
  - destruct (t !! k) as [v|] eqn:Hk.
    + by apply map_lookup_filter_Some.
    + apply map_lookup_filter_None. by left.
Qed.

(** The loop removes exactly the rows the scan finds; as many rounds as rows
    are more than enough. *)
Lemma drain_spec {K V} `{Countable K} fuel n (find : gmap K V → list K) (P : K → bool) t removed :
  finds find P → (0 < n)%nat → (size t <= fuel)%nat →
  drain fuel n find t removed = Some (drop_matching P t, (removed + length (find t))%nat).
Proof.
  intros Hf Hn. revert t removed. induction fuel as [|fuel IH]; intros t removed Hsize.
  - assert (t = ∅) as -> by (apply map_size_empty_iff; lia).
    assert (find ∅ = []) as Hfind.
    { destruct (find ∅) as [|k l] eqn:E; [done |]. destruct (Hf ∅) as [_ Hk].
      assert (k ∈ find ∅) as [_ [v Hv]]%Hk by (rewrite E; set_solver). by rewrite lookup_empty in Hv. }
    cbn [drain]. rewrite Hfind, take_nil. cbn [length]. rewrite Nat.add_0_r. unfold drop_matching.
    by rewrite map_filter_empty.
  - destruct (Hf t) as [Hnd Hk]. cbn [drain]. destruct (take n (find t)) as [|k batch] eqn:Hb.
    + assert (find t = []) as Hfind by (destruct (find t), n; simpl in Hb; done || lia).
      rewrite Hfind. cbn [length]. rewrite Nat.add_0_r. do 2 f_equal. apply map_eq. intros k.
      rewrite lookup_drop_matching. destruct (P k) eqn:E; [| done]. apply eq_None_not_Some. intros Hs.
      assert (k ∈ find t) as Hin by (by apply Hk). rewrite Hfind in Hin. by apply not_elem_of_nil in Hin.
    + pose proof (take_drop n (find t)) as Hsplit. rewrite Hb in Hsplit.
      assert (Hlookup : ∀ k', foldl (λ t k, delete k t) t (k :: batch) !! k' =
        if decide (k' ∈ k :: batch) then None else t !! k') by apply lookup_delete_list.
      generalize dependent (foldl (λ t k, delete k t) t (k :: batch)). intros t' Ht'.
      rewrite <-Hsplit in Hnd. apply NoDup_app in Hnd as (_ & Hdisj & Hnd).
      assert (Hmem : ∀ i, (i ∈ k :: batch ∨ i ∈ drop n (find t)) ↔ P i = true ∧ is_Some (t !! i)).
      { intros i. by rewrite <-elem_of_app, Hsplit. }
      assert (Hk0 : k ∈ k :: batch) by apply list_elem_of_here.
      assert (Hlt : (size t' < size t)%nat).
      { assert (t' ⊆ delete k t) as Hsub.
        { apply map_subseteq_spec. intros i x Hi. rewrite Ht' in Hi. case_decide as Hd; [done |].
          apply lookup_delete_Some. split; [congruence | done]. }
        apply map_subseteq_size in Hsub. destruct (proj1 (Hmem k) (or_introl Hk0)) as [_ [v Hv]].
        rewrite map_size_delete, Hv in Hsub. assert (size t ≠ 0%nat); [| lia].
        apply map_size_non_empty_iff. intros ->. by rewrite lookup_empty in Hv. }
      assert (Hlen : length (find t) = (length (k :: batch) + length (find t'))%nat).
      { rewrite <-Hsplit at 1. rewrite length_app. f_equal. apply Permutation_length, NoDup_Permutation.
        - done.
        - apply Hf.
        - intros x. destruct (Hf t') as [_ ->]. rewrite Ht'. case_decide as Hx.
          + split; [intros Hx'; by destruct (Hdisj x) | by intros [_ [? ?]]].
          + rewrite <-(Hmem x). tauto. }
      rewrite IH by lia. rewrite Hlen. do 2 f_equal; [| lia]. apply map_eq. intros i.
      rewrite !lookup_drop_matching, Ht'. destruct (P i) eqn:E; [done |]. case_decide as Hd; [| done].
      destruct (proj1 (Hmem i) (or_introl Hd)). congruence.
Qed.

Lemma drain_all_spec {K V} `{Countable K} n (find : gmap K V → list K) (P : K → bool) t :
  finds find P → (0 < n)%nat → drain_all n find t = Some (drop_matching P t, length (find t)).
Proof. intros Hf Hn. unfold drain_all. by rewrite (drain_spec _ _ _ P). Qed.

(** Batches are the list they were cut from. *)
Lemma concat_chunks {A} n (l : list A) : (0 < n)%nat → concat (chunks n l) = l.
Proof.
  intros Hn. unfold chunks. assert (Hf : (length l <= length l)%nat) by lia. revert Hf.
  generalize (length l) at 2 3 as fuel. intros fuel. revert l.
  induction fuel as [|fuel IH]; intros [|a l] Hf; [done | cbn in Hf; lia | done |].
  cbn [chunks_fuel concat]. rewrite IH; [apply take_drop |].
  rewrite length_drop. cbn [length] in *. lia.
Qed.

Lemma foldl_chunks {A S} (f : S → A → S) n l s :
  (0 < n)%nat → foldl (λ s batch, foldl f s batch) s (chunks n l) = foldl f s l.
Proof.
  intros Hn. rewrite <-(concat_chunks n l) at 2 by done. generalize (chunks n l). intros ls. revert s.
  induction ls as [|b ls IH]; intros s; [done |]. cbn [foldl concat]. by rewrite foldl_app.
Qed.
