(* ===== verification/GraphSpec.v ===== *)
(** The graph store against an abstract graph: a finite map from (project,
    kind, source, target) to edges. [Refines] relates the three edge tables to
    it; every write of the store is matched by an operation on the map. *)
From S2P Require Import Prelude Text Store Namespaces Graph.

Open Scope N_scope.

(** * Definitions *)

Notation EKey := (string * EdgeKind * string * string)%type.

Lemma parse_as_str k : parse (as_str k) = Some k.
Proof. by destruct k. Qed.
#[export] Instance EdgeKind_countable : Countable EdgeKind := inj_countable as_str parse parse_as_str.

Notation AGraph := (gmap EKey Edge).

Definition ekey (p : string) (e : Edge) : EKey := (p, edge_kind e, source_id e, target_id e).
(** Where the rows of an edge are. *)
Definition raw_key (k : EKey) : string := let '(p, kind, s, t) := k in edge_key p kind s t.
Definition out_key (k : EKey) : string * string := let '(p, kind, s, t) := k in (adj_key p kind s, t).
Definition in_key (k : EKey) : string * string := let '(p, kind, s, t) := k in (adj_key p kind t, s).

Definition clean (s : string) : Prop := contains_char NUL s = false.
(** The fields are values of their machine types, the ids can be keys. *)
Definition edge_typed (e : Edge) : Prop :=
  clean (source_id e) ∧ clean (target_id e) ∧ weight e <= u32_max ∧ updated_at_ms e <= u64_max.

Section spec.
Context `{BC : !Bincode}.

Definition adj_of (e : Edge) : bytes := encode_adj_value (weight e) (updated_at_ms e).

Definition key_clean (k : EKey) : Prop := let '(p, _, s, t) := k in clean p ∧ clean s ∧ clean t.

(** A table holds a row for every edge, and nothing else. *)
Definition Mirrors {K V} `{Countable K} (f : EKey → K) (v : Edge → V) (T : gmap K V) (g : AGraph) : Prop :=
  ∀ x y, T !! x = Some y ↔ ∃ k e, g !! k = Some e ∧ x = f k ∧ y = v e.

Record Refines (db : GraphDB) (g : AGraph) : Prop := {
  ref_keys : ∀ k e, g !! k = Some e → key_clean k ∧ edge_typed e ∧ k = ekey k.1.1.1 e;
  ref_edges : Mirrors raw_key edge_bytes (EDGES db) g;
  ref_out : Mirrors out_key adj_of (ADJ_OUT db) g;
  ref_in : Mirrors in_key adj_of (ADJ_IN db) g;
}.

(** ** Abstract operations *)

Definition a_put (p : string) (e : Edge) (g : AGraph) : AGraph := <[ekey p e := e]> g.
Definition a_puts (p : string) (es : list Edge) (g : AGraph) : AGraph := foldl (λ g e, a_put p e g) g es.
Definition a_drops (p : string) (es : list Edge) (g : AGraph) : AGraph := foldl (λ g e, delete (ekey p e) g) g es.
Definition a_put_absent (p : string) (es : list Edge) (g : AGraph) : AGraph :=
  foldl (λ g e, match g !! ekey p e with Some _ => g | None => a_put p e g end) g es.
Definition a_increment (now : N) (p namespace language : string) (generation : N) (i : increment) (g : AGraph)
  : AGraph :=
  let '(k, s, t, delta) := i in
  <[(p, k, s, t) := match g !! (p, k, s, t) with
                    | Some e => bumped now generation delta e
                    | None => new_edge namespace language k s t delta generation now
                    end]> g.
Definition a_increments (now : N) (p namespace language : string) (generation : N) (incs : list increment)
    (g : AGraph) : AGraph :=
  foldl (λ g i, a_increment now p namespace language generation i g) g incs.
Definition a_keep (keep : EKey → Edge → bool) (g : AGraph) : AGraph :=
  filter (λ ke : EKey * Edge, keep ke.1 ke.2 = true) g.
Definition of_project (p : string) (k : EKey) : bool := bool_decide (k.1.1.1 = p).
Definition of_kind (p : string) (kind : EdgeKind) (k : EKey) : bool := bool_decide (k.1.1 = (p, kind)).

(** * Lemmas *)

Lemma as_str_clean k : clean (as_str k).
Proof. by destruct k. Qed.
Lemma as_str_inj k k' : as_str k = as_str k' → k = k'.
Proof. intros H. apply (f_equal parse) in H. rewrite !parse_as_str in H. congruence. Qed.

Lemma nul_inj a b x y : clean a → clean b → nul a x = nul b y → a = b ∧ x = y.
Proof. apply sep_inj. Qed.

Lemma adj_key_inj p k n p' k' n' :
  clean p → clean p' → adj_key p k n = adj_key p' k' n' → p = p' ∧ k = k' ∧ n = n'.
Proof.
  unfold adj_key. intros Hp Hp' [-> H]%nul_inj; [| done..].
  apply nul_inj in H as [H%as_str_inj ->]; [done | apply as_str_clean..].
Qed.

Lemma edge_key_inj p k s t p' k' s' t' :
  clean p → clean p' → clean s → clean s' → edge_key p k s t = edge_key p' k' s' t' →
  p = p' ∧ k = k' ∧ s = s' ∧ t = t'.
Proof.
  unfold edge_key. intros Hp Hp' Hs Hs' [-> H]%nul_inj; [| done..].
  apply nul_inj in H as [H%as_str_inj Hst]; [| apply as_str_clean..].
  apply nul_inj in Hst as [-> ->]; done.
Qed.

Lemma decode_encode_adj w ts : w <= u32_max → ts <= u64_max → decode_adj_value (encode_adj_value w ts) = Ok (w, ts).
Proof.
  intros Hw Ht. unfold decode_adj_value, encode_adj_value.
  assert (slen (le_split 4 w +:+ le_split 8 ts) = 12) as ->.
  { unfold slen. by rewrite length_app_str, !le_split_length. }
  cbn [ensure mbind result_bind N.leb]. change (12 <=? 12) with true. cbn [ensure mbind result_bind].
  rewrite stake_app, sdrop_app by (by rewrite le_split_length).
  assert (Ht8 : stake 8 (le_split 8 ts) = le_split 8 ts).
  { rewrite <-(app_nil_r_str (le_split 8 ts)) at 1. apply stake_app. by rewrite le_split_length. }
  rewrite Ht8, !from_le_split; [done | unfold u64_max, u32_max in *; simpl; lia..].
Qed.

Lemma raw_key_inj k k' : key_clean k → key_clean k' → raw_key k = raw_key k' → k = k'.
Proof.
  destruct k as [[[p kind] s] t], k' as [[[p' kind'] s'] t']. intros (Hp & Hs & _) (Hp' & Hs' & _) H.
  apply edge_key_inj in H as (-> & -> & -> & ->); done.
Qed.
Lemma out_key_inj k k' : key_clean k → key_clean k' → out_key k = out_key k' → k = k'.
Proof.
  destruct k as [[[p kind] s] t], k' as [[[p' kind'] s'] t']. intros (Hp & _) (Hp' & _) [= H ->].
  apply adj_key_inj in H as (-> & -> & ->); done.
Qed.
Lemma in_key_inj k k' : key_clean k → key_clean k' → in_key k = in_key k' → k = k'.
Proof.
  destruct k as [[[p kind] s] t], k' as [[[p' kind'] s'] t']. intros (Hp & _) (Hp' & _) [= H ->].
  apply adj_key_inj in H as (-> & -> & ->); done.
Qed.

(** A table stays a mirror through the matching insert and delete. *)
Section mirrors.
Context {K V : Type} `{Countable K} (f : EKey → K) (v : Edge → V) (T : gmap K V) (g : AGraph).
Context (Hinj : ∀ k k', key_clean k → key_clean k' → f k = f k' → k = k').
Context (Hg : ∀ k e, g !! k = Some e → key_clean k) (HT : Mirrors f v T g).

Lemma mirrors_insert k e : key_clean k → Mirrors f v (<[f k := v e]> T) (<[k := e]> g).
Proof using Hinj Hg HT.
  intros Hk x y. destruct (decide (f k = x)) as [<-|Hx].
  - rewrite lookup_insert_eq. split.
    + intros [= <-]. exists k, e. by rewrite lookup_insert_eq.
    + intros (k' & e' & He & Hf & ->). destruct (decide (k = k')) as [->|Hne].
      * rewrite lookup_insert_eq in He. congruence.
      * rewrite lookup_insert_ne in He by done. exfalso. apply Hne. eauto.
  - rewrite lookup_insert_ne by done. rewrite (HT x y). split; intros (k' & e' & He & -> & ->);
      exists k', e'; (split; [| done]).
    + by rewrite lookup_insert_ne by congruence.
    + rewrite lookup_insert_ne in He by congruence. done.
Qed.

Lemma mirrors_delete k : key_clean k → Mirrors f v (delete (f k) T) (delete k g).
Proof using Hinj Hg HT.
  intros Hk x y. rewrite lookup_delete_Some, (HT x y). split.
  - intros (Hx & k' & e & He & -> & ->). exists k', e. rewrite lookup_delete_ne by congruence. done.
  - intros (k' & e & [Hne He]%lookup_delete_Some & -> & ->). split; [| eauto]. intros Hf. apply Hne. eauto.
Qed.

Lemma mirrors_lookup k : key_clean k → T !! f k = v <$> g !! k.
Proof using Hinj Hg HT.
  intros Hk. destruct (g !! k) as [e|] eqn:He; simpl.
  - apply (HT (f k)). eauto.
  - destruct (T !! f k) as [y|] eqn:Hy; [| done]. apply (HT (f k)) in Hy as (k' & e & He' & Hf & ->).
    apply Hinj in Hf as ->; [congruence | done | eauto].
Qed.
End mirrors.

Lemma key_clean_ekey p e : clean p → edge_typed e → key_clean (ekey p e).
Proof. intros Hp (? & ? & _). done. Qed.

Section with_refines.
Context (db : GraphDB) (g : AGraph) (HR : Refines db g).

Lemma ref_clean k e : g !! k = Some e → key_clean k.
Proof using HR. by intros [? _]%(ref_keys _ _ HR). Qed.

Lemma ref_lookup k : key_clean k → EDGES db !! raw_key k = edge_bytes <$> g !! k.
Proof using HR. apply (mirrors_lookup _ _ _ _ raw_key_inj ref_clean (ref_edges _ _ HR)). Qed.

Lemma refines_put p e : clean p → edge_typed e → Refines (put_edge p e db) (a_put p e g).
Proof using HR.
  intros Hp He. pose proof (key_clean_ekey p e Hp He) as Hk. split; cbn [EDGES ADJ_OUT ADJ_IN with_edges put_edge].
  - intros k e'. unfold a_put. destruct (decide (ekey p e = k)) as [<-|Hne].
    + rewrite lookup_insert_eq. intros [= <-]. done.
    + rewrite lookup_insert_ne by done. apply (ref_keys _ _ HR).
  - exact (mirrors_insert _ _ _ _ raw_key_inj ref_clean (ref_edges _ _ HR) _ e Hk).
  - exact (mirrors_insert _ _ _ _ out_key_inj ref_clean (ref_out _ _ HR) _ e Hk).
  - exact (mirrors_insert _ _ _ _ in_key_inj ref_clean (ref_in _ _ HR) _ e Hk).
Qed.

Lemma refines_drop p k s t :
  clean p → clean s → clean t → Refines (drop_edge p k s t db) (delete (p, k, s, t) g).
Proof using HR.
  intros Hp Hs Ht. assert (Hk : key_clean (p, k, s, t)) by done. split; cbn [EDGES ADJ_OUT ADJ_IN with_edges drop_edge].
  - intros k' e [_ He]%lookup_delete_Some. by apply (ref_keys _ _ HR).
  - exact (mirrors_delete _ _ _ _ raw_key_inj ref_clean (ref_edges _ _ HR) _ Hk).
  - exact (mirrors_delete _ _ _ _ out_key_inj ref_clean (ref_out _ _ HR) _ Hk).
  - exact (mirrors_delete _ _ _ _ in_key_inj ref_clean (ref_in _ _ HR) _ Hk).
Qed.
End with_refines.
End spec.
