(* ===== verification/GraphRefine.v ===== *)
(** Every operation that writes the graph store refines an operation on the
    abstract graph of GraphSpec.v, and never runs out of its loop bounds. *)
From S2P Require Import Prelude Text Store Namespaces Graph GraphRows GraphSpec.

Open Scope N_scope.

(** * Definitions *)

(** The writes of the store, with their arguments. *)
Inductive GraphOp :=
  | OpNodes (p : string) (nodes : list Node)
  | OpEdges (p : string) (es : list Edge)
  | OpBoth (p : string) (nodes : list Node) (es : list Edge)
  | OpReplace (p : string) (expected replacements : list Edge)
  | OpIncrement (now : N) (p namespace language : string) (k : EdgeKind) (s t : string) (delta generation : N)
  | OpBatch (now : N) (p namespace language : string) (generation : N) (incs : list increment)
  | OpUndirected (now : N) (p namespace language : string) (generation : N) (pairs : list increment)
  | OpLearn (now : N) (p namespace language : string) (generation : N) (nodes : list Node) (pairs : list increment)
  | OpPurge (p : string) (active : N)
  | OpPurgeBelow (p : string) (baseline : N)
  | OpDeleteKind (p : string) (k : EdgeKind)
  | OpDeleteProject (p : string).

Section run.
Context `{BC : !Bincode}.

Definition run (op : GraphOp) (db : GraphDB) : option (GraphDB * bool) :=
  let done {A} (x : GraphDB * result A) := Some (x.1, is_ok x.2) in
  match op with
  | OpNodes p nodes => done (upsert_nodes p nodes db)
  | OpEdges p es => done (upsert_edges p es db)
  | OpBoth p nodes es => done (upsert_nodes_and_edges p nodes es db)
  | OpReplace p expected replacements => done (replace_edge_snapshot p expected replacements db)
  | OpIncrement now p ns lang k s t delta g => done (increment_edge now p ns lang k s t delta g db)
  | OpBatch now p ns lang g incs => done (batch_increment_edges now p ns lang g incs db)
  | OpUndirected now p ns lang g pairs => done (batch_increment_undirected_edges now p ns lang g pairs db)
  | OpLearn now p ns lang g nodes pairs =>
      done (upsert_nodes_and_increment_undirected_edges now p ns lang g nodes pairs db)
  | OpPurge p active => done (purge_old_generations p active db)
  | OpPurgeBelow p baseline => done (purge_generations_below p baseline db)
  | OpDeleteKind p k => '(db', _) ← delete_edges_of_kind p k db; Some (db', true)
  | OpDeleteProject p => db' ← delete_project_data p db; Some (db', true)
  end.

(** What a successful run does to the abstract graph. *)
Definition a_purge (p : string) (stale : string → N → bool) : AGraph → AGraph :=
  a_keep (λ k e, negb (of_project p k && stale (edge_namespace e) (edge_generation e))).
Definition apply (op : GraphOp) (g : AGraph) : AGraph :=
  match op with
  | OpNodes _ _ => g
  | OpEdges p es | OpBoth p _ es => a_puts p es g
  | OpReplace p expected replacements => a_put_absent p replacements (a_drops p expected g)
  | OpIncrement now p ns lang k s t delta gen => a_increment now p ns lang gen (k, s, t, delta) g
  | OpBatch now p ns lang gen incs => a_increments now p ns lang gen incs g
  | OpUndirected now p ns lang gen pairs | OpLearn now p ns lang gen _ pairs =>
      a_increments now p ns lang gen (directed pairs) g
  | OpPurge p active => a_purge p (stale_unless active) g
  | OpPurgeBelow p baseline => a_purge p (stale_below baseline) g
  | OpDeleteKind p k => a_keep (λ key _, negb (of_kind p k key)) g
  | OpDeleteProject p => a_keep (λ key _, negb (of_project p key)) g
  end.

(** The arguments are values of their machine types. The keys are checked by
    the operations themselves, but for the single increment and the deletions. *)
Definition small (e : Edge) : Prop := weight e <= u32_max ∧ updated_at_ms e <= u64_max.
Definition small_increment (i : increment) : Prop := i.2 <= u32_max.
Definition op_typed (op : GraphOp) : Prop :=
  match op with
  | OpNodes _ _ => True
  | OpEdges _ es | OpBoth _ _ es => Forall small es
  | OpReplace _ _ replacements => Forall small replacements
  | OpIncrement now p _ _ _ s t delta _ => clean p ∧ clean s ∧ clean t ∧ delta <= u32_max ∧ now <= u64_max
  | OpBatch now _ _ _ _ incs | OpUndirected now _ _ _ _ incs | OpLearn now _ _ _ _ _ incs =>
      now <= u64_max ∧ Forall small_increment incs
  | OpPurge p _ | OpPurgeBelow p _ | OpDeleteKind p _ | OpDeleteProject p => clean p
  end.

(** * Lemmas *)

Lemma check_key_clean name v : check_key name v = Ok tt → clean v.
Proof. intros H%validate_key_component_Ok. by apply valid_component_no_NUL. Qed.

Lemma check_endpoints_clean es u :
  check_endpoints es = Ok u → Forall (λ e, clean (source_id e) ∧ clean (target_id e)) es.
Proof.
  unfold check_endpoints. intros (l & H%result_traverse_Ok & _)%result_bind_Ok.
  induction H as [|e [] es l He _ IH]; constructor; [| done].
  apply result_bind_Ok in He as ([] & ?%check_key_clean & ?%check_key_clean). done.
Qed.

Lemma check_increments_clean incs u :
  check_increments incs = Ok u → Forall (λ i : increment, clean i.1.1.2 ∧ clean i.1.2) incs.
Proof.
  unfold check_increments. intros (l & H%result_traverse_Ok & _)%result_bind_Ok.
  induction H as [|[[[k s] t] d] [] incs l He _ IH]; constructor; [| done].
  apply result_bind_Ok in He as ([] & ?%check_key_clean & ?%check_key_clean). done.
Qed.

Lemma edges_typed es : Forall (λ e, clean (source_id e) ∧ clean (target_id e)) es → Forall small es → Forall edge_typed es.
Proof. rewrite !Forall_forall. unfold edge_typed, small. naive_solver. Qed.

(** The edge tables are all that [Refines] looks at. *)
Definition same_edges (db db' : GraphDB) : Prop :=
  EDGES db' = EDGES db ∧ ADJ_OUT db' = ADJ_OUT db ∧ ADJ_IN db' = ADJ_IN db.
Lemma refines_same db db' g : same_edges db db' → Refines db g → Refines db' g.
Proof. intros (He & Ho & Hi) [H1 H2 H3 H4]. split; rewrite ?He, ?Ho, ?Hi; done. Qed.

Lemma upsert_nodes_same p nodes db u db' :
  upsert_nodes_in_tx p nodes db = Ok (u, db') → same_edges db db'.
Proof.
  revert db. induction nodes as [|n nodes IH]; intros db H; cbn [upsert_nodes_in_tx] in H; [by injection H as <- <- |].
  apply tx_bind_Ok in H as (v & db1 & Hn & H). apply IH in H. unfold tx_upsert_node in Hn.
  apply result_bind_Ok in Hn as (x & _ & Hn). apply result_bind_Ok in Hn as (y & _ & [= <- <-]).
  unfold same_edges in *. destruct H as (-> & -> & ->). done.
Qed.

Lemma refines_puts p es db g :
  Refines db g → clean p → Forall edge_typed es → Refines (put_edges p es db) (a_puts p es g).
Proof.
  unfold put_edges, a_puts. intros HR Hp Hes. revert db g HR.
  induction Hes as [|e es He _ IH]; intros db g HR; [done |]. cbn [foldl]. by apply IH, refines_put.
Qed.

Lemma refines_drops p es db g :
  Refines db g → clean p → Forall (λ e, clean (source_id e) ∧ clean (target_id e)) es →
  Refines (drop_edges p es db) (a_drops p es g).
Proof.
  unfold drop_edges, a_drops. intros HR Hp Hes. revert db g HR.
  induction Hes as [|e es [Hs Ht] _ IH]; intros db g HR; [done |]. cbn [foldl]. by apply IH, refines_drop.
Qed.

Lemma refines_put_absent p es db g :
  Refines db g → clean p → Forall edge_typed es → Refines (put_absent p es db) (a_put_absent p es g).
Proof.
  unfold put_absent, a_put_absent. intros HR Hp Hes. revert db g HR.
  induction Hes as [|e es He _ IH]; intros db g HR; [done |]. cbn [foldl]. apply IH.
  change (key_of p e) with (raw_key (ekey p e)). rewrite (ref_lookup db g HR) by (by apply key_clean_ekey).
  destruct (g !! ekey p e); cbn [fmap option_fmap option_map]; [done | by apply refines_put].
Qed.

Lemma bumped_typed now generation delta e :
  edge_typed e → now <= u64_max → edge_typed (bumped now generation delta e).
Proof. unfold edge_typed, bumped, saturating_add32. cbn. intuition lia. Qed.

(** One increment, whatever was under its key. *)
Lemma refines_increment now p ns lang gen k s t delta db g :
  Refines db g → clean p → clean s → clean t → delta <= u32_max → now <= u64_max →
  let e := match g !! (p, k, s, t) with
           | Some e => bumped now gen delta e
           | None => new_edge ns lang k s t delta gen now
           end in
  Refines (store_increment p k s t now e db) (a_increment now p ns lang gen (k, s, t, delta) g).
Proof.
  intros HR Hp Hs Ht Hd Hnow. unfold a_increment. destruct (g !! (p, k, s, t)) as [e|] eqn:Hg; cbv zeta.
  - destruct (ref_keys _ _ HR _ _ Hg) as (_ & He & Hkey). unfold ekey in Hkey. cbn [fst snd] in Hkey.
    injection Hkey as -> -> ->.
    exact (refines_put db g HR p (bumped now gen delta e) Hp (bumped_typed _ _ _ _ He Hnow)).
  - refine (refines_put db g HR p (new_edge ns lang k s t delta gen now) Hp _). unfold edge_typed. done.
Qed.

Lemma refines_tx_increment now p ns lang gen i db g u db' :
  Refines db g → clean p → clean i.1.1.2 → clean i.1.2 → small_increment i → now <= u64_max →
  tx_increment now p ns lang gen i db = Ok (u, db') →
  Refines db' (a_increment now p ns lang gen i g).
Proof.
  destruct i as [[[k s] t] delta]. unfold small_increment. cbn [fst snd]. intros HR Hp Hs Ht Hd Hnow H.
  unfold tx_increment in H. apply result_bind_Ok in H as (existing & Hx & [= _ <-]).
  assert (Hex : existing = g !! (p, k, s, t)).
  { change (edge_key p k s t) with (raw_key (p, k, s, t)) in Hx. rewrite (ref_lookup db g HR) in Hx by done.
    destruct (g !! (p, k, s, t)) as [e|]; cbn in Hx; [rewrite edge_round_trip in Hx |]; by injection Hx as <-. }
  rewrite Hex. by apply refines_increment.
Qed.

Lemma refines_increments now p ns lang gen incs db g u db' :
  Refines db g → clean p → Forall (λ i : increment, clean i.1.1.2 ∧ clean i.1.2) incs →
  Forall small_increment incs → now <= u64_max →
  increment_edges_in_tx now p ns lang gen incs db = Ok (u, db') →
  Refines db' (a_increments now p ns lang gen incs g).
Proof.
  intros HR Hp Hc Hs Hnow. revert db g HR. induction incs as [|i incs IH]; intros db g HR H;
    cbn [increment_edges_in_tx] in H; [by injection H as _ <- |].
  apply Forall_cons in Hc as [[Hi1 Hi2] Hc]. apply Forall_cons in Hs as [Hi3 Hs].
  apply tx_bind_Ok in H as (v & db1 & Hi & H). unfold a_increments in *. cbn [foldl].
  eapply IH; [done | done | | exact H]. by eapply refines_tx_increment.
Qed.

Lemma directed_Forall (P : increment → Prop) pairs :
  (∀ k a b d, P (k, a, b, d) → P (k, b, a, d)) → Forall P pairs → Forall P (directed pairs).
Proof.
  intros Hsym. induction 1 as [|[[[k a] b] d] pairs Hi _ IH]; [constructor |].
  unfold directed in *. rewrite bind_cons. apply Forall_app. split; [| done].
  destruct (String.eqb a b); [constructor |]. constructor; [done |]. constructor; [by apply Hsym | constructor].
Qed.

(** ** Deletions *)

Lemma lookup_a_keep keep g k : a_keep keep g !! k = match g !! k with Some e => if keep k e then Some e else None | None => None end.
Proof.
  unfold a_keep. destruct (g !! k) as [e|] eqn:Hk.
  - destruct (keep k e) eqn:E.
    + by apply map_lookup_filter_Some.
    + apply map_lookup_filter_None. right. intros x Hx. cbn [fst snd]. congruence.
  - apply map_lookup_filter_None. by left.
Qed.
Lemma a_keep_Some keep g k e : a_keep keep g !! k = Some e ↔ g !! k = Some e ∧ keep k e = true.
Proof.
  rewrite lookup_a_keep. destruct (g !! k) as [e'|]; [| split; [done | by intros []]].
  destruct (keep k e') eqn:E; split.
  - intros [= <-]. done.
  - by intros [[= <-] _].
  - done.
  - intros [[= <-] ?]. congruence.
Qed.

Lemma mirrors_keep {K V} `{Countable K} (f : EKey → K) (v : Edge → V) T g (Q : K → bool) (keep : EKey → bool) :
  Mirrors f v T g → (∀ k e, g !! k = Some e → key_clean k) →
  (∀ k, key_clean k → Q (f k) = negb (keep k)) →
  Mirrors f v (drop_matching Q T) (a_keep (λ k _, keep k) g).
Proof.
  intros HT Hc HQ x y. rewrite lookup_drop_matching. split.
  - destruct (Q x) eqn:E; [done |]. intros (k & e & He & -> & ->)%HT. exists k, e. split; [| done].
    rewrite HQ in E by eauto. apply negb_false_iff in E. by apply a_keep_Some.
  - intros (k & e & [He Hk]%a_keep_Some & -> & ->). rewrite HQ, Hk by eauto. cbn [negb]. apply HT. eauto.
Qed.

Lemma starts_with_nul p q x y : clean p → clean q →
  starts_with (nul p x) (nul q y) = (bool_decide (p = q) && starts_with x y).
Proof.
  intros Hp Hq. apply eq_true_iff_eq. rewrite andb_true_iff, bool_decide_eq_true, !starts_with_spec. unfold nul. split.
  - intros [t Ht]. rewrite app_assoc_str, app_cons in Ht. apply sep_inj in Ht as [-> ->]; [| done..]. eauto.
  - intros [-> [t ->]]. exists t. by rewrite app_assoc_str, app_cons.
Qed.
Lemma starts_with_empty s : starts_with "" s = true.
Proof. apply starts_with_spec. by exists s. Qed.

Lemma project_prefix_raw p k : clean p → key_clean k → starts_with (nul p "") (raw_key k) = of_project p k.
Proof.
  destruct k as [[[q kind] s] t]. intros Hp (Hq & _). unfold raw_key, edge_key, of_project. cbn [fst].
  rewrite starts_with_nul, starts_with_empty, andb_true_r by done. by apply bool_decide_ext.
Qed.
Lemma project_prefix_adj p q kind n : clean p → clean q →
  starts_with (nul p "") (adj_key q kind n) = bool_decide (q = p).
Proof.
  intros Hp Hq. unfold adj_key. rewrite starts_with_nul, starts_with_empty, andb_true_r by done. by apply bool_decide_ext.
Qed.
Lemma kind_prefix_nul p kind q kind' x : clean p → clean q →
  starts_with (kind_prefix p kind) (nul q (nul (as_str kind') x)) = bool_decide ((q, kind') = (p, kind)).
Proof.
  intros Hp Hq. unfold kind_prefix. rewrite !starts_with_nul, starts_with_empty, andb_true_r; [| apply as_str_clean.. | done | done].
  apply eq_true_iff_eq. rewrite andb_true_iff, !bool_decide_eq_true. split.
  - intros [-> ->%as_str_inj]. done.
  - intros [= -> ->]. done.
Qed.

Lemma refines_keep db g (keep : EKey → bool) db' :
  Refines db g → Mirrors raw_key edge_bytes (EDGES db') (a_keep (λ k _, keep k) g) →
  Mirrors out_key adj_of (ADJ_OUT db') (a_keep (λ k _, keep k) g) →
  Mirrors in_key adj_of (ADJ_IN db') (a_keep (λ k _, keep k) g) → Refines db' (a_keep (λ k _, keep k) g).
Proof. intros HR H1 H2 H3. split; [| done..]. intros k e [He _]%a_keep_Some. by apply (ref_keys _ _ HR). Qed.

Lemma refines_delete_kind p kind db g :
  Refines db g → clean p →
  ∃ db' n, delete_edges_of_kind p kind db = Some (db', n) ∧
    Refines db' (a_keep (λ key _, negb (of_kind p kind key)) g).
Proof.
  intros HR Hp. unfold delete_edges_of_kind.
  rewrite (drain_all_spec _ _ (starts_with (kind_prefix p kind))); [| apply scan_finds | unfold EDGE_BATCH; lia].
  cbn [mbind option_bind]. rewrite !(drain_all_spec _ _ (λ k, starts_with (kind_prefix p kind) k.1)) by
    (apply adj_with_prefix_finds || (unfold EDGE_BATCH; lia)). cbn [mbind option_bind].
  eexists _, _. split; [done |].
  apply (refines_keep db g (λ key, negb (of_kind p kind key)) _ HR); cbn [EDGES ADJ_OUT ADJ_IN with_edges];
    eapply mirrors_keep; try (apply HR || apply (ref_clean db g HR));
    intros [[[q kind'] s] t] (Hq & _); rewrite negb_involutive; cbn [raw_key out_key in_key fst];
    unfold edge_key, adj_key, of_kind; cbn [fst]; by apply kind_prefix_nul.
Qed.

Lemma refines_delete_project p db g :
  Refines db g → clean p →
  ∃ db', delete_project_data p db = Some db' ∧ Refines db' (a_keep (λ key _, negb (of_project p key)) g).
Proof.
  intros HR Hp. unfold delete_project_data. cbv zeta.
  rewrite !(drain_all_spec _ _ (starts_with (nul p ""))) by (apply scan_finds || (unfold PROJECT_BATCH; lia)).
  cbn [mbind option_bind]. rewrite !(drain_all_spec _ _ (λ k, starts_with (nul p "") k.1)) by
    (apply adj_with_prefix_finds || (unfold PROJECT_BATCH; lia)). cbn [mbind option_bind].
  eexists. split; [done |].
  apply (refines_keep db g (λ key, negb (of_project p key)) _ HR); cbn [EDGES ADJ_OUT ADJ_IN];
    eapply mirrors_keep; try (apply HR || apply (ref_clean db g HR));
    intros k Hk; rewrite negb_involutive; [by apply project_prefix_raw | |];
    destruct k as [[[q kind] s] t]; destruct Hk as (Hq & _); cbn [out_key in_key fst]; by apply project_prefix_adj.
Qed.

(** ** The purge *)

Lemma split_once_nul a b : clean a → split_once NUL (nul a b) = Some (a, b).
Proof.
  unfold nul. induction a as [|c a IH]; intros Ha; [done |]. rewrite app_cons. cbn [split_once].
  unfold clean in Ha. rewrite contains_char_cons in Ha. apply orb_false_iff in Ha as [Hc Ha].
  rewrite Ascii.eqb_sym, Hc. by rewrite IH.
Qed.

Lemma purge_edge_key_drop p k s t db :
  clean p → clean s → clean t → purge_edge_key p (edge_key p k s t) db = drop_edge p k s t db.
Proof.
  intros Hp Hs Ht. unfold purge_edge_key, edge_key_parts, edge_key.
  rewrite split_once_nul by done. rewrite split_once_nul by apply as_str_clean. rewrite split_once_nul by done.
  by rewrite parse_as_str.
Qed.

Lemma refines_purge_keys p ks db g :
  Refines db g → Forall (λ k, key_clean k ∧ k.1.1.1 = p) ks →
  Refines (foldl (λ db raw, purge_edge_key p raw db) db (raw_key <$> ks)) (foldl (λ g k, delete k g) g ks).
Proof.
  intros HR Hks. revert db g HR. induction Hks as [|k ks [Hk <-] _ IH]; intros db g HR; [done |].
  cbn [fmap list_fmap foldl]. apply IH. destruct k as [[[q kind] s] t], Hk as (Hq & Hs & Ht).
  cbn [raw_key fst]. rewrite purge_edge_key_drop by done. by apply refines_drop.
Qed.

(** The rows of a table that mirrors edges, as edges. *)
Lemma mirrored_rows db g rows :
  Refines db g → Forall (λ kv, EDGES db !! kv.1 = Some kv.2) rows →
  ∃ kes : list (EKey * Edge), rows = (λ ke, (raw_key ke.1, edge_bytes ke.2)) <$> kes ∧
    Forall (λ ke, g !! ke.1 = Some ke.2) kes.
Proof.
  intros HR. induction 1 as [|[raw v] rows Hrow _ (kes & -> & IH)]; [by exists [] |]. cbn [fst snd] in Hrow.
  apply (ref_edges _ _ HR) in Hrow as (k & e & He & -> & ->). exists ((k, e) :: kes). split; [done | by constructor].
Qed.

Lemma stale_keys_edges (f : Edge → bool) (kes : list (EKey * Edge)) :
  stale_keys edge_of_bytes f ((λ ke, (raw_key ke.1, edge_bytes ke.2)) <$> kes) =
  Ok (raw_key <$> (filter (λ ke, f ke.2 = true) kes).*1).
Proof.
  unfold stale_keys. apply result_bind_Ok.
  exists ((λ ke : EKey * Edge, (raw_key ke.1, f ke.2)) <$> kes). split.
  - apply result_traverse_Ok. induction kes as [|ke kes IH]; [constructor |]. cbn [fmap list_fmap].
    constructor; [| done]. cbn [fst snd]. by rewrite edge_round_trip.
  - f_equal. induction kes as [|[k e] kes IH]; [done |]. cbn [fmap list_fmap fst snd]. rewrite !filter_cons. cbn [fst snd].
    destruct (f e) eqn:E; repeat case_decide; try done. cbn [fmap list_fmap fst]. by f_equal.
Qed.

Lemma refines_purge p stale db g db' r :
  Refines db g → clean p → purge_where p stale db = (db', r) →
  if is_ok r then Refines db' (a_purge p stale g) else Refines db' g.
Proof.
  intros HR Hp. unfold purge_where.
  destruct (stale_keys node_of_bytes _ _) as [nks|e]; [| by intros [= <- <-]]. cbv zeta.
  match goal with |- context [foldl ?f db ?l] => set (db1 := foldl f db l) end.
  assert (HR1 : Refines db1 g).
  { eapply refines_same; [| exact HR]. subst db1. generalize (chunks NODE_BATCH nks). intros bs.
    assert (Hgen : ∀ d, same_edges db d → same_edges db
      (foldl (λ db batch, with_nodes (foldl (λ t k, delete k t) (NODES db) batch) db) d bs)).
    { induction bs as [|b bs IH]; intros d Hd; [done |]. cbn [foldl]. apply IH. by destruct Hd as (? & ? & ?). }
    by apply Hgen. }
  clearbody db1.
  destruct (mirrored_rows db1 g (scan (nul p "") (EDGES db1)) HR1) as (kes & Hrows & Hkes).
  { apply Forall_forall. intros [k v] [_ ?]%elem_of_scan. done. }
  rewrite Hrows, stale_keys_edges. rewrite foldl_chunks by (unfold NODE_BATCH; lia). intros [= <- <-]. cbn [is_ok].
  set (ks := (filter (λ ke : EKey * Edge, stale (edge_namespace ke.2) (edge_generation ke.2) = true) kes).*1).
  assert (Hks : ∀ k, k ∈ ks ↔ ∃ e, g !! k = Some e ∧ of_project p k = true ∧ stale (edge_namespace e) (edge_generation e) = true).
  { intros k. subst ks. rewrite Forall_forall in Hkes. split.
    - intros ([k' e] & -> & [Hst Hin]%list_elem_of_filter)%list_elem_of_fmap. exists e.
      pose proof (Hkes _ Hin) as He. cbn [fst snd] in *. split_and!; [done | | done].
      rewrite <-project_prefix_raw; [| done | by eapply (ref_clean db1 g HR1)].
      assert (Hr : (raw_key k', edge_bytes e) ∈ scan (nul p "") (EDGES db1)).
      { rewrite Hrows. apply list_elem_of_fmap. by exists (k', e). }
      by apply elem_of_scan in Hr as [? _].
    - intros (e & He & Hof & Hst).
      assert (Hr : (raw_key k, edge_bytes e) ∈ scan (nul p "") (EDGES db1)).
      { apply elem_of_scan. split; [rewrite project_prefix_raw; [done | done | by eapply (ref_clean db1 g HR1)] |].
        rewrite (ref_lookup db1 g HR1), He; [done | by eapply (ref_clean db1 g HR1)]. }
      rewrite Hrows in Hr. apply list_elem_of_fmap in Hr as ([k' e'] & [= Hk' He'] & Hin).
      pose proof (Hkes _ Hin) as Hg'. cbn [fst snd] in *.
      apply raw_key_inj in Hk' as <-; [| by eapply (ref_clean db1 g HR1)..]. rewrite He in Hg'. injection Hg' as <-.
      apply list_elem_of_fmap. exists (k, e). split; [done |]. by apply list_elem_of_filter. }
  assert (Hall : Forall (λ k, key_clean k ∧ k.1.1.1 = p) ks).
  { apply Forall_forall. intros k (e & He & Hof & _)%Hks. split; [by eapply (ref_clean db1 g HR1) |].
    by apply bool_decide_eq_true in Hof. }
  assert (a_purge p stale g = foldl (λ g k, delete k g) g ks) as ->; [| by apply refines_purge_keys].
  apply map_eq. intros k. rewrite lookup_delete_list. unfold a_purge. rewrite lookup_a_keep.
  destruct (g !! k) as [e|] eqn:He.
  - destruct (of_project p k && stale (edge_namespace e) (edge_generation e)) eqn:E; cbn [negb].
    + rewrite decide_True; [done |]. apply Hks. apply andb_true_iff in E. naive_solver.
    + rewrite decide_False; [done |]. intros (e' & He' & H1 & H2)%Hks. rewrite He in He'. injection He' as <-.
      by rewrite H1, H2 in E.
  - by destruct (decide (k ∈ ks)).
Qed.

End run.

Section theorems.
Context `{BC : !Bincode}.

(** A run from a store, operation by operation. *)
Fixpoint runs (ops : list GraphOp) (db : GraphDB) : option GraphDB :=
  match ops with
  | [] => Some db
  | op :: rest => '(db', _) ← run op db; runs rest db'
  end.

Lemma refines_empty : Refines empty_db ∅.
Proof.
  split; [intros k e H; by rewrite lookup_empty in H | ..]; intros x y; cbn; rewrite lookup_empty;
    (split; [done | intros (k & e & H & _); by rewrite lookup_empty in H]).
Qed.

(** The result of an operation on both sides. *)
Definition refined (x : GraphDB * bool) (g g' : AGraph) : Prop := Refines x.1 (if x.2 then g' else g).

Lemma refined_write_tx {A} (body : Tx GraphDB (outcome A)) db g g' :
  Refines db g → (∀ o db', body db = Ok (o, db') → (∃ a, o = Commit a) ∧ Refines db' g') →
  refined ((write_tx body db).1, is_ok (write_tx body db).2) g g'.
Proof.
  intros HR Hb. unfold refined, write_tx. destruct (body db) as [[o db']|e]; [| done].
  destruct (Hb o db' eq_refl) as [[a ->] ?]. done.
Qed.

Lemma refined_guarded {A B} (r : result B) (k : B → GraphDB → GraphDB * result A) db g g' :
  Refines db g → (∀ b, r = Ok b → refined ((k b db).1, is_ok (k b db).2) g g') →
  refined ((guarded r k db).1, is_ok (guarded r k db).2) g g'.
Proof. intros HR Hk. unfold guarded. destruct r; [by apply Hk | done]. Qed.

Lemma refined_nodes p nodes db g : Refines db g → refined ((upsert_nodes p nodes db).1, is_ok (upsert_nodes p nodes db).2) g g.
Proof.
  intros HR. unfold upsert_nodes. destruct nodes as [|n nodes]; [done |]. apply refined_guarded; [done |].
  intros u _. apply refined_write_tx; [done |]. intros o db' (v & db1 & H & Hm)%tx_bind_Ok.
  apply tx_ret_Ok in Hm as [-> ->]. split; [eauto |]. eapply refines_same; [by eapply upsert_nodes_same | done].
Qed.

Lemma refined_edges p es db g : Refines db g → Forall small es →
  refined ((upsert_edges p es db).1, is_ok (upsert_edges p es db).2) g (a_puts p es g).
Proof.
  intros HR Hs. unfold upsert_edges. destruct es as [|e es]; [done |]. apply refined_guarded; [done |].
  intros u ([] & Hp%check_key_clean & He%check_endpoints_clean)%result_bind_Ok. apply refined_write_tx; [done |].
  intros o db' (v & db1 & [= _ <-] & Hm)%tx_bind_Ok. apply tx_ret_Ok in Hm as [-> ->]. split; [eauto |].
  exact (refines_puts p (e :: es) db g HR Hp (edges_typed _ He Hs)).
Qed.

Lemma refined_both p nodes es db g : Refines db g → Forall small es →
  refined ((upsert_nodes_and_edges p nodes es db).1, is_ok (upsert_nodes_and_edges p nodes es db).2) g (a_puts p es g).
Proof.
  intros HR Hs. unfold upsert_nodes_and_edges.
  assert (Hgo : refined
    ((guarded (_ ← check_key "project_id" p; _ ← result_traverse (λ n, check_key "node_id" (node_id n)) nodes;
               check_endpoints es)
       (λ _, write_tx (_ ← upsert_nodes_in_tx p nodes; _ ← tx_put_edges p es; mret (Commit tt))) db).1,
     is_ok (guarded (_ ← check_key "project_id" p; _ ← result_traverse (λ n, check_key "node_id" (node_id n)) nodes;
               check_endpoints es)
       (λ _, write_tx (_ ← upsert_nodes_in_tx p nodes; _ ← tx_put_edges p es; mret (Commit tt))) db).2) g (a_puts p es g)).
  { apply refined_guarded; [done |].
    intros u ([] & Hp%check_key_clean & (l & _ & He%check_endpoints_clean)%result_bind_Ok)%result_bind_Ok.
    apply refined_write_tx; [done |]. intros o db' (v & db1 & Hn & H)%tx_bind_Ok.
    apply tx_bind_Ok in H as (w & db2 & [= _ <-] & Hm). apply tx_ret_Ok in Hm as [-> ->]. split; [eauto |].
    apply refines_puts; [| done | by apply edges_typed]. eapply refines_same; [by eapply upsert_nodes_same | done]. }
  destruct nodes, es; [done | exact Hgo..].
Qed.

Lemma refined_replace p expected replacements db g : Refines db g → Forall small replacements →
  refined ((replace_edge_snapshot p expected replacements db).1, is_ok (replace_edge_snapshot p expected replacements db).2)
    g (a_put_absent p replacements (a_drops p expected g)).
Proof.
  intros HR Hs. unfold replace_edge_snapshot. apply refined_guarded; [done |].
  intros u ([] & Hp%check_key_clean & [He Hr]%check_endpoints_clean%Forall_app)%result_bind_Ok.
  apply refined_write_tx; [done |]. intros o db' H. apply result_bind_Ok in H as ([] & _ & [= <- <-]). split; [eauto |].
  apply refines_put_absent; [by apply refines_drops | done | by apply edges_typed].
Qed.

Lemma refined_increment now p ns lang k s t delta gen db g :
  Refines db g → clean p → clean s → clean t → delta <= u32_max → now <= u64_max →
  refined ((increment_edge now p ns lang k s t delta gen db).1, is_ok (increment_edge now p ns lang k s t delta gen db).2)
    g (a_increment now p ns lang gen (k, s, t, delta) g).
Proof.
  intros HR Hp Hs Ht Hd Hnow. unfold increment_edge. apply refined_write_tx; [done |].
  intros o db' [= <- <-]. split; [eauto |].
  change (edge_key p k s t) with (raw_key (p, k, s, t)). rewrite (ref_lookup db g HR) by done.
  pose proof (refines_increment now p ns lang gen k s t delta db g HR Hp Hs Ht Hd Hnow) as H. cbv zeta in H.
  destruct (g !! (p, k, s, t)) as [e|]; cbn [fmap option_fmap option_map]; [rewrite edge_round_trip |]; exact H.
Qed.

Lemma refined_batch now p ns lang gen incs db g :
  Refines db g → Forall small_increment incs → now <= u64_max →
  refined ((batch_increment_edges now p ns lang gen incs db).1, is_ok (batch_increment_edges now p ns lang gen incs db).2)
    g (a_increments now p ns lang gen incs g).
Proof.
  intros HR Hs Hnow. unfold batch_increment_edges. destruct incs as [|i incs]; [done |]. apply refined_guarded; [done |].
  intros u ([] & Hp%check_key_clean & Hi%check_increments_clean)%result_bind_Ok. apply refined_write_tx; [done |].
  intros o db' (v & db1 & H & Hm)%tx_bind_Ok. apply tx_ret_Ok in Hm as [-> ->]. split; [eauto |].
  by eapply refines_increments.
Qed.

Lemma small_directed pairs : Forall small_increment pairs → Forall small_increment (directed pairs).
Proof. by apply directed_Forall. Qed.
Lemma clean_directed (pairs : list increment) :
  Forall (λ i : increment, clean i.1.1.2 ∧ clean i.1.2) pairs → Forall (λ i : increment, clean i.1.1.2 ∧ clean i.1.2) (directed pairs).
Proof. apply directed_Forall. intros k a b d [??]. done. Qed.

Lemma refined_learn now p ns lang gen nodes pairs db g :
  Refines db g → Forall small_increment pairs → now <= u64_max →
  refined ((upsert_nodes_and_increment_undirected_edges now p ns lang gen nodes pairs db).1,
           is_ok (upsert_nodes_and_increment_undirected_edges now p ns lang gen nodes pairs db).2)
    g (a_increments now p ns lang gen (directed pairs) g).
Proof.
  intros HR Hs Hnow. unfold upsert_nodes_and_increment_undirected_edges.
  set (body := write_tx (_ ← upsert_nodes_in_tx p nodes;
    _ ← increment_edges_in_tx now p ns lang gen (directed pairs); mret (Commit tt))).
  set (checks := _ ← check_key "project_id" p; _ ← result_traverse (λ n, check_key "node_id" (node_id n)) nodes;
    check_increments pairs).
  assert (Hgo : refined ((guarded checks (λ _, body) db).1, is_ok (guarded checks (λ _, body) db).2) g
                  (a_increments now p ns lang gen (directed pairs) g)).
  { apply refined_guarded; [done |]. subst body checks.
    intros u ([] & Hp%check_key_clean & (l & _ & Hi%check_increments_clean)%result_bind_Ok)%result_bind_Ok.
    apply refined_write_tx; [done |]. intros o db' (v & db1 & Hn & H)%tx_bind_Ok.
    apply tx_bind_Ok in H as (w & db2 & H & Hm). apply tx_ret_Ok in Hm as [-> ->]. split; [eauto |].
    eapply refines_increments; [| done | by apply clean_directed | by apply small_directed | done | exact H].
    eapply refines_same; [by eapply upsert_nodes_same | done]. }
  destruct nodes, pairs; [done | exact Hgo..].
Qed.

Lemma run_refines op db g :
  Refines db g → op_typed op →
  ∃ db' ok, run op db = Some (db', ok) ∧ Refines db' (if ok then apply op g else g).
Proof.
  intros HR Ht.
  assert (Hdone : ∀ (x : GraphDB * bool) g', refined x g g' → ∃ db' ok, Some x = Some (db', ok) ∧ Refines db' (if ok then g' else g)).
  { intros [db' ok] g' H. by exists db', ok. }
  destruct op; cbn [run apply op_typed] in *.
  - by apply Hdone, refined_nodes.
  - by apply Hdone, refined_edges.
  - by apply Hdone, refined_both.
  - by apply Hdone, refined_replace.
  - destruct Ht as (? & ? & ? & ? & ?). by apply Hdone, refined_increment.
  - destruct Ht. by apply Hdone, refined_batch.
  - destruct Ht as [? ?%small_directed]. by apply Hdone, refined_batch.
  - destruct Ht. by apply Hdone, refined_learn.
  - unfold purge_old_generations. destruct (purge_where p (stale_unless active) db) as [db' r] eqn:E.
    exists db', (is_ok (_ ← r; Ok tt)). split; [done |]. apply (refines_purge _ _ _ g) in E; [| done..]. by destruct r.
  - unfold purge_generations_below. destruct (purge_where p (stale_below baseline) db) as [db' r] eqn:E.
    exists db', (is_ok r). split; [done |]. apply (refines_purge _ _ _ g) in E; [| done..]. by destruct r.
  - destruct (refines_delete_kind p k db g HR Ht) as (db' & n & -> & ?). by exists db', true.
  - destruct (refines_delete_project p db g HR Ht) as (db' & -> & ?). by exists db', true.
Qed.

Lemma runs_refine ops db g :
  Refines db g → Forall op_typed ops → ∃ db' g', runs ops db = Some db' ∧ Refines db' g'.
Proof.
  intros HR Hops. revert db g HR. induction Hops as [|op ops Hop _ IH]; intros db g HR; [by exists db, g |].
  destruct (run_refines op db g HR Hop) as (db' & ok & Hrun & HR'). cbn [runs]. rewrite Hrun.
  cbn [mbind option_bind]. by eapply IH.
Qed.

(** * Theorems *)


End theorems.
