(* ===== verification/GraphQuery.v ===== *)
(** [engram_graph::store], the reads: ranked neighbors, edge listings, the
    structural edges that touch a node, and the one-hop sweep around a component
    with its caps; and what these reads promise on every refined database. *)
From S2P Require Import Prelude Text Store Namespaces Graph GraphRows GraphSpec.

Open Scope N_scope.

(** * Definitions *)

(** A component-scoped one-hop sweep. *)
Record ComponentAdjacency := {
  incoming : list (string * EdgeKind * N * string);
  outgoing : list (string * EdgeKind * N * string);
  truncated_in : list (EdgeKind * string);
  truncated_out : list (EdgeKind * string);
  internal_skipped : nat;
}.
Definition no_adjacency : ComponentAdjacency :=
  {| incoming := []; outgoing := []; truncated_in := []; truncated_out := []; internal_skipped := 0 |}.

Section query.
Context `{BC : !Bincode}.

(** The weights of adjacency rows, in id order; a short value fails. *)
Definition decode_weights (l : list (string * bytes)) : result (list (string * N)) :=
  result_traverse (λ nv, wt ← decode_adj_value nv.2; Ok (nv.1, wt.1)) l.

Definition neighbors (p : string) (k : EdgeKind) (s : string) (limit : nat) (db : GraphDB)
  : result (list (string * N)) :=
  out ← decode_weights (adj_scan (adj_key p k s) (ADJ_OUT db));
  Ok (heaviest_first snd limit out).

Fixpoint incoming_of_kinds (p : string) (kinds : list EdgeKind) (t : string) (db : GraphDB)
  : result (list (string * EdgeKind * N)) :=
  match kinds with
  | [] => Ok []
  | k :: rest =>
      ws ← decode_weights (adj_scan (adj_key p k t) (ADJ_IN db));
      more ← incoming_of_kinds p rest t db;
      Ok (((λ sw, (sw.1, k, sw.2)) <$> (ws : list (string * N))) ++ more)
  end.
Definition find_incoming_edges_with_kinds (p : string) (kinds : list EdgeKind) (t : string) (limit : nat)
    (db : GraphDB) : result (list (string * EdgeKind * N)) :=
  out ← incoming_of_kinds p kinds t db;
  Ok (heaviest_first snd limit out).
Definition find_incoming_edges_with_kind (p : string) (kind : option EdgeKind) (t : string) (limit : nat)
    (db : GraphDB) : result (list (string * EdgeKind * N)) :=
  find_incoming_edges_with_kinds p (match kind with Some k => [k] | None => ALL end) t limit db.
Definition find_incoming_edges (p : string) (kind : option EdgeKind) (t : string) (limit : nat) (db : GraphDB)
  : result (list (string * N)) :=
  results ← find_incoming_edges_with_kind p kind t limit db;
  Ok ((λ skw : string * EdgeKind * N, (skw.1.1, skw.2)) <$> (results : list (string * EdgeKind * N))).

(** At most [limit] rows, and whether there was one more. *)
Definition incoming_edge_prefix (p : string) (k : EdgeKind) (t : string) (limit : nat) (db : GraphDB)
  : result (list (string * EdgeKind * N) * bool) :=
  let found := adj_scan (adj_key p k t) (ADJ_IN db) in
  ws ← decode_weights (take limit found);
  Ok ((λ sw, (sw.1, k, sw.2)) <$> (ws : list (string * N)), Nat.ltb limit (length found)).

Definition decode_edges (l : list (string * bytes)) : result (list Edge) :=
  result_traverse (λ kv, edge_of_bytes kv.2) l.

(** The limit is looked at after an edge was added. *)
Definition list_edges_by_kind (p : string) (k : EdgeKind) (limit : nat) (db : GraphDB) : result (list Edge) :=
  decode_edges (take (Nat.max 1 limit) (scan (kind_prefix p k) (EDGES db))).
Definition outgoing_edges_of_kind (p : string) (k : EdgeKind) (s : string) (limit : nat) (db : GraphDB)
  : result (list Edge * bool) :=
  out ← decode_edges (scan (edge_key p k s "") (EDGES db));
  Ok (heaviest_first weight limit out, Nat.ltb limit (length out)).
Definition list_edges (p : string) (kind : option EdgeKind) (db : GraphDB) : result (list Edge) :=
  out ← decode_edges (scan (nul p "") (EDGES db));
  Ok (filter (λ e, kind = None ∨ kind = Some (edge_kind e)) out).
Definition structural_kinds : list EdgeKind := filter (λ k, is_historical k = false) ALL.
Definition list_structural_edges (p : string) (db : GraphDB) : result (list Edge) :=
  ls ← result_traverse (λ k, decode_edges (scan (kind_prefix p k) (EDGES db))) structural_kinds;
  Ok (concat ls).
Definition get_edges_by_endpoints (p : string) (endpoints : list (string * EdgeKind * string)) (db : GraphDB)
  : result (list Edge) :=
  ls ← result_traverse (λ sk : string * EdgeKind * string,
         transpose edge_of_bytes (EDGES db !! edge_key p sk.1.2 sk.1.1 sk.2)) endpoints;
  Ok (omap id (ls : list (option Edge))).
Definition count_edges (p : string) (db : GraphDB) : N := N.of_nat (length (scan (nul p "") (EDGES db))).
Definition count_nodes (p : string) (db : GraphDB) : N := N.of_nat (length (scan (nul p "") (NODES db))).

Definition get_node (p id : string) (db : GraphDB) : result (option Node) :=
  transpose node_of_bytes (NODES db !! node_key p id).
(** The ids of a type, in key order. *)
Definition list_node_ids (p : string) (type : option string) (db : GraphDB) : result (list string) :=
  ns ← result_traverse (λ kv, node_of_bytes kv.2) (scan (nul p "") (NODES db));
  Ok (node_id <$> filter (λ n, type = None ∨ type = Some (node_type n)) (ns : list Node)).

(** Outgoing rows of the structural kinds, then incoming ones, each with a
    budget of its own; the flag says that a budget was met with rows left. *)
Fixpoint touch_out (p n : string) (kinds : list EdgeKind) (budget : nat) (db : GraphDB)
  : result (list Edge * bool) :=
  match kinds with
  | [] => Ok ([], false)
  | k :: rest =>
      let found := scan (edge_key p k n "") (EDGES db) in
      es ← decode_edges (take budget found);
      if Nat.ltb budget (length found) then Ok (es, true)
      else more ← touch_out p n rest (budget - length found) db; Ok (es ++ more.1, more.2)
  end.
(** An adjacency row without its edge costs no budget. *)
Fixpoint touch_in_rows (p n : string) (k : EdgeKind) (budget : nat) (l : list (string * bytes)) (db : GraphDB)
  : result (list Edge * nat * bool) :=
  match l with
  | [] => Ok ([], budget, false)
  | (s, _) :: rest =>
      match budget with
      | O => Ok ([], O, true)
      | S budget' =>
          match EDGES db !! edge_key p k s n with
          | Some raw =>
              e ← edge_of_bytes raw;
              more ← touch_in_rows p n k budget' rest db;
              Ok (e :: more.1.1, more.1.2, more.2)
          | None => touch_in_rows p n k budget rest db
          end
      end
  end.
Fixpoint touch_in (p n : string) (kinds : list EdgeKind) (budget : nat) (db : GraphDB)
  : result (list Edge * bool) :=
  match kinds with
  | [] => Ok ([], false)
  | k :: rest =>
      r ← touch_in_rows p n k budget (adj_scan (adj_key p k n) (ADJ_IN db)) db;
      if (r : list Edge * nat * bool).2 then Ok (r.1.1, true)
      else more ← touch_in p n rest r.1.2 db; Ok (r.1.1 ++ more.1, more.2)
  end.
Definition edges_touching_with_coverage (p n : string) (limit : nat) (db : GraphDB) : result (list Edge * bool) :=
  out ← touch_out p n structural_kinds limit db;
  inc ← touch_in p n structural_kinds limit db;
  Ok (out.1 ++ inc.1, out.2 || inc.2).
Definition edges_touching (p n : string) (limit : nat) (db : GraphDB) : result (list Edge) :=
  r ← edges_touching_with_coverage p n limit db; Ok r.1.

(** ** The sweep around a component *)

(** One range: the rows outside the component up to the cap, whether there was
    one beyond it, and the rows inside that were passed. *)
Fixpoint sweep (inside : string → bool) (cap accepted : nat) (l : list (string * bytes))
  : result (list (string * N) * bool * nat) :=
  match l with
  | [] => Ok ([], false, 0%nat)
  | (id, v) :: rest =>
      if inside id then
        r ← sweep inside cap accepted rest;
        Ok (r.1.1, r.1.2, S r.2)
      else if Nat.leb cap accepted then Ok ([], true, 0%nat)
      else
        wt ← decode_adj_value v;
        r ← sweep inside cap (S accepted) rest;
        Ok ((id, wt.1) :: r.1.1, r.1.2, r.2)
  end.

(** Both directions of one kind at one endpoint. *)
Definition sweep_endpoint (p : string) (inside : string → bool) (k : EdgeKind) (icap ocap : nat) (ep : string)
    (db : GraphDB) (acc : ComponentAdjacency) : result ComponentAdjacency :=
  let prefix := adj_key p k ep in
  i ← (if Nat.eqb icap 0 then Ok ([], false, 0%nat) else sweep inside icap 0 (adj_scan prefix (ADJ_IN db)));
  o ← (if Nat.eqb ocap 0 then Ok ([], false, 0%nat) else sweep inside ocap 0 (adj_scan prefix (ADJ_OUT db)));
  let tag := λ nw : string * N, (nw.1, k, nw.2, ep) in
  Ok {| incoming := incoming acc ++ (tag <$> i.1.1);
        outgoing := outgoing acc ++ (tag <$> o.1.1);
        truncated_in := truncated_in acc ++ (if i.1.2 : bool then [(k, ep)] else []);
        truncated_out := truncated_out acc ++ (if o.1.2 : bool then [(k, ep)] else []);
        internal_skipped := (internal_skipped acc + i.2)%nat |}.

Fixpoint sweep_endpoints (p : string) (inside : string → bool) (k : EdgeKind) (icap ocap : nat)
    (eps : list string) (db : GraphDB) (acc : ComponentAdjacency) : result ComponentAdjacency :=
  match eps with
  | [] => Ok acc
  | ep :: rest => acc ← sweep_endpoint p inside k icap ocap ep db acc;
                  sweep_endpoints p inside k icap ocap rest db acc
  end.
Fixpoint sweep_kinds (p : string) (inside : string → bool) (cap_in cap_out : EdgeKind → nat)
    (kinds : list EdgeKind) (eps : list string) (db : GraphDB) (acc : ComponentAdjacency)
  : result ComponentAdjacency :=
  match kinds with
  | [] => Ok acc
  | k :: rest =>
      acc ← (if Nat.eqb (cap_in k) 0 && Nat.eqb (cap_out k) 0 then Ok acc
             else sweep_endpoints p inside k (cap_in k) (cap_out k) eps db acc);
      sweep_kinds p inside cap_in cap_out rest eps db acc
  end.

(** [sort] and [dedup]. *)
Definition sort_dedup (l : list string) : list string := stable_sort String.le (remove_dups l).

Definition component_adjacency (p : string) (endpoints component : list string) (cap_in cap_out : EdgeKind → nat)
    (db : GraphDB) : result ComponentAdjacency :=
  let eps := sort_dedup endpoints in
  let inside := λ id, bool_decide (id ∈ component ∨ id ∈ eps) in
  sweep_kinds p inside cap_in cap_out ALL eps db no_adjacency.

Definition cluster_has_insight (p : string) (ids : list string) (limit : nat) (db : GraphDB) : result bool :=
  (fix go (l : list string) : result bool :=
     match l with
     | [] => Ok false
     | id :: rest =>
         neigh ← neighbors p InsightKind id limit db;
         match neigh with [] => go rest | _ => Ok true end
     end) ids.

End query.

(** What the reads of the graph store return, in terms of the abstract graph
    the store refines. *)

Open Scope N_scope.

(** * Definitions *)

Section spec.
Context `{BC : !Bincode}.

(** The decoded rows under an adjacency key. *)
Definition weights_of (r : result (list (string * N))) : list (string * N) :=
  match r with Ok ws => ws | Fail _ => [] end.
Definition out_weights (p : string) (k : EdgeKind) (s : string) (db : GraphDB) : list (string * N) :=
  weights_of (decode_weights (adj_scan (adj_key p k s) (ADJ_OUT db))).
Definition in_weights (p : string) (k : EdgeKind) (t : string) (db : GraphDB) : list (string * N) :=
  weights_of (decode_weights (adj_scan (adj_key p k t) (ADJ_IN db))).

Definition outside (inside : string → bool) (ws : list (string * N)) : list (string * N) :=
  filter (λ nw : string * N, inside nw.1 = false) ws.
Definition capped (cap : nat) (inside : string → bool) (ws : list (string * N)) : list (string * N) :=
  take cap (outside inside ws).

(** What a sweep returns for one direction. *)
Definition swept (inside : string → bool) (ws : EdgeKind → string → list (string * N)) (cap : EdgeKind → nat)
    (pairs : list (EdgeKind * string)) : list (string * EdgeKind * N * string) :=
  pairs ≫= λ ke, (λ nw : string * N, (nw.1, ke.1, nw.2, ke.2)) <$> capped (cap ke.1) inside (ws ke.1 ke.2).
Definition cut (inside : string → bool) (ws : EdgeKind → string → list (string * N)) (cap : EdgeKind → nat)
    (pairs : list (EdgeKind * string)) : list (EdgeKind * string) :=
  filter (λ ke : EdgeKind * string, (0 < cap ke.1 < length (outside inside (ws ke.1 ke.2)))%nat) pairs.

Definition pairs_of (kinds : list EdgeKind) (eps : list string) : list (EdgeKind * string) :=
  kinds ≫= λ k, (k,.) <$> eps.

(** A sweep of [edge] around the endpoints found only edges with an outside
    end, all of them where it says it was not cut off, and it was cut off
    exactly where more of them than the cap end. *)
Definition covers (eps : list string) (inside : string → bool) (cap : EdgeKind → nat)
    (edge : EdgeKind → string → string → option Edge)
    (found : list (string * EdgeKind * N * string)) (cutoff : list (EdgeKind * string)) : Prop :=
  (∀ n k w ep, (n, k, w, ep) ∈ found → ep ∈ eps ∧ inside n = false ∧ ∃ e, edge k ep n = Some e ∧ w = weight e) ∧
  (∀ n k ep e, ep ∈ eps → (0 < cap k)%nat → edge k ep n = Some e → inside n = false → (k, ep) ∉ cutoff →
     (n, k, weight e, ep) ∈ found) ∧
  (∀ k ep, ep ∈ eps → ∃ ns, NoDup ns ∧ (∀ n, n ∈ ns ↔ inside n = false ∧ is_Some (edge k ep n)) ∧
     ((k, ep) ∈ cutoff ↔ (0 < cap k < length ns)%nat)).

(** * Lemmas *)

Lemma heaviest_trans {A} (w : A → N) : Transitive (heaviest w).
Proof. intros x y z. unfold heaviest. lia. Qed.
Lemma heaviest_total {A} (w : A → N) : Total (heaviest w).
Proof. intros x y. unfold heaviest. lia. Qed.

(** Ranking keeps the heaviest. *)
Lemma heaviest_first_spec {A} (w : A → N) limit (l : list A) :
  StronglySorted (heaviest w) (heaviest_first w limit l) ∧
  length (heaviest_first w limit l) = Nat.min limit (length l) ∧
  (∀ x, x ∈ heaviest_first w limit l → x ∈ l) ∧
  ∀ x, x ∈ l → x ∈ heaviest_first w limit l ∨
    (length (heaviest_first w limit l) = limit ∧ ∀ y, y ∈ heaviest_first w limit l → w x <= w y).
Proof.
  unfold heaviest_first. set (s := stable_sort (heaviest w) l).
  assert (Hs : StronglySorted (heaviest w) s).
  { apply stable_sort_sorted; [apply heaviest_trans | apply heaviest_total]. }
  assert (Hp : s ≡ₚ l) by apply stable_sort_perm. clearbody s.
  rewrite <-(take_drop limit s) in Hs. split_and!.
  - by apply StronglySorted_app_1_l in Hs.
  - rewrite length_take, (Permutation_length Hp). done.
  - intros x Hx. rewrite <-Hp. by eapply elem_of_take in Hx as (i & ? & ?); eapply list_elem_of_lookup_2.
  - intros x Hx. rewrite <-Hp, <-(take_drop limit s), elem_of_app in Hx. destruct Hx as [Hx|Hx]; [by left | right]. split.
    + rewrite length_take. assert (drop limit s ≠ []) by (intros E; rewrite E in Hx; by apply not_elem_of_nil in Hx).
      assert (limit < length s)%nat; [| lia]. apply Nat.nle_gt. intros Hle. by rewrite drop_ge in Hx; [apply not_elem_of_nil in Hx |].
    + intros y Hy. apply StronglySorted_app in Hs as (Hs & _). by apply (Hs y x Hy Hx).
Qed.

Lemma decode_weights_eq l ws : decode_weights l = Ok ws → Forall2 (λ nv nw, nv.1 = nw.1 ∧ ∃ ts, decode_adj_value nv.2 = Ok (nw.2, ts)) l ws.
Proof.
  intros H%result_traverse_Ok. eapply Forall2_impl; [exact H |]. intros [n v] [n' w] Hnw. cbn [fst snd] in *.
  apply result_bind_Ok in Hnw as ([w' ts] & Hd & [= <- <-]). eauto.
Qed.

(** A mirrored scan decodes, to the weights of the edges. *)
Lemma decode_mirrored (T : gmap (string * string) bytes) prefix (E : string → option Edge) :
  (∀ n v, T !! (prefix, n) = Some v ↔ ∃ e, E n = Some e ∧ v = adj_of e) →
  (∀ n e, E n = Some e → edge_typed e) →
  ∃ ws, decode_weights (adj_scan prefix T) = Ok ws ∧ NoDup ws.*1 ∧
    ∀ n w, (n, w) ∈ ws ↔ ∃ e, E n = Some e ∧ w = weight e.
Proof.
  intros HT Ht.
  assert (Hdec : ∀ n e, E n = Some e → decode_adj_value (adj_of e) = Ok (weight e, updated_at_ms e)).
  { intros n e He. destruct (Ht _ _ He) as (_ & _ & ? & ?). by apply decode_encode_adj. }
  assert (∃ ws, decode_weights (adj_scan prefix T) = Ok ws) as [ws Hws].
  { assert (Hall : ∀ nv, nv ∈ adj_scan prefix T → ∃ e, E nv.1 = Some e ∧ nv.2 = adj_of e).
    { intros [n v] Hin%elem_of_adj_scan. by apply HT in Hin. }
    unfold decode_weights. induction (adj_scan prefix T) as [|[n v] l IH]; [by eexists |].
    destruct (Hall (n, v) ltac:(set_solver)) as (e & He & Hv). cbn [fst snd] in He, Hv. subst v.
    destruct IH as [ws Hws]; [set_solver |]. exists ((n, weight e) :: ws). cbn [result_traverse fst snd].
    rewrite (Hdec _ _ He). cbn [mbind result_bind fst snd]. by rewrite Hws. }
  exists ws. split; [done |]. apply decode_weights_eq in Hws.
  assert (Hfst : ws.*1 = (adj_scan prefix T).*1).
  { induction Hws as [|nv nw l ws' [Hn _] _ IH]; [done |]. cbn [fmap list_fmap]. by rewrite Hn, IH. }
  split; [rewrite Hfst; apply NoDup_adj_scan |]. intros n w. split.
  - intros Hin. destruct (Forall2_elem_r _ _ _ _ Hws Hin) as ([n' v] & Hin' & Hn & ts & Hd). cbn [fst snd] in *. subst n'.
    apply elem_of_adj_scan, HT in Hin' as (e & He & ->). rewrite (Hdec _ _ He) in Hd. injection Hd as <- _. eauto.
  - intros (e & He & ->). assert (Hin : (n, adj_of e) ∈ adj_scan prefix T) by (apply elem_of_adj_scan, HT; eauto).
    destruct (Forall2_elem_l _ _ _ _ Hws Hin) as ([n' w] & Hin' & Hn & ts & Hd). cbn [fst snd] in *. subst n'.
    rewrite (Hdec _ _ He) in Hd. by injection Hd as <- _.
Qed.

Section with_refines.
Context (db : GraphDB) (g : AGraph) (HR : Refines db g).

Lemma out_weights_spec p k s :
  clean p →
  decode_weights (adj_scan (adj_key p k s) (ADJ_OUT db)) = Ok (out_weights p k s db) ∧
  NoDup (out_weights p k s db).*1 ∧
  ∀ t w, (t, w) ∈ out_weights p k s db ↔ ∃ e, g !! (p, k, s, t) = Some e ∧ w = weight e.
Proof using HR.
  intros Hp. destruct (decode_mirrored (ADJ_OUT db) (adj_key p k s) (λ t, g !! (p, k, s, t))) as (ws & Hd & Hws).
  - intros t v. rewrite (ref_out _ _ HR (adj_key p k s, t) v). split.
    + intros ([[[p' k'] s'] t'] & e & He & Hk & ->). destruct (ref_clean db g HR _ _ He) as (Hp' & _).
      injection Hk as Hk <-. apply adj_key_inj in Hk as (-> & -> & ->); [eauto | done..].
    + intros (e & He & ->). by exists (p, k, s, t), e.
  - intros t e He. by apply (ref_keys _ _ HR) in He as (_ & ? & _).
  - unfold out_weights. by rewrite Hd.
Qed.

Lemma in_weights_spec p k t :
  clean p →
  decode_weights (adj_scan (adj_key p k t) (ADJ_IN db)) = Ok (in_weights p k t db) ∧
  NoDup (in_weights p k t db).*1 ∧
  ∀ s w, (s, w) ∈ in_weights p k t db ↔ ∃ e, g !! (p, k, s, t) = Some e ∧ w = weight e.
Proof using HR.
  intros Hp. destruct (decode_mirrored (ADJ_IN db) (adj_key p k t) (λ s, g !! (p, k, s, t))) as (ws & Hd & Hws).
  - intros s v. rewrite (ref_in _ _ HR (adj_key p k t, s) v). split.
    + intros ([[[p' k'] s'] t'] & e & He & Hk & ->). destruct (ref_clean db g HR _ _ He) as (Hp' & _).
      injection Hk as Hk <-. apply adj_key_inj in Hk as (-> & -> & ->); [eauto | done..].
    + intros (e & He & ->). by exists (p, k, s, t), e.
  - intros s e He. by apply (ref_keys _ _ HR) in He as (_ & ? & _).
  - unfold in_weights. by rewrite Hd.
Qed.
End with_refines.

(** One range of a sweep takes the outside rows up to the cap. *)
Lemma sweep_eq inside cap acc l ws :
  decode_weights l = Ok ws → (acc <= cap)%nat →
  ∃ n, sweep inside cap acc l =
    Ok (take (cap - acc) (outside inside ws), Nat.ltb (cap - acc) (length (outside inside ws)), n).
Proof.
  intros H%decode_weights_eq. revert acc. induction H as [|[id v] [id' w] l ws [Hid [ts Hd]] _ IH]; intros acc Hacc.
  { exists 0%nat. unfold outside. cbn. rewrite take_nil. by destruct (cap - acc)%nat. }
  cbn [fst snd] in *. subst id'. cbn [sweep]. unfold outside. rewrite filter_cons. cbn [fst].
  destruct (inside id) eqn:Ein.
  - rewrite decide_False by done. destruct (IH acc Hacc) as [n ->]. cbn [mbind result_bind fst snd]. eauto.
  - rewrite decide_True by done. destruct (Nat.leb_spec cap acc) as [Hle|Hlt].
    + replace (cap - acc)%nat with 0%nat by lia. eauto.
    + rewrite Hd. cbn [mbind result_bind fst snd]. destruct (IH (S acc) ltac:(lia)) as [n ->].
      replace (cap - acc)%nat with (S (cap - S acc)) by lia. cbn [mbind result_bind fst snd take length]. eauto.
Qed.

(** ** The composed sweep *)

Section sweeps.
Context (p : string) (inside : string → bool) (cin cout : EdgeKind → nat) (db : GraphDB).
Context (IN OUT : EdgeKind → string → list (string * N)).
Context (HIN : ∀ k ep, decode_weights (adj_scan (adj_key p k ep) (ADJ_IN db)) = Ok (IN k ep)).
Context (HOUT : ∀ k ep, decode_weights (adj_scan (adj_key p k ep) (ADJ_OUT db)) = Ok (OUT k ep)).

(** [r] extends [acc] by the sweeps of [pairs]. *)
Definition extends (acc r : ComponentAdjacency) (pairs : list (EdgeKind * string)) : Prop :=
  incoming r = incoming acc ++ swept inside IN cin pairs ∧
  outgoing r = outgoing acc ++ swept inside OUT cout pairs ∧
  truncated_in r = truncated_in acc ++ cut inside IN cin pairs ∧
  truncated_out r = truncated_out acc ++ cut inside OUT cout pairs.

Lemma extends_nil acc : extends acc acc [].
Proof. unfold extends, swept, cut. cbn. by rewrite !app_nil_r. Qed.
Lemma extends_app acc r1 r2 ps1 ps2 : extends acc r1 ps1 → extends r1 r2 ps2 → extends acc r2 (ps1 ++ ps2).
Proof.
  unfold extends, swept, cut. intros (-> & -> & -> & ->) (-> & -> & -> & ->).
  by rewrite !bind_app, !filter_app, !app_assoc.
Qed.
Lemma extends_skip acc k eps : cin k = 0%nat → cout k = 0%nat → extends acc acc ((k,.) <$> eps).
Proof.
  intros Hi Ho. unfold extends.
  assert (Hs : ∀ ws cap, cap k = 0%nat → swept inside ws cap ((k,.) <$> eps) = []).
  { intros ws cap Hc. unfold swept, capped. induction eps as [|ep eps' IH]; [done |]. cbn [fmap list_fmap].
    rewrite bind_cons, IH. cbn [fst]. by rewrite Hc. }
  assert (Hc : ∀ ws cap, cap k = 0%nat → cut inside ws cap ((k,.) <$> eps) = []).
  { intros ws cap Hc. unfold cut. clear Hs. induction eps as [|ep eps' IH]; [done |]. cbn [fmap list_fmap].
    rewrite filter_cons_False; [exact IH | cbn [fst]; lia]. }
  by rewrite !Hs, !Hc, !app_nil_r.
Qed.

(** One direction of one endpoint. *)
Lemma sweep_side cap ws rows :
  decode_weights rows = Ok ws →
  ∃ n, (if Nat.eqb cap 0 then Ok ([], false, 0%nat) else sweep inside cap 0 rows) =
    Ok (take cap (outside inside ws), Nat.ltb 0 cap && Nat.ltb cap (length (outside inside ws)), n).
Proof.
  intros H. destruct (Nat.eqb_spec cap 0) as [->|Hne]; [eauto |].
  destruct (sweep_eq inside cap 0 _ _ H ltac:(lia)) as [n ->]. rewrite Nat.sub_0_r.
  assert (Nat.ltb 0 cap = true) as -> by (apply Nat.ltb_lt; lia). eauto.
Qed.

Lemma sweep_endpoint_extends k ep acc :
  ∃ r, sweep_endpoint p inside k (cin k) (cout k) ep db acc = Ok r ∧ extends acc r [(k, ep)].
Proof using HIN HOUT.
  unfold sweep_endpoint.
  destruct (sweep_side (cin k) _ _ (HIN k ep)) as [n ->]. cbn [mbind result_bind].
  destruct (sweep_side (cout k) _ _ (HOUT k ep)) as [m ->]. cbn [mbind result_bind fst snd].
  eexists. split; [done |]. unfold extends, swept, cut, capped. cbn [incoming outgoing truncated_in truncated_out].
  rewrite !bind_cons. cbn [fst snd mbind list_bind]. rewrite !app_nil_r, !filter_cons. cbn [fst snd filter list_filter].
  assert (Hif : ∀ a b c, (if Nat.ltb 0 a && Nat.ltb a b then [(k, ep)] else []) =
                         (if decide (0 < a < b)%nat then c else []) ↔ (c = [(k, ep)] ∨ ¬ (0 < a < b)%nat)).
  { intros a b c. destruct (Nat.ltb_spec 0 a), (Nat.ltb_spec a b); cbn [andb]; case_decide; try lia; naive_solver lia. }
  split_and!; try done; f_equal; apply Hif; by left.
Qed.

Lemma sweep_endpoints_extends k eps acc :
  ∃ r, sweep_endpoints p inside k (cin k) (cout k) eps db acc = Ok r ∧ extends acc r ((k,.) <$> eps).
Proof using HIN HOUT.
  revert acc. induction eps as [|ep eps IH]; intros acc; [by exists acc; split; [| apply extends_nil] |].
  destruct (sweep_endpoint_extends k ep acc) as (r1 & H1 & He1). destruct (IH r1) as (r & Hr & He).
  exists r. cbn [sweep_endpoints]. rewrite H1. split; [done |].
  change ((k,.) <$> ep :: eps) with ([(k, ep)] ++ ((k,.) <$> eps)). by eapply extends_app.
Qed.

Lemma sweep_kinds_extends kinds eps acc :
  ∃ r, sweep_kinds p inside cin cout kinds eps db acc = Ok r ∧ extends acc r (pairs_of kinds eps).
Proof using HIN HOUT.
  revert acc. induction kinds as [|k kinds IH]; intros acc; [by exists acc; split; [| apply extends_nil] |].
  cbn [sweep_kinds]. unfold pairs_of. rewrite bind_cons. fold (pairs_of kinds eps).
  destruct (Nat.eqb (cin k) 0 && Nat.eqb (cout k) 0) eqn:E.
  - apply andb_true_iff in E as [Hi%Nat.eqb_eq Ho%Nat.eqb_eq]. destruct (IH acc) as (r & Hr & He). exists r.
    split; [done |]. eapply extends_app; [by apply extends_skip | done].
  - destruct (sweep_endpoints_extends k eps acc) as (r1 & -> & He1). destruct (IH r1) as (r & Hr & He).
    exists r. split; [done |]. by eapply extends_app.
Qed.
End sweeps.

Lemma elem_of_pairs_of kinds eps k ep : (k, ep) ∈ pairs_of kinds eps ↔ k ∈ kinds ∧ ep ∈ eps.
Proof. unfold pairs_of. rewrite list_elem_of_bind. setoid_rewrite list_elem_of_fmap. naive_solver. Qed.

Lemma elem_of_ALL k : k ∈ ALL.
Proof. apply list_elem_of_In. destruct k; vm_compute; tauto. Qed.

(** The sweeps of all kinds cover the edges. *)
Lemma swept_covers eps eps' inside cap edge ws :
  (∀ ep, ep ∈ eps' ↔ ep ∈ eps) →
  (∀ k ep, NoDup (ws k ep).*1 ∧ ∀ n w, (n, w) ∈ ws k ep ↔ ∃ e, edge k ep n = Some e ∧ w = weight e) →
  covers eps inside cap edge (swept inside ws cap (pairs_of ALL eps')) (cut inside ws cap (pairs_of ALL eps')).
Proof.
  intros Heps Hws.
  assert (Hout : ∀ k ep n w, (n, w) ∈ outside inside (ws k ep) ↔ inside n = false ∧ ∃ e, edge k ep n = Some e ∧ w = weight e).
  { intros k ep n w. unfold outside. rewrite list_elem_of_filter. cbn [fst]. destruct (Hws k ep) as [_ ->]. done. }
  assert (Hcut : ∀ k ep, ep ∈ eps → (k, ep) ∈ cut inside ws cap (pairs_of ALL eps') ↔
                   (0 < cap k < length (outside inside (ws k ep)))%nat).
  { intros k ep Hep. unfold cut. rewrite list_elem_of_filter, elem_of_pairs_of. cbn [fst snd]. split; [tauto |].
    intros. split_and!; [tauto | tauto | apply elem_of_ALL | by apply Heps]. }
  unfold covers. split_and!.
  - intros n k w ep H. unfold swept in H. apply list_elem_of_bind in H as ([k' ep'] & Hin & Hp).
    apply list_elem_of_fmap in Hin as ([n' w'] & [= -> -> -> ->] & Hin). cbn [fst snd] in *.
    apply elem_of_pairs_of in Hp as [_ Hep]. split; [by apply Heps |]. apply Hout.
    unfold capped in Hin. rewrite <-(take_drop (cap k') (outside inside (ws k' ep'))). apply elem_of_app. by left.
  - intros n k ep e Hep Hcap He Hn Hnc. rewrite Hcut in Hnc by done. unfold swept. apply list_elem_of_bind.
    exists (k, ep). split; [| apply elem_of_pairs_of; split; [apply elem_of_ALL | by apply Heps]].
    apply list_elem_of_fmap. exists (n, weight e). split; [done |]. cbn [fst snd]. unfold capped. rewrite take_ge by lia.
    apply Hout. eauto.
  - intros k ep Hep. exists (outside inside (ws k ep)).*1. split_and!.
    + unfold outside. apply NoDup_fst_filter, Hws.
    + intros n. rewrite list_elem_of_fmap. split.
      * intros ([n' w] & -> & (? & e & ? & _)%Hout). cbn [fst]. eauto.
      * intros (Hn & e & He). exists (n, weight e). split; [done |]. apply Hout. eauto.
    + rewrite length_fmap. by apply Hcut.
Qed.

Lemma elem_of_sort_dedup l x : x ∈ sort_dedup l ↔ x ∈ l.
Proof. unfold sort_dedup. by rewrite stable_sort_perm, elem_of_remove_dups. Qed.

(** What a ranked read of the neighbors of a node returns. *)
Lemma neighbors_spec db g p k s limit :
  Refines db g → clean p →
  ∃ out, neighbors p k s limit db = Ok out ∧ StronglySorted (heaviest snd) out ∧ (length out <= limit)%nat ∧
    NoDup out.*1 ∧
    (∀ t w, (t, w) ∈ out → ∃ e, g !! (p, k, s, t) = Some e ∧ w = weight e) ∧
    (∀ t e, g !! (p, k, s, t) = Some e →
       (t, weight e) ∈ out ∨ (length out = limit ∧ ∀ x, x ∈ out → weight e <= x.2)).
Proof.
  intros HR Hp. destruct (out_weights_spec db g HR p k s Hp) as (Hd & Hnd & Hws).
  exists (heaviest_first snd limit (out_weights p k s db)). unfold neighbors. rewrite Hd. split; [done |].
  destruct (heaviest_first_spec snd limit (out_weights p k s db)) as (H1 & H2 & H3 & H4).
  split_and!; [done | lia | | |].
  - unfold heaviest_first. set (l := stable_sort _ _).
    assert (Hl : NoDup l.*1) by (unfold l; by rewrite (stable_sort_perm (heaviest snd))).
    rewrite <-(take_drop limit l), fmap_app in Hl. by apply NoDup_app in Hl as (? & _).
  - intros t w Hin%H3. by apply Hws.
  - intros t e He. apply (H4 (t, weight e)), Hws. eauto.
Qed.

(** * Theorems *)

(** C27. The neighbors of a node are the heaviest of its outgoing edges of a kind:
    as many as the limit allows, in descending weight, and an edge left out is
    no heavier than any of those shown. *)
Theorem neighbors_are_the_heaviest db g p k s limit :
  Refines db g → clean p →
  ∃ out, neighbors p k s limit db = Ok out ∧
    StronglySorted (heaviest snd) out ∧ (length out <= limit)%nat ∧ 
    (∀ t w, (t, w) ∈ out → ∃ e, g !! (p, k, s, t) = Some e ∧ w = weight e) ∧
    (∀ t e, g !! (p, k, s, t) = Some e →
       (t, weight e) ∈ out ∨ (length out = limit ∧ ∀ x, x ∈ out → weight e <= x.2)).
Proof.
  intros HR Hp. destruct (neighbors_spec db g p k s limit HR Hp) as (out & ? & ? & ? & _ & ? & ?). by exists out.
Qed.

(** The sweep around a component applies its policy before its caps: in each
    direction it returns exactly the edges whose other end is outside, as many
    per kind and endpoint as the cap, and reports a pair as cut off exactly when
    more such edges than the cap exist. *)
Theorem component_sweep_caps_accepted_edges db g p endpoints component cap_in cap_out :
  Refines db g → clean p →
  let inside := λ id, bool_decide (id ∈ component ∨ id ∈ sort_dedup endpoints) in
  ∃ r, component_adjacency p endpoints component cap_in cap_out db = Ok r ∧
    covers endpoints inside cap_in (λ k ep s, g !! (p, k, s, ep)) (incoming r) (truncated_in r) ∧
    covers endpoints inside cap_out (λ k ep t, g !! (p, k, ep, t)) (outgoing r) (truncated_out r).
Proof.
  intros HR Hp inside.
  destruct (sweep_kinds_extends p inside cap_in cap_out db (λ k ep, in_weights p k ep db) (λ k ep, out_weights p k ep db)
              (λ k ep, proj1 (in_weights_spec db g HR p k ep Hp)) (λ k ep, proj1 (out_weights_spec db g HR p k ep Hp))
              ALL (sort_dedup endpoints) no_adjacency) as (r & Hr & He1 & He2 & He3 & He4).
  exists r. split; [exact Hr |]. rewrite He1, He2, He3, He4. cbn [no_adjacency incoming outgoing truncated_in truncated_out app].
  split; (apply swept_covers; [apply elem_of_sort_dedup |]).
  - intros k ep. by destruct (in_weights_spec db g HR p k ep Hp) as (_ & ?).
  - intros k ep. by destruct (out_weights_spec db g HR p k ep Hp) as (_ & ?).
Qed.

End spec.
