(* ===== verification/Coupling.v ===== *)
(** The kinds of edges that are learned in pairs: when a kind is only written by
    the undirected increments, its edges stay symmetric, whatever the store did
    in between. Over them, [engram_graph::algorithms::coupling]: the strongest
    pairs of a project. *)
From S2P Require Import Prelude Text Store Namespaces Graph GraphRows GraphSpec GraphRefine GraphQuery.

Open Scope N_scope.

(** * Definitions *)

(** The edges of a kind come in pairs, one for each direction, which agree on
    everything but their ends and their annotations; none is a loop. *)
Definition twins (e1 e2 : Edge) : Prop :=
  weight e1 = weight e2 ∧ edge_generation e1 = edge_generation e2 ∧ edge_namespace e1 = edge_namespace e2.
Definition same_twins (o1 o2 : option Edge) : Prop :=
  match o1, o2 with Some e1, Some e2 => twins e1 e2 | None, None => True | _, _ => False end.
Definition undirected (kind : EdgeKind) (g : AGraph) : Prop :=
  ∀ p s t, same_twins (g !! (p, kind, s, t)) (g !! (p, kind, t, s)) ∧ g !! (p, kind, s, s) = None.

(** The operations that write edges of [kind] in both directions only. *)
Definition writes_undirected (kind : EdgeKind) (op : GraphOp) : Prop :=
  match op with
  | OpEdges _ es | OpBoth _ _ es => Forall (λ e, edge_kind e ≠ kind) es
  | OpReplace _ expected replacements => Forall (λ e, edge_kind e ≠ kind) (expected ++ replacements)
  | OpIncrement _ _ _ _ k _ _ _ _ => k ≠ kind
  | OpBatch _ _ _ _ _ incs => Forall (λ i : increment, i.1.1.1 ≠ kind) incs
  | _ => True
  end.

(** * Lemmas *)

Lemma same_twins_sym o1 o2 : same_twins o1 o2 → same_twins o2 o1.
Proof. unfold same_twins, twins. destruct o1, o2; naive_solver. Qed.

(** Graphs with the same edges of a kind. *)
Definition same_kind (kind : EdgeKind) (g g' : AGraph) : Prop :=
  ∀ p s t, g' !! (p, kind, s, t) = g !! (p, kind, s, t).
Lemma undirected_same (kind : EdgeKind) (g g' : AGraph) : same_kind kind g g' → undirected kind g → undirected kind g'.
Proof. intros Hs Hu p s t. rewrite !Hs. apply Hu. Qed.
#[export] Instance same_kind_preorder kind : PreOrder (same_kind kind).
Proof. split; [by intros g p s t |]. intros g1 g2 g3 H12 H23 p s t. by rewrite H23. Qed.

Lemma same_kind_insert (kind : EdgeKind) (g : AGraph) (p : string) (k : EdgeKind) (s t : string) (e : Edge) : k ≠ kind → same_kind kind g (<[(p, k, s, t) := e]> g).
Proof. intros Hk p' s' t'. apply lookup_insert_ne. congruence. Qed.
Lemma same_kind_delete (kind : EdgeKind) (g : AGraph) (p : string) (k : EdgeKind) (s t : string) : k ≠ kind → same_kind kind g (delete (p, k, s, t) g).
Proof. intros Hk p' s' t'. apply lookup_delete_ne. congruence. Qed.

(** A fold of steps that leave a kind alone does, too. *)
Lemma same_kind_foldl {A} (kind : EdgeKind) (f : AGraph → A → AGraph) (P : A → Prop) (l : list A) (g : AGraph) :
  (∀ g a, P a → same_kind kind g (f g a)) → Forall P l → same_kind kind g (foldl f g l).
Proof.
  intros Hf Hl. revert g. induction Hl as [|a l Ha _ IH]; intros g; [done |]. cbn [foldl].
  etransitivity; [by apply Hf | apply IH].
Qed.

Lemma same_kind_puts (kind : EdgeKind) (p : string) (es : list Edge) (g : AGraph) : Forall (λ e, edge_kind e ≠ kind) es → same_kind kind g (a_puts p es g).
Proof. apply same_kind_foldl. intros g' e He. by apply same_kind_insert. Qed.
Lemma same_kind_drops (kind : EdgeKind) (p : string) (es : list Edge) (g : AGraph) : Forall (λ e, edge_kind e ≠ kind) es → same_kind kind g (a_drops p es g).
Proof. apply same_kind_foldl. intros g' e He. by apply same_kind_delete. Qed.
Lemma same_kind_put_absent (kind : EdgeKind) (p : string) (es : list Edge) (g : AGraph) : Forall (λ e, edge_kind e ≠ kind) es → same_kind kind g (a_put_absent p es g).
Proof.
  apply same_kind_foldl. intros g' e He. destruct (g' !! ekey p e); [done | by apply same_kind_insert].
Qed.
Lemma same_kind_increment (kind : EdgeKind) (now : N) (p ns lang : string) (gen : N) (i : increment) (g : AGraph) :
  i.1.1.1 ≠ kind → same_kind kind g (a_increment now p ns lang gen i g).
Proof. destruct i as [[[k s] t] d]. apply same_kind_insert. Qed.

(** Both directions of a pair. *)
Lemma undirected_pair (now : N) (p ns lang : string) (gen : N) (k : EdgeKind) (a b : string) (d : N) (g : AGraph) (kind : EdgeKind) :
  a ≠ b → undirected kind g →
  undirected kind (a_increment now p ns lang gen (k, b, a, d) (a_increment now p ns lang gen (k, a, b, d) g)).
Proof.
  intros Hab Hu. destruct (decide (k = kind)) as [->|Hk].
  2: { eapply undirected_same; [| exact Hu]. etransitivity; by apply same_kind_increment. }
  cbn [a_increment]. rewrite (lookup_insert_ne g (p, kind, a, b) (p, kind, b, a)) by congruence.
  intros q s t. split.
  2: { rewrite !lookup_insert_ne by congruence. apply (Hu q s t). }
  destruct (Hu p a b) as [Hold _]. destruct (Hu q s t) as [Hst _].
  assert (Hnew : same_twins
    (Some (match g !! (p, kind, a, b) with Some e => bumped now gen d e | None => new_edge ns lang kind a b d gen now end))
    (Some (match g !! (p, kind, b, a) with Some e => bumped now gen d e | None => new_edge ns lang kind b a d gen now end))).
  { unfold same_twins in Hold. destruct (g !! (p, kind, a, b)), (g !! (p, kind, b, a)); [| done..].
    destruct Hold as (Hw & _ & Hn). unfold same_twins, twins, bumped. cbn. by rewrite Hw, Hn. }
  destruct (decide ((p, a, b) = (q, s, t))) as [[= <- <- <-]|H1].
  { rewrite lookup_insert_ne, !lookup_insert_eq by congruence. exact Hnew. }
  destruct (decide ((p, b, a) = (q, s, t))) as [[= <- <- <-]|H2].
  { rewrite lookup_insert_eq, lookup_insert_ne, lookup_insert_eq by congruence. by apply same_twins_sym. }
  rewrite !lookup_insert_ne by congruence. done.
Qed.

Lemma undirected_increments (now : N) (p ns lang : string) (gen : N) (pairs : list increment) (g : AGraph) (kind : EdgeKind) :
  undirected kind g → undirected kind (a_increments now p ns lang gen (directed pairs) g).
Proof.
  unfold a_increments, directed. revert g. induction pairs as [|[[[k a] b] d] pairs IH]; intros g Hu; [done |].
  rewrite bind_cons, foldl_app. apply IH. destruct (String.eqb_spec a b) as [|Hab]; [done |].
  cbn [foldl]. by apply undirected_pair.
Qed.

Lemma undirected_keep (keep : EKey → Edge → bool) (g : AGraph) (kind : EdgeKind) :
  (∀ p s t e e', twins e e' → keep (p, kind, s, t) e = keep (p, kind, t, s) e') →
  undirected kind g → undirected kind (a_keep keep g).
Proof.
  intros Hk Hu p s t. rewrite !lookup_a_keep. destruct (Hu p s t) as [Hst Hl]. rewrite Hl. split; [| done].
  unfold same_twins in Hst. destruct (g !! (p, kind, s, t)) as [e|], (g !! (p, kind, t, s)) as [e'|]; try done.
  rewrite (Hk p s t e e' Hst). by destruct (keep (p, kind, t, s) e').
Qed.

Section spec.
Context `{BC : !Bincode}.

Lemma apply_undirected (kind : EdgeKind) (op : GraphOp) (g : AGraph) : writes_undirected kind op → undirected kind g → undirected kind (apply op g).
Proof.
  intros Hw Hu. destruct op; cbn [apply writes_undirected] in *.
  - done.
  - eapply undirected_same; [| exact Hu]. by apply same_kind_puts.
  - eapply undirected_same; [| exact Hu]. by apply same_kind_puts.
  - apply Forall_app in Hw as [He Hr]. eapply undirected_same; [| exact Hu].
    etransitivity; [apply (same_kind_drops _ p _ _ He) | by apply same_kind_put_absent].
  - eapply undirected_same; [| exact Hu]. by apply same_kind_insert.
  - eapply undirected_same; [| exact Hu]. eapply same_kind_foldl; [| exact Hw]. intros g' i. apply same_kind_increment.
  - by apply undirected_increments.
  - by apply undirected_increments.
  - apply undirected_keep; [| done]. intros q s t e e' (_ & -> & ->). done.
  - apply undirected_keep; [| done]. intros q s t e e' (_ & -> & ->). done.
  - by apply undirected_keep.
  - by apply undirected_keep.
Qed.

Lemma runs_undirected (kind : EdgeKind) (ops : list GraphOp) (db : GraphDB) (g : AGraph) :
  Refines db g → undirected kind g → Forall op_typed ops → Forall (writes_undirected kind) ops →
  ∃ db' g', runs ops db = Some db' ∧ Refines db' g' ∧ undirected kind g'.
Proof.
  intros HR Hu Hops. revert db g HR Hu. induction Hops as [|op ops Hop _ IH]; intros db g HR Hu Hw; [by exists db, g |].
  apply Forall_cons in Hw as [Hw Hws]. destruct (run_refines op db g HR Hop) as (db' & ok & Hrun & HR').
  cbn [runs]. rewrite Hrun. cbn [mbind option_bind]. eapply IH; [exact HR' | | done].
  destruct ok; [by apply apply_undirected | done].
Qed.

(** * Theorems *)

(** A kind of edges that is learned through the undirected increments only
    stays symmetric: whatever else the store did, the two directions of a pair
    exist together, with the same weight and generation, and no node is joined
    to itself. *)
Theorem learning_stays_undirected (kind : EdgeKind) ops :
  Forall op_typed ops → Forall (writes_undirected kind) ops →
  ∃ db g, runs ops empty_db = Some db ∧ Refines db g ∧ undirected kind g.
Proof.
  intros Hops Hw. apply (runs_undirected kind ops empty_db ∅ refines_empty); [| done..].
  intros p s t. by rewrite !lookup_empty.
Qed.
End spec.

(** [engram_graph::algorithms::coupling]: the temporal couplings of a project
    and of a file, and why the bound on each file's neighbors loses none of the
    strongest couplings of the project. *)

Open Scope N_scope.

(** * Definitions *)

Record Coupling := {
  file_node_id : string;
  neighbor_node_id : string;
  coupling_weight : N;
}.
#[export] Instance Coupling_eq_dec : EqDecision Coupling.
Proof. solve_decision. Defined.

(** [a < b] on strings. *)
Definition str_lt (a b : string) : Prop := a ≠ b ∧ String.le a b.
#[export] Instance str_lt_dec : RelDecision str_lt.
Proof. intros a b. unfold str_lt. apply _. Defined.

Section coupling.
Context `{BC : !Bincode}.

Definition couplings_of (p : string) (limit : nat) (db : GraphDB) (id : string) : result (list Coupling) :=
  neigh ← neighbors p TemporalCoupling id limit db;
  Ok ((λ nw, {| file_node_id := id; neighbor_node_id := nw.1; coupling_weight := nw.2 |}) <$>
      filter (λ nw : string * N, str_lt id nw.1) (neigh : list (string * N))).
Definition top_project_couplings (p : string) (limit : nat) (db : GraphDB) : result (list Coupling) :=
  all_ids ← list_node_ids p (Some "file") db;
  ls ← result_traverse (couplings_of p limit db) all_ids;
  Ok (heaviest_first coupling_weight limit (concat (ls : list (list Coupling)))).

Definition file_temporal_couplings (p id : string) (min_frequency : N) (limit : nat) (db : GraphDB)
  : result (list Coupling) :=
  neigh ← neighbors p TemporalCoupling id limit db;
  Ok ((λ nw, {| file_node_id := id; neighbor_node_id := nw.1; coupling_weight := nw.2 |}) <$>
      filter (λ nw : string * N, min_frequency <= nw.2) (neigh : list (string * N))).

End coupling.

(** * Lemmas *)

Lemma str_lt_trans a b c : str_lt a b → str_lt b c → str_lt a c.
Proof.
  intros [Hab Hab'] [Hbc Hbc']. split; [| by trans b]. intros ->. apply Hab. by apply (anti_symm String.le).
Qed.
Lemma str_lt_irrefl a : ¬ str_lt a a.
Proof. by intros []. Qed.
Lemma str_lt_cases a b : a ≠ b → str_lt a b ∨ str_lt b a.
Proof. intros Hne. destruct (String.le_total a b); [left | right]; by split. Qed.

(** ** Ranking again: as many as the limit of heavier items settle the result. *)
Lemma heaviest_first_enough `{EqDecision A} (w : A → N) limit (l ks : list A) (v : N) :
  NoDup ks → length ks = limit → (∀ x, x ∈ ks → x ∈ l ∧ v <= w x) →
  length (heaviest_first w limit l) = limit ∧ ∀ y, y ∈ heaviest_first w limit l → v <= w y.
Proof.
  intros Hnd Hlen Hks. destruct (heaviest_first_spec w limit l) as (_ & Hl & _ & Hin).
  set (r := heaviest_first w limit l) in *. clearbody r.
  assert (Hr : length r = limit).
  { assert (ks ⊆+ l) as Hsub%submseteq_length by (apply NoDup_submseteq; [done | by intros x [? _]%Hks]). lia. }
  split; [done |]. intros y Hy.
  destruct (decide (Forall (.∈ r) ks)) as [Hall|Hex].
  - rewrite Forall_forall in Hall. assert (Hp : ks ≡ₚ r).
    { apply submseteq_length_Permutation; [by apply NoDup_submseteq | lia]. }
    apply Hks. by rewrite Hp.
  - apply not_Forall_Exists, Exists_exists in Hex as (x & Hx & Hnx); [| apply _]. destruct (Hks x Hx) as [Hxl Hv].
    destruct (Hin x Hxl) as [?|[_ Hle]]; [done |]. specialize (Hle y Hy). lia.
Qed.

Lemma NoDup_heaviest_first {A} (w : A → N) limit (l : list A) : NoDup l → NoDup (heaviest_first w limit l).
Proof.
  unfold heaviest_first. rewrite <-(stable_sort_perm (heaviest w) l) at 1. intros Hl.
  rewrite <-(take_drop limit (stable_sort _ l)) in Hl. by apply NoDup_app in Hl as (? & _).
Qed.

Section spec.
Context `{BC : !Bincode}.

Lemma elem_of_couplings p limit db ids ls c :
  Forall2 (λ id cs, couplings_of p limit db id = Ok cs) ids ls →
  c ∈ concat ls ↔ ∃ cs, file_node_id c ∈ ids ∧ couplings_of p limit db (file_node_id c) = Ok cs ∧ c ∈ cs.
Proof.
  assert (Hid : ∀ id cs, couplings_of p limit db id = Ok cs → c ∈ cs → file_node_id c = id).
  { intros id cs (ns & _ & [= <-])%result_bind_Ok Hc. by apply list_elem_of_fmap in Hc as (nw & -> & _). }
  intros H. rewrite list_elem_of_In, in_concat. setoid_rewrite <-list_elem_of_In. split.
  - intros (cs & Hcs & Hc). destruct (Forall2_elem_r _ _ _ _ H Hcs) as (id & Hin & Hok).
    rewrite (Hid _ _ Hok Hc). eauto.
  - intros (cs & Hin & Hok & Hc). destruct (Forall2_elem_l _ _ _ _ H Hin) as (cs' & Hcs' & Hok').
    assert (cs' = cs) as -> by congruence. eauto.
Qed.

Section ranked.
Context (db : GraphDB) (g : AGraph) (HR : Refines db g) (p : string) (Hp : clean p) (limit : nat).
Context (ids : list string) (ls : list (list Coupling)).
Context (Hls : Forall2 (λ id cs, couplings_of p limit db id = Ok cs) ids ls).
Context (Hsym : undirected TemporalCoupling g).
Context (Hids : ∀ s t e, g !! (p, TemporalCoupling, s, t) = Some e → s ∈ ids).

(** What is kept for a file are edges. *)
Lemma kept_are_edges c : c ∈ concat ls →
  str_lt (file_node_id c) (neighbor_node_id c) ∧
  ∃ e, g !! (p, TemporalCoupling, file_node_id c, neighbor_node_id c) = Some e ∧ coupling_weight c = weight e.
Proof using HR Hp Hls.
  intros (cs & _ & Hok & Hc)%(elem_of_couplings _ _ _ _ _ _ Hls).
  destruct (neighbors_spec db g p TemporalCoupling (file_node_id c) limit HR Hp) as (out & Hout & _ & _ & _ & Hedge & _).
  unfold couplings_of in Hok. rewrite Hout in Hok. injection Hok as <-.
  apply list_elem_of_fmap in Hc as ([t w] & Hc & [Hlt Hin]%list_elem_of_filter).
  destruct (Hedge t w Hin) as (e & He & ->). cbn [fst snd] in *.
  rewrite Hc in *. cbn [file_node_id neighbor_node_id coupling_weight] in *. split; [done |]. rewrite Hc in He. eauto.
Qed.

Lemma NoDup_kept : NoDup ids → NoDup (concat ls).
Proof using HR Hp Hls.
  clear Hids. intros Hnd. induction Hls as [|id cs ids' ls' Hcs Hls' IH]; [constructor |].
  apply NoDup_cons in Hnd as [Hn Hnd]. cbn [concat]. apply NoDup_app. split_and!; [| | by apply IH].
  - destruct (neighbors_spec db g p TemporalCoupling id limit HR Hp) as (out & Hout & _ & _ & Hnd1 & _). unfold couplings_of in Hcs. rewrite Hout in Hcs.
    injection Hcs as <-. apply (NoDup_fmap_1 neighbor_node_id). rewrite <-list_fmap_compose.
    by apply (NoDup_fst_filter (λ nw : string * N, str_lt id nw.1)).
  - intros c Hc (cs' & Hin & _)%(elem_of_couplings _ _ _ _ _ _ Hls').
    apply result_bind_Ok in Hcs as (out & _ & [= <-]). apply list_elem_of_fmap in Hc as (nw & -> & _). done.
Qed.

(** A coupling as its two directions give it: from the smaller id. *)
Definition pair_from (a : string) (nw : string * N) : Coupling :=
  if decide (str_lt a nw.1) then {| file_node_id := a; neighbor_node_id := nw.1; coupling_weight := nw.2 |}
  else {| file_node_id := nw.1; neighbor_node_id := a; coupling_weight := nw.2 |}.
Lemma pair_from_inj a nw nw' : pair_from a nw = pair_from a nw' → nw.1 = nw'.1.
Proof.
  unfold pair_from. repeat case_decide; intros [=]; congruence.
Qed.
Lemma NoDup_pairs a out : NoDup out.*1 → NoDup (pair_from a <$> out).
Proof.
  induction out as [|nw out IH]; [constructor |]. cbn [fmap list_fmap]. intros [Hn Hnd]%NoDup_cons.
  apply NoDup_cons. split; [| by apply IH]. intros (nw' & He%pair_from_inj & Hin)%list_elem_of_fmap.
  apply Hn. rewrite He. by apply list_elem_of_fmap_2.
Qed.

Definition smaller (a : string) : nat := length (filter (λ t, str_lt t a) ids).
Lemma smaller_lt t a : t ∈ ids → str_lt t a → (smaller t < smaller a)%nat.
Proof.
  intros Hin Hta. unfold smaller. clear Hls Hids. induction ids as [|x l IH]; [by apply not_elem_of_nil in Hin |].
  assert (Hle : ∀ l', (length (filter (λ y, str_lt y t) l') <= length (filter (λ y, str_lt y a) l'))%nat).
  { induction l' as [|y l' IH']; [done |]. rewrite !filter_cons. repeat case_decide; cbn [length]; try lia.
    exfalso. eauto using str_lt_trans. }
  rewrite !filter_cons. apply elem_of_cons in Hin as [->|Hin].
  - rewrite decide_False by apply str_lt_irrefl. rewrite decide_True by done. cbn [length]. specialize (Hle l). lia.
  - specialize (IH Hin). repeat case_decide; cbn [length]; try lia. exfalso. eauto using str_lt_trans.
Qed.

Lemma couplings_spec a b w out :
  neighbors p TemporalCoupling a limit db = Ok out → a ∈ ids → (b, w) ∈ out → str_lt a b →
  {| file_node_id := a; neighbor_node_id := b; coupling_weight := w |} ∈ concat ls.
Proof using Hls.
  intros Hout Ha Hin Hlt. eapply elem_of_couplings; [exact Hls |]. cbn [file_node_id].
  eexists. split; [done |]. unfold couplings_of. rewrite Hout. split; [done |].
  apply list_elem_of_fmap. exists (b, w). split; [done |]. by apply list_elem_of_filter.
Qed.

(** A coupling is kept, or as many as the limit are kept that weigh no less. *)
Lemma kept_or_crowded n a b e :
  (smaller a < n)%nat → str_lt a b → g !! (p, TemporalCoupling, a, b) = Some e →
  {| file_node_id := a; neighbor_node_id := b; coupling_weight := weight e |} ∈ concat ls ∨
  ∃ ks, NoDup ks ∧ length ks = limit ∧ ∀ x, x ∈ ks → x ∈ concat ls ∧ weight e <= coupling_weight x.
Proof using HR Hp Hls Hsym Hids.
  revert a b e. induction n as [|n IH]; intros a b e Hn Hlt He; [lia |].
  destruct (neighbors_spec db g p TemporalCoupling a limit HR Hp) as (out & Hout & _ & _ & Hnd1 & Hedge & Hrank).
  assert (Ha : a ∈ ids) by eauto.
  destruct (Hrank b e He) as [Hin|[Hlen Hle]]; [left; by eapply couplings_spec |]. right.
  destruct (decide (Forall (.∈ concat ls) (pair_from a <$> out))) as [Hall|Hex].
  - exists (pair_from a <$> out). rewrite Forall_forall in Hall. split_and!; [by apply NoDup_pairs | by rewrite length_fmap |].
    intros x Hx. split; [by apply Hall |]. apply list_elem_of_fmap in Hx as (nw & -> & Hnw). apply Hle in Hnw.
    unfold pair_from. by case_decide.
  - apply not_Forall_Exists, Exists_exists in Hex as (x & Hx & Hnx); [| apply _].
    apply list_elem_of_fmap in Hx as ([t w] & -> & Htw). destruct (Hedge t w Htw) as (e' & He' & ->).
    unfold pair_from in Hnx. cbn [fst snd] in Hnx. case_decide as Hd; [exfalso; apply Hnx; by eapply couplings_spec |].
    assert (Hta : str_lt t a).
    { destruct (str_lt_cases t a); [| done | done]. intros ->. destruct (Hsym p a a) as [_ Hl]. congruence. }
    destruct (Hsym p a t) as [Htw' _]. rewrite He' in Htw'. destruct (g !! (p, TemporalCoupling, t, a)) as [e''|] eqn:He''; [| done].
    destruct Htw' as (Hw & _). assert (Hts : (smaller t < n)%nat).
    { assert (smaller t < smaller a)%nat by (apply smaller_lt; [by eapply Hids | done]). lia. }
    destruct (IH t a e'' Hts Hta He'') as [Hk|(ks & H1 & H2 & H3)]; [rewrite Hw in Hnx; done |].
    exists ks. split_and!; [done | done |]. intros x Hx. destruct (H3 x Hx) as [? Hge]. split; [done |].
    specialize (Hle _ Htw). cbn [snd] in Hle. lia.
Qed.
End ranked.

(** * Theorems *)

(** The project's couplings are its strongest: each joins two files, is a stored
    edge given once from the smaller id, they come in descending weight, as
    many as the limit, and one left out is no stronger than any shown, although
    only the heaviest neighbors of each file are looked at. *)
Theorem top_couplings_are_the_strongest db g p limit ids :
  Refines db g → clean p → undirected TemporalCoupling g →
  list_node_ids p (Some "file") db = Ok ids → NoDup ids →
  (∀ s t e, g !! (p, TemporalCoupling, s, t) = Some e → s ∈ ids) →
  ∃ out, top_project_couplings p limit db = Ok out ∧
    StronglySorted (heaviest coupling_weight) out ∧ (length out <= limit)%nat ∧ NoDup out ∧
    (∀ c, c ∈ out → str_lt (file_node_id c) (neighbor_node_id c) ∧
       ∃ e, g !! (p, TemporalCoupling, file_node_id c, neighbor_node_id c) = Some e ∧ coupling_weight c = weight e) ∧
    (∀ a b e, str_lt a b → g !! (p, TemporalCoupling, a, b) = Some e →
       {| file_node_id := a; neighbor_node_id := b; coupling_weight := weight e |} ∈ out ∨
       (length out = limit ∧ ∀ c, c ∈ out → weight e <= coupling_weight c)).
Proof.
  intros HR Hp Hsym Hids Hnd Hfiles. unfold top_project_couplings. rewrite Hids. cbn [mbind result_bind].
  destruct (result_traverse_total (couplings_of p limit db) ids) as [ls Htr].
  { intros id _. destruct (neighbors_spec db g p TemporalCoupling id limit HR Hp) as (out & Hout & _).
    unfold couplings_of. rewrite Hout. by eexists. }
  rewrite Htr. apply result_traverse_Ok in Htr. eexists. split; [done |].
  destruct (heaviest_first_spec coupling_weight limit (concat ls)) as (H1 & H2 & H3 & H4).
  split_and!; [done | lia | | |].
  - by apply NoDup_heaviest_first, (NoDup_kept db g HR p Hp limit ids).
  - intros c Hc%H3. by eapply kept_are_edges.
  - intros a b e Hlt He.
    destruct (kept_or_crowded db g HR p Hp limit ids ls Htr Hsym Hfiles _ a b e (Nat.lt_succ_diag_r _) Hlt He)
      as [Hk|(ks & Hks & Hlen & Hge)]; [by apply (H4 _ Hk) | right].
    by apply (heaviest_first_enough coupling_weight limit _ ks).
Qed.
End spec.
