(* ===== verification/Clustering.v ===== *)
(** [engram_graph::algorithms::clustering]: communities of chunks by label
    propagation over co-occurrence edges. The iteration order of the hash maps
    is a parameter, which may differ from one map to the next. *)
From S2P Require Import Prelude Text Store Namespaces Graph GraphRows GraphSpec GraphRefine GraphQuery.

Open Scope N_scope.

(** * Definitions *)

Record Cluster := {
  cluster_nodes : list string;
  score : N;
}.

Definition iterations : nat := 5.

Section clustering.
Context `{BC : !Bincode} `{HO : !HashOrder}.

(** The labels around a node, weighted by the edges that lead to them. *)
Definition label_weights (min_edge_weight : N) (labels : gmap string string) (neigh : list (string * N))
  : gmap string N :=
  foldl (λ m (nw : string * N),
    if nw.2 <? min_edge_weight then m
    else match labels !! nw.1 with
         | Some l => <[l := default 0 (m !! l) + nw.2]> m
         | None => m
         end) ∅ neigh.

Definition propagate_node (site : nat * nat) (p : string) (min_edge_weight : N) (db : GraphDB)
    (st : gmap string string * bool) (node_id : string) : result (gmap string string * bool) :=
  neigh ← neighbors p CoOccurrence node_id 128 db;
  Ok (match (neigh : list (string * N)) with
      | [] => st
      | _ =>
          match fst <$> max_by_key snd (iter site (label_weights min_edge_weight st.1 neigh)), st.1 !! node_id with
          | Some best, Some current => if String.eqb current best then st else (<[node_id := best]> st.1, true)
          | _, _ => st
          end
      end).
Fixpoint propagate (round i : nat) (p : string) (min_edge_weight : N) (db : GraphDB) (nodes : list string)
    (st : gmap string string * bool) : result (gmap string string * bool) :=
  match nodes with
  | [] => Ok st
  | n :: rest => st ← propagate_node (round, i) p min_edge_weight db st n;
                 propagate round (S i) p min_edge_weight db rest st
  end.
(** At most the given number of rounds, until one changes nothing. *)
Fixpoint rounds (fuel : nat) (p : string) (min_edge_weight : N) (db : GraphDB) (nodes : list string)
    (labels : gmap string string) : result (gmap string string) :=
  match fuel with
  | O => Ok labels
  | S fuel =>
      st ← propagate fuel 0 p min_edge_weight db nodes (labels, false);
      if (st : gmap string string * bool).2 then rounds fuel p min_edge_weight db nodes st.1 else Ok st.1
  end.

Definition initial_labels (nodes : list string) : gmap string string := list_to_map ((λ n, (n, n)) <$> nodes).
(** [community_map.entry(label).or_default().push(node_id)]. *)
Definition group (labelled : list (string * string)) : gmap string (list string) :=
  foldl (λ m (nl : string * string), <[nl.2 := default [] (m !! nl.2) ++ [nl.1]]> m) ∅ labelled.

Definition internal_weight (p : string) (members : list string) (db : GraphDB) (m : string) : N :=
  match neighbors p CoOccurrence m 128 db with
  | Ok neigh => foldr N.add 0 (snd <$> filter (λ nw : string * N, nw.1 ∈ members) neigh)
  | Fail _ => 0
  end.
Definition cluster_of (p : string) (min_size : nat) (db : GraphDB) (members : list string)
  : result (option Cluster) :=
  if Nat.ltb (length members) min_size then Ok None
  else
    has ← cluster_has_insight p members 16 db;
    Ok (if has : bool then None
        else Some {| cluster_nodes := members; score := foldr N.add 0 (internal_weight p members db <$> members) |}).

Definition find_cooccurrence_clusters (p : string) (min_edge_weight : N) (min_size max_clusters : nat) (db : GraphDB)
  : result (list Cluster) :=
  nodes ← list_node_ids p (Some "chunk") db;
  match (nodes : list string) with
  | [] => Ok []
  | _ =>
      labels ← rounds iterations p min_edge_weight db nodes (initial_labels nodes);
      cs ← result_traverse (cluster_of p min_size db) (iter (7%nat, 0%nat) (group (iter (6%nat, 0%nat) labels))).*2;
      Ok (heaviest_first score max_clusters (omap id (cs : list (option Cluster))))
  end.

(** [Cluster::fingerprint]. *)
Fixpoint join_nul (l : list string) : string :=
  match l with
  | [] => ""
  | [s] => s
  | s :: rest => nul s (join_nul rest)
  end.
Definition fingerprint `{HB : !Blake3} (c : Cluster) : string := blake3_hex (join_nul (stable_sort String.le (cluster_nodes c))).

End clustering.

(** * Lemmas *)

Lemma label_weights_labels min labels neigh l w :
  label_weights min labels neigh !! l = Some w →
  ∃ n w', (n, w') ∈ neigh ∧ min <= w' ∧ labels !! n = Some l.
Proof.
  unfold label_weights.
  assert (H : ∀ m : gmap string N, is_Some (foldl (λ (m : gmap string N) (nw : string * N),
      if nw.2 <? min then m else match labels !! nw.1 with Some l => <[l := default 0 (m !! l) + nw.2]> m | None => m end) m neigh !! l) →
    is_Some (m !! l) ∨ ∃ n w', (n, w') ∈ neigh ∧ min <= w' ∧ labels !! n = Some l).
  { induction neigh as [|[n w'] neigh IH]; intros m; [by left |]. cbn [foldl fst snd].
    intros [Hm|(n' & w'' & ? & ?)]%IH; [| right; exists n', w''; split; [by right | done]].
    destruct (N.ltb_spec w' min) as [|Hle]; [by left |]. destruct (labels !! n) as [l'|] eqn:Hl; [| by left].
    destruct (decide (l' = l)) as [->|Hne]; [right; exists n, w'; split; [by left | done] | left].
    by rewrite lookup_insert_ne in Hm. }
  intros Hw. destruct (H ∅) as [[? Hn]|?]; [by rewrite Hw | by rewrite lookup_empty in Hn | done].
Qed.

(** Grouping keeps, under each label, the names that carry it, in order. *)
Lemma group_lookup L l ms : group L !! l = Some ms → ms = (filter (λ nl : string * string, nl.2 = l) L).*1 ∧ ms ≠ [].
Proof.
  unfold group.
  assert (H : ∀ m : gmap string (list string), foldl (λ (m : gmap string (list string)) (nl : string * string),
      <[nl.2 := default [] (m !! nl.2) ++ [nl.1]]> m) m L !! l =
    match m !! l, (filter (λ nl : string * string, nl.2 = l) L).*1 with
    | None, [] => None
    | o, ns => Some (default [] o ++ ns)
    end).
  { induction L as [|[n l'] L IH]; intros m; cbn [foldl].
    - destruct (m !! l); [by rewrite app_nil_r | done].
    - rewrite IH. rewrite filter_cons. cbn [fst snd]. case_decide as Hd.
      + subst l'. rewrite lookup_insert_eq. destruct (m !! l) as [ms'|]; cbn; [by rewrite <-app_assoc | done].
      + by rewrite lookup_insert_ne. }
  rewrite H, lookup_empty. destruct (filter _ L).*1; [done |]. by intros [= <-].
Qed.

(** Blocks under distinct keys are disjoint. *)
Lemma NoDup_blocks (f : string → option string) (kvs : list (string * list string)) :
  NoDup kvs.*1 → (∀ k vs, (k, vs) ∈ kvs → NoDup vs ∧ ∀ v, v ∈ vs → f v = Some k) → NoDup (kvs.*2 ≫= id).
Proof.
  induction kvs as [|[k vs] kvs IH]; [constructor |]. cbn [fmap list_fmap snd fst]. intros [Hk Hnd]%NoDup_cons H.
  rewrite bind_cons. apply NoDup_app. split_and!.
  - apply (H k). left.
  - intros v Hv (vs' & Hv' & ([k' vs''] & -> & Hin)%list_elem_of_fmap)%list_elem_of_bind. cbn [snd id] in *.
    assert (f v = Some k) by (apply (H k vs); [left | done]).
    assert (f v = Some k') by (apply (H k' vs''); [by right | done]).
    apply Hk. assert (k = k') as -> by congruence. by apply (list_elem_of_fmap_2 fst) in Hin.
  - apply IH; [done |]. intros k' vs' Hin. apply H. by right.
Qed.

Section spec.
Context `{BC : !Bincode} `{HO : !HashOrder}.

(** An edge that label propagation follows. *)
Definition strong (p : string) (min : N) (g : AGraph) (s t : string) : Prop :=
  ∃ e, g !! (p, CoOccurrence, s, t) = Some e ∧ min <= weight e.

(** Labels are nodes, and are carried along edges. *)
Definition labels_ok (p : string) (min : N) (g : AGraph) (nodes : list string) (labels : gmap string string) : Prop :=
  ∀ v l, labels !! v = Some l → v ∈ nodes ∧ l ∈ nodes ∧ rtc (strong p min g) v l.

Section run.
Context (db : GraphDB) (g : AGraph) (HR : Refines db g) (p : string) (Hp : clean p) (min : N) (nodes : list string).

Lemma propagate_node_ok site st n :
  labels_ok p min g nodes st.1 →
  ∃ st', propagate_node site p min db st n = Ok st' ∧ labels_ok p min g nodes st'.1.
Proof using HR Hp.
  intros Hst. destruct (neighbors_spec db g p CoOccurrence n 128 HR Hp) as (neigh & Hn & _ & _ & _ & Hedge & _).
  unfold propagate_node. rewrite Hn. cbn [mbind result_bind].
  destruct neigh as [|nw neigh']; [by exists st |]. remember (nw :: neigh') as neigh eqn:E. clear E nw neigh'.
  destruct (max_by_key snd (iter site (label_weights min st.1 neigh))) as [[best w]|] eqn:Hmax;
    cbn [fmap option_fmap option_map fst]; [| by exists st].
  destruct (st.1 !! n) as [current|] eqn:Hcur; [| by exists st].
  destruct (String.eqb current best); [by exists st |]. eexists. split; [done |]. cbn [fst].
  apply max_by_key_elem in Hmax. rewrite iter_perm in Hmax. apply elem_of_map_to_list, label_weights_labels in Hmax
    as (t & w' & Hin & Hle & Hl).
  intros v l. destruct (decide (n = v)) as [<-|Hne]; [rewrite lookup_insert_eq | rewrite lookup_insert_ne by done; apply Hst].
  intros [= <-]. destruct (Hst _ _ Hcur) as (Hnn & _ & _). destruct (Hst _ _ Hl) as (_ & Hb & Hr).
  split_and!; [done.. |]. destruct (Hedge t w' Hin) as (e & He & ->). eapply rtc_l; [by exists e | done].
Qed.

Lemma propagate_ok round i ns st :
  labels_ok p min g nodes st.1 →
  ∃ st', propagate round i p min db ns st = Ok st' ∧ labels_ok p min g nodes st'.1.
Proof using HR Hp.
  revert i st. induction ns as [|n ns IH]; intros i st Hst; [by exists st |].
  destruct (propagate_node_ok (round, i) st n Hst) as (st1 & H1 & Hst1). cbn [propagate]. rewrite H1. by apply IH.
Qed.

Lemma rounds_ok fuel labels :
  labels_ok p min g nodes labels →
  ∃ labels', rounds fuel p min db nodes labels = Ok labels' ∧ labels_ok p min g nodes labels'.
Proof using HR Hp.
  revert labels. induction fuel as [|fuel IH]; intros labels Hl; [by exists labels |]. cbn [rounds].
  destruct (propagate_ok fuel 0 nodes (labels, false) Hl) as (st & H1 & Hst). rewrite H1. cbn [mbind result_bind].
  destruct st.2; [by apply IH | eauto].
Qed.

Lemma initial_labels_ok : labels_ok p min g nodes (initial_labels nodes).
Proof.
  intros v l Hl%elem_of_list_to_map_2. apply list_elem_of_fmap in Hl as (n & [= -> ->] & Hn). by repeat split.
Qed.

Lemma cluster_has_insight_spec ids :
  ∃ b, cluster_has_insight p ids 16 db = Ok b ∧
    (b = false → ∀ m t, m ∈ ids → g !! (p, InsightKind, m, t) = None).
Proof using HR Hp.
  unfold cluster_has_insight. induction ids as [|n ids IH].
  { exists false. split; [done |]. intros _ m t Hm. by apply not_elem_of_nil in Hm. }
  destruct (neighbors_spec db g p InsightKind n 16 HR Hp) as (neigh & Hn & _ & _ & _ & _ & Hall). rewrite Hn.
  cbn [mbind result_bind]. destruct neigh as [|nw neigh]; [| by exists true].
  destruct IH as (b & Hb & Hno). exists b. split; [exact Hb |]. intros Hf m t [->|Hm]%elem_of_cons; [| by apply Hno].
  destruct (g !! (p, InsightKind, n, t)) as [e|] eqn:He; [| done].
  destruct (Hall t e He) as [Hin|[Hlen _]]; [by apply not_elem_of_nil in Hin | done].
Qed.

(** A candidate cluster is refused, or taken with its members unchanged. *)
Lemma cluster_of_spec min_size members :
  ∃ o, cluster_of p min_size db members = Ok o ∧
    ∀ c, o = Some c → cluster_nodes c = members ∧ (min_size <= length members)%nat ∧
      ∀ m t, m ∈ members → g !! (p, InsightKind, m, t) = None.
Proof using HR Hp.
  unfold cluster_of. destruct (Nat.ltb_spec (length members) min_size) as [|Hle]; [by exists None |].
  destruct (cluster_has_insight_spec members) as (b & -> & Hb). cbn [mbind result_bind].
  eexists. split; [done |]. destruct b; [done |]. intros c [= <-]. auto.
Qed.

(** The blocks of nodes with the same label. *)
Definition blocks (labels : gmap string string) : list (string * list string) :=
  iter (7%nat, 0%nat) (group (iter (6%nat, 0%nat) labels)).
Lemma elem_of_blocks labels l ms :
  (l, ms) ∈ blocks labels → NoDup ms ∧ ms ≠ [] ∧ ∀ m, m ∈ ms → labels !! m = Some l.
Proof.
  unfold blocks. rewrite iter_perm. intros [-> Hne]%elem_of_map_to_list%group_lookup. split_and!; [| done |].
  - apply NoDup_fst_filter. rewrite iter_perm. apply NoDup_fst_map_to_list.
  - intros m ([m' l'] & -> & [Hl Hin]%list_elem_of_filter)%list_elem_of_fmap. cbn [fst snd] in *. subst l'.
    rewrite iter_perm in Hin. by apply elem_of_map_to_list.
Qed.
Lemma blocks_disjoint labels : NoDup ((blocks labels).*2 ≫= id).
Proof.
  apply (NoDup_blocks (λ m, labels !! m)).
  - unfold blocks. rewrite iter_perm. apply NoDup_fst_map_to_list.
  - intros l ms (? & _ & ?)%elem_of_blocks. done.
Qed.
End run.

Lemma taken_sublist p min_size db (mss : list (list string)) os :
  Forall2 (λ ms o, cluster_of p min_size db ms = Ok o) mss os →
  (cluster_nodes <$> omap id os) `sublist_of` mss.
Proof.
  induction 1 as [|ms o mss os Ho _ IH]; [constructor |]. cbn [omap list_omap id].
  destruct o as [c|]; [| by constructor]. cbn [fmap list_fmap].
  unfold cluster_of in Ho. destruct (Nat.ltb _ _); [done |]. apply result_bind_Ok in Ho as ([|] & _ & [= <-]).
  by constructor.
Qed.

Lemma heaviest_first_sub {A} (w : A → N) limit (l : list A) : heaviest_first w limit l ⊆+ l.
Proof. unfold heaviest_first. rewrite <-(stable_sort_perm (heaviest w) l) at 2. apply submseteq_take. Qed.
Lemma NoDup_concat_sub {A} (l k : list (list A)) : l ⊆+ k → NoDup (k ≫= id) → NoDup (l ≫= id).
Proof. intros [k' ->]%submseteq_Permutation. rewrite bind_app. by intros (? & _)%NoDup_app. Qed.

(** * Theorems *)

(** Whatever the order in which hash maps are iterated, clustering ends with
    disjoint sets of chunks, strongest first and as many as asked for; the
    chunks of a cluster all lead to one chunk along edges of the minimal weight,
    so no cluster joins what the graph does not, a cluster has the minimal size,
    and none of its chunks already has an insight. *)
Theorem clusters_are_communities db g p min min_size max_clusters nodes :
  Refines db g → clean p → list_node_ids p (Some "chunk") db = Ok nodes →
  ∃ out, find_cooccurrence_clusters p min min_size max_clusters db = Ok out ∧
    StronglySorted (heaviest score) out ∧ (length out <= max_clusters)%nat ∧ NoDup (out ≫= cluster_nodes) ∧
    ∀ c, c ∈ out → cluster_nodes c ≠ [] ∧ (min_size <= length (cluster_nodes c))%nat ∧
      (∃ hub, hub ∈ nodes ∧ ∀ m, m ∈ cluster_nodes c → m ∈ nodes ∧ rtc (strong p min g) m hub) ∧
      ∀ m t, m ∈ cluster_nodes c → g !! (p, InsightKind, m, t) = None.
Proof.
  intros HR Hp Hnodes. unfold find_cooccurrence_clusters. rewrite Hnodes. cbn [mbind result_bind].
  destruct nodes as [|n ns]; [exists []; split_and!; [done | constructor | cbn; lia | constructor | by intros ? ?%not_elem_of_nil] |].
  remember (n :: ns) as nodes eqn:E. clear E Hnodes n ns.
  destruct (rounds_ok db g HR p Hp min nodes iterations (initial_labels nodes)) as (labels & -> & Hlabels);
    [apply initial_labels_ok |]. cbn [mbind result_bind]. change (iter _ (group _)) with (blocks labels).
  destruct (result_traverse_total (cluster_of p min_size db) (blocks labels).*2) as [os Hos].
  { intros ms _. destruct (cluster_of_spec db g HR p Hp min_size ms) as (o & ? & _). eauto. }
  rewrite Hos. apply result_traverse_Ok in Hos. eexists. split; [done |].
  destruct (heaviest_first_spec score max_clusters (omap id os)) as (H1 & H2 & H3 & _).
  split_and!; [done | lia | |].
  - change (NoDup ((heaviest_first score max_clusters (omap id os)) ≫= id ∘ cluster_nodes)).
    rewrite <-list_fmap_bind. eapply NoDup_concat_sub; [| apply blocks_disjoint].
    etransitivity; [by apply fmap_submseteq, heaviest_first_sub | by eapply sublist_submseteq, taken_sublist].
  - intros c Hc%H3. apply list_elem_of_omap in Hc as (o & Ho & Hc). cbn [id] in Hc.
    destruct (Forall2_elem_r _ _ _ _ Hos Ho) as (ms & Hms & Hcl).
    destruct (cluster_of_spec db g HR p Hp min_size ms) as (o' & Ho' & Hspec). assert (o' = Some c) as -> by congruence.
    destruct (Hspec c eq_refl) as (-> & Hlen & Hno).
    apply list_elem_of_fmap in Hms as ([l ms'] & -> & (_ & Hne & Hlab)%elem_of_blocks). cbn [snd] in *.
    split_and!; [done | done | | done]. destruct ms' as [|m0 ms']; [done |].
    exists l. split; [by destruct (Hlabels m0 l (Hlab m0 ltac:(left))) as (_ & ? & _) |].
    intros m Hm. by destruct (Hlabels m l (Hlab m Hm)) as (? & _ & ?).
Qed.
End spec.
