(* ===== verification/GraphWitnesses.v ===== *)
(** A concrete [bincode], and the theorems on the graph store at concrete
    graphs. *)
From S2P Require Import Prelude Text Concrete Store Namespaces Graph GraphRows GraphSpec GraphRefine GraphQuery Coupling Clustering.

Open Scope N_scope.

(** * Definitions *)

Definition write_num (n : N) : string := countable_to_vec n.
Definition write_opt (o : option string) : string := match o with Some s => String "1" s | None => "" end.
Definition read_opt (s : string) : option string := match s with String _ s => Some s | EmptyString => None end.

Definition toy_node_bytes (n : Node) : bytes :=
  write_fields [node_id n; node_type n; node_name n; node_namespace n; node_language n; file_path n;
                write_num (start_line n); write_num (end_line n); write_num (node_generation n);
                write_opt (node_metadata n)].
Definition toy_node_of_bytes (b : bytes) : result Node :=
  match read_fields b with
  | Some [i; t; n; ns; l; f; s; e; g; m] =>
      s ← countable_from_slice s; e ← countable_from_slice e; g ← countable_from_slice g;
      Ok {| node_id := i; node_type := t; node_name := n; node_namespace := ns; node_language := l;
            file_path := f; start_line := s; end_line := e; node_generation := g; node_metadata := read_opt m |}
  | _ => Fail SerdeError
  end.
Definition toy_edge_bytes (e : Edge) : bytes :=
  write_fields [source_id e; target_id e; edge_namespace e; edge_language e; as_str (edge_kind e);
                write_num (weight e); write_num (edge_generation e); write_opt (edge_metadata e);
                write_num (updated_at_ms e)].
Definition toy_edge_of_bytes (b : bytes) : result Edge :=
  match read_fields b with
  | Some [s; t; ns; l; k; w; g; m; u] =>
      k ← ok_or (parse k) SerdeError;
      w ← countable_from_slice w; g ← countable_from_slice g; u ← countable_from_slice u;
      Ok {| source_id := s; target_id := t; edge_namespace := ns; edge_language := l; edge_kind := k;
            weight := w; edge_generation := g; edge_metadata := read_opt m; updated_at_ms := u |}
  | _ => Fail SerdeError
  end.

Lemma toy_node_round_trip n : toy_node_of_bytes (toy_node_bytes n) = Ok n.
Proof.
  unfold toy_node_of_bytes, toy_node_bytes. rewrite read_write_fields. unfold write_num.
  rewrite !countable_round_trip. cbn [mbind result_bind]. destruct n as [????????? [m|]]; by cbn.
Qed.
Lemma toy_edge_round_trip e : toy_edge_of_bytes (toy_edge_bytes e) = Ok e.
Proof.
  unfold toy_edge_of_bytes, toy_edge_bytes. rewrite read_write_fields. unfold write_num.
  rewrite parse_as_str. cbn [ok_or mbind result_bind]. rewrite !countable_round_trip. cbn [mbind result_bind].
  destruct e as [??????? [m|] ?]; by cbn.
Qed.

#[export] Instance toy_bincode : Bincode := {|
  node_bytes := toy_node_bytes; node_of_bytes := toy_node_of_bytes;
  edge_bytes := toy_edge_bytes; edge_of_bytes := toy_edge_of_bytes;
  node_round_trip := toy_node_round_trip; edge_round_trip := toy_edge_round_trip;
|}.

(** A small graph: [a] calls [b] and [c], [b] calls [c]. *)
Definition demo_edge (s t : string) (w : N) : Edge := new_edge "code" "rust" Calls s t w 1 1000.
Definition demo_edges : list Edge := [demo_edge "a" "b" 2; demo_edge "a" "c" 5; demo_edge "b" "c" 3].
Definition demo_graph_db : GraphDB := put_edges "p" demo_edges empty_db.
Definition demo_graph : AGraph := a_puts "p" demo_edges ∅.

(** Three nodes, learned to go together in pairs. *)
Definition demo_node (type id : string) : Node :=
  {| node_id := id; node_type := type; node_name := id; node_namespace := "code"; node_language := "rust";
     file_path := id; start_line := 1; end_line := 9; node_generation := 1; node_metadata := None |}.
Definition demo_nodes (type : string) : gmap string bytes :=
  list_to_map ((λ id, (node_key "p" id, node_bytes (demo_node type id))) <$> ["a"; "b"; "c"]).
Definition demo_pair (k : EdgeKind) (s t : string) (w : N) : list Edge :=
  [new_edge "code" "rust" k s t w 1 1000; new_edge "code" "rust" k t s w 1 1000].
Definition demo_learned (k : EdgeKind) : list Edge := demo_pair k "a" "b" 4 ++ demo_pair k "b" "c" 6.
Definition demo_learned_db (type : string) (k : EdgeKind) : GraphDB :=
  with_nodes (demo_nodes type) (put_edges "p" (demo_learned k) empty_db).
Definition demo_learned_graph (k : EdgeKind) : AGraph := a_puts "p" (demo_learned k) ∅.

#[export] Instance sorted_order : HashOrder :=
  {| iter _ _ _ _ _ m := map_to_list m; iter_perm _ _ _ _ _ _ := Permutation_refl _ |}.

(** * Lemmas *)

Lemma demo_learned_refined type k : Refines (demo_learned_db type k) (demo_learned_graph k).
Proof.
  apply (refines_same (put_edges "p" (demo_learned k) empty_db)); [done |].
  apply refines_puts; [apply refines_empty | done |]. repeat constructor; vm_compute; discriminate.
Qed.
Lemma a_increment_fresh (now : N) (p ns lang : string) (gen : N) (k : EdgeKind) (s t : string) (d : N) (g : AGraph) :
  g !! (p, k, s, t) = None → a_increment now p ns lang gen (k, s, t, d) g = a_put p (new_edge ns lang k s t d gen now) g.
Proof. cbn [a_increment]. by intros ->. Qed.
Lemma demo_undirected : undirected TemporalCoupling (demo_learned_graph TemporalCoupling).
Proof.
  assert (demo_learned_graph TemporalCoupling =
          a_increments 1000 "p" "code" "rust" 1 (directed [(TemporalCoupling, "a", "b", 4); (TemporalCoupling, "b", "c", 6)]) ∅) as ->.
  { unfold a_increments, directed. cbn [mbind list_bind String.eqb Ascii.eqb Bool.eqb app foldl].
    rewrite !a_increment_fresh by (vm_compute; reflexivity). done. }
  apply undirected_increments. intros p s t. by rewrite !lookup_empty.
Qed.

Lemma demo_sources k s t e : demo_learned_graph k !! ("p", k, s, t) = Some e → s ∈ (["a"; "b"; "c"] : list string).
Proof.
  unfold demo_learned_graph, a_puts, a_put. cbn [demo_learned demo_pair app foldl]. unfold ekey.
  cbn [edge_kind source_id target_id new_edge].
  repeat (rewrite lookup_insert_Some; intros [[[= <- <-] _]|[_ H]]; [set_solver | revert H]).
  by rewrite lookup_empty.
Qed.

Lemma demo_graph_refined : Refines demo_graph_db demo_graph.
Proof.
  apply refines_puts; [apply refines_empty | done |]. repeat constructor; vm_compute; discriminate.
Qed.

(** * Witnesses *)



Lemma neighbors_are_the_heaviest_witness :
  ∃ out, neighbors "p" Calls "a" 1 demo_graph_db = Ok out ∧
    StronglySorted (heaviest snd) out ∧ (length out <= 1)%nat ∧
    (∀ t w, (t, w) ∈ out → ∃ e, demo_graph !! ("p", Calls, "a", t) = Some e ∧ w = weight e) ∧
    (∀ t e, demo_graph !! ("p", Calls, "a", t) = Some e →
       (t, weight e) ∈ out ∨ (length out = 1%nat ∧ ∀ x, x ∈ out → weight e <= x.2)).
Proof.
  apply (neighbors_are_the_heaviest demo_graph_db demo_graph "p" Calls "a" 1 demo_graph_refined). reflexivity.
Defined.

Lemma component_sweep_caps_accepted_edges_witness :
  let inside := λ id, bool_decide (id ∈ (["b"] : list string) ∨ id ∈ sort_dedup ["a"]) in
  ∃ r, component_adjacency "p" ["a"] ["b"] (λ _, 1%nat) (λ _, 2%nat) demo_graph_db = Ok r ∧
    covers ["a"] inside (λ _, 1%nat) (λ k ep s, demo_graph !! ("p", k, s, ep)) (incoming r) (truncated_in r) ∧
    covers ["a"] inside (λ _, 2%nat) (λ k ep t, demo_graph !! ("p", k, ep, t)) (outgoing r) (truncated_out r).
Proof.
  intros inside.
  apply (component_sweep_caps_accepted_edges demo_graph_db demo_graph "p" ["a"] ["b"] (λ _, 1%nat) (λ _, 2%nat)
           demo_graph_refined). reflexivity.
Defined.

Lemma learning_stays_undirected_witness :
  let ops := [OpEdges "p" demo_edges; OpLearn 7 "p" "code" "rust" 1 [demo_node "file" "a"] [(TemporalCoupling, "a", "b", 1)]] in
  ∃ db g, runs ops empty_db = Some db ∧ Refines db g ∧ undirected TemporalCoupling g.
Proof.
  intros ops. apply (learning_stays_undirected TemporalCoupling ops).
  - repeat constructor; vm_compute; discriminate.
  - repeat constructor; vm_compute; discriminate.
Defined.

Lemma top_couplings_are_the_strongest_witness :
  let db := demo_learned_db "file" TemporalCoupling in
  let g := demo_learned_graph TemporalCoupling in
  ∃ out, top_project_couplings "p" 1 db = Ok out ∧
    StronglySorted (heaviest coupling_weight) out ∧ (length out <= 1)%nat ∧ NoDup out ∧
    (∀ c, c ∈ out → str_lt (file_node_id c) (neighbor_node_id c) ∧
       ∃ e, g !! ("p", TemporalCoupling, file_node_id c, neighbor_node_id c) = Some e ∧ coupling_weight c = weight e) ∧
    (∀ a b e, str_lt a b → g !! ("p", TemporalCoupling, a, b) = Some e →
       {| file_node_id := a; neighbor_node_id := b; coupling_weight := weight e |} ∈ out ∨
       (length out = 1%nat ∧ ∀ c, c ∈ out → weight e <= coupling_weight c)).
Proof.
  intros db g. apply (top_couplings_are_the_strongest db g "p" 1 ["a"; "b"; "c"]).
  - exact (demo_learned_refined "file" TemporalCoupling).
  - reflexivity.
  - exact demo_undirected.
  - vm_compute. reflexivity.
  - apply (bool_decide_eq_true_1 (NoDup _)). vm_compute. reflexivity.
  - exact (demo_sources TemporalCoupling).
Defined.

Lemma clusters_are_communities_witness :
  let db := demo_learned_db "chunk" CoOccurrence in
  let g := demo_learned_graph CoOccurrence in
  ∃ out, find_cooccurrence_clusters "p" 2 2 5 db = Ok out ∧
    StronglySorted (heaviest score) out ∧ (length out <= 5)%nat ∧ NoDup (out ≫= cluster_nodes) ∧
    ∀ c, c ∈ out → cluster_nodes c ≠ [] ∧ (2 <= length (cluster_nodes c))%nat ∧
      (∃ hub, hub ∈ (["a"; "b"; "c"] : list string) ∧
         ∀ m, m ∈ cluster_nodes c → m ∈ (["a"; "b"; "c"] : list string) ∧ rtc (strong "p" 2 g) m hub) ∧
      ∀ m t, m ∈ cluster_nodes c → g !! ("p", InsightKind, m, t) = None.
Proof.
  intros db g. apply (clusters_are_communities db g "p" 2 2 5 ["a"; "b"; "c"]).
  - exact (demo_learned_refined "chunk" CoOccurrence).
  - reflexivity.
  - vm_compute. reflexivity.
Defined.

Example demo_couplings : top_project_couplings "p" 1 (demo_learned_db "file" TemporalCoupling) =
  Ok [{| file_node_id := "b"; neighbor_node_id := "c"; coupling_weight := 6 |}].
Proof. vm_compute. reflexivity. Qed.
Example demo_clusters : find_cooccurrence_clusters "p" 2 2 5 (demo_learned_db "chunk" CoOccurrence) =
  Ok [{| cluster_nodes := ["c"; "a"; "b"]; score := 20 |}].
Proof. vm_compute. reflexivity. Qed.

(** The store in action: a ranked read, and a sweep that passes an inside edge,
    which is counted on the incoming side only. *)
Example demo_neighbors : neighbors "p" Calls "a" 1 demo_graph_db = Ok [("c", 5)].
Proof. vm_compute. reflexivity. Qed.
Example demo_sweep : component_adjacency "p" ["a"] ["b"] (λ _, 1%nat) (λ _, 1%nat) demo_graph_db =
  Ok {| incoming := []; outgoing := [("c", Calls, 5, "a")]; truncated_in := []; truncated_out := [];
        internal_skipped := 0 |}.
Proof. vm_compute. reflexivity. Qed.
