(* ===== verification/Resolve.v ===== *)
(** [engram_graph::store], the node lookups: by type, name and path, by symbol
    name, the ladder that resolves what a user typed to a node, and the
    placeholders of unresolved targets. [serde_json]'s values are a parameter. *)
From S2P Require Import Prelude Text Unicode Store Namespaces Paths Graph GraphRows GraphSpec GraphQuery.

Open Scope N_scope.

(** * Definitions *)

Definition UNBOUND_RECEIVER_PREFIX : string := "::receiver_unbound:".

(** What the code looks at in a JSON value. *)
Inductive JsonValue :=
  | JString (s : string)
  | JBool (b : bool)
  | JOther.
(** [Value::get] on the value with the given text, and [bincode] with a limit
    and without trailing bytes. *)
Class JsonText := {
  json_get : string → string → option JsonValue;
}.
Class StrictBincode `{BC : !Bincode} := {
  strict_edge_of_bytes : bytes → result Edge;
  strict_edge_round_trip : ∀ e, strict_edge_of_bytes (edge_bytes e) = Ok e;
}.
Arguments StrictBincode : clear implicits.
Arguments StrictBincode {BC}.

Definition as_json_str (v : option JsonValue) : option string :=
  match v with Some (JString s) => Some s | _ => None end.

(** A window of the haystack that starts here, byte by byte. *)
Fixpoint window_eq (same : ascii → ascii → bool) (needle hay : string) : bool :=
  match needle, hay with
  | "", _ => true
  | String n needle', String h hay' => same h n && window_eq same needle' hay'
  | _, "" => false
  end.
Fixpoint any_window (same : ascii → ascii → bool) (needle hay : string) : bool :=
  window_eq same needle hay ||
  match hay with
  | "" => false
  | String _ hay' => any_window same needle hay'
  end.
Definition eq_ignore_ascii_case (a b : ascii) : bool := Ascii.eqb (to_ascii_lower a) (to_ascii_lower b).
Definition BACKSLASH : ascii := "\"%char.
Definition SLASH : ascii := "/"%char.
Definition contains_case_insensitive (hay needle : string) : bool := any_window eq_ignore_ascii_case needle hay.
Definition contains_case_insensitive_path (hay needle : string) : bool :=
  any_window (λ h n, eq_ignore_ascii_case (if Ascii.eqb h BACKSLASH then SLASH else h) n) needle hay.

Inductive NodePathMatch := Substring | ExactFile | FileOrDirectory.

(** [trim_end_matches('/')]. *)
Fixpoint trim_end_slashes (s : string) : string :=
  match s with
  | "" => ""
  | String c s' => match trim_end_slashes s' with
                   | "" => if Ascii.eqb c SLASH then "" else str1 c
                   | t => String c t
                   end
  end.

Inductive ResolveResult :=
  | Unique (n : Node)
  | AmbiguousNodes (ns : list Node)
  | NotFound.

Section resolve.
Context `{BC : !Bincode} `{LC : !Lowercase} `{JT : !JsonText} `{SB : !StrictBincode}.

(** The nodes a test keeps, in key order, until the limit is met; the limit is
    looked at after a node was added. A row of another type is skipped by the
    source on a borrowed form of the node, which it validates as the whole. *)
Fixpoint query_rows (keep : Node → bool) (limit found : nat) (rows : list (string * bytes)) : result (list Node) :=
  match rows with
  | [] => Ok []
  | (_, v) :: rest =>
      n ← node_of_bytes v;
      if keep n then
        if Nat.leb limit (S found) then Ok [n]
        else more ← query_rows keep limit (S found) rest; Ok (n :: more)
      else query_rows keep limit found rest
  end.

Definition normal_path (s : string) : string := to_lowercase (replace_char BACKSLASH SLASH s).
Definition path_matches (path_match : NodePathMatch) (q path : string) : bool :=
  match path_match with
  | ExactFile => String.eqb (normal_path path) q
  | FileOrDirectory =>
      let scope := trim_end_slashes q in
      String.eqb (normal_path path) scope || starts_with (scope +:+ "/") (normal_path path)
  | Substring => String.eqb q "" || contains_case_insensitive_path path q
  end.
Definition node_matches (node_type name_pattern file_path : option string) (path_match : NodePathMatch) (n : Node) : bool :=
  match node_type with Some t => String.eqb t "" || String.eqb (Graph.node_type n) t | None => true end &&
  match name_pattern with
  | Some q => let q := to_lowercase q in String.eqb q "" || contains_case_insensitive (node_name n) q
  | None => true
  end &&
  match file_path with Some q => path_matches path_match (normal_path q) (Graph.file_path n) | None => true end.

Definition query_nodes_with_path_match (p : string) (node_type name_pattern file_path : option string) (limit : nat)
    (path_match : NodePathMatch) (db : GraphDB) : result (list Node) :=
  query_rows (node_matches node_type name_pattern file_path path_match) limit 0 (scan (nul p "") (NODES db)).
Definition query_nodes (p : string) (node_type name_pattern file_path : option string) (limit : nat) (db : GraphDB)
  : result (list Node) :=
  query_nodes_with_path_match p node_type name_pattern file_path limit Substring db.
Definition query_nodes_in_file (p : string) (node_type : option string) (file_path : string) (limit : nat)
    (db : GraphDB) : result (list Node) :=
  query_nodes_with_path_match p node_type None (Some file_path) limit ExactFile db.
Definition query_nodes_in_scope (p : string) (node_type : option string) (scope : string) (limit : nat)
    (db : GraphDB) : result (list Node) :=
  query_nodes_with_path_match p node_type None (Some scope) limit FileOrDirectory db.

Definition in_symbol_scope (scope path : string) : bool :=
  let scope_l := normal_path scope in
  String.eqb scope_l "" || String.eqb (normal_path path) scope_l || starts_with (scope_l +:+ "/") (normal_path path).
Definition names_symbol (needle : string) (n : Node) : bool :=
  let name_lower := to_lowercase (node_name n) in
  String.eqb name_lower needle || ends_with ("." +:+ needle) name_lower || ends_with ("::" +:+ needle) name_lower
  || ends_with (":" +:+ needle) (to_lowercase (node_id n)).
Definition query_nodes_by_symbol_name (p symbol_name : string) (file_scope_prefix : option string) (limit : nat)
    (db : GraphDB) : result (list Node) :=
  let needle := to_lowercase symbol_name in
  if String.eqb needle "" || Nat.eqb limit 0 then Ok []
  else query_rows (λ n, names_symbol needle n &&
                        match file_scope_prefix with Some s => in_symbol_scope s (file_path n) | None => true end)
         limit 0 (scan (nul p "") (NODES db)).

(** ** The ladder *)

Definition DIRECT_PREFIXES : list string :=
  ["sym:"; "file:"; "page:"; "control:"; "table:"; "column:"; "state:"; "gis_config:"; "binding_field:";
   "ui_container:"; "sql:"].

(** One step: a single candidate, or the one in the preferred file. *)
Definition pick (prefer_file_path : option string) (candidates : list Node) : option ResolveResult :=
  match candidates with
  | [] => None
  | [n] => Some (Unique n)
  | _ =>
      match prefer_file_path ≫= λ prefer, head (filter (λ n, file_path n = prefer) candidates) with
      | Some n => Some (Unique n)
      | None => Some (AmbiguousNodes candidates)
      end
  end.
(** [if let Ok(nodes) = ...]. *)
Definition found (r : result (list Node)) : list Node := match r with Ok ns => ns | Fail _ => [] end.
Definition node_fqn (n : Node) : option string := as_json_str (node_metadata n ≫= λ m, json_get m "fqn").
Definition short_name (input : string) : string := default input (last (split_char "." input)).

Definition resolve_symbol (p input : string) (node_type prefer_file_path : option string) (db : GraphDB)
  : result ResolveResult :=
  if starts_with UNBOUND_RECEIVER_PREFIX input then Ok NotFound
  else
    direct ← (if existsb (λ pre, starts_with pre input) DIRECT_PREFIXES then get_node p input db else Ok None);
    match direct with
    | Some n => Ok (Unique n)
    | None =>
        let looks_like_path := contains_char SLASH input || contains_char BACKSLASH input in
        by_path ← (if looks_like_path then get_node p ("file:" +:+ replace_char BACKSLASH SLASH input) db else Ok None);
        match by_path with
        | Some n => Ok (Unique n)
        | None =>
            let exact := filter (λ n, node_name n = input) (found (query_nodes p node_type (Some input) None 100 db)) in
            let by_fqn := filter (λ n, node_fqn n = Some input) (found (query_nodes p node_type None None (N.to_nat 5000) db)) in
            let short := short_name input in
            let by_short := if looks_like_path then []
                            else filter (λ n, (node_type = None ∨ node_type = Some (Graph.node_type n)) ∧
                                              (node_name n = short ∨ ends_with ("." +:+ short) (node_name n) = true))
                                   (found (query_nodes_by_symbol_name p short None 500 db)) in
            Ok (default NotFound
                  (match pick prefer_file_path exact with
                   | Some r => Some r
                   | None => match pick prefer_file_path by_fqn with
                             | Some r => Some r
                             | None => pick prefer_file_path by_short
                             end
                   end))
        end
    end.

(** A placeholder [::name] is resolved by its name, unless its edge says that
    its receiver is unbound, or cannot be read. *)
Definition receiver_bound (p s t : string) (db : GraphDB) : bool :=
  match EDGES db !! edge_key p Calls s t with
  | None => true
  | Some raw =>
      (slen raw <=? 64 * 1024) &&
      match strict_edge_of_bytes raw with
      | Fail _ => false
      | Ok e =>
          String.eqb (source_id e) s && String.eqb (target_id e) t && bool_decide (edge_kind e = Calls) &&
          match edge_metadata e ≫= λ m, json_get m "receiver_unbound" with
          | Some (JBool true) => false
          | Some (JString v) => negb (String.eqb v "true")
          | _ => true
          end
      end
  end.
Definition bare_name (target : string) : string :=
  let name := sdrop 2 target in
  trim_end (default name (head (split_char "(" name))).
Definition try_resolve_unresolved_target (p s t : string) (db : GraphDB) : option string :=
  if starts_with UNBOUND_RECEIVER_PREFIX t || negb (starts_with "::" t) then None
  else if negb (receiver_bound p s t db) then None
  else
    let name := bare_name t in
    match resolve_symbol p name None None db with
    | Ok (Unique node) =>
        let matches candidate := String.eqb candidate name || ends_with ("." +:+ name) candidate in
        if contains_char "." name && negb (matches (node_name node)) &&
           negb (match node_fqn node with Some f => matches f | None => false end)
        then None
        else Some (node_id node)
    | _ => None
    end.

(** ** The members of a file *)

Fixpoint member_rows (path file_node : string) (cap found : nat) (rows : list (string * bytes))
  : result (list string * bool) :=
  match rows with
  | [] => Ok ([], false)
  | (_, v) :: rest =>
      n ← node_of_bytes v;
      if String.eqb (node_id n) file_node || negb (String.eqb (file_path n) path) then
        member_rows path file_node cap found rest
      else if Nat.leb cap found then Ok ([], true)
      else r ← member_rows path file_node cap (S found) rest; Ok (node_id n :: r.1, r.2)
  end.
Definition file_component_members (p path file_node : string) (cap : nat) (db : GraphDB)
  : result (list string * bool) :=
  r ← member_rows path file_node cap 0 (scan (nul p "") (NODES db));
  Ok (sort_dedup r.1, r.2).

Definition get_nodes (p : string) (ids : list string) (db : GraphDB) : result (gmap string (option Node)) :=
  foldl (λ acc id, m ← acc;
    match m !! id with
    | Some _ => Ok m
    | None => n ← get_node p id db; Ok (<[id := n]> m)
    end) (Ok ∅) ids.

Definition count_nodes_by_type (p : string) (db : GraphDB) : gmap string N :=
  foldl (λ m kv, match node_of_bytes kv.2 with
                 | Ok n => <[node_type n := default 0 (m !! node_type n) + 1]> m
                 | Fail _ => m
                 end) ∅ (scan (nul p "") (NODES db)).
Definition count_edges_by_kind (p : string) (db : GraphDB) : gmap string N :=
  foldl (λ m kv, match strip_prefix (nul p "") kv.1 ≫= λ rest, head (split_char NUL rest) with
                 | Some kind => <[kind := default 0 (m !! kind) + 1]> m
                 | None => m
                 end) ∅ (scan (nul p "") (EDGES db)).

End resolve.
