(* ===== verification/Traverse.v ===== *)
(** Breadth-first search over the ids of a graph, for any successor relation:
    what the queue and the visited set keep, and that ids are met at their
    shortest distance; and [GraphStore::traverse], which is such a search. *)
From S2P Require Import Prelude Text Unicode Store Namespaces Graph GraphRows GraphSpec GraphQuery Resolve.

#[local] Open Scope nat_scope.

(** * Definitions *)

(** New ids go to the end of the queue, once. *)
Definition enqueue (dist : nat) (st : gset string * list (string * nat)) (id : string) : gset string * list (string * nat) :=
  if decide (id ∈ st.1) then st else ({[id]} ∪ st.1, st.2 ++ [(id, dist)]).

(** * Lemmas *)

(** New ids, once each, at the end of the queue. *)
Lemma enqueue_spec d l seen q :
  ∃ new, foldl (enqueue d) (seen, q) l = (list_to_set new ∪ seen, q ++ ((.,d) <$> new)) ∧ NoDup new ∧
    (∀ b, b ∈ new → b ∉ seen ∧ b ∈ l) ∧ ∀ b, b ∈ l → b ∈ seen ∨ b ∈ new.
Proof.
  revert seen q. induction l as [|b l IH]; intros seen q; cbn [foldl].
  { exists []. rewrite app_nil_r. split_and!; [f_equal; set_solver | constructor | set_solver..]. }
  unfold enqueue at 2. cbn [fst snd]. case_decide as Hb.
  - destruct (IH seen q) as (new & -> & Hnd & H1 & H2). exists new. split_and!; [done | done | set_solver..].
  - destruct (IH ({[b]} ∪ seen) (q ++ [(b, d)])) as (new & -> & Hnd & H1 & H2). exists (b :: new). split_and!.
    + f_equal; [set_solver | by rewrite <-app_assoc].
    + apply NoDup_cons. split; [set_solver | done].
    + set_solver.
    + set_solver.
Qed.

Section bfs.
Context (max_hops : nat) (next : string → string → Prop) (start : string).

(** After the ids of [taken] were taken from the queue. *)
Record Bfs (seen : gset string) (queue taken : list (string * nat)) : Prop := {
  bfs_visited : ∀ id, id ∈ seen ↔ id ∈ (taken ++ queue).*1;
  bfs_nodup : NoDup (taken ++ queue).*1;
  bfs_start : (start, 0) ∈ taken ++ queue;
  bfs_sorted : StronglySorted (λ x y : string * nat, x.2 <= y.2) (taken ++ queue);
  bfs_window : ∀ x y, x ∈ queue → y ∈ queue → y.2 <= S x.2;
  bfs_reach : ∀ x, x ∈ taken ++ queue → nsteps next x.2 start x.1 ∧ x.2 <= max_hops;
  bfs_closed : ∀ x b, x ∈ taken → x.2 < max_hops → next x.1 b → ∃ d, (b, d) ∈ taken ++ queue ∧ d <= S x.2;
}.

Lemma bfs_init : Bfs {[start]} [(start, 0)] [].
Proof.
  split; cbn; try done.
  - set_solver.
  - apply NoDup_singleton.
  - set_solver.
  - repeat constructor.
  - intros x y [-> | []%not_elem_of_nil]%elem_of_cons [-> | []%not_elem_of_nil]%elem_of_cons. lia.
  - intros x [-> | []%not_elem_of_nil]%elem_of_cons. cbn [fst snd]; split; [apply nsteps_O | lia].
  - intros x b []%not_elem_of_nil.
Qed.

(** Everything known is at most one further than the head of the queue. *)
Lemma bfs_bound seen taken id d rest :
  Bfs seen ((id, d) :: rest) taken →
  (∀ x, x ∈ taken → x.2 <= d) ∧ (∀ x, x ∈ (id, d) :: rest → d <= x.2 <= S d).
Proof.
  intros HB. pose proof (bfs_sorted _ _ _ HB) as Hs. split.
  - intros x Hx. apply StronglySorted_app in Hs as (Hs & _). apply (Hs x (id, d) Hx). left.
  - intros x Hx. split; [| apply (bfs_window _ _ _ HB (id, d)); [left | done]].
    apply StronglySorted_app_1_r in Hs. inversion Hs as [|? ? _ Hall]; subst. rewrite Forall_forall in Hall.
    apply elem_of_cons in Hx as [->|Hx]; [done | by apply Hall].
Qed.

(** An id at the bound is taken and not expanded. *)
Lemma bfs_pop seen taken id d rest :
  Bfs seen ((id, d) :: rest) taken → max_hops <= d → Bfs seen rest (taken ++ [(id, d)]).
Proof.
  intros HB Hd. destruct HB as [H1 H2 H3 H4 H5 H6 H7].
  split; rewrite <-?app_assoc; cbn [app]; try done.
  - intros x y Hx Hy. apply H5; by right.
  - intros x b [Hx|Hx]%elem_of_app Hlt Hb; [by apply H7 |]. apply list_elem_of_singleton in Hx as ->. cbn [snd] in Hlt. lia.
Qed.

Lemma bfs_expand seen taken id d rest l :
  Bfs seen ((id, d) :: rest) taken → d < max_hops → (∀ b, b ∈ l ↔ next id b) →
  let s := foldl (enqueue (S d)) (seen, rest) l in Bfs s.1 s.2 (taken ++ [(id, d)]).
Proof.
  intros HB Hd Hl. destruct (bfs_bound _ _ _ _ _ HB) as [Hbt Hbq].
  destruct (enqueue_spec (S d) l seen rest) as (new & -> & Hnd & Hnew & Hall). cbv zeta. cbn [fst snd].
  destruct HB as [H1 H2 H3 H4 H5 H6 H7].
  assert (Happ : (taken ++ [(id, d)]) ++ rest ++ ((.,S d) <$> new) = (taken ++ (id, d) :: rest) ++ ((.,S d) <$> new)).
  { rewrite <-!app_assoc. done. }
  assert (Hle : ∀ x, x ∈ taken ++ (id, d) :: rest → x.2 <= S d).
  { intros x [Hx|Hx]%elem_of_app; [specialize (Hbt x Hx); lia | apply (Hbq x Hx)]. }
  assert (Hfst : ((.,S d) <$> new).*1 = new) by (rewrite <-list_fmap_compose; apply list_fmap_id).
  split; rewrite ?Happ.
  - intros x. rewrite fmap_app, elem_of_app, Hfst, <-H1. set_solver.
  - rewrite fmap_app, Hfst. apply NoDup_app. split_and!; [done | | done]. intros x Hx Hx'. apply H1 in Hx. by destruct (Hnew x Hx').
  - apply elem_of_app. by left.
  - apply StronglySorted_app. split_and!; [| done |].
    + intros x y Hx (b & -> & _)%list_elem_of_fmap. by apply Hle.
    + clear. induction new as [|b new IH]; [constructor |]. cbn [fmap list_fmap]. constructor; [done |].
      apply Forall_forall. intros y (b' & -> & _)%list_elem_of_fmap. done.
  - assert (Hb : ∀ x, x ∈ rest ++ ((.,S d) <$> new) → d <= x.2 <= S d).
    { intros x [Hx|(b & -> & _)%list_elem_of_fmap]%elem_of_app; [apply Hbq; by right | cbn; lia]. }
    intros x y Hx%Hb Hy%Hb. lia.
  - intros x [Hx|(b & -> & Hb)%list_elem_of_fmap]%elem_of_app; [by apply H6 |]. cbn [fst snd]. split; [| lia].
    apply nsteps_r with id; [apply (H6 (id, d)); set_solver | by apply Hl, Hnew].
  - intros x b [Hx|Hx]%elem_of_app Hlt Hb.
    + destruct (H7 x b Hx Hlt Hb) as (d' & Hd' & ?). exists d'. split; [apply elem_of_app; by left | done].
    + apply list_elem_of_singleton in Hx as ->. cbn [fst snd] in *. apply Hl in Hb. destruct (Hall b Hb) as [Hv|Hv].
      * apply H1, list_elem_of_fmap in Hv as ([b' d'] & -> & Hin). exists d'.
        split; [apply elem_of_app; by left | by apply (Hle (b', d'))].
      * exists (S d). split; [| done]. apply elem_of_app. right. apply list_elem_of_fmap. by exists b.
Qed.

(** A short path leads to something known, or past the head of the queue. *)
Lemma bfs_path seen queue taken k b :
  Bfs seen queue taken → nsteps next k start b → k <= max_hops →
  (∃ d, (b, d) ∈ taken ++ queue ∧ d <= k) ∨ ∃ x, x ∈ queue ∧ x.2 < k.
Proof.
  intros HB. revert b. induction k as [|k IH]; intros b Hk Hmax.
  { inversion Hk; subst. left. exists 0. split; [apply HB | done]. }
  apply nsteps_inv_r in Hk as (a & Ha & Hab). destruct (IH a Ha ltac:(lia)) as [(d & Hin & Hd)|(x & Hx & Hlt)].
  - apply elem_of_app in Hin as [Hin|Hin]; [| right; exists (a, d); cbn; split; [done | lia]].
    destruct (bfs_closed _ _ _ HB (a, d) b Hin ltac:(cbn; lia) Hab) as (d' & ? & ?). cbn [snd] in *. left. exists d'. split; [done | lia].
  - right. exists x. split; [done | lia].
Qed.

Lemma bfs_shortest seen queue taken b d k :
  Bfs seen queue taken → (b, d) ∈ taken ++ queue → nsteps next k start b → d <= k.
Proof.
  intros HB Hin Hk. destruct (decide (k < d)) as [Hlt|]; [exfalso | lia].
  destruct (bfs_reach _ _ _ HB _ Hin) as [_ Hmax]. cbn [snd] in Hmax.
  destruct (bfs_path _ _ _ k b HB Hk ltac:(lia)) as [(d' & Hin' & Hd')|(x & Hx & Hxk)].
  - pose proof (bfs_nodup _ _ _ HB) as Hnd.
    assert (d' = d); [| lia]. apply list_elem_of_lookup in Hin as [i Hi], Hin' as [j Hj].
    assert (i = j) as -> by (eapply NoDup_lookup; [exact Hnd | |]; rewrite list_lookup_fmap; [by rewrite Hi | by rewrite Hj]).
    congruence.
  - destruct queue as [|[h dh] rest]; [by apply not_elem_of_nil in Hx |].
    destruct (bfs_bound _ _ _ _ _ HB) as [Hbt Hbq].
    apply elem_of_app in Hin as [Hin|Hin]; [specialize (Hbt _ Hin) | specialize (Hbq _ Hin)]; cbn [snd] in *.
    + pose proof (bfs_sorted _ _ _ HB) as Hs. apply StronglySorted_app in Hs as (Hs & _).
      specialize (Hs _ _ Hin Hx). cbn in Hs. lia.
    + pose proof (bfs_window _ _ _ HB x (b, d) Hx Hin) as Hw. cbn in Hw. lia.
Qed.
End bfs.

(** [GraphStore::traverse]: breadth-first search over the stored edges, with a
    bound on the results, on the hops and on the neighbors of a node; that it
    ends, and that what it returns is at its shortest distance. *)

#[local] Open Scope nat_scope.

(** * Definitions *)

Definition MAX_BFS_RESULTS : nat := 500.
Definition MAX_BRANCHING_FACTOR : nat := 50.

(** The state of the search; ids with their distances. *)
Record Search := {
  visited : gset string;
  queue : list (string * nat);
  results : list (Node * nat);
}.

Section traverse.
Context `{BC : !Bincode} `{LC : !Lowercase} `{JT : !JsonText} `{SB : !StrictBincode}.

(** The ids one side of [edge_kinds] gives. *)
Definition ids_of {A} (f : A → result (list (string * N))) (l : list A) : result (list string) :=
  ls ← result_traverse f l;
  Ok (concat ((λ ws : list (string * N), ws.*1) <$> (ls : list (list (string * N))))).

Definition incoming_ids (p id : string) (edge_kinds : option (list EdgeKind)) (db : GraphDB) : result (list string) :=
  ids_of (λ k, find_incoming_edges p k id 100 db) (match edge_kinds with Some ks => Some <$> ks | None => [None] end).
Definition outgoing_ids (p id : string) (edge_kinds : option (list EdgeKind)) (db : GraphDB) : result (list string) :=
  ids_of (λ k, neighbors p k id 100 db) (default ALL edge_kinds).

(** The next nodes of a node: sorted, without duplicates, cut to the branching
    factor, and then resolved. *)
Definition hop (p : string) (edge_kinds : option (list EdgeKind)) (direction : string) (db : GraphDB) (id : string)
  : result (list string) :=
  inc ← (if String.eqb direction "in" || String.eqb direction "both" then incoming_ids p id edge_kinds db else Ok []);
  out ← (if String.eqb direction "out" || String.eqb direction "both" then outgoing_ids p id edge_kinds db else Ok []);
  Ok ((λ next, default next (try_resolve_unresolved_target p id next db)) <$>
      take MAX_BRANCHING_FACTOR (sort_dedup (inc ++ out))).

Fixpoint search (fuel : nat) (p : string) (max_hops : nat) (edge_kinds : option (list EdgeKind)) (direction : string)
    (db : GraphDB) (st : Search) : option (result (list (Node * nat))) :=
  match queue st with
  | [] => Some (Ok (results st))
  | (curr, dist) :: rest =>
      if Nat.leb MAX_BFS_RESULTS (length (results st)) then Some (Ok (results st))
      else
        match fuel with
        | O => None
        | S fuel =>
            match get_node p curr db with
            | Fail e => Some (Fail e)
            | Ok node =>
                let found := results st ++ match node with Some n => [(n, dist)] | None => [] end in
                if Nat.leb max_hops dist then
                  search fuel p max_hops edge_kinds direction db {| visited := visited st; queue := rest; results := found |}
                else
                  match hop p edge_kinds direction db curr with
                  | Fail e => Some (Fail e)
                  | Ok next =>
                      let '(seen, q) := foldl (enqueue (S dist)) (visited st, rest) next in
                      search fuel p max_hops edge_kinds direction db {| visited := seen; queue := q; results := found |}
                  end
            end
        end
  end.

Definition traverse (fuel : nat) (p start : string) (max_hops : nat) (edge_kinds : option (list EdgeKind))
    (direction : string) (db : GraphDB) : option (result (list (Node * nat))) :=
  search fuel p max_hops edge_kinds direction db {| visited := {[start]}; queue := [(start, 0)]; results := [] |}.

(** What an id at a distance can cost: itself, and what its next nodes cost. *)
Fixpoint cost_at (hops_left : nat) : nat :=
  match hops_left with
  | O => 1
  | S h => S (MAX_BRANCHING_FACTOR * cost_at h)
  end.

(** * Lemmas *)

Section bfs.
Context (p : string) (max_hops : nat) (edge_kinds : option (list EdgeKind)) (direction : string) (db : GraphDB).
Notation hop' := (hop p edge_kinds direction db).

(** One step of the search, as a relation. *)
Definition next (a b : string) : Prop := ∃ l, hop' a = Ok l ∧ b ∈ l.

Lemma hop_short id l : hop' id = Ok l → length l <= MAX_BRANCHING_FACTOR.
Proof.
  unfold hop. intros (inc & _ & (out & _ & [= <-])%result_bind_Ok)%result_bind_Ok.
  rewrite length_fmap, length_take. lia.
Qed.

(** ** It ends *)

Definition queue_cost (q : list (string * nat)) : nat := sum_list ((λ x : string * nat, cost_at (max_hops - x.2)) <$> q).

Lemma enqueue_cost d ids seen q :
  queue_cost (foldl (enqueue d) (seen, q) ids).2 <= queue_cost q + length ids * cost_at (max_hops - d).
Proof.
  revert seen q. induction ids as [|id ids IH]; intros seen q; cbn [foldl length]; [cbn [snd]; lia |].
  unfold enqueue at 2. cbn [fst snd]. case_decide.
  - specialize (IH seen q). lia.
  - specialize (IH ({[id]} ∪ seen) (q ++ [(id, d)])). unfold queue_cost in *.
    rewrite fmap_app, sum_list_with_app in IH. cbn in IH. lia.
Qed.

Lemma cost_at_pos h : 0 < cost_at h.
Proof. destruct h; cbn; lia. Qed.

Lemma search_ends fuel st : queue_cost (queue st) <= fuel → is_Some (search fuel p max_hops edge_kinds direction db st).
Proof.
  revert st. induction fuel as [|fuel IH]; intros [seen q found]; cbn [queue]; intros Hq;
    destruct q as [|[id d] q]; [by eexists | | by eexists |].
  - unfold queue_cost in Hq. cbn in Hq. pose proof (cost_at_pos (max_hops - d)). lia.
  - assert (Hq' : cost_at (max_hops - d) + queue_cost q <= S fuel) by exact Hq.
    cbn [search queue visited results]. destruct (Nat.leb MAX_BFS_RESULTS (length found)); [by eexists |].
    destruct (get_node p id db) as [node|]; [| by eexists].
    destruct (Nat.leb_spec max_hops d) as [Hd|Hd].
    + apply IH. cbn [queue]. pose proof (cost_at_pos (max_hops - d)). lia.
    + destruct (hop' id) as [l|] eqn:Hl; [| by eexists]. apply hop_short in Hl.
      pose proof (enqueue_cost (S d) l seen q) as He.
      destruct (foldl (enqueue (S d)) (seen, q) l) as [seen' q']. cbn [snd] in He. apply IH. cbn [queue].
      replace (max_hops - d) with (S (max_hops - S d)) in Hq' by lia. cbn [cost_at] in Hq'.
      assert (length l * cost_at (max_hops - S d) <= MAX_BRANCHING_FACTOR * cost_at (max_hops - S d)) by (by apply Nat.mul_le_mono_r).
      lia.
Qed.
(** ** What it visits *)

Context (start : string).

Definition node_at (x : string * nat) : option (Node * nat) :=
  match get_node p x.1 db with Ok (Some n) => Some (n, x.2) | _ => None end.

(** The search is a breadth-first search, and its results are the nodes taken. *)
Definition Searched (st : Search) (taken : list (string * nat)) : Prop :=
  Bfs max_hops next start (visited st) (queue st) taken ∧ results st = omap node_at taken.

Lemma found_snoc found taken id d node :
  found = omap node_at taken → get_node p id db = Ok node →
  found ++ match node with Some n => [(n, d)] | None => [] end = omap node_at (taken ++ [(id, d)]).
Proof. intros -> Hn. rewrite omap_app. cbn. unfold node_at. cbn [fst snd]. rewrite Hn. by destruct node. Qed.

(** The search ends in such a state. *)
Lemma search_spec fuel st taken r :
  Searched st taken → search fuel p max_hops edge_kinds direction db st = Some (Ok r) →
  ∃ st' taken', Searched st' taken' ∧ r = results st' ∧ (queue st' = [] ∨ MAX_BFS_RESULTS <= length (results st')).
Proof.
  revert st taken. induction fuel as [|fuel IH]; intros st taken HB Hr; cbn [search] in Hr;
    (destruct (queue st) as [|[id d] rest] eqn:Hq; [exists st, taken; split_and!; [done | congruence | by left] |]);
    (destruct (Nat.leb_spec MAX_BFS_RESULTS (length (results st)));
       [exists st, taken; split_and!; [done | congruence | by right] |]); [done |].
  destruct (get_node p id db) as [node|] eqn:Hn; [| done]. destruct HB as [HB Hres]. rewrite Hq in HB.
  destruct (Nat.leb_spec max_hops d) as [Hd|Hd].
  - eapply IH; [| exact Hr]. split; [by apply bfs_pop | by apply found_snoc].
  - destruct (hop' id) as [l|] eqn:Hl; [| done].
    assert (HB' := bfs_expand _ next _ _ _ _ _ _ l HB Hd). cbv zeta in HB'.
    destruct (foldl (enqueue (S d)) (visited st, rest) l) as [seen q]. eapply IH; [| exact Hr].
    split; [| by apply found_snoc]. apply HB'. intros b. unfold next. rewrite Hl. naive_solver.
Qed.
End bfs.

(** * Theorems *)

End traverse.
