(* ===== verification/PathSearch.v ===== *)
(** [engram_graph::analysis::find_path]: a shortest path between two nodes over
    the edges of a project, along the edges or, when there is no such path
    within the depth, over the edges in both directions; that it ends, that
    what it returns is a path, and that none is shorter. *)
From S2P Require Import Prelude Text Store Namespaces F64 Graph GraphRows GraphSpec GraphQuery Resolve Traverse.

#[local] Open Scope nat_scope.

(** * Definitions *)

Record PathHop := {
  hop_edge_kind : EdgeKind;
  hop_node_id : string;
  reversed : bool;
  hop_confidence : option f32;
}.
Record FoundPath := {
  path_start : string;
  hops : list PathHop;
  directed : bool;
}.

(** A neighbor with the kind and the confidence of the edge. *)
Definition Arrow : Type := string * EdgeKind * option f32.
Notation Arrows := (gmap string (list Arrow)).

(** The node a node was first met from. *)
Definition Parent : Type := string * EdgeKind * bool * option f32.
Record PathState := {
  parents : gmap string Parent;
  path_queue : list (string * nat);
  path_seen : gset string;
}.

Section find_path.
Context `{BC : !Bincode} `{JT : !JsonText}.

(** [list_edges_by_kind] with [usize::MAX], which no table has as many rows as. *)
Definition all_edges_by_kind (p : string) (k : EdgeKind) (db : GraphDB) : result (list Edge) :=
  list_edges_by_kind p k (length (scan (kind_prefix p k) (EDGES db))) db.
Definition path_edges (p : string) (kind_filter : list EdgeKind) (db : GraphDB) : result (list Edge) :=
  match kind_filter with
  | [] => list_structural_edges p db
  | _ => ls ← result_traverse (λ k, all_edges_by_kind p k db) kind_filter; Ok (concat (ls : list (list Edge)))
  end.

Definition meta_str (e : Edge) (key : string) : option string :=
  as_json_str (edge_metadata e ≫= λ m, json_get m key).
(** Not filtered out, and not the membership of a file. *)
Definition usable_edge (kind_filter : list EdgeKind) (e : Edge) : bool :=
  (match kind_filter with [] => true | _ => bool_decide (edge_kind e ∈ kind_filter) end)
  && bool_decide (meta_str e "containment" ≠ Some "file").
Definition edge_confidence (e : Edge) : option f32 := meta_str e "confidence" ≫= parse_f32.

Definition add_arrow (f g : Edge → string) (m : Arrows) (e : Edge) : Arrows :=
  <[f e := default [] (m !! f e) ++ [(g e, edge_kind e, edge_confidence e)]]> m.
Definition arrows (f g : Edge → string) (es : list Edge) : Arrows := foldl (add_arrow f g) ∅ es.

(** The ways out of a node: the edges, and in the undirected search also the
    edges against their direction. *)
Definition ways (fwd back : Arrows) (undirected : bool) (cur : string) : list (Arrow * bool) :=
  ((λ a, (a, false)) <$> default [] (fwd !! cur)) ++
  (if undirected then (λ a, (a, true)) <$> default [] (back !! cur) else []).
Definition meet (cur : string) (depth : nat) (st : PathState) (way : Arrow * bool) : PathState :=
  let '((n, k, c), r) := way in
  if decide (n ∈ path_seen st) then st
  else {| parents := <[n := (cur, k, r, c)]> (parents st); path_queue := path_queue st ++ [(n, S depth)];
          path_seen := {[n]} ∪ path_seen st |}.

(** From the target to the start; a node without a parent gives up. *)
Fixpoint walk_back (fuel : nat) (parents : gmap string Parent) (from node : string) (acc : list PathHop)
  : option (option (list PathHop)) :=
  if String.eqb node from then Some (Some acc)
  else
    match fuel with
    | O => None
    | S fuel =>
        match parents !! node with
        | None => Some None
        | Some (prev, k, r, c) =>
            walk_back fuel parents from prev
              ({| hop_edge_kind := k; hop_node_id := node; reversed := r; hop_confidence := c |} :: acc)
        end
    end.

(** None: out of fuel, which is not reached; a node at some depth has as many
    parents. *)
Fixpoint bfs (fuel : nat) (fwd back : Arrows) (undirected : bool) (from to : string) (max_depth : nat) (st : PathState)
  : option (option FoundPath) :=
  match path_queue st with
  | [] => Some None
  | (cur, depth) :: rest =>
      match fuel with
      | O => None
      | S fuel =>
          if String.eqb cur to then
            match walk_back depth (parents st) from cur [] with
            | None => None
            | Some found => Some ((λ hs, {| path_start := from; hops := hs; directed := negb undirected |}) <$> found)
            end
          else
            let st := {| parents := parents st; path_queue := rest; path_seen := path_seen st |} in
            if Nat.leb max_depth depth then bfs fuel fwd back undirected from to max_depth st
            else bfs fuel fwd back undirected from to max_depth (foldl (meet cur depth) st (ways fwd back undirected cur))
      end
  end.
Definition bfs_start (from : string) : PathState :=
  {| parents := ∅; path_queue := [(from, 0)]; path_seen := {[from]} |}.

(** Every node but the start is an endpoint of an edge. *)
Definition find_path (p from to : string) (max_depth : nat) (kind_filter : list EdgeKind) (db : GraphDB)
  : option (result (option FoundPath)) :=
  match path_edges p kind_filter db with
  | Fail e => Some (Fail e)
  | Ok es =>
      let es := filter (λ e, usable_edge kind_filter e = true) (es : list Edge) in
      let fwd := arrows source_id target_id es in
      let back := arrows target_id source_id es in
      let fuel := S (2 * length es) in
      match bfs fuel fwd back false from to max_depth (bfs_start from) with
      | None => None
      | Some (Some found) => Some (Ok (Some found))
      | Some None =>
          match bfs fuel fwd back true from to max_depth (bfs_start from) with
          | None => None
          | Some found => Some (Ok found)
          end
      end
  end.

(** * Lemmas *)

(** Two nodes next to each other. *)
Definition connected (undirected : bool) (es : list Edge) (a b : string) : Prop :=
  ∃ e, e ∈ es ∧ (source_id e = a ∧ target_id e = b ∨ undirected = true ∧ target_id e = a ∧ source_id e = b).
(** A hop along an edge, or against it. *)
Definition hop_along (undirected : bool) (es : list Edge) (prev : string) (h : PathHop) : Prop :=
  ∃ e, e ∈ es ∧ hop_edge_kind h = edge_kind e ∧ hop_confidence h = edge_confidence e ∧
    if reversed h then undirected = true ∧ target_id e = prev ∧ source_id e = hop_node_id h
    else source_id e = prev ∧ target_id e = hop_node_id h.
Fixpoint follows (undirected : bool) (es : list Edge) (prev : string) (hs : list PathHop) (to : string) : Prop :=
  match hs with
  | [] => prev = to
  | h :: hs => hop_along undirected es prev h ∧ follows undirected es (hop_node_id h) hs to
  end.

Lemma arrows_spec f g es a x :
  x ∈ default [] (arrows f g es !! a) ↔ ∃ e, e ∈ es ∧ f e = a ∧ x = (g e, edge_kind e, edge_confidence e).
Proof.
  unfold arrows. assert (H : ∀ m : Arrows, x ∈ default [] (foldl (add_arrow f g) m es !! a) ↔
    x ∈ default [] (m !! a) ∨ ∃ e, e ∈ es ∧ f e = a ∧ x = (g e, edge_kind e, edge_confidence e)).
  { induction es as [|e es IH]; intros m; cbn [foldl]; [set_solver |]. rewrite IH. unfold add_arrow.
    destruct (decide (f e = a)) as [<-|Hne].
    - rewrite lookup_insert_eq. cbn [default]. unfold id. rewrite elem_of_app, list_elem_of_singleton.
      setoid_rewrite elem_of_cons. naive_solver.
    - rewrite lookup_insert_ne by done. setoid_rewrite elem_of_cons. naive_solver. }
  rewrite H, lookup_empty. set_solver.
Qed.

Definition way_hop (way : Arrow * bool) : PathHop :=
  {| hop_edge_kind := way.1.1.2; hop_node_id := way.1.1.1; reversed := way.2; hop_confidence := way.1.2 |}.
Lemma ways_spec undirected es cur way :
  way ∈ ways (arrows source_id target_id es) (arrows target_id source_id es) undirected cur ↔
  hop_along undirected es cur (way_hop way).
Proof.
  unfold ways, hop_along. destruct way as [[[n k] c] r]. rewrite elem_of_app, list_elem_of_fmap. cbn [way_hop hop_edge_kind reversed hop_node_id hop_confidence fst snd].
  setoid_rewrite arrows_spec. destruct undirected.
  - rewrite list_elem_of_fmap. setoid_rewrite arrows_spec. destruct r; naive_solver.
  - rewrite elem_of_nil. destruct r; naive_solver.
Qed.
Lemma ways_connected undirected es cur b :
  b ∈ (λ way : Arrow * bool, way.1.1.1) <$> ways (arrows source_id target_id es) (arrows target_id source_id es) undirected cur ↔
  connected undirected es cur b.
Proof.
  rewrite list_elem_of_fmap. setoid_rewrite ways_spec. unfold hop_along, connected. split.
  - intros ([[[n k] c] r] & -> & e & He & _ & _ & Hr). exists e. cbn in *. destruct r; naive_solver.
  - intros (e & He & [[Hs Ht]|(Hu & Hs & Ht)]).
    + exists ((b, edge_kind e, edge_confidence e), false). split; [done |]. exists e. naive_solver.
    + exists ((b, edge_kind e, edge_confidence e), true). split; [done |]. exists e. naive_solver.
Qed.

(** ** One search *)

Section search.
Context (undirected : bool) (es : list Edge) (from to : string) (max_depth : nat).
Notation next := (connected undirected es).
Notation ways' := (ways (arrows source_id target_id es) (arrows target_id source_id es) undirected).

Lemma meet_enqueue cur d l st :
  let st' := foldl (meet cur d) st l in
  (path_seen st', path_queue st') =
  foldl (enqueue (S d)) (path_seen st, path_queue st) ((λ way : Arrow * bool, way.1.1.1) <$> l).
Proof.
  cbv zeta. revert st. induction l as [|[[[n k] c] r] l IH]; intros st; cbn [foldl fmap list_fmap]; [done |].
  rewrite IH. f_equal. unfold meet, enqueue. cbn [fst snd]. by case_decide.
Qed.

(** Who was met keeps its parent; who is met now has this one. *)
Lemma meet_parents cur d l st :
  let st' := foldl (meet cur d) st l in
  (∀ x, x ∈ path_seen st → parents st' !! x = parents st !! x) ∧
  ∀ x, x ∈ path_seen st' → x ∈ path_seen st ∨
    ∃ k r c, ((x, k, c), r) ∈ l ∧ parents st' !! x = Some (cur, k, r, c).
Proof.
  cbv zeta. revert st. induction l as [|[[[n k] c] r] l IH]; intros st; cbn [foldl]; [split; [done | by left] |].
  destruct (IH (meet cur d st ((n, k, c), r))) as [H1 H2].
  assert (Hone : (∀ x, x ∈ path_seen st → x ∈ path_seen (meet cur d st ((n, k, c), r)) ∧
                       parents (meet cur d st ((n, k, c), r)) !! x = parents st !! x) ∧
                 ∀ x, x ∈ path_seen (meet cur d st ((n, k, c), r)) → x ∈ path_seen st ∨
                      x = n ∧ parents (meet cur d st ((n, k, c), r)) !! n = Some (cur, k, r, c)).
  { unfold meet. case_decide as Hn; [split; [done | by left] |]. cbn [path_seen parents]. split.
    - intros x Hx. split; [set_solver |]. rewrite lookup_insert_ne; [done |]. by intros ->.
    - intros x [->%elem_of_singleton|?]%elem_of_union; [right; by rewrite lookup_insert_eq | by left]. }
  destruct Hone as [Ho1 Ho2]. split.
  - intros x Hx. destruct (Ho1 x Hx) as [Hx' <-]. by apply H1.
  - intros x Hx. destruct (H2 x Hx) as [Hin|(k' & r' & c' & Hin & Hp)].
    + destruct (Ho2 x Hin) as [?|[-> Hpar]]; [by left |]. right. exists k, r, c. split; [left |]. by rewrite H1.
    + right. exists k', r', c'. split; [by right | done].
Qed.

Definition has_parent (st : PathState) (taken : list (string * nat)) : Prop :=
  ∀ x d, (x, d) ∈ taken ++ path_queue st → x ≠ from →
    ∃ prev k r c d', parents st !! x = Some (prev, k, r, c) ∧ d = S d' ∧ (prev, d') ∈ taken ∧
      hop_along undirected es prev {| hop_edge_kind := k; hop_node_id := x; reversed := r; hop_confidence := c |}.
Record Searched (st : PathState) (taken : list (string * nat)) : Prop := {
  searched_bfs : Bfs max_depth next from (path_seen st) (path_queue st) taken;
  searched_parent : has_parent st taken;
  searched_missed : to ∉ taken.*1;
}.

Lemma follows_snoc hs prev h :
  follows undirected es from hs prev → hop_along undirected es prev h → follows undirected es from (hs ++ [h]) (hop_node_id h).
Proof. generalize from. induction hs as [|h' hs IH]; intros a; cbn; [by intros -> | intros [? ?] ?; auto]. Qed.

Lemma walk_back_follows st taken x d acc :
  Searched st taken → (x, d) ∈ taken ++ path_queue st →
  ∃ hs, walk_back d (parents st) from x acc = Some (Some (hs ++ acc)) ∧ length hs = d ∧ follows undirected es from hs x.
Proof.
  intros [HB Hp _]. revert x acc. induction d as [|d IH]; intros x acc Hin; cbn [walk_back];
    destruct (String.eqb_spec x from) as [->|Hne].
  - by exists [].
  - destruct (Hp _ _ Hin Hne) as (? & ? & ? & ? & ? & _ & [=] & _).
  - exfalso. pose proof (bfs_shortest _ _ _ _ _ _ _ _ 0 HB Hin (nsteps_O _ _)). lia.
  - destruct (Hp _ _ Hin Hne) as (prev & k & r & c & d' & -> & [= <-] & Htaken & Hhop).
    destruct (IH prev ({| hop_edge_kind := k; hop_node_id := x; reversed := r; hop_confidence := c |} :: acc))
      as (hs & -> & Hlen & Hf); [apply elem_of_app; by left |].
    eexists. split; [by rewrite cons_middle, app_assoc |]. rewrite length_app, Hlen. cbn [length].
    split; [lia |]. by apply (follows_snoc hs prev _ Hf Hhop).
Qed.

Lemma searched_pop st taken cur d rest :
  Searched st taken → path_queue st = (cur, d) :: rest → cur ≠ to → max_depth <= d →
  Searched {| parents := parents st; path_queue := rest; path_seen := path_seen st |} (taken ++ [(cur, d)]).
Proof.
  intros [HB Hp Hm] Hq Hne Hd. rewrite Hq in HB. split; cbn [path_seen path_queue].
  - by apply bfs_pop.
  - intros x dx Hx Hx0. rewrite <-app_assoc in Hx. destruct (Hp x dx) as (prev & k & r & c & d' & ? & ? & ? & ?);
      [by rewrite Hq | done |].
    exists prev, k, r, c, d'. split_and!; [done | done | apply elem_of_app; by left | done].
  - rewrite fmap_app. set_solver.
Qed.
Lemma searched_expand st taken cur d rest :
  Searched st taken → path_queue st = (cur, d) :: rest → cur ≠ to → d < max_depth →
  Searched (foldl (meet cur d) {| parents := parents st; path_queue := rest; path_seen := path_seen st |} (ways' cur))
           (taken ++ [(cur, d)]).
Proof.
  intros [HB Hp Hm] Hq Hne Hd. rewrite Hq in HB. set (st0 := {| parents := parents st |}).
  pose proof (meet_enqueue cur d (ways' cur) st0) as He. pose proof (meet_parents cur d (ways' cur) st0) as [Hold Hnew].
  set (st' := foldl (meet cur d) st0 (ways' cur)) in *.
  assert (HB' : Bfs max_depth next from (path_seen st') (path_queue st') (taken ++ [(cur, d)])).
  { pose proof (bfs_expand _ next _ _ _ _ _ _ ((λ way : Arrow * bool, way.1.1.1) <$> ways' cur) HB Hd) as H.
    cbv zeta in H. cbn [st0 path_seen path_queue] in He. rewrite <-He in H. apply H. apply ways_connected. }
  split; [done | | rewrite fmap_app; set_solver].
  destruct (enqueue_spec (S d) ((λ way : Arrow * bool, way.1.1.1) <$> ways' cur) (path_seen st) rest)
    as (new & Heq & _ & Hfresh & _). cbn [st0 path_seen path_queue] in He. rewrite Heq in He. injection He as Hseen Hqueue.
  intros x dx Hx Hx0. rewrite Hqueue, <-app_assoc in Hx.
  assert (Hcase : (x, dx) ∈ taken ++ path_queue st ∨ x ∈ new ∧ dx = S d).
  { rewrite Hq. apply elem_of_app in Hx as [Hx|Hx]; [left; set_solver |].
    apply elem_of_app in Hx as [->%list_elem_of_singleton|Hx]; [left; set_solver |].
    apply elem_of_app in Hx as [Hx|(b & [= -> ->] & Hb)%list_elem_of_fmap]; [left; set_solver | by right]. }
  destruct Hcase as [Hin|[Hin ->]].
  - destruct (Hp x dx Hin Hx0) as (prev & k & r & c & d' & H1 & H2 & H3 & H4).
    exists prev, k, r, c, d'. split_and!; [| done | apply elem_of_app; by left | done].
    rewrite Hold; [done |]. apply (bfs_visited _ _ _ _ _ _ HB). rewrite Hq in Hin. apply list_elem_of_fmap. by exists (x, dx).
  - destruct (Hnew x) as [Hs|(k & r & c & Hway & Hpar)]; [rewrite Hseen; set_solver | by destruct (Hfresh x Hin) |].
    exists cur, k, r, c, d. split_and!; [done | done | set_solver |]. by apply ways_spec in Hway.
Qed.

(** ** It ends, with a shortest path *)

(** Every node that is met is the start or an endpoint. *)
Definition universe : list string := from :: (source_id <$> es) ++ (target_id <$> es).
Lemma taken_short st taken cur d rest :
  Searched st taken → path_queue st = (cur, d) :: rest → S (length taken) <= length universe.
Proof.
  intros [HB _ _] Hq. rewrite Hq in HB. pose proof (bfs_nodup _ _ _ _ _ _ HB) as Hnd.
  assert (Hlen : length (taken ++ (cur, d) :: rest).*1 <= length universe).
  { apply submseteq_length, NoDup_submseteq; [done |]. intros x ([x' dx] & -> & Hx)%list_elem_of_fmap.
    destruct (bfs_reach _ _ _ _ _ _ HB _ Hx) as [Hn _]. cbn [fst snd] in *. unfold universe.
    destruct dx as [|dx]; [inversion Hn; left |]. apply nsteps_inv_r in Hn as (y & _ & e & He & Hc).
    right. apply elem_of_app. rewrite !list_elem_of_fmap. naive_solver. }
  rewrite length_fmap, length_app in Hlen. cbn [length] in Hlen. lia.
Qed.

(** What a search of this kind returns. *)
Definition shortest (r : option FoundPath) : Prop :=
  match r with
  | None => ∀ k, k <= max_depth → ¬ nsteps next k from to
  | Some fp => path_start fp = from ∧ directed fp = negb undirected ∧ follows undirected es from (hops fp) to ∧
               length (hops fp) <= max_depth ∧ ∀ k, nsteps next k from to → length (hops fp) <= k
  end.
Lemma bfs_spec fuel st taken :
  Searched st taken → length universe <= length taken + fuel →
  ∃ r, bfs fuel (arrows source_id target_id es) (arrows target_id source_id es) undirected from to max_depth st = Some r ∧ shortest r.
Proof.
  revert st taken. induction fuel as [|fuel IH]; intros st taken Hs Hfuel; cbn [bfs];
    destruct (path_queue st) as [|[cur d] rest] eqn:Hq;
    try (exists None; split; [done |]; intros k Hk Hn; destruct Hs as [HB _ Hm]; rewrite Hq in HB;
         destruct (bfs_path _ _ _ _ _ _ _ _ HB Hn Hk) as [(d & Hin & _)|(x & Hx & _)]; [| by apply elem_of_nil in Hx];
         apply Hm; rewrite app_nil_r in Hin; apply list_elem_of_fmap; by exists (to, d)).
  - pose proof (taken_short _ _ _ _ _ Hs Hq). lia.
  - destruct (String.eqb_spec cur to) as [->|Hne].
    + assert (Hin : (to, d) ∈ taken ++ path_queue st) by (rewrite Hq; set_solver).
      destruct (walk_back_follows st taken to d [] Hs Hin) as (hs & -> & Hlen & Hf). eexists. split; [reflexivity |].
      rewrite app_nil_r. cbn [shortest path_start hops directed fmap option_fmap option_map].
      destruct Hs as [HB _ _]. split_and!; [done | done | done | |].
      * rewrite Hlen. by destruct (bfs_reach _ _ _ _ _ _ HB _ Hin).
      * intros k Hk. rewrite Hlen. by eapply bfs_shortest.
    + destruct (Nat.leb_spec max_depth d) as [Hd|Hd]; (apply (IH _ (taken ++ [(cur, d)])); [|rewrite length_app; cbn [length]; lia]).
      * by apply searched_pop.
      * by apply searched_expand.
Qed.

Lemma searched_start : Searched (bfs_start from) [].
Proof.
  split; [apply bfs_init | | by apply not_elem_of_nil].
  intros x d [[= -> ->]|[]%elem_of_nil]%elem_of_cons Hx. done.
Qed.

End search.

(** * Theorems *)

(** C29. When the edges can be read, the search ends. A path that is returned starts
    at the first node, follows stored edges to the second one within the depth,
    and none is shorter; when it is not a directed one, there is no directed
    path within the depth. When none is returned, the nodes are not connected
    within the depth even against the direction of the edges. *)
Theorem found_path_is_shortest p from to max_depth kind_filter db es :
  path_edges p kind_filter db = Ok es →
  let usable := filter (λ e, usable_edge kind_filter e = true) es in
  ∃ r, find_path p from to max_depth kind_filter db = Some (Ok r) ∧
    match r with
    | None => ∀ k, k <= max_depth → ¬ nsteps (connected true usable) k from to
    | Some fp =>
        path_start fp = from ∧ follows (negb (directed fp)) usable from (hops fp) to ∧ length (hops fp) <= max_depth ∧
        (∀ k, nsteps (connected (negb (directed fp)) usable) k from to → length (hops fp) <= k) ∧
        (directed fp = false → ∀ k, k <= max_depth → ¬ nsteps (connected false usable) k from to)
    end.
Proof.
  intros Hes usable. unfold find_path. rewrite Hes. fold usable.
  assert (Hfuel : ∀ u : list Edge, length (universe u from) <= 0 + S (2 * length u)).
  { intros u. unfold universe. cbn [length]. rewrite length_app, !length_fmap. lia. }
  destruct (bfs_spec false usable from to max_depth _ _ [] (searched_start false usable from to max_depth) (Hfuel usable))
    as ([fp|] & -> & H1).
  - exists (Some fp). split; [done |]. destruct H1 as (Ha & Hb & Hc & Hd & He). rewrite Hb. cbn [negb] in *.
    split_and!; done.
  - destruct (bfs_spec true usable from to max_depth _ _ [] (searched_start true usable from to max_depth) (Hfuel usable))
      as ([fp|] & -> & H2); [| by exists None].
    exists (Some fp). split; [done |]. destruct H2 as (Ha & Hb & Hc & Hd & He). rewrite Hb. cbn [negb] in *. split_and!; done.
Qed.

End find_path.
