(* ===== verification/CentralityCache.v ===== *)
(** [engram_graph::store::centrality_cache]: one ranking of a project, of its
    newest generation, under a fixed key; older rows are drained a few at a
    time. The JSON of a ranking is a parameter. *)
From S2P Require Import Prelude Text Store Namespaces F64 Graph GraphRows.

Open Scope N_scope.

(** * Definitions *)

Notation Ranking := (gmap string f32).
Class RankingJson := {
  ranking_json : Ranking → bytes;
  ranking_of_json : bytes → result Ranking;
}.

Definition CURRENT : string := "current_v1".
Definition LEGACY_CLEANUP_BATCH : nat := 32.
Definition LEGACY_SCAN_LIMIT : nat := 128.
Definition MAGIC : bytes := "EGPR" +:+ str1 NUL +:+ str1 NUL +:+ str1 NUL +:+ str1 "001".

Section cache.
Context `{RJ : !RankingJson}.

Definition stored_generation (b : bytes) : result N :=
  _ ← ensure ((16 <=? slen b) && String.eqb (stake 8 b) MAGIC) "Unknown or truncated derived centrality cache format" [];
  Ok (from_le_bytes (stake 8 (sdrop 8 b))).

Definition current_key (p : string) : string := nul p CURRENT.
Definition get_cached_centrality (p : string) (generation : N) (db : GraphDB) : result (option Ranking) :=
  match CENTRALITY db !! current_key p with
  | None => Ok None
  | Some value =>
      stored ← stored_generation value;
      if negb (stored =? generation) then Ok None
      else Some <$> ranking_of_json (sdrop 16 value)
  end.

Definition record_bytes (generation : N) (metrics : Ranking) : bytes :=
  MAGIC +:+ to_le_bytes generation +:+ ranking_json metrics.
(** A row of an older format is named by a generation alone. *)
Definition legacy_row (prefix old_key : string) : bool :=
  match strip_prefix prefix old_key with
  | Some suffix => match parse_u64 suffix with Ok generation => String.eqb (show_u64 generation) suffix | Fail _ => false end
  | None => false
  end.
Definition legacy_rows (prefix : string) (t : gmap string bytes) : list string :=
  take LEGACY_CLEANUP_BATCH (filter (λ k, legacy_row prefix k = true) (take LEGACY_SCAN_LIMIT (scan prefix t)).*1).

Definition set_cached_centrality (p : string) (generation : N) (metrics : Ranking) : GraphDB → GraphDB * result () :=
  write_tx (λ db,
    let ct := CENTRALITY db in
    existing ← transpose stored_generation (ct !! current_key p);
    let ct := match existing with
              | Some previous => if generation <? previous then ct else <[current_key p := record_bytes generation metrics]> ct
              | None => <[current_key p := record_bytes generation metrics]> ct
              end in
    Ok (Commit tt, with_centrality (foldr delete ct (legacy_rows (nul p "") ct)) db)).

(** * Lemmas *)

Lemma stored_record generation metrics :
  generation <= u64_max → stored_generation (record_bytes generation metrics) = Ok generation.
Proof.
  intros Hg. unfold stored_generation, record_bytes.
  assert (Hm : String.length MAGIC = 8%nat) by done.
  assert (Hl : String.length (to_le_bytes generation) = 8%nat) by apply le_split_length.
  rewrite stake_app, sdrop_app, stake_app, String.eqb_refl by done.
  rewrite from_to_le_bytes by done. unfold slen. rewrite !length_app_str, Hm, Hl.
  destruct (N.leb_spec 16 (N.of_nat (8 + (8 + String.length (ranking_json metrics))))); [done | lia].
Qed.
Lemma record_ranking generation metrics : sdrop 16 (record_bytes generation metrics) = ranking_json metrics.
Proof.
  unfold record_bytes. rewrite <-app_assoc_str. apply sdrop_app.
  rewrite length_app_str. unfold to_le_bytes. by rewrite le_split_length.
Qed.

(** The current row is not a legacy one. *)
Lemma current_not_legacy p : legacy_row (nul p "") (current_key p) = false.
Proof.
  unfold legacy_row, current_key, nul. assert (Hs : p +:+ String NUL CURRENT = (p +:+ String NUL "") +:+ CURRENT) by by rewrite app_assoc_str.
  by rewrite Hs, strip_prefix_app.
Qed.
Lemma legacy_rows_spec p (t : gmap string bytes) k : k ∈ legacy_rows (nul p "") t → legacy_row (nul p "") k = true.
Proof. unfold legacy_rows. intros Hk. apply subseteq_take in Hk. by apply list_elem_of_filter in Hk as [? _]. Qed.

Lemma lookup_deletes {A} (t : gmap string A) ks k :
  foldr delete t ks !! k = if decide (k ∈ ks) then None else t !! k.
Proof.
  induction ks as [|k' ks IH]; cbn [foldr]; [by rewrite decide_False by by apply not_elem_of_nil |].
  destruct (decide (k = k')) as [->|Hne].
  - rewrite lookup_delete_eq, decide_True; [done | left].
  - rewrite lookup_delete_ne, IH by done. destruct (decide (k ∈ ks)); [rewrite decide_True by set_solver | rewrite decide_False by set_solver]; done.
Qed.

(** What a write leaves under the current key: the newer of the two
    generations, the later write on a tie. *)
Definition newer (generation : N) (metrics : Ranking) (old : option (N * Ranking)) : N * Ranking :=
  match old with
  | Some (previous, m) => if generation <? previous then (previous, m) else (generation, metrics)
  | None => (generation, metrics)
  end.
Definition holds (p : string) (o : option (N * Ranking)) (db : GraphDB) : Prop :=
  CENTRALITY db !! current_key p = (λ '(g, m), record_bytes g m) <$> o ∧ ∀ g m, o = Some (g, m) → g <= u64_max.

Lemma set_holds p g m o db :
  g <= u64_max → holds p o db → holds p (Some (newer g m o)) (fst (set_cached_centrality p g m db)).
Proof.
  intros Hg [Hc Hb].
  assert (Hkeep : ∀ t : gmap string bytes, foldr delete t (legacy_rows (nul p "") t) !! current_key p = t !! current_key p).
  { intros t. rewrite lookup_deletes, decide_False; [done |].
    intros Hk%legacy_rows_spec. by rewrite current_not_legacy in Hk. }
  unfold set_cached_centrality, write_tx. cbv zeta. rewrite Hc.
  destruct o as [[g0 m0]|]; cbn [fmap option_fmap option_map transpose newer].
  - pose proof (Hb _ _ eq_refl) as Hg0. rewrite stored_record by done. cbn.
    destruct (N.ltb_spec g g0); cbn; split; try (by intros ?? [= <- <-]).
    + by etrans; [apply Hkeep |].
    + etrans; [apply Hkeep | by rewrite lookup_insert_eq].
  - cbn. split; [| by intros ?? [= <- <-]]. etrans; [apply Hkeep | by rewrite lookup_insert_eq].
Qed.
Lemma get_holds p g o db :
  holds p o db →
  get_cached_centrality p g db =
    match o with Some (g0, m) => if g0 =? g then Some <$> ranking_of_json (ranking_json m) else Ok None | None => Ok None end.
Proof.
  intros [Hc Hb]. unfold get_cached_centrality. rewrite Hc. destruct o as [[g0 m]|]; [|done].
  cbn [fmap option_fmap option_map]. rewrite stored_record, record_ranking by by eapply Hb. cbn. by destruct (g0 =? g).
Qed.

(** Every other row but a legacy one is kept. *)
Lemma set_keeps p g m db k :
  k ≠ current_key p → legacy_row (nul p "") k = false →
  CENTRALITY (fst (set_cached_centrality p g m db)) !! k = CENTRALITY db !! k.
Proof.
  intros Hk Hl. unfold set_cached_centrality, write_tx. cbv zeta.
  destruct (transpose _ _) as [existing|e]; [| done]. cbn [mbind result_bind fst].
  etrans; [apply lookup_deletes |]. rewrite decide_False; [| intros Hin%legacy_rows_spec; by rewrite Hl in Hin].
  destruct existing as [previous|]; [destruct (g <? previous); [done |] |]; by rewrite lookup_insert_ne.
Qed.

(** Writes of one project, in the order the write transactions commit. *)
Definition set_all (p : string) (ws : list (N * Ranking)) (db : GraphDB) : GraphDB :=
  foldl (λ db '(g, m), fst (set_cached_centrality p g m db)) db ws.
Definition newest (ws : list (N * Ranking)) : option (N * Ranking) :=
  foldl (λ o '(g, m), Some (newer g m o)) None ws.
Lemma set_all_holds p ws db o :
  Forall (λ w, w.1 <= u64_max) ws → holds p o db →
  holds p (foldl (λ o '(g, m), Some (newer g m o)) o ws) (set_all p ws db).
Proof.
  revert db o. induction ws as [|[g m] ws IH]; intros db o Hw Ho; [done |].
  apply Forall_cons in Hw as [Hg Hw]. cbn. apply IH; [done | by apply set_holds].
Qed.
Lemma set_all_keeps p ws db k :
  k ≠ current_key p → legacy_row (nul p "") k = false → CENTRALITY (set_all p ws db) !! k = CENTRALITY db !! k.
Proof.
  intros Hk Hl. unfold set_all. revert db. induction ws as [|[g m] ws IH]; intros db; [done |].
  cbn. by rewrite IH, set_keeps.
Qed.
Lemma newest_is_last_maximum ws g m :
  newest ws = Some (g, m) ↔
  ∃ before after, ws = before ++ (g, m) :: after ∧ Forall (λ w, w.1 <= g) before ∧ Forall (λ w, w.1 < g) after.
Proof.
  unfold newest. revert g m. induction ws as [|[g' m'] ws IH] using rev_ind; intros g m.
  { split; [done | by intros (b & a & Hw & _); destruct b]. }
  rewrite foldl_app. cbn.
  destruct (foldl _ None ws) as [[g0 m0]|] eqn:Hf; cbn.
  - destruct (proj1 (IH g0 m0) eq_refl) as (b0 & a0 & -> & Hb0 & Ha0).
    destruct (N.ltb_spec g' g0) as [Hlt|Hle]; split.
    + intros [= <- <-]. exists b0, (a0 ++ [(g', m')]). rewrite <-app_assoc. repeat split; [done |].
      apply Forall_app. by repeat constructor.
    + intros (b & a & Hw & Hb & Ha). apply IH.
      destruct a as [|w a _] using rev_ind.
      * apply app_inj_tail in Hw as [<- [= -> ->]]. exfalso.
        rewrite Forall_app, Forall_cons in Hb. cbn in Hb. lia.
      * rewrite app_comm_cons, app_assoc in Hw. apply app_inj_tail in Hw as [Hw <-].
        exists b, a. apply Forall_app in Ha as [Ha _]. done.
    + intros [= <- <-]. exists (b0 ++ (g0, m0) :: a0), []. repeat split; [| done].
      apply Forall_app; split; [eapply Forall_impl; [exact Hb0 |]; cbn; intros; lia |].
      constructor; [done |]. eapply Forall_impl; [exact Ha0 |]. cbn. intros; lia.
    + intros (b & a & Hw & Hb & Ha). destruct a as [|w a _] using rev_ind.
      * apply app_inj_tail in Hw as [_ [= -> ->]]. done.
      * rewrite app_comm_cons, app_assoc in Hw. apply app_inj_tail in Hw as [Hw <-].
        apply Forall_app in Ha as [Ha Hlast]. apply Forall_cons in Hlast as [Hlast _]. cbn in Hlast.
        assert (Some (g0, m0) = Some (g, m)) as [= -> ->] by (apply IH; exists b, a; done). lia.
  - assert (Hws : ws = []).
    { destruct ws as [|[gl ml] ws _] using rev_ind; [done |]. rewrite foldl_app in Hf. done. }
    subst ws. split.
    + intros [= <- <-]. by exists [], [].
    + intros (b & a & Hw & _). destruct b as [|? [|? ?]]; simplify_eq/=; done.
Qed.

(** * The newest ranking wins *)

(** Whatever order the workers of a project write their rankings in, from a
    database without a current record the record afterwards is the last ranking of the greatest
    generation written: reading that generation gives its ranking back through
    the JSON, and reading any other generation gives none. Other rows of the
    table are kept, but for rows named by the project and a generation
    alone. *)
Theorem newest_ranking_wins (p : string) (ws : list (N * Ranking)) (db : GraphDB) (before after : list (N * Ranking)) g m :
  CENTRALITY db !! current_key p = None →
  Forall (λ w : N * Ranking, w.1 <= u64_max) ws →
  ws = before ++ (g, m) :: after → Forall (λ w : N * Ranking, w.1 <= g) before → Forall (λ w : N * Ranking, w.1 < g) after →
  get_cached_centrality p g (set_all p ws db) = Some <$> ranking_of_json (ranking_json m) ∧
  (∀ g', g' ≠ g → get_cached_centrality p g' (set_all p ws db) = Ok None) ∧
  (∀ k, k ≠ current_key p → legacy_row (nul p "") k = false → CENTRALITY (set_all p ws db) !! k = CENTRALITY db !! k).
Proof.
  intros Hnone Hw Hsplit Hb Ha.
  assert (Hh : holds p (Some (g, m)) (set_all p ws db)).
  { assert (Hn : newest ws = Some (g, m)) by (apply newest_is_last_maximum; by exists before, after).
    rewrite <-Hn. by apply set_all_holds. }
  split_and!; [| intros g' Hne | intros k; apply set_all_keeps]; rewrite (get_holds _ _ _ _ Hh).
  - by rewrite N.eqb_refl.
  - by rewrite (proj2 (N.eqb_neq g g')).
Qed.
End cache.
