(* ===== verification/ResolveSpec.v ===== *)
(** What the node lookups find: limits that count matches, names that are
    unique, and names they miss. *)
From S2P Require Import Prelude Text Unicode Concrete Store Namespaces Paths Graph GraphRows GraphSpec GraphRefine GraphQuery Coupling Clustering GraphWitnesses Resolve Traverse.

Open Scope N_scope.

(** * Definitions *)

Section spec.
Context `{BC : !Bincode} `{LC : !Lowercase} `{JT : !JsonText} `{SB : !StrictBincode}.

(** The nodes of a project, in key order. *)
Definition project_nodes (p : string) (db : GraphDB) : result (list Node) :=
  result_traverse (λ kv : string * bytes, node_of_bytes kv.2) (scan (nul p "") (NODES db)).

(** * Lemmas *)

Lemma query_rows_spec keep limit rows ns :
  result_traverse (λ kv : string * bytes, node_of_bytes kv.2) rows = Ok ns →
  ∀ found, query_rows keep limit found rows =
    Ok (take (Nat.max 1 (limit - found)) (filter (λ n, keep n = true) ns)).
Proof.
  revert ns. induction rows as [|[k v] rows IH]; intros ns H found.
  { injection H as <-. cbn. by rewrite take_nil. }
  cbn [result_traverse snd] in H. apply result_bind_Ok in H as (n & Hn & (ns' & Hns & [= <-])%result_bind_Ok).
  cbn [query_rows]. rewrite Hn. cbn [mbind result_bind]. specialize (IH ns' Hns).
  rewrite filter_cons. destruct (keep n) eqn:Hk; [rewrite decide_True by done | rewrite decide_False by done; apply IH].
  destruct (Nat.leb_spec limit (S found)).
  - replace (Nat.max 1 (limit - found)) with 1%nat by lia. done.
  - rewrite (IH (S found)). cbn [mbind result_bind]. f_equal.
    replace (Nat.max 1 (limit - found)) with (S (Nat.max 1 (limit - S found))) by lia. done.
Qed.

Lemma pick_Unique prefer ns n : pick prefer ns = Some (Unique n) → n ∈ ns ∧ (prefer = None → ns = [n]).
Proof.
  unfold pick. destruct ns as [|a [|b ns]]; [done | intros [= ->]; by split; [left |] |].
  destruct prefer as [f|]; [| done]. cbn [mbind option_bind].
  destruct (head (filter _ (a :: b :: ns))) as [m|] eqn:Hm; [| done]. intros [= ->]. split; [| done].
  apply head_Some_elem_of, list_elem_of_filter in Hm. apply Hm.
Qed.
Lemma pick_None prefer ns : pick prefer ns = None → ns = [].
Proof. unfold pick. destruct ns as [|a [|b ns]]; [done | done |]. by case_match. Qed.

(** * Theorems *)

(** A lookup by symbol name counts its limit in nodes that match: it returns the
    first of them in key order, however many other nodes come before. *)
Theorem symbol_lookup_counts_matches p sym scope limit db ns :
  project_nodes p db = Ok ns → to_lowercase sym ≠ "" → (0 < limit)%nat →
  query_nodes_by_symbol_name p sym scope limit db =
  Ok (take limit (filter (λ n, names_symbol (to_lowercase sym) n &&
        match scope with Some s => in_symbol_scope s (file_path n) | None => true end = true) ns)).
Proof.
  intros Hns Hsym Hlim. unfold query_nodes_by_symbol_name.
  destruct (String.eqb_spec (to_lowercase sym) ""); [done |]. destruct (Nat.eqb_spec limit 0); [lia |]. cbn [orb].
  rewrite (query_rows_spec _ _ _ ns Hns). by rewrite Nat.sub_0_r, Nat.max_r by lia.
Qed.

(** What an identifier resolves to carries it: as its id, as the path of its
    file, as its name or qualified name, or as the end of its name. *)
Theorem resolved_node_is_named p input type prefer db n :
  resolve_symbol p input type prefer db = Ok (Unique n) →
  get_node p input db = Ok (Some n) ∨
  get_node p ("file:" +:+ replace_char BACKSLASH SLASH input) db = Ok (Some n) ∨
  node_name n = input ∨ node_fqn n = Some input ∨
  node_name n = short_name input ∨ ends_with ("." +:+ short_name input) (node_name n) = true.
Proof.
  unfold resolve_symbol. destruct (starts_with UNBOUND_RECEIVER_PREFIX input); [done |].
  intros (direct & Hd & H)%result_bind_Ok. destruct direct as [m|].
  { injection H as ->. left. by destruct (existsb _ _). }
  apply result_bind_Ok in H as (by_path & Hp & H). destruct by_path as [m|].
  { injection H as ->. right; left. by destruct (_ || _). }
  injection H as H. do 2 right.
  destruct (pick prefer (filter (λ n, node_name n = input) _)) as [r|] eqn:E1; cbn [default from_option id] in H.
  { subst r. left. by apply pick_Unique in E1 as [[? _]%list_elem_of_filter _]. }
  destruct (pick prefer (filter (λ n, node_fqn n = Some input) _)) as [r|] eqn:E2.
  { cbn in H. subst r. right; left. by apply pick_Unique in E2 as [[? _]%list_elem_of_filter _]. }
  destruct (pick prefer _) as [r|] eqn:E3 in H; [| done]. cbn in H. subst r. do 2 right.
  apply pick_Unique in E3 as [E3 _]. destruct (_ || _); [by apply not_elem_of_nil in E3 |].
  apply list_elem_of_filter in E3 as [[_ ?] _]. done.
Qed.

(** A letter whose case is not ASCII: the query is folded and the name is not,
    so a node is not found under its own name. *)
Theorem own_name_is_not_matched n :
  to_lowercase "Ändra" = "ändra" → node_name n = "Ändra" →
  node_matches None (Some "Ändra") None Substring n = false.
Proof. intros Hl Hn. unfold node_matches. rewrite Hl, Hn. reflexivity. Qed.

End spec.

(** ** Concrete parameters *)

(** Objects of one text member, as "member:text". *)
#[export] Instance toy_json : JsonText := {|
  json_get m k := match split_once ":" m with
                  | Some (k', v) => if String.eqb k k' then Some (JString v) else None
                  | None => None
                  end
|}.
#[export] Instance toy_strict : StrictBincode :=
  {| strict_edge_of_bytes := toy_edge_of_bytes; strict_edge_round_trip := toy_edge_round_trip |}.
#[export] Existing Instance ascii_lowercase.

(** Two nodes of one name, and others whose names contain it, in between. *)
Definition crowd_node (id name : string) : Node :=
  {| node_id := id; node_type := "function"; node_name := name; node_namespace := "code"; node_language := "vb";
     file_path := "a.vb"; start_line := 1; end_line := 2; node_generation := 1; node_metadata := None |}.
Definition crowd : list Node :=
  crowd_node "a" "W.x" :: ((λ i, crowd_node ("m" +:+ show_u64 (N.of_nat i)) "W.xy") <$> seq 0 99) ++ [crowd_node "z" "W.x"].
Definition nodes_db (ns : list Node) : GraphDB :=
  with_nodes (list_to_map ((λ n, (node_key "p" (node_id n), node_bytes n)) <$> ns)) empty_db.
Definition crowd_db : GraphDB := nodes_db crowd.

(** A name is taken for unique when its other bearers are hidden by a hundred
    nodes whose names contain it: the exact match is looked for among the first
    hundred substring matches only. *)
Theorem crowded_name_looks_unique :
  resolve_symbol "p" "W.x" None None crowd_db = Ok (Unique (crowd_node "a" "W.x")) ∧
  ∃ ns, project_nodes "p" crowd_db = Ok ns ∧
    filter (λ n, node_name n = "W.x") ns = [crowd_node "a" "W.x"; crowd_node "z" "W.x"].
Proof.
  split; [vm_compute; reflexivity |].
  eexists. split; [vm_compute; reflexivity | vm_compute; reflexivity].
Qed.

(** * Witnesses *)

Definition small_db : GraphDB := nodes_db [crowd_node "a" "A.Run"; crowd_node "b" "Runner"; crowd_node "c" "run"].

Lemma symbol_lookup_counts_matches_witness :
  query_nodes_by_symbol_name "p" "Run" None 1 small_db =
  Ok (take 1 (filter (λ n, names_symbol (to_lowercase "Run") n && true = true)
       [crowd_node "a" "A.Run"; crowd_node "b" "Runner"; crowd_node "c" "run"])).
Proof.
  apply (symbol_lookup_counts_matches "p" "Run" None 1 small_db
           [crowd_node "a" "A.Run"; crowd_node "b" "Runner"; crowd_node "c" "run"]).
  - vm_compute. reflexivity.
  - vm_compute. discriminate.
  - lia.
Defined.

Lemma resolved_node_is_named_witness :
  let n := crowd_node "a" "A.Run" in
  get_node "p" "A.Run" small_db = Ok (Some n) ∨
  get_node "p" ("file:" +:+ replace_char BACKSLASH SLASH "A.Run") small_db = Ok (Some n) ∨
  node_name n = "A.Run" ∨ node_fqn n = Some "A.Run" ∨
  node_name n = short_name "A.Run" ∨ ends_with ("." +:+ short_name "A.Run") (node_name n) = true.
Proof. intros n. apply (resolved_node_is_named "p" "A.Run" None None small_db n). vm_compute. reflexivity. Defined.

(** Lower case on the letter [Ä] and on ASCII. *)
Fixpoint umlaut_lower (s : string) : string :=
  match s with
  | String "195" (String "132" s') => String "195" (String "164" (umlaut_lower s'))
  | String c s' => String (to_ascii_lower c) (umlaut_lower s')
  | "" => ""
  end.
Lemma umlaut_lower_ascii s : is_ascii_text s = true → umlaut_lower s = string_map to_ascii_lower s.
Proof.
  induction s as [|c s IH]; [done |]. unfold is_ascii_text in *. cbn [string_forallb]. intros [Hc Hs]%andb_true_iff.
  specialize (IH Hs). cbn [string_map]. rewrite <-IH. destruct c as [[] [] [] [] [] [] [] []]; try reflexivity; discriminate Hc.
Qed.
Definition umlaut_lowercase : Lowercase :=
  {| to_lowercase := umlaut_lower; to_lowercase_ascii := umlaut_lower_ascii |}.

Lemma own_name_is_not_matched_witness :
  node_matches (LC := umlaut_lowercase) None (Some "Ändra") None Substring (crowd_node "a" "Ändra") = false.
Proof. apply (own_name_is_not_matched (LC := umlaut_lowercase)); reflexivity. Defined.


Example demo_traverse :
  traverse 100 "p" "a" 5 None "out" (demo_learned_db "file" Calls) =
  Some (Ok [(demo_node "file" "a", 0%nat); (demo_node "file" "b", 1%nat); (demo_node "file" "c", 2%nat)]).
Proof. vm_compute. reflexivity. Qed.
