(* ===== verification/Chunking.v ===== *)
(** [engram_index::chunking]: a text is cut into chunks of whole lines, of a
    bounded size and along symbols where they fit, each chunk after the first
    with some lines of context before it. *)
From S2P Require Import Prelude Text Store Concrete Ids.

Open Scope N_scope.

(** * Definitions *)

Record ExtractedSymbol := {
  symbol_name : string;
  symbol_kind : string;
  symbol_start : N;
  symbol_end : N;
  symbol_metadata : option (gmap string string);
}.
Record Chunk := {
  chunk_start : N;
  chunk_end : N;
  content : string;
  content_hash : string;
  doc_id : string;
  enclosing_symbol : option string;
}.

Definition OVERLAP_LINES : nat := 5.
Definition u32 (n : nat) : N := N.of_nat n mod 2 ^ 32.

(** [str::lines]: a carriage return goes with the line feed after it. *)
Fixpoint strip_cr (s : string) : string :=
  match s with
  | "" => ""
  | String c s' => match s' with
                   | "" => if Ascii.eqb c CR then "" else s
                   | _ => String c (strip_cr s')
                   end
  end.
Fixpoint unterminated (l : list string) : list string :=
  match l with
  | [] => []
  | [last] => match last with "" => [] | _ => [last] end
  | s :: rest => strip_cr s :: unterminated rest
  end.
Definition str_lines (text : string) : list string := unterminated (split_char LF text).

(** Lines with their line feeds. *)
Definition unlines (l : list string) : string := foldr (λ s rest, s +:+ String LF rest) "" l.
Definition line_cost (s : string) : N := slen s + 1.
Definition cost (l : list string) : N := foldr (λ s n, line_cost s + n) 0 l.
(** [lines[a..b]], for [a <= b]. *)
Definition slice (a b : nat) (l : list string) : list string := drop a (take b l).

(** The loop's variables; [cut] is [current_start] and [len] is [current_len]. *)
Record Cutting := {
  out : list Chunk;
  cut : nat;
  len : N;
  at_line : nat;
}.

Section chunking.
Context `{HB : !Blake3}.

Definition set_doc_id (rel_path : string) (c : Chunk) : Chunk :=
  {| chunk_start := chunk_start c; chunk_end := chunk_end c; content := content c; content_hash := content_hash c;
     doc_id := doc_id_compute rel_path (chunk_start c) (chunk_end c) (content_hash c);
     enclosing_symbol := enclosing_symbol c |}.

Definition enclosing (symbols : list ExtractedSymbol) (line : N) : option string :=
  (λ s, default (symbol_name s) (symbol_metadata s ≫= (.!! "fqn"))) <$>
  max_by_key symbol_start (filter (λ s, symbol_start s <= line ∧ line <= symbol_end s) symbols).

(** Slicing with [start > end] panics. *)
Definition build_chunk (lines : list string) (start end_ : nat) (symbols : list ExtractedSymbol) : result Chunk :=
  if Nat.ltb end_ start then Fail (Panic "build_chunk")
  else
    let buf := unlines (slice start end_ lines) in
    Ok {| chunk_start := u32 (S start); chunk_end := u32 end_; content := buf;
          content_hash := content_hash_compute buf; doc_id := "";
          enclosing_symbol := enclosing symbols (u32 (S start)) |}.

(** Line index to the symbol that starts there; the last one wins. *)
Definition symbol_starts (symbols : list ExtractedSymbol) : gmap nat ExtractedSymbol :=
  foldl (λ m s, if 0 <? symbol_start s then <[N.to_nat (symbol_start s - 1) := s]> m else m) ∅ symbols.

(** A chunk ends before the current line when [extra] would not fit. *)
Definition flush_for (lines : list string) (max_chars : N) (symbols : list ExtractedSymbol) (extra : N) (st : Cutting)
  : result Cutting :=
  if (0 <? len st) && (max_chars <? len st + extra) then
    c ← build_chunk lines (cut st) (at_line st) symbols;
    Ok {| out := out st ++ [c]; cut := at_line st; len := 0; at_line := at_line st |}
  else Ok st.
Definition take_line (lines : list string) (max_chars : N) (symbols : list ExtractedSymbol) (st : Cutting)
  : result Cutting :=
  let line_len := line_cost (default "" (lines !! at_line st)) in
  st ← flush_for lines max_chars symbols line_len st;
  Ok {| out := out st; cut := cut st; len := len st + line_len; at_line := S (at_line st) |}.
Definition cut_step (lines : list string) (max_chars : N) (symbols : list ExtractedSymbol) (st : Cutting)
  : result Cutting :=
  match symbol_starts symbols !! at_line st with
  | Some sym =>
      let sym_end := Nat.min (N.to_nat (symbol_end sym)) (length lines) in
      let total := cost (slice (at_line st) sym_end lines) in
      st ← flush_for lines max_chars symbols total st;
      if max_chars <? total then take_line lines max_chars symbols st
      else Ok {| out := out st; cut := cut st; len := len st + total; at_line := sym_end |}
  | None => take_line lines max_chars symbols st
  end.

(** The loop; [None] when the fuel does not suffice. *)
Fixpoint cut_lines (fuel : nat) (lines : list string) (max_chars : N) (symbols : list ExtractedSymbol) (st : Cutting)
  : option (result Cutting) :=
  if Nat.ltb (at_line st) (length lines) then
    match fuel with
    | O => None
    | S fuel => match cut_step lines max_chars symbols st with
                | Ok st => cut_lines fuel lines max_chars symbols st
                | Fail e => Some (Fail e)
                end
    end
  else Some (Ok st).

(** The lines of context before a chunk. *)
Definition add_overlap (lines : list string) (c : Chunk) : result Chunk :=
  if chunk_start c =? 0 then Fail (Panic "semantic_chunk_lines")
  else
    let curr := N.to_nat (chunk_start c - 1) in
    let from := (curr - OVERLAP_LINES)%nat in
    let combined := unlines (slice from curr lines) +:+ content c in
    Ok (if Nat.ltb 0 curr then
          {| chunk_start := u32 (S from); chunk_end := chunk_end c; content := combined;
             content_hash := content_hash_compute combined; doc_id := doc_id c;
             enclosing_symbol := enclosing_symbol c |}
        else c).

Definition finish (lines : list string) (symbols : list ExtractedSymbol) (st : Cutting) : result (list Chunk) :=
  chunks ← (if 0 <? len st then
              c ← build_chunk lines (cut st) (length lines) symbols; Ok (out st ++ [c])
            else Ok (out st));
  match (chunks : list Chunk) with
  | [] => Ok []
  | c :: rest => rest ← result_traverse (add_overlap lines) rest; Ok (c :: rest)
  end.

Definition semantic_chunk_lines (fuel : nat) (text : string) (max_chars : N) (symbols : list ExtractedSymbol)
  : option (result (list Chunk)) :=
  let lines := str_lines text in
  match lines with
  | [] => Some (Ok [])
  | _ =>
      r ← cut_lines fuel lines max_chars symbols {| out := []; cut := 0; len := 0; at_line := 0 |};
      Some (r ≫= finish lines symbols)
  end.
Definition chunk_lines (fuel : nat) (text : string) (max_chars : N) : option (result (list Chunk)) :=
  semantic_chunk_lines fuel text max_chars [].

End chunking.

(** Chunking ends, covers every line of the text once, keeps chunks within
    their bound and symbols that fit in one piece. *)

Open Scope N_scope.

(** * Definitions *)

(** The spans of lines [a..b], end to end. *)
Fixpoint tiles (from : nat) (spans : list (nat * nat)) (to : nat) : Prop :=
  match spans with
  | [] => from = to
  | (a, b) :: rest => a = from ∧ (a < b)%nat ∧ tiles b rest to
  end.

(** A symbol does not end before it starts. *)
Definition sane (symbols : list ExtractedSymbol) : Prop :=
  ∀ s, s ∈ symbols → symbol_start s <= symbol_end s.

(** A span is within the bound, or a single line. *)
Definition bounded (lines : list string) (max_chars : N) (span : nat * nat) : Prop :=
  cost (slice span.1 span.2 lines) <= max_chars ∨ span.2 = S span.1.

(** Where a symbol ends in a text. *)
Definition ends_at (lines : list string) (s : ExtractedSymbol) : nat :=
  Nat.min (N.to_nat (symbol_end s)) (length lines).
Definition fits (lines : list string) (max_chars : N) (i : nat) (s : ExtractedSymbol) : Prop :=
  cost (slice i (ends_at lines s) lines) <= max_chars.

Section spec.
Context `{HB : !Blake3}.

(** A chunk for a span tells the lines it holds, from the context before the
    span on. *)
Definition describes (lines : list string) (symbols : list ExtractedSymbol) (span : nat * nat) (c : Chunk) : Prop :=
  let from := (span.1 - OVERLAP_LINES)%nat in
  chunk_start c = N.of_nat (S from) ∧ chunk_end c = N.of_nat span.2 ∧
  content c = unlines (slice from span.2 lines) ∧ content_hash c = content_hash_compute (content c) ∧
  enclosing_symbol c = enclosing symbols (N.of_nat (S span.1)).

(** * Lemmas *)

Lemma slice_app a b c l : (a <= b <= c)%nat → slice a c l = slice a b l ++ slice b c l.
Proof.
  intros H. unfold slice. destruct (Nat.le_gt_cases b (length l)).
  - rewrite <-(take_drop b (take c l)) at 1. rewrite take_take, Nat.min_l, drop_app_le by (rewrite ?length_take; lia). done.
  - rewrite !(take_ge l), (drop_ge l b), app_nil_r by lia. done.
Qed.
Lemma slice_nil a l : slice a a l = [].
Proof. unfold slice. apply drop_ge. rewrite length_take. lia. Qed.
Lemma slice_line i l x : l !! i = Some x → slice i (S i) l = [x].
Proof.
  intros H. unfold slice. rewrite (take_S_r _ _ x) by done. rewrite drop_app, drop_ge by (rewrite length_take; lia).
  rewrite length_take. apply lookup_lt_Some in H. replace (i - i `min` length l)%nat with 0%nat by lia. done.
Qed.
Lemma slice_all l : slice 0 (length l) l = l.
Proof. unfold slice. by rewrite firstn_all. Qed.

Lemma cost_concat l1 l2 : cost (l1 ++ l2) = cost l1 + cost l2.
Proof. induction l1 as [|x l1 IH]; [done |]. cbn [cost foldr app] in *. fold (cost (l1 ++ l2)) (cost l1). lia. Qed.
Lemma unlines_app l1 l2 : unlines (l1 ++ l2) = unlines l1 +:+ unlines l2.
Proof.
  induction l1 as [|x l1 IH]; [done |]. cbn [unlines foldr app] in *. fold (unlines (l1 ++ l2)) (unlines l1).
  rewrite IH. by rewrite app_assoc_str, app_cons.
Qed.
Lemma cost_slice_0 a b l : (a <= b <= length l)%nat → cost (slice a b l) = 0 → a = b.
Proof.
  intros Hab Hc. destruct (decide (a = b)) as [|Hne]; [done |].
  destruct (lookup_lt_is_Some_2 l a) as [x Hx]; [lia |].
  rewrite (slice_app a (S a) b), (slice_line _ _ _ Hx), cost_concat in Hc by lia. cbn [cost foldr] in Hc.
  unfold line_cost in Hc. lia.
Qed.

Lemma tiles_snoc from spans mid to : tiles from spans mid → (mid < to)%nat → tiles from (spans ++ [(mid, to)]) to.
Proof. revert from. induction spans as [|[a b] spans IH]; cbn; naive_solver. Qed.
Lemma tiles_le from spans to : tiles from spans to → (from <= to)%nat ∧ ∀ a b, (a, b) ∈ spans → (from <= a < b)%nat ∧ (b <= to)%nat.
Proof.
  revert from. induction spans as [|[a b] spans IH]; intros from; cbn [tiles].
  - intros ->. split; [done |]. by intros a b ?%not_elem_of_nil.
  - intros (-> & Hlt & Ht%IH). destruct Ht as [Hle Hin]. split; [lia |].
    intros a' b' [[= -> ->]|H%Hin]%elem_of_cons; lia.
Qed.

Lemma symbol_starts_spec symbols i s :
  symbol_starts symbols !! i = Some s → s ∈ symbols ∧ 0 < symbol_start s ∧ i = N.to_nat (symbol_start s - 1).
Proof.
  unfold symbol_starts.
  assert (H : ∀ m : gmap nat ExtractedSymbol,
    foldl (λ (m : gmap nat ExtractedSymbol) s, if 0 <? symbol_start s then <[N.to_nat (symbol_start s - 1) := s]> m else m) m symbols !! i = Some s →
    m !! i = Some s ∨ (s ∈ symbols ∧ 0 < symbol_start s ∧ i = N.to_nat (symbol_start s - 1))).
  { induction symbols as [|s' symbols IH]; intros m; [by left |]. cbn [foldl].
    intros [Hm|(? & ? & ?)]%IH; [| right; split; [by right | done]].
    destruct (N.ltb_spec 0 (symbol_start s')) as [Hlt|]; [| by left].
    apply lookup_insert_Some in Hm as [[Hi ->]|[_ Hm]]; [right; split; [by left | done] | by left]. }
  intros [Hn|?]%H; [by rewrite lookup_empty in Hn | done].
Qed.

Section run.
Context (lines : list string) (max_chars : N) (symbols : list ExtractedSymbol).
Context (Hsane : sane symbols).
(** A property of the lines the loop stops at. *)
Context (P : nat → Prop) (HP0 : P 0%nat).
Context (HPs : ∀ i s, (i < length lines)%nat → P i → symbol_starts symbols !! i = Some s → fits lines max_chars i s →
                 P (ends_at lines s)).
Context (HPl : ∀ i, (i < length lines)%nat → P i →
                 (∀ s, symbol_starts symbols !! i = Some s → ¬ fits lines max_chars i s) → P (S i)).

Record Inv (st : Cutting) (spans : list (nat * nat)) : Prop := {
  inv_tiles : tiles 0 spans (cut st);
  inv_out : Forall2 (λ span c, build_chunk lines span.1 span.2 symbols = Ok c) spans (out st);
  inv_bounded : Forall (bounded lines max_chars) spans;
  inv_stops : Forall (λ span, P span.2) spans;
  inv_order : (cut st <= at_line st <= length lines)%nat;
  inv_len : len st = cost (slice (cut st) (at_line st) lines);
  inv_open : len st <= max_chars ∨ at_line st = S (cut st) ∨ at_line st = cut st;
  inv_at : P (at_line st);
}.

Lemma build_chunk_ok a b : (a <= b)%nat → ∃ c, build_chunk lines a b symbols = Ok c.
Proof using Type. intros H. unfold build_chunk. destruct (Nat.ltb_spec b a); [lia | eauto]. Qed.

(** Ending the open chunk at the current line. *)
Lemma inv_close st spans c :
  Inv st spans → 0 < len st → build_chunk lines (cut st) (at_line st) symbols = Ok c →
  tiles 0 (spans ++ [(cut st, at_line st)]) (at_line st) ∧
  Forall2 (λ span c, build_chunk lines span.1 span.2 symbols = Ok c) (spans ++ [(cut st, at_line st)]) (out st ++ [c]) ∧
  Forall (bounded lines max_chars) (spans ++ [(cut st, at_line st)]) ∧
  Forall (λ span, P span.2) (spans ++ [(cut st, at_line st)]).
Proof using Type.
  intros [Ht Ho Hb Hs Hord Hl Hop Hat] Hpos Hc.
  assert (Hlt : (cut st < at_line st)%nat).
  { destruct (decide (cut st = at_line st)) as [He|]; [| lia]. rewrite He, slice_nil in Hl. cbn in Hl. lia. }
  split_and!.
  - by apply tiles_snoc.
  - apply Forall2_app; [done | by constructor].
  - apply Forall_app. split; [done |]. constructor; [| done]. unfold bounded. cbn [fst snd].
    destruct Hop as [?|[?|?]]; [left; lia | by right | lia].
  - apply Forall_app. split; [done |]. by constructor.
Qed.

Lemma flush_for_ok extra st spans :
  Inv st spans → ∃ st' spans', flush_for lines max_chars symbols extra st = Ok st' ∧ Inv st' spans' ∧
    at_line st' = at_line st ∧ (len st' + extra <= max_chars ∨ cut st' = at_line st').
Proof using Type.
  intros HI. unfold flush_for. destruct (N.ltb_spec 0 (len st)) as [Hpos|Hz]; cbn [andb].
  - destruct (N.ltb_spec max_chars (len st + extra)) as [Hgt|Hle]; [| by exists st, spans; eauto].
    destruct (build_chunk_ok (cut st) (at_line st)) as [c Hc]; [apply HI |]. rewrite Hc. cbn [mbind result_bind].
    destruct (inv_close st spans c HI Hpos Hc) as (? & ? & ? & ?). eexists _, _. split; [done |].
    split; [| cbn; split; [done | by right]]. pose proof (inv_order _ _ HI).
    split; cbn [out cut len at_line]; [done.. | lia | by rewrite slice_nil | left; lia | apply HI].
  - exists st, spans. split_and!; [done.. |]. right. pose proof (inv_len _ _ HI) as Hl. pose proof (inv_order _ _ HI).
    apply (cost_slice_0 _ _ lines); [done | lia].
Qed.

(** Growing the open chunk up to a line. *)
Lemma inv_grow st spans upto extra :
  Inv st spans → (at_line st < upto <= length lines)%nat → extra = cost (slice (at_line st) upto lines) →
  (len st + extra <= max_chars ∨ (cut st = at_line st ∧ (extra <= max_chars ∨ upto = S (at_line st)))) → P upto →
  Inv {| out := out st; cut := cut st; len := len st + extra; at_line := upto |} spans.
Proof using Type.
  intros [Ht Ho Hb Hs Hord Hl Hop Hat] Hup -> Hfit HPu. split; cbn [out cut len at_line]; [done.. | lia | | | done].
  - rewrite (slice_app (cut st) (at_line st) upto), cost_concat by lia. lia.
  - destruct Hfit as [?|[Hcut [?|?]]]; [by left | left | right; left; lia].
    assert (len st = 0) as -> by (rewrite Hl, Hcut, slice_nil; done). lia.
Qed.

Lemma take_line_ok st spans :
  Inv st spans → (at_line st < length lines)%nat → P (S (at_line st)) →
  ∃ st' spans', take_line lines max_chars symbols st = Ok st' ∧ Inv st' spans' ∧ at_line st' = S (at_line st).
Proof using Type.
  intros HI Hlt HPn. unfold take_line. destruct (lookup_lt_is_Some_2 lines (at_line st) Hlt) as [x Hx]. rewrite Hx.
  cbn [default from_option id].
  destruct (flush_for_ok (line_cost x) st spans HI) as (st1 & spans1 & -> & HI1 & Hat & Hfit). cbn [mbind result_bind].
  eexists _, spans1. split; [done |]. rewrite Hat. split; [| done].
  apply inv_grow; [done | rewrite Hat; lia | | | done].
  - rewrite Hat, (slice_line _ _ _ Hx). cbn [cost foldr]. lia.
  - destruct Hfit as [?|?]; [by left | right]. split; [done | right; lia].
Qed.

Lemma cut_step_ok st spans :
  Inv st spans → (at_line st < length lines)%nat →
  ∃ st' spans', cut_step lines max_chars symbols st = Ok st' ∧ Inv st' spans' ∧ (at_line st < at_line st')%nat.
Proof using Hsane HPs HPl.
  intros HI Hlt. unfold cut_step. destruct (symbol_starts symbols !! at_line st) as [sym|] eqn:Hsym.
  2: { destruct (take_line_ok st spans HI Hlt) as (st' & spans' & H1 & H2 & H3).
       - apply HPl; [done | apply HI | by rewrite Hsym].
       - exists st', spans'. split_and!; [done.. | lia]. }
  pose proof (symbol_starts_spec _ _ _ Hsym) as (Hin & Hpos & Hi). specialize (Hsane _ Hin).
  change (Nat.min _ _) with (ends_at lines sym). set (total := cost (slice (at_line st) (ends_at lines sym) lines)).
  assert (Hend : (at_line st < ends_at lines sym <= length lines)%nat) by (unfold ends_at; lia).
  destruct (flush_for_ok total st spans HI) as (st1 & spans1 & -> & HI1 & Hat & Hfit). cbn [mbind result_bind].
  destruct (N.ltb_spec max_chars total) as [Hgt|Hle].
  - destruct (take_line_ok st1 spans1 HI1) as (st' & spans' & H1 & H2 & H3); rewrite ?Hat in *; [done | |].
    + apply HPl; [done | apply HI |]. rewrite Hsym. intros s [= <-]. unfold fits. fold total. lia.
    + exists st', spans'. split_and!; [done.. | lia].
  - eexists _, spans1. split; [done |]. cbn [at_line]. split; [| lia].
    apply inv_grow; rewrite ?Hat; [done | done | done | | by apply (HPs (at_line st)); [| apply HI |  |]].
    destruct Hfit as [?|?]; [by left | right]. rewrite <-Hat. auto.
Qed.

Lemma cut_lines_ok fuel st spans :
  Inv st spans → (length lines - at_line st <= fuel)%nat →
  ∃ st' spans', cut_lines fuel lines max_chars symbols st = Some (Ok st') ∧ Inv st' spans' ∧ at_line st' = length lines.
Proof using Hsane HPs HPl.
  revert st spans. induction fuel as [|fuel IH]; intros st spans HI Hf; pose proof (inv_order _ _ HI); cbn [cut_lines];
    destruct (Nat.ltb_spec (at_line st) (length lines)) as [Hlt|]; [lia | exists st, spans; split_and!; [done | done | lia] | |
      exists st, spans; split_and!; [done | done | lia]].
  destruct (cut_step_ok st spans HI Hlt) as (st1 & spans1 & -> & HI1 & Hgt). apply (IH st1 spans1 HI1). lia.
Qed.

(** ** The chunk of a span, and its context. *)

Context (Hsize : N.of_nat (length lines) < 2 ^ 32).

Lemma u32_small n : (n <= length lines)%nat → u32 n = N.of_nat n.
Proof using Hsize. intros H. unfold u32. apply N.mod_small. lia. Qed.

Lemma build_chunk_describes a b c : (a < b <= length lines)%nat → build_chunk lines a b symbols = Ok c →
  chunk_start c = N.of_nat (S a) ∧ chunk_end c = N.of_nat b ∧ content c = unlines (slice a b lines) ∧
  content_hash c = content_hash_compute (content c) ∧ enclosing_symbol c = enclosing symbols (N.of_nat (S a)).
Proof using Hsize.
  intros H. unfold build_chunk. destruct (Nat.ltb_spec b a); [lia |]. intros [= <-]. cbn. rewrite !u32_small by lia. done.
Qed.

Lemma describes_first b c : (0 < b <= length lines)%nat → build_chunk lines 0 b symbols = Ok c → describes lines symbols (0%nat, b) c.
Proof using Hsize. intros H Hc. by apply build_chunk_describes in Hc. Qed.

Lemma add_overlap_describes a b c : (0 < a < b)%nat → (b <= length lines)%nat → build_chunk lines a b symbols = Ok c →
  ∃ c', add_overlap lines c = Ok c' ∧ describes lines symbols (a, b) c'.
Proof using Hsize.
  intros Hab Hb Hc. apply build_chunk_describes in Hc as (H1 & H2 & H3 & H4 & H5); [| lia].
  unfold add_overlap. rewrite H1. destruct (N.eqb_spec (N.of_nat (S a)) 0); [lia |].
  replace (N.to_nat (N.of_nat (S a) - 1)) with a by lia. eexists. split; [done |].
  destruct (Nat.ltb_spec 0 a); [| lia]. unfold describes. cbn [chunk_start chunk_end content content_hash enclosing_symbol fst snd].
  rewrite u32_small by lia. split_and!; [done | done | | done | done].
  rewrite H3, <-unlines_app. f_equal. symmetry. apply slice_app. lia.
Qed.

(** All the chunks but the first get their context. *)
Lemma overlaps_describe spans chunks from to :
  tiles from spans to → (0 < from)%nat → (to <= length lines)%nat →
  Forall2 (λ span c, build_chunk lines span.1 span.2 symbols = Ok c) spans chunks →
  ∃ chunks', result_traverse (add_overlap lines) chunks = Ok chunks' ∧ Forall2 (describes lines symbols) spans chunks'.
Proof using Hsize.
  intros Ht Hfrom Hto H. revert from Ht Hfrom. induction H as [|[a b] c spans chunks Hc _ IH]; intros from Ht Hfrom;
    [by exists [] |].
  destruct Ht as (-> & Hlt & Ht). destruct (tiles_le _ _ _ Ht) as [Hle _].
  destruct (IH b Ht ltac:(lia)) as (chunks' & Hch & Hds).
  destruct (add_overlap_describes from b c ltac:(lia) ltac:(lia) Hc) as (c' & Hc' & Hd).
  exists (c' :: chunks'). cbn [result_traverse]. rewrite Hc', Hch. split; [done | by constructor].
Qed.

Lemma finish_ok st spans :
  Inv st spans → at_line st = length lines → lines ≠ [] →
  ∃ chunks spans', finish lines symbols st = Ok chunks ∧ tiles 0 spans' (length lines) ∧
    Forall (bounded lines max_chars) spans' ∧ Forall (λ span, P span.2) spans' ∧
    Forall2 (describes lines symbols) spans' chunks.
Proof using Hsize.
  clear HPs HPl. intros HI Hat Hne. unfold finish.
  assert (∃ cs spans', (if 0 <? len st then c ← build_chunk lines (cut st) (length lines) symbols; Ok (out st ++ [c])
                        else Ok (out st)) = Ok cs ∧ tiles 0 spans' (length lines) ∧
    Forall (bounded lines max_chars) spans' ∧ Forall (λ span, P span.2) spans' ∧
    Forall2 (λ span c, build_chunk lines span.1 span.2 symbols = Ok c) spans' cs) as (cs & spans' & -> & Ht & Hb & Hs & Ho).
  { pose proof (inv_order _ _ HI). destruct (N.ltb_spec 0 (len st)) as [Hpos|Hz].
    - destruct (build_chunk_ok (cut st) (at_line st)) as [c Hc]; [lia |].
      destruct (inv_close st spans c HI Hpos Hc) as (? & ? & ? & ?). rewrite <-Hat, Hc. cbn [mbind result_bind]. eauto 10.
    - exists (out st), spans. pose proof (inv_len _ _ HI) as Hl.
      assert (cut st = at_line st) as Hcut by (apply (cost_slice_0 _ _ lines); [done | lia]).
      split_and!; [done | rewrite <-Hat, <-Hcut; apply HI | apply HI..]. }
  cbn [mbind result_bind]. destruct Ho as [|[a b] c spans' cs Hc Ho].
  { cbn in Ht. destruct lines; [done | discriminate]. }
  destruct Ht as (-> & Hlt & Ht). destruct (tiles_le _ _ _ Ht) as [Hle _].
  destruct (overlaps_describe _ _ _ _ Ht Hlt (Nat.le_refl _) Ho) as (chunks' & -> & Hds). cbn [mbind result_bind].
  exists (c :: chunks'), ((0%nat, b) :: spans'). split_and!; [done | done | done | done |].
  constructor; [| done]. apply describes_first; [lia | done].
Qed.
End run.

(** The run of the chunker on a text. *)
Lemma run_spec text max_chars symbols fuel (P : nat → Prop) :
  sane symbols → N.of_nat (length (str_lines text)) < 2 ^ 32 → (length (str_lines text) <= fuel)%nat →
  P 0%nat →
  (∀ i s, (i < length (str_lines text))%nat → P i → symbol_starts symbols !! i = Some s →
     fits (str_lines text) max_chars i s → P (ends_at (str_lines text) s)) →
  (∀ i, (i < length (str_lines text))%nat → P i →
     (∀ s, symbol_starts symbols !! i = Some s → ¬ fits (str_lines text) max_chars i s) → P (S i)) →
  ∃ chunks spans, semantic_chunk_lines fuel text max_chars symbols = Some (Ok chunks) ∧
    tiles 0 spans (length (str_lines text)) ∧ Forall (bounded (str_lines text) max_chars) spans ∧
    Forall (λ span, P span.2) spans ∧ Forall2 (describes (str_lines text) symbols) spans chunks.
Proof.
  intros Hsane Hsize Hfuel HP0 HPs HPl. unfold semantic_chunk_lines.
  destruct (str_lines text) as [|l ls] eqn:E; [exists [], []; repeat constructor |]. rewrite <-E in *.
  destruct (cut_lines_ok (str_lines text) max_chars symbols Hsane P HPs HPl fuel
              {| out := []; cut := 0; len := 0; at_line := 0 |} []) as (st & spans & -> & HI & Hat).
  - split; cbn; [done | constructor | constructor | constructor | lia | done | left; lia | done].
  - cbn. lia.
  - cbn [mbind option_bind result_bind].
    destruct (finish_ok _ _ _ P Hsize st spans HI Hat ltac:(by rewrite E)) as (chunks & spans' & -> & ? & ? & ? & ?). eauto 10.
Qed.

(** * Theorems *)


(** A symbol that fits in a chunk is not split: when no other symbol that fits
    overlaps its start, every chunk ends before it or after its end. *)
Theorem fitting_symbols_stay_whole text max_chars symbols fuel i s chunks :
  sane symbols → N.of_nat (length (str_lines text)) < 2 ^ 32 → (length (str_lines text) <= fuel)%nat →
  symbol_starts symbols !! i = Some s → fits (str_lines text) max_chars i s →
  (∀ j s', symbol_starts symbols !! j = Some s' → fits (str_lines text) max_chars j s' →
     (j < i)%nat → (ends_at (str_lines text) s' <= i)%nat ∨ (ends_at (str_lines text) s <= ends_at (str_lines text) s')%nat) →
  semantic_chunk_lines fuel text max_chars symbols = Some (Ok chunks) →
  ∀ c, c ∈ chunks → chunk_end c <= N.of_nat i ∨ N.of_nat (ends_at (str_lines text) s) <= chunk_end c.
Proof.
  intros Hsane Hsize Hfuel Hs Hfit Hother Hrun c Hc.
  destruct (run_spec text max_chars symbols fuel (λ x, (x <= i)%nat ∨ (ends_at (str_lines text) s <= x)%nat) Hsane Hsize Hfuel)
    as (chunks' & spans & Hrun' & _ & _ & Hstops & Hds).
  - left. lia.
  - intros j s' Hj [Hle|Hge] Hs' Hfit'.
    + destruct (decide (j = i)) as [->|Hne]; [right; assert (s' = s) as -> by congruence; lia |].
      destruct (Hother j s' Hs' Hfit' ltac:(lia)); [by left | by right].
    + right. pose proof (symbol_starts_spec _ _ _ Hs') as (Hin & Hpos & Hi). specialize (Hsane _ Hin).
      unfold ends_at in *. lia.
  - intros j Hj [Hle|Hge] Hno; [| right; lia]. destruct (decide (j = i)) as [->|Hne]; [by destruct (Hno s Hs) | left; lia].
  - assert (chunks' = chunks) as -> by congruence. destruct (Forall2_elem_r _ _ _ _ Hds Hc) as ([a b] & Hin & _ & -> & _).
    rewrite Forall_forall in Hstops. destruct (Hstops _ Hin); cbn [snd] in *; [left | right]; lia.
Qed.

(** A symbol that ends before it starts keeps the loop at its line for ever. *)
Theorem reversed_symbol_never_ends fuel text max_chars s :
  symbol_start s = 1 → symbol_end s = 0 → str_lines text ≠ [] →
  semantic_chunk_lines fuel text max_chars [s] = None.
Proof.
  intros Hs He Hne. unfold semantic_chunk_lines. destruct (str_lines text) as [|l ls]; [done |].
  assert (H : ∀ fuel, cut_lines fuel (l :: ls) max_chars [s] {| out := []; cut := 0; len := 0; at_line := 0 |} = None); [| by rewrite H].
  clear fuel. induction fuel as [|fuel IH]; [done |]. cbn [cut_lines length at_line Nat.ltb Nat.leb].
  unfold cut_step. cbn [at_line]. assert (symbol_starts [s] !! 0%nat = Some s) as ->.
  { unfold symbol_starts. cbn [foldl]. rewrite Hs. apply lookup_insert_eq. }
  rewrite He. cbn [N.to_nat Nat.min]. rewrite slice_nil. unfold flush_for. cbn [len N.ltb N.compare andb mbind result_bind cost foldr].
  destruct (N.ltb_spec max_chars 0); [lia |]. cbn [out cut len at_line N.add]. exact IH.
Qed.
End spec.

(** * Witnesses *)

Definition demo_text : string := "one
two
fn b {
  body
}
tail
".
Definition demo_symbol : ExtractedSymbol :=
  {| symbol_name := "b"; symbol_kind := "function"; symbol_start := 3; symbol_end := 5; symbol_metadata := None |}.
Lemma demo_sane : sane [demo_symbol].
Proof. intros s [->|Hs%not_elem_of_nil]%elem_of_cons; [| done]. vm_compute. discriminate. Qed.
Lemma demo_starts i s : symbol_starts [demo_symbol] !! i = Some s → i = 2%nat ∧ s = demo_symbol.
Proof.
  intros Hs. apply symbol_starts_spec in Hs as (Hin & _ & ->).
  apply elem_of_cons in Hin as [->|Hin%not_elem_of_nil]; [| done]. split; reflexivity.
Qed.


Definition chunks_of (r : option (result (list Chunk))) : list Chunk :=
  match r with Some (Ok cs) => cs | _ => [] end.
Lemma fitting_symbols_stay_whole_witness :
  Forall (λ c, chunk_end c <= 2 ∨ 5 <= chunk_end c)
    (chunks_of (semantic_chunk_lines (HB := toy_blake3) 6 demo_text 16 [demo_symbol])).
Proof.
  apply Forall_forall.
  apply (fitting_symbols_stay_whole (HB := toy_blake3) demo_text 16 [demo_symbol] 6 2 demo_symbol _ demo_sane).
  - vm_compute. reflexivity.
  - vm_compute. lia.
  - vm_compute. reflexivity.
  - vm_compute. discriminate.
  - intros j s' [-> ->]%demo_starts _ Hlt. lia.
  - vm_compute. reflexivity.
Defined.

Lemma reversed_symbol_never_ends_witness :
  semantic_chunk_lines (HB := toy_blake3) 100 demo_text 16
    [{| symbol_name := "b"; symbol_kind := "function"; symbol_start := 1; symbol_end := 0; symbol_metadata := None |}] = None.
Proof. apply (reversed_symbol_never_ends (HB := toy_blake3)); [reflexivity | reflexivity | vm_compute; discriminate]. Defined.

(** Three chunks; the second starts with the first as its context. *)
Example demo_chunks :
  (λ c, (chunk_start c, chunk_end c, enclosing_symbol c)) <$>
    chunks_of (semantic_chunk_lines (HB := toy_blake3) 6 demo_text 16 [demo_symbol]) =
  [(1, 2, None); (1, 5, Some "b"); (1, 6, None)].
Proof. vm_compute. reflexivity. Qed.
