(* ===== verification/DocStore.v ===== *)
(** [engram_index::docstore]: the records of chunks, the chunks of each file
    and the fingerprints of files, in three tables of one database. bincode and
    serde_json are parameters. *)
From S2P Require Import Prelude Text Unicode Store Graph Chunking.

Open Scope N_scope.

(** * Definitions *)

Record DocRecord := {
  doc_id : string;
  doc_path : string;
  doc_start_line : N;
  doc_end_line : N;
  doc_language : string;
  doc_content : string;
  content_hash : string;
  doc_namespace : string;
  doc_generation : N;
}.
Record DocSummary := { summary_namespace : string; summary_doc_id : string; summary_path : string }.
Record FileFingerprint := {
  rel_path : string;
  fp_size : N;
  mtime_ms : N;
  file_hash : string;
  mtime_ns : option N;
}.
Record LegacyFingerprint := {
  legacy_rel_path : string;
  legacy_size : N;
  legacy_mtime_ms : N;
  legacy_file_hash : string;
}.

(** The codecs. [doc_deserialize] allows trailing bytes, the two of fingerprints
    do not. *)
Class DocCodec := {
  doc_serialize : DocRecord → result bytes;
  doc_deserialize : bytes → result DocRecord;
  doc_from_json : bytes → result DocRecord;
  fp_serialize : FileFingerprint → result bytes;
  fp_deserialize : bytes → result FileFingerprint;
  legacy_deserialize : bytes → result LegacyFingerprint;
  fp_from_json : bytes → result FileFingerprint;
  doc_round_trip r b : doc_serialize r = Ok b → doc_deserialize b = Ok r;
  fp_round_trip f b : fp_serialize f = Ok b → fp_deserialize b = Ok f;
}.

Record DocDB := {
  DOC_BY_ID : gmap string bytes;
  DOCS_BY_FILE : gmap string bytes;
  FILE_FINGERPRINT : gmap string bytes;
}.
Definition with_docs (t : gmap string bytes) (db : DocDB) : DocDB :=
  {| DOC_BY_ID := t; DOCS_BY_FILE := DOCS_BY_FILE db; FILE_FINGERPRINT := FILE_FINGERPRINT db |}.
Definition with_by_file (t : gmap string bytes) (db : DocDB) : DocDB :=
  {| DOC_BY_ID := DOC_BY_ID db; DOCS_BY_FILE := t; FILE_FINGERPRINT := FILE_FINGERPRINT db |}.
Definition with_fingerprints (t : gmap string bytes) (db : DocDB) : DocDB :=
  {| DOC_BY_ID := DOC_BY_ID db; DOCS_BY_FILE := DOCS_BY_FILE db; FILE_FINGERPRINT := t |}.
Definition open_store : DocDB := {| DOC_BY_ID := ∅; DOCS_BY_FILE := ∅; FILE_FINGERPRINT := ∅ |}.

(** The keys of documents and of files, with a namespace, and of fingerprints. *)
Definition scoped_key (p ns x : string) : string := nul p (nul ns x).
Definition fp_key (p path : string) : string := nul p path.
(** The second and the third piece of [splitn(3, '\0')]. *)
Definition key_pieces (key : string) : string * string :=
  match split_once NUL key with
  | None => ("", "")
  | Some (_, rest) => match split_once NUL rest with None => (rest, "") | Some (ns, x) => (ns, x) end
  end.

(** ** Writes *)

Section docstore.
Context `{DC : !DocCodec} `{HO : !HashOrder}.

Definition de_bincode_or_json (b : bytes) : result DocRecord :=
  match doc_deserialize b with Ok v => Ok v | Fail _ => doc_from_json b end.
Definition decode_file_fingerprint (b : bytes) : result FileFingerprint :=
  match fp_deserialize b with
  | Ok current => Ok current
  | Fail _ =>
      match legacy_deserialize b with
      | Ok old =>
          Ok {| rel_path := legacy_rel_path old; fp_size := legacy_size old; mtime_ms := legacy_mtime_ms old;
                file_hash := legacy_file_hash old; mtime_ns := None |}
      | Fail _ => fp_from_json b
      end
  end.

Definition doc_row (p : string) (rec : DocRecord) : result (string * bytes) :=
  _ ← validate_key_component "namespace" (doc_namespace rec);
  _ ← validate_key_component "doc_id" (doc_id rec);
  val ← doc_serialize rec;
  Ok (scoped_key p (doc_namespace rec) (doc_id rec), val).
Definition put_rows (rows : list (string * bytes)) (t : gmap string bytes) : gmap string bytes :=
  foldl (λ t kv, <[kv.1 := kv.2]> t) t rows.

Definition put_doc (p : string) (rec : DocRecord) : DocDB → DocDB * result () :=
  guarded (_ ← validate_key_component "project_id" p; doc_row p rec) (λ row, write_tx (λ db,
    Ok (Commit tt, with_docs (put_rows [row] (DOC_BY_ID db)) db))).
Definition put_docs (p : string) (recs : list DocRecord) (db : DocDB) : DocDB * result () :=
  match recs with
  | [] => (db, Ok tt)
  | _ =>
      guarded (_ ← validate_key_component "project_id" p; result_traverse (doc_row p) recs) (λ rows, write_tx (λ db,
        Ok (Commit tt, with_docs (put_rows rows (DOC_BY_ID db)) db))) db
  end.
Definition set_docs_for_file (p ns path : string) (doc_ids : list string) : DocDB → DocDB * result () :=
  guarded
    (_ ← validate_key_component "project_id" p;
     _ ← validate_key_component "namespace" ns;
     _ ← validate_key_component "rel_path" path;
     result_traverse (validate_key_component "doc_id") doc_ids)
    (λ _, write_tx (λ db,
      Ok (Commit tt, with_by_file (<[scoped_key p ns path := join (str1 LF) doc_ids]> (DOCS_BY_FILE db)) db))).

Definition fp_row (p : string) (fp : FileFingerprint) : result (string * bytes) :=
  _ ← validate_key_component "rel_path" (rel_path fp);
  val ← fp_serialize fp;
  Ok (fp_key p (rel_path fp), val).
Definition set_fingerprint (p : string) (fp : FileFingerprint) : DocDB → DocDB * result () :=
  guarded (_ ← validate_key_component "project_id" p; fp_row p fp) (λ row, write_tx (λ db,
    Ok (Commit tt, with_fingerprints (put_rows [row] (FILE_FINGERPRINT db)) db))).
(** Checked row by row within the transaction. *)
Fixpoint insert_fingerprints (p : string) (fps : list FileFingerprint) : Tx DocDB () :=
  match fps with
  | [] => mret tt
  | fp :: rest => λ db,
      row ← fp_row p fp;
      insert_fingerprints p rest (with_fingerprints (<[row.1 := row.2]> (FILE_FINGERPRINT db)) db)
  end.
Definition set_fingerprints (p : string) (fps : list FileFingerprint) (db : DocDB) : DocDB * result () :=
  match fps with
  | [] => (db, Ok tt)
  | _ =>
      guarded (validate_key_component "project_id" p) (λ _, write_tx (λ db,
        '(_, db) ← insert_fingerprints p fps db; Ok (Commit tt, db))) db
  end.

(** ** Reads *)

Definition count_docs_for_project (p : string) (db : DocDB) : nat := length (scan (nul p "") (DOC_BY_ID db)).
Definition summary (kv : string * bytes) : option DocSummary :=
  match de_bincode_or_json kv.2 with
  | Ok rec => let '(ns, id) := key_pieces kv.1 in
              Some {| summary_namespace := ns; summary_doc_id := id; summary_path := doc_path rec |}
  | Fail _ => None
  end.
Definition list_doc_summaries_for_project (p : string) (db : DocDB) : list DocSummary :=
  omap summary (scan (nul p "") (DOC_BY_ID db)).
Definition get_doc (p ns id : string) (db : DocDB) : result (option DocRecord) :=
  transpose de_bincode_or_json (DOC_BY_ID db !! scoped_key p ns id).
Definition get_docs_for_file (p ns path : string) (db : DocDB) : list string :=
  match DOCS_BY_FILE db !! scoped_key p ns path with
  | None => []
  | Some v => let raw := from_utf8_lossy v in if String.eqb raw "" then [] else split_char LF raw
  end.
Definition get_all_docs_for_file (p ns path : string) (db : DocDB) : result (list DocRecord) :=
  recs ← result_traverse (λ id, get_doc p ns id db) (get_docs_for_file p ns path db);
  Ok (omap (λ r, r) (recs : list (option DocRecord))).
Definition get_fingerprint (p path : string) (db : DocDB) : result (option FileFingerprint) :=
  transpose decode_file_fingerprint (FILE_FINGERPRINT db !! fp_key p path).
Definition list_fingerprints (p : string) (db : DocDB) : result (list FileFingerprint) :=
  result_traverse (λ kv, decode_file_fingerprint kv.2) (scan (nul p "") (FILE_FINGERPRINT db)).
Definition list_tracked_paths (p ns : string) (db : DocDB) : list string :=
  let prefix := scoped_key p ns "" in
  (λ kv, sdrop (String.length prefix) kv.1) <$> scan prefix (DOCS_BY_FILE db).
Definition all_doc_ids_for_project (p : string) (db : DocDB) : list string :=
  (λ kv, (key_pieces kv.1).2) <$> scan (nul p "") (DOC_BY_ID db).
Definition count_one (m : gmap string nat) (ns : string) : gmap string nat := <[ns := S (default 0%nat (m !! ns))]> m.
Definition count_docs_by_namespace (p : string) (db : DocDB) : gmap string nat :=
  foldl count_one ∅ ((λ kv, (key_pieces kv.1).1) <$> scan (nul p "") (DOC_BY_ID db)).

(** ** Deletions *)

Definition drop_keys (ks : list string) (t : gmap string bytes) : gmap string bytes := foldl (λ t k, delete k t) t ks.
Definition delete_namespace (p ns : string) : DocDB → DocDB * result () :=
  write_tx (λ db,
    let prefix := scoped_key p ns "" in
    let paths := list_tracked_paths p ns db in
    Ok (Commit tt,
        {| DOC_BY_ID := drop_keys (scan prefix (DOC_BY_ID db)).*1 (DOC_BY_ID db);
           DOCS_BY_FILE := drop_keys (scan prefix (DOCS_BY_FILE db)).*1 (DOCS_BY_FILE db);
           FILE_FINGERPRINT := drop_keys (fp_key p <$> paths) (FILE_FINGERPRINT db) |})).

Definition stale_docs (prefix : string) (min_generation : N) (db : DocDB) : result (list (string * DocRecord)) :=
  recs ← result_traverse (λ kv, rec ← de_bincode_or_json kv.2; Ok (kv.1, rec)) (scan prefix (DOC_BY_ID db));
  Ok (filter (λ kr : string * DocRecord, doc_generation kr.2 < min_generation) (recs : list (string * DocRecord))).
Definition push_stale (m : gmap string (list string)) (rec : DocRecord) : gmap string (list string) :=
  <[doc_path rec := default [] (m !! doc_path rec) ++ [doc_id rec]]> m.
Definition live_ids (stale_ids : list string) (b : bytes) : list string :=
  filter (λ id, id ≠ "" ∧ id ∉ stale_ids) (str_lines (match from_utf8 b with Ok s => s | Fail _ => "" end)).
Definition reconcile (p ns : string) (t : gmap string bytes) (ps : string * list string) : gmap string bytes :=
  let file_key := scoped_key p ns ps.1 in
  match t !! file_key with
  | None => t
  | Some b =>
      match live_ids ps.2 b with
      | [] => delete file_key t
      | ids => <[file_key := join (str1 LF) ids]> t
      end
  end.
Definition purge_old_generation_docs (p ns : string) (min_generation : N) : DocDB → DocDB * result nat :=
  guarded (_ ← validate_key_component "project_id" p; validate_key_component "namespace" ns) (λ _, write_tx (λ db,
    stale ← stale_docs (scoped_key p ns "") min_generation db;
    let stale_by_path := foldl push_stale ∅ stale.*2 in
    Ok (Commit (length stale),
        {| DOC_BY_ID := drop_keys stale.*1 (DOC_BY_ID db);
           DOCS_BY_FILE := foldl (reconcile p ns) (DOCS_BY_FILE db) (iter (30, 0)%nat stale_by_path);
           FILE_FINGERPRINT := FILE_FINGERPRINT db |}))).
End docstore.
