(* ===== verification/DocStoreSpec.v ===== *)
(** What the document store promises: a database refines three maps that are
    keyed by project, namespace and name, every write is an update of those
    maps or changes nothing, and every read is a lookup in them. *)
From S2P Require Import Prelude Text Unicode Store Paths Graph GraphRows GraphSpec GraphRefine Chunking DocStore.

Open Scope N_scope.

(** * Definitions *)

(** Rows of a table that stand for the entries of a map with keys of another
    type; several byte strings may stand for one value. *)
Section stored.
Context {K V : Type} `{Countable K} (key : K → string) (good : K → Prop) (reads : K → V → bytes → Prop).
Record Stored (t : gmap string bytes) (g : gmap K V) : Prop := {
  stored_row k v : g !! k = Some v → good k ∧ ∃ b, t !! key k = Some b ∧ reads k v b;
  stored_known s b : t !! s = Some b → ∃ k v, s = key k ∧ g !! k = Some v;
}.
(** A row and the entry it stands for. *)
Definition stands_for (row : string * bytes) (kv : K * V) : Prop := row.1 = key kv.1 ∧ reads kv.1 kv.2 row.2.
End stored.

Notation Name := (string * string * string)%type.
Record DocView := {
  v_docs : gmap Name DocRecord;
  v_files : gmap Name (list string);
  v_prints : gmap (string * string) FileFingerprint;
}.
Definition empty_view : DocView := {| v_docs := ∅; v_files := ∅; v_prints := ∅ |}.

Definition name_key (k : Name) : string := scoped_key k.1.1 k.1.2 k.2.
Definition print_key (k : string * string) : string := fp_key k.1 k.2.
Definition good_name (k : Name) : Prop :=
  valid_component k.1.1 = true ∧ valid_component k.1.2 = true ∧ valid_component k.2 = true.
Definition good_print (k : string * string) : Prop := valid_component k.1 = true ∧ valid_component k.2 = true.
Definition good_id (id : string) : Prop := valid_component id = true ∧ utf8_valid id = true.

Section view.
Context `{DC : !DocCodec} `{HO : !HashOrder}.

Definition reads_doc (k : Name) (r : DocRecord) (b : bytes) : Prop :=
  de_bincode_or_json b = Ok r ∧ doc_namespace r = k.1.2 ∧ doc_id r = k.2.
Definition reads_ids (k : Name) (ids : list string) (b : bytes) : Prop := b = join (str1 LF) ids ∧ Forall good_id ids.
Definition reads_print (k : string * string) (f : FileFingerprint) (b : bytes) : Prop :=
  decode_file_fingerprint b = Ok f ∧ rel_path f = k.2.
Record RefinesDocs (db : DocDB) (V : DocView) : Prop := {
  ref_docs : Stored name_key good_name reads_doc (DOC_BY_ID db) (v_docs V);
  ref_files : Stored name_key good_name reads_ids (DOCS_BY_FILE db) (v_files V);
  ref_prints : Stored print_key good_print reads_print (FILE_FINGERPRINT db) (v_prints V);
}.

(** ** The writes on the maps *)

Definition v_put (p : string) (m : gmap Name DocRecord) (r : DocRecord) : gmap Name DocRecord :=
  <[(p, doc_namespace r, doc_id r) := r]> m.
Definition v_print (p : string) (m : gmap (string * string) FileFingerprint) (f : FileFingerprint) : gmap (string * string) FileFingerprint :=
  <[(p, rel_path f) := f]> m.
Definition in_namespace (p ns : string) (k : Name) : bool := String.eqb p k.1.1 && String.eqb ns k.1.2.
(** An old document of a path. *)
Definition stale_at (m : gmap Name DocRecord) (p ns : string) (min_generation : N) (path id : string) : bool :=
  match m !! (p, ns, id) with
  | Some r => (doc_generation r <? min_generation) && String.eqb (doc_path r) path
  | None => false
  end.
Definition stale_record (p ns : string) (min_generation : N) (kv : Name * DocRecord) : Prop :=
  in_namespace p ns kv.1 = true ∧ doc_generation kv.2 < min_generation.
Definition touched (m : gmap Name DocRecord) (p ns : string) (min_generation : N) (path : string) : bool :=
  bool_decide (map_Exists (λ k r, stale_record p ns min_generation (k, r) ∧ doc_path r = path) m).
Definition v_file (m : gmap Name DocRecord) (p ns : string) (min_generation : N) (k : Name) (ids : list string) : option (list string) :=
  if in_namespace p ns k && touched m p ns min_generation k.2 then
    match filter (λ id, stale_at m p ns min_generation k.2 id = false) ids with [] => None | live => Some live end
  else Some ids.

Inductive DocOp :=
  | OpPutDoc (p : string) (rec : DocRecord)
  | OpPutDocs (p : string) (recs : list DocRecord)
  | OpSetDocs (p ns path : string) (ids : list string)
  | OpSetPrint (p : string) (fp : FileFingerprint)
  | OpSetPrints (p : string) (fps : list FileFingerprint)
  | OpDeleteNamespace (p ns : string)
  | OpPurgeDocs (p ns : string) (min_generation : N).
Definition run_doc (op : DocOp) (db : DocDB) : DocDB * bool :=
  let done {A} (x : DocDB * result A) := (x.1, is_ok x.2) in
  match op with
  | OpPutDoc p rec => done (put_doc p rec db)
  | OpPutDocs p recs => done (put_docs p recs db)
  | OpSetDocs p ns path ids => done (set_docs_for_file p ns path ids db)
  | OpSetPrint p fp => done (set_fingerprint p fp db)
  | OpSetPrints p fps => done (set_fingerprints p fps db)
  | OpDeleteNamespace p ns => done (delete_namespace p ns db)
  | OpPurgeDocs p ns min_generation => done (purge_old_generation_docs p ns min_generation db)
  end.
Definition view_apply (op : DocOp) (V : DocView) : DocView :=
  match op with
  | OpPutDoc p rec => {| v_docs := v_put p (v_docs V) rec; v_files := v_files V; v_prints := v_prints V |}
  | OpPutDocs p recs => {| v_docs := foldl (v_put p) (v_docs V) recs; v_files := v_files V; v_prints := v_prints V |}
  | OpSetDocs p ns path ids => {| v_docs := v_docs V; v_files := <[(p, ns, path) := ids]> (v_files V); v_prints := v_prints V |}
  | OpSetPrint p fp => {| v_docs := v_docs V; v_files := v_files V; v_prints := v_print p (v_prints V) fp |}
  | OpSetPrints p fps => {| v_docs := v_docs V; v_files := v_files V; v_prints := foldl (v_print p) (v_prints V) fps |}
  | OpDeleteNamespace p ns =>
      {| v_docs := drop_matching (in_namespace p ns) (v_docs V);
         v_files := drop_matching (in_namespace p ns) (v_files V);
         v_prints := drop_matching (λ k, String.eqb p k.1 && bool_decide (is_Some (v_files V !! (p, ns, k.2)))) (v_prints V) |}
  | OpPurgeDocs p ns g =>
      {| v_docs := filter (λ kv, ¬ stale_record p ns g kv) (v_docs V);
         v_files := map_imap (v_file (v_docs V) p ns g) (v_files V);
         v_prints := v_prints V |}
  end.
(** The arguments are text; names that are not checked hold no NUL. *)
Definition doc_op_typed (op : DocOp) : Prop :=
  match op with
  | OpSetDocs _ _ _ ids => Forall (λ id, utf8_valid id = true) ids
  | OpDeleteNamespace p ns => clean p ∧ clean ns
  | _ => True
  end.
(** A database and its maps after some writes, those that fail included. *)
Definition history (ops : list DocOp) : DocDB * DocView :=
  foldl (λ '(db, V) op, let '(db', ok) := run_doc op db in (db', if ok : bool then view_apply op V else V))
        (open_store, empty_view) ops.
End view.

(** Every write of the document store refines its update of the three maps, and
    every read is one of theirs. *)

Open Scope N_scope.

(** * Lemmas *)

Lemma size_filter {K V} `{Countable K} (P : K * V → Prop) `{!∀ kv, Decision (P kv)} (m : gmap K V) :
  size (filter P m) = length (filter P (map_to_list m)).
Proof.
  rewrite map_filter_alt, <-length_map_to_list. apply Permutation_length, map_to_list_to_map.
  apply NoDup_fst_filter, NoDup_fst_map_to_list.
Qed.

(** ** Rows that stand for entries *)

Section stored.
Context {K V : Type} `{Countable K} (key : K → string) (good : K → Prop) (reads : K → V → bytes → Prop).
Context (key_inj : ∀ k k', good k → good k' → key k = key k' → k = k').
Notation Stored := (Stored key good reads).

Lemma stored_known_good t g s b : Stored t g → t !! s = Some b → ∃ k v, s = key k ∧ good k ∧ g !! k = Some v ∧ reads k v b.
Proof.
  intros [Hr Hk] Hs. destruct (Hk s b Hs) as (k & v & -> & Hv). destruct (Hr k v Hv) as (Hg & b' & Hb & Hread).
  exists k, v. split_and!; try done. congruence.
Qed.
Lemma stored_lookup t g k :
  Stored t g → good k → match g !! k with Some v => ∃ b, t !! key k = Some b ∧ reads k v b | None => t !! key k = None end.
Proof.
  intros HS Hk. destruct (g !! k) as [v|] eqn:E; [by apply (stored_row _ _ _ _ _ HS) in E as [_ ?] |].
  destruct (t !! key k) as [b|] eqn:Eb; [| done].
  apply (stored_known_good _ _ _ _ HS) in Eb as (k' & v & Heq & Hk' & Hv & _).
  apply key_inj in Heq as <-; [congruence | done..].
Qed.
Lemma stored_empty : Stored ∅ ∅.
Proof. split; intros ? ?; rewrite lookup_empty; done. Qed.
Lemma stored_insert t g k v b : Stored t g → good k → reads k v b → Stored (<[key k := b]> t) (<[k := v]> g).
Proof.
  intros HS Hk Hread. split.
  - intros k' v' [[<- <-]|[Hne Hv]]%lookup_insert_Some; [split; [done |]; exists b; by rewrite lookup_insert_eq |].
    destruct (stored_row _ _ _ _ _ HS _ _ Hv) as (Hk' & b' & Hb & Hr). split; [done |]. exists b'.
    rewrite lookup_insert_ne; [done |]. intros Heq. apply Hne. by apply key_inj.
  - intros s b' [[<- <-]|[Hne Hs]]%lookup_insert_Some; [exists k, v; by rewrite lookup_insert_eq |].
    destruct (stored_known _ _ _ _ _ HS _ _ Hs) as (k' & v' & -> & Hv). exists k', v'. split; [done |].
    rewrite lookup_insert_ne; [done |]. by intros ->.
Qed.
(** Rows that are removed with their entries. *)
Lemma stored_filter t g t' (P : K * V → Prop) `{!∀ kv, Decision (P kv)} :
  Stored t g → (∀ k v, good k → g !! k = Some v → t' !! key k = if decide (P (k, v)) then t !! key k else None) →
  (∀ s b, t' !! s = Some b → t !! s = Some b) → Stored t' (filter P g).
Proof.
  intros HS Ht' Hsub. split.
  - intros k v [Hv HP]%map_lookup_filter_Some. destruct (stored_row _ _ _ _ _ HS _ _ Hv) as (Hk & b & Hb & Hr).
    split; [done |]. exists b. by rewrite (Ht' k v), decide_True.
  - intros s b Hs. destruct (stored_known_good _ _ _ _ HS (Hsub _ _ Hs)) as (k & v & -> & Hk & Hv & _).
    exists k, v. split; [done |]. apply map_lookup_filter_Some. split; [done |].
    rewrite (Ht' k v) in Hs by done. by destruct (decide (P (k, v))).
Qed.
Lemma stored_drop t g t' (P : K → bool) (Q : string → bool) :
  Stored t g → (∀ s, t' !! s = if Q s then None else t !! s) → (∀ k, good k → Q (key k) = P k) →
  Stored t' (drop_matching P g).
Proof.
  intros HS Ht' HQ. apply (stored_filter t); [done | |].
  - intros k v Hk Hv. rewrite Ht', HQ by done. cbn [fst]. by destruct (P k).
  - intros s b. rewrite Ht'. by destruct (Q s).
Qed.
(** The rows under a prefix, with what they stand for. *)
Lemma stored_scan t g prefix (P : K → bool) :
  Stored t g → (∀ k, good k → starts_with prefix (key k) = P k) →
  ∃ l, Forall2 (stands_for key reads) (scan prefix t) l ∧ l ≡ₚ filter (λ kv, P kv.1 = true) (map_to_list g).
Proof.
  intros HS HP.
  assert (Hall : ∀ row, row ∈ scan prefix t → ∃ kv, stands_for key reads row kv ∧ good kv.1 ∧ g !! kv.1 = Some kv.2 ∧ P kv.1 = true).
  { intros [s b] [Hp Hs]%elem_of_scan. destruct (stored_known_good _ _ _ _ HS Hs) as (k & v & -> & Hk & Hv & Hr).
    exists (k, v). cbn. by rewrite <-HP. }
  assert (Hl : ∃ l, Forall2 (λ row kv, stands_for key reads row kv ∧ good kv.1 ∧ g !! kv.1 = Some kv.2 ∧ P kv.1 = true) (scan prefix t) l).
  { revert Hall. generalize (scan prefix t). intros rs. induction rs as [|row rs IH]; intros Hall; [by exists [] |].
    destruct (Hall row) as [kv Hkv]; [set_solver |]. destruct IH as [l Hl]; [set_solver |]. exists (kv :: l). by constructor. }
  destruct Hl as [l Hl]. exists l. split; [eapply Forall2_impl; [exact Hl | naive_solver] |].
  assert (Hkeys : (scan prefix t).*1 = key <$> l.*1).
  { clear -Hl. induction Hl as [|row kv rs l (Hs & _) _ IH]; [done |]. cbn. destruct Hs as [-> _]. by rewrite <-IH. }
  apply NoDup_Permutation.
  - eapply NoDup_fmap_1, NoDup_fmap_1. rewrite <-Hkeys. apply (proj1 (scan_finds prefix bytes t)).
  - apply NoDup_filter, NoDup_map_to_list.
  - intros [k v]. rewrite list_elem_of_filter, elem_of_map_to_list. cbn [fst snd]. split.
    + intros Hin. destruct (Forall2_elem_r _ _ _ _ Hl Hin) as (row & _ & _ & _ & Hv & HPk). done.
    + intros [HPk Hv]. destruct (stored_row _ _ _ _ _ HS _ _ Hv) as (Hk & b & Hb & Hr).
      assert (Hrow : (key k, b) ∈ scan prefix t) by (apply elem_of_scan; by rewrite HP).
      destruct (Forall2_elem_l _ _ _ _ Hl Hrow) as ([k' v'] & Hin & [Heq _] & Hk' & Hv' & _). cbn in *.
      apply key_inj in Heq as <-; [| done..]. congruence.
Qed.
End stored.

(** ** Keys *)

Lemma component_clean s : valid_component s = true → clean s.
Proof. apply valid_component_no_NUL. Qed.
Lemma name_key_inj k k' : good_name k → good_name k' → name_key k = name_key k' → k = k'.
Proof.
  destruct k as [[p ns] x], k' as [[p' ns'] x']. unfold good_name, name_key, scoped_key. cbn.
  intros (?%component_clean & ?%component_clean & _) (?%component_clean & ?%component_clean & _) [-> [-> ->]%nul_inj]%nul_inj; done.
Qed.
Lemma print_key_inj k k' : good_print k → good_print k' → print_key k = print_key k' → k = k'.
Proof.
  destruct k as [p x], k' as [p' x']. unfold good_print, print_key, fp_key. cbn.
  intros (?%component_clean & _) (?%component_clean & _) [-> ->]%nul_inj; done.
Qed.
Lemma in_namespace_spec p ns k : in_namespace p ns k = true ↔ k.1.1 = p ∧ k.1.2 = ns.
Proof. unfold in_namespace. rewrite andb_true_iff, !String.eqb_eq. naive_solver. Qed.
Lemma scoped_key_app p ns x : scoped_key p ns x = scoped_key p ns "" +:+ x.
Proof. unfold scoped_key, nul. by rewrite !app_assoc_str, app_cons, app_assoc_str, app_cons, app_nil_l. Qed.
Lemma namespace_prefix p ns k : clean p → clean ns → good_name k → starts_with (scoped_key p ns "") (name_key k) = in_namespace p ns k.
Proof.
  destruct k as [[p' ns'] x]. unfold scoped_key, name_key, in_namespace. cbn.
  intros Hp Hns (?%component_clean & ?%component_clean & _). unfold scoped_key.
  rewrite !starts_with_nul, starts_with_empty, andb_true_r by done.
  apply eq_true_iff_eq. by rewrite !andb_true_iff, !bool_decide_eq_true, !String.eqb_eq.
Qed.
Lemma project_prefix_name p k : clean p → good_name k → starts_with (nul p "") (name_key k) = String.eqb p k.1.1.
Proof.
  destruct k as [[p' ns'] x]. unfold name_key, scoped_key. cbn. intros Hp (?%component_clean & _).
  rewrite starts_with_nul, starts_with_empty, andb_true_r by done.
  apply eq_true_iff_eq. by rewrite bool_decide_eq_true, String.eqb_eq.
Qed.
Lemma project_prefix_print p k : clean p → good_print k → starts_with (nul p "") (print_key k) = String.eqb p k.1.
Proof.
  destruct k as [p' x]. unfold print_key, fp_key. cbn. intros Hp (?%component_clean & _).
  rewrite starts_with_nul, starts_with_empty, andb_true_r by done.
  apply eq_true_iff_eq. by rewrite bool_decide_eq_true, String.eqb_eq.
Qed.
Lemma key_pieces_name k : good_name k → key_pieces (name_key k) = (k.1.2, k.2).
Proof.
  destruct k as [[p ns] x]. unfold good_name, name_key, scoped_key, key_pieces. cbn.
  intros (?%component_clean & ?%component_clean & _). by rewrite !split_once_nul.
Qed.
Lemma lookup_drop_keys ks (t : gmap string bytes) s : drop_keys ks t !! s = if decide (s ∈ ks) then None else t !! s.
Proof. apply lookup_delete_list. Qed.

(** ** Lists of documents *)

Lemma good_ids_no_char c ids :
  c = LF ∨ c = CR → Forall good_id ids → Forall (λ s, contains_char c s = false) ids.
Proof.
  intros Hc Hids. eapply Forall_impl; [exact Hids |]. intros s [Hv _]. unfold valid_component in Hv.
  rewrite !andb_true_iff, !negb_true_iff in Hv. destruct Hc as [-> | ->]; tauto.
Qed.
Lemma good_id_nonempty id : good_id id → id ≠ "".
Proof. intros [Hv _]. by apply valid_component_nonempty. Qed.
Lemma join_empty ids : Forall good_id ids → join (str1 LF) ids = "" → ids = [].
Proof.
  intros Hids Hj. destruct Hids as [|id ids Hid _]; [done |]. exfalso. apply (good_id_nonempty id Hid).
  destruct ids as [|id' ids]; [done |]. change (join (str1 LF) (id :: id' :: ids)) with (id +:+ str1 LF +:+ join (str1 LF) (id' :: ids)) in Hj.
  by destruct id.
Qed.
Lemma utf8_join_ids ids : Forall good_id ids → utf8_valid (join (str1 LF) ids) = true.
Proof. intros Hids. apply utf8_valid_join; [done |]. eapply Forall_impl; [exact Hids |]. by intros ? [_ ?]. Qed.
Lemma strip_cr_none s : contains_char CR s = false → strip_cr s = s.
Proof.
  induction s as [|c s IH]; intros Hs; [done |]. rewrite contains_char_cons in Hs. apply orb_false_iff in Hs as [Hc Hs].
  cbn [strip_cr]. destruct s; [by rewrite Ascii.eqb_sym, Hc | by rewrite IH].
Qed.
Lemma unterminated_lines l : l ≠ [] → Forall (λ s, contains_char CR s = false ∧ s ≠ "") l → unterminated l = l.
Proof.
  intros Hne Hl. induction Hl as [|s l [Hs Hs'] Hl IH]; [done |]. cbn [unterminated].
  destruct l as [|t l]; [by destruct s | rewrite strip_cr_none by done; by rewrite IH].
Qed.
Lemma lines_of_join ids : Forall good_id ids → str_lines (join (str1 LF) ids) = ids.
Proof.
  intros Hids. destruct (decide (ids = [])) as [->|Hne]; [done |]. unfold str_lines.
  rewrite split_join; [| done | by apply good_ids_no_char; [left |]].
  apply unterminated_lines; [done |]. pose proof (good_ids_no_char CR ids (or_intror eq_refl) Hids) as Hcr.
  rewrite Forall_forall in *. intros s Hs. split; [by apply Hcr | by apply good_id_nonempty, Hids].
Qed.
Lemma read_ids db p ns path ids :
  DOCS_BY_FILE db !! scoped_key p ns path = Some (join (str1 LF) ids) → Forall good_id ids →
  get_docs_for_file p ns path db = ids.
Proof.
  intros Hb Hids. unfold get_docs_for_file. rewrite Hb, lossy_valid by by apply utf8_join_ids. cbv zeta.
  destruct (String.eqb_spec (join (str1 LF) ids) "") as [Hj|Hj]; [symmetry; by apply join_empty |].
  apply split_join; [by intros -> | by apply good_ids_no_char; [left |]].
Qed.

(** ** The writes *)

Section writes.
Context `{DC : !DocCodec} `{HO : !HashOrder}.

Lemma doc_row_Ok p r row :
  valid_component p = true → doc_row p r = Ok row →
  let k := (p, doc_namespace r, doc_id r) in good_name k ∧ row.1 = name_key k ∧ reads_doc k r row.2.
Proof.
  intros Hp H. unfold doc_row in H.
  apply result_bind_Ok in H as ([] & Hns%validate_key_component_Ok & H).
  apply result_bind_Ok in H as ([] & Hid%validate_key_component_Ok & H).
  apply result_bind_Ok in H as (b & Hb%doc_round_trip & [= <-]).
  split_and!; try done. split_and!; try done. cbn [snd]. unfold de_bincode_or_json. by rewrite Hb.
Qed.
Lemma fp_row_Ok p f row :
  valid_component p = true → fp_row p f = Ok row →
  let k := (p, rel_path f) in good_print k ∧ row.1 = print_key k ∧ reads_print k f row.2.
Proof.
  intros Hp H. unfold fp_row in H.
  apply result_bind_Ok in H as ([] & Hpath%validate_key_component_Ok & H).
  apply result_bind_Ok in H as (b & Hb%fp_round_trip & [= <-]).
  split_and!; try done. split_and!; try done. cbn [snd]. unfold decode_file_fingerprint. by rewrite Hb.
Qed.
Lemma stored_put_docs p recs rows t g :
  valid_component p = true → Forall2 (λ r row, doc_row p r = Ok row) recs rows →
  Stored name_key good_name reads_doc t g →
  Stored name_key good_name reads_doc (put_rows rows t) (foldl (v_put p) g recs).
Proof.
  intros Hp Hrows. revert t g. induction Hrows as [|r [s b] recs rows Hr _ IH]; intros t g HS; [done |].
  cbn [put_rows foldl]. apply IH. destruct (doc_row_Ok p r (s, b) Hp Hr) as (Hk & Hs & Hread). cbn [fst snd] in *. subst s.
  unfold v_put. by apply (stored_insert _ _ _ name_key_inj).
Qed.
Lemma stored_set_prints p fps db u db' g :
  valid_component p = true → insert_fingerprints p fps db = Ok (u, db') →
  Stored print_key good_print reads_print (FILE_FINGERPRINT db) g →
  Stored print_key good_print reads_print (FILE_FINGERPRINT db') (foldl (v_print p) g fps) ∧
  DOC_BY_ID db' = DOC_BY_ID db ∧ DOCS_BY_FILE db' = DOCS_BY_FILE db.
Proof.
  intros Hp. revert db g. induction fps as [|f fps IH]; intros db g H HS; cbn [insert_fingerprints foldl] in *.
  - by injection H as <- <-.
  - apply result_bind_Ok in H as ([s b] & Hf & H). destruct (fp_row_Ok p f (s, b) Hp Hf) as (Hk & Hs & Hread). cbn [fst snd] in *. subst s.
    apply (IH _ (v_print p g f)) in H; [done |]. cbn [with_fingerprints FILE_FINGERPRINT].
    by apply (stored_insert _ _ _ print_key_inj).
Qed.

Lemma lookup_drop_scan prefix (t : gmap string bytes) s :
  drop_keys (scan prefix t).*1 t !! s = if starts_with prefix s then None else t !! s.
Proof.
  rewrite lookup_drop_keys. destruct (scan_finds prefix bytes t) as [_ Hf]. pose proof (Hf s) as Hfs.
  destruct (starts_with prefix s); destruct (decide (s ∈ (scan prefix t).*1)) as [Hin|Hout]; try done.
  - destruct (t !! s) eqn:E; [| done]. exfalso. apply Hout, Hfs. eauto.
  - by apply Hfs in Hin as [? _].
Qed.

(** The paths of a namespace are those with a list of documents. *)
Lemma tracked_paths db V p ns :
  RefinesDocs db V → clean p → clean ns →
  ∃ l, list_tracked_paths p ns db = (λ kv : Name * list string, kv.1.2) <$> l ∧
       l ≡ₚ filter (λ kv, in_namespace p ns kv.1 = true) (map_to_list (v_files V)).
Proof.
  intros HR Hp Hns.
  destruct (stored_scan _ _ _ name_key_inj _ _ _ _ (ref_files _ _ HR) (λ k, namespace_prefix p ns k Hp Hns)) as (l & Hl & Hperm).
  exists l. split; [| done]. unfold list_tracked_paths. cbv zeta.
  assert (Hin : Forall (λ kv : Name * list string, in_namespace p ns kv.1 = true) l).
  { apply Forall_forall. intros kv. rewrite Hperm. by intros [? _]%list_elem_of_filter. }
  clear Hperm. induction Hl as [|row kv rows l [Hrow _] _ IH]; [done |]. apply Forall_cons in Hin as [Hk Hin].
  cbn. rewrite IH by done. f_equal. apply in_namespace_spec in Hk as [Hkp Hkns]. rewrite Hrow.
  unfold name_key. rewrite Hkp, Hkns, (scoped_key_app p ns kv.1.2). by rewrite sdrop_app.
Qed.
Lemma elem_of_tracked_paths db V p ns path :
  RefinesDocs db V → clean p → clean ns →
  path ∈ list_tracked_paths p ns db ↔ is_Some (v_files V !! (p, ns, path)).
Proof.
  intros HR Hp Hns. destruct (tracked_paths db V p ns HR Hp Hns) as (l & -> & Hperm). rewrite list_elem_of_fmap. split.
  - intros ([[[p' ns'] x] ids] & -> & Hin). rewrite Hperm in Hin.
    apply list_elem_of_filter in Hin as [Hk Hin%elem_of_map_to_list].
    apply in_namespace_spec in Hk as [Hk1 Hk2]. cbn in *. subst. by eexists.
  - intros [ids Hids]. exists ((p, ns, path), ids). split; [done |]. rewrite Hperm. apply list_elem_of_filter.
    split; [by apply in_namespace_spec | by apply elem_of_map_to_list].
Qed.

Lemma refines_delete_namespace db V p ns :
  RefinesDocs db V → clean p → clean ns →
  RefinesDocs (delete_namespace p ns db).1 (view_apply (OpDeleteNamespace p ns) V).
Proof.
  intros HR Hp Hns. split; cbn [delete_namespace write_tx fst view_apply DOC_BY_ID DOCS_BY_FILE FILE_FINGERPRINT v_docs v_files v_prints].
  - eapply stored_drop; [apply HR | apply lookup_drop_scan | intros k; by apply namespace_prefix].
  - eapply stored_drop; [apply HR | apply lookup_drop_scan | intros k; by apply namespace_prefix].
  - apply (stored_drop _ _ _ (FILE_FINGERPRINT db) _ _ _ (λ s, bool_decide (s ∈ fp_key p <$> list_tracked_paths p ns db))).
    + apply HR.
    + intros s. rewrite lookup_drop_keys. by case_bool_decide; case_decide.
    + intros [p' x] [Hp'%component_clean _]. unfold print_key. cbn [fst snd] in *. apply eq_true_iff_eq.
      rewrite andb_true_iff, !bool_decide_eq_true, String.eqb_eq, list_elem_of_fmap. split.
      * intros (y & [-> ->]%nul_inj & Hy); [| done..]. split; [done |]. by apply (elem_of_tracked_paths db V).
      * intros [-> Hx]. exists x. split; [done |]. by apply (elem_of_tracked_paths db V).
Qed.

(** ** The purge *)

(** The old documents of a namespace, in the order of their keys. *)
Lemma stale_docs_spec db V p ns g :
  RefinesDocs db V → clean p → clean ns →
  ∃ l, stale_docs (scoped_key p ns "") g db = Ok ((λ kv : Name * DocRecord, (name_key kv.1, kv.2)) <$> l) ∧
       l ≡ₚ filter (stale_record p ns g) (map_to_list (v_docs V)).
Proof.
  intros HR Hp Hns.
  destruct (stored_scan _ _ _ name_key_inj _ _ _ _ (ref_docs _ _ HR) (λ k, namespace_prefix p ns k Hp Hns)) as (l & Hl & Hperm).
  exists (filter (λ kv, doc_generation kv.2 < g) l). split.
  - unfold stale_docs. assert (Ht : result_traverse (λ kv : string * bytes, rec ← de_bincode_or_json kv.2; Ok (kv.1, rec))
        (scan (scoped_key p ns "") (DOC_BY_ID db)) = Ok ((λ kv : Name * DocRecord, (name_key kv.1, kv.2)) <$> l)).
    { apply result_traverse_Ok. clear Hperm. induction Hl as [|row kv rows l [Hk (Hr & _)] _ IH]; constructor; [| done].
      by rewrite Hr, Hk. }
    rewrite Ht. cbn [mbind result_bind]. f_equal. clear. induction l as [|kv l IH]; [done |].
    cbn [fmap list_fmap]. rewrite !filter_cons. cbn [snd]. case_decide; cbn [fmap list_fmap]; by rewrite IH.
  - rewrite Hperm, list_filter_filter. erewrite list_filter_iff; [reflexivity |]. intros [k r]. unfold stale_record. cbn. tauto.
Qed.

Lemma lookup_push_stale recs path :
  foldl push_stale ∅ recs !! path =
    match filter (λ r, doc_path r = path) recs with [] => None | rs => Some (doc_id <$> rs) end.
Proof.
  induction recs as [|r recs IH] using rev_ind; [done |].
  rewrite foldl_app. cbn [foldl]. unfold push_stale at 1. rewrite filter_app, filter_cons, filter_nil.
  destruct (decide (doc_path r = path)) as [->|Hne].
  - rewrite lookup_insert_eq, IH. destruct (filter _ recs); [done |]. cbn [default id app fmap list_fmap].
    rewrite fmap_app. done.
  - by rewrite lookup_insert_ne, IH, app_nil_r.
Qed.

Definition reconciled (stale_ids : list string) (o : option bytes) : option bytes :=
  b ← o; match live_ids stale_ids b with [] => None | ids => Some (join (str1 LF) ids) end.
Lemma lookup_reconcile p ns ps (t : gmap string bytes) s :
  reconcile p ns t ps !! s = if decide (s = scoped_key p ns ps.1) then reconciled ps.2 (t !! s) else t !! s.
Proof.
  unfold reconcile, reconciled. cbv zeta. destruct (decide (s = scoped_key p ns ps.1)) as [->|Hne].
  - destruct (t !! scoped_key p ns ps.1) as [b|] eqn:E; cbn [mbind option_bind]; [| done].
    destruct (live_ids ps.2 b); [by rewrite lookup_delete_eq | by rewrite lookup_insert_eq].
  - destruct (t !! scoped_key p ns ps.1) as [b|]; [| done].
    destruct (live_ids ps.2 b); [by rewrite lookup_delete_ne | by rewrite lookup_insert_ne].
Qed.
Lemma scoped_key_inj_r p ns x y : scoped_key p ns x = scoped_key p ns y → x = y.
Proof. rewrite (scoped_key_app p ns x), (scoped_key_app p ns y). apply app_inj_l. Qed.
Lemma lookup_reconcile_all p ns (m : gmap string (list string)) l (t : gmap string bytes) s :
  l ≡ₚ map_to_list m →
  foldl (reconcile p ns) t l !! s =
    match strip_prefix (scoped_key p ns "") s ≫= λ path, m !! path with Some ids => reconciled ids (t !! s) | None => t !! s end.
Proof.
  intros Hl. assert (Hn : NoDup l.*1) by (rewrite Hl; apply NoDup_fst_map_to_list).
  assert (Hin : ∀ path ids, (path, ids) ∈ l ↔ m !! path = Some ids) by (intros; by rewrite Hl, elem_of_map_to_list).
  destruct (strip_prefix (scoped_key p ns "") s) as [path|] eqn:Hs; cbn [mbind option_bind].
  - apply strip_prefix_Some in Hs as ->. rewrite <-scoped_key_app.
    assert (Hgen : ∀ l t, NoDup l.*1 → foldl (reconcile p ns) t l !! scoped_key p ns path =
      match (list_to_map l : gmap string (list string)) !! path with Some ids => reconciled ids (t !! scoped_key p ns path) | None => t !! scoped_key p ns path end).
    { clear. induction l as [|[path' ids] l IH]; intros t Hn; [done |]. cbn in Hn. apply NoDup_cons in Hn as [Hout Hn].
      cbn [foldl]. rewrite IH, lookup_reconcile by done. cbn [fst snd list_to_map foldr].
      destruct (decide (path' = path)) as [->|Hne].
      - rewrite lookup_insert_eq, decide_True by done. by rewrite not_elem_of_list_to_map_1.
      - rewrite lookup_insert_ne by done. rewrite decide_False; [done |]. intros Heq%scoped_key_inj_r. done. }
    rewrite Hgen by done. assert ((list_to_map l : gmap string (list string)) = m) as ->; [| done].
    rewrite (list_to_map_proper l (map_to_list m)) by done. apply list_to_map_to_list.
  - assert (Hno : ∀ path, s ≠ scoped_key p ns path).
    { intros path ->. pose proof (strip_prefix_app (scoped_key p ns "") path) as Hsp. rewrite <-scoped_key_app in Hsp. congruence. }
    clear -Hno. revert t. induction l as [|ps l IH]; intros t; [done |]. cbn [foldl]. rewrite IH, lookup_reconcile.
    by rewrite decide_False.
Qed.

Section purge.
Context (db : DocDB) (V : DocView) (p ns : string) (g : N) (l : list (Name * DocRecord)).
Context (HR : RefinesDocs db V) (Hp : clean p) (Hns : clean ns).
Context (Hl : l ≡ₚ filter (stale_record p ns g) (map_to_list (v_docs V))).

Lemma elem_of_stale k r : (k, r) ∈ l ↔ stale_record p ns g (k, r) ∧ v_docs V !! k = Some r.
Proof. by rewrite Hl, list_elem_of_filter, elem_of_map_to_list. Qed.
Lemma stale_name k r : (k, r) ∈ l → good_name k ∧ k = (p, ns, doc_id r).
Proof.
  intros [[Hk _] Hr]%elem_of_stale. destruct (stored_row _ _ _ _ _ (ref_docs _ _ HR) _ _ Hr) as (Hg & b & _ & _ & _ & Hid).
  split; [done |]. apply in_namespace_spec in Hk as [H1 H2]. destruct k as [[p' ns'] x]. cbn in *. congruence.
Qed.

Lemma stored_purge_docs t' :
  (∀ s, t' !! s = if decide (s ∈ name_key <$> l.*1) then None else DOC_BY_ID db !! s) →
  Stored name_key good_name reads_doc t' (filter (λ kv, ¬ stale_record p ns g kv) (v_docs V)).
Proof.
  intros Ht'. apply (stored_filter _ _ _ (DOC_BY_ID db)); [apply HR | |].
  - intros k r Hk Hr. rewrite Ht'.
    assert (Hiff : name_key k ∈ name_key <$> l.*1 ↔ stale_record p ns g (k, r)).
    { rewrite !list_elem_of_fmap. split.
      - intros (k' & Heq & ([? r'] & -> & Hin)%list_elem_of_fmap). pose proof (stale_name _ _ Hin) as [Hk' _].
        apply name_key_inj in Heq as ->; [| done..]. apply elem_of_stale in Hin as [Hst Hr']. cbn in *. by simplify_eq.
      - intros Hst. exists k. split; [done |]. apply list_elem_of_fmap. exists (k, r). by rewrite elem_of_stale. }
    destruct (decide (name_key k ∈ name_key <$> l.*1)), (decide (¬ stale_record p ns g (k, r))); tauto.
  - intros s b. rewrite Ht'. by case_decide.
Qed.

Definition stale_ids (path : string) : list string := doc_id <$> filter (λ r, doc_path r = path) l.*2.
Lemma elem_of_stale_ids path id : id ∈ stale_ids path ↔ stale_at (v_docs V) p ns g path id = true.
Proof.
  unfold stale_ids, stale_at. rewrite list_elem_of_fmap. setoid_rewrite list_elem_of_filter. split.
  - intros (r & -> & Hpath & ([k ?] & -> & Hin)%list_elem_of_fmap). cbn [snd] in *.
    pose proof (stale_name _ _ Hin) as [_ ->]. apply elem_of_stale in Hin as [[_ Hg] ->]. cbn in *.
    by rewrite (proj2 (N.ltb_lt _ _) Hg), Hpath, String.eqb_refl.
  - destruct (v_docs V !! (p, ns, id)) as [r|] eqn:E; [| done]. intros [Hg%N.ltb_lt Hpath%String.eqb_eq]%andb_true_iff.
    assert (Hin : ((p, ns, id), r) ∈ l) by (apply elem_of_stale; split; [split; [by apply in_namespace_spec | done] | done]).
    exists r. split_and!; [by destruct (stale_name _ _ Hin) as [_ [= ->]] | done |].
    apply list_elem_of_fmap. by exists ((p, ns, id), r).
Qed.
Lemma touched_spec path : touched (v_docs V) p ns g path = true ↔ stale_ids path ≠ [].
Proof.
  unfold touched. rewrite bool_decide_eq_true. split.
  - intros (k & r & Hr & Hst & Hpath) Hnil.
    assert (Hin : (k, r) ∈ l) by by apply elem_of_stale.
    assert (Hid : doc_id r ∈ stale_ids path); [| rewrite Hnil in Hid; by apply elem_of_nil in Hid].
    apply list_elem_of_fmap. exists r. split; [done |]. apply list_elem_of_filter. split; [done |].
    apply list_elem_of_fmap. by exists (k, r).
  - intros Hne. destruct (stale_ids path) as [|id ids] eqn:E; [done |].
    assert (Hid : id ∈ stale_ids path) by (rewrite E; left).
    apply list_elem_of_fmap in Hid as (r0 & _ & [Hpath ([k r] & -> & Hin)%list_elem_of_fmap]%list_elem_of_filter).
    apply elem_of_stale in Hin as [Hst Hr]. by exists k, r.
Qed.

Lemma live_ids_join path ids :
  Forall good_id ids →
  live_ids (stale_ids path) (join (str1 LF) ids) = filter (λ id, stale_at (v_docs V) p ns g path id = false) ids.
Proof.
  intros Hids. unfold live_ids, from_utf8. rewrite utf8_join_ids, lines_of_join by done.
  pose proof (elem_of_stale_ids path) as Helem.
  induction Hids as [|id ids Hid _ IH]; [done |]. rewrite !filter_cons, IH. pose proof (Helem id) as Hiff. pose proof (good_id_nonempty id Hid).
  destruct (stale_at (v_docs V) p ns g path id).
  - rewrite decide_False by tauto. by rewrite decide_False.
  - rewrite decide_True by (split; [done | intros ?%Hiff; done]). by rewrite decide_True.
Qed.

Context (st : list (string * list string)) (Hst : st ≡ₚ map_to_list (foldl push_stale ∅ l.*2)).
Notation t' := (foldl (reconcile p ns) (DOCS_BY_FILE db) st).
Lemma purged_file k ids :
  good_name k → Forall good_id ids → DOCS_BY_FILE db !! name_key k = Some (join (str1 LF) ids) →
  t' !! name_key k = join (str1 LF) <$> v_file (v_docs V) p ns g k ids.
Proof.
  intros Hk Hids Hb. rewrite (lookup_reconcile_all _ _ _ _ _ _ Hst). unfold v_file.
  destruct (in_namespace p ns k) eqn:Hin; cbn [andb].
  - apply in_namespace_spec in Hin. destruct k as [[p' ns'] x]. cbn in Hin. destruct Hin as [-> ->].
    change (name_key (p, ns, x)) with (scoped_key p ns x) in *. cbn [fst snd].
    pose proof (strip_prefix_app (scoped_key p ns "") x) as Hsp. rewrite <-scoped_key_app in Hsp. rewrite Hsp, Hb.
    cbn [mbind option_bind]. rewrite lookup_push_stale. pose proof (touched_spec x) as Ht.
    pose proof (live_ids_join x ids Hids) as Hlive. unfold stale_ids in Ht, Hlive.
    destruct (filter (λ r, doc_path r = x) l.*2) as [|r rs].
    + destruct (touched _ _ _ _ x); [| done]. by destruct (proj1 Ht eq_refl).
    + rewrite (proj2 Ht) by done. unfold reconciled. cbn [mbind option_bind]. rewrite Hlive. by destruct (filter _ ids).
  - pose proof (namespace_prefix p ns k Hp Hns Hk) as Hsw. rewrite Hin in Hsw.
    destruct (strip_prefix (scoped_key p ns "") (name_key k)) as [x|] eqn:E; [| done].
    apply strip_prefix_Some in E. assert (starts_with (scoped_key p ns "") (name_key k) = true); [| congruence].
    apply starts_with_spec. by exists x.
Qed.

Lemma stored_purge_files :
  Stored name_key good_name reads_ids t' (map_imap (v_file (v_docs V) p ns g) (v_files V)).
Proof.
  split.
  - intros k ids'. rewrite map_lookup_imap. intros (ids & Hids & Hv)%bind_Some.
    destruct (stored_row _ _ _ _ _ (ref_files _ _ HR) _ _ Hids) as (Hk & b & Hb & -> & Hgood). split; [done |].
    rewrite (purged_file k ids), Hv by done. exists (join (str1 LF) ids'). split; [done |]. split; [done |].
    unfold v_file in Hv. destruct (in_namespace p ns k && _); [| by simplify_eq].
    destruct (filter _ ids) as [|id rest] eqn:E; [done |]. injection Hv as <-. rewrite <-E.
    apply Forall_forall. intros x [_ Hx]%list_elem_of_filter. by eapply Forall_forall in Hgood.
  - intros s b Hs. assert (Hb : is_Some (DOCS_BY_FILE db !! s)).
    { rewrite (lookup_reconcile_all _ _ _ _ _ _ Hst) in Hs. destruct (strip_prefix _ s ≫= _); [| by eexists].
      unfold reconciled in Hs. by destruct (DOCS_BY_FILE db !! s). }
    destruct Hb as [b0 Hb]. destruct (stored_known_good name_key good_name reads_ids _ _ _ _ (ref_files _ _ HR) Hb) as (k & ids & -> & Hk & Hids & -> & Hgood).
    rewrite (purged_file k ids) in Hs by done. destruct (v_file _ p ns g k ids) as [ids'|] eqn:E; [| done].
    exists k, ids'. split; [done |]. by rewrite map_lookup_imap, Hids.
Qed.
End purge.

Lemma docs_refine_purge db V p ns g :
  RefinesDocs db V → valid_component p = true → valid_component ns = true →
  (purge_old_generation_docs p ns g db).2 = Ok (size (filter (stale_record p ns g) (v_docs V))) ∧
  RefinesDocs (purge_old_generation_docs p ns g db).1 (view_apply (OpPurgeDocs p ns g) V).
Proof.
  intros HR Hp Hns. destruct (stale_docs_spec db V p ns g HR) as (l & Hl & Hperm); [by apply component_clean.. |].
  unfold purge_old_generation_docs, guarded.
  rewrite (proj2 (validate_key_component_Ok _ p)), (proj2 (validate_key_component_Ok _ ns)) by done.
  cbn [mbind result_bind]. unfold write_tx. rewrite Hl. cbn [mbind result_bind fst snd]. split.
  - f_equal. by rewrite length_fmap, Hperm, size_filter.
  - assert (Hsnd : ((λ kv : Name * DocRecord, (name_key kv.1, kv.2)) <$> l).*2 = l.*2) by by rewrite <-list_fmap_compose.
    assert (Hfst : ((λ kv : Name * DocRecord, (name_key kv.1, kv.2)) <$> l).*1 = name_key <$> l.*1) by by rewrite <-!list_fmap_compose.
    split; cbn [DOC_BY_ID DOCS_BY_FILE FILE_FINGERPRINT view_apply v_docs v_files v_prints]; [| | apply HR].
    + apply (stored_purge_docs db V p ns g l HR Hperm). intros s. by rewrite Hfst, lookup_drop_keys.
    + rewrite Hsnd. apply (stored_purge_files db V p ns g l); [done | by apply component_clean.. | done | apply iter_perm].
Qed.

(** ** Every write *)

Lemma guarded_commit {S B} (r : result B) (f : B → S → S) (s : S) :
  guarded r (λ b, write_tx (λ s, Ok (Commit tt, f b s))) s =
    match r with Ok b => (f b s, Ok tt) | Fail e => (s, Fail e) end.
Proof. unfold guarded, write_tx. by destruct r. Qed.

Lemma refines_with_docs db V t m :
  RefinesDocs db V → Stored name_key good_name reads_doc t m →
  RefinesDocs (with_docs t db) {| v_docs := m; v_files := v_files V; v_prints := v_prints V |}.
Proof. intros [H1 H2 H3] Ht. by split. Qed.

Lemma run_doc_refines op db V :
  RefinesDocs db V → doc_op_typed op →
  if (run_doc op db).2 then RefinesDocs (run_doc op db).1 (view_apply op V) else (run_doc op db).1 = db.
Proof.
  intros HR Ht. destruct op as [p rec|p recs|p ns path ids|p fp|p fps|p ns|p ns g]; cbn [run_doc fst snd].
  - unfold put_doc. rewrite guarded_commit. destruct (_ ≫= _) as [row|] eqn:E; cbn [is_ok fst snd]; [| done].
    apply result_bind_Ok in E as ([] & Hp%validate_key_component_Ok & Hrow).
    apply refines_with_docs; [done |]. apply (stored_put_docs p [rec] [row]); [done | by repeat constructor | apply HR].
  - unfold put_docs. destruct recs as [|rec recs]; [by destruct V |].
    rewrite guarded_commit. destruct (_ ≫= _) as [rows|] eqn:E; cbn [is_ok fst snd]; [| done].
    apply result_bind_Ok in E as ([] & Hp%validate_key_component_Ok & Hrows%result_traverse_Ok).
    apply refines_with_docs; [done |]. by apply stored_put_docs; [.. | apply HR].
  - unfold set_docs_for_file. rewrite guarded_commit. destruct (_ ≫= _) as [us|] eqn:E; cbn [is_ok fst snd]; [| done].
    apply result_bind_Ok in E as ([] & Hp%validate_key_component_Ok & E).
    apply result_bind_Ok in E as ([] & Hns%validate_key_component_Ok & E).
    apply result_bind_Ok in E as ([] & Hpath%validate_key_component_Ok & E%result_traverse_Ok).
    assert (Hids : Forall good_id ids).
    { cbn in Ht. clear -E Ht. induction E as [|id [] ids us Hid%validate_key_component_Ok _ IH]; [done |].
      apply Forall_cons in Ht as [? ?]. constructor; [done | by apply IH]. }
    split; cbn; [apply HR | | apply HR].
    apply (stored_insert _ _ _ name_key_inj _ _ (p, ns, path)); [apply HR | done | done].
  - unfold set_fingerprint. rewrite guarded_commit. destruct (_ ≫= _) as [[s b]|] eqn:E; cbn [is_ok fst snd]; [| done].
    apply result_bind_Ok in E as ([] & Hp%validate_key_component_Ok & Hrow).
    destruct (fp_row_Ok p fp (s, b) Hp Hrow) as (Hk & Hs & Hread). cbn [fst snd] in *. subst s.
    split; cbn [with_fingerprints DOC_BY_ID DOCS_BY_FILE FILE_FINGERPRINT view_apply v_docs v_files v_prints]; [apply HR | apply HR |].
    unfold v_print. by apply (stored_insert _ _ _ print_key_inj); [apply HR | ..].
  - unfold set_fingerprints. destruct fps as [|fp fps]; [by destruct V |]. unfold guarded, write_tx.
    destruct (validate_key_component "project_id" p) as [[]|] eqn:Hp; [| done]. apply validate_key_component_Ok in Hp.
    destruct (insert_fingerprints p (fp :: fps) db) as [[u db']|] eqn:E; cbn [mbind result_bind is_ok fst snd]; [| done].
    destruct (stored_set_prints p _ _ _ _ _ Hp E (ref_prints _ _ HR)) as (H3 & H1 & H2).
    split; cbn [view_apply v_docs v_files v_prints]; [rewrite H1; apply HR | rewrite H2; apply HR | done].
  - destruct Ht as [Hp Hns]. by apply refines_delete_namespace.
  - destruct (validate_key_component "project_id" p) as [[]|] eqn:Hp;
      [destruct (validate_key_component "namespace" ns) as [[]|] eqn:Hns |].
    + apply validate_key_component_Ok in Hp, Hns. destruct (docs_refine_purge db V p ns g HR Hp Hns) as [-> ?]. done.
    + unfold purge_old_generation_docs. by rewrite Hp, Hns.
    + unfold purge_old_generation_docs. by rewrite Hp.
Qed.

Lemma docs_refine_empty : RefinesDocs open_store empty_view.
Proof. split; apply stored_empty. Qed.
Lemma history_refines ops : Forall doc_op_typed ops → RefinesDocs (history ops).1 (history ops).2.
Proof.
  intros Hops. unfold history. assert (HR := docs_refine_empty). revert HR. generalize open_store empty_view.
  induction Hops as [|op ops Hop _ IH]; intros db V HR; [done |]. cbn [foldl].
  pose proof (run_doc_refines op db V HR Hop) as Hrun. destruct (run_doc op db) as [db' ok]. cbn [fst snd] in Hrun.
  destruct ok; [by apply IH | subst; by apply IH].
Qed.

(** ** Every read *)

Section reads.
Context (db : DocDB) (V : DocView) (HR : RefinesDocs db V).

Lemma get_doc_refines p ns id : good_name (p, ns, id) → get_doc p ns id db = Ok (v_docs V !! (p, ns, id)).
Proof.
  intros Hk. pose proof (stored_lookup _ _ _ name_key_inj _ _ _ (ref_docs _ _ HR) Hk) as H. unfold get_doc.
  change (scoped_key p ns id) with (name_key (p, ns, id)).
  destruct (v_docs V !! _); [destruct H as (b & -> & Hb & _); cbn; by rewrite Hb | by rewrite H].
Qed.
Lemma get_docs_for_file_refines p ns path :
  good_name (p, ns, path) → get_docs_for_file p ns path db = default [] (v_files V !! (p, ns, path)).
Proof.
  intros Hk. pose proof (stored_lookup _ _ _ name_key_inj _ _ _ (ref_files _ _ HR) Hk) as H.
  destruct (v_files V !! _) as [ids|].
  - destruct H as (b & Hb & -> & Hids). by apply read_ids.
  - unfold get_docs_for_file. change (scoped_key p ns path) with (name_key (p, ns, path)). by rewrite H.
Qed.
Lemma files_good k ids : v_files V !! k = Some ids → good_name k ∧ Forall good_id ids.
Proof. intros H. by destruct (stored_row _ _ _ _ _ (ref_files _ _ HR) _ _ H) as (? & b & _ & _ & ?). Qed.
Lemma get_all_docs_refines p ns path :
  good_name (p, ns, path) →
  get_all_docs_for_file p ns path db = Ok (omap (λ id, v_docs V !! (p, ns, id)) (default [] (v_files V !! (p, ns, path)))).
Proof.
  intros Hk. unfold get_all_docs_for_file. rewrite get_docs_for_file_refines by done.
  assert (Hids : Forall good_id (default [] (v_files V !! (p, ns, path)))).
  { destruct (v_files V !! _) eqn:E; [by eapply files_good | done]. }
  assert (Ht : result_traverse (λ id, get_doc p ns id db) (default [] (v_files V !! (p, ns, path))) =
               Ok ((λ id, v_docs V !! (p, ns, id)) <$> default [] (v_files V !! (p, ns, path)))).
  { destruct Hk as (Hp & Hns & _). induction Hids as [|id ids [Hid _] _ IH]; [done |]. cbn [result_traverse fmap list_fmap].
    rewrite get_doc_refines by done. cbn [mbind result_bind]. by rewrite IH. }
  rewrite Ht. cbn [mbind result_bind]. f_equal. clear. induction (default [] _) as [|id ids IH]; [done |]. cbn. by rewrite IH.
Qed.
Lemma get_fingerprint_refines p path : good_print (p, path) → get_fingerprint p path db = Ok (v_prints V !! (p, path)).
Proof.
  intros Hk. pose proof (stored_lookup _ _ _ print_key_inj _ _ _ (ref_prints _ _ HR) Hk) as H. unfold get_fingerprint.
  change (fp_key p path) with (print_key (p, path)).
  destruct (v_prints V !! _); [destruct H as (b & -> & Hb & _); cbn; by rewrite Hb | by rewrite H].
Qed.
Lemma list_fingerprints_refines p :
  clean p → ∃ fps, list_fingerprints p db = Ok fps ∧ fps ≡ₚ (filter (λ kv, kv.1.1 = p) (map_to_list (v_prints V))).*2.
Proof.
  intros Hp. destruct (stored_scan _ _ _ print_key_inj _ _ _ _ (ref_prints _ _ HR) (λ k, project_prefix_print p k Hp)) as (l & Hl & Hperm).
  exists l.*2. split.
  - unfold list_fingerprints. apply result_traverse_Ok. clear Hperm.
    induction Hl as [|row kv rows l [_ [Hr _]] _ IH]; by constructor.
  - rewrite Hperm. erewrite list_filter_iff; [reflexivity |]. intros kv. cbn. by rewrite String.eqb_eq.
Qed.

(** The documents of a project, in the order of their keys. *)
Lemma project_docs p :
  clean p → ∃ l, Forall2 (stands_for name_key reads_doc) (scan (nul p "") (DOC_BY_ID db)) l ∧ Forall (λ kv, good_name kv.1) l ∧
                 l ≡ₚ filter (λ kv, kv.1.1.1 = p) (map_to_list (v_docs V)).
Proof.
  intros Hp. destruct (stored_scan _ _ _ name_key_inj _ _ _ _ (ref_docs _ _ HR) (λ k, project_prefix_name p k Hp)) as (l & Hl & Hperm).
  exists l. split_and!; [done | |].
  - apply Forall_forall. intros [k r]. rewrite Hperm. intros [_ Hr%elem_of_map_to_list]%list_elem_of_filter.
    by destruct (stored_row _ _ _ _ _ (ref_docs _ _ HR) _ _ Hr).
  - rewrite Hperm. erewrite list_filter_iff; [reflexivity |]. intros kv. cbn. by rewrite String.eqb_eq.
Qed.
Lemma count_docs_refines p : clean p → count_docs_for_project p db = size (filter (λ kv, kv.1.1.1 = p) (v_docs V)).
Proof.
  intros Hp. destruct (project_docs p Hp) as (l & Hl & _ & Hperm). unfold count_docs_for_project.
  rewrite (Forall2_length _ _ _ Hl), size_filter. by apply Permutation_length.
Qed.
Lemma summaries_refine p :
  clean p →
  list_doc_summaries_for_project p db ≡ₚ
    (λ kv, {| summary_namespace := kv.1.1.2; summary_doc_id := kv.1.2; summary_path := doc_path kv.2 |}) <$>
    filter (λ kv, kv.1.1.1 = p) (map_to_list (v_docs V)).
Proof.
  intros Hp. destruct (project_docs p Hp) as (l & Hl & Hgood & <-). unfold list_doc_summaries_for_project.
  assert (omap summary (scan (nul p "") (DOC_BY_ID db)) =
    (λ kv : Name * DocRecord, {| summary_namespace := kv.1.1.2; summary_doc_id := kv.1.2; summary_path := doc_path kv.2 |}) <$> l) as ->; [| done].
  induction Hl as [|row kv rows l [Hk [Hr _]] _ IH]; [done |]. apply Forall_cons in Hgood as [Hg Hgood].
  cbn [omap list_omap fmap list_fmap]. unfold summary at 1. rewrite Hr, Hk, key_pieces_name by done. by rewrite IH.
Qed.
Lemma all_doc_ids_refine p :
  clean p → all_doc_ids_for_project p db ≡ₚ (λ kv, kv.1.2) <$> filter (λ kv, kv.1.1.1 = p) (map_to_list (v_docs V)).
Proof.
  intros Hp. destruct (project_docs p Hp) as (l & Hl & Hgood & <-). unfold all_doc_ids_for_project.
  assert ((λ kv : string * bytes, (key_pieces kv.1).2) <$> scan (nul p "") (DOC_BY_ID db) = (λ kv : Name * DocRecord, kv.1.2) <$> l) as ->; [| done].
  induction Hl as [|row kv rows l [Hk _] _ IH]; [done |]. apply Forall_cons in Hgood as [Hg Hgood].
  cbn [fmap list_fmap]. by rewrite Hk, key_pieces_name, IH.
Qed.
Lemma count_one_spec l (m : gmap string nat) ns :
  default 0%nat (foldl count_one m l !! ns) = (default 0 (m !! ns) + length (filter (ns =.) l))%nat.
Proof.
  revert m. induction l as [|x l IH]; intros m; cbn [foldl]; [cbn; lia |]. rewrite IH, filter_cons. unfold count_one.
  destruct (decide (ns = x)) as [->|Hne]; [rewrite lookup_insert_eq; cbn; lia | by rewrite lookup_insert_ne].
Qed.
Lemma count_by_namespace_refines p ns :
  clean p → default 0%nat (count_docs_by_namespace p db !! ns) = size (filter (λ kv, in_namespace p ns kv.1 = true) (v_docs V)).
Proof.
  intros Hp. destruct (project_docs p Hp) as (l & Hl & Hgood & Hperm). unfold count_docs_by_namespace.
  rewrite count_one_spec, lookup_empty, size_filter. cbn [default Nat.add].
  assert ((λ kv : string * bytes, (key_pieces kv.1).1) <$> scan (nul p "") (DOC_BY_ID db) = (λ kv : Name * DocRecord, kv.1.1.2) <$> l) as ->.
  { clear Hperm. induction Hl as [|row kv rows l [Hk _] _ IH]; [done |]. apply Forall_cons in Hgood as [Hg Hgood].
    cbn [fmap list_fmap]. by rewrite Hk, key_pieces_name, IH. }
  transitivity (length (filter (λ kv : Name * DocRecord, ns = kv.1.1.2) l)).
  - clear. induction l as [|kv l IH]; [done |]. cbn [fmap list_fmap]. rewrite !filter_cons. case_decide; cbn [length]; by rewrite IH.
  - apply Permutation_length. rewrite Hperm, list_filter_filter. erewrite list_filter_iff; [reflexivity |].
    intros kv. cbn. rewrite in_namespace_spec. naive_solver.
Qed.
End reads.

(** ** What a purge leaves *)

Lemma size_filter_split {K V} `{Countable K} (P Q : K * V → Prop) `{!∀ kv, Decision (P kv), !∀ kv, Decision (Q kv)} (m : gmap K V) :
  (∀ kv, P kv → Q kv) → size (filter Q m) = (size (filter P m) + size (filter Q (filter (λ kv, ¬ P kv) m)))%nat.
Proof.
  intros HPQ. rewrite map_filter_filter. rewrite !size_filter. generalize (map_to_list m). intros l.
  induction l as [|kv l IH]; [done |]. rewrite !filter_cons. pose proof (HPQ kv).
  destruct kv. repeat case_decide; cbn [length]; solve [tauto | lia].
Qed.
Lemma purged_count (m : gmap Name DocRecord) p ns g :
  size (filter (λ kv, kv.1.1.1 = p) m) =
    (size (filter (stale_record p ns g) m) + size (filter (λ kv, kv.1.1.1 = p) (filter (λ kv, ¬ stale_record p ns g kv) m)))%nat.
Proof. apply size_filter_split. by intros kv [[? _]%in_namespace_spec _]. Qed.

Lemma lookup_purged (m : gmap Name DocRecord) p ns g k :
  filter (λ kv, ¬ stale_record p ns g kv) m !! k =
    r ← m !! k; if in_namespace p ns k && (doc_generation r <? g) then None else Some r.
Proof.
  destruct (m !! k) as [r|] eqn:E; cbn [mbind option_bind].
  - destruct (in_namespace p ns k && (doc_generation r <? g)) eqn:Hst.
    + apply andb_true_iff in Hst as [Hin Hg%N.ltb_lt]. apply map_lookup_filter_None. right. intros x Hx Hns. simplify_eq.
      by apply Hns.
    + apply map_lookup_filter_Some. split; [done |]. intros [Hin Hlt]. cbn in Hin, Hlt.
      rewrite Hin in Hst. apply N.ltb_lt in Hlt. cbn in Hst. congruence.
  - apply map_lookup_filter_None. by left.
Qed.
Lemma stale_at_spec m p ns g path id :
  stale_at m p ns g path id = true ↔ ∃ r, m !! (p, ns, id) = Some r ∧ doc_generation r < g ∧ doc_path r = path.
Proof.
  unfold stale_at. destruct (m !! (p, ns, id)) as [r|]; [| naive_solver].
  rewrite andb_true_iff, N.ltb_lt, String.eqb_eq. naive_solver.
Qed.
Lemma v_file_spec m p ns g k ids :
  default [] (v_file m p ns g k ids) =
    if in_namespace p ns k then filter (λ id, stale_at m p ns g k.2 id = false) ids else ids.
Proof.
  unfold v_file. destruct (in_namespace p ns k); cbn [andb]; [| done]. destruct (touched _ _ _ _ _) eqn:E.
  - by destruct (filter _ ids).
  - cbn. symmetry. apply filter_all. intros id _.
    destruct (stale_at m p ns g k.2 id) eqn:Hs; [| done]. apply stale_at_spec in Hs as (r & Hr & Hg & Hpath).
    unfold touched in E. apply bool_decide_eq_false in E. exfalso. apply E. exists (p, ns, id), r. split_and!; try done.
    split; [by apply in_namespace_spec | done].
Qed.
Lemma purged_docs_of_file (m : gmap Name DocRecord) (o : option (list string)) p ns g q ns' path :
  omap (λ id, filter (λ kv, ¬ stale_record p ns g kv) m !! (q, ns', id)) (default [] (o ≫= v_file m p ns g (q, ns', path))) =
  if in_namespace p ns (q, ns', path)
  then filter (λ r, g <= doc_generation r) (omap (λ id, m !! (q, ns', id)) (default [] o))
  else omap (λ id, m !! (q, ns', id)) (default [] o).
Proof.
  destruct o as [ids|]; cbn [mbind option_bind]; [| by destruct (in_namespace _ _ _)].
  change (default [] (Some ids)) with ids.
  rewrite v_file_spec. change (in_namespace p ns (q, ns', path)) with (String.eqb p q && String.eqb ns ns').
  destruct (String.eqb p q && String.eqb ns ns') eqn:Hin.
  - cbn [snd]. induction ids as [|id ids IH]; [done |]. rewrite filter_cons. cbn [omap list_omap].
    destruct (decide (stale_at m p ns g path id = false)) as [Hs|Hs]; cbn [omap list_omap].
    + rewrite lookup_purged. change (in_namespace p ns (q, ns', id)) with (String.eqb p q && String.eqb ns ns'). rewrite Hin.
      destruct (m !! (q, ns', id)) as [r|]; cbn [mbind option_bind andb]; [| exact IH].
      rewrite filter_cons. destruct (N.ltb_spec (doc_generation r) g).
      * by rewrite decide_False by lia.
      * by rewrite decide_True, IH by lia.
    + apply not_false_iff_true, stale_at_spec in Hs as (r & Hr & Hg & _).
      apply andb_true_iff in Hin as [->%String.eqb_eq ->%String.eqb_eq]. rewrite Hr, filter_cons, IH, decide_False; [done | lia].
  - induction ids as [|id ids IH]; [done |]. cbn [omap list_omap]. rewrite lookup_purged, IH.
    change (in_namespace p ns (q, ns', id)) with (String.eqb p q && String.eqb ns ns'). rewrite Hin. by destruct (m !! _).
Qed.
Lemma purged_list_is_current db V db' p ns g q ns' path id r :
  RefinesDocs db V → RefinesDocs db' (view_apply (OpPurgeDocs p ns g) V) → good_name (q, ns', path) →
  in_namespace p ns (q, ns', path) = true → id ∈ get_docs_for_file q ns' path db' →
  get_doc q ns' id db = Ok (Some r) → doc_path r = path → g <= doc_generation r.
Proof.
  intros HR HR' Hk Hin Hid Hr Hpath. rewrite (get_docs_for_file_refines db' _ HR') in Hid by done.
  cbn [view_apply v_files] in Hid. rewrite map_lookup_imap in Hid.
  destruct (v_files V !! (q, ns', path)) as [ids|] eqn:E; cbn [mbind option_bind] in Hid; [| by apply elem_of_nil in Hid].
  rewrite v_file_spec, Hin in Hid. apply list_elem_of_filter in Hid as [Hs Hid].
  destruct (files_good db V HR _ _ E) as [_ Hgood]. rewrite Forall_forall in Hgood. destruct (Hgood id Hid) as [Hvid _].
  destruct Hk as (Hq & Hns' & _). rewrite (get_doc_refines db V HR) in Hr by done. injection Hr as Hr.
  apply in_namespace_spec in Hin as [H1 H2]. cbn in H1, H2. subst. destruct (N.le_gt_cases g (doc_generation r)) as [?|Hlt]; [done |].
  assert (Hst : stale_at (v_docs V) p ns g (doc_path r) id = true) by (apply stale_at_spec; eauto). cbn [snd] in Hs. congruence.
Qed.

(** * Theorems *)

(** C17. After any writes, failed ones included, from the empty store, the tables
    hold exactly the documents, the lists of documents and the fingerprints of
    three maps to which each successful write did its update and a failed one
    nothing; and every read is a lookup in them: of a document, of the list of
    a file, of its documents in the order of the list, of a fingerprint, of the
    documents, the counts and the paths of a project. *)
Theorem docstore_refines_maps (ops : list DocOp) :
  Forall doc_op_typed ops →
  let db := (history ops).1 in let V := (history ops).2 in
  RefinesDocs db V ∧
  ∀ p ns x, good_name (p, ns, x) →
    get_doc p ns x db = Ok (v_docs V !! (p, ns, x)) ∧
    get_docs_for_file p ns x db = default [] (v_files V !! (p, ns, x)) ∧
    get_all_docs_for_file p ns x db = Ok (omap (λ id, v_docs V !! (p, ns, id)) (default [] (v_files V !! (p, ns, x)))) ∧
    get_fingerprint p x db = Ok (v_prints V !! (p, x)) ∧
    (x ∈ list_tracked_paths p ns db ↔ is_Some (v_files V !! (p, ns, x))) ∧
    count_docs_for_project p db = size (filter (λ kv, kv.1.1.1 = p) (v_docs V)) ∧
    default 0%nat (count_docs_by_namespace p db !! ns) = size (filter (λ kv, in_namespace p ns kv.1 = true) (v_docs V)) ∧
    all_doc_ids_for_project p db ≡ₚ (λ kv, kv.1.2) <$> filter (λ kv, kv.1.1.1 = p) (map_to_list (v_docs V)).
Proof.
  intros Hops db V. assert (HR : RefinesDocs db V) by by apply history_refines. split; [done |].
  intros p ns x Hk. pose proof Hk as (Hp & Hns & Hx). cbn in *. apply component_clean in Hp as Hp', Hns as Hns'.
  split_and!.
  - by apply get_doc_refines.
  - by apply get_docs_for_file_refines.
  - by apply get_all_docs_refines.
  - by apply get_fingerprint_refines.
  - by apply elem_of_tracked_paths.
  - by apply count_docs_refines.
  - by apply count_by_namespace_refines.
  - by apply all_doc_ids_refine.
Qed.


(** A record of the namespace that cannot be read stops every purge of it, which
    changes nothing. *)
Theorem corrupt_row_stops_purge db p ns g key b e :
  valid_component p = true → valid_component ns = true →
  DOC_BY_ID db !! key = Some b → starts_with (scoped_key p ns "") key = true → de_bincode_or_json b = Fail e →
  ∃ e', purge_old_generation_docs p ns g db = (db, Fail e').
Proof.
  intros Hp Hns Hrow Hkey He. unfold purge_old_generation_docs, guarded.
  rewrite (proj2 (validate_key_component_Ok _ p)), (proj2 (validate_key_component_Ok _ ns)) by done.
  cbn [mbind result_bind]. unfold write_tx, stale_docs.
  destruct (result_traverse _ _) as [recs|e'] eqn:E; cbn [mbind result_bind]; [| by exists e'].
  apply result_traverse_Ok in E. assert (Hin : (key, b) ∈ scan (scoped_key p ns "") (DOC_BY_ID db)) by by apply elem_of_scan.
  destruct (Forall2_elem_l _ _ _ _ E Hin) as (kr & _ & Hkr). cbn in Hkr. by rewrite He in Hkr.
Qed.
End writes.
