(* ===== verification/DocStoreWitnesses.v ===== *)
(** A concrete codec of documents and fingerprints, and the theorems on the
    document store at concrete writes. *)
From S2P Require Import Prelude Text Unicode Concrete Store Paths Graph GraphRows GraphSpec GraphRefine GraphWitnesses Chunking DocStore DocStoreSpec.

Open Scope N_scope.

(** * Definitions *)

Definition toy_doc_bytes (r : DocRecord) : bytes :=
  write_fields [doc_id r; doc_path r; write_num (doc_start_line r); write_num (doc_end_line r); doc_language r;
                doc_content r; content_hash r; doc_namespace r; write_num (doc_generation r)].
Definition toy_doc_of_bytes (b : bytes) : result DocRecord :=
  match read_fields b with
  | Some [i; p; s; e; l; c; h; ns; g] =>
      s ← countable_from_slice s; e ← countable_from_slice e; g ← countable_from_slice g;
      Ok {| doc_id := i; doc_path := p; doc_start_line := s; doc_end_line := e; doc_language := l; doc_content := c;
            content_hash := h; doc_namespace := ns; doc_generation := g |}
  | _ => Fail SerdeError
  end.
Definition toy_print_bytes (f : FileFingerprint) : bytes :=
  write_fields [rel_path f; write_num (fp_size f); write_num (mtime_ms f); file_hash f; countable_to_vec (mtime_ns f)].
Definition toy_print_of_bytes (b : bytes) : result FileFingerprint :=
  match read_fields b with
  | Some [p; s; m; h; n] =>
      s ← countable_from_slice s; m ← countable_from_slice m; n ← countable_from_slice n;
      Ok {| rel_path := p; fp_size := s; mtime_ms := m; file_hash := h; mtime_ns := n |}
  | _ => Fail SerdeError
  end.
Definition toy_legacy_of_bytes (b : bytes) : result LegacyFingerprint :=
  match read_fields b with
  | Some [p; s; m; h] =>
      s ← countable_from_slice s; m ← countable_from_slice m;
      Ok {| legacy_rel_path := p; legacy_size := s; legacy_mtime_ms := m; legacy_file_hash := h |}
  | _ => Fail SerdeError
  end.

Lemma toy_doc_round_trip r b : Ok (toy_doc_bytes r) = Ok b → toy_doc_of_bytes b = Ok r.
Proof.
  intros [= <-]. unfold toy_doc_of_bytes, toy_doc_bytes. rewrite read_write_fields. unfold write_num.
  rewrite !countable_round_trip. by destruct r.
Qed.
Lemma toy_print_round_trip f b : Ok (toy_print_bytes f) = Ok b → toy_print_of_bytes b = Ok f.
Proof.
  intros [= <-]. unfold toy_print_of_bytes, toy_print_bytes. rewrite read_write_fields. unfold write_num.
  rewrite !countable_round_trip. by destruct f.
Qed.
#[export] Instance toy_doc_codec : DocCodec := {|
  doc_serialize r := Ok (toy_doc_bytes r); doc_deserialize := toy_doc_of_bytes; doc_from_json _ := Fail SerdeError;
  fp_serialize f := Ok (toy_print_bytes f); fp_deserialize := toy_print_of_bytes;
  legacy_deserialize := toy_legacy_of_bytes; fp_from_json _ := Fail SerdeError;
  doc_round_trip := toy_doc_round_trip; fp_round_trip := toy_print_round_trip;
|}.

(** A file of two chunks, one of which was chunked again later, and a record
    with a line feed in its name, which is refused. *)
Definition demo_doc (id path : string) (generation : N) : DocRecord :=
  {| doc_id := id; doc_path := path; doc_start_line := 1; doc_end_line := 9; doc_language := "vb"; doc_content := "x";
     content_hash := "h"; doc_namespace := "code"; doc_generation := generation |}.
Definition demo_writes : list DocOp :=
  [OpPutDocs "p" [demo_doc "d1" "a.vb" 1; demo_doc "d2" "a.vb" 2];
   OpPutDoc "p" (demo_doc "d3" "b.vb" 1);
   OpPutDoc "p" (demo_doc (str1 LF) "b.vb" 1);
   OpSetDocs "p" "code" "a.vb" ["d1"; "d2"];
   OpSetDocs "p" "code" "b.vb" ["d3"];
   OpSetPrint "p" {| rel_path := "a.vb"; fp_size := 7; mtime_ms := 8; file_hash := "h"; mtime_ns := None |}].
Definition demo_docs_db : DocDB := (history demo_writes).1.

(** * Examples *)

Example demo_docs_of_file : get_all_docs_for_file "p" "code" "a.vb" demo_docs_db = Ok [demo_doc "d1" "a.vb" 1; demo_doc "d2" "a.vb" 2].
Proof. vm_compute. reflexivity. Qed.
Example demo_docs_purged :
  let '(db, n) := purge_old_generation_docs "p" "code" 2 demo_docs_db in
  n = Ok 2%nat ∧ get_all_docs_for_file "p" "code" "a.vb" db = Ok [demo_doc "d2" "a.vb" 2] ∧ list_tracked_paths "p" "code" db = ["a.vb"].
Proof. vm_compute. split_and!; reflexivity. Qed.
(** A fingerprint of the older format is read without its precise time. *)
Example legacy_print_is_read :
  decode_file_fingerprint (write_fields ["a.vb"; write_num 7; write_num 8; "h"]) =
  Ok {| rel_path := "a.vb"; fp_size := 7; mtime_ms := 8; file_hash := "h"; mtime_ns := None |}.
Proof. vm_compute. reflexivity. Qed.

(** * Witnesses *)

Lemma docstore_refines_maps_witness :
  let db := (history demo_writes).1 in let V := (history demo_writes).2 in
  RefinesDocs db V ∧
  ∀ p ns x, good_name (p, ns, x) →
    get_doc p ns x db = Ok (v_docs V !! (p, ns, x)) ∧
    get_docs_for_file p ns x db = default [] (v_files V !! (p, ns, x)) ∧
    get_all_docs_for_file p ns x db = Ok (omap (λ id, v_docs V !! (p, ns, id)) (default [] (v_files V !! (p, ns, x)))) ∧
    get_fingerprint p x db = Ok (v_prints V !! (p, x)) ∧
    (x ∈ list_tracked_paths p ns db ↔ is_Some (v_files V !! (p, ns, x))) ∧
    count_docs_for_project p db = size (filter (λ kv, kv.1.1.1 = p) (v_docs V)) ∧
    default 0%nat (count_docs_by_namespace p db !! ns) = size (filter (λ kv, in_namespace p ns kv.1 = true) (v_docs V)) ∧
    all_doc_ids_for_project p db ≡ₚ (λ kv, kv.1.2) <$> filter (λ kv, kv.1.1.1 = p) (map_to_list (v_docs V)).
Proof. apply (docstore_refines_maps demo_writes). repeat constructor. Defined.


Lemma corrupt_row_stops_purge_witness :
  let db := with_docs (<[scoped_key "p" "code" "d0" := "?"]> (DOC_BY_ID demo_docs_db)) demo_docs_db in
  ∃ e', purge_old_generation_docs "p" "code" 2 db = (db, Fail e').
Proof.
  intros db. apply (corrupt_row_stops_purge db "p" "code" 2 (scoped_key "p" "code" "d0") "?" SerdeError); reflexivity.
Defined.
