(* ===== verification/FloatBounds.v ===== *)
(** Bounds that survive rounding: an operation whose exact result lies between
    two numbers of the format gives a number between them, and numbers of the
    format are ordered as their values. For the positive numbers of any binary
    format. *)
From S2P Require Import Prelude Text F64.

Open Scope Z_scope.

(** * Definitions *)

(** Values are integers once they are scaled by a power of two that is beyond
    the least exponent of any product. *)
Definition SCALE : Z := 3000.
Definition pow2 (e : Z) : Z := 2 ^ (e + SCALE).
Definition value (x : spec_float) : Z :=
  match x with S754_finite false m e => Zpos m * pow2 e | _ => 0 end.
(** A zero or a positive number of the format, between two values. *)
Definition nonneg (prec emax : Z) (x : spec_float) : Prop :=
  match x with
  | S754_zero _ => True
  | S754_finite false m e => bounded prec emax m e = true
  | _ => False
  end.
Definition within (prec emax : Z) (x : spec_float) (lo hi : Z) : Prop := nonneg prec emax x ∧ lo <= value x <= hi.
Definition is_f32 (x : f32) : Prop := valid_binary 24 128 x = true.
Definition is_f64 (x : f64) : Prop := valid_binary 53 1024 x = true.

(** * Lemmas *)

Lemma iter_pos_nat {A} (f : A → A) n x : iter_pos f n x = Nat.iter (Pos.to_nat n) f x.
Proof.
  revert x. induction n as [n IH|n IH|]; intros x; cbn [iter_pos].
  - rewrite !IH. replace (Pos.to_nat n~1) with (S (Pos.to_nat n + Pos.to_nat n))%nat by lia.
    by rewrite Nat.iter_succ_r, Nat.iter_add.
  - rewrite !IH. replace (Pos.to_nat n~0) with (Pos.to_nat n + Pos.to_nat n)%nat by lia. by rewrite Nat.iter_add.
  - done.
Qed.

(** ** Digits *)

Lemma digits2_bounds m : 2 ^ (Zpos (digits2_pos m) - 1) <= Zpos m < 2 ^ Zpos (digits2_pos m).
Proof.
  induction m as [m IH|m IH|]; cbn [digits2_pos]; [| | done].
  - rewrite Pos2Z.inj_succ. replace (Z.succ (Zpos (digits2_pos m)) - 1) with (Z.succ (Zpos (digits2_pos m) - 1)) by lia.
    rewrite !Z.pow_succ_r by lia. lia.
  - rewrite Pos2Z.inj_succ. replace (Z.succ (Zpos (digits2_pos m)) - 1) with (Z.succ (Zpos (digits2_pos m) - 1)) by lia.
    rewrite !Z.pow_succ_r by lia. lia.
Qed.
Lemma digits2_unique m d : 0 <= d → 2 ^ d <= Zpos m < 2 ^ (d + 1) → Zpos (digits2_pos m) = d + 1.
Proof.
  intros Hd [Hlo Hhi]. pose proof (digits2_bounds m) as [H1 H2].
  assert (d < Zpos (digits2_pos m)) by (apply (Z.pow_lt_mono_r_iff 2); lia).
  assert (Zpos (digits2_pos m) - 1 < d + 1) by (apply (Z.pow_lt_mono_r_iff 2); lia). lia.
Qed.
Lemma digits2_le m d : 0 <= d → Zpos m < 2 ^ d → Zpos (digits2_pos m) <= d.
Proof.
  intros Hd Hm. pose proof (digits2_bounds m) as [H1 H2].
  assert (Zpos (digits2_pos m) - 1 < d); [| lia]. apply (Z.pow_lt_mono_r_iff 2); lia.
Qed.

Lemma pow2_pos e : 0 <= e + SCALE → 0 < pow2 e.
Proof. intros. unfold pow2. lia. Qed.
Lemma pow2_add e n : 0 <= e + SCALE → 0 <= n → pow2 (e + n) = 2 ^ n * pow2 e.
Proof. intros. unfold pow2. rewrite <-Z.pow_add_r by lia. f_equal. lia. Qed.

Lemma shift_value k m : Zpos (Pos.iter xO m k) = Zpos m * 2 ^ Zpos k.
Proof.
  revert m. induction k as [|k IH] using Pos.peano_ind; intros m; [cbn; lia |].
  rewrite Pos.iter_succ, Pos2Z.inj_xO, IH, Pos2Z.inj_succ, Z.pow_succ_r by lia. lia.
Qed.

(** ** Shifts to the right *)

Lemma shr_1_spec m r s :
  0 <= m → ∃ r' s', shr_1 {| shr_m := m; shr_r := r; shr_s := s |} = {| shr_m := m / 2; shr_r := r'; shr_s := s' |} ∧
    (r' || s' = r || s || negb (m mod 2 =? 0))%bool.
Proof.
  intros Hm. destruct m as [|[p|p|]|p]; [| | | |lia].
  - exists false, (r || s)%bool. split; [done |]. by destruct r, s.
  - exists true, (r || s)%bool. split.
    + cbn. f_equal. apply Z.div_unique with 1; lia.
    + replace (Zpos p~1 mod 2) with 1 by (apply Z.mod_unique with (Zpos p); lia). by destruct r, s.
  - exists false, (r || s)%bool. split.
    + cbn. f_equal. apply Z.div_unique with 0; lia.
    + replace (Zpos p~0 mod 2) with 0 by (apply Z.mod_unique with (Zpos p); lia). by destruct r, s.
  - exists true, (r || s)%bool. split; [done | by destruct r, s].
Qed.
Lemma shr_iter_spec n m r s :
  0 <= m → ∃ r' s', Nat.iter n shr_1 {| shr_m := m; shr_r := r; shr_s := s |} =
      {| shr_m := m / 2 ^ Z.of_nat n; shr_r := r'; shr_s := s' |} ∧
    (r' || s' = r || s || negb (m mod 2 ^ Z.of_nat n =? 0))%bool.
Proof.
  intros Hm. induction n as [|n (r1 & s1 & IH & Hf)].
  - exists r, s. cbn [Nat.iter]. rewrite Z.div_1_r, Z.mod_1_r. split; [done |]. by destruct r, s.
  - rewrite Nat.iter_succ, IH. destruct (shr_1_spec (m / 2 ^ Z.of_nat n) r1 s1) as (r2 & s2 & Hs & Hf2).
    { apply Z.div_pos; lia. }
    exists r2, s2. rewrite Nat2Z.inj_succ, Z.pow_succ_r by lia. split.
    + rewrite Hs. f_equal. rewrite Z.div_div by lia. f_equal. lia.
    + rewrite Hf2, Hf. rewrite (Z.mul_comm 2), Z.rem_mul_r by lia.
      set (a := m mod 2 ^ Z.of_nat n). set (b := (m / 2 ^ Z.of_nat n) mod 2).
      assert (0 <= a) by (apply Z.mod_pos_bound; lia). assert (0 <= b) by (apply Z.mod_pos_bound; lia).
      assert (0 < 2 ^ Z.of_nat n) by lia.
      destruct (Z.eqb_spec a 0), (Z.eqb_spec b 0), (Z.eqb_spec (a + 2 ^ Z.of_nat n * b) 0); destruct r, s; try done; exfalso; nia.
Qed.

(** The mantissa after a shift by [n] bits and the rounding of what is lost. *)
Lemma shr_spec m r s e n :
  0 <= m → 0 <= n →
  ∃ r' s', shr {| shr_m := m; shr_r := r; shr_s := s |} e n = ({| shr_m := m / 2 ^ n; shr_r := r'; shr_s := s' |}, e + n) ∧
    (r' || s' = r || s || negb (m mod 2 ^ n =? 0))%bool.
Proof.
  intros Hm Hn. destruct n as [|n|n]; [| | lia].
  - exists r, s. cbn [shr]. rewrite Z.div_1_r, Z.mod_1_r, Z.add_0_r. split; [done |]. by destruct r, s.
  - cbn [shr]. rewrite iter_pos_nat. destruct (shr_iter_spec (Pos.to_nat n) m r s Hm) as (r' & s' & -> & Hf).
    exists r', s'. rewrite positive_nat_Z in *. done.
Qed.
Lemma nearest_cases q r s :
  let m' := round_nearest_even q (loc_of_shr_record {| shr_m := q; shr_r := r; shr_s := s |}) in
  m' = q ∨ (m' = q + 1 ∧ (r || s)%bool = true).
Proof. destruct r, s; cbn; try (by left); try (by right). destruct (Z.even q); [by left | by right]. Qed.
Lemma shr_round_any m l e n :
  0 <= m → 0 <= n →
  ∃ m', (let '(mrs, e') := shr (shr_record_of_loc m l) e n in
         (round_nearest_even (shr_m mrs) (loc_of_shr_record mrs), e')) = (m', e + n) ∧
    m / 2 ^ n <= m' <= m / 2 ^ n + 1 ∧ (l = loc_Exact → (m' - 1) * 2 ^ n < m).
Proof.
  intros Hm Hn. assert (Hl : ∃ r s, shr_record_of_loc m l = {| shr_m := m; shr_r := r; shr_s := s |} ∧ (l = loc_Exact → r = false ∧ s = false)).
  { destruct l as [|[]]; cbn; by eexists _, _. }
  destruct Hl as (r0 & s0 & -> & Hexact). destruct (shr_spec m r0 s0 e n Hm Hn) as (r & s & -> & Hf). cbn [shr_m].
  assert (Hpow : 0 < 2 ^ n) by (apply Z.pow_pos_nonneg; lia).
  pose proof (Z.div_mod m (2 ^ n) ltac:(lia)) as Hdm. pose proof (Z.mod_pos_bound m (2 ^ n) Hpow) as Hb.
  set (q := m / 2 ^ n) in *. set (c := m mod 2 ^ n) in *.
  pose proof (nearest_cases q r s) as Hm'. cbv zeta in Hm'. eexists. split; [reflexivity |].
  set (m' := round_nearest_even _ _) in *. split; [lia |]. intros Hl. destruct (Hexact Hl) as [-> ->].
  destruct Hm' as [->|[-> Hrs]]; [nia |]. rewrite Hrs in Hf. destruct (Z.eqb_spec c 0); [done | nia].
Qed.

(** ** Rounding *)

Section format.
Context (prec emax : Z) (Hprec : 1 < prec) (Hemax : prec < emax) (Hscale : 2 * emin prec emax + SCALE >= 0) (Hemin : emin prec emax < 0).
Notation Emin := (emin prec emax).
Notation nonneg := (nonneg prec emax).
Notation within := (within prec emax).
Notation fexp := (fexp prec emax).

Lemma fexp_mono a b : a <= b → fexp a <= fexp b.
Proof. unfold SpecFloat.fexp. lia. Qed.
Lemma bounded_spec m e :
  bounded prec emax m e = true →
  e = fexp (Zpos (digits2_pos m) + e) ∧ Emin <= e <= emax - prec ∧ Zpos m < 2 ^ prec ∧ (Emin < e → 2 ^ (prec - 1) <= Zpos m).
Proof.
  unfold bounded, canonical_mantissa. intros [He%Z.eqb_eq Hmax%Z.leb_le]%andb_true_iff.
  pose proof (digits2_bounds m) as [Hlo Hhi]. unfold SpecFloat.fexp in *.
  assert (Hd : Zpos (digits2_pos m) <= prec) by lia. split_and!; try lia.
  - eapply Z.lt_le_trans; [exact Hhi |]. apply Z.pow_le_mono_r; lia.
  - intros Hgt. replace (prec - 1) with (Zpos (digits2_pos m) - 1) by lia. done.
Qed.
Lemma bounded_intro m e :
  Emin <= e <= emax - prec → Zpos m < 2 ^ prec → (Emin < e → 2 ^ (prec - 1) <= Zpos m) → bounded prec emax m e = true.
Proof.
  intros He Hm Hlo. unfold bounded, canonical_mantissa. rewrite andb_true_iff, Z.eqb_eq, Z.leb_le. split; [| lia].
  pose proof (digits2_le m prec ltac:(lia) Hm). unfold SpecFloat.fexp. destruct (Z.eq_dec e Emin) as [->|Hne]; [lia |].
  rewrite (digits2_unique m (prec - 1)); [lia | lia |]. replace (prec - 1 + 1) with prec by lia. split; [apply Hlo; lia | done].
Qed.
Lemma value_finite m e : value (S754_finite false m e) = Zpos m * pow2 e.
Proof. done. Qed.
(** Numbers of the format are below its limit. *)
Lemma value_below x : nonneg x → value x < pow2 emax.
Proof.
  destruct x as [|[]| |[] m e]; cbn [FloatBounds.nonneg value]; try done; intros H; try (apply pow2_pos; lia).
  apply bounded_spec in H as (_ & He & Hm & _).
  assert (Hpow : pow2 emax = 2 ^ (emax - e) * pow2 e) by (rewrite <-pow2_add by lia; f_equal; lia). rewrite Hpow.
  apply Z.lt_le_trans with (2 ^ prec * pow2 e); [apply Z.mul_lt_mono_pos_r; [apply pow2_pos; lia | done] |].
  apply Z.mul_le_mono_nonneg_r; [apply Z.lt_le_incl, pow2_pos; lia |]. apply Z.pow_le_mono_r; lia.
Qed.
(** The exponent of a number says how large it is. *)
Lemma exponent_le m e my ey :
  0 <= e + SCALE → 0 <= ey + SCALE → Zpos m * pow2 e <= Zpos my * pow2 ey →
  Zpos (digits2_pos m) + e <= Zpos (digits2_pos my) + ey.
Proof.
  intros He Hey Hle. pose proof (digits2_bounds m) as [H1 _]. pose proof (digits2_bounds my) as [_ H2].
  set (d := Zpos (digits2_pos m)) in *. set (dy := Zpos (digits2_pos my)) in *. assert (0 < d ∧ 0 < dy) as [? ?] by lia.
  assert (Hlt : 2 ^ (d - 1 + (e + SCALE)) < 2 ^ (dy + (ey + SCALE))).
  { rewrite (Z.pow_add_r 2 (d - 1) (e + SCALE)), (Z.pow_add_r 2 dy (ey + SCALE)) by lia. fold (pow2 e) (pow2 ey). pose proof (pow2_pos e He) as Hp. pose proof (pow2_pos ey Hey) as Hpy.
    apply Z.le_lt_trans with (Zpos m * pow2 e); [by apply Z.mul_le_mono_pos_r |].
    eapply Z.le_lt_trans; [exact Hle |]. by apply Z.mul_lt_mono_pos_r. }
  apply Z.pow_lt_mono_r_iff in Hlt; lia.
Qed.

Section round.
Context (m : positive) (e : Z) (He : 0 <= e + SCALE).
Notation d := (Zpos (digits2_pos m)).
Notation E := (fexp (d + e)).
Context (Hshift : e <= E).
Notation n := (E - e).

Lemma pow2_E : pow2 E = 2 ^ n * pow2 e.
Proof. replace E with (e + n) at 1 by lia. apply pow2_add; lia. Qed.
Lemma E_bounds : Emin <= E ∧ d + e - prec <= E ∧ (Emin < E → E = d + e - prec).
Proof. unfold SpecFloat.fexp. lia. Qed.
Lemma quotient_small : Zpos m / 2 ^ n < 2 ^ prec.
Proof.
  pose proof (digits2_bounds m) as [_ H]. pose proof E_bounds as (_ & HE & _). apply Z.div_lt_upper_bound; [lia |].
  rewrite <-Z.pow_add_r by lia. eapply Z.lt_le_trans; [exact H |]. apply Z.pow_le_mono_r; lia.
Qed.
Lemma quotient_large : Emin < E → 2 ^ (prec - 1) <= Zpos m / 2 ^ n.
Proof.
  intros HE%E_bounds. pose proof (digits2_bounds m) as [H _]. apply Z.div_le_lower_bound; [lia |].
  rewrite <-Z.pow_add_r by lia. replace (n + (prec - 1)) with (d - 1) by lia. done.
Qed.

(** A number of the format whose exponent is not below, in units of the last
    place of the result. *)
Lemma in_units my ey : E <= ey → ∃ k, 0 < k ∧ Zpos my * pow2 ey = k * pow2 E ∧ Zpos my * pow2 ey = k * 2 ^ n * pow2 e.
Proof.
  intros Hle. pose proof E_bounds. exists (Zpos my * 2 ^ (ey - E)).
  assert (Hpow : pow2 ey = 2 ^ (ey - E) * pow2 E) by (rewrite <-pow2_add by lia; f_equal; lia).
  assert (0 < 2 ^ (ey - E)) by (apply Z.pow_pos_nonneg; lia). split; [lia |]. rewrite Hpow. split; [ring |]. rewrite pow2_E. ring.
Qed.
Lemma rounded_below yhi m' :
  nonneg yhi → Zpos m * pow2 e <= value yhi → (m' - 1) * 2 ^ n < Zpos m → m' * pow2 E <= value yhi.
Proof.
  intros Hhi Hle0 Hm'. pose proof (pow2_pos e He) as Hp. pose proof E_bounds as HE.
  destruct yhi as [|[]| |[] my ey]; cbn [value] in *; try nia.
  destruct (bounded_spec _ _ Hhi) as (Hey & Hr & _).
  assert (Hle : E <= ey) by (rewrite Hey; apply fexp_mono, exponent_le; lia).
  destruct (in_units my ey Hle) as (k & Hk & Hval & Heq). rewrite Hval. apply Z.mul_le_mono_nonneg_r; [apply Z.lt_le_incl, pow2_pos; lia |].
  assert (Hmk : Zpos m <= k * 2 ^ n) by (apply (Z.mul_le_mono_pos_r _ _ (pow2 e)); lia).
  assert (Hlt : (m' - 1) * 2 ^ n < k * 2 ^ n) by lia. apply Z.mul_lt_mono_pos_r in Hlt; [lia |]. apply Z.pow_pos_nonneg; lia.
Qed.
Lemma rounded_above ylo m' :
  nonneg ylo → value ylo <= Zpos m * pow2 e → Zpos m / 2 ^ n <= m' → value ylo <= m' * pow2 E.
Proof.
  intros Hlo Hle0 Hm'. pose proof (pow2_pos e He) as Hp. pose proof E_bounds as HE. pose proof (pow2_pos E ltac:(lia)) as HpE.
  assert (Hpn : 0 < 2 ^ n) by (apply Z.pow_pos_nonneg; lia).
  assert (Hm0 : 0 <= Zpos m / 2 ^ n) by (apply Z.div_pos; lia).
  assert (Hz : 0 <= m' * pow2 E) by (apply Z.mul_nonneg_nonneg; lia).
  destruct ylo as [|[]| |[] my ey]; cbn [value] in *; try done.
  destruct (bounded_spec _ _ Hlo) as (Hey & Hr & Hmy & _). destruct (Z.le_gt_cases E ey) as [Hle|Hgt].
  - destruct (in_units my ey Hle) as (k & Hk & Hval & Heq). rewrite Hval. apply Z.mul_le_mono_nonneg_r; [lia |].
    assert (Hkm : k * 2 ^ n <= Zpos m) by (apply (Z.mul_le_mono_pos_r _ _ (pow2 e)); lia).
    etrans; [| exact Hm']. apply Z.div_le_lower_bound; lia.
  - pose proof (quotient_large ltac:(lia)) as Hq. pose proof (pow2_pos ey ltac:(lia)) as Hpy.
    assert (HE2 : pow2 E = 2 ^ (E - ey) * pow2 ey) by (rewrite <-pow2_add by lia; f_equal; lia).
    assert (Hpr : 2 ^ prec = 2 ^ (prec - 1) * 2) by (rewrite Z.mul_comm, <-Z.pow_succ_r by lia; f_equal; lia).
    assert (H2 : 2 <= 2 ^ (E - ey)) by (change 2 with (2 ^ 1) at 1; apply Z.pow_le_mono_r; lia).
    rewrite HE2, Z.mul_assoc. apply Z.mul_le_mono_nonneg_r; [lia |]. etrans; [apply Z.lt_le_incl, Hmy |]. rewrite Hpr.
    apply Z.mul_le_mono_nonneg; [apply Z.pow_nonneg; lia | lia | lia | done].
Qed.
End round.

(** The second normalization: a carry out of the mantissa. *)
Lemma shr_none m e k : k <= 0 → shr {| shr_m := m; shr_r := false; shr_s := false |} e k = ({| shr_m := m; shr_r := false; shr_s := false |}, e).
Proof. by destruct k. Qed.

(** What the rounding returns for a rounded mantissa. *)
Definition pack (m' E : Z) : spec_float :=
  let '(mrs, e) := shr_fexp prec emax m' E loc_Exact in
  match shr_m mrs with
  | Z0 => S754_zero false
  | Zpos m => if Z.leb e (emax - prec) then S754_finite false m e else S754_infinity false
  | Zneg _ => S754_nan
  end.
Lemma pack_top m E : Emin <= E → 2 ^ (prec - 1) <= m → emax - prec < E → pow2 emax <= m * pow2 E.
Proof.
  intros HE Hm Hgt.
  assert (HpE : pow2 E = 2 ^ (E - (emax - prec + 1)) * pow2 (emax - prec + 1)) by (rewrite <-pow2_add by lia; f_equal; lia).
  assert (Hpe : pow2 emax = 2 ^ (prec - 1) * pow2 (emax - prec + 1)) by (rewrite <-pow2_add by lia; f_equal; lia).
  assert (0 < 2 ^ (E - (emax - prec + 1))) by (apply Z.pow_pos_nonneg; lia).
  assert (0 < 2 ^ (prec - 1)) by (apply Z.pow_pos_nonneg; lia).
  pose proof (pow2_pos (emax - prec + 1) ltac:(lia)) as Hpp. rewrite Hpe, HpE, Z.mul_assoc.
  apply Z.mul_le_mono_nonneg_r; [lia |]. rewrite <-(Z.mul_1_r (2 ^ (prec - 1))). apply Z.mul_le_mono_nonneg; lia.
Qed.
Lemma pack_spec m' E :
  0 <= m' <= 2 ^ prec → Emin <= E → (Emin < E → 2 ^ (prec - 1) <= m') →
  (pack m' E = S754_infinity false ∧ pow2 emax <= m' * pow2 E) ∨ (nonneg (pack m' E) ∧ value (pack m' E) = m' * pow2 E).
Proof.
  intros [Hm0 Hmp] HE Hlarge. unfold pack, shr_fexp, shr_record_of_loc.
  destruct m' as [|p|p]; [| | lia].
  { right. rewrite shr_none by (cbn [Zdigits2]; unfold SpecFloat.fexp; lia). done. }
  cbn [Zdigits2]. destruct (Z.lt_ge_cases (Zpos p) (2 ^ prec)) as [Hp|Hp].
  - pose proof (digits2_le p prec ltac:(lia) Hp) as Hd. rewrite shr_none by (unfold SpecFloat.fexp; lia). cbn [shr_m].
    destruct (Z.leb_spec E (emax - prec)); [right | left].
    + split; [apply bounded_intro; lia | done].
    + split; [done |]. apply pack_top; lia.
  - assert (Heq : Zpos p = 2 ^ prec) by lia. assert (Hpr : 2 ^ prec = 2 * 2 ^ (prec - 1)) by (rewrite <-Z.pow_succ_r by lia; f_equal; lia).
    assert (Hd : Zpos (digits2_pos p) = prec + 1).
    { apply digits2_unique; [lia |]. rewrite Z.pow_add_r by lia. lia. }
    rewrite Hd. replace (fexp (prec + 1 + E) - E) with 1 by (unfold SpecFloat.fexp; lia). cbn [shr iter_pos].
    destruct (shr_1_spec (Zpos p) false false ltac:(lia)) as (r & s & -> & _). cbn [shr_m].
    assert (Hhalf : Zpos p / 2 = 2 ^ (prec - 1)) by (rewrite Heq, Hpr, Z.mul_comm, Z.div_mul by lia; done).
    rewrite Hhalf. destruct (2 ^ (prec - 1)) as [|q|q] eqn:Hq; [lia | | lia].
    assert (Hv : Zpos q * pow2 (E + 1) = Zpos p * pow2 E).
    { rewrite pow2_add by lia. change (2 ^ 1) with 2. rewrite Z.mul_assoc, (Z.mul_comm (Zpos q)), <-Hpr, <-Heq. done. }
    destruct (Z.leb_spec (E + 1) (emax - prec)); [right | left].
    + split; [apply bounded_intro; lia | done].
    + split; [done |]. rewrite <-Hv. apply pack_top; lia.
Qed.
Lemma pack_within m' E lo hi :
  0 <= m' <= 2 ^ prec → Emin <= E → (Emin < E → 2 ^ (prec - 1) <= m') → lo <= m' * pow2 E <= hi → hi < pow2 emax →
  within (pack m' E) lo hi.
Proof.
  intros Hm HE Hlarge Hb Htop. destruct (pack_spec m' E Hm HE Hlarge) as [[_ ?]|[Hn Hv]]; [lia |].
  split; [done | by rewrite Hv].
Qed.

(** An exact value that lies between two numbers of the format is rounded to a
    number between them. *)
Lemma round_within m e ylo yhi :
  0 <= e + SCALE → e <= fexp (Zpos (digits2_pos m) + e) → nonneg ylo → nonneg yhi →
  value ylo <= Zpos m * pow2 e <= value yhi →
  within (binary_round_aux prec emax false (Zpos m) e loc_Exact) (value ylo) (value yhi).
Proof.
  intros He Hshift Hlo Hhi [Hl Hh]. unfold binary_round_aux. unfold shr_fexp at 1. cbn [Zdigits2].
  set (E := fexp (Zpos (digits2_pos m) + e)) in *.
  destruct (shr_round_any (Zpos m) loc_Exact e (E - e) ltac:(lia) ltac:(lia)) as (m' & Hr & [Hq Hq1] & Hup). specialize (Hup eq_refl).
  destruct (shr _ _ _) as [mrs e']. injection Hr as Hr ->. rewrite Hr. replace (e + (E - e)) with E by lia.
  pose proof (E_bounds m e) as HE. fold E in HE. assert (0 <= Zpos m / 2 ^ (E - e)) by (apply Z.div_pos; lia).
  apply (pack_within m' E).
  - pose proof (quotient_small m e Hshift). fold E in H0. lia.
  - lia.
  - intros Hgt. pose proof (quotient_large m e Hshift Hgt). fold E in H0. lia.
  - split; [by apply (rounded_above m e He Hshift) | by apply (rounded_below m e He Hshift)].
  - by apply value_below.
Qed.
Lemma binary_round_within m e ylo yhi :
  0 <= e + SCALE → nonneg ylo → nonneg yhi → value ylo <= Zpos m * pow2 e <= value yhi →
  within (binary_round prec emax false m e) (value ylo) (value yhi).
Proof.
  intros He Hlo Hhi Hb. unfold binary_round, shl_align. set (E := fexp (Zpos (digits2_pos m) + e)).
  destruct (E - e) as [|k|k] eqn:Hk; [apply round_within; try done; lia.. |].
  assert (HE : E = e - Zpos k) by lia.
  assert (Hd : Zpos (digits2_pos (Pos.iter xO m k)) = Zpos (digits2_pos m) + Zpos k).
  { pose proof (digits2_bounds m) as [H1 H2]. replace (Zpos (digits2_pos m) + Zpos k) with (Zpos (digits2_pos m) + Zpos k - 1 + 1) by lia.
    apply digits2_unique; [lia |]. rewrite shift_value.
    replace (Zpos (digits2_pos m) + Zpos k - 1) with (Zpos (digits2_pos m) - 1 + Zpos k) by lia.
    replace (Zpos (digits2_pos m) - 1 + Zpos k + 1) with (Zpos (digits2_pos m) + Zpos k) by lia.
    rewrite !Z.pow_add_r by lia. assert (0 < 2 ^ Zpos k) by (apply Z.pow_pos_nonneg; lia). nia. }
  pose proof (E_bounds m e) as HEb. fold E in HEb.
  assert (Hv : Zpos (Pos.iter xO m k) * pow2 E = Zpos m * pow2 e).
  { rewrite shift_value. replace (pow2 e) with (2 ^ Zpos k * pow2 E); [ring |]. rewrite <-pow2_add by lia. f_equal. lia. }
  apply round_within; try done; [lia | | by rewrite Hv].
  rewrite Hd. replace (Zpos (digits2_pos m) + Zpos k + E) with (Zpos (digits2_pos m) + e) by lia. lia.
Qed.

(** ** Operations *)

Lemma shl_align_value m e e' : e' <= e → 0 <= e' + SCALE → Zpos (shl_align m e e').1 * pow2 e' = Zpos m * pow2 e.
Proof.
  intros Hle He'. unfold shl_align. destruct (e' - e) as [|k|k] eqn:Hk; [| lia |]; cbn [fst].
  - by replace e' with e by lia.
  - rewrite shift_value. replace (pow2 e) with (2 ^ Zpos k * pow2 e'); [ring |]. rewrite <-pow2_add by lia. f_equal. lia.
Qed.
Lemma add_within x y lo1 hi1 lo2 hi2 ylo yhi :
  within x lo1 hi1 → within y lo2 hi2 → nonneg ylo → nonneg yhi → value ylo <= lo1 + lo2 → hi1 + hi2 <= value yhi →
  within (SFadd prec emax x y) (value ylo) (value yhi).
Proof.
  intros [Hx [Hx1 Hx2]] [Hy [Hy1 Hy2]] Hlo Hhi Hl Hh.
  destruct x as [sx|[]| |[] mx ex]; try done; destruct y as [sy|[]| |[] my ey]; try done; cbn [SFadd value] in *.
  - destruct sx, sy; (split; [done | cbn [value]; lia]).
  - split; [done | cbn [value]; lia].
  - split; [done | cbn [value]; lia].
  - destruct (bounded_spec _ _ Hx) as (_ & Hex & _). destruct (bounded_spec _ _ Hy) as (_ & Hey & _).
    cbn [cond_Zopp]. set (ez := Z.min ex ey).
    pose proof (shl_align_value mx ex ez ltac:(lia) ltac:(lia)) as Hvx. pose proof (shl_align_value my ey ez ltac:(lia) ltac:(lia)) as Hvy.
    destruct (shl_align mx ex ez) as [a ?], (shl_align my ey ez) as [b ?]. cbn [fst] in *.
    change (Zpos a + Zpos b) with (Zpos (a + b)). cbn [binary_normalize].
    apply binary_round_within; try done; [lia |]. rewrite Pos2Z.inj_add, Z.mul_add_distr_r. lia.
Qed.

Lemma digits2_mul a b : Zpos (digits2_pos a) + Zpos (digits2_pos b) - 1 <= Zpos (digits2_pos (a * b)).
Proof.
  pose proof (digits2_bounds a) as [Ha _]. pose proof (digits2_bounds b) as [Hb _]. pose proof (digits2_bounds (a * b)) as [_ H].
  set (da := Zpos (digits2_pos a)) in *. set (db := Zpos (digits2_pos b)) in *. assert (0 < da ∧ 0 < db) as [? ?] by lia.
  assert (Hlt : 2 ^ (da - 1 + (db - 1)) < 2 ^ Zpos (digits2_pos (a * b))).
  { rewrite Z.pow_add_r by lia. eapply Z.le_lt_trans; [| exact H]. rewrite Pos2Z.inj_mul. apply Z.mul_le_mono_nonneg; lia. }
  apply Z.pow_lt_mono_r_iff in Hlt; lia.
Qed.
Lemma mul_within x y lo1 hi1 lo2 hi2 ylo yhi :
  within x lo1 hi1 → within y lo2 hi2 → 0 <= lo1 → 0 <= lo2 → nonneg ylo → nonneg yhi →
  value ylo * 2 ^ SCALE <= lo1 * lo2 → hi1 * hi2 <= value yhi * 2 ^ SCALE →
  within (SFmul prec emax x y) (value ylo) (value yhi).
Proof.
  intros [Hx [Hx1 Hx2]] [Hy [Hy1 Hy2]] H1 H2 Hlo Hhi Hl Hh. assert (Hs : 0 < 2 ^ SCALE) by (apply Z.pow_pos_nonneg; unfold SCALE; lia).
  assert (Hzero : ∀ z : bool, value x * value y = 0 → within (S754_zero z) (value ylo) (value yhi)).
  { intros z Hz. split; [done |]. cbn [value]. assert (lo1 * lo2 <= value x * value y <= hi1 * hi2) by (split; apply Z.mul_le_mono_nonneg; lia). nia. }
  destruct x as [sx|[]| |[] mx ex]; try done; destruct y as [sy|[]| |[] my ey]; try done; cbn [SFmul]; try (apply Hzero; cbn [value]; lia).
  destruct (bounded_spec _ _ Hx) as (Hcx & Hex & _). destruct (bounded_spec _ _ Hy) as (Hcy & Hey & _). cbn [xorb value] in *.
  assert (Hv : Zpos (mx * my) * pow2 (ex + ey) * 2 ^ SCALE = (Zpos mx * pow2 ex) * (Zpos my * pow2 ey)).
  { rewrite Pos2Z.inj_mul. unfold pow2. replace (ex + ey + SCALE + SCALE) with (ex + SCALE + (ey + SCALE)) by lia.
    transitivity (Zpos mx * Zpos my * 2 ^ (ex + ey + SCALE + SCALE)).
    - rewrite (Z.pow_add_r 2 (ex + ey + SCALE)) by (unfold SCALE in *; lia). ring.
    - replace (ex + ey + SCALE + SCALE) with (ex + SCALE + (ey + SCALE)) by lia. rewrite Z.pow_add_r by lia. ring. }
  assert (Hb : lo1 * lo2 <= Zpos mx * pow2 ex * (Zpos my * pow2 ey) <= hi1 * hi2) by (split; apply Z.mul_le_mono_nonneg; lia).
  apply round_within; try done; [lia | |].
  - pose proof (digits2_mul mx my). unfold SpecFloat.fexp in *. lia.
  - split; apply (Z.mul_le_mono_pos_r _ _ (2 ^ SCALE)); lia.
Qed.

(** Any rounding gives a number of the format or an infinity. *)
Definition rounded (x : spec_float) : Prop := nonneg x ∨ x = S754_infinity false.
Lemma round_valid m e l : 0 <= m → e <= fexp (Zdigits2 m + e) → 0 <= e + SCALE → rounded (binary_round_aux prec emax false m e l).
Proof.
  intros Hm Hshift He. unfold binary_round_aux. unfold shr_fexp at 1. set (E := fexp (Zdigits2 m + e)) in *.
  destruct (shr_round_any m l e (E - e) Hm ltac:(lia)) as (m' & Hr & [Hq Hq1] & _).
  destruct (shr _ _ _) as [mrs e']. injection Hr as Hr ->. rewrite Hr. replace (e + (E - e)) with E by lia.
  assert (0 <= m / 2 ^ (E - e)) by (apply Z.div_pos; lia). assert (1 <= 2 ^ prec) by (assert (0 < 2 ^ prec) by (apply Z.pow_pos_nonneg; lia); lia).
  change (rounded (pack m' E)). destruct (pack_spec m' E) as [[-> _]|[Hn _]]; [| | | by right | by left].
  - split; [lia |]. destruct (Z.eq_dec m 0) as [Hz|Hz]; [rewrite Hz, Z.div_0_l in Hq1 by (apply Z.pow_nonzero; lia); lia |].
    destruct m as [|m|m]; [done | | lia].
    pose proof (quotient_small m e Hshift : Zpos m / 2 ^ (E - e) < 2 ^ prec). lia.
  - unfold E, SpecFloat.fexp. lia.
  - intros Hgt. destruct m as [|m|m]; [| | lia].
    + exfalso. unfold E in *. cbn [Zdigits2] in *. unfold SpecFloat.fexp in *. lia.
    + pose proof (quotient_large m e Hshift Hgt : 2 ^ (prec - 1) <= Zpos m / 2 ^ (E - e)). lia.
Qed.
Lemma div_valid x my ey : nonneg x → bounded prec emax my ey = true → rounded (SFdiv prec emax x (S754_finite false my ey)).
Proof.
  intros Hx Hy. destruct x as [sx|[]| |[] mx ex]; try done; cbn [SFdiv]; [by left |].
  destruct (bounded_spec _ _ Hx) as (_ & Hex & _). destruct (bounded_spec _ _ Hy) as (_ & Hey & _).
  unfold SFdiv_core_binary. cbn [Zdigits2 xorb].
  set (d1 := Zpos (digits2_pos mx)). set (d2 := Zpos (digits2_pos my)).
  set (e' := Z.min (fexp (d1 + ex - (d2 + ey))) (ex - ey)).
  set (s := ex - ey - e'). assert (Hs : 0 <= s) by lia.
  assert (Hm' : match s with Z0 => Zpos mx | Zpos _ => Z.shiftl (Zpos mx) s | Zneg _ => 0 end = Zpos mx * 2 ^ s).
  { destruct s as [|p|p] eqn:Hp; [cbn; lia | by rewrite Z.shiftl_mul_pow2 by lia | lia]. }
  rewrite Hm'. unfold Z.div. pose proof (Z_div_mod (Zpos mx * 2 ^ s) (Zpos my) ltac:(lia)) as Hdiv.
  destruct (Z.div_eucl (Zpos mx * 2 ^ s) (Zpos my)) as [q r]. destruct Hdiv as [Hq Hr].
  pose proof (digits2_bounds mx) as [Hx1 _]. pose proof (digits2_bounds my) as [_ Hy2]. fold d1 in Hx1. fold d2 in Hy2.
  assert (Hpow : 0 < 2 ^ s) by (apply Z.pow_pos_nonneg; lia).
  assert (HX : 0 < Zpos mx * 2 ^ s) by (apply Z.mul_pos_pos; lia). assert (Hq0 : 0 <= q) by nia.
  assert (He' : d1 + ex - (d2 + ey) = d1 + s - d2 + e') by lia.
  assert (HEm : Emin = 3 - emax - prec) by done. apply round_valid; [done | | unfold e', SpecFloat.fexp; lia].
  assert (Hdq : d1 + s - d2 <= Zdigits2 q).
  { destruct (Z.le_gt_cases (d1 + s - d2) 0) as [|Hgt]; [destruct q; cbn [Zdigits2]; lia |].
    assert (Hlt : 2 ^ (d1 + s - 1) < 2 ^ d2 * (q + 1)).
    { replace (d1 + s - 1) with (d1 - 1 + s) by lia. rewrite Z.pow_add_r by lia.
      apply Z.le_lt_trans with (Zpos mx * 2 ^ s); [apply Z.mul_le_mono_nonneg_r; lia |]. rewrite Hq.
      apply Z.lt_le_trans with (Zpos my * (q + 1)); [lia |]. apply Z.mul_le_mono_nonneg_r; lia. }
    assert (Hq1 : 2 ^ (d1 + s - 1 - d2) < q + 1).
    { apply (Z.mul_lt_mono_pos_l (2 ^ d2)); [apply Z.pow_pos_nonneg; lia |]. rewrite <-Z.pow_add_r by lia.
      by replace (d2 + (d1 + s - 1 - d2)) with (d1 + s - 1) by lia. }
    assert (0 < 2 ^ (d1 + s - 1 - d2)) by (apply Z.pow_pos_nonneg; lia).
    destruct q as [|q|q]; [lia | | lia]. cbn [Zdigits2]. pose proof (digits2_bounds q) as [_ Hq2].
    assert (Hl2 : 2 ^ (d1 + s - 1 - d2) < 2 ^ Zpos (digits2_pos q)) by lia. apply Z.pow_lt_mono_r_iff in Hl2; lia. }
  etrans; [apply Z.le_min_l |]. rewrite He'. apply fexp_mono. lia.
Qed.

Lemma div_rounded x my ey : rounded x → bounded prec emax my ey = true → rounded (SFdiv prec emax x (S754_finite false my ey)).
Proof. intros [Hx| ->] Hy; [by apply div_valid | by right]. Qed.
Lemma binary_round_valid m e : 0 <= e + SCALE → 0 <= Zpos (digits2_pos m) + e + SCALE - prec → rounded (binary_round prec emax false m e).
Proof.
  intros He Hd0. unfold binary_round, shl_align. set (E := fexp (Zpos (digits2_pos m) + e)).
  destruct (E - e) as [|k|k] eqn:Hk; [apply round_valid; cbn [Zdigits2]; lia.. |].
  pose proof (E_bounds m e) as HEb. fold E in HEb.
  apply round_valid; [lia | | lia]. cbn [Zdigits2].
  assert (Hd : Zpos (digits2_pos m) + Zpos k <= Zpos (digits2_pos (Pos.iter xO m k))).
  { pose proof (digits2_bounds m) as [H1 _]. pose proof (digits2_bounds (Pos.iter xO m k)) as [_ H2]. rewrite shift_value in H2.
    assert (Hlt : 2 ^ (Zpos (digits2_pos m) - 1 + Zpos k) < 2 ^ Zpos (digits2_pos (Pos.iter xO m k))).
    { rewrite Z.pow_add_r by lia. eapply Z.le_lt_trans; [| exact H2]. apply Z.mul_le_mono_nonneg_r; [apply Z.pow_nonneg; lia | done]. }
    apply Z.pow_lt_mono_r_iff in Hlt; lia. }
  fold fexp. transitivity (fexp (Zpos (digits2_pos m) + e)); [done |]. apply fexp_mono. lia.
Qed.

(** Numbers of the format are compared as their values. *)
Lemma finite_exponent m e m' e' :
  bounded prec emax m e = true → bounded prec emax m' e' = true → Zpos m * pow2 e <= Zpos m' * pow2 e' → e <= e'.
Proof.
  intros Hb Hb' Hle. destruct (bounded_spec _ _ Hb) as (_ & He & Hm & Hlarge), (bounded_spec _ _ Hb') as (_ & He' & Hm' & _).
  destruct (Z.le_gt_cases e e') as [|Hgt]; [done | exfalso].
  assert (Hp : pow2 e = 2 ^ (e - e') * pow2 e') by (rewrite <-pow2_add by lia; f_equal; lia).
  pose proof (pow2_pos e' ltac:(lia)) as Hpe. specialize (Hlarge ltac:(lia)).
  assert (H2 : 2 <= 2 ^ (e - e')) by (change 2 with (2 ^ 1) at 1; apply Z.pow_le_mono_r; lia).
  assert (Hpr : 2 ^ prec = 2 ^ (prec - 1) * 2) by (rewrite Z.mul_comm, <-Z.pow_succ_r by lia; f_equal; lia).
  rewrite Hp, Z.mul_assoc in Hle. apply Z.mul_le_mono_pos_r in Hle; [| done].
  assert (2 ^ (prec - 1) * 2 <= Zpos m * 2 ^ (e - e')) by (apply Z.mul_le_mono_nonneg; lia). lia.
Qed.
Lemma finite_compare m e m' e' :
  bounded prec emax m e = true → bounded prec emax m' e' = true →
  SFcompare (S754_finite false m e) (S754_finite false m' e') = Some (Zpos m * pow2 e ?= Zpos m' * pow2 e').
Proof.
  intros Hb Hb'. pose proof (finite_exponent m e m' e' Hb Hb') as H1. pose proof (finite_exponent m' e' m e Hb' Hb) as H2.
  pose proof (proj1 (proj2 (bounded_spec _ _ Hb))). cbn [SFcompare].
  destruct (Z.compare_spec e e') as [->|?|?]; f_equal; symmetry; [| apply Z.compare_lt_iff; lia | apply Z.compare_gt_iff; lia].
  pose proof (pow2_pos e' ltac:(lia)). change (Pos.compare_cont Eq m m') with (Zpos m ?= Zpos m').
  symmetry. apply Zmult_compare_compat_r. lia.
Qed.
Lemma nonneg_value x : nonneg x → 0 <= value x ∧ (value x = 0 ↔ ∃ s, x = S754_zero s).
Proof.
  destruct x as [s|[]| |[] m e]; cbn [value]; try done; intros Hx; [by split; [| split; [exists s |]] |].
  apply bounded_spec in Hx as (_ & He & _). pose proof (pow2_pos e ltac:(lia)). split; [nia |]. split; [nia | by intros [? ?]].
Qed.
Lemma nonneg_compare x y : nonneg x → nonneg y → SFcompare x y = Some (value x ?= value y).
Proof.
  intros Hx Hy. destruct x as [|[]| |[] m e], y as [|[]| |[] m' e']; try done; [| | by apply finite_compare];
    cbn [SFcompare value] in *; f_equal; symmetry.
  - apply nonneg_value in Hy as [Hge Hz]. cbn [value] in *. apply Z.compare_lt_iff. destruct (Z.eq_dec 0 (Zpos m' * pow2 e')) as [H|]; [| lia].
    by destruct (proj1 Hz (eq_sym H)).
  - apply nonneg_value in Hx as [Hge Hz]. cbn [value] in *. apply Z.compare_gt_iff. destruct (Z.eq_dec 0 (Zpos m * pow2 e)) as [H|]; [| lia].
    by destruct (proj1 Hz (eq_sym H)).
Qed.
Lemma within_compare x y lo hi lo' hi' : within x lo hi → within y lo' hi' → hi < lo' → SFcompare x y = Some Lt.
Proof. intros [Hx Hvx] [Hy Hvy] Hlt. rewrite nonneg_compare by done. f_equal. apply Z.compare_lt_iff. lia. Qed.
End format.

(** * Binary32 *)

Notation within32 := (within 24 128).
Definition unit32 (x : f32) : Prop := within32 x 0 (value (f32_of_N 1)).
Definition unit64 (x : f64) : Prop := within 53 1024 x 0 (value (f64_of_N 1)).

Lemma within_weaken prec emax x lo hi lo' hi' : within prec emax x lo hi → lo' <= lo → hi <= hi' → within prec emax x lo' hi'.
Proof. intros [Hx Hv] ? ?. split; [done | lia]. Qed.
Lemma f32_add_within x y lo1 hi1 lo2 hi2 ylo yhi :
  within32 x lo1 hi1 → within32 y lo2 hi2 → nonneg 24 128 ylo → nonneg 24 128 yhi → value ylo <= lo1 + lo2 → hi1 + hi2 <= value yhi →
  within32 (f32_add x y) (value ylo) (value yhi).
Proof. apply add_within; unfold SCALE, emin; lia. Qed.
Lemma f32_mul_within x y lo1 hi1 lo2 hi2 ylo yhi :
  within32 x lo1 hi1 → within32 y lo2 hi2 → 0 <= lo1 → 0 <= lo2 → nonneg 24 128 ylo → nonneg 24 128 yhi →
  value ylo * 2 ^ SCALE <= lo1 * lo2 → hi1 * hi2 <= value yhi * 2 ^ SCALE → within32 (f32_mul x y) (value ylo) (value yhi).
Proof. apply mul_within; unfold SCALE, emin; lia. Qed.
Lemma f32_compare_within x y lo hi lo' hi' : within32 x lo hi → within32 y lo' hi' → hi < lo' → SFcompare x y = Some Lt.
Proof. apply within_compare; unfold SCALE, emin; lia. Qed.

(** The exponents of the two formats. *)
Lemma bounded_exponent prec emax m e : bounded prec emax m e = true → 3 - emax - prec <= e <= emax - prec.
Proof. unfold bounded, canonical_mantissa, fexp, emin. intros [?%Z.eqb_eq ?%Z.leb_le]%andb_true_iff. lia. Qed.

(** A constant of the format lies between itself. *)
Lemma within_self x : nonneg 24 128 x → within32 x (value x) (value x).
Proof. intros Hx. split; [done | lia]. Qed.

Lemma f32_of_N_within n : (n <= 2 ^ 64)%N → within32 (f32_of_N n) (if (n =? 0)%N then 0 else value (f32_of_N 1)) (value (f32_of_N (2 ^ 64))).
Proof.
  intros Hn. destruct n as [|p]; [by split |]. change (f32_of_N (N.pos p)) with (binary_round 24 128 false p 0).
  change (N.pos p =? 0)%N with false. cbv iota.
  assert (H1 : value (f32_of_N 1) = pow2 0) by (vm_compute; reflexivity).
  assert (H64 : value (f32_of_N (2 ^ 64)) = 2 ^ 64 * pow2 0) by (vm_compute; reflexivity).
  assert (Hp0 : 0 < pow2 0) by (apply pow2_pos; unfold SCALE; lia).
  apply binary_round_within; [unfold emin, SCALE; lia.. | done | done |]. rewrite H1, H64. split; [nia |].
  apply Z.mul_le_mono_nonneg_r; lia.
Qed.

(** What is a number is clamped into the unit interval. *)
Definition number32 (x : f32) : Prop := is_f32 x ∧ x ≠ S754_nan.
Lemma rounded_number32 x : rounded 24 128 x → number32 x.
Proof. by intros [Hx| ->]; [destruct x as [|[]| |[] m e] |]. Qed.
Lemma clamp_rounded32 x : rounded 24 128 x → unit32 (f64_clamp x (S754_zero false) (f32_of_N 1)).
Proof.
  intros Hx. assert (Hlo : f64_lt x (S754_zero false) = false) by (by destruct Hx as [Hx| ->]; [destruct x as [s|[]| |[] m e] |]).
  unfold f64_clamp. rewrite Hlo. destruct (f64_lt (f32_of_N 1) x) eqn:Hhi.
  - split; [done |]. vm_compute. split; discriminate.
  - destruct Hx as [Hx| ->]; [| vm_compute in Hhi; discriminate]. split; [done |].
    destruct (Z.le_gt_cases (value x) (value (f32_of_N 1))) as [Hle|Hgt].
    + split; [| done]. destruct x as [|[]| |[] m e]; cbn [value]; try done. apply Z.mul_nonneg_nonneg; [lia |].
      unfold pow2. apply Z.pow_nonneg. lia.
    + exfalso. assert (Hc : SFcompare (f32_of_N 1) x = Some Lt).
      { apply (f32_compare_within _ _ (value (f32_of_N 1)) (value (f32_of_N 1)) (value x) (value x)); [by apply within_self | by split; [| lia] | done]. }
      unfold f64_lt, SFltb in Hhi. by rewrite Hc in Hhi.
Qed.

Lemma clamp_unit32 x : number32 x → unit32 (f64_clamp x (S754_zero false) (f32_of_N 1)).
Proof.
  intros [Hx Hn]. destruct x as [s|[]| |[] m e]; try done;
    try (apply clamp_rounded32; first [by left | by right]);
    (split; [done |]; vm_compute; split; discriminate).
Qed.

(** One less than a count. *)
Lemma f32_pred_within n : (1 <= n <= 2 ^ 64)%N → nonneg 24 128 (f32_sub (f32_of_N n) (f32_of_N 1)).
Proof.
  intros Hn. destruct (f32_of_N_within n (proj2 Hn)) as [Hv [Hlo _]].
  rewrite (proj2 (N.eqb_neq n 0)) in Hlo by lia.
  destruct (f32_of_N n) as [|[]| |[] m e] eqn:E; try done.
  change (f32_of_N 1) with (S754_finite false 8388608 (-23)) in *. unfold f32_sub. cbn [SFsub cond_Zopp].
  pose proof (bounded_exponent _ _ _ _ Hv) as He. set (ez := Z.min e (-23)).
  pose proof (shl_align_value m e ez ltac:(lia) ltac:(unfold SCALE; lia)) as H1.
  pose proof (shl_align_value 8388608 (-23) ez ltac:(lia) ltac:(unfold SCALE; lia)) as H2.
  destruct (shl_align m e ez) as [a ?], (shl_align 8388608 (-23) ez) as [b ?]. cbn [fst value] in *.
  assert (Hp : 0 < pow2 ez) by (apply pow2_pos; unfold SCALE; lia).
  assert (Hab : Zpos b <= Zpos a) by (apply (Z.mul_le_mono_pos_r _ _ (pow2 ez)); lia).
  destruct (Zpos a - Zpos b) as [|c|c] eqn:Hc; [done | | lia]. cbn [binary_normalize].
  assert (Hw : within32 (binary_round 24 128 false c ez) (value (S754_zero false)) (value (S754_finite false m e))); [| by destruct Hw].
  apply binary_round_within; [unfold emin, SCALE; lia.. | done | done |]. cbn [value]. rewrite <-H1. split; [nia |].
  apply Z.mul_le_mono_nonneg_r; lia.
Qed.
Lemma f32_div_rounded x n : nonneg 24 128 x → (1 <= n <= 2 ^ 64)%N → rounded 24 128 (f32_div x (f32_of_N n)).
Proof.
  intros Hx Hn. destruct (f32_of_N_within n (proj2 Hn)) as [Hv [Hlo _]]. rewrite (proj2 (N.eqb_neq n 0)) in Hlo by lia.
  destruct (f32_of_N n) as [|[]| |[] m e]; try done.
  apply div_valid; unfold SCALE, emin; done || lia.
Qed.
(** A double of the unit interval is converted into it. *)
Lemma f32_of_f64_unit x : unit64 x → unit32 (f32_of_f64 x).
Proof.
  intros [Hx [_ Hhi]]. destruct x as [s|[]| |[] m e]; try done.
  pose proof (bounded_exponent _ _ _ _ Hx) as He. cbn [value] in Hhi. unfold unit32. change 0 with (value (S754_zero false)).
  apply binary_round_within; [unfold emin, SCALE; lia.. | done | done |]. cbn [value].
  assert (H1 : value (f64_of_N 1) = value (f32_of_N 1)) by (vm_compute; reflexivity). rewrite <-H1. split; [| done].
  apply Z.mul_nonneg_nonneg; [lia |]. unfold pow2. apply Z.pow_nonneg. lia.
Qed.
