(* ===== verification/Evidence.v ===== *)
(** [engram_server::services::ask_engine]: the evidence of an answer
    (evidence.rs), the plan of a question (plan.rs) and the depth of its
    retrieval (retrieval.rs), as far as the ranking of evidence uses them. *)
From S2P Require Import Prelude Text Unicode F64.

Open Scope N_scope.

(** * Definitions *)

(** ** Numbers *)

(** The literal of the decimal fraction [n / d], as for [f64_lit]. *)
Definition f32_lit (n d : N) : f32 := f32_div (f32_of_N n) (f32_of_N d).
Definition f32_zero : f32 := S754_zero false.
Definition f32_one : f32 := f32_of_N 1.
(** [f32::min], [f32::clamp]. *)
Definition f32_min (x y : f32) : f32 := f64_min x y.
Definition f32_clamp (x lo hi : f32) : f32 := f64_clamp x lo hi.
(** [x as i64]: toward zero, saturating; a NaN is zero. *)
Definition i64_max : Z := 9223372036854775807.
Definition i64_min : Z := -9223372036854775808.
Definition f32_to_i64 (x : f32) : Z :=
  match x with
  | S754_finite s m e =>
      let n := match e with Zneg k => Z.of_N (N.pos m / 2 ^ N.pos k) | _ => Z.of_N (N.pos m * 2 ^ Z.to_N e) end in
      if s then Z.max (- n) i64_min else Z.min n i64_max
  | S754_infinity s => if s then i64_min else i64_max
  | _ => 0%Z
  end.
(** [partial_cmp(..).unwrap_or(Equal)]. *)
Definition f32_order (x y : f32) : comparison := default Eq (SFcompare x y).

(** ** Evidence *)

Inductive EvidenceKind :=
  | SourceCode | DocSection | MemoryNote | Insight | BusinessRule | HistoryCommit | GraphRelation | ConceptGroup
  | TestRef | Setting.
Inductive Authority :=
  | RuntimeEvidence | CurrentCode | ApprovedRequirement | CurrentDocs | MergedHistory | DerivedBusinessLogic
  | AgentMemory | DreamerInsight | SemanticSimilarity.
#[export] Instance EvidenceKind_eq_dec : EqDecision EvidenceKind.
Proof. solve_decision. Defined.
#[export] Instance Authority_eq_dec : EqDecision Authority.
Proof. solve_decision. Defined.

(** The derived [Ord]: the order of declaration, the strongest first. *)
Definition authority_rank (a : Authority) : N :=
  match a with
  | RuntimeEvidence => 0 | CurrentCode => 1 | ApprovedRequirement => 2 | CurrentDocs => 3 | MergedHistory => 4
  | DerivedBusinessLogic => 5 | AgentMemory => 6 | DreamerInsight => 7 | SemanticSimilarity => 8
  end.
Definition authority_lt (a b : Authority) : bool := authority_rank a <? authority_rank b.
Definition authority_weight (a : Authority) : f32 :=
  match a with
  | RuntimeEvidence => f32_one
  | CurrentCode => f32_lit 95 100
  | ApprovedRequirement => f32_lit 9 10
  | CurrentDocs => f32_lit 7 10
  | MergedHistory => f32_lit 6 10
  | DerivedBusinessLogic => f32_lit 55 100
  | AgentMemory => f32_lit 45 100
  | DreamerInsight => f32_lit 35 100
  | SemanticSimilarity => f32_lit 15 100
  end.

Record EvidenceItem := {
  evidence_id : string;
  document_id : option string;
  document_namespace : option string;
  source_verification : option string;
  kind : EvidenceKind;
  authority : Authority;
  path : option string;
  lines : option (N * N);
  symbol_id : option string;
  title : option string;
  content : string;
  generation : option N;
  commit : option string;
  timestamp : option N;
  confidence : f32;
  relevance : f32;
  extraction_method : string;
  warnings : list string;
  provider : string;
  score : option f32;
  directness : option f32;
}.
(** [it.directness = Some(d); it.score = Some(s)]. *)
Definition with_score (d s : f32) (e : EvidenceItem) : EvidenceItem :=
  {| evidence_id := evidence_id e; document_id := document_id e; document_namespace := document_namespace e;
     source_verification := source_verification e; kind := kind e; authority := authority e; path := path e;
     lines := lines e; symbol_id := symbol_id e; title := title e; content := content e; generation := generation e;
     commit := commit e; timestamp := timestamp e; confidence := confidence e; relevance := relevance e;
     extraction_method := extraction_method e; warnings := warnings e; provider := provider e;
     score := Some s; directness := Some d |}.

(** ** Plans *)

Inductive Intent :=
  | Explain | Impact | Usage | History | Rationale | Feature | BugDiagnosis | Requirements | Compare | TestIntent | Unknowns.
Inductive EntityKind :=
  | SymbolEntity | FileEntity | RouteEntity | TableEntity | ColumnEntity | SettingEntity | UiControl | Concept
  | Requirement | UnknownEntity.
#[export] Instance Intent_eq_dec : EqDecision Intent.
Proof. solve_decision. Defined.
#[export] Instance EntityKind_eq_dec : EqDecision EntityKind.
Proof. solve_decision. Defined.
Record ResolvedEntity := { entity_kind : EntityKind; canonical : string; entity_node_id : option string; entity_confidence : f32 }.
Record EntityMention := { mention_text : string; guessed_kind : EntityKind; resolved : list ResolvedEntity }.
Inductive Facet := DefinitionFacet | CallerFacet | ImplementationFacet | RationaleFacet.
#[export] Instance Facet_eq_dec : EqDecision Facet.
Proof. solve_decision. Defined.

Inductive Modality := Sql | Report | Resource | Markup | Script.
Definition suffixes (m : Modality) : list string :=
  match m with
  | Sql => [".sql"; ".dbml"; ".edmx"]
  | Report => [".rdl"; ".rdlc"]
  | Resource => [".resx"]
  | Markup => [".aspx"; ".ascx"; ".master"; ".cshtml"; ".vbhtml"; ".html"]
  | Script => [".ts"; ".tsx"; ".js"; ".jsx"]
  end.
Definition modality_matches `{LC : !Lowercase} (m : Modality) (path : string) : bool :=
  existsb (λ s, ends_with s (to_lowercase path)) (suffixes m).

(** The shape of the answer a question demands. *)
Inductive ContractDirection := NoDirection | Callers | Callees.
Inductive ContractEntityType := AnyEntity | FunctionContract | FileContract | TableContract | RouteContract.
Inductive Cardinality := One | TopK | ExhaustiveSet.
Inductive BehaviorOperation := CreateOp | RenameOp | UpdateOp | RemoveOp | ReadOp | ValidateOp.
#[export] Instance ContractDirection_eq_dec : EqDecision ContractDirection.
Proof. solve_decision. Defined.
#[export] Instance Cardinality_eq_dec : EqDecision Cardinality.
Proof. solve_decision. Defined.
#[export] Instance BehaviorOperation_eq_dec : EqDecision BehaviorOperation.
Proof. solve_decision. Defined.
Record AnswerContract := {
  direction : ContractDirection;
  contract_entity : ContractEntityType;
  cardinality : Cardinality;
  required_facets : list Facet;
  allowed_evidence : list EvidenceKind;
  completeness_required : bool;
  behavior_requirements : list BehaviorOperation;
  behavior_scope_context : option string;
}.
Definition default_contract : AnswerContract :=
  {| direction := NoDirection; contract_entity := AnyEntity; cardinality := TopK; required_facets := [];
     allowed_evidence := []; completeness_required := false; behavior_requirements := [];
     behavior_scope_context := None |}.
Record Qualifiers := {
  path_prefixes : list string;
  roles : list string;
  change : option (string * string);
  scopes : list string;
  symptoms : list string;
  versions : list string;
}.
Inductive AnswerType :=
  | Explanation | ImpactSet | UsageSites | Timeline | RationaleAnswer | PlanAnswer | RootCause | RequirementRef
  | Comparison | TestGuidance | CoverageGaps.

Record QueryPlan := {
  intents : list (Intent * f32);
  entities : list EntityMention;
  qualifiers : Qualifiers;
  needed_evidence : list EvidenceKind;
  answer_type : AnswerType;
  modalities : list Modality;
  contract : AnswerContract;
}.

Inductive Depth := Quick | Standard | Deep.
Definition evidence_cap (d : Depth) : nat := match d with Quick => 6 | Standard => 10 | Deep => 16 end.

Record Conflict := { conflict_summary : string; conflict_left : string; conflict_right : string; conflict_kind : string }.
