(* ===== verification/Ranking.v ===== *)
(** [engram_server::services::ask_engine::ranking]: which evidence an answer
    keeps. Duplicates are joined, what is left is scored and taken greedily
    under the caps, the evidence the plan requires is put back, and contradictions
    are pointed out. The clock, the power function of the mathematical library
    and the tables of Unicode are parameters. *)
From S2P Require Import Prelude Text Unicode Paths F64 Evidence.

Open Scope N_scope.

(** * Definitions *)

(** [f64::powf], whose precision the library leaves open. *)
Class Libm := { powf : f64 → f64 → f64 }.

(** [Iterator::max_by], which keeps the last of equals, and [min_by], which keeps
    the first. *)
Definition max_by {A} (cmp : A → A → comparison) (l : list A) : option A :=
  foldl (λ best x, match best with
                   | Some b => match cmp b x with Gt => Some b | _ => Some x end
                   | None => Some x
                   end) None l.
Definition min_by_cmp {A} (cmp : A → A → comparison) (l : list A) : option A :=
  foldl (λ best x, match best with
                   | Some b => match cmp b x with Gt => Some x | _ => Some b end
                   | None => Some x
                   end) None l.
Definition cmp_relevance (a b : EvidenceItem) : comparison := f32_order (relevance a) (relevance b).

Section ranking.
Context `{LM : !Libm} `{LC : !Lowercase} `{AN : !Alphanumeric}.

(** ** Scores *)

Definition HALFLIFE_MS : f64 :=
  f64_mul (f64_mul (f64_mul (f64_of_N 30) (f64_of_N 24)) (f64_of_N 3600)) (f64_of_N 1000).
Definition or_else (a b : option string) : option string := match a with Some _ => a | None => b end.
Definition subject_key (ev : EvidenceItem) : string :=
  default (evidence_id ev) (or_else (or_else (symbol_id ev) (path ev)) (title ev)).
Definition default_directness (ev : EvidenceItem) : f32 :=
  let base :=
    match kind ev with
    | GraphRelation => f32_lit 9 10
    | SourceCode => f32_lit 7 10
    | BusinessRule | Setting => f32_lit 6 10
    | MemoryNote | DocSection | TestRef => f32_lit 5 10
    | HistoryCommit | ConceptGroup => f32_lit 45 100
    | Insight => f32_lit 35 100
    end in
  if decide (authority ev = SemanticSimilarity) then f32_min base (f32_lit 2 10) else base.
Definition recency (ts : option N) (now_ms : N) : f32 :=
  match ts with
  | Some t => if (0 <? t) && (t <=? now_ms)
              then f32_of_f64 (powf (f64_lit 5 10) (f64_div (f64_of_N (now_ms - t)) HALFLIFE_MS)) else f32_zero
  | None => f32_zero
  end.
Definition score_of (ev : EvidenceItem) (d corroboration : f32) (now_ms : N) : f32 :=
  f32_add (f32_add (f32_add (f32_add
    (f32_mul (f32_lit 40 100) (authority_weight (authority ev)))
    (f32_mul (f32_lit 30 100) d))
    (f32_mul (f32_lit 15 100) (f32_clamp (relevance ev) f32_zero f32_one)))
    (f32_mul (f32_lit 10 100) corroboration))
    (f32_mul (f32_lit 5 100) (recency (timestamp ev) now_ms)).

(** ** Duplicates *)

Definition same_evidence (it existing : EvidenceItem) : bool :=
  match symbol_id it, symbol_id existing with
  | Some a, Some b => String.eqb a b
  | _, _ => bool_decide (is_Some (path it)) && bool_decide (path it = path existing) && bool_decide (lines it = lines existing)
  end.
Definition better_evidence (it existing : EvidenceItem) : bool :=
  authority_lt (authority it) (authority existing)
  || (bool_decide (authority it = authority existing) && f32_lt (relevance existing) (relevance it)).
(** Joined with the first item that is the same, or kept. *)
Fixpoint join_evidence (it : EvidenceItem) (best : list EvidenceItem) : list EvidenceItem :=
  match best with
  | [] => [it]
  | existing :: rest =>
      if same_evidence it existing then (if better_evidence it existing then it else existing) :: rest
      else existing :: join_evidence it rest
  end.
Definition dedup (items : list EvidenceItem) : list EvidenceItem := foldl (λ best it, join_evidence it best) [] items.

(** ** Reserves *)

Definition question_words (question : string) : list string :=
  filter (λ t, (5 <= String.length t)%nat)
    (split_at (λ c, negb (is_alphanumeric c) && negb (String.eqb c "_")) (to_lowercase question)).
Definition reserve_key (words : list string) (e : EvidenceItem) : nat * Z :=
  let hay := to_lowercase (default "" (path e)) +:+ " " +:+ to_lowercase (content e) in
  (length (filter (λ w, str_contains w hay = true) words), f32_to_i64 (f32_mul (relevance e) (f32_of_N 1000))).
Definition key_cmp (a b : nat * Z) : comparison := match Nat.compare a.1 b.1 with Eq => Z.compare a.2 b.2 | c => c end.
Definition cmp_reserve (words : list string) (a b : EvidenceItem) : comparison :=
  key_cmp (reserve_key words a) (reserve_key words b).

Definition pop {A} (l : list A) : list A := take (length l - 1) l.
Definition promote (best : EvidenceItem) (chosen : list EvidenceItem) : list EvidenceItem := pop chosen ++ [best].

Definition of_kind (k : EvidenceKind) (e : EvidenceItem) : bool := bool_decide (kind e = k).
Definition of_modality (m : Modality) (e : EvidenceItem) : bool :=
  match path e with Some p => modality_matches m p | None => false end.
Definition slashed (p : string) : string := to_lowercase (replace_char BACKSLASH SLASH p).
Definition of_file (t : string) (e : EvidenceItem) : bool :=
  match path e with
  | Some p => let p := slashed p in String.eqb p t || ends_with ("/" +:+ t) p || ends_with ("/" +:+ p) t
  | None => false
  end.
Definition is_definition (e : EvidenceItem) : bool :=
  String.eqb (provider e) "definition" || str_contains "definition" (extraction_method e).
Definition has (set : list EvidenceItem) (pred : EvidenceItem → bool) : bool := existsb pred set.
Definition has_id (id : string) (set : list EvidenceItem) : bool := has set (λ e, String.eqb (evidence_id e) id).

Definition reserve_needed_kinds (raw : list EvidenceItem) (needed : list EvidenceKind) (chosen : list EvidenceItem)
  : list EvidenceItem :=
  foldl (λ chosen k,
    if has chosen (of_kind k) then chosen
    else match max_by cmp_relevance (filter (λ e, of_kind k e = true) raw) with
         | Some best => promote best chosen
         | None => chosen
         end) chosen needed.
Definition reserve_modality (raw : list EvidenceItem) (words : list string) (chosen : list EvidenceItem) (m : Modality)
  : list EvidenceItem :=
  match max_by (cmp_reserve words) (filter (λ e, of_modality m e = true) raw) with
  | None => chosen
  | Some best =>
      match max_by key_cmp (reserve_key words <$> filter (λ e, of_modality m e = true) chosen) with
      | Some h =>
          if Nat.leb (reserve_key words best).1 h.1 then chosen
          else
            let kept := filter (λ e, of_modality m e && Nat.ltb (reserve_key words e).1 (reserve_key words best).1 = false) chosen in
            if has kept (λ e, of_modality m e && String.eqb (evidence_id e) (evidence_id best)) then kept else kept ++ [best]
      | None => promote best chosen
      end
  end.
Definition reserve_modalities (raw : list EvidenceItem) (modalities : list Modality) (question : string)
  (chosen : list EvidenceItem) : list EvidenceItem :=
  foldl (reserve_modality raw (question_words question)) chosen modalities.
(** The files a plan names. *)
Definition entity_files (plan : QueryPlan) : list string :=
  filter (λ p, p ≠ "")
    ((λ r, slashed (canonical r)) <$> filter (λ r, entity_kind r = FileEntity) (entities plan ≫= resolved)).
Definition reserve_entity_files (raw : list EvidenceItem) (plan : QueryPlan) (chosen : list EvidenceItem)
  : list EvidenceItem :=
  foldl (λ chosen t,
    if has chosen (of_file t) then chosen
    else match max_by cmp_relevance (filter (λ e, of_file t e = true) raw) with
         | Some best => pop chosen ++ [best]
         | None => chosen
         end) chosen (entity_files plan).

(** *** The reserve of everything the plan requires *)

Definition MODALITY_SLOTS : nat := 3.
(** What is to be added, and the ids nothing may evict. *)
Record Reserve := { wanted : list EvidenceItem; protected : gset string }.
Definition want (e : EvidenceItem) (st : Reserve) : Reserve := {| wanted := wanted st ++ [e]; protected := protected st |}.
Definition protect (id : string) (st : Reserve) : Reserve := {| wanted := wanted st; protected := {[id]} ∪ protected st |}.
Definition want_new (e : EvidenceItem) (st : Reserve) : Reserve :=
  if has_id (evidence_id e) (wanted st) then st else want e st.

Section required.
Context (chosen raw : list EvidenceItem) (words : list string).

Definition by_key (a b : EvidenceItem) : Prop := key_cmp (reserve_key words b) (reserve_key words a) ≠ Gt.
#[export] Instance by_key_dec : RelDecision by_key.
Proof. intros a b. unfold by_key. apply _. Defined.
Definition best_by_key (pred : EvidenceItem → bool) (l : list EvidenceItem) : option EvidenceItem :=
  max_by (cmp_reserve words) (filter (λ e, pred e = true) l).
Definition best_by_relevance (pred : EvidenceItem → bool) (l : list EvidenceItem) : option EvidenceItem :=
  max_by cmp_relevance (filter (λ e, pred e = true) l).

Definition slot (st : Reserve) (c : EvidenceItem) : Reserve :=
  let st := if has_id (evidence_id c) chosen then protect (evidence_id c) st else st in
  if has_id (evidence_id c) chosen || has_id (evidence_id c) (wanted st) then st else want c st.
Definition candidates (m : Modality) : list EvidenceItem :=
  take MODALITY_SLOTS (stable_sort by_key (filter (λ e, of_modality m e = true) raw)).
Definition require_modality (st : Reserve) (m : Modality) : Reserve := foldl slot st (candidates m).
(** One item that satisfies a test: wanted already, or the best chosen one, or
    the best of the pool. *)
Definition require_one (pred : EvidenceItem → bool) (best : option EvidenceItem) (add : EvidenceItem → Reserve → Reserve)
  (st : Reserve) : Reserve :=
  if has (wanted st) pred then st
  else match best_by_key pred chosen with
       | Some existing => protect (evidence_id existing) st
       | None => match best with Some b => add b st | None => st end
       end.
Definition require_kind (st : Reserve) (k : EvidenceKind) : Reserve :=
  require_one (of_kind k) (best_by_relevance (of_kind k) raw) want_new st.
Definition require_file (st : Reserve) (t : string) : Reserve :=
  require_one (of_file (slashed t)) (best_by_key (of_file (slashed t)) raw) want_new st.
Definition require_definition (st : Reserve) : Reserve :=
  require_one is_definition (best_by_relevance is_definition raw) want st.
Definition requirements (needed : list EvidenceKind) (modalities : list Modality) (files : list string)
  (pin_definition : bool) : Reserve :=
  let st := foldl require_modality {| wanted := []; protected := ∅ |} modalities in
  let st := foldl require_kind st needed in
  let st := foldl require_file st files in
  if pin_definition then require_definition st else st.
End required.

Definition ranked_score (e : EvidenceItem) : f32 := default (relevance e) (score e).
Definition cmp_score (a b : nat * EvidenceItem) : comparison := f32_order (ranked_score a.2) (ranked_score b.2).
Definition indexed {A} (l : list A) : list (nat * A) := zip (seq 0 (length l)) l.
(** The weakest item that is not protected. *)
Definition victim (prot : gset string) (chosen : list EvidenceItem) : option nat :=
  fst <$> min_by_cmp cmp_score (filter (λ ie : nat * EvidenceItem, evidence_id ie.2 ∉ prot) (indexed chosen)).
Record Admission := { admitted : list EvidenceItem; guarded_ids : gset string; room_left : nat }.
Definition admit_wanted (st : Admission) (w : EvidenceItem) : Admission :=
  if has_id (evidence_id w) (admitted st) then st
  else
    match room_left st with
    | S room => {| admitted := admitted st ++ [w]; guarded_ids := {[evidence_id w]} ∪ guarded_ids st; room_left := room |}
    | O =>
        let kept := match victim (guarded_ids st) (admitted st) with Some i => delete i (admitted st) | None => admitted st end in
        {| admitted := kept ++ [w]; guarded_ids := {[evidence_id w]} ∪ guarded_ids st; room_left := O |}
    end.
Definition reserve_required_with_room (chosen raw : list EvidenceItem) (needed : list EvidenceKind)
  (modalities : list Modality) (files : list string) (question : string) (pin_definition : bool) (room : nat)
  : list EvidenceItem * gset string :=
  let words := question_words question in
  let st := requirements chosen raw words needed modalities files pin_definition in
  let prot := list_to_set (evidence_id <$> wanted st) ∪ protected st in
  let out := foldl admit_wanted {| admitted := chosen; guarded_ids := prot; room_left := room |} (wanted st) in
  (admitted out, guarded_ids out).
Definition reserve_required_with (chosen raw : list EvidenceItem) (needed : list EvidenceKind)
  (modalities : list Modality) (files : list string) (question : string) (pin_definition : bool) :=
  reserve_required_with_room chosen raw needed modalities files question pin_definition 0.
Definition reserve_required (chosen raw : list EvidenceItem) (plan : QueryPlan) (question : string) (room : nat) :=
  reserve_required_with_room chosen raw (needed_evidence plan) (modalities plan) (entity_files plan) question
    (bool_decide (DefinitionFacet ∈ required_facets (contract plan))) room.

(** ** Trims *)

Definition lookup_cap (es : list EntityMention) (weighted : list (Intent * f32)) (d : Depth) : nat :=
  let full := evidence_cap d in
  let breadth := existsb (λ i, bool_decide (i.1 ∈ [Usage; Impact; History])) weighted in
  let counts := filter (λ n, (0 < n)%nat) ((λ e, length (resolved e)) <$> es) in
  let one_clear := bool_decide (counts = [1%nat]) in
  if one_clear && negb breadth then Nat.min 5 full else full.

Definition in_scope (prefixes : list string) (path : string) : bool :=
  let p := slashed path in
  existsb (λ pre, String.eqb p pre || starts_with (pre +:+ "/") p || str_contains ("/" +:+ pre +:+ "/") p
                  || ends_with ("/" +:+ pre) p) prefixes.
Definition path_in_scope (prefixes : list string) (it : EvidenceItem) : bool :=
  match path it with Some p => in_scope prefixes p | None => false end.
(** Keeps what passes the test, unless nothing does. *)
Definition retain_unless_empty (keep : EvidenceItem → bool) (items : list EvidenceItem) : list EvidenceItem :=
  if has items keep then filter (λ e, keep e = true) items else items.
Definition retain_path_scoped (prefixes : list string) (items : list EvidenceItem) : list EvidenceItem :=
  match prefixes, items with
  | [], _ | _, [] => items
  | _, _ => retain_unless_empty (path_in_scope prefixes) items
  end.
Definition full_text (it : EvidenceItem) : string :=
  to_lowercase (default "" (path it) +:+ " " +:+ default "" (title it) +:+ " " +:+ content it).
Definition anchored (needles : list string) (prot : gset string) (it : EvidenceItem) : bool :=
  bool_decide (evidence_id it ∈ prot) || bool_decide (kind it = GraphRelation)
  || existsb (λ n, str_contains n (full_text it)) needles.
Definition retain_entity_anchored (needles : list string) (prot : gset string) (items : list EvidenceItem)
  : list EvidenceItem :=
  match needles, items with
  | [], _ | _, [] => items
  | _, _ => retain_unless_empty (anchored needles prot) items
  end.
Fixpoint one_per_path (prot seen : gset string) (items : list EvidenceItem) : list EvidenceItem :=
  match items with
  | [] => []
  | it :: rest =>
      let seen' := match path it with Some p => {[to_lowercase p]} ∪ seen | None => seen end in
      if decide (evidence_id it ∈ prot) then it :: one_per_path prot seen' rest
      else
        match path it with
        | Some p => if decide (to_lowercase p ∈ seen) then one_per_path prot seen' rest else it :: one_per_path prot seen' rest
        | None => it :: one_per_path prot seen' rest
        end
  end.
Definition retain_one_per_path (prot : gset string) (items : list EvidenceItem) : list EvidenceItem :=
  one_per_path prot ∅ items.
(** [Vec::dedup]: runs of equal elements are joined. *)
Fixpoint dedup_runs (l : list string) : list string :=
  match l with
  | [] => []
  | x :: l' => match dedup_runs l' with
               | [] => [x]
               | y :: r => if decide (x = y) then y :: r else x :: y :: r
               end
  end.
Definition cooccurrence_terms (es : list EntityMention) : list string :=
  dedup_runs (stable_sort String.le
    (filter (λ t, (3 <= String.length t)%nat)
      ((λ e, to_lowercase (mention_text e)) <$> filter (λ e, resolved e ≠ []) es))).

(** ** Selection *)

Definition add_provider (m : gmap string (gset string)) (it : EvidenceItem) : gmap string (gset string) :=
  <[subject_key it := {[provider it]} ∪ default ∅ (m !! subject_key it)]> m.
Definition providers_by_subject (items : list EvidenceItem) : gmap string (gset string) := foldl add_provider ∅ items.
Definition present_terms (terms : list string) (it : EvidenceItem) : nat :=
  length (filter (λ t, str_contains t (full_text it) = true) terms).
Definition f32_of_nat (n : nat) : f32 := f32_of_N (N.of_nat n).
Definition corroboration (terms : list string) (providers : gmap string (gset string)) (it : EvidenceItem) : f32 :=
  if Nat.leb 2 (length terms) then
    f32_clamp (f32_div (f32_of_nat (present_terms terms it - 1)) (f32_of_nat (length terms - 1))) f32_zero f32_one
  else
    let n := match providers !! subject_key it with Some ps => size ps | None => 1%nat end in
    f32_clamp (f32_div (f32_sub (f32_of_nat n) f32_one) (f32_of_N 3)) f32_zero f32_one.
Definition directness_of (terms : list string) (it : EvidenceItem) : f32 :=
  let d := default (default_directness it) (directness it) in
  if Nat.leb 2 (length terms) && Nat.eqb (present_terms terms it) (length terms) then f32_max d (f32_lit 9 10) else d.
Definition score_item (terms : list string) (providers : gmap string (gset string)) (now_ms : N) (it : EvidenceItem)
  : EvidenceItem :=
  let d := directness_of terms it in
  with_score d (score_of it d (corroboration terms providers it) now_ms) it.

(** [b.score.partial_cmp(&a.score)], with the ids on a tie. An absent score is
    below every score. *)
Definition score_order (a b : EvidenceItem) : comparison :=
  match score b, score a with
  | Some x, Some y => f32_order x y
  | Some _, None => Gt
  | None, Some _ => Lt
  | None, None => Eq
  end.
Definition rank_order (a b : EvidenceItem) : comparison :=
  match score_order a b with Eq => String.compare (evidence_id a) (evidence_id b) | c => c end.
Definition ranked_before (a b : EvidenceItem) : Prop := rank_order a b ≠ Gt.
#[export] Instance ranked_before_dec : RelDecision ranked_before.
Proof. intros a b. unfold ranked_before. apply _. Defined.

Definition near_lines (a b : option (N * N)) : bool :=
  match a, b with
  | Some (a0, _), Some (b0, _) => (a0 - b0 <=? 5) && (b0 - a0 <=? 5)
  | _, _ => false
  end.
Definition distinct_symbols (c it : EvidenceItem) : bool :=
  match symbol_id c, symbol_id it with
  | Some a, Some b => negb (String.eqb a "") && negb (String.eqb b "") && negb (String.eqb a b)
  | _, _ => false
  end.
Definition near_duplicate (it c : EvidenceItem) : bool :=
  negb (distinct_symbols c it) && bool_decide (is_Some (path c)) && bool_decide (path c = path it)
  && near_lines (lines c) (lines it).
Definition per_file (it : EvidenceItem) (chosen : list EvidenceItem) : nat :=
  match path it with
  | Some p => length (filter (λ c, path c = Some p) chosen)
  | None => 0
  end.
Definition exempt (exempt_provider : option string) (it : EvidenceItem) : bool :=
  match exempt_provider with Some p => String.eqb (provider it) p | None => false end.
(** The chosen items, and how many of them count for the cap. *)
Definition select_item (cap : nat) (exempt_provider : option string) (st : list EvidenceItem * nat) (it : EvidenceItem)
  : list EvidenceItem * nat :=
  let '(chosen, capped) := st in
  if exempt exempt_provider it then (chosen ++ [it], capped)
  else if Nat.leb cap capped then st
  else if negb (has chosen (near_duplicate it)) && Nat.ltb (per_file it chosen) 2 then (chosen ++ [it], S capped)
  else st.
Definition scored (items : list EvidenceItem) (terms : list string) (now_ms : N) : list EvidenceItem :=
  let items := dedup items in
  stable_sort ranked_before (score_item terms (providers_by_subject items) now_ms <$> items).
Definition rank_and_select_with_terms_exempt (now_ms : N) (items : list EvidenceItem) (cap : nat) (terms : list string)
  (exempt_provider : option string) : list EvidenceItem :=
  (foldl (select_item cap exempt_provider) ([], 0%nat) (scored items terms now_ms)).1.
Definition rank_and_select_with_terms (now_ms : N) (items : list EvidenceItem) (cap : nat) (terms : list string) :=
  rank_and_select_with_terms_exempt now_ms items cap terms None.
Definition rank_and_select (now_ms : N) (items : list EvidenceItem) (cap : nat) :=
  rank_and_select_with_terms now_ms items cap [].

(** ** Conflicts *)

Definition DENY : list string :=
  ["reject"; "deny"; "denied"; "forbid"; "forbidden"; "never"; "cannot"; "not allowed"; "block"; "blocked"; "prevent";
   "disallow"; "must not"].
Definition ALLOW : list string :=
  ["allow"; "allowed"; "permit"; "permitted"; "enable"; "enabled"; "grant"; "granted"; "can "; "is allowed"; "may "].
Definition has_any (hay : string) (needles : list string) : bool := existsb (λ n, str_contains n hay) needles.
Definition common_words : list string :=
  ["which"; "there"; "their"; "these"; "those"; "where"; "while"; "would"; "could"; "should"; "about"; "after"; "before";
   "value"; "class"; "using"; "return"; "function"; "method"; "public"; "private"; "static"; "string"; "object"].
Definition is_common_word (w : string) : bool := bool_decide (w ∈ common_words).

(** [&s[lo..hi]]. *)
Definition str_slice (site : string) (lo hi : nat) (s : string) : result string :=
  if Nat.leb lo hi && Nat.leb hi (String.length s) && is_char_boundary lo s && is_char_boundary hi s
  then Ok (stake (hi - lo) (sdrop lo s)) else Fail (Panic site).
Fixpoint boundary_down (lo : nat) (s : string) : nat :=
  match lo with O => O | S lo' => if is_char_boundary lo s then lo else boundary_down lo' s end.
Fixpoint boundary_up (fuel hi : nat) (s : string) : nat :=
  match fuel with
  | O => hi
  | S fuel => if Nat.ltb hi (String.length s) && negb (is_char_boundary hi s) then boundary_up fuel (S hi) s else hi
  end.
(** The bound of the second loop is the bytes that are left. *)
Definition window_around (s token : string) (radius : nat) : result (option string) :=
  match str_find token s with
  | None => Ok None
  | Some at_ =>
      let lo := boundary_down (at_ - radius) s in
      let hi := Nat.min (at_ + String.length token + radius) (String.length s) in
      let hi := boundary_up (String.length s - hi) hi s in
      Some <$> str_slice "window_around" lo hi s
  end.
Definition is_ascii_alphanumeric (c : ascii) : bool :=
  is_ascii_digit c || in_range 65 90 c || in_range 97 122 c.
(** The pieces between the characters that are not ASCII letters or digits. *)
Fixpoint ascii_words (s : string) : list string :=
  match s with
  | "" => [""]
  | String c s' =>
      if is_ascii_alphanumeric c
      then match ascii_words s' with [] => [str1 c] | w :: ws => String c w :: ws end
      else "" :: ascii_words s'
  end.
Definition shared_tokens (a b : string) : list string :=
  let bl := to_lowercase b in
  foldl (λ out w, if str_contains w bl && negb (bool_decide (w ∈ out)) then out ++ [w] else out) []
    (filter (λ w, (5 <= String.length w)%nat ∧ is_common_word w = false) (ascii_words (to_lowercase a))).
Definition opposed (hw cw : string) : bool := (has_any hw DENY && has_any cw ALLOW) || (has_any hw ALLOW && has_any cw DENY).
Definition disagree (hi_l code_l t : string) : result bool :=
  hw ← window_around hi_l t 90;
  cw ← window_around code_l t 90;
  Ok (opposed (default hi_l (hw : option string)) (default code_l (cw : option string))).
(** [Iterator::find] with a test that may panic. *)
Fixpoint find_token (hi_l code_l : string) (tokens : list string) : result (option string) :=
  match tokens with
  | [] => Ok None
  | t :: ts => b ← disagree hi_l code_l t; if b : bool then Ok (Some t) else find_token hi_l code_l ts
  end.
Definition conflict_of (hi code : EvidenceItem) : result (option Conflict) :=
  tok ← find_token (to_lowercase (content hi)) (to_lowercase (content code)) (shared_tokens (content hi) (content code));
  Ok ((λ tok, {| conflict_summary := "'" +:+ provider hi +:+ "' evidence and current code disagree about '" +:+ tok +:+ "'";
                 conflict_left := evidence_id hi; conflict_right := evidence_id code;
                 conflict_kind := "authority_disagreement" |}) <$> (tok : option string)).
Definition overrides_code (e : EvidenceItem) : bool :=
  bool_decide (authority e = ApprovedRequirement) || bool_decide (authority e = RuntimeEvidence).
Definition detect_conflicts (items : list EvidenceItem) (_active_generation : N) : result (list Conflict) :=
  cs ← result_traverse (λ p, conflict_of p.1 p.2)
         (filter (λ e, overrides_code e = true) items ≫= λ hi,
            pair hi <$> filter (λ e, authority e = CurrentCode) items);
  Ok (omap (λ c, c) (cs : list (option Conflict))).
End ranking.
