(* ===== verification/RankingSpec.v ===== *)
(** What the ranking of evidence promises: a bounded and greedy selection, and
    reserves that keep what the plan requires. *)
From S2P Require Import Prelude Text Unicode Paths F64 FloatBounds Evidence Ranking.

#[local] Open Scope nat_scope.

(** * Definitions *)

(** Items of one id are one piece of evidence: the ranking changes the score and
    the directness only. *)
Definition same_facts (a b : EvidenceItem) : Prop :=
  kind a = kind b ∧ path a = path b ∧ provider a = provider b ∧ extraction_method a = extraction_method b.
Definition ids_identify (l : list EvidenceItem) : Prop :=
  ∀ a b, a ∈ l → b ∈ l → evidence_id a = evidence_id b → same_facts a b.
(** A test of the facts only. *)
Definition factual (pred : EvidenceItem → bool) : Prop := ∀ a b, same_facts a b → pred a = pred b.

(** ** The selection, item by item *)

Section selection.
Context (cap : nat) (exempt_provider : option string).
Notation free it := (exempt exempt_provider it = false).

Definition selected (l : list EvidenceItem) : list EvidenceItem := (foldl (select_item cap exempt_provider) ([], 0) l).1.
Definition supporting (l : list EvidenceItem) : nat := length (filter (λ it, free it) l).
(** The chosen items of a file that count for the cap. *)
Definition of_path (p : string) (l : list EvidenceItem) : list EvidenceItem := filter (λ it, exempt exempt_provider it = false ∧ path it = Some p) l.
(** Why an item is not taken after others. *)
Definition turned_down (chosen : list EvidenceItem) (it : EvidenceItem) : Prop :=
  cap <= supporting chosen ∨ (∃ c, c ∈ chosen ∧ near_duplicate it c = true) ∨ 2 <= per_file it chosen.
End selection.

(** * Lemmas *)

Lemma max_by_elem {A} (cmp : A → A → comparison) (l : list A) x : max_by cmp l = Some x → x ∈ l.
Proof.
  unfold max_by. assert (Hgen : ∀ o, foldl (λ best x, match best with
      | Some b => match cmp b x with Gt => Some b | _ => Some x end | None => Some x end) o l = Some x → o = Some x ∨ x ∈ l).
  { induction l as [|y l IH]; intros o; [by left |]. cbn [foldl]. intros [H|H]%IH; [| right; by right].
    destruct o as [b|]; [destruct (cmp b y) |]; simplify_eq; first [by left | right; left]. }
  intros [H|H]%Hgen; done.
Qed.
Lemma max_by_some {A} (cmp : A → A → comparison) (l : list A) y : y ∈ l → ∃ x, max_by cmp l = Some x.
Proof.
  unfold max_by. assert (Hgen : ∀ o l, l ≠ [] ∨ is_Some o → is_Some (foldl (λ best x, match best with
      | Some b => match cmp b x with Gt => Some b | _ => Some x end | None => Some x end) o l)).
  { intros o l'. revert o. induction l' as [|z l' IH]; intros o [H|H]; try done; cbn [foldl]; apply IH; right;
      (destruct o as [b|]; [destruct (cmp b z) |]; eauto). }
  intros Hy. destruct (Hgen None l) as [x Hx]; [left; by intros -> ; apply elem_of_nil in Hy |]. by exists x.
Qed.
Lemma min_by_cmp_elem {A} (cmp : A → A → comparison) (l : list A) x : min_by_cmp cmp l = Some x → x ∈ l.
Proof.
  unfold min_by_cmp. assert (Hgen : ∀ o, foldl (λ best x, match best with
      | Some b => match cmp b x with Gt => Some x | _ => Some b end | None => Some x end) o l = Some x → o = Some x ∨ x ∈ l).
  { induction l as [|y l IH]; intros o; [by left |]. cbn [foldl]. intros [H|H]%IH; [| right; by right].
    destruct o as [b|]; [destruct (cmp b y) |]; simplify_eq; first [by left | right; left]. }
  intros [H|H]%Hgen; done.
Qed.
Lemma min_by_none {A} (cmp : A → A → comparison) (l : list A) : min_by_cmp cmp l = None → l = [].
Proof.
  unfold min_by_cmp. assert (Hgen : ∀ o l, is_Some o → is_Some (foldl (λ best x, match best with
      | Some b => match cmp b x with Gt => Some x | _ => Some b end | None => Some x end) o l)).
  { intros o l'. revert o. induction l' as [|z l' IH]; intros o H; [done |]. cbn [foldl]. apply IH.
    destruct o as [b|]; [destruct (cmp b z) |]; eauto. }
  destruct l as [|y l]; [done |]. cbn [foldl]. intros H. destruct (Hgen (Some y) l) as [x Hx]; [eauto | congruence].
Qed.

Lemma has_spec set pred : has set pred = true ↔ ∃ e, e ∈ set ∧ pred e = true.
Proof. unfold has. rewrite existsb_exists. setoid_rewrite list_elem_of_In. done. Qed.
Lemma has_id_spec id set : has_id id set = true ↔ ∃ e, e ∈ set ∧ evidence_id e = id.
Proof. unfold has_id. rewrite has_spec. setoid_rewrite String.eqb_eq. done. Qed.

Section ranking.
Context `{LM : !Libm} `{LC : !Lowercase} `{AN : !Alphanumeric}.

Lemma factual_kind k : factual (of_kind k).
Proof. intros a b (Hk & _). unfold of_kind. by rewrite Hk. Qed.
Lemma factual_file t : factual (of_file t).
Proof. intros a b (_ & Hp & _). unfold of_file. by rewrite Hp. Qed.
Lemma factual_modality m : factual (of_modality m).
Proof. intros a b (_ & Hp & _). unfold of_modality. by rewrite Hp. Qed.
Lemma factual_definition : factual is_definition.
Proof. intros a b (_ & _ & Hp & He). unfold is_definition. by rewrite Hp, He. Qed.

(** ** Requirements *)

Section requirements.
Context (chosen raw : list EvidenceItem) (words : list string) (Hids : ids_identify (chosen ++ raw)).

(** Wanted, or protected where it is. *)
Definition covers (st : Reserve) (e : EvidenceItem) : Prop :=
  e ∈ wanted st ∨ (e ∈ chosen ∧ evidence_id e ∈ protected st).
Definition covered (st : Reserve) (pred : EvidenceItem → bool) : Prop := ∃ e, covers st e ∧ pred e = true.
(** More is wanted and protected, out of the pool and the chosen items. *)
Definition grows (st st' : Reserve) : Prop :=
  wanted st ⊆ wanted st' ∧ protected st ⊆ protected st' ∧ (wanted st ⊆ raw → wanted st' ⊆ raw).
Instance grows_pre : PreOrder grows.
Proof.
  split.
  - intros st. split_and!; done.
  - intros a b c (H1 & H2 & H3) (H4 & H5 & H6). split_and!; [set_solver | set_solver | auto].
Qed.
Lemma covered_grows st st' pred : grows st st' → covered st pred → covered st' pred.
Proof. intros (H1 & H2 & _) (e & [He|[He Hp]] & Hpred); exists e; (split; [| done]); [left | right]; set_solver. Qed.
Lemma foldl_grows {A} (f : Reserve → A → Reserve) l st : (∀ st x, x ∈ l → grows st (f st x)) → grows st (foldl f st l).
Proof.
  revert st. induction l as [|x l IH]; intros st Hf; [done |]. cbn [foldl]. etrans; [apply (Hf st x); left |].
  apply IH. intros; apply Hf. by right.
Qed.
(** What one step of a loop covers, the whole loop does. *)
Lemma foldl_covers {A} (f : Reserve → A → Reserve) l st x pred :
  (∀ st y, y ∈ l → grows st (f st y)) → x ∈ l → (∀ st, covered (f st x) pred) → covered (foldl f st l) pred.
Proof.
  intros Hf Hx Hc. apply list_elem_of_split in Hx as (l1 & l2 & ->). rewrite foldl_app. cbn [foldl].
  eapply covered_grows; [| apply Hc]. apply foldl_grows. intros; apply Hf. set_solver.
Qed.

Lemma want_grows e st : e ∈ raw → grows st (want e st).
Proof. intros He. split_and!; cbn; set_solver. Qed.
Lemma protect_grows id st : grows st (protect id st).
Proof. split_and!; cbn; set_solver. Qed.
Lemma want_new_grows e st : e ∈ raw → grows st (want_new e st).
Proof. intros He. unfold want_new. case_match; [done | by apply want_grows]. Qed.
Lemma best_by_key_elem pred l e : best_by_key words pred l = Some e → e ∈ l ∧ pred e = true.
Proof. intros H%max_by_elem%list_elem_of_filter. tauto. Qed.
Lemma best_by_relevance_elem pred l e : best_by_relevance pred l = Some e → e ∈ l ∧ pred e = true.
Proof. intros H%max_by_elem%list_elem_of_filter. tauto. Qed.
Lemma best_by_key_some pred l e : e ∈ l → pred e = true → ∃ b, best_by_key words pred l = Some b.
Proof. intros He Hp. eapply max_by_some. by apply list_elem_of_filter. Qed.
Lemma best_by_relevance_some pred l e : e ∈ l → pred e = true → ∃ b, best_by_relevance pred l = Some b.
Proof. intros He Hp. eapply max_by_some. by apply list_elem_of_filter. Qed.

Lemma require_one_grows pred best add st :
  (∀ b, best = Some b → ∀ st, grows st (add b st)) → grows st (require_one chosen words pred best add st).
Proof.
  intros Hadd. unfold require_one. case_match; [done |]. case_match; [apply protect_grows |].
  destruct best as [b|]; [by apply Hadd | done].
Qed.
Lemma require_one_covers pred best add st e :
  e ∈ chosen ++ raw → pred e = true → (e ∈ raw → ∃ b, best = Some b) →
  (∀ b, best = Some b → covered (add b st) pred) → covered (require_one chosen words pred best add st) pred.
Proof.
  intros He Hp Hbest Hadd. unfold require_one. destruct (has (wanted st) pred) eqn:Hw.
  { apply has_spec in Hw as (w & ? & ?). exists w. split; [by left | done]. }
  destruct (best_by_key words pred chosen) as [c|] eqn:Hc.
  { apply best_by_key_elem in Hc as [? ?]. exists c. split; [right | done]. cbn. set_solver. }
  apply elem_of_app in He as [He|He].
  - destruct (best_by_key_some pred chosen e He Hp) as [? ?]. congruence.
  - destruct (Hbest He) as [b ->]. by apply Hadd.
Qed.
(** A wanted item of the same id has the same facts. *)
Lemma want_new_covers pred b st : wanted st ⊆ raw → factual pred → b ∈ raw → pred b = true → covered (want_new b st) pred.
Proof.
  intros Hst Hf Hb Hp. unfold want_new. destruct (has_id (evidence_id b) (wanted st)) eqn:E.
  - apply has_id_spec in E as (w & Hw & Hid). exists w. split; [by left |]. rewrite (Hf w b); [done |].
    apply Hids; [set_solver | set_solver | done].
  - exists b. split; [left; cbn; set_solver | done].
Qed.
Lemma candidates_elem m c : c ∈ candidates raw words m → c ∈ raw ∧ of_modality m c = true.
Proof.
  unfold candidates. intros Hc. apply subseteq_take in Hc. rewrite stable_sort_perm in Hc.
  apply list_elem_of_filter in Hc. tauto.
Qed.
Lemma slot_grows st c : c ∈ raw → grows st (slot chosen st c).
Proof.
  intros Hc. unfold slot. destruct (has_id _ chosen); cbn [orb].
  - apply protect_grows.
  - case_match; [done | by apply want_grows].
Qed.
Lemma slot_covers st c : covered (slot chosen st c) (λ e, String.eqb (evidence_id e) (evidence_id c)).
Proof.
  unfold slot. destruct (has_id _ chosen) eqn:Hch; cbn [orb].
  - apply has_id_spec in Hch as (e & He & Hid). exists e. split; [right; split; [done |] | by apply String.eqb_eq].
    cbn. set_solver.
  - destruct (has_id (evidence_id c) (wanted st)) eqn:Hw.
    + apply has_id_spec in Hw as (e & He & Hid). exists e. split; [by left | by apply String.eqb_eq].
    + exists c. split; [left; cbn; set_solver | apply String.eqb_refl].
Qed.
Lemma require_modality_grows st m : grows st (require_modality chosen raw words st m).
Proof. apply foldl_grows. intros ? c Hc. by apply slot_grows, (candidates_elem m). Qed.
Lemma require_kind_grows st k : grows st (require_kind chosen raw words st k).
Proof. apply require_one_grows. intros b [Hb _]%best_by_relevance_elem st'. by apply want_new_grows. Qed.
Lemma require_file_grows st t : grows st (require_file chosen raw words st t).
Proof. apply require_one_grows. intros b [Hb _]%best_by_key_elem st'. by apply want_new_grows. Qed.
Lemma require_definition_grows st : grows st (require_definition chosen raw words st).
Proof. apply require_one_grows. intros b [Hb _]%best_by_relevance_elem st'. by apply want_grows. Qed.

Context (needed : list EvidenceKind) (modalities : list Modality) (files : list string) (pin : bool).
(** Everything the plan asks for. *)
Definition required (pred : EvidenceItem → bool) : Prop :=
  (∃ k, k ∈ needed ∧ pred = of_kind k) ∨ (∃ t, t ∈ files ∧ pred = of_file (slashed t)) ∨ (pin = true ∧ pred = is_definition).
Notation result := (requirements chosen raw words needed modalities files pin).
Definition after_modalities : Reserve := foldl (require_modality chosen raw words) {| wanted := []; protected := ∅ |} modalities.
Definition after_kinds : Reserve := foldl (require_kind chosen raw words) after_modalities needed.
Definition after_files : Reserve := foldl (require_file chosen raw words) after_kinds files.

Lemma after_modalities_grows : grows after_modalities after_kinds.
Proof. apply foldl_grows. intros; apply require_kind_grows. Qed.
Lemma after_kinds_grows : grows after_kinds after_files.
Proof. apply foldl_grows. intros; apply require_file_grows. Qed.
Lemma after_files_grows : grows after_files result.
Proof. unfold requirements. fold after_modalities after_kinds after_files. destruct pin; [apply require_definition_grows | done]. Qed.
Lemma wanted_from_pool : wanted result ⊆ raw.
Proof.
  assert (H0 : grows {| wanted := []; protected := ∅ |} after_modalities) by (apply foldl_grows; intros; apply require_modality_grows).
  destruct (transitivity H0 (transitivity after_modalities_grows (transitivity after_kinds_grows after_files_grows))) as (_ & _ & H).
  apply H. set_solver.
Qed.
Lemma wanted_sub st : grows st result → wanted st ⊆ raw.
Proof. intros (H & _). pose proof wanted_from_pool. set_solver. Qed.

(** A step that is covered wherever it is taken in a loop. *)
Lemma foldl_covers_at {A} (f : Reserve → A → Reserve) l st x pred :
  (∀ st y, grows st (f st y)) → x ∈ l → (∀ st', wanted st' ⊆ wanted (foldl f st l) → covered (f st' x) pred) →
  covered (foldl f st l) pred.
Proof.
  intros Hf Hx Hc. apply list_elem_of_split in Hx as (l1 & l2 & ->). rewrite foldl_app in *. cbn [foldl] in *.
  assert (Hg : grows (f (foldl f st l1) x) (foldl f (f (foldl f st l1) x) l2)) by (apply foldl_grows; auto).
  eapply covered_grows; [exact Hg |]. apply Hc. destruct (Hf (foldl f st l1) x) as (? & _), Hg as (? & _). set_solver.
Qed.

Lemma requirement_covered pred e : required pred → e ∈ chosen ++ raw → pred e = true → covered result pred.
Proof.
  assert (Hk : grows after_kinds result) by (etrans; [apply after_kinds_grows | apply after_files_grows]).
  intros [(k & Hin & ->)|[(t & Hin & ->)|[Hpin ->]]] He Hp.
  - eapply covered_grows; [exact Hk |]. eapply foldl_covers_at; [intros; apply require_kind_grows | exact Hin |].
    intros st Hst. eapply require_one_covers; [done | done | intros; by eapply best_by_relevance_some |].
    intros b [Hb Hpb]%best_by_relevance_elem. apply want_new_covers; [| apply factual_kind | done | done].
    pose proof (wanted_sub after_kinds Hk). unfold after_kinds in *. set_solver.
  - eapply covered_grows; [apply after_files_grows |]. eapply foldl_covers_at; [intros; apply require_file_grows | exact Hin |].
    intros st Hst. eapply require_one_covers; [done | done | intros; by eapply best_by_key_some |].
    intros b [Hb Hpb]%best_by_key_elem. apply want_new_covers; [| apply factual_file | done | done].
    pose proof (wanted_sub after_files after_files_grows). unfold after_files in *. set_solver.
  - unfold requirements. rewrite Hpin. eapply require_one_covers; [done | done | intros; by eapply best_by_relevance_some |].
    intros b [Hb Hpb]%best_by_relevance_elem. exists b. split; [left; cbn; set_solver | done].
Qed.
Lemma candidate_covered m c :
  m ∈ modalities → c ∈ candidates raw words m → covered result (λ e, String.eqb (evidence_id e) (evidence_id c)).
Proof.
  intros Hm Hc. apply (covered_grows after_modalities).
  { etrans; [apply after_modalities_grows |]. etrans; [apply after_kinds_grows | apply after_files_grows]. }
  eapply foldl_covers_at; [intros; apply require_modality_grows | exact Hm |].
  intros st _. unfold require_modality. eapply foldl_covers; [| exact Hc | intros; apply slot_covers].
  intros st' y Hy. by apply slot_grows, (candidates_elem m).
Qed.
End requirements.

(** ** Admission *)

Lemma elem_of_indexed {A} (l : list A) i x : (i, x) ∈ indexed l ↔ l !! i = Some x.
Proof.
  unfold indexed. rewrite list_elem_of_lookup. split.
  - intros (j & Hj). rewrite lookup_zip_with_Some in Hj. destruct Hj as (a & b & [= -> ->] & Ha & Hb).
    apply lookup_seq in Ha as [-> _]. done.
  - intros Hi. exists i. apply lookup_zip_with_Some. exists i, x. split_and!; [done | | done].
    apply lookup_seq. split; [done | by eapply lookup_lt_Some].
Qed.
Lemma victim_spec prot l i : victim prot l = Some i → ∃ e, l !! i = Some e ∧ evidence_id e ∉ prot.
Proof.
  unfold victim. destruct (min_by_cmp _ _) as [[j e]|] eqn:E; cbn; [| done]. intros [= <-].
  apply min_by_cmp_elem, list_elem_of_filter in E as [Hp He%elem_of_indexed]. by exists e.
Qed.
Lemma victim_none prot l : victim prot l = None → Forall (λ e, evidence_id e ∈ prot) l.
Proof.
  unfold victim. destruct (min_by_cmp _ _) as [[j e]|] eqn:E; [done |]. intros _. apply min_by_none in E.
  apply Forall_forall. intros e He. apply list_elem_of_lookup in He as [i Hi%elem_of_indexed].
  destruct (decide (evidence_id e ∈ prot)) as [|Hout]; [done |]. exfalso.
  assert (Hin : (i, e) ∈ filter (λ ie : nat * EvidenceItem, evidence_id ie.2 ∉ prot) (indexed l)) by by apply list_elem_of_filter.
  rewrite E in Hin. by apply elem_of_nil in Hin.
Qed.

(** Nothing that is guarded is evicted, and the list is no longer than it may be
    unless everything in it is guarded. *)
Record Admits (limit : nat) (pool : list EvidenceItem) (st st' : Admission) : Prop := {
  admits_guards : guarded_ids st ⊆ guarded_ids st';
  admits_keeps e : e ∈ admitted st → evidence_id e ∈ guarded_ids st → e ∈ admitted st';
  admits_from e : e ∈ admitted st' → e ∈ admitted st ∨ e ∈ pool;
}.
Instance admits_pre limit pool : PreOrder (Admits limit pool).
Proof.
  split.
  - intros st. split; auto.
  - intros a b c [H1 H2 H3] [H4 H5 H6]. split; [set_solver | intros e He Hg; apply H5; [by apply H2 | set_solver] |].
    intros e [He|He]%H6; auto.
Qed.
Definition within_limit (limit : nat) (st : Admission) : Prop :=
  length (admitted st) + room_left st <= limit ∨ Forall (λ e, evidence_id e ∈ guarded_ids st) (admitted st).
Lemma admit_admits limit pool st w : w ∈ pool → Admits limit pool st (admit_wanted st w).
Proof.
  intros Hw. unfold admit_wanted. destruct (has_id _ _); [done |]. destruct (room_left st); split; cbn [admitted guarded_ids]; try set_solver.
  - intros e He Hg. apply elem_of_app. left. destruct (victim _ _) as [i|] eqn:E; [| done].
    apply victim_spec in E as (v & Hv & Hout). rewrite (delete_Permutation _ _ _ Hv) in He.
    apply elem_of_cons in He as [->|He]; [congruence | done].
  - intros e [He|He]%elem_of_app; [left | right; set_solver]. destruct (victim _ _); [| done].
    by eapply elem_of_sublist, sublist_delete.
Qed.
Lemma admit_within limit st w : within_limit limit st → within_limit limit (admit_wanted st w).
Proof.
  unfold within_limit, admit_wanted. destruct (has_id _ _); [done |].
  destruct (room_left st) as [|room]; cbn [admitted guarded_ids room_left]; rewrite length_app; cbn [length].
  - destruct (victim (guarded_ids st) (admitted st)) as [i|] eqn:E.
    + apply victim_spec in E as (v & Hv & Hout). intros [Hlen|Hall].
      * left. rewrite length_delete by eauto. apply lookup_lt_Some in Hv. lia.
      * exfalso. apply Hout. eapply Forall_forall in Hall; [done |]. by eapply list_elem_of_lookup_2.
    + apply victim_none in E. intros _. right. apply Forall_app. split; [| apply Forall_singleton; set_solver].
      eapply Forall_impl; [exact E |]. set_solver.
  - intros [Hlen|Hall]; [left; lia | right]. apply Forall_app. split; [| apply Forall_singleton; set_solver].
    eapply Forall_impl; [exact Hall |]. set_solver.
Qed.
Lemma admit_here st w : ∃ e, e ∈ admitted (admit_wanted st w) ∧ evidence_id e = evidence_id w.
Proof.
  unfold admit_wanted. destruct (has_id (evidence_id w) (admitted st)) eqn:E; [by apply has_id_spec in E |].
  destruct (room_left st); cbn [admitted]; exists w; set_solver.
Qed.

Section admission.
Context (limit : nat) (pool : list EvidenceItem).
Lemma foldl_admits ws st : ws ⊆ pool → Admits limit pool st (foldl admit_wanted st ws).
Proof.
  revert st. induction ws as [|w ws IH]; intros st Hws; [done |]. cbn [foldl].
  etrans; [apply (admit_admits _ _ _ w); set_solver | apply IH; set_solver].
Qed.
Lemma foldl_within ws st : within_limit limit st → within_limit limit (foldl admit_wanted st ws).
Proof. revert st. induction ws as [|w ws IH]; intros st H; [done |]. cbn [foldl]. by apply IH, admit_within. Qed.
(** Every wanted item, or one of its id, is there in the end. *)
Lemma foldl_admits_all ws st w :
  ws ⊆ pool → w ∈ ws → list_to_set (evidence_id <$> ws) ⊆ guarded_ids st →
  ∃ e, e ∈ admitted (foldl admit_wanted st ws) ∧ evidence_id e = evidence_id w ∧ evidence_id e ∈ guarded_ids (foldl admit_wanted st ws).
Proof.
  intros Hws Hw Hg. apply list_elem_of_split in Hw as (l1 & l2 & ->). rewrite foldl_app. cbn [foldl].
  set (st1 := foldl admit_wanted st l1). destruct (admit_here st1 w) as (e & He & Hid). exists e.
  assert (H1 : Admits limit pool st st1) by (apply foldl_admits; set_solver).
  assert (H2 : Admits limit pool st1 (admit_wanted st1 w)) by (apply admit_admits; set_solver).
  assert (H3 : Admits limit pool (admit_wanted st1 w) (foldl admit_wanted (admit_wanted st1 w) l2)) by (apply foldl_admits; set_solver).
  assert (Hin : evidence_id e ∈ guarded_ids (admit_wanted st1 w)).
  { apply (admits_guards _ _ _ _ H2), (admits_guards _ _ _ _ H1), Hg. rewrite Hid. apply elem_of_list_to_set, list_elem_of_fmap.
    exists w. split; [done |]. set_solver. }
  split_and!; [by apply (admits_keeps _ _ _ _ H3) | done | by apply (admits_guards _ _ _ _ H3)].
Qed.
End admission.

(** ** Selection *)

Section selecting.
Context (cap : nat) (ep : option string).
Notation selected := (selected cap ep).
Notation of_path := (of_path ep).
Notation supporting := (supporting ep).
Notation turned_down := (turned_down cap ep).

Lemma supporting_app l k : supporting (l ++ k) = supporting l + supporting k.
Proof. unfold RankingSpec.supporting. by rewrite filter_app, length_app. Qed.
Lemma supporting_one it : supporting [it] = if exempt ep it then 0 else 1.
Proof. unfold RankingSpec.supporting. cbn [filter list_filter]. by destruct (exempt ep it) eqn:E; repeat case_decide. Qed.

(** The counter of the cap counts the items that are not exempt. *)
Lemma select_state l : foldl (select_item cap ep) ([], 0) l = (selected l, supporting (selected l)).
Proof.
  induction l as [|it l IH] using rev_ind; [done |]. unfold RankingSpec.selected. rewrite foldl_app, IH. cbn [foldl fst select_item].
  destruct (exempt ep it) eqn:Hex; [by cbn [fst]; rewrite supporting_app, supporting_one, Hex, Nat.add_0_r |].
  destruct (Nat.leb cap _); [done |]. destruct (_ && _); [| done].
  cbn [fst]. rewrite supporting_app, supporting_one, Hex. f_equal. lia.
Qed.
(** One item more. *)
Lemma selected_snoc l it :
  (selected (l ++ [it]) = selected l ++ [it] ∧ (exempt ep it = true ∨ ¬ turned_down (selected l) it)) ∨
  (selected (l ++ [it]) = selected l ∧ exempt ep it = false ∧ turned_down (selected l) it).
Proof.
  assert (Hs : selected (l ++ [it]) = (select_item cap ep (selected l, supporting (selected l)) it).1).
  { unfold RankingSpec.selected at 1. by rewrite foldl_app, select_state. }
  rewrite Hs. cbn [select_item]. destruct (exempt ep it); [left; auto |].
  destruct (Nat.leb_spec cap (supporting (selected l))); [right; split_and!; [done.. | by left] |].
  destruct (has (selected l) (near_duplicate it)) eqn:Hdup; cbn [negb andb].
  { right. split_and!; [done.. |]. right; left. by apply has_spec. }
  destruct (Nat.ltb_spec (per_file it (selected l)) 2); [left | right; split_and!; [done.. | right; right; lia]].
  split; [done | right]. intros [?|[Hd|?]]; [lia | | lia]. apply has_spec in Hd. congruence.
Qed.
Lemma selected_sublist l : selected l `sublist_of` l.
Proof.
  induction l as [|it l IH] using rev_ind; [done |].
  destruct (selected_snoc l it) as [[-> _]|[-> _]]; [by apply sublist_app | by apply sublist_inserts_r].
Qed.
Lemma selected_exempt l it : it ∈ l → exempt ep it = true → it ∈ selected l.
Proof.
  induction l as [|x l IH] using rev_ind; [set_solver |]. intros [Hin|Hin]%elem_of_app Hex.
  - destruct (selected_snoc l x) as [[-> _]|[-> _]]; set_solver.
  - apply list_elem_of_singleton in Hin as ->. destruct (selected_snoc l x) as [[-> _]|(_ & ? & _)]; [set_solver | congruence].
Qed.
Lemma selected_cap l : supporting (selected l) <= cap.
Proof.
  induction l as [|it l IH] using rev_ind; [cbn; lia |].
  destruct (selected_snoc l it) as [[-> [Hex|Hno]]|[-> _]]; [| | done]; rewrite supporting_app, supporting_one.
  - rewrite Hex. lia.
  - destruct (exempt ep it); [lia |]. assert (¬ cap <= supporting (selected l)) by (intros ?; apply Hno; by left). lia.
Qed.
Lemma selected_per_path p l : length (of_path p (selected l)) <= 2.
Proof.
  induction l as [|it l IH] using rev_ind; [cbn; lia |]. unfold RankingSpec.of_path in *.
  destruct (selected_snoc l it) as [[-> Hw]|[-> _]]; [| done]. rewrite filter_app, length_app. cbn [filter list_filter].
  case_decide as Hp; cbn [length]; [| lia]. destruct Hp as [Hex Hp]. destruct Hw as [?|Hno]; [congruence |].
  assert (per_file it (selected l) < 2).
  { destruct (Nat.ltb_spec (per_file it (selected l)) 2); [done |]. exfalso. apply Hno. right; right. lia. }
  unfold per_file in *. rewrite Hp in *.
  assert (length (filter (λ c, exempt ep c = false ∧ path c = Some p) (selected l)) <= length (filter (λ c, path c = Some p) (selected l))); [| lia].
  apply submseteq_length, sublist_submseteq. clear. induction (selected l) as [|c k IH]; [done |].
  rewrite !filter_cons. repeat case_decide; [by apply sublist_skip | tauto | by apply sublist_cons | done].
Qed.
(** What is chosen repeats nothing that was chosen before it. *)
Lemma selected_distinct l o1 it o2 : selected l = o1 ++ it :: o2 → exempt ep it = false → Forall (λ c, near_duplicate it c = false) o1.
Proof.
  revert o2. induction l as [|x l IH] using rev_ind; intros o2.
  { cbn. intros H. by destruct o1. }
  destruct (selected_snoc l x) as [[-> Hw]|[-> _]]; [| apply IH].
  destruct o2 as [|y o2 _] using rev_ind; intros Heq Hex.
  - apply app_inj_tail in Heq as [<- ->]. destruct Hw as [?|Hno]; [congruence |]. apply Forall_forall. intros c Hc.
    destruct (near_duplicate it c) eqn:E; [| done]. exfalso. apply Hno. right; left. by exists c.
  - rewrite app_comm_cons, app_assoc in Heq. apply app_inj_tail in Heq as [Heq _]. by eapply IH.
Qed.
End selecting.

(** ** Windows *)

Lemma boundary_down_spec lo s : boundary_down lo s <= lo ∧ is_char_boundary (boundary_down lo s) s = true.
Proof.
  induction lo as [|lo IH]; cbn [boundary_down]; [by split; [lia |] |].
  destruct (is_char_boundary (S lo) s) eqn:E; [done |]. destruct IH. split; [lia | done].
Qed.
Lemma boundary_end s : is_char_boundary (String.length s) s = true.
Proof.
  unfold is_char_boundary. assert (H : sdrop (String.length s) s = "") by (induction s as [|c s IH]; [done | exact IH]).
  rewrite H. apply orb_true_r.
Qed.
Lemma boundary_up_spec fuel hi s : String.length s <= hi + fuel → hi <= String.length s →
  hi <= boundary_up fuel hi s <= String.length s ∧ is_char_boundary (boundary_up fuel hi s) s = true.
Proof.
  revert hi. induction fuel as [|fuel IH]; intros hi Hf Hhi; cbn [boundary_up].
  - assert (hi = String.length s) as -> by lia. split; [lia | apply boundary_end].
  - destruct (Nat.ltb_spec hi (String.length s)) as [Hlt|Hge]; cbn [andb].
    + destruct (is_char_boundary hi s) eqn:E; cbn [negb]; [by split; [lia |] |].
      destruct (IH (S hi)) as [? ?]; [lia.. |]. split; [lia | done].
    + assert (hi = String.length s) as -> by lia. split; [lia | apply boundary_end].
Qed.
Lemma str_find_end needle s n : str_find needle s = Some n → n + String.length needle <= String.length s.
Proof.
  revert n. induction s as [|c s IH]; intros n; cbn [str_find].
  - destruct needle; [| done]. by intros [= <-].
  - destruct (starts_with needle (String c s)) eqn:E.
    + intros [= <-]. apply starts_with_spec in E as [t ->]. rewrite length_app_str. lia.
    + destruct (str_find needle s) as [k|]; [| done]. intros [= <-]. specialize (IH k eq_refl). cbn [String.length]. lia.
Qed.
Lemma window_total s token radius : ∃ w, window_around s token radius = Ok w.
Proof.
  unfold window_around. destruct (str_find token s) as [i|] eqn:E; [| by eexists]. apply str_find_end in E.
  set (hi := Nat.min _ _). destruct (boundary_down_spec (i - radius) s) as [Hlo Hb].
  destruct (boundary_up_spec (String.length s - hi) hi s) as [Hhi Hb']; [unfold hi; lia.. |].
  unfold str_slice. rewrite Hb, Hb'. rewrite (proj2 (Nat.leb_le _ _)) by (unfold hi in *; lia).
  rewrite (proj2 (Nat.leb_le _ _)) by lia. by eexists.
Qed.
Lemma disagree_total a b t : ∃ v, disagree a b t = Ok v.
Proof.
  unfold disagree. destruct (window_total a t 90) as [w ->], (window_total b t 90) as [w' ->]. by eexists.
Qed.
Lemma find_token_spec a b ts : ∃ o, find_token a b ts = Ok o ∧ (is_Some o ↔ ∃ t, t ∈ ts ∧ disagree a b t = Ok true).
Proof.
  induction ts as [|t ts IH]; cbn [find_token].
  - exists None. split; [done |]. split; [by intros [? ?] | by intros (? & ?%elem_of_nil & _)].
  - destruct (disagree_total a b t) as [[] Hv]; rewrite Hv; cbn [mbind result_bind].
    + exists (Some t). split; [done |]. split; [| by eexists]. intros _. exists t. split; [set_solver | done].
    + destruct IH as (o & -> & Ho). exists o. split; [done |]. rewrite Ho. split; intros (u & Hu & Hd); exists u; (split; [| done]).
      * set_solver.
      * apply elem_of_cons in Hu as [->|]; [congruence | done].
Qed.
Lemma conflict_of_spec hi code : ∃ o, conflict_of hi code = Ok o ∧
  (∀ c, o = Some c → conflict_left c = evidence_id hi ∧ conflict_right c = evidence_id code) ∧
  (is_Some o ↔ ∃ t, t ∈ shared_tokens (content hi) (content code) ∧
                disagree (to_lowercase (content hi)) (to_lowercase (content code)) t = Ok true).
Proof.
  unfold conflict_of. destruct (find_token_spec (to_lowercase (content hi)) (to_lowercase (content code))
    (shared_tokens (content hi) (content code))) as (o & -> & Ho). eexists. split; [reflexivity |]. split.
  - intros c Hc. by apply fmap_Some in Hc as (t & _ & ->).
  - by rewrite fmap_is_Some.
Qed.

(** ** The trim by path *)

Lemma one_per_path_sublist prot seen items : one_per_path prot seen items `sublist_of` items.
Proof.
  revert seen. induction items as [|it items IH]; intros seen; cbn [one_per_path]; [done |].
  repeat case_match; first [by apply sublist_skip | by apply sublist_cons].
Qed.
Lemma one_per_path_protected prot seen items e : e ∈ items → evidence_id e ∈ prot → e ∈ one_per_path prot seen items.
Proof.
  revert seen. induction items as [|it items IH]; intros seen He Hp; [by apply elem_of_nil in He |]. cbn [one_per_path].
  apply elem_of_cons in He as [->|He]; [rewrite decide_True by done; set_solver |].
  repeat case_match; try apply elem_of_cons; try right; by apply IH.
Qed.
Lemma one_per_path_unseen prot seen items e q :
  e ∈ one_per_path prot seen items → path e = Some q → to_lowercase q ∈ seen → evidence_id e ∈ prot.
Proof.
  revert seen. induction items as [|it items IH]; intros seen He Hq Hs; [by apply elem_of_nil in He |]. cbn [one_per_path] in He.
  set (seen' := match path it with Some p => {[to_lowercase p]} ∪ seen | None => seen end) in *.
  assert (Hs' : to_lowercase q ∈ seen') by (unfold seen'; destruct (path it); set_solver).
  destruct (decide (evidence_id it ∈ prot)) as [Hp|Hp].
  - apply elem_of_cons in He as [->|He]; [done | by eapply IH].
  - destruct (path it) as [p|] eqn:Hpath.
    + destruct (decide (to_lowercase p ∈ seen)); [by eapply IH |]. apply elem_of_cons in He as [->|He]; [congruence | by eapply IH].
    + apply elem_of_cons in He as [->|He]; [congruence | by eapply IH].
Qed.
Lemma one_per_path_distinct prot seen items i j a b p :
  one_per_path prot seen items !! i = Some a → one_per_path prot seen items !! j = Some b → i < j →
  path a = Some p → (to_lowercase <$> path b) = Some (to_lowercase p) → evidence_id b ∈ prot.
Proof.
  revert seen i j. induction items as [|it items IH]; intros seen i j Ha Hb Hij Hpa Hpb; [done |]. cbn [one_per_path] in Ha, Hb.
  apply fmap_Some in Hpb as (q & Hq & Heq).
  assert (Hstep : ∀ seen' l, (path it = path a → to_lowercase p ∈ seen') → l = it :: one_per_path prot seen' items →
    l !! i = Some a → l !! j = Some b → evidence_id b ∈ prot).
  { intros seen' l Hseen -> Hi Hj. destruct i as [|i]; destruct j as [|j]; try lia; cbn in Hi, Hj.
    - injection Hi as ->. eapply one_per_path_unseen; [by eapply list_elem_of_lookup_2 | exact Hq |]. rewrite <-Heq. by apply Hseen.
    - eapply (IH seen' i j); try done; [lia |]. by rewrite Hq, Heq. }
  repeat case_match; simplify_eq/=;
    first [by eapply (IH _ i j); try done; rewrite Hq, Heq | eapply Hstep; [| reflexivity | exact Ha | exact Hb]; rewrite Hpa; intros; simplify_eq; set_solver].
Qed.

(** * Theorems *)

(** The ranked answer is taken greedily from the deduplicated and scored evidence:
    a sublist of it with every exempt item, at most [cap] others, at most two of
    them in a file and none that repeats a better one nearby; and an item is left
    out exactly when the cap, a repetition or its file turns it down after the
    better ones. *)
Theorem selection_is_greedy (now_ms : N) (items : list EvidenceItem) (cap : nat) (terms : list string) (ep : option string) :
  let out := rank_and_select_with_terms_exempt now_ms items cap terms ep in
  let l := scored items terms now_ms in
  l ≡ₚ score_item terms (providers_by_subject (dedup items)) now_ms <$> dedup items ∧
  out `sublist_of` l ∧
  (∀ it, it ∈ l → exempt ep it = true → it ∈ out) ∧
  supporting ep out <= cap ∧
  (∀ p, length (of_path ep p out) <= 2) ∧
  (∀ o1 it o2, out = o1 ++ it :: o2 → exempt ep it = false → Forall (λ c, near_duplicate it c = false) o1) ∧
  (∀ l1 it l2, l = l1 ++ it :: l2 →
     (selected cap ep (l1 ++ [it]) = selected cap ep l1 ++ [it] ∧ (exempt ep it = true ∨ ¬ turned_down cap ep (selected cap ep l1) it)) ∨
     (selected cap ep (l1 ++ [it]) = selected cap ep l1 ∧ exempt ep it = false ∧ turned_down cap ep (selected cap ep l1) it)).
Proof.
  intros out l. change out with (selected cap ep l). split_and!.
  - apply stable_sort_perm.
  - apply selected_sublist.
  - intros. by apply selected_exempt.
  - apply selected_cap.
  - intros. apply selected_per_path.
  - intros o1 it o2. apply selected_distinct.
  - intros. apply selected_snoc.
Qed.

(** However full the answer is, the reserve leaves in it, and protects from the
    later trims, an item of every evidence kind, of every named file and, when it
    is asked for, of the definition, wherever the answer or the pool has one,
    and the three best candidates of every requested modality; the answer grows
    beyond the free slots only when every item in it is protected, and only by
    items of the pool. *)
Theorem reserve_keeps_requirements (chosen raw : list EvidenceItem) (needed : list EvidenceKind) (modalities : list Modality)
    (files : list string) (question : string) (pin_definition : bool) (room : nat) :
  ids_identify (chosen ++ raw) →
  let out := (reserve_required_with_room chosen raw needed modalities files question pin_definition room).1 in
  let prot := (reserve_required_with_room chosen raw needed modalities files question pin_definition room).2 in
  (∀ pred e, required needed files pin_definition pred → e ∈ chosen ++ raw → pred e = true →
     ∃ e', e' ∈ out ∧ pred e' = true ∧ evidence_id e' ∈ prot) ∧
  (∀ m c, m ∈ modalities → c ∈ candidates raw (question_words question) m →
     ∃ e', e' ∈ out ∧ evidence_id e' = evidence_id c ∧ evidence_id e' ∈ prot) ∧
  (length out <= length chosen + room ∨ Forall (λ e, evidence_id e ∈ prot) out) ∧
  (∀ e, e ∈ out → e ∈ chosen ∨ e ∈ raw).
Proof.
  intros Hids out prot. set (words := question_words question).
  set (st := requirements chosen raw words needed modalities files pin_definition).
  set (start := {| admitted := chosen; guarded_ids := list_to_set (evidence_id <$> wanted st) ∪ protected st; room_left := room |}).
  change out with (admitted (foldl admit_wanted start (wanted st))). change prot with (guarded_ids (foldl admit_wanted start (wanted st))).
  assert (Hws : wanted st ⊆ raw) by by apply wanted_from_pool.
  assert (Hadm : Admits (length chosen + room) raw start (foldl admit_wanted start (wanted st))) by by apply foldl_admits.
  assert (Hcov : ∀ pred, factual pred ∨ (∃ id, pred = λ e, String.eqb (evidence_id e) id) → covered chosen st pred →
    ∃ e', e' ∈ admitted (foldl admit_wanted start (wanted st)) ∧ pred e' = true ∧ evidence_id e' ∈ guarded_ids (foldl admit_wanted start (wanted st))).
  { intros pred Hf (e & [He|[He Hp]] & Hpred).
    - destruct (foldl_admits_all (length chosen + room) raw (wanted st) start e) as (e' & He' & Hid & Hg); [done | done | cbn; set_solver |].
      exists e'. split_and!; [done | | done]. destruct Hf as [Hf|[id ->]]; [| by rewrite Hid].
      rewrite (Hf e' e); [done |]. apply Hids; [| set_solver | done].
      apply (admits_from _ _ _ _ Hadm) in He' as [He'|He']; cbn in He'; set_solver.
    - exists e. split_and!; [| done |]; [apply (admits_keeps _ _ _ _ Hadm) | apply (admits_guards _ _ _ _ Hadm)]; cbn; set_solver. }
  split_and!.
  - intros pred e Hreq He Hpred. apply Hcov; [left |].
    + destruct Hreq as [(? & _ & ->)|[(? & _ & ->)|[_ ->]]]; [apply factual_kind | apply factual_file | apply factual_definition].
    + by eapply requirement_covered.
  - intros m c Hm Hc. destruct (Hcov (λ e, String.eqb (evidence_id e) (evidence_id c))) as (e' & ? & ?%String.eqb_eq & ?);
      [by right; eexists | by eapply candidate_covered |]. by exists e'.
  - destruct (foldl_within (length chosen + room) (wanted st) start) as [Hlen|Hall]; [left; cbn; lia | left; cbn in *; lia | by right].
  - intros e [He|He]%(admits_from _ _ _ _ Hadm); [by left | by right].
Qed.

(** C26. The comparison of strong evidence with the code cannot panic, wherever its
    windows fall, and it reports exactly the pairs for which some shared word is
    denied on one side and allowed on the other. *)
Theorem conflicts_are_total_and_exact (items : list EvidenceItem) (generation : N) : ∃ cs, detect_conflicts items generation = Ok cs ∧
  ∀ l r, (∃ c, c ∈ cs ∧ conflict_left c = l ∧ conflict_right c = r) ↔
    ∃ hi code, hi ∈ items ∧ code ∈ items ∧ overrides_code hi = true ∧ authority code = CurrentCode ∧
      evidence_id hi = l ∧ evidence_id code = r ∧
      ∃ t, t ∈ shared_tokens (content hi) (content code) ∧
        disagree (to_lowercase (content hi)) (to_lowercase (content code)) t = Ok true.
Proof.
  unfold detect_conflicts. set (pairs := (filter (λ e : EvidenceItem, overrides_code e = true) items ≫= _ : list (EvidenceItem * EvidenceItem))).
  assert (Hpairs : ∀ p, p ∈ pairs ↔ p.1 ∈ items ∧ p.2 ∈ items ∧ overrides_code p.1 = true ∧ authority p.2 = CurrentCode).
  { intros [hi code]. unfold pairs. rewrite list_elem_of_bind. setoid_rewrite list_elem_of_fmap. setoid_rewrite list_elem_of_filter.
    split; [intros (? & (? & [= -> ->] & ? & ?) & ? & ?); auto | intros (? & ? & ? & ?); eauto 10]. }
  destruct (result_traverse_total (λ p, conflict_of p.1 p.2) pairs) as [os Hos].
  { intros p _. destruct (conflict_of_spec p.1 p.2) as (o & Ho & _). by exists o. }
  rewrite Hos. eexists. split; [reflexivity |]. apply result_traverse_Ok in Hos. intros l r. setoid_rewrite list_elem_of_omap. split.
  - intros (c & (o & Ho & Hc) & <- & <-). destruct (Forall2_elem_r _ _ _ _ Hos Ho) as (p & Hp & Hf).
    apply Hpairs in Hp as (? & ? & ? & ?). destruct (conflict_of_spec p.1 p.2) as (o' & Ho' & Hid & Hex).
    rewrite Ho' in Hf. injection Hf as Hf; subst o'. destruct (Hid c Hc) as [-> ->]. exists p.1, p.2. split_and!; try done. apply Hex. by exists c.
  - intros (hi & code & Hhi & Hcode & Hov & Hcur & <- & <- & Ht).
    destruct (Forall2_elem_l _ _ _ (hi, code) Hos) as (o & Ho & Hf); [by apply Hpairs |]. cbn [fst snd] in Hf.
    destruct (conflict_of_spec hi code) as (o' & Ho' & Hid & Hex). rewrite Ho' in Hf. injection Hf as Hf; subst o'.
        pose proof (proj2 Hex Ht) as Hsome. destruct Hsome as [c Hc]. exists c. split; [| by apply Hid]. by exists o.
Qed.

(** Every trim of an answer returns a sublist of it, never takes the last item,
    and the trims by path and by name keep what is protected; after the trim by
    path no two unprotected items share a file. *)
Theorem trims_keep_an_answer (prefixes needles : list string) (prot : gset string) (items : list EvidenceItem) :
  Forall (λ out, out `sublist_of` items ∧ (items ≠ [] → out ≠ []))
    [retain_path_scoped prefixes items; retain_entity_anchored needles prot items; retain_one_per_path prot items] ∧
  (∀ e, e ∈ items → evidence_id e ∈ prot → e ∈ retain_entity_anchored needles prot items ∧ e ∈ retain_one_per_path prot items) ∧
  (∀ i j a b p, retain_one_per_path prot items !! i = Some a → retain_one_per_path prot items !! j = Some b → i < j →
     path a = Some p → (to_lowercase <$> path b) = Some (to_lowercase p) → evidence_id b ∈ prot).
Proof.
  assert (Hret : ∀ keep, retain_unless_empty keep items `sublist_of` items ∧ (items ≠ [] → retain_unless_empty keep items ≠ [])).
  { intros keep. unfold retain_unless_empty. destruct (has items keep) eqn:E; [| done]. split; [apply sublist_filter |].
    apply has_spec in E as (e & He & Hk). intros _ Hn. assert (Hin : e ∈ filter (λ e, keep e = true) items) by by apply list_elem_of_filter.
    rewrite Hn in Hin. by apply elem_of_nil in Hin. }
  split_and!.
  - repeat apply Forall_cons_2; [| | | by apply Forall_nil].
    + unfold retain_path_scoped. by repeat case_match.
    + unfold retain_entity_anchored. by repeat case_match.
    + split; [apply one_per_path_sublist |]. unfold retain_one_per_path. destruct items as [|it l]; [done |]. intros _.
      cbn [one_per_path]. repeat case_match; try done.
  - intros e He Hp. split; [| by apply one_per_path_protected].
    unfold retain_entity_anchored. destruct needles, items; try done. unfold retain_unless_empty. destruct (has _ _); [| done].
    apply list_elem_of_filter. split; [| done]. unfold anchored. by rewrite bool_decide_true.
  - intros i j a b p Ha Hb Hij Hpa Hpb. exact (one_per_path_distinct prot ∅ items i j a b p Ha Hb Hij Hpa Hpb).
Qed.
End ranking.

(** The scores of evidence: each lies in a fixed range despite the rounding, so
    the answer is sorted by them, and evidence of the code that a plan relates
    directly comes before what is only similar. *)

Open Scope Z_scope.

(** * Definitions *)

(** What the ranking may assume of the numbers it is given: a relevance is not a
    NaN and a directness, if there is one, is in the unit interval. *)
Definition sound_evidence (e : EvidenceItem) : Prop :=
  number32 (relevance e) ∧ match directness e with Some d => unit32 d | None => True end.
(** The documented range of the power function for a base below one. *)
Definition decays `{LM : !Libm} : Prop := ∀ x, rounded 53 1024 x → unit64 (powf (f64_lit 5 10) x).
(** The value a score is sorted by. *)
Definition score_value (e : EvidenceItem) : Z := match score e with Some s => value s | None => -1 end.
Definition direct (e : EvidenceItem) : Prop := ∃ d, directness e = Some d ∧ f32_lt d (f32_lit 9 10) = false.
Definition indirect (e : EvidenceItem) : Prop := ∃ d, directness e = Some d ∧ f32_lt (f32_lit 9 10) d = false.

(** * Lemmas *)

(** ** The order of the numbers *)

Notation nonneg32 := (nonneg 24 128).
Lemma compare32 x y : nonneg32 x → nonneg32 y → SFcompare x y = Some (value x ?= value y).
Proof. apply nonneg_compare; unfold SCALE, emin; lia. Qed.

Lemma compare32_nonneg x : nonneg32 x → 0 <= value x.
Proof. intros H. eapply nonneg_value; [..| exact H]; unfold SCALE, emin; lia. Qed.

(** A constant lies in a constant range. *)
Ltac range := split; [vm_compute; reflexivity | vm_compute; split; discriminate].
Ltac constants := repeat (apply Forall_cons; split; [vm_compute; reflexivity |]); apply Forall_nil; exact I.

Section order.
Context `{LM : !Libm} `{LC : !Lowercase} `{AN : !Alphanumeric}.

(** An item with a score, which no NaN is. *)
Definition has_score (e : EvidenceItem) : Prop := ∃ s, score e = Some s ∧ nonneg32 s.
Lemma ranked_before_spec a b : has_score a → has_score b →
  ranked_before a b ↔ score_value b < score_value a ∨ (score_value a = score_value b ∧ String.le (evidence_id a) (evidence_id b)).
Proof.
  intros (s & Ha & Hs) (t & Hb & Ht). unfold ranked_before, rank_order, score_order, score_value. rewrite Ha, Hb. unfold f32_order.
  rewrite compare32 by done. cbn [default]. unfold String.le, String.leb.
  destruct (Z.compare_spec (value t) (value s)) as [Heq|Hlt|Hgt]; cbn [id].
  - rewrite Heq. destruct (evidence_id a ?= evidence_id b)%string; cbn; (split; [try done | try (intros [?|[_ ?]]; [lia | done])]); try (by right); try lia.
  - split; [by left | done].
  - split; [done |]. intros [?|[? _]]; lia.
Qed.
Lemma ranked_before_trans a b c : has_score a → has_score b → has_score c → ranked_before a b → ranked_before b c → ranked_before a c.
Proof.
  intros Ha Hb Hc. rewrite !ranked_before_spec by done. intros [H1|[H1 H2]] [H3|[H3 H4]]; [left; lia.. | right].
  split; [lia | by etrans].
Qed.
Lemma ranked_before_total a b : has_score a → has_score b → ranked_before a b ∨ ranked_before b a.
Proof.
  intros Ha Hb. rewrite !ranked_before_spec by done. destruct (Z.lt_trichotomy (score_value a) (score_value b)) as [?|[?|?]]; [auto | | auto].
  destruct (total String.le (evidence_id a) (evidence_id b)); auto.
Qed.

(** ** The range of a score *)

Lemma literal_unit k u : nonneg32 k → unit32 u → within32 (f32_mul k u) 0 (value k).
Proof.
  intros Hk Hu. change 0 with (value f32_zero). eapply (f32_mul_within _ _ _ _ _ _ f32_zero k); [by apply within_self | exact Hu | | done | done | done | |].
  - by apply compare32_nonneg.
  - cbn [value f32_zero]. rewrite Z.mul_0_r. done.
  - apply Z.mul_le_mono_nonneg_l; [by apply compare32_nonneg |]. vm_compute. discriminate.
Qed.
(** The sum of the five terms, from the bounds of the first two. *)
Lemma score_within ev d c now_ms la ha lb hb lo u1 u2 u3 u4 :
  within32 (f32_mul (f32_lit 40 100) (authority_weight (authority ev))) la ha →
  within32 (f32_mul (f32_lit 30 100) d) lb hb →
  number32 (relevance ev) → unit32 c → unit32 (recency (timestamp ev) now_ms) →
  nonneg32 lo → Forall nonneg32 [u1; u2; u3; u4] → value lo <= la + lb → ha + hb <= value u1 →
  value u1 + value (f32_lit 15 100) <= value u2 → value u2 + value (f32_lit 10 100) <= value u3 →
  value u3 + value (f32_lit 5 100) <= value u4 →
  within32 (score_of ev d c now_ms) (value lo) (value u4).
Proof.
  intros Ha Hb Hr Hc Ht Hlo Hu H0 H1 H2 H3 H4. decompose_Forall_hyps. unfold score_of.
  eapply f32_add_within; [eapply f32_add_within; [eapply f32_add_within; [eapply (f32_add_within _ _ _ _ _ _ lo u1); [exact Ha | exact Hb | done..]
    | apply literal_unit; [done | by apply clamp_unit32] | exact Hlo | | | exact H2] | by apply literal_unit | exact Hlo | | | exact H3]
    | by apply literal_unit | exact Hlo | | | exact H4]; done || lia.
Qed.

(** The weights, by authority. *)
Lemma weight_unit a : within32 (f32_mul (f32_lit 40 100) (authority_weight a)) 0 (value (f32_lit 40 100)).
Proof. destruct a; range. Qed.
Lemma weight_of_code a : a = RuntimeEvidence ∨ a = CurrentCode →
  within32 (f32_mul (f32_lit 40 100) (authority_weight a)) (value (f32_lit 379 1000)) (value (f32_lit 40 100)).
Proof. intros [-> | ->]; range. Qed.
Lemma weight_of_similarity : within32 (f32_mul (f32_lit 40 100) (authority_weight SemanticSimilarity)) 0 (value (f32_lit 61 1000)).
Proof. range. Qed.

(** Directness above or below nine tenths. *)
Lemma direct_term d : unit32 d → f32_lt d (f32_lit 9 10) = false →
  within32 (f32_mul (f32_lit 30 100) d) (value (f32_lit 269 1000)) (value (f32_lit 30 100)).
Proof.
  intros [Hd Hv] Hlt. unfold f32_lt, SFltb in Hlt. rewrite compare32 in Hlt by done.
  assert (Hge : value (f32_lit 9 10) <= value d).
  { destruct (Z.le_gt_cases (value (f32_lit 9 10)) (value d)) as [|Hgt]; [done |]. by rewrite (proj2 (Z.compare_lt_iff _ _) Hgt) in Hlt. }
  eapply (f32_mul_within _ _ (value (f32_lit 30 100)) (value (f32_lit 30 100)) (value (f32_lit 9 10)) (value f32_one)); [apply within_self; vm_compute; reflexivity | | vm_compute; discriminate | vm_compute; discriminate | | | |];
    [split; [done | split; [exact Hge | apply Hv]] | vm_compute; reflexivity | vm_compute; reflexivity | |]; vm_compute; discriminate.
Qed.
Lemma indirect_term d : unit32 d → f32_lt (f32_lit 9 10) d = false →
  within32 (f32_mul (f32_lit 30 100) d) 0 (value (f32_lit 271 1000)).
Proof.
  intros [Hd Hv] Hlt. unfold f32_lt, SFltb in Hlt. rewrite compare32 in Hlt by done.
  assert (Hle : value d <= value (f32_lit 9 10)).
  { destruct (Z.le_gt_cases (value d) (value (f32_lit 9 10))) as [|Hgt]; [done |].
    by rewrite (proj2 (Z.compare_lt_iff _ _) Hgt) in Hlt. }
  change 0 with (value f32_zero).
  eapply (f32_mul_within _ _ (value (f32_lit 30 100)) (value (f32_lit 30 100)) 0 (value (f32_lit 9 10)) f32_zero); [apply within_self; vm_compute; reflexivity | | vm_compute; discriminate | vm_compute; discriminate | | | |];
    [split; [done | split; [apply Hv | exact Hle]] | vm_compute; reflexivity | vm_compute; reflexivity | |]; vm_compute; discriminate.
Qed.

(** ** The terms of an item *)

Hypothesis Hdecay : decays.
Lemma f64_of_N_rounded n : rounded 53 1024 (f64_of_N n).
Proof.
  destruct n as [|p]; [by left |]. change (f64_of_N (N.pos p)) with (binary_round 53 1024 false p 0).
  apply binary_round_valid; unfold emin, SCALE; lia.
Qed.
Lemma halflife_finite : ∃ m e, HALFLIFE_MS = S754_finite false m e ∧ bounded 53 1024 m e = true.
Proof. eexists _, _. split; vm_compute; reflexivity. Qed.
Lemma recency_unit ts now_ms : unit32 (recency ts now_ms).
Proof.
  destruct ts as [t|]; [| range]. cbn [recency].
  destruct (_ && _); [| range].
  apply f32_of_f64_unit, Hdecay. destruct halflife_finite as (m & e & -> & Hb).
  apply div_rounded; [unfold emin, SCALE; lia.. | apply f64_of_N_rounded | done].
Qed.
Lemma default_directness_unit ev : unit32 (default_directness ev).
Proof. unfold default_directness. destruct (kind ev); case_decide; range. Qed.
Lemma directness_unit terms ev : sound_evidence ev → unit32 (directness_of terms ev).
Proof.
  intros [_ Hd]. assert (Hu : unit32 (default (default_directness ev) (directness ev))).
  { destruct (directness ev); [done | apply default_directness_unit]. }
  unfold directness_of. revert Hu. generalize (default (default_directness ev) (directness ev)). intros d Hu.
  destruct (_ && _); [| exact Hu]. unfold f32_max, f64_max. assert (Hl : unit32 (f32_lit 9 10)) by range. revert Hl.
  generalize (f32_lit 9 10). intros l Hl. by repeat case_match.
Qed.

(** The providers of a subject: some, and not more than the items. *)
Lemma providers_some items :
  map_Forall (λ _ ps, ps ≠ ∅ ∧ ps ⊆ list_to_set (provider <$> items)) (providers_by_subject items).
Proof.
  unfold providers_by_subject. induction items as [|it items IH] using rev_ind; [apply map_Forall_empty |].
  rewrite foldl_app. cbn [foldl]. unfold add_provider. rewrite fmap_app, list_to_set_app_L. apply map_Forall_insert_2.
  - assert (Hps : default ∅ (foldl add_provider ∅ items !! subject_key it) ⊆ (list_to_set (provider <$> items) : gset string)).
    { destruct (foldl add_provider ∅ items !! subject_key it) as [ps|] eqn:E; [by apply IH in E as [_ E] | apply empty_subseteq]. }
    split; [set_solver |]. cbn [fmap list_fmap list_to_set]. set_solver.
  - eapply map_Forall_impl; [exact IH |]. set_solver.
Qed.
Lemma corroboration_unit terms items ev :
  (N.of_nat (length terms) <= 2 ^ 64)%N → (N.of_nat (length items) <= 2 ^ 64)%N →
  unit32 (corroboration terms (providers_by_subject items) ev).
Proof.
  intros Ht Hi. unfold corroboration, f32_of_nat. destruct (Nat.leb_spec 2 (length terms)) as [H2|_].
  - apply clamp_rounded32, f32_div_rounded; [| lia].
    assert (present_terms terms ev <= length terms)%nat by apply length_filter. apply f32_of_N_within. lia.
  - apply clamp_rounded32, f32_div_rounded; [| lia]. apply f32_pred_within.
    destruct (providers_by_subject items !! subject_key ev) as [ps|] eqn:E; [| lia].
    apply providers_some in E as [Hne Hsub]. split.
    + assert (size ps ≠ 0%nat); [| lia]. by intros ?%size_empty_inv%leibniz_equiv.
    + apply subseteq_size in Hsub. assert (size (list_to_set (provider <$> items) : gset string) <= length items)%nat; [| lia].
      rewrite <-(length_fmap provider items). generalize (provider <$> items). clear. intros l.
      induction l as [|x l IH]; [done |]. cbn [list_to_set length]. pose proof (size_union_alt {[x]} (list_to_set l : gset string)).
      assert (size ({[x]} : gset string) = 1%nat) by apply size_singleton.
      assert (size (list_to_set l ∖ {[x]} : gset string) <= size (list_to_set l : gset string))%nat by (apply subseteq_size; set_solver).
      change (list_to_set (x :: l)) with ({[x]} ∪ list_to_set l : gset string). lia.
Qed.
Lemma join_sub it best : join_evidence it best ⊆ it :: best.
Proof. induction best as [|e best IH]; [done |]. cbn [join_evidence]. repeat case_match; set_solver. Qed.
Lemma dedup_sub items : dedup items ⊆ items.
Proof.
  unfold dedup. induction items as [|it items IH] using rev_ind; [done |]. rewrite foldl_app. cbn [foldl].
  etrans; [apply join_sub | set_solver].
Qed.
Lemma join_length it best : (length (join_evidence it best) <= S (length best))%nat.
Proof. induction best as [|e best IH]; [done |]. cbn [join_evidence]. repeat case_match; cbn [length]; lia. Qed.
Lemma dedup_length items : (length (dedup items) <= length items)%nat.
Proof.
  unfold dedup. induction items as [|it items IH] using rev_ind; [done |]. rewrite foldl_app, length_app. cbn [foldl length].
  etrans; [apply join_length | lia].
Qed.

(** ** The scores of an answer *)

Context (now_ms : N) (items : list EvidenceItem) (terms : list string).
Hypothesis Hitems : Forall sound_evidence items.
Hypothesis Hlen : (N.of_nat (length items) <= 2 ^ 64)%N.
Hypothesis Hterms : (N.of_nat (length terms) <= 2 ^ 64)%N.
Notation scored := (scored items terms now_ms).

Lemma scored_item e : e ∈ scored → ∃ ev, sound_evidence ev ∧
  e = score_item terms (providers_by_subject (dedup items)) now_ms ev ∧
  unit32 (corroboration terms (providers_by_subject (dedup items)) ev).
Proof.
  unfold Ranking.scored. rewrite stable_sort_perm. intros (ev & -> & Hev)%list_elem_of_fmap. exists ev. split_and!; [| done |].
  - eapply Forall_forall; [exact Hitems |]. by apply dedup_sub.
  - apply corroboration_unit; [done |]. pose proof (dedup_length items). lia.
Qed.
Lemma scored_range e : e ∈ scored → ∃ s, score e = Some s ∧ within32 s 0 (value (f32_lit 1001 1000)).
Proof.
  intros (ev & Hev & -> & Hc)%scored_item. eexists. split; [reflexivity |]. change 0 with (value f32_zero).
  eapply (score_within _ _ _ _ _ _ _ _ _ (f32_lit 7001 10000) (f32_lit 8503 10000) (f32_lit 9505 10000) (f32_lit 1001 1000));
    [apply weight_unit | apply literal_unit; [vm_compute; reflexivity | by apply directness_unit] | apply Hev | done | apply recency_unit | ..];
    [vm_compute; reflexivity | constants | vm_compute; discriminate..].
Qed.
Lemma scored_has_score : Forall has_score scored.
Proof. apply Forall_forall. intros e (s & Hs & [Hn _])%scored_range. by exists s. Qed.
Lemma scored_sorted : StronglySorted ranked_before scored.
Proof.
  pose proof scored_has_score as H. unfold Ranking.scored in *. rewrite stable_sort_perm in H.
  apply (stable_sort_sorted_on _ has_score); [apply ranked_before_trans | apply ranked_before_total | done].
Qed.
(** Evidence of the code with a direct relation, and what is only similar. *)
Lemma direct_score e : e ∈ scored → authority e = RuntimeEvidence ∨ authority e = CurrentCode → direct e →
  value (f32_lit 647 1000) <= score_value e.
Proof.
  intros (ev & Hev & -> & Hc)%scored_item Ha (d & [= <-] & Hd). unfold score_value. cbn [score score_item with_score].
  eapply (score_within _ _ _ _ _ _ _ _ (f32_lit 647 1000) (f32_lit 7001 10000) (f32_lit 8503 10000) (f32_lit 9505 10000) (f32_lit 1001 1000));
    [by apply weight_of_code | apply direct_term; [by apply directness_unit | done] | apply Hev | done | apply recency_unit | ..];
    [vm_compute; reflexivity | constants | vm_compute; discriminate..].
Qed.
Lemma indirect_score e : e ∈ scored → authority e = SemanticSimilarity → indirect e → score_value e <= value (f32_lit 64 100).
Proof.
  intros (ev & Hev & -> & Hc)%scored_item Ha (d & [= <-] & Hd). unfold score_value. cbn [score score_item with_score].
  eapply (score_within _ _ _ _ _ _ _ _ f32_zero (f32_lit 333 1000) (f32_lit 484 1000) (f32_lit 585 1000) (f32_lit 64 100));
    [change (authority ev = SemanticSimilarity) in Ha; rewrite Ha; apply weight_of_similarity | apply indirect_term; [by apply directness_unit | done] | apply Hev | done | apply recency_unit | ..];
    [vm_compute; reflexivity | constants | vm_compute; discriminate..].
Qed.
End order.

(** * Theorems *)

Section ranking.
Context `{LM : !Libm} `{LC : !Lowercase} `{AN : !Alphanumeric}.

(** C19. Whatever the rounding of the scores does: every score of an answer is a
    number between zero and 1.001, the answer is sorted by them with the ids on a
    tie, and what the code or a run shows with a direct relation stands before
    everything that is only similar and not more direct. *)
Theorem direct_evidence_outranks_similarity (now_ms : N) (items : list EvidenceItem) (cap : nat) (terms : list string)
    (ep : option string) :
  decays → Forall sound_evidence items → (N.of_nat (length items) <= 2 ^ 64)%N → (N.of_nat (length terms) <= 2 ^ 64)%N →
  let out := rank_and_select_with_terms_exempt now_ms items cap terms ep in
  (∀ e, e ∈ out → ∃ s, score e = Some s ∧ within32 s 0 (value (f32_lit 1001 1000))) ∧
  StronglySorted (λ a b, score_value b < score_value a ∨
    (score_value a = score_value b ∧ String.le (evidence_id a) (evidence_id b))) out ∧
  (∀ i j strong weak, out !! i = Some strong → out !! j = Some weak →
     authority strong = RuntimeEvidence ∨ authority strong = CurrentCode → direct strong →
     authority weak = SemanticSimilarity → indirect weak → (i < j)%nat).
Proof.
  intros Hdecay Hitems Hlen Hterms out. assert (Hsub : out `sublist_of` scored items terms now_ms) by apply selected_sublist.
  assert (Hin : ∀ e, e ∈ out → e ∈ scored items terms now_ms) by (intros e He; by eapply elem_of_sublist).
  assert (Hs : StronglySorted ranked_before out).
  { eapply StronglySorted_sublist; [exact Hsub |]. by apply scored_sorted. }
  assert (Hscore : Forall has_score out).
  { apply Forall_forall. intros e He. eapply Forall_forall; [by apply (scored_has_score Hdecay now_ms items terms) | by apply Hin]. }
  split_and!.
  - intros e He. by apply (scored_range Hdecay now_ms items terms), Hin.
  - clear -Hs Hscore. induction Hs as [|a l Hs IH Hall]; [constructor |]. apply Forall_cons in Hscore as [Ha Hl].
    constructor; [by apply IH |]. rewrite Forall_forall in *. intros b Hb. by apply ranked_before_spec; auto.
  - intros i j strong weak Hi Hj Ha Hd Hw Hn.
    assert (H1 := direct_score Hdecay now_ms items terms Hitems Hlen Hterms strong (Hin _ (list_elem_of_lookup_2 _ _ _ Hi)) Ha Hd).
    assert (H2 := indirect_score Hdecay now_ms items terms Hitems Hlen Hterms weak (Hin _ (list_elem_of_lookup_2 _ _ _ Hj)) Hw Hn).
    assert (Hgap : value (f32_lit 64 100) < value (f32_lit 647 1000)) by (vm_compute; reflexivity).
    destruct (Nat.lt_trichotomy i j) as [|[->|Hlt]]; [done | exfalso | exfalso].
    + rewrite Hi in Hj. injection Hj as ->. lia.
    + rewrite Forall_forall in Hscore.
      assert (Hb : ranked_before weak strong) by by eapply StronglySorted_lookup.
      apply ranked_before_spec in Hb; [| apply Hscore; by eapply list_elem_of_lookup_2..]. lia.
Qed.
End ranking.
