(* ===== verification/Status.v ===== *)
(** [engram_server::services::ask_engine::status]: what an answer may claim. The
    names a question takes for granted are looked for in the evidence, the
    evidence is weighed against the question, and one status is assigned. The
    snapshot an answer is pinned to is read from the registry. *)
From S2P Require Import Prelude Text Unicode Store Records Reindex SourceHead Registry F64 Evidence Ranking.

Open Scope N_scope.

(** * Definitions *)

Inductive AnswerStatus := Answered | Partial | Ambiguous | Stale | Unsupported | Failed.
Inductive ProviderStatus :=
  | ProviderHit | ProviderEmpty | ProviderStale | ProviderAmbiguous | ProviderMisunderstood | ProviderFailed
  | ProviderAbsent | ProviderTimedOut.
#[export] Instance AnswerStatus_eq_dec : EqDecision AnswerStatus.
Proof. solve_decision. Defined.
#[export] Instance ProviderStatus_eq_dec : EqDecision ProviderStatus.
Proof. solve_decision. Defined.

(** providers.rs: counters of what a walk of the graph has skipped. *)
Record CoverageProof := {
  sources_discovered : nat;
  sources_processed : nat;
  source_cap_hit : bool;
  edges_emitted : nat;
  neighbor_cap_hits : nat;
  dangling_targets : nat;
  dangling_target_ids : list string;
  dispatch_truncated : nat;
  graph_errors : nat;
  proof_policy : string;
}.
Definition complete (self : CoverageProof) : bool :=
  negb (source_cap_hit self) && Nat.eqb (neighbor_cap_hits self) 0 && Nat.eqb (dangling_targets self) 0
  && Nat.eqb (graph_errors self) 0 && Nat.eqb (dispatch_truncated self) 0
  && Nat.leb (sources_discovered self) (sources_processed self).

Record ProviderReport := {
  report_provider : string;
  report_status : ProviderStatus;
  report_count : nat;
  report_note : option string;
  report_examined : nat;
  report_available : option nat;
  report_truncated : bool;
  report_proof : option CoverageProof;
}.

Record FreshnessSnapshot := {
  snapshot_generation : option N;
  git_commit : option string;
  git_branch : option string;
  history_watermark : option N;
  last_index_ms : option N;
  semantic_tier : string;
  reindex_required : bool;
  incompatible : bool;
}.

Inductive SemanticQuality := SemanticModel | DegradedTrigram | SemanticOff.

Section snapshot.
Context `{RE : !RegistryEnv}.

(** [.ok().flatten()]. *)
Definition ok_flatten {A} (r : result (option A)) : option A := match r with Ok o => o | Fail _ => None end.
Definition ok_u64 (s : string) : option N := match parse_u64 s with Ok n => Some n | Fail _ => None end.

Definition build_snapshot (db : DB) (project_id : string) (generation : N) (quality : SemanticQuality)
    (rec : ProjectRecord) (as_of_branch : option string) : FreshnessSnapshot :=
  {| snapshot_generation := Some generation;
     git_commit := ok_flatten (get_meta project_id "last_git_oid" db);
     git_branch := as_of_branch;
     history_watermark :=
       or_else (ok_flatten (get_meta project_id "pr_ingest_watermark" db))
               (ok_flatten (get_meta project_id "total_commits" db)) ≫= ok_u64;
     last_index_ms := ok_flatten (get_meta project_id "last_index_completed_ms" db) ≫= ok_u64;
     semantic_tier :=
       match quality with SemanticModel => "semantic" | DegradedTrigram => "degraded_trigram" | SemanticOff => "off" end;
     reindex_required := bool_decide (is_Some (reindex_required_since_ms rec));
     incompatible := false |}.
End snapshot.

(** ** Named terms *)

(** [str::split_whitespace]. *)
Definition split_whitespace (s : string) : list string :=
  filter (λ w, w ≠ "") (split_at (λ c, bool_decide (c ∈ whitespace)) s).
(** Ends of a text are trimmed byte by byte: the classes below hold of all the
    bytes of a character beyond ASCII, or of none. *)
Fixpoint trim_front (f : ascii → bool) (s : string) : string :=
  match s with String a s' => if f a then trim_front f s' else s | "" => "" end.
Fixpoint trim_back (f : ascii → bool) (s : string) : string :=
  match s with
  | "" => ""
  | String a s' => match trim_back f s' with "" => if f a then "" else str1 a | t => String a t end
  end.
Definition trim_matches (f : ascii → bool) (s : string) : string := trim_back f (trim_front f s).
Definition one_of (l : string) (a : ascii) : bool := contains_char a l.
Definition is_ascii_uppercase (a : ascii) : bool := in_range 65 90 a.
Definition is_ascii_lowercase (a : ascii) : bool := in_range 97 122 a.
Definition is_ascii_alphabetic (a : ascii) : bool := is_ascii_uppercase a || is_ascii_lowercase a.
Definition last_byte (s : string) : option ascii := last (String.list_ascii_of_string s).
Definition ends_with_one_of (l : string) (s : string) : bool :=
  match last_byte s with Some a => one_of l a | None => false end.
Definition QUOTE : string := str1 (ascii_of_N 34).

Definition ends_sentence (raw : string) : bool :=
  ends_with_one_of ".?!" (trim_back (one_of (QUOTE +:+ "'`)]")) raw).
Definition token_of (raw : string) : string :=
  trim_matches (one_of ".")
    (trim_matches (λ c, negb (is_ascii_alphanumeric c) && negb (one_of "_." c)) raw).
Definition is_identifier (tok : string) : bool := contains_char "_" tok || contains_char "." tok.
(** A character beyond ASCII has no byte that is an upper case letter. *)
Definition inner_upper (tok : string) : bool := string_existsb is_ascii_uppercase (sdrop 1 tok).
Definition upper_start (tok : string) : bool := match tok with String a _ => is_ascii_uppercase a | "" => false end.
Definition explicit_code_name (raw : string) : bool := starts_with "`" raw.

Definition instruction_words : list string :=
  ["include"; "identify"; "describe"; "explain"; "list"; "show"; "find"; "check"; "cover"; "consider"; "compare";
   "summarize"; "trace"; "locate"; "report"; "give"; "provide"; "outline"; "verify"; "analyze"; "analyse"; "inspect";
   "review"; "highlight"; "evaluate"; "determine"].
Definition filler_words : list string :=
  ["which"; "there"; "where"; "their"; "these"; "those"; "would"; "could"; "should"; "about"; "after"; "before";
   "using"; "based"; "other"; "every"; "while"; "doing"; "being"; "still"; "again"; "some"; "thing"; "things";
   "something"; "anything"; "everything"; "please"; "system"; "systems"].
Definition is_filler_term (w : string) : bool := bool_decide (w ∈ filler_words).
Definition tech_role_words : list string :=
  ["api"; "apis"; "dal"; "dao"; "dto"; "orm"; "sdk"; "cli"; "gui"; "url"; "urls"; "http"; "https"; "dom"; "json";
   "xml"; "ajax"; "rest"].
Definition is_tech_role_term (w : string) : bool := bool_decide (w ∈ tech_role_words).
Definition language_suffixes (w : string) : option (list string) :=
  if String.eqb w "typescript" then Some [".ts"; ".tsx"]
  else if String.eqb w "javascript" then Some [".js"; ".jsx"]
  else if bool_decide (w ∈ ["vb"; "vbnet"; "vb.net"]) then Some [".vb"]
  else if String.eqb w "csharp" then Some [".cs"]
  else if String.eqb w "python" then Some [".py"]
  else if String.eqb w "sql" then Some [".sql"]
  else if String.eqb w "css" then Some [".css"]
  else if String.eqb w "html" then Some [".html"; ".aspx"; ".ascx"]
  else None.
Definition same_ignoring_case (a b : string) : bool :=
  String.eqb (string_map to_ascii_lower a) (string_map to_ascii_lower b).

Section terms.
Context `{LC : !Lowercase}.

Definition evidence_text (e : EvidenceItem) : string :=
  default "" (path e) +:+ " " +:+ default "" (title e) +:+ " " +:+ default "" (symbol_id e) +:+ " "
  +:+ content e +:+ str1 LF.
Definition concat_text (l : list string) : string := foldr String.append "" l.
Definition evidence_haystack (evidence : list EvidenceItem) (known : list string) : string :=
  to_lowercase (concat_text (evidence_text <$> evidence) +:+ concat_text ((λ k, k +:+ str1 LF) <$> known)).

(** A word that names something, and is not an instruction at the start of a
    sentence. *)
Definition is_named_term (i : nat) (starts_sentence : bool) (raw : string) : bool :=
  let tok := token_of raw in
  negb (Nat.ltb (String.length tok) 3 || negb (string_existsb is_ascii_alphabetic tok))
  && (explicit_code_name raw || is_identifier tok || inner_upper tok || (upper_start tok && Nat.ltb 0 i))
  && negb (starts_sentence && negb (explicit_code_name raw) && negb (is_identifier tok) && negb (inner_upper tok)
           && bool_decide (to_lowercase tok ∈ instruction_words)).
Definition in_language (sufs : list string) (e : EvidenceItem) : bool :=
  match path e with Some p => existsb (λ s, ends_with s (to_lowercase p)) sufs | None => false end.
(** A term that needs no evidence, or has some. *)
Definition is_covered (hay : string) (evidence : list EvidenceItem) (lower : string) : bool :=
  is_filler_term lower || is_tech_role_term lower || str_contains lower hay
  || match language_suffixes lower with Some sufs => existsb (in_language sufs) evidence | None => false end.

Record Scan := { uncovered : list string; sentence_start : bool }.
Definition scan_word (hay : string) (evidence : list EvidenceItem) (st : Scan) (w : nat * string) : Scan :=
  let tok := token_of w.2 in
  {| uncovered :=
       if is_named_term w.1 (sentence_start st) w.2 && negb (is_covered hay evidence (to_lowercase tok))
          && negb (existsb (λ o, same_ignoring_case o tok) (uncovered st))
       then uncovered st ++ [tok] else uncovered st;
     sentence_start := ends_sentence w.2 |}.
Definition uncovered_named_terms_with (question : string) (evidence : list EvidenceItem) (known : list string)
  : list string :=
  uncovered (foldl (scan_word (evidence_haystack evidence known) evidence) {| uncovered := []; sentence_start := true |}
               (indexed (split_whitespace question))).
Definition uncovered_named_terms (question : string) (evidence : list EvidenceItem) : list string :=
  uncovered_named_terms_with question evidence [].

(** ** Support *)

Definition structural (e : EvidenceItem) : bool :=
  of_kind GraphRelation e && bool_decide (provider e ∈ ["impact"; "usage"; "companion"]).
Definition distinctive_terms (question : string) : list string :=
  filter (λ w, (5 <= String.length w)%nat ∧ is_filler_term w = false) (ascii_words (to_lowercase question)).
Definition considered (evidence : list EvidenceItem) : list EvidenceItem := filter (λ e, provider e ≠ "concept") evidence.
Definition title_and_content (e : EvidenceItem) : string :=
  to_lowercase (default "" (title e) +:+ " " +:+ content e).
Definition covered_terms (terms : list string) (evidence : list EvidenceItem) : gset string :=
  foldl (λ covered e, foldl (λ c t, if str_contains t (title_and_content e) then {[t]} ∪ c else c) covered terms)
        ∅ (considered evidence).
Definition has_adequate_support_with (question : string) (evidence : list EvidenceItem) (known : list string) : bool :=
  if negb (bool_decide (uncovered_named_terms_with question evidence known = [])) then false
  else if existsb structural evidence then true
  else if existsb (λ k, str_contains (to_lowercase k) (evidence_haystack evidence []))
            (filter (λ k, (4 <= String.length k)%nat) known) then true
  else
    let terms := distinctive_terms question in
    if Nat.ltb (length terms) 2 then negb (bool_decide (considered evidence = []))
    else Nat.leb 2 (size (covered_terms terms evidence)).
Definition has_adequate_support (question : string) (evidence : list EvidenceItem) : bool :=
  has_adequate_support_with question evidence [].

(** ** Status *)

Definition primary_kind (t : AnswerType) : EvidenceKind :=
  match t with
  | ImpactSet | UsageSites => GraphRelation
  | Timeline => HistoryCommit
  | RequirementRef => MemoryNote
  | TestGuidance => TestRef
  | _ => SourceCode
  end.
(** [format!("{:?}", kind)]. *)
Definition entity_kind_debug (k : EntityKind) : string :=
  match k with
  | SymbolEntity => "Symbol" | FileEntity => "File" | RouteEntity => "Route" | TableEntity => "Table"
  | ColumnEntity => "Column" | SettingEntity => "Setting" | UiControl => "UiControl" | Concept => "Concept"
  | Requirement => "Requirement" | UnknownEntity => "Unknown"
  end.
Definition stem_guess (text : string) : bool :=
  negb (String.eqb text "") && string_forallb (λ c, is_ascii_lowercase c || is_ascii_digit c) text.
Definition names_by_kind (l : list ResolvedEntity) : gmap string (gset string) :=
  foldl (λ m r, <[entity_kind_debug (entity_kind r) :=
                    {[to_lowercase (canonical r)]} ∪ default ∅ (m !! entity_kind_debug (entity_kind r))]> m) ∅ l.
Definition is_ambiguous (e : EntityMention) : bool :=
  if stem_guess (mention_text e) then false
  else existsb (λ kn : string * gset string, Nat.ltb 1 (size kn.2)) (map_to_list (names_by_kind (resolved e))).
Definition of_any_modality (m : Modality) (evidence : list EvidenceItem) : bool :=
  existsb (λ e, match path e with Some p => modality_matches m p | None => false end) evidence.
Definition facet_met (evidence : list EvidenceItem) (f : Facet) : bool :=
  match f with
  | DefinitionFacet =>
      existsb (λ e, String.eqb (provider e) "definition" || str_contains "definition" (extraction_method e)) evidence
  | CallerFacet | ImplementationFacet => existsb (of_kind GraphRelation) evidence
  | RationaleFacet => true
  end.
Definition unverified_source (e : EvidenceItem) : bool :=
  match source_verification e with Some s => negb (starts_with "VERIFIED_METHOD_HASH:" s) | None => false end.
Definition stale_source (e : EvidenceItem) : bool :=
  match source_verification e with Some s => starts_with "STALE:" s | None => false end.
Definition arm_failed (p : ProviderReport) : bool :=
  bool_decide (report_status p = ProviderFailed) || bool_decide (report_status p = ProviderTimedOut).
Definition ran (providers : list ProviderReport) : list ProviderReport :=
  filter (λ p, report_status p ≠ ProviderAbsent) providers.
Definition all_failed (providers : list ProviderReport) : bool :=
  negb (bool_decide (ran providers = [])) && forallb arm_failed (ran providers).
Definition callee_set_complete (p : ProviderReport) : bool :=
  String.eqb (report_provider p) "callee_set" && Nat.ltb 0 (report_count p) && negb (report_truncated p).

(** What remains once neither the contract's set nor its absence has decided. *)
Definition assess_coverage (plan : QueryPlan) (evidence : list EvidenceItem) : AnswerStatus :=
  if existsb (λ f, negb (facet_met evidence f)) (required_facets (contract plan)) then Partial
  else if existsb unverified_source evidence then if forallb stale_source evidence then Stale else Partial
  else if negb (bool_decide (behavior_requirements (contract plan) = [])) then Partial
  else if existsb (of_kind (primary_kind (answer_type plan))) evidence then Answered
  else Partial.
Definition assess_status (plan : QueryPlan) (evidence : list EvidenceItem) (providers : list ProviderReport)
    (snapshot : FreshnessSnapshot) (adequate_support : bool) : AnswerStatus :=
  if bool_decide (evidence = []) then if all_failed providers then Failed else Unsupported
  else if existsb is_ambiguous (entities plan) then Ambiguous
  else if negb adequate_support || negb (existsb (λ e, authority_rank (authority e) <=? authority_rank AgentMemory) evidence)
  then Unsupported
  else if reindex_required snapshot || incompatible snapshot then Stale
  else if existsb (λ m, negb (of_any_modality m evidence)) (modalities plan) then Partial
  else if completeness_required (contract plan) then
    match direction (contract plan) with
    | Callees =>
        if negb (existsb callee_set_complete providers) then Partial
        else if existsb (of_kind GraphRelation) evidence then Answered
        else assess_coverage plan evidence
    | _ => Partial
    end
  else assess_coverage plan evidence.

End terms.

(** * Lemmas *)

Section spec.
Context `{LC : !Lowercase}.

(** The word at [i] begins the text or follows one that ends a sentence. *)
Definition starts_sentence_at (ws : list string) (i : nat) : bool :=
  match i with O => true | S j => match ws !! j with Some raw => ends_sentence raw | None => false end end.
(** A name that the question takes for granted. *)
Definition premise (question t : string) : Prop :=
  ∃ i raw, split_whitespace question !! i = Some raw ∧ token_of raw = t ∧
    is_named_term i (starts_sentence_at (split_whitespace question) i) raw = true.
Definition folded (s : string) : string := string_map to_ascii_lower s.

Lemma same_ignoring_case_spec a b : same_ignoring_case a b = true ↔ folded a = folded b.
Proof. apply String.eqb_eq. Qed.

(** What the scan of a list of words has found. *)
Record Found (hay : string) (ev : list EvidenceItem) (ws : list string) (u : list string) : Prop := {
  found_sound : ∀ t, t ∈ u → ∃ i raw, ws !! i = Some raw ∧ token_of raw = t ∧
    is_named_term i (starts_sentence_at ws i) raw = true ∧ is_covered hay ev (to_lowercase t) = false;
  found_all : ∀ i raw, ws !! i = Some raw → is_named_term i (starts_sentence_at ws i) raw = true →
    is_covered hay ev (to_lowercase (token_of raw)) = false → folded (token_of raw) ∈ folded <$> u;
  found_order : u `sublist_of` (token_of <$> ws);
  found_once : NoDup (folded <$> u);
}.

Lemma starts_sentence_app ws w i raw : ws !! i = Some raw → starts_sentence_at (ws ++ [w]) i = starts_sentence_at ws i.
Proof.
  intros Hi. apply lookup_lt_Some in Hi. destruct i as [|j]; [done |]. cbn. by rewrite lookup_app_l by lia.
Qed.
Lemma starts_sentence_last ws w :
  starts_sentence_at (ws ++ [w]) (length ws) = match last ws with Some raw => ends_sentence raw | None => true end.
Proof.
  rewrite last_lookup. destruct ws as [|a l]; [done |]. cbn [length starts_sentence_at Nat.pred].
  rewrite lookup_app_l by (cbn; lia). destruct ((a :: l) !! length l) as [raw|] eqn:E; [done |].
  apply lookup_ge_None in E. cbn in E. lia.
Qed.
Lemma existsb_folded u tok : existsb (λ o, same_ignoring_case o tok) u = true ↔ folded tok ∈ folded <$> u.
Proof.
  rewrite existsb_exists, list_elem_of_fmap. split.
  - intros (o & Ho & Hs%same_ignoring_case_spec). exists o. split; [done | by apply list_elem_of_In].
  - intros (o & Hs & Ho). exists o. split; [by apply list_elem_of_In | by apply same_ignoring_case_spec].
Qed.

Lemma indexed_app {A} (l : list A) x : indexed (l ++ [x]) = indexed l ++ [(length l, x)].
Proof.
  unfold indexed. rewrite length_app, Nat.add_1_r, seq_S. cbn [plus].
  rewrite zip_with_app by (by rewrite length_seq). done.
Qed.

(** One more word. *)
Definition missing_term (hay : string) (ev : list EvidenceItem) (i : nat) (start : bool) (w : string) : bool :=
  is_named_term i start w && negb (is_covered hay ev (to_lowercase (token_of w))).
Lemma found_appended hay ev ws w (u u' : list string) :
  Found hay ev ws u →
  let missing := missing_term hay ev (length ws) (starts_sentence_at (ws ++ [w]) (length ws)) w in
  (u' = u ∧ (missing = true → folded (token_of w) ∈ folded <$> u)) ∨
  (u' = u ++ [token_of w] ∧ missing = true ∧ folded (token_of w) ∉ folded <$> u) →
  Found hay ev (ws ++ [w]) u'.
Proof.
  intros HF missing Hu'.
  assert (Hsub : ∀ t, t ∈ u → t ∈ u') by (destruct Hu' as [[-> _] | [-> _]]; set_solver).
  assert (Hnew : missing = true → folded (token_of w) ∈ folded <$> u').
  { intros Hm. destruct Hu' as [[-> H] | (-> & _ & _)]; [by apply H |]. rewrite fmap_app. set_solver. }
  split.
  - intros t Ht.
    assert (t ∈ u ∨ (t = token_of w ∧ missing = true)) as [Hold | [-> Hm]]
      by (destruct Hu' as [[-> _] | (-> & ? & _)]; set_solver).
    + destruct (found_sound _ _ _ _ HF t Hold) as (i & raw & Hi & Ht' & Hn & Hc).
      exists i, raw. rewrite (starts_sentence_app _ w _ _ Hi). by rewrite (lookup_app_l_Some _ _ _ _ Hi).
    + apply andb_true_iff in Hm as [Hn Hc%negb_true_iff]. exists (length ws), w.
      split_and!; [| done | done | done]. by rewrite lookup_app_r, Nat.sub_diag by lia.
  - intros i raw Hi Hn Hc. apply lookup_app_Some in Hi as [Hi | [Hge Hi]].
    + rewrite (starts_sentence_app _ w _ _ Hi) in Hn. pose proof (found_all _ _ _ _ HF i raw Hi Hn Hc) as Hin.
      apply list_elem_of_fmap in Hin as (o & -> & Ho). apply list_elem_of_fmap. eauto.
    + destruct (i - length ws)%nat as [|k] eqn:Hk; [| done]. injection Hi as <-. assert (i = length ws) as -> by lia.
      apply Hnew. unfold missing, missing_term. by rewrite Hn, Hc.
  - rewrite fmap_app. destruct Hu' as [[-> _] | (-> & _ & _)].
    + by apply sublist_inserts_r, (found_order _ _ _ _ HF).
    + apply sublist_app; [apply (found_order _ _ _ _ HF) | done].
  - destruct Hu' as [[-> _] | (-> & _ & Hn)]; [apply (found_once _ _ _ _ HF) |].
    rewrite fmap_app. apply NoDup_app. split_and!; [apply (found_once _ _ _ _ HF) | | apply NoDup_singleton].
    intros x Hx ->%list_elem_of_singleton. done.
Qed.

Lemma scan_found hay ev ws :
  let st := foldl (scan_word hay ev) {| uncovered := []; sentence_start := true |} (indexed ws) in
  Found hay ev ws (uncovered st) ∧
  sentence_start st = match last ws with Some raw => ends_sentence raw | None => true end.
Proof.
  induction ws as [|w ws IH] using rev_ind; cbn zeta in *.
  { cbn. split; [| done]. split; [set_solver | by intros [] | done | constructor]. }
  rewrite indexed_app, foldl_app. cbn [foldl]. set (st := foldl _ _ (indexed ws)) in *.
  destruct IH as [IH Hst]. rewrite last_snoc. split; [| done].
  apply (found_appended _ _ _ _ _ _ IH). unfold missing_term. rewrite starts_sentence_last, <-Hst.
  unfold scan_word. cbn [uncovered fst snd].
  destruct (is_named_term _ _ w && negb _) eqn:Hm; cbn [andb]; [| by left].
  pose proof (existsb_folded (uncovered st) (token_of w)) as He.
  destruct (existsb _ (uncovered st)); cbn [negb].
  - left. split; [done | intros _; by apply He].
  - right. split_and!; [done | done |]. intros H%He. done.
Qed.

Lemma size_two `{Countable A} (X : gset A) : (1 < size X)%nat ↔ ∃ x y, x ∈ X ∧ y ∈ X ∧ x ≠ y.
Proof.
  split.
  - intros Hs. destruct (elements X) as [|x [|y l]] eqn:E; unfold size, set_size in Hs; cbn in Hs; rewrite E in Hs; cbn in Hs; [lia | lia |].
    assert (Hn : NoDup (elements X)) by apply NoDup_elements. rewrite E in Hn. inversion Hn as [|? ? Hx _]; subst.
    exists x, y. split_and!; [apply elem_of_elements; rewrite E; set_solver.. | set_solver].
  - intros (x & y & Hx & Hy & Hne). assert (Hsub : ({[x; y]} : gset A) ⊆ X) by set_solver.
    apply subseteq_size in Hsub. rewrite size_union, !size_singleton in Hsub by set_solver. lia.
Qed.

Lemma entity_kind_debug_inj k k' : entity_kind_debug k = entity_kind_debug k' → k = k'.
Proof. by destruct k, k'. Qed.
Lemma elem_of_names_by_kind l k n :
  n ∈ (default ∅ (names_by_kind l !! k) : gset string) ↔
  ∃ r, r ∈ l ∧ entity_kind_debug (entity_kind r) = k ∧ to_lowercase (canonical r) = n.
Proof.
  unfold names_by_kind. induction l as [|r l IH] using rev_ind; [cbn; set_solver |].
  rewrite foldl_app. cbn [foldl]. set (m := foldl _ _ l) in *.
  destruct (decide (entity_kind_debug (entity_kind r) = k)) as [<- | Hk].
  - rewrite lookup_insert_eq. cbn. rewrite elem_of_union, elem_of_singleton, IH. set_solver.
  - rewrite lookup_insert_ne by done. rewrite IH. set_solver.
Qed.

(** An entity is ambiguous when two of its readings are of one kind and have
    different names, unless its mention is a mere guess. *)
Lemma is_ambiguous_spec e :
  is_ambiguous e = true ↔
  stem_guess (mention_text e) = false ∧
  ∃ r r', r ∈ resolved e ∧ r' ∈ resolved e ∧ entity_kind r = entity_kind r' ∧
    to_lowercase (canonical r) ≠ to_lowercase (canonical r').
Proof.
  unfold is_ambiguous. destruct (stem_guess _); [naive_solver |]. rewrite existsb_exists. split.
  - intros ([k X] & Hin%list_elem_of_In%elem_of_map_to_list & Hs%Nat.ltb_lt). split; [done |].
    apply size_two in Hs as (x & y & Hx & Hy & Hne). cbn [snd] in *.
    assert (Hel : ∀ n, n ∈ X → ∃ r, r ∈ resolved e ∧ entity_kind_debug (entity_kind r) = k ∧ to_lowercase (canonical r) = n).
    { intros n Hn. apply elem_of_names_by_kind. by rewrite Hin. }
    destruct (Hel x Hx) as (r & ? & Hk & <-), (Hel y Hy) as (r' & ? & Hk' & <-).
    exists r, r'. split_and!; try done. apply entity_kind_debug_inj. congruence.
  - intros (_ & r & r' & Hr & Hr' & Hk & Hne). set (k := entity_kind_debug (entity_kind r)).
    assert (H1 : to_lowercase (canonical r) ∈ (default ∅ (names_by_kind (resolved e) !! k) : gset string))
      by (apply elem_of_names_by_kind; eauto).
    assert (H2 : to_lowercase (canonical r') ∈ (default ∅ (names_by_kind (resolved e) !! k) : gset string))
      by (apply elem_of_names_by_kind; exists r'; subst k; by rewrite Hk).
    destruct (names_by_kind (resolved e) !! k) as [X|] eqn:E; [| set_solver].
    exists (k, X). split; [by apply list_elem_of_In, elem_of_map_to_list |]. apply Nat.ltb_lt, size_two. eauto.
Qed.

Lemma elem_of_covered_terms terms ev t :
  t ∈ covered_terms terms ev ↔
  t ∈ terms ∧ ∃ e, e ∈ ev ∧ provider e ≠ "concept" ∧ str_contains t (title_and_content e) = true.
Proof.
  unfold covered_terms.
  assert (Hin : ∀ (e : EvidenceItem) l (c : gset string),
    t ∈ foldl (λ c t, if str_contains t (title_and_content e) then {[t]} ∪ c else c) c l ↔
    t ∈ c ∨ (t ∈ l ∧ str_contains t (title_and_content e) = true)).
  { intros e l. induction l as [|u l IH]; intros c; cbn [foldl]; [rewrite elem_of_nil; tauto |]. rewrite IH, elem_of_cons.
    destruct (str_contains u _) eqn:E; rewrite ?elem_of_union, ?elem_of_singleton; naive_solver congruence. }
  assert (Hall : ∀ l (c : gset string),
    t ∈ foldl (λ covered e, foldl (λ c t, if str_contains t (title_and_content e) then {[t]} ∪ c else c) covered terms) c l ↔
    t ∈ c ∨ ∃ e, e ∈ l ∧ t ∈ terms ∧ str_contains t (title_and_content e) = true).
  { induction l as [|e l IH]; intros c; cbn [foldl]; [setoid_rewrite elem_of_nil; naive_solver |].
    rewrite IH, Hin. setoid_rewrite elem_of_cons. naive_solver. }
  rewrite Hall. unfold considered. setoid_rewrite list_elem_of_filter. rewrite elem_of_empty. naive_solver.
Qed.

(** What makes evidence adequate: a relation of the code, an entity that was
    resolved and is mentioned, anything where the question has no two
    distinctive words, or two of them in what was found. *)
Definition supports (question : string) (items : list EvidenceItem) (known : list string) : Prop :=
  (∃ e, e ∈ items ∧ kind e = GraphRelation ∧ provider e ∈ ["impact"; "usage"; "companion"]) ∨
  (∃ k, k ∈ known ∧ (4 <= String.length k)%nat ∧ str_contains (to_lowercase k) (evidence_haystack items []) = true) ∨
  ((length (distinctive_terms question) < 2)%nat ∧ ∃ e, e ∈ items ∧ provider e ≠ "concept") ∨
  (∃ t t', t ≠ t' ∧ ∀ u, u ∈ [t; t'] → u ∈ distinctive_terms question ∧
     ∃ e, e ∈ items ∧ provider e ≠ "concept" ∧ str_contains u (title_and_content e) = true).
Lemma adequate_supports question items known :
  has_adequate_support_with question items known = true →
  uncovered_named_terms_with question items known = [] ∧ supports question items known.
Proof.
  unfold has_adequate_support_with. destruct (bool_decide_reflect (uncovered_named_terms_with question items known = [])) as [Hu |]; [| done].
  cbn [negb]. intros H. split; [done |]. unfold supports.
  destruct (existsb structural items) eqn:Hs.
  { left. apply existsb_exists in Hs as (e & He%list_elem_of_In & Hb). apply andb_true_iff in Hb as [Hk Hp]. exists e.
    apply bool_decide_eq_true in Hk, Hp. done. }
  right. destruct (existsb _ (filter _ known)) eqn:Hk.
  { left. apply existsb_exists in Hk as (k & [Hlen Hin]%list_elem_of_In%list_elem_of_filter & Hc). eauto. }
  right. destruct (Nat.ltb_spec (length (distinctive_terms question)) 2).
  { left. split; [done |]. apply negb_true_iff, bool_decide_eq_false in H.
    destruct (considered items) as [|e l] eqn:E; [done |].
    assert (He : e ∈ considered items) by (rewrite E; left). apply list_elem_of_filter in He as [? ?]. eauto. }
  right. apply Nat.leb_le in H. assert (Hs2 : (1 < size (covered_terms (distinctive_terms question) items))%nat) by lia.
  apply size_two in Hs2 as (t & t' & Ht%elem_of_covered_terms & Ht'%elem_of_covered_terms & Hne).
  exists t, t'. split; [done |]. intros u [-> | [-> | []%elem_of_nil]%elem_of_cons]%elem_of_cons; done.
Qed.

Lemma no_uncovered_covers question items known :
  uncovered_named_terms_with question items known = [] →
  ∀ t, premise question t → is_covered (evidence_haystack items known) items (to_lowercase t) = true.
Proof.
  intros Hu t (i & raw & Hi & <- & Hn). apply not_false_iff_true. intros Hc.
  destruct (scan_found (evidence_haystack items known) items (split_whitespace question)) as [HF _].
  pose proof (found_all _ _ _ _ HF i raw Hi Hn Hc) as Hin. unfold uncovered_named_terms_with in Hu. rewrite Hu in Hin.
  by apply not_elem_of_nil in Hin.
Qed.

End spec.

Lemma all_failed_spec reports :
  all_failed reports = true ↔
  (∃ r, r ∈ reports ∧ report_status r ≠ ProviderAbsent) ∧
  ∀ r, r ∈ reports → report_status r ∈ [ProviderAbsent; ProviderFailed; ProviderTimedOut].
Proof.
  unfold all_failed. rewrite andb_true_iff, negb_true_iff, bool_decide_eq_false, forallb_forall. split.
  - intros [Hne Hall]. split.
    + destruct (ran reports) as [|r l] eqn:E; [done |]. assert (Hr : r ∈ ran reports) by (rewrite E; left).
      apply list_elem_of_filter in Hr as [? ?]. eauto.
    + intros r Hr. destruct (decide (report_status r = ProviderAbsent)) as [-> | Hn]; [left |].
      assert (Hin : In r (ran reports)) by (by apply list_elem_of_In, list_elem_of_filter).
      apply Hall in Hin. apply orb_true_iff in Hin as [->%bool_decide_eq_true | ->%bool_decide_eq_true]; rewrite !elem_of_cons; auto.
  - intros [(r & Hr & Hn) Hall]. split.
    + intros E. assert (Hin : r ∈ ran reports) by (by apply list_elem_of_filter). rewrite E in Hin. by apply not_elem_of_nil in Hin.
    + intros x [Hx Hin]%list_elem_of_In%list_elem_of_filter. apply Hall in Hin. unfold arm_failed.
      apply orb_true_iff. rewrite !bool_decide_eq_true. rewrite !elem_of_cons, elem_of_nil in Hin. naive_solver.
Qed.

Lemma ambiguous_entity `{LC : !Lowercase} es :
  existsb is_ambiguous es = true ↔
  ∃ e r r', e ∈ es ∧ stem_guess (mention_text e) = false ∧ r ∈ resolved e ∧ r' ∈ resolved e ∧
    entity_kind r = entity_kind r' ∧ to_lowercase (canonical r) ≠ to_lowercase (canonical r').
Proof.
  rewrite existsb_exists. setoid_rewrite <-list_elem_of_In. setoid_rewrite is_ambiguous_spec. split.
  - intros (e & He & Hg & r & r' & H). exists e, r, r'. by split_and!; destruct H as (? & ? & ? & ?).
  - intros (e & r & r' & He & Hg & H). exists e. split_and!; [done | done |]. by exists r, r'.
Qed.

(** * Theorems *)

Section theorems.
Context `{LC : !Lowercase}.

(** The terms that are reported as missing are the names that the question takes
    for granted and nothing in the evidence covers: each of them up to the case
    of ASCII letters, once, in the order of the question. *)
Theorem uncovered_terms_are_exact question items known :
  let missing t := premise question t ∧ is_covered (evidence_haystack items known) items (to_lowercase t) = false in
  let out := uncovered_named_terms_with question items known in
  (∀ t, t ∈ out → missing t) ∧ (∀ t, missing t → folded t ∈ folded <$> out) ∧
  out `sublist_of` (token_of <$> split_whitespace question) ∧ NoDup (folded <$> out).
Proof.
  intros missing out.
  destruct (scan_found (evidence_haystack items known) items (split_whitespace question)) as [HF _].
  split_and!; [| | apply (found_order _ _ _ _ HF) | apply (found_once _ _ _ _ HF)].
  - intros t Ht. destruct (found_sound _ _ _ _ HF t Ht) as (i & raw & Hi & Ht' & Hn & Hc). split; [| done].
    exists i, raw. done.
  - intros t [(i & raw & Hi & <- & Hn) Hc]. by apply (found_all _ _ _ _ HF i raw).
Qed.

(** C22. An answer is given only where nothing the question takes for granted is
    missing, the evidence supports it and has some authority, no entity is
    ambiguous, the index is not behind, each kind of file that was asked for is
    there, and a complete set, where one is demanded, was walked to the end. *)
Theorem answered_question_is_supported question pl items known reports snap :
  assess_status pl items reports snap (has_adequate_support_with question items known) = Answered →
  (∀ t, premise question t → is_covered (evidence_haystack items known) items (to_lowercase t) = true) ∧
  supports question items known ∧
  (∃ e, e ∈ items ∧ authority_rank (authority e) <= authority_rank AgentMemory) ∧
  (∀ e, e ∈ entities pl → is_ambiguous e = false) ∧
  reindex_required snap = false ∧ incompatible snap = false ∧
  (∀ m, m ∈ modalities pl → ∃ e f, e ∈ items ∧ path e = Some f ∧ modality_matches m f = true) ∧
  (completeness_required (contract pl) = true → direction (contract pl) = Callees ∧
     ∃ r, r ∈ reports ∧ callee_set_complete r = true).
Proof.
  unfold assess_status. destruct (bool_decide _); [by destruct (all_failed reports) |].
  destruct (existsb is_ambiguous _) eqn:Hamb; [done |].
  destruct (has_adequate_support_with _ _ _) eqn:Hs; [| done]. cbn [negb orb].
  destruct (existsb (λ e, authority_rank _ <=? _) items) eqn:Ha; [| done]. cbn [negb].
  destruct (reindex_required snap), (incompatible snap); try done. cbn [orb].
  destruct (existsb (λ m, negb _) _) eqn:Hm; [done |]. intros H.
  apply adequate_supports in Hs as [Hu Hsup].
  split_and!; [by apply no_uncovered_covers | done | | | done | done | |].
  - apply existsb_exists in Ha as (e & He%list_elem_of_In & Hr%N.leb_le). eauto.
  - intros e He. apply not_true_iff_false. intros Hb. enough (existsb is_ambiguous (entities pl) = true) by congruence.
    apply existsb_exists. exists e. split; [by apply list_elem_of_In | done].
  - intros m Hin. assert (Hcov : of_any_modality m items = true).
    { apply not_false_iff_true. intros Hb. enough (existsb (λ m, negb (of_any_modality m items)) (modalities pl) = true) by congruence.
      apply existsb_exists. exists m. split; [by apply list_elem_of_In | by rewrite Hb]. }
    apply existsb_exists in Hcov as (e & He%list_elem_of_In & Hp). destruct (path e) as [f|] eqn:Hf; [| done]. eauto.
  - intros Hc. rewrite Hc in H. destruct (direction _); [done | done |]. split; [done |].
    destruct (existsb callee_set_complete reports) eqn:Hr; [| done].
    apply existsb_exists in Hr as (r & Hin%list_elem_of_In & Hr). eauto.
Qed.

(** How an answer is refused: an empty answer is a failure only where some arm
    ran and all that ran failed, and otherwise unsupported; ambiguity is two
    readings of one kind under different names. *)
Theorem refusals_are_told_apart pl items reports snap adequate :
  let st := assess_status pl items reports snap adequate in
  (st = Failed ↔ items = [] ∧ (∃ r, r ∈ reports ∧ report_status r ≠ ProviderAbsent) ∧
     ∀ r, r ∈ reports → report_status r ∈ [ProviderAbsent; ProviderFailed; ProviderTimedOut]) ∧
  (st = Ambiguous ↔ items ≠ [] ∧ ∃ e r r', e ∈ entities pl ∧ stem_guess (mention_text e) = false ∧
     r ∈ resolved e ∧ r' ∈ resolved e ∧ entity_kind r = entity_kind r' ∧
     to_lowercase (canonical r) ≠ to_lowercase (canonical r')) ∧
  (items = [] → st = Failed ∨ st = Unsupported).
Proof.
  intros st. destruct (decide (items = [])) as [-> | Hne].
  { subst st. unfold assess_status. rewrite bool_decide_eq_true_2 by done. pose proof (all_failed_spec reports) as [H1 H2].
    destruct (all_failed reports); split_and!; try (split; intros H); try done; try (by left); try (by right).
    - split; [done | by apply H1].
    - destruct H as [H _]. done.
    - destruct H as [_ H]. by discriminate (H2 H).
    - by destruct H. }
  destruct (existsb is_ambiguous (entities pl)) eqn:Hamb.
  { assert (Hst : st = Ambiguous) by (unfold st, assess_status; rewrite bool_decide_eq_false_2, Hamb by done; done).
    rewrite Hst. apply ambiguous_entity in Hamb. split_and!; try (split; intros H); try done. by destruct H. }
  assert (Hst : st ≠ Failed ∧ st ≠ Ambiguous).
  { unfold st, assess_status, assess_coverage. rewrite bool_decide_eq_false_2, Hamb by done.
    split; repeat case_match; done. }
  pose proof (ambiguous_entity (entities pl)) as [_ Ha]. rewrite Hamb in Ha. destruct Hst as [Hf Hb].
  split_and!; try (split; intros H); try done; [by destruct H |]. destruct H as [_ H]. by discriminate (Ha H).
Qed.

(** A question that repeats its one distinctive word is not supported by
    evidence for it: the occurrences are counted, and then two different words
    are looked for. *)
Theorem repeated_word_is_not_supported question items t n :
  distinctive_terms question = replicate n t → (2 <= n)%nat → existsb structural items = false →
  has_adequate_support question items = false.
Proof.
  intros Ht Hn Hs. unfold has_adequate_support, has_adequate_support_with. rewrite Hs, Ht, length_replicate.
  destruct (negb _); [done |]. cbn [filter existsb list_filter]. destruct (Nat.ltb_spec n 2); [lia |].
  apply Nat.leb_gt. enough (¬ (1 < size (covered_terms (replicate n t) items)))%nat by lia.
  intros (x & y & Hx%elem_of_covered_terms & Hy%elem_of_covered_terms & Hne)%size_two.
  destruct Hx as [(-> & _)%elem_of_replicate _], Hy as [(-> & _)%elem_of_replicate _]. done.
Qed.

End theorems.
