(* ===== verification/Planner.v ===== *)
(** [engram_server::services::ask_engine::planner]: a question in words becomes a
    plan. Key phrases give weighted intents, surface forms give mentions of
    entities and qualifiers, and the shape of the question gives the contract its
    answer has to meet. Slices of strings may panic in principle; that no
    question makes them do so is proved. *)
From S2P Require Import Prelude Text Unicode F64 Evidence Ranking RankingSpec Status DiscussionsSpec.

#[local] Open Scope nat_scope.

(** * Definitions *)

(** ** Intents *)

Definition f32_max (x y : f32) : f32 := f64_max x y.
(** The closure [add]: the first entry of an intent keeps the larger weight. *)
Fixpoint add_intent (it : Intent) (w : f32) (acc : list (Intent * f32)) : list (Intent * f32) :=
  match acc with
  | [] => [(it, w)]
  | e :: rest => if decide (e.1 = it) then (e.1, f32_max e.2 w) :: rest else e :: add_intent it w rest
  end.
Definition add_if (b : bool) (it : Intent) (w : f32) (acc : list (Intent * f32)) : list (Intent * f32) :=
  if b then add_intent it w acc else acc.
Definition add_words (lower : string) (it : Intent) (w : f32) (l : list string) (acc : list (Intent * f32))
  : list (Intent * f32) :=
  foldl (λ acc kw, add_if (str_contains kw lower) it w acc) acc l.

Definition feature_starts : list (string * f32) :=
  [("as a ", f32_lit 9 10); ("as an ", f32_lit 9 10); ("add ", f32_lit 7 10); ("implement ", f32_lit 8 10);
   ("create a ", f32_lit 7 10); ("build ", f32_lit 6 10); ("i want to ", f32_lit 6 10)].
Definition impact_words : list string :=
  ["what breaks"; "blast radius"; "impact of"; "safe to"; "affected by"; "what depends on"; "consequences of";
   "ripple"].
Definition usage_words : list string :=
  ["where is"; "where are"; "who calls"; "who uses"; "used where"; "references to"; "callers of"; "call sites";
   "consumed by"; "read from"; "written to"; "what calls"; "which calls"; "what uses"; "which uses"; "uses the";
   "calls to"; "callers"; "depends on"; "depend on"; "dependents"; "depending on"; "consumers of"; "clients of"].
Definition history_words : list string :=
  ["when did"; "when was"; "history of"; "last changed"; "recently changed"; "who changed"; "which commit";
   "which pr"; "merged pr"; "pull request"; "introduced"; "what commit"; "which change"].
Definition rationale_words : list string :=
  ["why is"; "why does"; "why was"; "why did"; "rationale"; "reason for"; "reason behind"; "the point of";
   "designed this way"; "intended to"].
Definition bug_words : list string :=
  ["fail"; "fails"; "failing"; "error"; "exception"; "crash"; "broken"; "doesn't work"; "does not work";
   "why can't"; "why cannot"; "not working"; "returns null"; "throws"; "stack trace"; "root cause"; "regression"].
Definition requirement_words : list string :=
  ["requirement"; "supposed to"; "should it"; "is it correct"; "expected behavior"; "acceptance criteria";
   "spec says"; "which requirement"; "meant to"].
Definition compare_words : list string :=
  ["compare"; "difference between"; "vs "; "versus"; "old and new"; "before and after"; "instead of"].
Definition test_words : list string :=
  ["how should this be tested"; "how do i test"; "test coverage"; "unit test"; "how to test"; "what tests";
   "which tests"].
Definition unknown_words : list string :=
  ["what remains unknown"; "what don't we know"; "what do we not know"; "coverage gap"; "what's missing";
   "unresolved"].
Definition explain_words : list string :=
  ["how does"; "how do"; "how is"; "what is"; "what does"; "explain"; "walk me through"; "tell me about";
   "what's the"; "overview of"].

Definition any_of (l : list string) (s : string) : bool := existsb (λ w, str_contains w s) l.
Definition starts_with_any (l : list string) (s : string) : bool := existsb (λ w, starts_with w s) l.
Definition asks_location (lower : string) : bool :=
  any_of ["where is"; "where are"; "where's"] lower && any_of ["defined"; "declared"; "definition"] lower.

Definition feature_intents (lower : string) (acc : list (Intent * f32)) : list (Intent * f32) :=
  add_if (any_of ["i want"; "we need to add"] lower) Feature (f32_lit 6 10)
    (foldl (λ acc pw, add_if (starts_with pw.1 lower) Feature pw.2 acc) acc feature_starts).
Definition impact_intents (lower : string) (acc : list (Intent * f32)) : list (Intent * f32) :=
  add_if (any_of ["change"; "remove"; "rename"; "delete"; "edit"; "modify"] lower
          && any_of ["break"; "risk"; "what happens"; "affect"] lower) Impact (f32_lit 7 10)
    (add_words lower Impact (f32_lit 85 100) impact_words acc).
Definition usage_intents (lower : string) (acc : list (Intent * f32)) : list (Intent * f32) :=
  add_if (starts_with_any ["what "; "which "; "who "] lower && any_of [" calls "; " call "] lower) Usage (f32_lit 8 10)
    (foldl (λ acc kw, add_if (str_contains kw lower
                              && negb (asks_location lower && bool_decide (kw ∈ ["where is"; "where are"])))
                        Usage (f32_lit 8 10) acc) acc usage_words).
Definition all_intents (lower : string) : list (Intent * f32) :=
  let acc := usage_intents lower (impact_intents lower (feature_intents lower [])) in
  let acc := add_words lower Rationale (f32_lit 8 10) rationale_words
               (add_words lower History (f32_lit 8 10) history_words acc) in
  let acc := add_words lower Requirements (f32_lit 7 10) requirement_words
               (add_words lower BugDiagnosis (f32_lit 75 100) bug_words acc) in
  let acc := add_words lower TestIntent (f32_lit 7 10) test_words
               (add_words lower Compare (f32_lit 7 10) compare_words acc) in
  let acc := add_words lower Explain (f32_lit 6 10) explain_words
               (add_words lower Unknowns (f32_lit 7 10) unknown_words acc) in
  match acc with [] => add_intent Explain (f32_lit 5 10) [] | _ => acc end.
(** [sort_by] the weights, the strongest first. *)
Definition stronger (a b : Intent * f32) : Prop := f32_order b.2 a.2 ≠ Gt.
#[export] Instance stronger_dec : RelDecision stronger.
Proof. intros a b. unfold stronger. apply _. Defined.
Definition f32_ge (x y : f32) : bool := SFleb y x.
Definition keep_strong (l : list (Intent * f32)) : list (Intent * f32) :=
  let top := match l with (_, w) :: _ => w | [] => f32_zero end in
  filter (λ iw, f32_ge iw.2 (f32_max (f32_mul top (f32_lit 6 10)) (f32_lit 5 10)) = true) l.
Definition intents_of (lower : string) : list (Intent * f32) := keep_strong (stable_sort stronger (all_intents lower)).

Definition primary_answer_type (top : option Intent) : AnswerType :=
  match top with
  | Some Impact => ImpactSet
  | Some Usage => UsageSites
  | Some History => Timeline
  | Some Rationale => RationaleAnswer
  | Some Feature => PlanAnswer
  | Some BugDiagnosis => RootCause
  | Some Requirements => RequirementRef
  | Some Compare => Comparison
  | Some TestIntent => TestGuidance
  | Some Unknowns => CoverageGaps
  | _ => Explanation
  end.
Definition needs (i : Intent) : list EvidenceKind :=
  match i with
  | Explain => [DocSection; SourceCode; GraphRelation; BusinessRule]
  | Impact => [GraphRelation; SourceCode; TestRef; Setting; BusinessRule; HistoryCommit]
  | Usage => [GraphRelation; SourceCode; ConceptGroup]
  | History => [HistoryCommit; SourceCode]
  | Rationale => [MemoryNote; HistoryCommit; SourceCode; DocSection]
  | Feature => [MemoryNote; ConceptGroup; SourceCode; TestRef]
  | BugDiagnosis => [SourceCode; GraphRelation; BusinessRule; HistoryCommit]
  | Requirements => [MemoryNote; DocSection]
  | Compare => [SourceCode; HistoryCommit; DocSection]
  | TestIntent => [TestRef; SourceCode]
  | Unknowns => [MemoryNote; DocSection; SourceCode]
  end.
Definition push_absent `{EqDecision A} (l : list A) (x : A) : list A := if bool_decide (x ∈ l) then l else l ++ [x].
Definition needed_evidence_for (l : list (Intent * f32)) : list EvidenceKind :=
  foldl (λ acc iw, foldl push_absent acc (needs iw.1)) [] l.

(** ** Words *)

Definition generic_words : list string :=
  ["update"; "delete"; "insert"; "select"; "save"; "load"; "list"; "search"; "create"; "remove"; "edit"; "check";
   "send"; "read"; "write"; "sync"; "import"; "export"; "upload"; "download"; "login"; "logout"; "refresh";
   "reset"; "process"; "handle"; "validate"; "render"; "build"; "start"; "stop"; "open"; "close"; "show"; "hide";
   "find"; "fetch"; "submit"; "cancel"; "apply"; "print"; "copy"; "move"; "change"; "call"; "calls"; "post";
   "bulk"; "base"; "type"; "main"; "item"; "items"; "user"; "users"; "data"; "file"; "files"; "page"; "pages";
   "view"; "form"; "table"; "report"; "order"; "status"; "name"; "value"; "text"; "date"; "time"; "count";
   "total"; "group"; "project"; "marker"; "image"; "images"; "types"; "server"; "client"; "service"; "helper";
   "manager"; "admin"; "public"; "private"; "shared"; "static"; "return"; "async"].
Definition tech_nouns : list string :=
  ["api"; "apis"; "typescript"; "javascript"; "vb"; "vbnet"; "sql"; "html"; "css"; "json"; "xml"; "ui"; "ux";
   "url"; "http"; "https"; "rest"; "dto"; "crud"; "pr"; "ci"; "asp"; "aspx"; "net"; "gui"; "cli"; "js"; "ts";
   "iis"; "db"; "ajax"; "jquery"; "linq"; "orm"; "mvc"; "webforms"; "dotnet"; "csharp"].
Definition stopwords : list string :=
  ["the"; "and"; "for"; "with"; "from"; "into"; "this"; "that"; "these"; "those"; "what"; "when"; "where";
   "which"; "why"; "who"; "whom"; "whose"; "how"; "does"; "did"; "are"; "was"; "were"; "has"; "have"; "had";
   "will"; "would"; "should"; "could"; "can"; "shall"; "may"; "might"; "not"; "but"; "our"; "your"; "their";
   "its"; "his"; "her"; "any"; "all"; "some"; "each"].
Definition is_generic_word (w : string) : bool := bool_decide (w ∈ generic_words).
Definition is_tech_noun (w : string) : bool := bool_decide (w ∈ tech_nouns).
Definition is_stopword (w : string) : bool := bool_decide (w ∈ stopwords).
Definition is_char_of (l c : string) : bool := match c with String a "" => one_of l a | _ => false end.
Definition is_white (c : string) : bool := bool_decide (c ∈ whitespace).
Definition lower_or_digit (c : ascii) : bool := is_ascii_lowercase c || is_ascii_digit c.
(** [s.get(n..)], [s.get(..n)], [&s[n..]]. *)
Definition get_from (n : nat) (s : string) : option string :=
  if Nat.leb n (String.length s) && is_char_boundary n s then Some (sdrop n s) else None.
Definition get_to (n : nat) (s : string) : option string :=
  if Nat.leb n (String.length s) && is_char_boundary n s then Some (stake n s) else None.
Definition slice_from (n : nat) (s : string) : result string := str_slice "slice" n (String.length s) s.
Definition slice_to (n : nat) (s : string) : result string := str_slice "slice" 0 n s.

(** ** Mentions *)

Definition push_mention (text : string) (k : EntityKind) (out : list EntityMention) : list EntityMention :=
  if Nat.ltb (String.length text) 2 || existsb (λ m, same_ignoring_case (mention_text m) text) out then out
  else out ++ [{| mention_text := text; guessed_kind := k; resolved := [] |}].

Definition byte_at (i : nat) (q : string) (f : ascii → bool) : bool :=
  match String.get i q with Some c => f c | None => false end.
Definition mid_word (q : string) (i : nat) : bool :=
  byte_at i q (Ascii.eqb "'") && Nat.ltb 0 i && byte_at (i - 1) q is_ascii_alphanumeric
  && byte_at (i + 1) q is_ascii_alphanumeric.
(** The loop over the bytes: each round moves on, so their number is enough. *)
Fixpoint quoted (fuel : nat) (q : string) (i : nat) (out : list EntityMention) : result (list EntityMention) :=
  match fuel, String.get i q with
  | S fuel, Some c =>
      if one_of (QUOTE +:+ "'`") c && negb (mid_word q i) then
        rest ← slice_from (i + 1) q;
        match str_find (str1 c) rest with
        | Some rel =>
            inner ← str_slice "extract_entities" (i + 1) (i + 1 + rel) q;
            quoted fuel q (i + 1 + rel + 1)
              (if String.eqb (trim inner) "" then out else push_mention (trim inner) UnknownEntity out)
        | None => quoted fuel q (i + 1) out
        end
      else quoted fuel q (i + 1) out
  | _, _ => Ok out
  end.

Definition tokens_of (q : string) : list string :=
  trim_matches (one_of (QUOTE +:+ "'`.,")) <$> split_at (λ c, is_white c || is_char_of ",()?!;:" c) q.
Definition code_suffixes : list string :=
  [".cs"; ".vb"; ".ts"; ".js"; ".aspx"; ".ascx"; ".sql"; ".resx"; ".vbhtml"; ".razor"; ".json"; ".xml"; ".config"].
Section planner.
Context `{LC : !Lowercase} `{AN : !Alphanumeric}.

Definition ordinary (t : string) : bool :=
  is_stopword (to_lowercase t) || is_tech_noun (to_lowercase t) || is_generic_word (to_lowercase t).
Definition hyphenated (t : string) : bool :=
  Nat.leb 8 (String.length t) && contains_char "-" t && negb (starts_with "-" t) && negb (ends_with "-" t)
  && string_forallb (λ c, lower_or_digit c || one_of "-_" c) t.
Definition long_stem (t : string) : bool :=
  Nat.leb 12 (String.length t) && string_forallb lower_or_digit t && negb (ordinary t).
Definition dotted (t : string) : bool := contains_char "." t && negb (starts_with "." t) && negb (ends_with "." t).
(** What one token mentions. *)
Definition classify (t : string) : option (string * EntityKind) :=
  if Nat.ltb (String.length t) 2 then None
  else if hyphenated t || long_stem t then Some (t, FileEntity)
  else if dotted t then
    Some (t, if existsb (λ e, ends_with e (to_lowercase t)) code_suffixes then FileEntity else SymbolEntity)
  else if contains_char "/" t || contains_char "\" t then Some (replace_char "\" "/" t, FileEntity)
  else if (inner_upper t || contains_char "_" t) && negb (is_tech_noun (to_lowercase t)) then
    Some (t, if starts_with "ss_" t || starts_with "tbl" t
                || (contains_char "_" t && string_forallb (λ c, lower_or_digit c || Ascii.eqb c "_") t)
             then UnknownEntity else SymbolEntity)
  else if upper_start t && string_forallb is_ascii_alphanumeric t && Nat.leb 3 (String.length t)
          && negb (is_stopword (to_lowercase t)) && negb (is_tech_noun (to_lowercase t))
  then Some (t, SymbolEntity)
  else None.
Definition scan_tokens (q : string) (out : list EntityMention) : list EntityMention :=
  foldl (λ out t, match classify t with Some (text, k) => push_mention text k out | None => out end) out (tokens_of q).

Definition TYPE_WORDS : list string :=
  ["method"; "function"; "endpoint"; "handler"; "procedure"; "routine"; "sub"; "webmethod"].
Definition is_type_word (w : option string) : bool := match w with Some w => bool_decide (w ∈ TYPE_WORDS) | None => false end.
(** The token at [i], which the words around it call a function. *)
Definition typed_symbol (toks : list string) (it : nat * string) : option string :=
  let '(i, t) := it in
  let next := to_lowercase <$> toks !! (i + 1) in
  let next2 := to_lowercase <$> toks !! (i + 2) in
  let prev := match i with O => None | S j => to_lowercase <$> toks !! j end in
  if Nat.leb 4 (String.length t) && string_forallb lower_or_digit t && negb (ordinary t)
     && (is_type_word next
         || (bool_decide (next = Some "web") && (bool_decide (next2 = Some "method") || bool_decide (next2 = Some "service")))
         || is_type_word prev)
  then Some t else None.
Definition typed_tokens (q : string) (out : list EntityMention) : list EntityMention :=
  let toks := filter (λ t, t ≠ "") (tokens_of q) in
  foldl (λ out it, match typed_symbol toks it with Some t => push_mention t SymbolEntity out | None => out end) out
    (indexed toks).
Definition extract_entities (q : string) : result (list EntityMention) :=
  out ← quoted (String.length q) q 0 [];
  Ok (typed_tokens q (scan_tokens q out)).

(** ** Modalities *)

Definition prose_tokens (s : string) : list string := split_at (λ c, negb (is_alphanumeric c) && negb (String.eqb c "_")) s.
Definition modality_words : list (Modality * list string) :=
  [(Report, ["report"; "reports"; "rdl"; "rdlc"; "ssrs"]);
   (Sql, ["table"; "tables"; "schema"; "column"; "columns"; "migration"; "migrations"; "sql"; "dbml"; "procedure"; "procedures"]);
   (Resource, ["resx"; "resource"; "resources"; "translation"; "translations"; "localized"; "localization"]);
   (Markup, ["aspx"; "ascx"; "markup"; "page"; "pages"]);
   (Script, ["typescript"; "javascript"; "ts"; "js"; "tsx"])].
Definition detect_modalities (lower : string) : list Modality :=
  let toks := filter (λ t, t ≠ "") (prose_tokens lower) in
  fst <$> filter (λ mw : Modality * list string, existsb (λ t, bool_decide (t ∈ mw.2)) toks = true) modality_words.

(** ** Qualifiers *)

Fixpoint windows2 {A} (l : list A) : list (A * A) :=
  match l with a :: (b :: _) as rest => (a, b) :: windows2 rest | _ => [] end.
Definition path_char (c : ascii) : bool := is_ascii_alphanumeric c || one_of "/_-." c.
Definition path_scope (w : string * string) : option string :=
  let t := trim_matches (λ c, negb (path_char c)) w.2 in
  if bool_decide (w.1 ∈ ["under"; "in"; "within"; "inside"]) && Nat.leb 4 (String.length t) && contains_char "/" t
     && negb (starts_with "/" t) && negb (ends_with "/" t) && negb (str_contains "//" t) && string_forallb path_char t
  then Some t else None.
Definition role_words : list string :=
  ["administrator"; "admin"; "tenant admin"; "tenant administrator"; "foreman"; "superuser"; "guest"; "anonymous";
   "operator"; "manager"; "user"].
Definition scope_words : list string :=
  ["import"; "export"; "upload"; "download"; "login"; "logout"; "print"; "report"; "sync"; "offline"; "mobile"; "api"].
(** The text up to the first byte of a class of ASCII characters. *)
Fixpoint until (f : ascii → bool) (s : string) : string :=
  match s with String a s' => if f a then "" else String a (until f s') | "" => "" end.
Definition nonempty_pair (a b : string) : option (string * string) :=
  if String.eqb a "" || String.eqb b "" then None else Some (a, b).
Definition from_to (q lower : string) : option (string * string) :=
  pos ← str_find " from " lower;
  rest ← get_from (pos + 6) q;
  tp ← str_find " to " (to_lowercase rest);
  from_s ← get_to tp rest;
  to_s ← get_from (tp + 4) rest;
  nonempty_pair (trim from_s) (trim (until (one_of " ?.") to_s)).
Definition ARROWS : list string := ["->"; "→"; "-->"].
(** [min_by_key]: the first of the least positions. *)
Definition first_arrow (q : string) : option (nat * nat) :=
  foldl (λ best a, match str_find a q, best with
                   | None, _ => best
                   | Some i, Some b => if Nat.ltb i b.1 then Some (i, String.length a) else best
                   | Some i, None => Some (i, String.length a)
                   end) None ARROWS.
Definition arrow_change (q : string) : result (option (string * string)) :=
  match first_arrow q with
  | None => Ok None
  | Some (ar, alen) =>
      before ← slice_to ar q;
      after ← slice_from (ar + alen) q;
      Ok (nonempty_pair (default "" (last (split_whitespace before)))
                        (trim_back (one_of "?") (default "" (head (split_whitespace after)))))
  end.
Definition extract_qualifiers (q lower : string) : result Qualifiers :=
  arrow ← arrow_change q;
  Ok {| path_prefixes := omap path_scope (windows2 (split_whitespace lower));
        roles := filter (λ r, str_contains r lower = true) role_words;
        change := match from_to q lower with Some c => Some c | None => arrow end;
        scopes := filter (λ w, str_contains w lower = true) scope_words;
        symptoms := []; versions := [] |}.

(** ** The contract *)

Definition interrogative (lower : string) : bool := starts_with_any ["which "; "what "; "who "] lower.
Definition asks_callees (lower : string) : bool :=
  interrogative lower && any_of [" does "; " do "] lower && any_of [" call?"; " call "; " calls?"] lower.
Definition asks_callers (lower : string) : bool :=
  negb (asks_callees lower) && interrogative lower && any_of [" calls "; " call "] lower.
Definition callee_entity (lower : string) : ContractEntityType :=
  if any_of [" functions "; " function "] lower then FunctionContract
  else if str_contains " files " lower then FileContract
  else if any_of [" routes "; " route "] lower then RouteContract
  else AnyEntity.
Definition caller_entity (lower : string) : ContractEntityType :=
  if str_contains " files " lower then FileContract
  else if str_contains " functions " lower then FunctionContract
  else AnyEntity.
Definition shaped (d : ContractDirection) (e : ContractEntityType) (c : Cardinality) (fs : list Facet) (whole : bool)
  : AnswerContract :=
  {| direction := d; contract_entity := e; cardinality := c; required_facets := fs; allowed_evidence := [];
     completeness_required := whole; behavior_requirements := []; behavior_scope_context := None |}.
Definition contract_shape (lower : string) : AnswerContract :=
  if asks_callees lower then shaped Callees (callee_entity lower) ExhaustiveSet [] true
  else if asks_callers lower then shaped Callers (caller_entity lower) ExhaustiveSet [CallerFacet; DefinitionFacet] true
  else if asks_location lower then shaped NoDirection AnyEntity One [DefinitionFacet] false
  else if interrogative lower && str_contains " files " lower then shaped NoDirection FileContract ExhaustiveSet [] true
  else if interrogative lower && any_of [" table "; " table?"] lower then shaped NoDirection TableContract One [] false
  else default_contract.

(** Quoted stretches become blanks. *)
Definition blank_quoted (st : option string * string) (c : string) : option string * string :=
  let '(quote, out) := st in
  if is_char_of (QUOTE +:+ "`") c then
    (if bool_decide (quote = Some c) then None else match quote with None => Some c | _ => quote end, out +:+ " ")
  else (quote, out +:+ match quote with Some _ => " " | None => c end).
Definition prose_of (lower : string) : string := (foldl blank_quoted (None, "") (chars lower)).2.
Definition operation_words : list (BehaviorOperation * list string) :=
  [(CreateOp, ["create"; "creates"; "created"; "creating"; "creation"; "add"; "adds"; "added"; "adding"; "insert"; "inserted"]);
   (RenameOp, ["rename"; "renames"; "renamed"; "renaming"; "retitle"; "retitled"; "retitling"]);
   (UpdateOp, ["update"; "updates"; "updated"; "updating"; "modify"; "modified"; "edit"; "edited"; "write"; "written"]);
   (RemoveOp, ["remove"; "removes"; "removed"; "removing"; "delete"; "deleted"; "deleting"]);
   (ReadOp, ["read"; "reads"; "reading"; "retrieve"; "retrieved"; "fetch"; "fetched"; "load"; "loaded"]);
   (ValidateOp, ["validate"; "validated"; "validation"; "enforce"; "enforced"; "enforcement"; "prevent"; "prevents"])].
Definition operation_of (token : string) : option BehaviorOperation :=
  fst <$> head (filter (λ ow : BehaviorOperation * list string, token ∈ ow.2) operation_words).
Definition coordinated_behavior_operations (lower : string) : list BehaviorOperation :=
  if negb (starts_with_any ["where "; "how "] lower) then []
  else
    let tokens := prose_tokens (prose_of lower) in
    if negb (existsb (λ t, bool_decide (t ∈ ["and"; "or"])) tokens) then []
    else
      let operations := foldl push_absent [] (omap operation_of tokens) in
      if Nat.ltb (length operations) 2 then [] else operations.
Definition scope_cues : list string := [" across "; " within "; " between "; " in "; " per "; " for each "].
Definition min_nat (l : list nat) : option nat :=
  foldl (λ best n, match best with Some b => Some (Nat.min b n) | None => Some n end) None l.
Definition behavior_scope (lower : string) : result (option string) :=
  let first_sentence := until (one_of "?.!") lower in
  match min_nat (omap (λ cue, str_find cue first_sentence) scope_cues) with
  | None => Ok None
  | Some at_ =>
      text ← slice_from at_ first_sentence;
      Ok (Some (concat_text (take 240 (chars (trim text)))))
  end.
Definition derive_contract (lower : string) : result AnswerContract :=
  let c := contract_shape lower in
  if bool_decide (direction c = NoDirection) && bool_decide (required_facets c = []) then
    let ops := coordinated_behavior_operations lower in
    scope ← (match ops with [] => Ok None | _ => behavior_scope lower end);
    Ok {| direction := direction c; contract_entity := contract_entity c; cardinality := cardinality c;
          required_facets := required_facets c; allowed_evidence := allowed_evidence c;
          completeness_required := completeness_required c; behavior_requirements := ops;
          behavior_scope_context := scope |}
  else Ok c.

Definition plan_query (question : string) : result QueryPlan :=
  let q := trim question in
  let lower := to_lowercase q in
  let its := intents_of lower in
  es ← extract_entities q;
  ql ← extract_qualifiers q lower;
  c ← derive_contract lower;
  Ok {| intents := its; entities := es; qualifiers := ql; needed_evidence := needed_evidence_for its;
        answer_type := primary_answer_type (fst <$> head its); modalities := detect_modalities lower; contract := c |}.
End planner.

(** * Lemmas *)

(** ** Boundaries of characters *)

Definition starts_char (s : string) : bool := match s with "" => true | String c _ => negb (is_continuation c) end.

Lemma in_range_continuation lo hi c : in_range lo hi c = true → (hi < 128)%N ∨ (191 < lo)%N → is_continuation c = false.
Proof.
  unfold in_range, is_continuation. rewrite !andb_true_iff, !N.leb_le. intros [H1 H2] H3.
  apply andb_false_iff. rewrite !N.leb_gt. lia.
Qed.
Lemma valid_starts s : utf8_valid s = true → starts_char s = true.
Proof.
  unfold utf8_valid. apply (utf8_ind (λ s, starts_char s = true)); [done |..]; intros; cbn;
    apply negb_true_iff; (eapply in_range_continuation; [eassumption | lia]).
Qed.
(** A text is cut at a boundary into two texts. *)
Definition cuts (s : string) : Prop :=
  utf8_valid s = true ∧ ∀ n, n <= String.length s → is_char_boundary n s = true →
    utf8_valid (stake n s) = true ∧ utf8_valid (sdrop n s) = true.
Lemma boundary_S n a t : is_char_boundary (S n) (String a t) = true → is_char_boundary n t = true.
Proof. destruct n; [done |]. by unfold is_char_boundary. Qed.
Lemma boundary_inside a b t : is_continuation b = true → is_char_boundary 1 (String a (String b t)) = false.
Proof. intros H. unfold is_char_boundary. cbn. by rewrite H. Qed.
Lemma second_three_continuation a b : second_of_three a b = true → is_continuation b = true.
Proof. unfold second_of_three, in_range, is_continuation. repeat case_match; rewrite !andb_true_iff, !N.leb_le; lia. Qed.
Lemma second_four_continuation a b : second_of_four a b = true → is_continuation b = true.
Proof. unfold second_of_four, in_range, is_continuation. repeat case_match; rewrite !andb_true_iff, !N.leb_le; lia. Qed.

Lemma valid_cuts s : utf8_valid s = true → cuts s.
Proof.
  unfold utf8_valid at 1. apply (utf8_ind cuts).
  - split; [done |]. intros [|n] H; [done | cbn in H; lia].
  - intros a t E [Ht IH]. split; [by apply utf8_valid_one |]. intros [|n] Hn Hb; [by split; [| apply utf8_valid_one] |].
    cbn in Hn. destruct (IH n) as [H1 H2]; [lia | by eapply boundary_S |]. split; [by apply utf8_valid_one | done].
  - intros a b t E1 E2 Eb [Ht IH]. assert (Hs : utf8_valid (String a (String b t)) = true) by by apply utf8_valid_two.
    split; [done |]. intros [|[|n]] Hn Hb; [done | by rewrite boundary_inside in Hb |]. cbn in Hn.
    destruct (IH n) as [H1 H2]; [lia | by do 2 eapply boundary_S |]. split; [by apply utf8_valid_two | done].
  - intros a b c t E1 E2 E3 Eb Ec [Ht IH].
    assert (Hs : utf8_valid (String a (String b (String c t))) = true) by by apply utf8_valid_three.
    apply second_three_continuation in Eb as Hcb.
    split; [done |]. intros [|[|[|n]]] Hn Hb;
      [done | by rewrite boundary_inside in Hb | apply boundary_S in Hb; by rewrite boundary_inside in Hb |]. cbn in Hn.
    destruct (IH n) as [H1 H2]; [lia | by do 3 eapply boundary_S |]. split; [by apply utf8_valid_three | done].
  - intros a b c d t E1 E2 E3 E4 Eb Ec Ed [Ht IH].
    assert (Hs : utf8_valid (String a (String b (String c (String d t)))) = true) by by apply utf8_valid_four.
    apply second_four_continuation in Eb as Hcb.
    split; [done |]. intros [|[|[|[|n]]]] Hn Hb;
      [done | by rewrite boundary_inside in Hb | apply boundary_S in Hb; by rewrite boundary_inside in Hb
      | do 2 apply boundary_S in Hb; by rewrite boundary_inside in Hb |]. cbn in Hn.
    destruct (IH n) as [H1 H2]; [lia | by do 4 eapply boundary_S |]. split; [by apply utf8_valid_four | done].
Qed.

(** Positions where a text starts, after a prefix that is one. *)
Lemma boundary_at n s : n <= String.length s → starts_char (sdrop n s) = true → is_char_boundary n s = true.
Proof. intros _ H. unfold is_char_boundary, starts_char in *. destruct (sdrop n s); [apply orb_true_r | by rewrite H, orb_true_r]. Qed.
Lemma valid_rest w t : utf8_valid (w +:+ t) = true → utf8_valid w = true → utf8_valid t = true.
Proof.
  intros Hs Hw. revert Hs. unfold utf8_valid in Hw. revert Hw.
  assert (Hmore : ∀ f u, utf8_valid_fuel f u = true → utf8_valid u = true).
  { intros f u H. eapply utf8_valid_fuel_more; [exact H |]. lia. }
  apply (utf8_ind (λ w, utf8_valid (w +:+ t) = true → utf8_valid t = true)); [done |..].
  - intros a u E IH H. apply IH. unfold utf8_valid in H. remember (S (String.length _)) as f eqn:Hf. clear Hf.
    destruct f as [|f]; [done |]. rewrite ?app_cons in H. cbn [utf8_valid_fuel] in H. rewrite E in H. by eapply Hmore.
  - intros a b u E1 E2 Eb IH H. apply IH. unfold utf8_valid in H. remember (S (String.length _)) as f eqn:Hf. clear Hf.
    destruct f as [|f]; [done |]. rewrite ?app_cons in H. cbn [utf8_valid_fuel] in H. rewrite E1, E2, Eb in H. by eapply Hmore.
  - intros a b c u E1 E2 E3 Eb Ec IH H. apply IH. unfold utf8_valid in H. remember (S (String.length _)) as f eqn:Hf. clear Hf.
    destruct f as [|f]; [done |]. rewrite ?app_cons in H. cbn [utf8_valid_fuel] in H. unfold second_of_three in Eb.
    rewrite E1, E2, E3, Eb, Ec in H. cbn [andb] in H. by eapply Hmore.
  - intros a b c d u E1 E2 E3 E4 Eb Ec Ed IH H. apply IH. unfold utf8_valid in H. remember (S (String.length _)) as f eqn:Hf. clear Hf.
    destruct f as [|f]; [done |]. rewrite ?app_cons in H. cbn [utf8_valid_fuel] in H. unfold second_of_four in Eb.
    rewrite E1, E2, E3, E4, Eb, Ec, Ed in H. cbn [andb] in H. by eapply Hmore.
Qed.

(** ** Slices that cannot panic *)

Lemma stake_all s n : String.length s <= n → stake n s = s.
Proof. revert n. induction s as [|a s IH]; intros [|n] H; cbn in *; [done | done | lia | by rewrite IH by lia]. Qed.
Lemma boundary_0 s : is_char_boundary 0 s = true. Proof. done. Qed.
Lemma slice_from_ok n s : n <= String.length s → is_char_boundary n s = true → slice_from n s = Ok (sdrop n s).
Proof.
  intros Hn Hb. unfold slice_from, str_slice. rewrite Hb, boundary_end, (proj2 (Nat.leb_le _ _) Hn), Nat.leb_refl.
  cbn [andb]. rewrite stake_all; [done |]. rewrite length_sdrop. lia.
Qed.
Lemma str_slice_ok site lo hi s :
  lo <= hi → hi <= String.length s → is_char_boundary lo s = true → is_char_boundary hi s = true →
  str_slice site lo hi s = Ok (stake (hi - lo) (sdrop lo s)).
Proof.
  intros H1 H2 Hl Hh. unfold str_slice. by rewrite (proj2 (Nat.leb_le _ _) H1), (proj2 (Nat.leb_le _ _) H2), Hl, Hh.
Qed.

Lemma str_find_at needle s n : str_find needle s = Some n → n <= String.length s ∧ ∃ t, sdrop n s = needle +:+ t.
Proof.
  revert n. induction s as [|a s IH]; intros n; cbn [str_find].
  - destruct (starts_with needle "") eqn:E; [| done]. intros [= <-]. apply starts_with_spec in E as [t Ht].
    split; [done |]. exists t. done.
  - destruct (starts_with needle (String a s)) eqn:E.
    + intros [= <-]. apply starts_with_spec in E as [t Ht]. split; [lia |]. exists t. done.
    + destruct (str_find needle s) as [m|]; [| done]. intros [= <-]. destruct (IH m eq_refl) as [Hm [t Ht]].
      split; [cbn; lia |]. by exists t.
Qed.
(** A match of a text begins and ends at boundaries. *)
Lemma match_boundaries needle s n : utf8_valid s = true → utf8_valid needle = true → needle ≠ "" →
  str_find needle s = Some n →
  is_char_boundary n s = true ∧ n + String.length needle <= String.length s ∧ is_char_boundary (n + String.length needle) s = true.
Proof.
  intros Hs Hv Hne Hf. apply str_find_end in Hf as Hlen. apply str_find_at in Hf as (Hn & t & Ht).
  assert (Hb : is_char_boundary n s = true).
  { apply boundary_at; [done |]. rewrite Ht. apply valid_starts in Hv. by destruct needle. }
  split; [done |]. split; [done |]. apply boundary_at; [done |].
  rewrite <-sdrop_sdrop, Ht, sdrop_app by done. apply valid_starts.
  eapply valid_rest; [| exact Hv]. rewrite <-Ht. by apply valid_cuts.
Qed.
Lemma get_sdrop i s c : String.get i s = Some c → i < String.length s ∧ sdrop i s = String c (sdrop (S i) s).
Proof.
  revert i. induction s as [|a s IH]; intros [|i]; cbn; try done; [intros [= ->]; split; [lia | done] |].
  intros H. destruct (IH i H) as [H1 H2]. split; [lia | done].
Qed.
(** After a byte that is an ASCII character. *)
Lemma boundary_after_ascii i s c : utf8_valid s = true → String.get i s = Some c → in_range 0 127 c = true →
  i + 1 <= String.length s ∧ is_char_boundary i s = true ∧ is_char_boundary (i + 1) s = true.
Proof.
  intros Hs Hg Hc. apply get_sdrop in Hg as [Hi Hd]. split; [lia |].
  assert (Hb : is_char_boundary i s = true).
  { apply boundary_at; [lia |]. rewrite Hd. cbn. apply negb_true_iff. eapply in_range_continuation; [exact Hc | lia]. }
  split; [done |]. apply boundary_at; [lia |]. rewrite Nat.add_1_r. apply valid_starts.
  eapply (valid_rest (str1 c)); [| by apply utf8_valid_one]. change (str1 c +:+ ?t) with (String c t). rewrite <-Hd.
  by apply valid_cuts; [| lia |].
Qed.

(** Trimming leaves a text. *)
Lemma strip_fuel_keeps f (P : string → Prop) fuel s :
  (∀ a b, f a = Some b → P a → P b) → P s → P (strip_fuel f fuel s).
Proof.
  intros Hf. revert s. induction fuel as [|fuel IH]; intros s Hs; [done |]. cbn.
  destruct (f s) as [t|] eqn:E; [| done]. apply IH. by eapply Hf.
Qed.
Lemma whitespace_valid w : w ∈ whitespace → utf8_valid w = true ∧ w ≠ "".
Proof.
  assert (H : Forall (λ w, utf8_valid w = true ∧ w ≠ "") whitespace) by (repeat constructor; vm_compute; done).
  rewrite Forall_forall in H. apply H.
Qed.
Lemma valid_trim s : utf8_valid s = true → utf8_valid (trim s) = true.
Proof.
  intros Hs. unfold trim, trim_end, trim_start.
  apply strip_fuel_keeps; [| apply strip_fuel_keeps; [| done]].
  - intros a b (w & Hw & ->)%strip_back_Some Ha. destruct (whitespace_valid w Hw) as [Hv Hne].
    destruct (valid_cuts _ Ha) as [_ Hc].
    assert (Hb : is_char_boundary (String.length b) (b +:+ w) = true).
    { apply boundary_at; [rewrite length_app_str; lia |]. rewrite sdrop_app by done. by apply valid_starts. }
    destruct (Hc (String.length b)) as [H _]; [rewrite length_app_str; lia | done |]. by rewrite stake_app in H.
  - intros a b (w & Hw & ->)%strip_front_Some Ha. destruct (whitespace_valid w Hw) as [Hv _]. by eapply valid_rest.
Qed.

(** ** The extraction of mentions is total *)

Lemma one_of_spec l c : one_of l c = true ↔ c ∈ String.list_ascii_of_string l.
Proof.
  unfold one_of. induction l as [|a l IH]; cbn [String.list_ascii_of_string]; [split; [done | by intros ?%elem_of_nil] |].
  rewrite contains_char_cons, orb_true_iff, IH, elem_of_cons, Ascii.eqb_eq. naive_solver.
Qed.
Lemma one_of_ascii l c : Forall (λ a, in_range 0 127 a = true) (String.list_ascii_of_string l) → one_of l c = true → in_range 0 127 c = true.
Proof. rewrite Forall_forall. intros H Hc%one_of_spec. by apply H. Qed.
Lemma quote_ascii c : one_of (QUOTE +:+ "'`") c = true → in_range 0 127 c = true.
Proof. apply one_of_ascii. repeat constructor; vm_compute; done. Qed.

(** The mentions collected so far. *)
Record Mentions (ms : list EntityMention) : Prop := {
  mention_long : ∀ m, m ∈ ms → 2 <= String.length (mention_text m);
  mention_open : ∀ m, m ∈ ms → resolved m = [];
  mention_once : NoDup (folded ∘ mention_text <$> ms);
}.
Lemma Mentions_nil : Mentions [].
Proof. split; [intros m H; by apply elem_of_nil in H .. | constructor]. Qed.
Lemma push_mention_Mentions t k ms : Mentions ms → Mentions (push_mention t k ms).
Proof.
  intros [Hl Ho Hn]. unfold push_mention. destruct (Nat.ltb_spec (String.length t) 2); [done |]. cbn [orb].
  destruct (existsb _ ms) eqn:E; [done |]. split.
  - intros m [Hm | ->%list_elem_of_singleton]%elem_of_app; [by apply Hl | cbn; lia].
  - intros m [Hm | ->%list_elem_of_singleton]%elem_of_app; [by apply Ho | done].
  - rewrite fmap_app. apply NoDup_app. split_and!; [done | | apply NoDup_singleton].
    intros x (m & -> & Hm)%list_elem_of_fmap Hx. apply list_elem_of_singleton in Hx. cbn in Hx.
    assert (Ht : existsb (λ m, same_ignoring_case (mention_text m) t) ms = true); [| by rewrite E in Ht].
    apply existsb_exists. exists m. split; [by apply list_elem_of_In | by apply same_ignoring_case_spec].
Qed.
Lemma foldl_keeps {A B} (P : B → Prop) (f : B → A → B) l b : (∀ b a, a ∈ l → P b → P (f b a)) → P b → P (foldl f b l).
Proof. revert b. induction l as [|a l IH]; intros b Hf Hb; cbn; [done |]. apply IH; [intros; apply Hf; set_solver |]. apply Hf; set_solver. Qed.

Lemma quoted_total fuel q i out : utf8_valid q = true → Mentions out → ∃ ms, quoted fuel q i out = Ok ms ∧ Mentions ms.
Proof.
  intros Hq. revert i out. induction fuel as [|fuel IH]; intros i out Ho; cbn [quoted]; [by exists out |].
  destruct (String.get i q) as [c|] eqn:Eg; [| by exists out].
  destruct (one_of _ c && _) eqn:Ec; [| by apply IH]. apply andb_true_iff in Ec as [Ec%quote_ascii _].
  destruct (boundary_after_ascii i q c Hq Eg Ec) as (Hn & _ & Hb). rewrite slice_from_ok by done. cbn.
  destruct (str_find (str1 c) (sdrop (i + 1) q)) as [rel|] eqn:Ef; [| by apply IH].
  destruct (valid_cuts q Hq) as [_ Hcut]. destruct (Hcut (i + 1) Hn Hb) as [_ Hrest].
  apply match_boundaries in Ef as (Hb1 & Hn1 & _); [| done | by apply utf8_valid_one | done].
  rewrite length_sdrop in Hn1. cbn [String.length] in Hn1.
  rewrite str_slice_ok; [| lia | lia | done |].
  - cbn. apply IH. case_match; [done | by apply push_mention_Mentions].
  - apply boundary_at; [lia |]. rewrite <-sdrop_sdrop. unfold is_char_boundary in Hb1.
    destruct (Hcut (i + 1) Hn Hb) as [_ Hv]. destruct (valid_cuts _ Hv) as [_ Hc2].
    destruct (Hc2 rel) as [_ H2]; [rewrite length_sdrop; lia | done | by apply valid_starts].
Qed.
(** The bytes that are left bound the rounds of the loop. *)
Lemma quoted_enough f f' q i out : String.length q - i <= f → String.length q - i <= f' → quoted f q i out = quoted f' q i out.
Proof.
  revert f' i out. induction f as [|f IH]; intros [|f'] i out Hf Hf'; cbn [quoted]; [done | ..].
  - destruct (String.get i q) as [c|] eqn:E; [| done]. apply get_sdrop in E as [? _]. lia.
  - destruct (String.get i q) as [c|] eqn:E; [| done]. apply get_sdrop in E as [? _]. lia.
  - destruct (String.get i q) as [c|] eqn:E; [| done]. apply get_sdrop in E as [? _].
    case_match; [| apply IH; lia].
    destruct (slice_from (i + 1) q) as [rest|]; [| done]. cbn.
    destruct (str_find (str1 c) rest) as [rel|]; [| apply IH; lia].
    destruct (str_slice _ _ _ q); [| done]. cbn. apply IH; lia.
Qed.

Section total.
Context `{LC : !Lowercase} `{AN : !Alphanumeric}.

Lemma extract_entities_total q : utf8_valid q = true → ∃ ms, extract_entities q = Ok ms ∧ Mentions ms.
Proof.
  intros Hq. destruct (quoted_total (String.length q) q 0 [] Hq Mentions_nil) as (ms & E & Hms).
  unfold extract_entities. rewrite E. cbn. eexists. split; [done |].
  unfold typed_tokens, scan_tokens.
  apply foldl_keeps; [| apply foldl_keeps; [| done]]; intros; repeat case_match; try done; by apply push_mention_Mentions.
Qed.

Lemma first_arrow_spec q ar alen :
  first_arrow q = Some (ar, alen) → ∃ a, a ∈ ARROWS ∧ str_find a q = Some ar ∧ alen = String.length a.
Proof.
  unfold first_arrow. revert ar alen.
  apply (foldl_keeps (λ best, ∀ ar alen, best = Some (ar, alen) → ∃ a, a ∈ ARROWS ∧ str_find a q = Some ar ∧ alen = String.length a));
    [| done].
  intros best a Ha IH ar alen. destruct (str_find a q) as [i|] eqn:E; [| apply IH].
  destruct best as [b|]; [case_match |]; intros Hb; [| by apply IH |]; injection Hb as <- <-; eauto.
Qed.
Lemma arrow_change_total q : utf8_valid q = true → ∃ r, arrow_change q = Ok r.
Proof.
  intros Hq. unfold arrow_change. destruct (first_arrow q) as [[ar alen]|] eqn:E; [| by eexists].
  apply first_arrow_spec in E as (a & Ha & Hf & ->).
  assert (Hall : Forall (λ a, utf8_valid a = true ∧ a ≠ "") ARROWS) by (repeat constructor; vm_compute; done).
  rewrite Forall_forall in Hall. destruct (Hall a Ha) as [Hv Hne].
  apply match_boundaries in Hf as (Hb & Hn & Hb2); [| done..].
  unfold slice_to. rewrite str_slice_ok; [| lia | lia | done | done]. cbn.
  rewrite slice_from_ok by done. cbn. by eexists.
Qed.
Lemma min_nat_spec l n : min_nat l = Some n → n ∈ l.
Proof.
  unfold min_nat. revert n. apply (foldl_keeps (λ best, ∀ n, best = Some n → n ∈ l)); [| done].
  intros [b|] a Ha IH n [= <-]; [| done]. destruct (Nat.min_spec b a) as [[_ ->] | [_ ->]]; [by apply IH | done].
Qed.
Lemma behavior_scope_total lower : ∃ r, behavior_scope lower = Ok r.
Proof.
  unfold behavior_scope. destruct (min_nat _) as [n|] eqn:E; [| by eexists].
  apply min_nat_spec, list_elem_of_omap in E as (cue & Hc & Hf). apply str_find_at in Hf as (Hn & t & Ht).
  rewrite slice_from_ok; [cbn; by eexists | done |]. apply boundary_at; [done |]. rewrite Ht.
  assert (Hall : Forall (λ cue, starts_char (cue +:+ t) = true) scope_cues) by (repeat constructor).
  rewrite Forall_forall in Hall. by apply Hall.
Qed.
Lemma derive_contract_total lower : ∃ c, derive_contract lower = Ok c.
Proof.
  unfold derive_contract. case_match; [| by eexists].
  assert (∃ r, (match coordinated_behavior_operations lower with [] => Ok None | _ => behavior_scope lower end) = Ok r) as [r ->].
  { case_match; [by eexists | apply behavior_scope_total]. }
  by eexists.
Qed.

(** ** Intents *)

#[export] Instance spec_float_eq_dec : EqDecision spec_float.
Proof. solve_decision. Defined.
(** The weights that the phrases give. *)
Definition weights : list f32 :=
  [f32_lit 9 10; f32_lit 7 10; f32_lit 8 10; f32_lit 6 10; f32_lit 85 100; f32_lit 75 100; f32_lit 5 10].
Definition weighed (iw : Intent * f32) : Prop := iw.2 ∈ weights.
Record Intents (l : list (Intent * f32)) : Prop := { intents_weighed : Forall weighed l; intents_once : NoDup l.*1 }.

Lemma max_weight x y : x ∈ weights → y ∈ weights → f32_max x y ∈ weights.
Proof.
  assert (H : forallb (λ x, forallb (λ y, bool_decide (f32_max x y ∈ weights)) weights) weights = true) by (vm_compute; reflexivity).
  intros Hx%list_elem_of_In Hy%list_elem_of_In. rewrite forallb_forall in H. specialize (H x Hx).
  rewrite forallb_forall in H. specialize (H y Hy). by apply bool_decide_eq_true in H.
Qed.
Lemma add_intent_names it w l : (add_intent it w l).*1 = if decide (it ∈ l.*1) then l.*1 else l.*1 ++ [it].
Proof.
  induction l as [|e l IH]; cbn [add_intent]; [done |]. rewrite fmap_cons.
  destruct (decide (e.1 = it)) as [He | He]; rewrite fmap_cons; [| rewrite IH].
  - destruct (decide (it ∈ e.1 :: l.*1)) as [Hi | Hi]; [done |]. exfalso. apply Hi, elem_of_cons. by left.
  - destruct (decide (it ∈ l.*1)) as [Hi | Hi]; destruct (decide (it ∈ e.1 :: l.*1)) as [Hj | Hj]; try done; exfalso.
    + apply Hj, elem_of_cons. by right.
    + apply elem_of_cons in Hj as [-> | Hj]; done.
Qed.
Lemma add_intent_Intents it w l : w ∈ weights → Intents l → Intents (add_intent it w l).
Proof.
  intros Hw [Hl Hn]. split.
  - clear Hn. induction Hl as [|e l He Hl IH]; cbn; [by apply Forall_singleton |].
    case_decide; apply Forall_cons; split; try done. by apply max_weight.
  - rewrite add_intent_names. case_decide; [done |]. apply NoDup_app. split_and!; [done | | apply NoDup_singleton].
    intros x Hx ->%list_elem_of_singleton. done.
Qed.
Lemma add_if_Intents b it w l : w ∈ weights → Intents l → Intents (add_if b it w l).
Proof. intros. unfold add_if. case_match; [by apply add_intent_Intents | done]. Qed.
Lemma add_words_Intents s it w ws l : w ∈ weights → Intents l → Intents (add_words s it w ws l).
Proof. intros Hw Hl. unfold add_words. apply foldl_keeps; [| done]. intros. by apply add_if_Intents. Qed.
Lemma all_intents_Intents lower : Intents (all_intents lower) ∧ all_intents lower ≠ [].
Proof.
  assert (Hw : forallb (λ pw : string * f32, bool_decide (pw.2 ∈ weights)) feature_starts = true) by (vm_compute; reflexivity).
  assert (Hin : ∀ w, bool_decide (w ∈ weights) = true → w ∈ weights) by (intros w; apply bool_decide_eq_true_1).
  assert (Hnil : Intents []) by (split; constructor).
  unfold all_intents. lazymatch goal with |- context [match ?l with [] => _ | _ => _ end] => assert (Hl : Intents l) end.
  { do 8 (apply add_words_Intents; [apply Hin; vm_compute; reflexivity |]).
    unfold usage_intents. apply add_if_Intents; [apply Hin; vm_compute; reflexivity |].
    apply foldl_keeps; [intros; apply add_if_Intents; [apply Hin; vm_compute; reflexivity | done] |].
    unfold impact_intents. apply add_if_Intents; [apply Hin; vm_compute; reflexivity |].
    apply add_words_Intents; [apply Hin; vm_compute; reflexivity |].
    unfold feature_intents. apply add_if_Intents; [apply Hin; vm_compute; reflexivity |].
    apply foldl_keeps; [| done]. intros l pw Hp Hl. apply add_if_Intents; [| done].
    rewrite forallb_forall in Hw. apply Hin, Hw. by apply list_elem_of_In. }
  destruct (add_words _ _ _ _ _) eqn:E; [| done].
  split; [apply add_intent_Intents; [apply Hin; vm_compute; reflexivity | done] | done].
Qed.

Lemma stronger_trans a b c : weighed a → weighed b → weighed c → stronger a b → stronger b c → stronger a c.
Proof.
  assert (H : forallb (λ x, forallb (λ y, forallb (λ z,
    implb (bool_decide (f32_order y x ≠ Gt) && bool_decide (f32_order z y ≠ Gt)) (bool_decide (f32_order z x ≠ Gt)))
    weights) weights) weights = true) by (vm_compute; reflexivity).
  unfold weighed, stronger. intros Ha%list_elem_of_In Hb%list_elem_of_In Hc%list_elem_of_In H1 H2.
  rewrite forallb_forall in H. specialize (H _ Ha). rewrite forallb_forall in H. specialize (H _ Hb).
  rewrite forallb_forall in H. specialize (H _ Hc). rewrite !bool_decide_eq_true_2 in H by done.
  by apply bool_decide_eq_true in H.
Qed.
Lemma stronger_total a b : weighed a → weighed b → stronger a b ∨ stronger b a.
Proof.
  assert (H : forallb (λ x, forallb (λ y, bool_decide (f32_order y x ≠ Gt) || bool_decide (f32_order x y ≠ Gt))
    weights) weights = true) by (vm_compute; reflexivity).
  unfold weighed, stronger. intros Ha%list_elem_of_In Hb%list_elem_of_In.
  rewrite forallb_forall in H. specialize (H _ Ha). rewrite forallb_forall in H. specialize (H _ Hb).
  by rewrite orb_true_iff, !bool_decide_eq_true in H.
Qed.
Lemma top_is_kept w : w ∈ weights → f32_ge w (f32_max (f32_mul w (f32_lit 6 10)) (f32_lit 5 10)) = true.
Proof.
  assert (H : forallb (λ w, f32_ge w (f32_max (f32_mul w (f32_lit 6 10)) (f32_lit 5 10))) weights = true) by (vm_compute; reflexivity).
  rewrite forallb_forall in H. intros Hw%list_elem_of_In. by apply H.
Qed.

Lemma weight_is_half w : w ∈ weights → f32_ge w (f32_lit 5 10) = true.
Proof.
  assert (H : forallb (λ w, f32_ge w (f32_lit 5 10)) weights = true) by (vm_compute; reflexivity).
  rewrite forallb_forall in H. intros Hw%list_elem_of_In. by apply H.
Qed.

(** The needs of the intents, each once. *)
Lemma push_absent_elem `{EqDecision A} (l : list A) x y : y ∈ push_absent l x ↔ y ∈ l ∨ y = x.
Proof. unfold push_absent. case_bool_decide; [naive_solver | by rewrite elem_of_app, list_elem_of_singleton]. Qed.
Lemma push_absent_NoDup `{EqDecision A} (l : list A) x : NoDup l → NoDup (push_absent l x).
Proof.
  intros Hl. unfold push_absent. case_bool_decide; [done |]. apply NoDup_app. split_and!; [done | | apply NoDup_singleton].
  intros y Hy ->%list_elem_of_singleton. done.
Qed.
Lemma push_all_elem `{EqDecision A} (ks l : list A) y : y ∈ foldl push_absent l ks ↔ y ∈ l ∨ y ∈ ks.
Proof.
  revert l. induction ks as [|k ks IH]; intros l; cbn; [by rewrite elem_of_nil; naive_solver |].
  rewrite IH, push_absent_elem, elem_of_cons. naive_solver.
Qed.
Lemma push_all_NoDup `{EqDecision A} (ks l : list A) : NoDup l → NoDup (foldl push_absent l ks).
Proof. intros Hl. apply foldl_keeps; [| done]. intros. by apply push_absent_NoDup. Qed.
Lemma needed_evidence_elem l k : k ∈ needed_evidence_for l ↔ ∃ i, i ∈ l.*1 ∧ k ∈ needs i.
Proof.
  unfold needed_evidence_for.
  assert (H : ∀ acc, k ∈ foldl (λ acc iw, foldl push_absent acc (needs iw.1)) acc l ↔ k ∈ acc ∨ ∃ i, i ∈ l.*1 ∧ k ∈ needs i).
  { induction l as [|e l IH]; intros acc; cbn; [setoid_rewrite elem_of_nil; naive_solver |].
    rewrite IH, push_all_elem. setoid_rewrite elem_of_cons. naive_solver. }
  rewrite H, elem_of_nil. naive_solver.
Qed.
Lemma needed_evidence_NoDup l : NoDup (needed_evidence_for l).
Proof. unfold needed_evidence_for. apply foldl_keeps; [| constructor]. intros. by apply push_all_NoDup. Qed.

Lemma intents_of_spec lower :
  let l := intents_of lower in
  l ≠ [] ∧ NoDup l.*1 ∧ StronglySorted stronger l ∧ Forall weighed l.
Proof.
  cbn zeta. unfold intents_of. destruct (all_intents_Intents lower) as [[Hw Hn] Hne].
  set (s := stable_sort stronger (all_intents lower)).
  assert (Hp : s ≡ₚ all_intents lower) by apply stable_sort_perm.
  assert (Hs : StronglySorted stronger s)
    by (apply (stable_sort_sorted_on _ weighed); [apply stronger_trans | apply stronger_total | done]).
  rewrite <-Hp in Hw. assert (Hn' : NoDup s.*1) by (by rewrite Hp).
  unfold keep_strong. split_and!.
  - destruct s as [|[it w] s]; [by apply Permutation_nil in Hp |].
    rewrite filter_cons_True; [done |]. apply top_is_kept. by apply Forall_cons in Hw as [Hw _].
  - eapply sublist_NoDup; [exact Hn' |]. apply fmap_sublist, sublist_filter.
  - eapply StronglySorted_sublist; [apply sublist_filter | done].
  - rewrite Forall_forall in *. intros x [_ Hx]%list_elem_of_filter. by apply Hw.
Qed.

(** ** The contract *)

(** What the contract of a plan can be. *)
Record Contract (lower : string) (c : AnswerContract) : Prop := {
  contract_whole : completeness_required c = true ↔ cardinality c = ExhaustiveSet;
  contract_callers : direction c = Callers ↔ asks_callers lower = true;
  contract_callees : direction c = Callees ↔ asks_callees lower = true;
  contract_caller_facets : direction c = Callers → required_facets c = [CallerFacet; DefinitionFacet];
  contract_directed : direction c ≠ NoDirection → completeness_required c = true;
  contract_operations : behavior_requirements c ≠ [] →
    direction c = NoDirection ∧ required_facets c = [] ∧ 2 <= length (behavior_requirements c);
  contract_operations_once : NoDup (behavior_requirements c);
  contract_operations_all : direction c = NoDirection → required_facets c = [] →
    behavior_requirements c = coordinated_behavior_operations lower;
}.
Lemma operations_spec lower :
  NoDup (coordinated_behavior_operations lower) ∧
  (coordinated_behavior_operations lower ≠ [] → 2 <= length (coordinated_behavior_operations lower)).
Proof.
  unfold coordinated_behavior_operations. repeat (case_match; try (split; [constructor | done])).
  split; [apply push_all_NoDup; constructor |]. intros _. by apply Nat.ltb_ge.
Qed.
Lemma asks_callers_not_callees lower : asks_callers lower = true → asks_callees lower = false.
Proof. unfold asks_callers. by destruct (asks_callees lower). Qed.
Lemma derive_contract_Contract lower c : derive_contract lower = Ok c → Contract lower c.
Proof.
  destruct (operations_spec lower) as [Hn Hl]. pose proof (asks_callers_not_callees lower) as Hc.
  assert (Hsplit : ∀ c', derive_contract lower = Ok c' →
    behavior_requirements (contract_shape lower) = [] ∧
    (c' = contract_shape lower ∧ ¬ (direction c' = NoDirection ∧ required_facets c' = []) ∨
     direction (contract_shape lower) = NoDirection ∧ required_facets (contract_shape lower) = [] ∧
     direction c' = NoDirection ∧ required_facets c' = [] ∧ completeness_required c' = completeness_required (contract_shape lower) ∧
     cardinality c' = cardinality (contract_shape lower) ∧ behavior_requirements c' = coordinated_behavior_operations lower)).
  { intros c' H. split; [unfold contract_shape; repeat case_match; done |]. revert H. unfold derive_contract.
    destruct (bool_decide (direction _ = _) && _) eqn:E.
    - apply andb_true_iff in E as [Hd%bool_decide_eq_true Hf%bool_decide_eq_true].
      destruct (match coordinated_behavior_operations lower with [] => Ok None | _ => _ end) as [scope|]; [| done].
      cbn. intros [= <-]. right. done.
    - intros [= <-]. left. split; [done |]. intros [Hd Hf]. by rewrite !bool_decide_eq_true_2 in E. }
  intros [Hb H]%Hsplit. clear Hsplit. revert Hb H. unfold contract_shape.
  destruct (asks_callees lower) eqn:E1, (asks_callers lower) eqn:E2; try (by specialize (Hc eq_refl)); cbn;
    [| | repeat case_match; cbn]; intros _ [[-> Hne] | (? & ? & Hd & Hf & Hw & Hcard & Ho)]; try done;
    (split; cbn in *; rewrite ?E1, ?E2, ?Hd, ?Hf, ?Hw, ?Hcard, ?Ho;
     first [done | split; intros; congruence | intros; congruence | apply NoDup_nil_2 | intros; by auto | intros; exfalso; by auto]).
Qed.
(** An answer claims no set and no operation that was not shown. *)
Lemma answered_contract pl items reports snap adequate :
  assess_status pl items reports snap adequate = Answered →
  (completeness_required (contract pl) = false → behavior_requirements (contract pl) = []) ∧
  (completeness_required (contract pl) = true → direction (contract pl) = Callees ∧
     ∃ r, r ∈ reports ∧ callee_set_complete r = true).
Proof.
  unfold assess_status. repeat (case_match; try done).
  - intros _. split; [done |]. intros _. split; [done |].
    match goal with H : negb _ = false |- _ => apply negb_false_iff, existsb_exists in H as (r & Hr%list_elem_of_In & ?) end. by exists r.
  - intros _. split; [done |]. intros _. split; [done |].
    match goal with H : negb (existsb callee_set_complete _) = false |- _ =>
      apply negb_false_iff, existsb_exists in H as (r & Hr%list_elem_of_In & ?) end. by exists r.
  - unfold assess_coverage. repeat (case_match; try done). intros _. split; [| done]. intros _.
    match goal with H : negb (bool_decide (_ = [])) = false |- _ => by apply negb_false_iff, bool_decide_eq_true in H end.
Qed.
End total.

(** * Theorems *)

Section theorems.
Context `{LC : !Lowercase} `{AN : !Alphanumeric}.

(** C23. Every question gets a plan, whatever characters it holds and wherever its
    quotes and arrows are. Its intents are distinct, from the strongest to the
    weakest and none below one half; the evidence to look for is each kind that one
    of them needs, once; the mentions differ by more than the case of letters, have
    two bytes or more and are not resolved yet. *)
Theorem question_gets_a_plan question :
  utf8_valid question = true →
  ∃ pl, plan_query question = Ok pl ∧
    intents pl ≠ [] ∧ NoDup (intents pl).*1 ∧ StronglySorted stronger (intents pl) ∧
    (∀ i w, (i, w) ∈ intents pl → f32_ge w (f32_lit 5 10) = true) ∧
    answer_type pl = primary_answer_type (fst <$> head (intents pl)) ∧
    NoDup (needed_evidence pl) ∧ (∀ k, k ∈ needed_evidence pl ↔ ∃ i, i ∈ (intents pl).*1 ∧ k ∈ needs i) ∧
    Mentions (entities pl).
Proof.
  intros Hq%valid_trim. unfold plan_query.
  destruct (extract_entities_total _ Hq) as (ms & -> & Hms).
  destruct (arrow_change_total _ Hq) as [ch Hch]. unfold extract_qualifiers. rewrite Hch.
  destruct (derive_contract_total (to_lowercase (trim question))) as [c Hc]. cbn. rewrite Hc. cbn.
  eexists. split; [done |]. cbn. destruct (intents_of_spec (to_lowercase (trim question))) as (Hne & Hn & Hs & Hw).
  split_and!; [done | done | done | | done | apply needed_evidence_NoDup | apply needed_evidence_elem | done].
  intros i w Hi. rewrite Forall_forall in Hw. apply weight_is_half. by apply (Hw (i, w)).
Qed.

End theorems.
