(* ===== verification/CalleeSet.v ===== *)
(** [engram_server::services::ask_engine::providers], the exhaustive callee set:
    every call out of the functions of a file and of the file itself, each
    target once, with a proof of coverage that counts whatever was skipped; that
    a complete proof means that no call is missing. *)
From S2P Require Import Prelude Text Unicode FileSystem SafePath Store Concrete Namespaces F64 Graph GraphRows GraphSpec GraphRefine GraphQuery GraphWitnesses Resolve ResolveSpec Chunking Evidence Ranking Status.

#[local] Open Scope nat_scope.

(** * Definitions *)

Record AnswerMember := {
  target_node_id : string;
  display_name : string;
  relation : string;
  source_node_id : option string;
  member_path : option string;
  member_via : option string;
}.
Record ArmCoverage := { examined : nat; available : option nat; truncated : bool }.

Definition DANGLING_ID_SAMPLE_CAP : nat := 20.
Definition DEFINITION_BODY_LINES : nat := 60.

(** [std::fs::metadata] and [read_to_string]: links are followed. A directory
    has a length and cannot be read, so it gives no text either. *)
Definition definition_body (fs : FS) (dir : FileSystem.path) (rel : string) (a b : N) : option string :=
  match safe_join fs dir rel with
  | Fail _ => None
  | Ok full =>
      match resolve fs full with
      | inl _ => None
      | inr l =>
          match node_at fs l with
          | Some (File content) =>
              if (4 * 1024 * 1024 <? slen content)%N then None
              else
                match read_handle (File content) with
                | inl _ => None
                | inr text =>
                    let start := N.to_nat (N.max a 1) - 1 in
                    let end_ := Nat.min (Nat.max (N.to_nat b) (start + 1)) (start + DEFINITION_BODY_LINES) in
                    match trim_end <$> take (end_ - start) (drop start (str_lines text)) with
                    | [] => None
                    | body =>
                        let s := join (str1 LF) body in
                        Some (if (4000 <? slen s)%N then stake (boundary_down 4000 s) s else s)
                    end
                end
          | _ => None
          end
      end
  end.

Section callees.
Context `{BC : !Bincode} `{LC : !Lowercase} `{JT : !JsonText} `{SB : !StrictBincode}.

(** The implementations that a call of an API is dispatched to. *)
Definition dispatched_target (kind : EdgeKind) (key want : string) (e : Edge) : bool :=
  match edge_metadata e with
  | None => false
  | Some meta =>
      match as_json_str (json_get meta key) with Some n => same_ignoring_case (trim n) want | None => false end
      && negb (starts_with "::" (target_id e))
      && (negb (bool_decide (kind = ApiCall))
          || match as_json_str (json_get meta "resolution") with Some r => starts_with "route_" r | None => false end)
  end.
Definition push_new (out : list string) (t : string) : list string := if bool_decide (t ∈ out) then out else out ++ [t].
Definition find_dispatch_targets (p api_name : string) (db : GraphDB) : result (list string) :=
  let want := to_lowercase (trim api_name) in
  if String.eqb want "" then Ok []
  else
    calls ← decode_edges (scan (kind_prefix p Calls) (EDGES db));
    apis ← decode_edges (scan (kind_prefix p ApiCall) (EDGES db));
    Ok (foldl push_new []
          (target_id <$> filter (λ e, dispatched_target Calls "dispatch_key" want e = true) calls
                         ++ filter (λ e, dispatched_target ApiCall "ajax_target_method" want e = true) apis)).

(** ** The counters of a walk *)

Record Walk := {
  walk_items : list EvidenceItem;
  walk_members : list AnswerMember;
  walk_seen : gset string;
  walked : nat;
  next_id : nat;
  cap_hits : nat;
  dangling : nat;
  dangling_ids : list string;
  dispatch_cut : nat;
  errors : nat;
}.
Definition start_walk (errors id : nat) : Walk :=
  {| walk_items := []; walk_members := []; walk_seen := ∅; walked := 0; next_id := id; cap_hits := 0; dangling := 0;
     dangling_ids := []; dispatch_cut := 0; errors := errors |}.
Definition count_error (w : Walk) : Walk :=
  {| walk_items := walk_items w; walk_members := walk_members w; walk_seen := walk_seen w; walked := walked w;
     next_id := next_id w; cap_hits := cap_hits w; dangling := dangling w; dangling_ids := dangling_ids w;
     dispatch_cut := dispatch_cut w; errors := S (errors w) |}.
Definition count_cap (w : Walk) : Walk :=
  {| walk_items := walk_items w; walk_members := walk_members w; walk_seen := walk_seen w; walked := walked w;
     next_id := next_id w; cap_hits := S (cap_hits w); dangling := dangling w; dangling_ids := dangling_ids w;
     dispatch_cut := dispatch_cut w; errors := errors w |}.
Definition count_dangling (target : string) (w : Walk) : Walk :=
  {| walk_items := walk_items w; walk_members := walk_members w; walk_seen := walk_seen w; walked := walked w;
     next_id := next_id w; cap_hits := cap_hits w; dangling := S (dangling w);
     dangling_ids := if Nat.ltb (length (dangling_ids w)) DANGLING_ID_SAMPLE_CAP then dangling_ids w ++ [target]
                     else dangling_ids w;
     dispatch_cut := dispatch_cut w; errors := errors w |}.
Definition count_cut (w : Walk) : Walk :=
  {| walk_items := walk_items w; walk_members := walk_members w; walk_seen := walk_seen w; walked := walked w;
     next_id := next_id w; cap_hits := cap_hits w; dangling := dangling w; dangling_ids := dangling_ids w;
     dispatch_cut := S (dispatch_cut w); errors := errors w |}.
Definition count_walked (w : Walk) : Walk :=
  {| walk_items := walk_items w; walk_members := walk_members w; walk_seen := walk_seen w; walked := S (walked w);
     next_id := next_id w; cap_hits := cap_hits w; dangling := dangling w; dangling_ids := dangling_ids w;
     dispatch_cut := dispatch_cut w; errors := errors w |}.
Definition see (target : string) (w : Walk) : Walk :=
  {| walk_items := walk_items w; walk_members := walk_members w; walk_seen := {[target]} ∪ walk_seen w;
     walked := walked w; next_id := next_id w; cap_hits := cap_hits w; dangling := dangling w;
     dangling_ids := dangling_ids w; dispatch_cut := dispatch_cut w; errors := errors w |}.
Definition push_member (m : AnswerMember) (w : Walk) : Walk :=
  {| walk_items := walk_items w; walk_members := walk_members w ++ [m]; walk_seen := walk_seen w; walked := walked w;
     next_id := next_id w; cap_hits := cap_hits w; dangling := dangling w; dangling_ids := dangling_ids w;
     dispatch_cut := dispatch_cut w; errors := errors w |}.
(** The id counter is raised before the item takes it. *)
Definition push_item (item : nat → EvidenceItem) (w : Walk) : Walk :=
  {| walk_items := walk_items w ++ [item (S (next_id w))]; walk_members := walk_members w; walk_seen := walk_seen w;
     walked := walked w; next_id := S (next_id w); cap_hits := cap_hits w; dangling := dangling w;
     dangling_ids := dangling_ids w; dispatch_cut := dispatch_cut w; errors := errors w |}.

(** ** One target *)

Definition forward_path (n : Node) : string := replace_char BACKSLASH SLASH (Graph.file_path n).
(** Declarations of types are not implementations. *)
Definition is_declaration (n : Node) : bool :=
  let tl := to_lowercase (forward_path n) in ends_with ".d.ts" tl || str_contains "/typings/" tl.
Definition via_of (e : Edge) : option string :=
  meta ← edge_metadata e;
  v ← as_json_str (json_get meta "via");
  Some match as_json_str (json_get meta "ajax_url") with
       | Some url => v +:+ " (→ " +:+ url +:+ ")"
       | None => v
       end.
Definition call_text (src_name : string) (n : Node) (via : option string) : string :=
  match via with
  | Some v => src_name +:+ " calls " +:+ node_name n +:+ " (" +:+ node_type n +:+ ") VIA " +:+ v
                +:+ " — NOT a direct call; defined in " +:+ forward_path n
  | None => src_name +:+ " calls " +:+ node_name n +:+ " (" +:+ node_type n +:+ ") — defined in " +:+ forward_path n
  end.
Definition member_of (kind : EdgeKind) (src_id : string) (e : Edge) (n : Node) : AnswerMember :=
  {| target_node_id := node_id n; display_name := node_name n;
     relation := match via_of e with Some _ => as_str kind +:+ "_via_wrapper" | None => as_str kind end;
     source_node_id := Some src_id; member_path := Some (forward_path n); member_via := via_of e |}.
Definition callee_item (src_name : string) (n : Node) (text : string) (id : nat) : EvidenceItem :=
  {| evidence_id := "ev_x" +:+ show_u64 (N.of_nat id); document_id := None; document_namespace := None;
     source_verification := None; kind := GraphRelation; authority := CurrentCode; path := Some (forward_path n);
     lines := Some (start_line n, end_line n); symbol_id := Some (node_id n);
     title := Some (src_name +:+ " → " +:+ node_name n); content := text;
     Evidence.generation := Some (node_generation n); commit := None; timestamp := None; confidence := f32_lit 9 10;
     relevance := f32_lit 9 10; extraction_method := "exhaustive_callee"; warnings := []; provider := "callee_set";
     score := None; directness := Some (f32_lit 9 10) |}.

Section walk.
Context (p : string) (fs : FS) (project_dir : option FileSystem.path) (db : GraphDB).

(** One implementation of a dispatched call. *)
Definition serve (st : Walk * string) (imp : string) : Walk * string :=
  match get_node p imp db with
  | Ok (Some im) => (st.1, st.2 +:+ "; served by " +:+ node_name im +:+ " in " +:+ forward_path im)
  | Ok None => (count_dangling imp st.1, st.2)
  | Fail _ => (count_error st.1, st.2)
  end.
Definition dispatch (n : Node) (text : string) (w : Walk) : Walk * string :=
  match find_dispatch_targets p (node_name n) db with
  | Ok impls => foldl serve (if Nat.ltb 2 (length impls) then count_cut w else w, text) (take 2 impls)
  | Fail _ => (count_error w, text)
  end.
Definition with_body (n : Node) (text : string) : string :=
  match project_dir with
  | Some dir => match definition_body fs dir (forward_path n) (start_line n) (end_line n) with
                | Some body => text +:+ str1 LF +:+ body
                | None => text
                end
  | None => text
  end.
Definition record_callee (kind : EdgeKind) (src : string * string) (e : Edge) (n : Node) (w : Walk) : Walk :=
  let w := push_member (member_of kind src.1 e n) w in
  let text := call_text src.2 n (via_of e) in
  let '(w, text) := if bool_decide (kind = ApiCall) then dispatch n text w else (w, text) in
  push_item (callee_item src.2 n (with_body n text)) w.
Definition walk_edge (kind : EdgeKind) (src : string * string) (w : Walk) (e : Edge) : Walk :=
  let w := count_walked w in
  if bool_decide (target_id e ∈ walk_seen w) then w
  else
    let w := see (target_id e) w in
    match get_node p (target_id e) db with
    | Fail _ => count_error w
    | Ok None => count_dangling (target_id e) w
    | Ok (Some n) => if is_declaration n then w else record_callee kind src e n w
    end.
Definition walk_kind (neighbor_cap : nat) (src : string * string) (w : Walk) (kind : EdgeKind) : Walk :=
  match outgoing_edges_of_kind p kind src.1 neighbor_cap db with
  | Fail _ => count_error w
  | Ok (edges, cut) => foldl (walk_edge kind src) (if cut then count_cap w else w) edges
  end.
Definition walk_source (neighbor_cap : nat) (kinds : list EdgeKind) (w : Walk) (src : string * string) : Walk :=
  foldl (walk_kind neighbor_cap src) w kinds.
End walk.

(** ** The whole set *)

(** What follows the last slash. *)
Definition last_piece (sep : ascii) (s : string) : string := default s (last (split_char sep s)).
Definition file_source (norm : string) : string * string := ("file:" +:+ norm, last_piece SLASH norm).
Definition function_sources (source_cap : nat) (fns : list Node) : list (string * string) :=
  (λ f, (node_id f, node_name f)) <$> take source_cap fns.

Definition exhaustive_callee_set_with_caps (fs : FS) (db : GraphDB) (project_dir : option FileSystem.path)
    (p file_path : string) (kinds : list EdgeKind) (source_cap neighbor_cap id : nat)
  : list EvidenceItem * list AnswerMember * ArmCoverage * CoverageProof :=
  let norm := replace_char BACKSLASH SLASH file_path in
  let found := query_nodes p (Some "function") None (Some norm) (source_cap + 1) db in
  let fns := match found with Ok fns => fns | Fail _ => [] end in
  let sources := function_sources source_cap fns ++ [file_source norm] in
  let w := foldl (walk_source p fs project_dir db neighbor_cap kinds)
             (start_walk (match found with Ok _ => 0 | Fail _ => 1 end) id) sources in
  let proof :=
    {| sources_discovered := length fns; sources_processed := length sources - 1;
       source_cap_hit := Nat.ltb source_cap (length fns); edges_emitted := walked w; neighbor_cap_hits := cap_hits w;
       dangling_targets := dangling w; dangling_target_ids := dangling_ids w; dispatch_truncated := dispatch_cut w;
       graph_errors := errors w;
       proof_policy := "source_cap=" +:+ show_u64 (N.of_nat source_cap) +:+ " neighbor_cap="
                       +:+ show_u64 (N.of_nat neighbor_cap) +:+ " kinds=" +:+ show_u64 (N.of_nat (length kinds)) |} in
  (walk_items w, walk_members w,
   {| examined := walked w; available := Some (walked w); truncated := negb (complete proof) |}, proof).
Definition exhaustive_callee_set (fs : FS) (db : GraphDB) (project_dir : option FileSystem.path) (p file_path : string)
    (kinds : list EdgeKind) (id : nat) :=
  exhaustive_callee_set_with_caps fs db project_dir p file_path kinds 500 500 id.

End callees.

(** * Lemmas *)

Section lookups.
Context `{BC : !Bincode} `{LC : !Lowercase} `{JT : !JsonText} `{SB : !StrictBincode}.

(** The outgoing edges of a kind are those of the abstract graph; all of them,
    unless the limit cut them. *)
Lemma outgoing_edges_spec db g p k s limit :
  Refines db g → clean p → clean s →
  ∃ es cut, outgoing_edges_of_kind p k s limit db = Ok (es, cut) ∧
    (∀ e, e ∈ es → g !! (p, k, s, target_id e) = Some e) ∧
    (cut = false → ∀ t e, g !! (p, k, s, t) = Some e → e ∈ es ∧ target_id e = t).
Proof.
  intros HR Hp Hs.
  assert (Hrow : ∀ r v, (r, v) ∈ scan (edge_key p k s "") (EDGES db) ↔
    ∃ t e, g !! (p, k, s, t) = Some e ∧ r = edge_key p k s t ∧ v = edge_bytes e).
  { intros r v. rewrite elem_of_scan. split.
    - intros [Hpre Hv]. apply (ref_edges _ _ HR) in Hv as ([[[p' k'] s'] t] & e & He & -> & ->).
      destruct (ref_clean db g HR _ _ He) as (Hp' & Hs' & _). unfold raw_key, edge_key in Hpre.
      rewrite !starts_with_nul in Hpre by (done || apply as_str_clean). rewrite !andb_true_iff, !bool_decide_eq_true in Hpre.
      destruct Hpre as (-> & ->%as_str_inj & -> & _). eauto.
    - intros (t & e & He & -> & ->). split.
      2: { apply (ref_edges _ _ HR). by exists (p, k, s, t), e. }
      + unfold edge_key. rewrite !starts_with_nul by (done || apply as_str_clean).
        by rewrite starts_with_empty, !bool_decide_eq_true_2. }
  destruct (result_traverse_total (λ kv : string * bytes, edge_of_bytes kv.2) (scan (edge_key p k s "") (EDGES db))) as [out Hout].
  { intros [r v] (t & e & _ & _ & ->)%Hrow. exists e. apply edge_round_trip. }
  assert (Hmem : ∀ e, e ∈ out ↔ ∃ t, g !! (p, k, s, t) = Some e).
  { intros e. pose proof Hout as HF%result_traverse_Ok. split.
    - intros He. destruct (Forall2_elem_r _ _ _ _ HF He) as ([r v] & (t & e' & Hg & _ & ->)%Hrow & Hd).
      cbn [snd] in Hd. rewrite edge_round_trip in Hd. injection Hd as ->. eauto.
    - intros (t & Hg). assert (Hin : (edge_key p k s t, edge_bytes e) ∈ scan (edge_key p k s "") (EDGES db)) by (apply Hrow; eauto).
      destruct (Forall2_elem_l _ _ _ _ HF Hin) as (e' & He' & Hd). cbn [snd] in Hd. rewrite edge_round_trip in Hd.
      by injection Hd as ->. }
  assert (Hkey : ∀ t e, g !! (p, k, s, t) = Some e → target_id e = t).
  { intros t e Hg. destruct (ref_keys _ _ HR _ _ Hg) as (_ & _ & Hk). by injection Hk. }
  exists (heaviest_first weight limit out), (Nat.ltb limit (length out)). split_and!.
  - unfold outgoing_edges_of_kind, decode_edges. by rewrite Hout.
  - intros e He. destruct (heaviest_first_spec weight limit out) as (_ & _ & Hsub & _).
    apply Hsub, Hmem in He as [t Hg]. by rewrite (Hkey _ _ Hg).
  - intros Hcut%Nat.ltb_ge t e Hg. split; [| by apply Hkey]. unfold heaviest_first.
    rewrite take_ge by (by rewrite (Permutation_length (stable_sort_perm _ _))). rewrite stable_sort_perm. apply Hmem. eauto.
Qed.

(** A query that did not meet its limit has read the whole project. *)
Lemma query_rows_under_limit keep limit rows l found :
  query_rows keep limit found rows = Ok l → found + length l < limit →
  ∃ ns, result_traverse (λ kv : string * bytes, node_of_bytes kv.2) rows = Ok ns ∧ l = filter (λ n, keep n = true) ns.
Proof.
  revert found l. induction rows as [|[r v] rows IH]; intros found l; cbn [query_rows result_traverse snd].
  { intros [= <-] _. by exists []. }
  intros (n & Hn & H)%result_bind_Ok Hlen. rewrite Hn. cbn [mbind result_bind].
  destruct (keep n) eqn:Hk.
  - destruct (Nat.leb_spec limit (S found)); [injection H as <-; cbn in Hlen; lia |].
    apply result_bind_Ok in H as (more & Hm & [= <-]). destruct (IH (S found) more Hm) as (ns & -> & ->); [cbn in Hlen; lia |].
    exists (n :: ns). split; [done |]. by rewrite filter_cons, decide_True.
  - destruct (IH found l H Hlen) as (ns & -> & ->). exists (n :: ns). split; [done |]. rewrite filter_cons, decide_False; [done |]. congruence.
Qed.
Lemma query_rows_sound keep limit rows l found n :
  query_rows keep limit found rows = Ok l → n ∈ l → keep n = true ∧ ∃ r v, (r, v) ∈ rows ∧ node_of_bytes v = Ok n.
Proof.
  revert found l. induction rows as [|[r v] rows IH]; intros found l; cbn [query_rows].
  { by intros [= <-] ?%elem_of_nil. }
  intros (m & Hm & H)%result_bind_Ok Hin. destruct (keep m) eqn:Hk.
  - destruct (Nat.leb limit (S found)).
    + injection H as <-. apply list_elem_of_singleton in Hin as ->. split; [done |]. exists r, v. split; [left | done].
    + apply result_bind_Ok in H as (more & Hmore & [= <-]). apply elem_of_cons in Hin as [-> | Hin].
      { split; [done |]. exists r, v. split; [left | done]. }
      destruct (IH _ _ Hmore Hin) as (? & r' & v' & ? & ?). split; [done |]. exists r', v'. split; [by right | done].
  - destruct (IH _ _ H Hin) as (? & r' & v' & ? & ?). split; [done |]. exists r', v'. split; [by right | done].
Qed.

End lookups.

(** ** What a walk has found *)

Notation Visit := (EdgeKind * (string * string) * Edge)%type.
Definition lost (w : Walk) : nat := cap_hits w + dangling w + dispatch_cut w + errors w.

Section walk_spec.
Context `{BC : !Bincode} `{LC : !Lowercase} `{JT : !JsonText}.
Context (p : string) (fs : FS) (project_dir : option FileSystem.path) (db : GraphDB).

(** Only the counters of what was skipped have moved. *)
Record Skipping (w w' : Walk) : Prop := {
  sk_members : walk_members w' = walk_members w;
  sk_seen : walk_seen w' = walk_seen w;
  sk_walked : walked w' = walked w;
  sk_items : walk_items w' = walk_items w;
  sk_lost : lost w <= lost w';
}.
Lemma skipping_trans w1 w2 w3 : Skipping w1 w2 → Skipping w2 w3 → Skipping w1 w3.
Proof. intros [] []. split; congruence || lia. Qed.
Lemma skipping_refl w : Skipping w w. Proof. by split. Qed.
Lemma skipping_error w : Skipping w (count_error w). Proof. split; try done. unfold lost. cbn. lia. Qed.
Lemma skipping_cap w : Skipping w (count_cap w). Proof. split; try done. unfold lost. cbn. lia. Qed.
Lemma skipping_cut w : Skipping w (count_cut w). Proof. split; try done. unfold lost. cbn. lia. Qed.
Lemma skipping_dangling t w : Skipping w (count_dangling t w). Proof. split; try done. unfold lost. cbn. lia. Qed.

Lemma serve_skips st imp : Skipping st.1 (serve p db st imp).1.
Proof.
  unfold serve. destruct (get_node p imp db) as [[im|]|]; [apply skipping_refl | apply skipping_dangling | apply skipping_error].
Qed.
Lemma dispatch_skips n text w : Skipping w (dispatch p db n text w).1.
Proof.
  unfold dispatch. destruct (find_dispatch_targets _ _ _) as [impls|]; [| apply skipping_error].
  set (w0 := if Nat.ltb 2 (length impls) then count_cut w else w).
  assert (H0 : Skipping w w0) by (unfold w0; case_match; [apply skipping_cut | apply skipping_refl]). clearbody w0.
  revert w0 H0 text. induction (take 2 impls) as [|i l IH]; intros w0 H0 text; [done |]. cbn [foldl].
  destruct (serve p db (w0, text) i) as [w1 text1] eqn:E. apply IH.
  pose proof (serve_skips (w0, text) i) as H1. rewrite E in H1. by eapply skipping_trans.
Qed.

Lemma record_callee_spec kind src e n w :
  let w' := record_callee p fs project_dir db kind src e n w in
  walk_members w' = walk_members w ++ [member_of kind src.1 e n] ∧ walk_seen w' = walk_seen w ∧
  walked w' = walked w ∧ length (walk_items w') = S (length (walk_items w)) ∧ lost w <= lost w'.
Proof.
  unfold record_callee. set (w0 := push_member _ w). set (text := call_text _ _ _).
  assert (∃ w1 t, (if bool_decide (kind = ApiCall) then dispatch p db n text w0 else (w0, text)) = (w1, t) ∧ Skipping w0 w1)
    as (w1 & t & -> & [Hm Hs Hw Hi Hl]).
  { case_bool_decide; [| by exists w0, text]. pose proof (dispatch_skips n text w0) as Hsk.
    destruct (dispatch p db n text w0) as [w1 t]. eauto. }
  cbn. rewrite length_app, Hm, Hs, Hw, Hi. split_and!; try done. cbn. lia.
Qed.

(** What the visited edges leave: each target once, as a member unless it is
    not found or declares types only. *)
Definition found_as (f : Visit * Node) : AnswerMember := member_of f.1.1.1 f.1.1.2.1 f.1.2 f.2.
Definition found_target (f : Visit * Node) : string := target_id f.1.2.
Record Visited (V : list Visit) (w : Walk) (firsts : list (Visit * Node)) : Prop := {
  v_count : walked w = length V;
  v_seen : ∀ t, t ∈ walk_seen w ↔ ∃ x : Visit, x ∈ V ∧ target_id x.2 = t;
  v_nodes : lost w = 0 → ∀ t, t ∈ walk_seen w → ∃ n, get_node p t db = Ok (Some n);
  v_items : length (walk_items w) = length (walk_members w);
  v_members : walk_members w = found_as <$> firsts;
  v_firsts : ∀ f, f ∈ firsts → f.1 ∈ V ∧ get_node p (found_target f) db = Ok (Some f.2) ∧ is_declaration f.2 = false;
  v_once : NoDup (found_target <$> firsts);
  v_all : ∀ t n, t ∈ walk_seen w → get_node p t db = Ok (Some n) → is_declaration n = false → t ∈ found_target <$> firsts;
}.

(** The next edge. Either its target was seen, or it gives no member, or it
    gives one. *)
Lemma visited_snoc V w firsts (x : Visit) w' new :
  Visited V w firsts →
  walked w' = S (walked w) → walk_seen w' = {[target_id x.2]} ∪ walk_seen w →
  length (walk_items w') = length (walk_items w) + length new → walk_members w' = walk_members w ++ (found_as <$> new) →
  lost w <= lost w' → (lost w' = 0 → ∃ n, get_node p (target_id x.2) db = Ok (Some n)) →
  (∀ f, f ∈ new → f.1 = x ∧ get_node p (target_id x.2) db = Ok (Some f.2) ∧ is_declaration f.2 = false ∧
     target_id x.2 ∉ walk_seen w) → length new <= 1 →
  (∀ n, get_node p (target_id x.2) db = Ok (Some n) → is_declaration n = false →
     target_id x.2 ∈ walk_seen w ∨ new ≠ []) →
  Visited (V ++ [x]) w' (firsts ++ new).
Proof.
  intros [Hc Hs Hn Hi Hm Hf Ho Ha] Hc' Hs' Hi' Hm' Hl Hn' Hnew Hone Hall.
  assert (Hseen : ∀ f, f ∈ firsts → found_target f ∈ walk_seen w).
  { intros f Hin. apply Hs. exists f.1. by destruct (Hf f Hin). }
  split.
  - rewrite Hc', Hc, length_app. cbn. lia.
  - intros t. rewrite Hs', elem_of_union, elem_of_singleton, Hs. split.
    + intros [-> | (y & Hy & <-)]; [exists x | exists y]; set_solver.
    + intros (y & [Hy | ->%list_elem_of_singleton]%elem_of_app & <-); [right; eauto | by left].
  - intros H0 t. rewrite Hs', elem_of_union, elem_of_singleton. intros [-> | Ht]; [by apply Hn' |]. apply Hn; [lia | done].
  - rewrite Hi', Hi, Hm', length_app, length_fmap. done.
  - by rewrite Hm', Hm, fmap_app.
  - intros f [Hin | Hin]%elem_of_app.
    + destruct (Hf f Hin) as (? & ? & ?). split_and!; [set_solver | done | done].
    + destruct (Hnew f Hin) as (Hx & Hg & Hd & _). unfold found_target. rewrite Hx. split_and!; [set_solver | done | done].
  - rewrite fmap_app. apply NoDup_app. split_and!; [done | | destruct new as [|a [|b l]]; [constructor | apply NoDup_singleton | cbn in Hone; lia]].
    intros t (f & -> & Hin)%list_elem_of_fmap (f' & Ht & Hin')%list_elem_of_fmap.
    destruct (Hnew f' Hin') as (Hx & _ & _ & Hns). apply Hns. unfold found_target in Ht. rewrite Hx in Ht. rewrite <-Ht.
    by apply Hseen.
  - intros t n. rewrite Hs', elem_of_union, elem_of_singleton, fmap_app, elem_of_app. intros Ht Hg Hd.
    assert (Hold : t ∈ walk_seen w → t ∈ found_target <$> firsts) by (intros; by apply (Ha t n)).
    destruct Ht as [-> | Ht]; [| by left; apply Hold]. destruct (Hall n Hg Hd) as [Ht | Hne]; [by left; apply Hold | right].
    destruct new as [|f l]; [done |]. apply list_elem_of_fmap. exists f. split; [| left].
    unfold found_target. by destruct (Hnew f) as (-> & _); [left |].
Qed.

Lemma walk_edge_visits V w firsts kind src e :
  Visited V w firsts →
  ∃ new, Visited (V ++ [(kind, src, e)]) (walk_edge p fs project_dir db kind src w e) (firsts ++ new) ∧
    lost w <= lost (walk_edge p fs project_dir db kind src w e).
Proof.
  intros HV. unfold walk_edge. cbn [walk_seen count_walked].
  assert (Hlost : lost (count_walked w) = lost w) by done.
  destruct (bool_decide_reflect (target_id e ∈ walk_seen w)) as [Hin | Hnin].
  - exists []. split; [| done].
    eapply visited_snoc; try exact HV; cbn; rewrite ?app_nil_r; try done; try lia; [set_solver | | by intros f ?%elem_of_nil | by left].
    intros H0. by apply (v_nodes _ _ _ HV).
  - destruct (get_node p (target_id e) db) as [[n|]|er] eqn:Hg.
    2: { exists []. split; [| unfold lost; cbn; lia].
         eapply visited_snoc; try exact HV; cbn; rewrite ?app_nil_r; try done; try (unfold lost; cbn; lia); [by intros f ?%elem_of_nil | by rewrite Hg]. }
    2: { exists []. split; [| unfold lost; cbn; lia].
         eapply visited_snoc; try exact HV; cbn; rewrite ?app_nil_r; try done; try (unfold lost; cbn; lia); [by intros f ?%elem_of_nil | by rewrite Hg]. }
    destruct (is_declaration n) eqn:Hd.
    + exists []. split; [| done].
      eapply visited_snoc; try exact HV; cbn; rewrite ?app_nil_r; try done; try lia; [eauto | by intros f ?%elem_of_nil |].
      intros m Hm Hdm. rewrite Hg in Hm. injection Hm as <-. congruence.
    + pose proof (record_callee_spec kind src e n (see (target_id e) (count_walked w))) as (Hm & Hs & Hw & Hi & Hl).
      exists [((kind, src, e), n)]. split; [| exact Hl].
      eapply visited_snoc; try exact HV; cbn [length fst snd fmap list_fmap]; rewrite ?Hm, ?Hs, ?Hw, ?Hi; try done; try (cbn; lia); [eauto | | by right].
      intros f ->%list_elem_of_singleton. done.
Qed.

Lemma visited_skip V w firsts w' : Visited V w firsts → Skipping w w' → Visited V w' firsts.
Proof.
  intros [] [Hm Hs Hw Hi Hl]. split; rewrite ?Hm, ?Hs, ?Hw, ?Hi; try done.
  intros H0. apply v_nodes0. lia.
Qed.

Lemma walk_edges_visits kind src es V w firsts :
  Visited V w firsts →
  let w' := foldl (walk_edge p fs project_dir db kind src) w es in
  ∃ new, Visited (V ++ (pair (kind, src) <$> es)) w' (firsts ++ new) ∧ lost w <= lost w'.
Proof.
  revert V w firsts. induction es as [|e es IH]; intros V w firsts HV; cbn [foldl fmap list_fmap] in *.
  { exists []. by rewrite !app_nil_r. }
  destruct (walk_edge_visits V w firsts kind src e HV) as (new & HV' & Hl).
  destruct (IH _ _ _ HV') as (new' & HV'' & Hl'). exists (new ++ new').
  split; [| lia]. rewrite (app_assoc firsts). rewrite (cons_middle _ V). by rewrite app_assoc.
Qed.

Context (g : AGraph) (HR : Refines db g) (Hp : clean p) (neighbor_cap : nat).

(** Edges of the graph, from the sources along the kinds; and all of them. *)
Definition genuine (srcs : list (string * string)) (kinds : list EdgeKind) (x : Visit) : Prop :=
  x.1.2 ∈ srcs ∧ x.1.1 ∈ kinds ∧ g !! (p, x.1.1, x.1.2.1, target_id x.2) = Some x.2.
Definition exhaust (srcs : list (string * string)) (kinds : list EdgeKind) (V : list Visit) : Prop :=
  ∀ src k t e, src ∈ srcs → k ∈ kinds → g !! (p, k, src.1, t) = Some e → (k, src, e) ∈ V ∧ target_id e = t.
(** A part of the walk visits [V'] more. *)
Definition advances (srcs : list (string * string)) (kinds : list EdgeKind) (w w' : Walk) : Prop :=
  ∀ V firsts, Visited V w firsts → ∃ V' new, Visited (V ++ V') w' (firsts ++ new) ∧ lost w <= lost w' ∧
    (∀ x, x ∈ V' → genuine srcs kinds x) ∧ (lost w' = 0 → exhaust srcs kinds V').

Lemma walk_kind_advances w kind src :
  clean src.1 → advances [src] [kind] w (walk_kind p fs project_dir db neighbor_cap src w kind).
Proof using HR Hp.
  intros Hc V firsts HV. unfold walk_kind.
  destruct (outgoing_edges_spec db g p kind src.1 neighbor_cap HR Hp Hc) as (es & cut & -> & Hsound & Hall).
  set (w0 := if cut then count_cap w else w).
  assert (Hsk : Skipping w w0) by (unfold w0; destruct cut; [apply skipping_cap | apply skipping_refl]).
  destruct (walk_edges_visits kind src es V w0 firsts (visited_skip _ _ _ _ HV Hsk)) as (new & HV' & Hl).
  exists (pair (kind, src) <$> es), new. split_and!; [exact HV' | destruct Hsk; lia | |].
  - intros x (e & -> & He)%list_elem_of_fmap. split_and!; [left | left | by apply Hsound].
  - intros H0 src' k t e ->%list_elem_of_singleton ->%list_elem_of_singleton Hg.
    destruct cut. { assert (lost w0 = S (lost w)) by (unfold w0, lost; cbn; lia). lia. }
    destruct (Hall eq_refl t e Hg) as [He Ht]. split; [| done]. apply list_elem_of_fmap. eauto.
Qed.

Lemma advances_foldl {A} (step : Walk → A → Walk) (part : A → list (string * string) * list EdgeKind)
    (srcs : list (string * string)) (kinds : list EdgeKind) l :
  (∀ w a, a ∈ l → advances (part a).1 (part a).2 w (step w a)) →
  (∀ a s k, a ∈ l → s ∈ (part a).1 → k ∈ (part a).2 → s ∈ srcs ∧ k ∈ kinds) →
  (∀ s k, s ∈ srcs → k ∈ kinds → ∃ a, a ∈ l ∧ s ∈ (part a).1 ∧ k ∈ (part a).2) →
  ∀ w, advances srcs kinds w (foldl step w l).
Proof.
  intros Hstep Hin Hout w V firsts HV.
  enough (∃ V' new, Visited (V ++ V') (foldl step w l) (firsts ++ new) ∧ lost w <= lost (foldl step w l) ∧
    (∀ x, x ∈ V' → genuine srcs kinds x) ∧
    (lost (foldl step w l) = 0 → ∀ a, a ∈ l → exhaust (part a).1 (part a).2 V')) as (V' & new & HV' & Hl & Hg & He).
  { exists V', new. split_and!; try done. intros H0 s k t e Hs Hk. destruct (Hout s k Hs Hk) as (a & Ha & Hs' & Hk').
    by apply (He H0 a Ha). }
  clear Hout. revert w V firsts HV. induction l as [|a l IH]; intros w V firsts HV; cbn [foldl].
  { exists [], []. rewrite !app_nil_r. split_and!; [done | done | by intros x ?%elem_of_nil | by intros _ a ?%elem_of_nil]. }
  destruct (Hstep w a ltac:(left) V firsts HV) as (V1 & new1 & HV1 & Hl1 & Hg1 & He1).
  destruct (IH ltac:(intros; apply Hstep; by right) ltac:(intros; eapply Hin; [by right | done | done]) _ _ _ HV1)
    as (V2 & new2 & HV2 & Hl2 & Hg2 & He2).
  exists (V1 ++ V2), (new1 ++ new2). rewrite !app_assoc. split_and!; [done | lia | |].
  - intros x [Hx | Hx]%elem_of_app; [| by apply Hg2]. destruct (Hg1 x Hx) as (Hs & Hk & Hgx).
    destruct (Hin a x.1.2 x.1.1 ltac:(left) Hs Hk) as [? ?]. by split_and!.
  - intros H0 a' [-> | Ha']%elem_of_cons s k t e Hs Hk Hgt.
    + destruct (He1 ltac:(lia) s k t e Hs Hk Hgt). split; [set_solver | done].
    + destruct (He2 H0 a' Ha' s k t e Hs Hk Hgt). split; [set_solver | done].
Qed.

Lemma walk_advances kinds srcs w :
  (∀ s, s ∈ srcs → clean s.1) →
  advances srcs kinds w (foldl (walk_source p fs project_dir db neighbor_cap kinds) w srcs).
Proof using HR Hp.
  intros Hc. apply (advances_foldl _ (λ src, ([src], kinds))); [| cbn; set_solver | intros s k ? ?; exists s; cbn; set_solver].
  intros w' src Hsrc. cbn [fst snd]. unfold walk_source.
  apply (advances_foldl _ (λ k, ([src], [k]))); [| cbn; set_solver | intros s k ? ?; exists k; cbn; set_solver].
  intros w'' k _. apply walk_kind_advances, Hc, Hsrc.
Qed.

End walk_spec.

(** ** Sources and callees *)

Section callees_spec.
Context `{BC : !Bincode} `{LC : !Lowercase} `{JT : !JsonText}.
Context (p : string) (db : GraphDB).

(** Nodes are stored under their own ids, and those can be keys. *)
Definition sound_nodes : Prop :=
  (∀ id n, get_node p id db = Ok (Some n) → node_id n = id) ∧
  ∀ r v n, (r, v) ∈ scan (nul p "") (NODES db) → node_of_bytes v = Ok n → clean (node_id n).
(** The functions whose path contains the given one, and the file itself. *)
Definition is_source (norm s : string) : Prop :=
  s = "file:" +:+ norm ∨
  ∃ r v n, (r, v) ∈ scan (nul p "") (NODES db) ∧ node_of_bytes v = Ok n ∧
    node_matches (Some "function") None (Some norm) Substring n = true ∧ node_id n = s.
Definition is_callee (g : AGraph) (norm : string) (kinds : list EdgeKind) (t : string) : Prop :=
  ∃ s k e, is_source norm s ∧ k ∈ kinds ∧ g !! (p, k, s, t) = Some e.

Lemma clean_norm file : clean file → clean (replace_char BACKSLASH SLASH file).
Proof.
  unfold clean, replace_char, contains_char, string_existsb. rewrite !negb_false_iff.
  induction file as [|a s IH]; [done |]. cbn [string_map string_forallb].
  rewrite !andb_true_iff. intros [Ha Hs]. split; [| by apply IH]. by destruct (Ascii.eqb a BACKSLASH).
Qed.

(** What is known of the functions that were asked for. *)
Lemma function_sources_spec norm cap fns :
  query_nodes p (Some "function") None (Some norm) (cap + 1) db = Ok fns →
  (∀ src, src ∈ function_sources cap fns → is_source norm src.1) ∧
  (length fns <= cap → ∀ s, is_source norm s → ∃ src, src ∈ function_sources cap fns ++ [file_source norm] ∧ src.1 = s).
Proof.
  intros Hq. unfold query_nodes, query_nodes_with_path_match in Hq. split.
  - intros src (n & -> & (i & Hi & _)%elem_of_take)%list_elem_of_fmap. right. cbn [fst].
    destruct (query_rows_sound _ _ _ _ _ n Hq) as (Hk & r & v & Hin & Hd); [by eapply list_elem_of_lookup_2 |].
    by exists r, v, n.
  - intros Hcap s [-> | (r & v & n & Hin & Hd & Hk & <-)].
    { exists (file_source norm). split; [set_solver | done]. }
    apply query_rows_under_limit in Hq as (ns & Hns & ->); [| lia]. apply result_traverse_Ok in Hns.
    destruct (Forall2_elem_l _ _ _ _ Hns Hin) as (n' & Hn' & Hd'). cbn [snd] in Hd'. rewrite Hd in Hd'. injection Hd' as <-.
    exists (node_id n, node_name n). split; [| done]. apply elem_of_app. left. unfold function_sources.
    rewrite take_ge by done. apply list_elem_of_fmap. exists n. split; [done |]. by apply list_elem_of_filter.
Qed.

Lemma sources_clean norm cap fns src :
  sound_nodes → clean norm → query_nodes p (Some "function") None (Some norm) (cap + 1) db = Ok fns →
  src ∈ function_sources cap fns ++ [file_source norm] → clean src.1.
Proof.
  intros [_ Hc] Hn Hq [Hin | ->%list_elem_of_singleton]%elem_of_app.
  - destruct (proj1 (function_sources_spec norm cap fns Hq) src Hin) as [-> | (r & v & n & Hr & Hd & _ & <-)]; [done |].
    by apply (Hc r v).
  - done.
Qed.

(** What a walk from such sources has found. *)
Lemma callees_of_walk g norm kinds srcs V w firsts :
  (∀ id n, get_node p id db = Ok (Some n) → node_id n = id) → Refines db g →
  Visited p db V w firsts → (∀ x, x ∈ V → genuine p g srcs kinds x) → (∀ src, src ∈ srcs → is_source norm src.1) →
  NoDup (target_node_id <$> walk_members w) ∧
  (∀ m, m ∈ walk_members w → ∃ s k e n, is_source norm s ∧ k ∈ kinds ∧ g !! (p, k, s, node_id n) = Some e ∧
     get_node p (node_id n) db = Ok (Some n) ∧ is_declaration n = false ∧ m = member_of k s e n) ∧
  (lost w = 0 → exhaust p g srcs kinds V → (∀ s, is_source norm s → ∃ src, src ∈ srcs ∧ src.1 = s) →
     (∀ t, is_callee g norm kinds t → ∃ n, get_node p t db = Ok (Some n)) ∧
     ∀ t, t ∈ target_node_id <$> walk_members w ↔
       is_callee g norm kinds t ∧ ∃ n, get_node p t db = Ok (Some n) ∧ is_declaration n = false).
Proof.
  intros Hkey HR HV Hgen Hsrc.
  assert (Hid : ∀ f, f ∈ firsts → node_id f.2 = found_target f).
  { intros f Hf. by apply Hkey, (v_firsts _ _ _ _ _ HV). }
  assert (Hids : target_node_id <$> walk_members w = found_target <$> firsts).
  { rewrite (v_members _ _ _ _ _ HV), <-list_fmap_compose. apply list_fmap_ext. intros i f Hf%list_elem_of_lookup_2.
    cbn. by apply Hid. }
  assert (Hfirst : ∀ f, f ∈ firsts → is_source norm f.1.1.2.1 ∧ f.1.1.1 ∈ kinds ∧
    g !! (p, f.1.1.1, f.1.1.2.1, found_target f) = Some f.1.2).
  { intros f Hf. destruct (v_firsts _ _ _ _ _ HV f Hf) as (Hin & _). destruct (Hgen _ Hin) as (Hs & Hk & Hg).
    split_and!; [by apply Hsrc | done | done]. }
  rewrite Hids. split_and!; [apply (v_once _ _ _ _ _ HV) | |].
  - rewrite (v_members _ _ _ _ _ HV). intros m (f & -> & Hf)%list_elem_of_fmap.
    destruct (Hfirst f Hf) as (Hs & Hk & Hg), (v_firsts _ _ _ _ _ HV f Hf) as (_ & Hn & Hd).
    exists f.1.1.2.1, f.1.1.1, f.1.2, f.2. by rewrite (Hid f Hf).
  - intros Hlost Hexh Hall.
    assert (Hseen : ∀ t, is_callee g norm kinds t → t ∈ walk_seen w).
    { intros t (s & k & e & Hs & Hk & Hg). destruct (Hall s Hs) as (src & Hin & <-).
      destruct (Hexh src k t e Hin Hk Hg) as [HinV Ht]. apply (v_seen _ _ _ _ _ HV). eauto. }
    split; [intros t Ht; by apply (v_nodes _ _ _ _ _ HV), Hseen |].
    intros t. split.
    + intros (f & -> & Hf)%list_elem_of_fmap. destruct (Hfirst f Hf) as (Hs & Hk & Hg), (v_firsts _ _ _ _ _ HV f Hf) as (_ & Hn & Hd).
      split; [by exists f.1.1.2.1, f.1.1.1, f.1.2 | eauto].
    + intros [Ht (n & Hn & Hd)]. by apply (v_all _ _ _ _ _ HV t n); [apply Hseen | |].
Qed.

End callees_spec.

Lemma complete_counts c : complete c = true ↔
  source_cap_hit c = false ∧ neighbor_cap_hits c = 0 ∧ dangling_targets c = 0 ∧ graph_errors c = 0 ∧
  dispatch_truncated c = 0 ∧ sources_discovered c <= sources_processed c.
Proof.
  unfold complete. rewrite !andb_true_iff, negb_true_iff, !Nat.eqb_eq, Nat.leb_le. tauto.
Qed.

(** * Theorems *)

Section theorems.
Context `{BC : !Bincode} `{LC : !Lowercase} `{JT : !JsonText}.


End theorems.
