(* ===== verification/AskReport.v ===== *)
(** [engram_server::services::ask_engine::report] and the end of
    [handlers::ask_tools]: the gaps, the next steps and the text of a report,
    and how the handler makes a report from what the retrieval returned. *)
From S2P Require Import Prelude Text Unicode FileSystem SafePath Store Namespaces F64 Graph GraphRows GraphSpec GraphRefine GraphQuery Resolve Evidence Ranking Status CalleeSet.

#[local] Open Scope nat_scope.

(** * Definitions *)

Record AskReport := {
  question : string;
  plan : QueryPlan;
  status : AnswerStatus;
  report_mode : string;
  evidence : list EvidenceItem;
  conflicts : list Conflict;
  unknowns : list string;
  next_steps : list string;
  snapshot : FreshnessSnapshot;
  providers : list ProviderReport;
  answer_members : list AnswerMember;
}.

(** ** Texts *)

Definition show_nat (n : nat) : string := show_u64 (N.of_nat n).
Definition operation_label (op : BehaviorOperation) : string :=
  match op with
  | CreateOp => "create" | RenameOp => "rename" | UpdateOp => "update" | RemoveOp => "remove" | ReadOp => "read"
  | ValidateOp => "validate/enforce constraints"
  end.
Definition modality_label (m : Modality) : string :=
  match m with
  | Sql => "SQL schema (.sql/.dbml)" | Report => "report (.rdl)" | Resource => "resource (.resx)"
  | Markup => "page markup (.aspx/.ascx)" | Script => "script (.ts/.js)"
  end.
Definition kind_label (k : EvidenceKind) : string :=
  match k with
  | SourceCode => "source-code" | DocSection => "documentation" | MemoryNote => "memory-note" | Insight => "insight"
  | BusinessRule => "business-rule" | HistoryCommit => "history" | GraphRelation => "graph-relation"
  | ConceptGroup => "concept" | TestRef => "test" | Setting => "setting"
  end.
Definition authority_label (a : Authority) : string :=
  match a with
  | RuntimeEvidence => "runtime" | CurrentCode => "current_code" | ApprovedRequirement => "requirement"
  | CurrentDocs => "docs" | MergedHistory => "history" | DerivedBusinessLogic => "business_logic"
  | AgentMemory => "memory" | DreamerInsight => "insight" | SemanticSimilarity => "similar"
  end.
Definition intent_debug (i : Intent) : string :=
  match i with
  | Explain => "Explain" | Impact => "Impact" | Usage => "Usage" | History => "History" | Rationale => "Rationale"
  | Feature => "Feature" | BugDiagnosis => "BugDiagnosis" | Requirements => "Requirements" | Compare => "Compare"
  | TestIntent => "Test" | Unknowns => "Unknowns"
  end.
Definition status_debug (s : AnswerStatus) : string :=
  match s with
  | Answered => "Answered" | Partial => "Partial" | Ambiguous => "Ambiguous" | Stale => "Stale"
  | Unsupported => "Unsupported" | Failed => "Failed"
  end.
Definition provider_status_debug (s : ProviderStatus) : string :=
  match s with
  | ProviderHit => "Hit" | ProviderEmpty => "Empty" | ProviderStale => "Stale" | ProviderAmbiguous => "Ambiguous"
  | ProviderMisunderstood => "Misunderstood" | ProviderFailed => "Failed" | ProviderAbsent => "Absent"
  | ProviderTimedOut => "TimedOut"
  end.
Definition status_reason (s : AnswerStatus) : string :=
  match s with
  | Answered => "adequately-authoritative evidence found"
  | Partial => "some evidence, but coverage gaps remain"
  | Ambiguous => "an entity resolves to multiple candidates — disambiguate first"
  | Stale => "evidence is behind the current snapshot"
  | Unsupported => "no evidence of adequate authority was found — not asserting an answer"
  | Failed => "retrieval arms errored; results are incomplete"
  end.
Definition line (s : string) : string := s +:+ str1 LF.
Definition optional (f : string → string) (o : option string) : string := match o with Some s => f s | None => "" end.

Section report.
Context `{BC : !Bincode} `{LC : !Lowercase} `{JT : !JsonText} `{SB : !StrictBincode} `{AN : !Alphanumeric}.

(** ** Gaps and next steps *)

Definition behavior_gap (c : AnswerContract) : list string :=
  match behavior_requirements c with
  | [] => []
  | ops =>
      ["unverified behavior coverage: " +:+ join ", " (operation_label <$> ops)
       +:+ optional (λ s, " (" +:+ s +:+ ")") (behavior_scope_context c)
       +:+ "; retrieved evidence has not been verified for each requested operation and scope"]
  end.
Definition kind_gap (items : list EvidenceItem) (k : EvidenceKind) : list string :=
  if existsb (of_kind k) items then [] else ["no " +:+ kind_label k +:+ " evidence found"].
Definition modality_gap (items : list EvidenceItem) (m : Modality) : list string :=
  if of_any_modality m items then []
  else ["no " +:+ modality_label m +:+ " evidence although the question asks for it (looked for "
        +:+ join ", " (suffixes m) +:+ ")"].
Definition provider_gap (r : ProviderReport) : list string :=
  match report_status r with
  | ProviderFailed =>
      ["the " +:+ report_provider r +:+ " arm failed" +:+ optional (λ n, " (" +:+ n +:+ ")") (report_note r)]
  | ProviderTimedOut => ["the " +:+ report_provider r +:+ " arm timed out"]
  | _ => []
  end.
Definition coverage_gaps (pl : QueryPlan) (items : list EvidenceItem) (reports : list ProviderReport) : list string :=
  behavior_gap (contract pl) ++ (needed_evidence pl ≫= kind_gap items) ++ (modalities pl ≫= modality_gap items)
  ++ (reports ≫= provider_gap).

Definition ambiguity_step (e : EntityMention) : list string :=
  if Nat.ltb 1 (length (resolved e))
  then ["resolve_id(" +:+ QUOTE +:+ mention_text e +:+ QUOTE +:+ ") — ambiguous across "
        +:+ show_nat (length (resolved e)) +:+ " candidates"]
  else [].
Definition status_step (s : AnswerStatus) : list string :=
  match s with
  | Unsupported =>
      ["the index matched nothing — this may be an index miss, not genuine absence. grep_project (or read the files directly in the working tree) to confirm BEFORE concluding the code doesn't exist; do not answer "
       +:+ QUOTE +:+ "cannot determine" +:+ QUOTE +:+ " from an index miss. Also try search_memory with different terms."]
  | Stale =>
      ["the index is BEHIND the working tree — a stale lookup is a failed lookup, not an answer. grep_project / read the working tree for this query now, and update_project to refresh the index."]
  | Failed => ["a retrieval arm errored — grep_project as a fallback, and check get_index_freshness / project_health."]
  | _ => []
  end.
Definition next_best (pl : QueryPlan) (items : list EvidenceItem) (s : AnswerStatus) : list string :=
  (entities pl ≫= ambiguity_step) ++ status_step s ++
  match behavior_requirements (contract pl) with
  | _ :: _ =>
      ["For each requested operation and scope, use grep_project or search_memory to locate implementation symbols, then get_full_method_body to inspect their behavior and validation paths; names and keyword matches do not verify coverage."]
  | [] =>
      match head items ≫= Evidence.path with
      | Some f => ["get_chunk / get_full_method_body on " +:+ f +:+ " for the full text"]
      | None => []
      end
  end.

(** ** The text of a report *)

Definition entity_text (e : EntityMention) : string :=
  match resolved e with
  | [] => mention_text e +:+ "(?)"
  | l => mention_text e +:+ "→" +:+ show_nat (length l)
  end.
Definition snapshot_text (s : FreshnessSnapshot) : string :=
  "generation " +:+ match snapshot_generation s with Some g => "Some(" +:+ show_u64 g +:+ ")" | None => "None" end
  +:+ " · tier " +:+ semantic_tier s
  +:+ optional (λ c, " · commit " +:+ concat_text (take 10 (chars c))) (git_commit s)
  +:+ (if reindex_required s then " · REINDEX-REQUIRED" else "")
  +:+ (if incompatible s then " · SNAPSHOT-MISMATCH" else "").

Definition proofs (reports : list ProviderReport) : list CoverageProof := omap report_proof reports.
Definition sum_of (f : CoverageProof → nat) (l : list CoverageProof) : nat := foldr (λ c n, f c + n) 0 l.
Definition counted (n : nat) (text : string) : list string := if Nat.ltb 0 n then [show_nat n +:+ text] else [].
Definition incomplete_reasons (l : list CoverageProof) : list string :=
  (if existsb source_cap_hit l then ["source cap hit"] else [])
  ++ counted (sum_of neighbor_cap_hits l) " neighbor-cap hit(s)"
  ++ counted (sum_of dangling_targets l)
       (" dangling edge target(s) [" +:+ join ", " (take 5 (l ≫= dangling_target_ids)) +:+ "]")
  ++ counted (sum_of dispatch_truncated l) " dispatch expansion(s) truncated (served implementations dropped)"
  ++ counted (sum_of graph_errors l) " graph error(s)".
Definition member_line (m : AnswerMember) : string :=
  line ("- " +:+ display_name m +:+ " [" +:+ relation m +:+ "]" +:+ optional (λ f, " — " +:+ f) (member_path m)).
Definition members_text (r : AskReport) : string :=
  match answer_members r with
  | [] => ""
  | members =>
      let whole := forallb complete (proofs (providers r)) in
      str1 LF +:+ line ("## Answer members (" +:+ show_nat (length members) +:+ ", coverage "
                        +:+ (if whole then "complete" else "INCOMPLETE") +:+ ")")
      +:+ (if whole then ""
           else match incomplete_reasons (proofs (providers r)) with
                | [] => ""
                | reasons => line ("_incomplete because: " +:+ join "; " reasons +:+ "_")
                end)
      +:+ concat_text (member_line <$> members)
  end.

Definition location (e : EvidenceItem) : string :=
  match Evidence.path e, lines e with
  | Some f, Some (a, b) => f +:+ ":" +:+ show_u64 a +:+ "-" +:+ show_u64 b
  | Some f, None => f
  | None, _ => default (evidence_id e) (title e)
  end.
Definition snippet (e : EvidenceItem) : string :=
  let limit := if bool_decide (document_namespace e = Some "business_logic") then 1400 else 200 in
  let cs := chars (content e) in
  trim (replace_char LF " " (concat_text (take limit cs)
                             +:+ (if Nat.ltb limit (length cs) then " [excerpt shortened]" else ""))).
Definition evidence_lines (e : EvidenceItem) : string :=
  line ("- **[" +:+ authority_label (authority e) +:+ "]** " +:+ location e +:+ " _(via " +:+ provider e +:+ ", score "
        +:+ fixed 2 (default f32_zero (score e)) +:+ ")_")
  +:+ (if String.eqb (snippet e) "" then "" else line ("  " +:+ snippet e))
  +:+ optional (λ s, line ("  Source: " +:+ s)) (source_verification e)
  +:+ concat_text ((λ w, line ("  Warning: " +:+ w)) <$> filter (λ w, source_verification e ≠ Some w) (warnings e))
  +:+ match document_id e, document_namespace e with
      | Some id, Some ns =>
          line ("  Full evidence: get_chunk(doc_id=" +:+ QUOTE +:+ id +:+ QUOTE +:+ ", namespace=" +:+ QUOTE +:+ ns
                +:+ QUOTE +:+ ")")
      | _, _ => ""
      end.
Definition section_text (title : string) (l : list string) : string :=
  match l with [] => "" | _ => str1 LF +:+ line title +:+ concat_text ((λ s, line ("- " +:+ s)) <$> l) end.
Definition render_markdown (r : AskReport) : string :=
  line ("# ask_codebase — " +:+ report_mode r +:+ " report")
  +:+ str1 LF +:+ line ("**question:** " +:+ question r)
  +:+ line ("**understanding:** intents ["
            +:+ join ", " ((λ iw, intent_debug iw.1 +:+ "(" +:+ fixed 2 iw.2 +:+ ")") <$> intents (plan r)) +:+ "]")
  +:+ match entities (plan r) with
      | [] => ""
      | ents => line ("**entities:** " +:+ join ", " (entity_text <$> ents))
      end
  +:+ line ("**status:** " +:+ status_debug (status r) +:+ " — " +:+ status_reason (status r))
  +:+ line ("**snapshot:** " +:+ snapshot_text (snapshot r))
  +:+ members_text r
  +:+ str1 LF +:+ line "## Key evidence"
  +:+ match evidence r with [] => line "_(none of adequate authority)_" | _ => "" end
  +:+ concat_text (evidence_lines <$> evidence r)
  +:+ section_text "## Conflicts (shown, not resolved)"
        ((λ c, conflict_summary c +:+ " [" +:+ conflict_left c +:+ " vs " +:+ conflict_right c +:+ "]") <$> conflicts r)
  +:+ section_text "## Unknowns / coverage gaps" (unknowns r)
  +:+ section_text "## Next best investigation" (next_steps r)
  +:+ str1 LF
  +:+ line ("_providers: "
            +:+ join ", " ((λ pr, report_provider pr +:+ "(" +:+ provider_status_debug (report_status pr) +:+ ","
                                  +:+ show_nat (report_count pr) +:+ ")") <$> providers r) +:+ "_").

(** ** The end of the handler *)

Definition exhaustive_contract (c : AnswerContract) : bool :=
  bool_decide (direction c = Callees) && bool_decide (cardinality c = ExhaustiveSet).
(** The files the question names, by the nodes they resolved to. *)
Definition named_files (es : list EntityMention) : list string :=
  filter (λ e, guessed_kind e = FileEntity) es ≫= λ e, omap (λ r, entity_node_id r ≫= strip_prefix "file:") (resolved e).
Definition walked_kinds (q : string) : list EdgeKind :=
  if str_contains "api" (to_lowercase q) then [ApiCall] else [ApiCall; SqlCalls; Calls].

(** What the walk sees of the server. [joined] says that the blocking task did
    return; [has_view] that a source view is pinned. *)
Record Source := {
  source_fs : FS;
  source_db : GraphDB;
  source_dir : option FileSystem.path;
  has_view : bool;
  joined : bool;
}.
Definition empty_proof : CoverageProof :=
  {| sources_discovered := 0; sources_processed := 0; source_cap_hit := false; edges_emitted := 0;
     neighbor_cap_hits := 0; dangling_targets := 0; dangling_target_ids := []; dispatch_truncated := 0;
     graph_errors := 0; proof_policy := "" |}.
Definition callee_walk (src : Source) (p q file : string)
  : list EvidenceItem * list AnswerMember * ArmCoverage * CoverageProof :=
  if joined src then exhaustive_callee_set (source_fs src) (source_db src) (source_dir src) p file (walked_kinds q) 20000
  else ([], [], {| examined := 0; available := None; truncated := false |}, empty_proof).
Definition callee_report (set : list EvidenceItem) (cov : ArmCoverage) (proof : CoverageProof) : ProviderReport :=
  {| report_provider := "callee_set"; report_status := match set with [] => ProviderEmpty | _ => ProviderHit end;
     report_count := length set; report_note := None; report_examined := examined cov;
     report_available := available cov; report_truncated := truncated cov; report_proof := Some proof |}.
(** The pool, the reports and the members once the exhaustive arm has run. *)
Definition exhaustive_arm (src : Source) (p q : string) (pl : QueryPlan) (raw : list EvidenceItem)
    (reports : list ProviderReport) : list EvidenceItem * list ProviderReport * list AnswerMember :=
  match (if exhaustive_contract (contract pl) && has_view src then head (named_files (entities pl)) else None) with
  | None => (raw, reports, [])
  | Some file =>
      let '(set, members, cov, proof) := callee_walk src p q file in
      (raw ++ set, reports ++ [callee_report set cov proof], members)
  end.

Definition needles_of (es : list EntityMention) : list string :=
  let needles :=
    filter (λ s, (3 <= String.length s)%nat)
      (es ≫= λ e, ((λ r, to_lowercase (canonical r)) <$> resolved e) ++ [to_lowercase (mention_text e)]) in
  needles ++ omap (λ n, let base := last_piece SLASH (replace_char BACKSLASH SLASH n) in
                        let stem := default base (head (split_char "." base)) in
                        if Nat.leb 3 (String.length stem) && negb (String.eqb stem base) then Some stem else None) needles.
Definition resolved_terms (es : list EntityMention) : list string :=
  es ≫= λ e, match resolved e with [] => [] | l => mention_text e :: (canonical <$> l) end.
Definition select_evidence (LM : Libm) (now_ms : N) (q : string) (pl : QueryPlan) (d : Depth)
    (pool raw : list EvidenceItem) : list EvidenceItem :=
  let exhaustive := exhaustive_contract (contract pl) in
  let lcap := lookup_cap (entities pl) (intents pl) d in
  let chosen := rank_and_select_with_terms_exempt now_ms raw lcap (cooccurrence_terms (entities pl))
                  (if exhaustive then Some "callee_set" else None) in
  let used := length (filter (λ e, exhaustive && String.eqb (provider e) "callee_set" = false) chosen) in
  let '(items, prot) := reserve_required chosen pool pl q (lcap - used) in
  if Nat.ltb lcap (evidence_cap d) && negb exhaustive
  then retain_one_per_path prot (retain_entity_anchored (needles_of (entities pl)) prot items)
  else items.
Definition premise_gap (t : string) : string :=
  "no evidence mentions `" +:+ t +:+ "` — the question's premise may be false; do not assume it exists".
Definition assemble_report (LM : Libm) (now_ms : N) (src : Source) (p q : string) (pl : QueryPlan) (d : Depth)
    (generation : N) (found : list EvidenceItem) (reports : list ProviderReport) (snap : FreshnessSnapshot)
  : result AskReport :=
  let pool := retain_path_scoped (path_prefixes (qualifiers pl)) found in
  let '(raw, reports, members) := exhaustive_arm src p q pl pool reports in
  let items := select_evidence LM now_ms q pl d pool raw in
  cs ← detect_conflicts items generation;
  let known := resolved_terms (entities pl) in
  let st := assess_status pl items reports snap (has_adequate_support_with q items known) in
  Ok {| question := q; plan := pl; status := st; report_mode := "retrieval_only"; evidence := items; conflicts := cs;
        unknowns := (premise_gap <$> uncovered_named_terms_with q items known) ++ coverage_gaps pl items reports;
        next_steps := next_best pl items st; snapshot := snap; providers := reports; answer_members := members |}.

End report.

(** * Lemmas *)

Section spec.
Context `{BC : !Bincode} `{LC : !Lowercase} `{JT : !JsonText} `{AN : !Alphanumeric}.

Lemma coverage_is_honest fs db dir p file kinds cap ncap id :
  let x := exhaustive_callee_set_with_caps fs db dir p file kinds cap ncap id in
  truncated x.1.2 = negb (complete x.2).
Proof. reflexivity. Qed.

(** The report of the exhaustive arm says complete only of a complete walk. *)
Lemma exhaustive_arm_complete src p q pl raw reports raw' reports' members :
  exhaustive_arm src p q pl raw reports = (raw', reports', members) →
  (∀ r, r ∈ reports → report_provider r ≠ "callee_set") →
  (∃ r, r ∈ reports' ∧ callee_set_complete r = true) →
  ∃ file items cov proof, head (named_files (entities pl)) = Some file ∧ exhaustive_contract (contract pl) = true ∧
    has_view src = true ∧
    exhaustive_callee_set (source_fs src) (source_db src) (source_dir src) p file (walked_kinds q) 20000
      = (items, members, cov, proof) ∧
    items ≠ [] ∧ complete proof = true.
Proof.
  unfold exhaustive_arm. intros Harm Hold (r & Hr & Hc).
  assert (Hname : report_provider r = "callee_set").
  { unfold callee_set_complete in Hc. rewrite !andb_true_iff in Hc. destruct Hc as [[Hn _] _]. by apply String.eqb_eq in Hn. }
  destruct (exhaustive_contract (contract pl)) eqn:He, (has_view src) eqn:Hv; cbn [andb] in Harm.
  2-4: injection Harm as _ <- _; by destruct (Hold r Hr).
  destruct (head (named_files (entities pl))) as [file|] eqn:Hf; [| injection Harm as _ <- _; by destruct (Hold r Hr)].
  unfold callee_walk in Harm. destruct (joined src).
  2: { injection Harm as _ <- _. apply elem_of_app in Hr as [Hr | ->%list_elem_of_singleton]; [by destruct (Hold r Hr) | done]. }
  pose proof (coverage_is_honest (source_fs src) (source_db src) (source_dir src) p file (walked_kinds q) 500 500 20000) as Hcov.
  fold (exhaustive_callee_set (source_fs src) (source_db src) (source_dir src) p file (walked_kinds q) 20000) in Hcov.
  destruct (exhaustive_callee_set _ _ _ _ _ _ _) as [[[items ms] cov] proof] eqn:Hset. cbn [fst snd] in Hcov.
  injection Harm as _ <- <-. apply elem_of_app in Hr as [Hr | ->%list_elem_of_singleton]; [by destruct (Hold r Hr) |].
  unfold callee_set_complete, callee_report in Hc. cbn in Hc. rewrite Hcov, negb_involutive, andb_true_iff in Hc.
  destruct Hc as [Hlen Hcomp]. exists file, items, cov, proof. split_and!; try done. by destruct items.
Qed.

End spec.

(** * Theorems *)

Section theorems.
Context `{BC : !Bincode} `{LC : !Lowercase} `{JT : !JsonText} `{AN : !Alphanumeric}.

(** C21. A question that demands a complete set is answered only by the walk of the
    first file it names, with a source view, that found something and whose
    proof of coverage is complete; the members of the report are those of that
    walk. *)
Theorem answered_set_was_walked LM now_ms src p q pl d generation found reports snap r :
  assemble_report LM now_ms src p q pl d generation found reports snap = Ok r →
  (∀ rep, rep ∈ reports → report_provider rep ≠ "callee_set") →
  status r = Answered → completeness_required (contract pl) = true →
  exhaustive_contract (contract pl) = true ∧ has_view src = true ∧
  ∃ file items cov proof, head (named_files (entities pl)) = Some file ∧
    exhaustive_callee_set (source_fs src) (source_db src) (source_dir src) p file (walked_kinds q) 20000
      = (items, answer_members r, cov, proof) ∧ items ≠ [] ∧ complete proof = true.
Proof.
  unfold assemble_report. destruct (exhaustive_arm _ _ _ _ _ _) as [[raw' reports'] members] eqn:Harm.
  intros (cs & _ & [= <-])%result_bind_Ok Hold. cbn [status answer_members]. intros Hst Hcr.
  assert (Hr : ∃ rep, rep ∈ reports' ∧ callee_set_complete rep = true).
  { revert Hst. unfold assess_status. rewrite Hcr. repeat (case_match; try done);
      match goal with H : negb (existsb callee_set_complete reports') = false |- _ =>
        apply negb_false_iff, existsb_exists in H as (rep & Hin%list_elem_of_In & Hc); eauto end. }
  destruct (exhaustive_arm_complete _ _ _ _ _ _ _ _ _ Harm Hold Hr) as (file & items & cov & proof & ? & ? & ? & ? & ? & ?).
  split_and!; [done | done |]. by exists file, items, cov, proof.
Qed.

(** C25. A name the question takes for granted and nothing in the evidence mentions
    is pointed out, and no answer is given, not even in part. *)
Theorem false_premise_is_named LM now_ms src p q pl d generation found reports snap r t :
  assemble_report LM now_ms src p q pl d generation found reports snap = Ok r →
  premise q t →
  is_covered (evidence_haystack (evidence r) (resolved_terms (entities pl))) (evidence r) (to_lowercase t) = false →
  (∃ t', folded t' = folded t ∧ premise_gap t' ∈ unknowns r) ∧ status r ∈ [Failed; Ambiguous; Unsupported].
Proof.
  unfold assemble_report. destruct (exhaustive_arm _ _ _ _ _ _) as [[raw' reports'] members] eqn:Harm.
  intros (cs & _ & [= <-])%result_bind_Ok. cbn [evidence unknowns status].
  set (items := select_evidence _ _ _ _ _ _ _). set (known := resolved_terms _).
  intros (i & raw & Hi & <- & Hn) Hc.
  destruct (scan_found (evidence_haystack items known) items (split_whitespace q)) as [HF _].
  pose proof (found_all _ _ _ _ HF i raw Hi Hn Hc) as Hin.
  apply list_elem_of_fmap in Hin as (t' & Ht' & Hin). fold (uncovered_named_terms_with q items known) in Hin. split.
  - exists t'. split; [done |]. apply elem_of_app. left. apply list_elem_of_fmap. eauto.
  - unfold has_adequate_support_with. rewrite bool_decide_eq_false_2 by (intros E; rewrite E in Hin; by apply not_elem_of_nil in Hin).
    cbn [negb]. unfold assess_status. cbn [negb orb]. rewrite !elem_of_cons. repeat case_match; auto.
Qed.

(** The gaps of a report are exact: there is none only where no behavior was
    asked for, every kind of evidence and of file is there, and no arm failed. *)
Theorem gaps_are_exact pl items reports :
  coverage_gaps pl items reports = [] ↔
  behavior_requirements (contract pl) = [] ∧
  (∀ k, k ∈ needed_evidence pl → ∃ e, e ∈ items ∧ kind e = k) ∧
  (∀ m, m ∈ modalities pl → ∃ e f, e ∈ items ∧ Evidence.path e = Some f ∧ modality_matches m f = true) ∧
  (∀ rep, rep ∈ reports → report_status rep ≠ ProviderFailed ∧ report_status rep ≠ ProviderTimedOut).
Proof.
  assert (Hbind : ∀ {A} (f : A → list string) l, (l ≫= f) = [] ↔ ∀ x, x ∈ l → f x = []).
  { intros A f l. induction l as [|x l IH]; cbn.
    - split; [by intros _ x ?%elem_of_nil | done].
    - split; [intros [Hx Hl]%app_nil y [-> | Hy]%elem_of_cons; [done | by apply IH] |].
      intros H. rewrite (H x ltac:(left)). apply IH. intros y Hy. apply H. by right. }
  unfold coverage_gaps. rewrite !app_nil, !Hbind. unfold behavior_gap, kind_gap, modality_gap, provider_gap.
  assert (Hk : ∀ k, (if existsb (of_kind k) items then [] else ["no " +:+ kind_label k +:+ " evidence found"]) = [] ↔
    ∃ e, e ∈ items ∧ kind e = k).
  { intros k. split.
    - destruct (existsb _ items) eqn:E; [| done]. intros _. apply existsb_exists in E as (e & He%list_elem_of_In & Hke%bool_decide_eq_true). eauto.
    - intros (e & He & Hke). assert (existsb (of_kind k) items = true) as ->; [| done].
      apply existsb_exists. exists e. split; [by apply list_elem_of_In | by apply bool_decide_eq_true_2]. }
  setoid_rewrite Hk. split.
  - intros (Hb & Hkind & Hm & Hr). split_and!; [by destruct (behavior_requirements _) | done | |].
    + intros m Hin. specialize (Hm m Hin). destruct (of_any_modality m items) eqn:E; [| done].
      apply existsb_exists in E as (e & He%list_elem_of_In & Hp). destruct (Evidence.path e) as [f|] eqn:Hf; [| done]. eauto.
    + intros rep Hin. specialize (Hr rep Hin). by destruct (report_status rep).
  - intros (-> & Hkind & Hm & Hr). split_and!; [done | done | |].
    + intros m Hin. destruct (Hm m Hin) as (e & f & He & Hf & Hp). assert (of_any_modality m items = true) as ->; [| done].
      apply existsb_exists. exists e. rewrite Hf. split; [by apply list_elem_of_In | done].
    + intros rep Hin. destruct (Hr rep Hin). by destruct (report_status rep).
Qed.

End theorems.
