(* ===== verification/RankingWitnesses.v ===== *)
(** Concrete answers: a mathematical library that steps down, the tables of
    ASCII, and small evidence for the theorems on the ranking, the status of an
    answer and the callee set. *)
From S2P Require Import Prelude Text Unicode FileSystem SafePath Store Concrete Paths Namespaces F64 Graph GraphRows GraphSpec GraphRefine GraphQuery GraphWitnesses Resolve ResolveSpec FloatBounds Evidence Ranking RankingSpec Status Planner CalleeSet AskReport.

#[local] Open Scope nat_scope.

(** * Definitions *)

(** One up to the first half-life, the base after it. *)
Definition step_libm : Libm := {| powf b x := if f64_lt x (f64_of_N 1) then f64_of_N 1 else b |}.
Definition ascii_letter_or_digit (s : string) : bool :=
  match s with String a "" => is_ascii_digit a || in_range 65 90 a || in_range 97 122 a | _ => false end.
Definition ascii_tables : Alphanumeric.
Proof. refine {| is_alphanumeric := ascii_letter_or_digit |}. abstract (intros a _; reflexivity). Defined.
#[local] Existing Instance step_libm.
#[local] Existing Instance ascii_lowercase.
#[local] Existing Instance ascii_tables.

Definition evidence (i p : string) (k : EvidenceKind) (a : Authority) (rel : f32) (d : option f32) (text prov : string) : EvidenceItem :=
  {| evidence_id := i; document_id := None; document_namespace := None; source_verification := None; kind := k; authority := a;
     path := Some p; lines := Some (1, 9)%N; symbol_id := Some i; title := None; content := text; generation := None;
     commit := None; timestamp := Some 1000%N; confidence := f32_one; relevance := rel; extraction_method := "test"; warnings := [];
     provider := prov; score := None; directness := d |}.
(** A caller the graph relates, and three passages that are only similar. *)
Definition caller : EvidenceItem :=
  evidence "caller" "src/order.rs" GraphRelation CurrentCode f32_zero (Some (f32_lit 95 100)) "submit calls validate" "graph".
Definition similar (i : string) : EvidenceItem :=
  evidence i ("docs/" +:+ i) SourceCode SemanticSimilarity f32_one None "validate orders before they are sent" "vector".
Definition policy : EvidenceItem :=
  evidence "rule" "docs/rules.md" BusinessRule ApprovedRequirement (f32_lit 1 2) None "refunds are never allowed after export" "rules".
Definition pool_items : list EvidenceItem := [similar "a"; similar "b"; caller; similar "c"; policy].

(** * Lemmas *)

Lemma step_decays : decays.
Proof.
  intros x _. cbn [powf step_libm]. destruct (f64_lt x (f64_of_N 1)); (split; [vm_compute; reflexivity | vm_compute; split; discriminate]).
Qed.
Lemma pool_sound : Forall sound_evidence pool_items.
Proof.
  repeat constructor; cbn; try exact I; try (vm_compute; discriminate); try (vm_compute; reflexivity).
Qed.
Lemma pool_ids : ids_identify pool_items.
Proof.
  intros a b Ha Hb He. unfold pool_items in *. set_unfold in Ha. set_unfold in Hb.
  destruct_or? Ha; destruct_or? Hb; subst; try discriminate; done.
Qed.

(** * Theorems *)

Definition answer : list EvidenceItem := rank_and_select_with_terms_exempt 2000 pool_items 4 [] None.
Example caller_comes_first : evidence_id <$> answer = ["caller"; "rule"; "a"; "b"].
Proof. vm_compute. reflexivity. Qed.

Lemma direct_evidence_outranks_similarity_witness :
  ∃ strong weak : EvidenceItem, answer !! 0 = Some strong ∧ answer !! 2 = Some weak ∧
    authority strong = CurrentCode ∧ authority weak = SemanticSimilarity ∧ (0 < 2)%nat.
Proof.
  destruct (answer !! 0) as [strong|] eqn:H0; [| by vm_compute in H0].
  destruct (answer !! 2) as [weak|] eqn:H2; [| by vm_compute in H2].
  exists strong, weak. split_and!; [done | done | | |].
  - assert (H : (authority <$> answer !! 0) = Some CurrentCode) by (vm_compute; reflexivity). rewrite H0 in H. by injection H.
  - assert (H : (authority <$> answer !! 2) = Some SemanticSimilarity) by (vm_compute; reflexivity). rewrite H2 in H. by injection H.
  - destruct (direct_evidence_outranks_similarity 2000 pool_items 4 [] None step_decays pool_sound) as (_ & _ & Horder);
      [vm_compute; discriminate | vm_compute; discriminate |].
    apply (Horder 0 2 strong weak H0 H2).
    + right. assert (H : (authority <$> answer !! 0) = Some CurrentCode) by (vm_compute; reflexivity). rewrite H0 in H. by injection H.
    + assert (H : ((λ e, (λ d, f32_lt d (f32_lit 9 10)) <$> directness e) <$> answer !! 0) = Some (Some false)) by (vm_compute; reflexivity).
      rewrite H0 in H. cbn in H. unfold direct. destruct (directness strong) as [d|]; [| discriminate H].
      exists d. split; [done |]. by injection H.
    + assert (H : (authority <$> answer !! 2) = Some SemanticSimilarity) by (vm_compute; reflexivity). rewrite H2 in H. by injection H.
    + assert (H : ((λ e, (λ d, f32_lt (f32_lit 9 10) d) <$> directness e) <$> answer !! 2) = Some (Some false)) by (vm_compute; reflexivity).
      rewrite H2 in H. cbn in H. unfold indirect. destruct (directness weak) as [d|]; [| discriminate H].
      exists d. split; [done |]. by injection H.
Defined.

(** The answer is full of similar passages; the relation and the rule the plan
    needs replace the weakest of them. *)
Definition full_answer : list EvidenceItem := [similar "a"; similar "b"; similar "c"].
Lemma full_ids : ids_identify (full_answer ++ pool_items).
Proof.
  intros a b Ha Hb. apply pool_ids; unfold pool_items, full_answer in *; set_solver.
Qed.
Lemma reserve_keeps_requirements_witness :
  let r := reserve_required_with_room full_answer pool_items [GraphRelation; BusinessRule] [] [] "who calls validate" false 0 in
  (evidence_id <$> r.1) = ["c"; "caller"; "rule"] ∧ "caller" ∈ r.2.
Proof.
  intros r. split; [vm_compute; reflexivity |].
  destruct (reserve_keeps_requirements full_answer pool_items [GraphRelation; BusinessRule] [] [] "who calls validate" false 0 full_ids)
    as (Hreq & _ & _ & Hfrom).
  destruct (Hreq (of_kind GraphRelation) caller) as (e & He & Hk & Hp); [left; exists GraphRelation; set_solver | unfold pool_items; set_solver | reflexivity |].
  apply Hfrom in He. unfold full_answer, pool_items in He. set_unfold in He.
  destruct_or? He; subst; try discriminate; exact Hp.
Defined.
Example contradiction_is_seen :
  (λ cs, conflict_summary <$> (cs : list Conflict)) <$> detect_conflicts
    [policy; evidence "code" "src/refund.rs" SourceCode CurrentCode f32_one None "fn grant(refunds) permit" "vector"] 1
  = Ok ["'rules' evidence and current code disagree about 'refunds'"].
Proof. vm_compute. reflexivity. Qed.

(** ** Status *)

Definition plain_plan (es : list EntityMention) (c : AnswerContract) : QueryPlan :=
  {| intents := [(Usage, f32_one)]; entities := es;
     qualifiers := {| path_prefixes := []; roles := []; change := None; scopes := []; symptoms := []; versions := [] |};
     needed_evidence := [SourceCode]; answer_type := UsageSites; modalities := []; contract := c |}.
Definition fresh : FreshnessSnapshot :=
  {| snapshot_generation := Some 3%N; git_commit := None; git_branch := None; history_watermark := None;
     last_index_ms := None; semantic_tier := "semantic"; reindex_required := false; incompatible := false |}.
Definition hit (name : string) (n : nat) : ProviderReport :=
  {| report_provider := name; report_status := ProviderHit; report_count := n; report_note := None;
     report_examined := 0; report_available := None; report_truncated := false; report_proof := None |}.
Definition failing (name : string) : ProviderReport :=
  {| report_provider := name; report_status := ProviderTimedOut; report_count := 0; report_note := None;
     report_examined := 0; report_available := None; report_truncated := false; report_proof := None |}.

(** The premises that the tests of the repository state. *)
Example redis_is_missing :
  uncovered_named_terms "Which Redis cluster caches the kostnadskategori list?"
    [evidence "e" "code/kostnadskategorier.vb" SourceCode CurrentCode f32_one None "list of kostnadskategori" "code"]
  = ["Redis"].
Proof. vm_compute. reflexivity. Qed.
Example instructions_are_no_premises :
  uncovered_named_terms "Where are categories saved? Identify methods and guards." [] = [].
Proof. vm_compute. reflexivity. Qed.
Example middle_of_a_sentence : uncovered_named_terms "Where does Include store categories?" [] = ["Include"].
Proof. vm_compute. reflexivity. Qed.
Example code_name_at_the_start :
  uncovered_named_terms "Where are categories saved? `Include` provides validation." [] = ["Include"].
Proof. vm_compute. reflexivity. Qed.
Example name_after_an_instruction :
  uncovered_named_terms "Where are categories saved? Identify MissingCache and guards." [] = ["MissingCache"].
Proof. vm_compute. reflexivity. Qed.

Definition usage_item : EvidenceItem :=
  evidence "u" "src/access.vb" GraphRelation CurrentCode f32_one None "Check_id <- api.GetAll (calls)" "usage".
Definition usage_question : string := "Where is Check_id defined and who calls it?".
Lemma answered_question_is_supported_witness :
  supports usage_question [usage_item] [] ∧ reindex_required fresh = false.
Proof.
  assert (H : assess_status (plain_plan [] default_contract) [usage_item] [hit "usage" 1] fresh
                (has_adequate_support_with usage_question [usage_item] []) = Answered) by (vm_compute; reflexivity).
  pose proof (answered_question_is_supported usage_question (plain_plan [] default_contract) [usage_item] [] [hit "usage" 1] fresh H)
    as (_ & Hs & _ & _ & Hr & _).
  split; [exact Hs | exact Hr].
Defined.
Example timed_out_alone_is_a_failure :
  assess_status (plain_plan [] default_contract) [] [failing "code"] fresh false = Failed.
Proof. vm_compute. reflexivity. Qed.

(** The one distinctive word, said twice. *)
Lemma repeated_word_is_not_supported_witness :
  let item := evidence "a" "src/auth.vb" SourceCode CurrentCode f32_one None "authentication of users" "code" in
  has_adequate_support "how is authentication done, show authentication" [item] = false ∧
  has_adequate_support "how is authentication done" [item] = true.
Proof.
  split; [| vm_compute; reflexivity].
  apply (repeated_word_is_not_supported _ _ "authentication" 2); [vm_compute; reflexivity | lia | vm_compute; reflexivity].
Defined.

(** A stale rule keeps its place in a full answer, once a complete set was walked. *)
Definition stale_rule : EvidenceItem :=
  let e := evidence "s" "docs/rules.md" BusinessRule DerivedBusinessLogic f32_one None "orders are cached" "rules" in
  {| evidence_id := evidence_id e; document_id := None; document_namespace := None;
     source_verification := Some "STALE: the method has changed"; kind := kind e; authority := authority e;
     path := path e; lines := None; symbol_id := None; title := None; content := content e; generation := None;
     commit := None; timestamp := None; confidence := f32_one; relevance := f32_one; extraction_method := "test";
     warnings := []; provider := "rules"; score := None; directness := None |}.
Definition set_contract : AnswerContract :=
  {| direction := Callees; contract_entity := FunctionContract; cardinality := ExhaustiveSet; required_facets := [];
     allowed_evidence := []; completeness_required := true; behavior_requirements := [];
     behavior_scope_context := None |}.
Theorem complete_set_hides_stale_rule :
  let items := [usage_item; stale_rule] in
  assess_status (plain_plan [] set_contract) items [hit "callee_set" 1] fresh true = Answered ∧
  assess_status (plain_plan [] default_contract) items [hit "callee_set" 1] fresh true = Partial.
Proof. split; vm_compute; reflexivity. Qed.

(** ** Plans *)

Definition callees_question : string := "Which functions does Check_id call?".
Definition callees_plan : QueryPlan :=
  match plan_query callees_question with Ok pl => pl | Fail _ => plain_plan [] default_contract end.
Lemma question_gets_a_plan_witness :
  utf8_valid "Who calls `naïve` → strict?" = true ∧ ∃ pl, plan_query "Who calls `naïve` → strict?" = Ok pl ∧ Mentions (entities pl).
Proof.
  assert (Hv : utf8_valid "Who calls `naïve` → strict?" = true) by (vm_compute; reflexivity).
  split; [exact Hv |]. destruct (question_gets_a_plan "Who calls `naïve` → strict?" Hv) as (pl & Hp & _ & _ & _ & _ & _ & _ & _ & Hm).
  exists pl. split; [exact Hp | exact Hm].
Defined.

(** What a plan says, in short. *)
Definition outline (question : string) : option (list Intent * list string * option (string * string) * ContractDirection) :=
  match plan_query question with
  | Ok pl => Some ((intents pl).*1, mention_text <$> entities pl, change (qualifiers pl), direction (contract pl))
  | Fail _ => None
  end.
Example rationale_first :
  outline "Why is customer status enforced on the server?" = Some ([Rationale], [], None, NoDirection).
Proof. vm_compute. reflexivity. Qed.
Example change_from_to :
  outline "What changed when we moved from XML to JSON?" = Some ([Explain], [], Some ("XML", "JSON"), NoDirection).
Proof. vm_compute. reflexivity. Qed.
Example sentence_starts_are_no_names :
  outline "How do Authenticate and Run in the `AuthService` differ?"
  = Some ([Explain], ["AuthService"; "Authenticate"; "Run"], None, NoDirection).
Proof. vm_compute. reflexivity. Qed.
Example callers_of_a_method :
  outline "Which files call OrderService.Submit?" = Some ([Usage], ["OrderService.Submit"], None, Callers).
Proof. vm_compute. reflexivity. Qed.
Example joined_operations :
  match plan_query "Where are markers created and renamed across the report table?" with
  | Ok pl => behavior_requirements (contract pl) = [CreateOp; RenameOp] ∧
      behavior_scope_context (contract pl) = Some "across the report table" ∧ modalities pl = [Report; Sql]
  | Fail _ => False
  end.
Proof. vm_compute. done. Qed.

(** ** The callee set *)

Definition ask_node (type id name f : string) : Node :=
  {| node_id := id; node_type := type; node_name := name; node_namespace := "code"; node_language := "ts"; file_path := f;
     start_line := 1; end_line := 9; node_generation := 1; node_metadata := None |}.
Definition ask_nodes : list Node :=
  [ask_node "function" "f" "load" "src/a.ts"; ask_node "function" "h" "draw" "web\src\a.ts";
   ask_node "route" "r1" "GetAll" "api/orders.vb"; ask_node "route" "r2" "GetMap" "api/map.vb";
   ask_node "type" "d1" "Order" "types/order.d.ts"].
Definition ask_edges : list Edge :=
  [new_edge "code" "ts" ApiCall "f" "r1" 2 1 1000; new_edge "code" "ts" ApiCall "f" "d1" 2 1 1000].
Definition other_edges : list Edge := new_edge "code" "ts" ApiCall "h" "r2" 2 1 1000 :: ask_edges.
Definition ask_db (es : list Edge) : GraphDB := with_nodes (NODES (nodes_db ask_nodes)) (put_edges "p" es empty_db).

Lemma nodes_db_sound ns db : Forall (λ n, clean (node_id n)) ns → NODES db = NODES (nodes_db ns) → sound_nodes "p" db.
Proof.
  intros Hc HN.
  assert (Hrow : ∀ r v, NODES db !! r = Some v → ∃ n, n ∈ ns ∧ r = node_key "p" (node_id n) ∧ v = node_bytes n).
  { intros r v. rewrite HN. cbn. intros Hin%elem_of_list_to_map_2.
    apply list_elem_of_fmap in Hin as (n & [= -> ->] & Hn). eauto. }
  rewrite Forall_forall in Hc. split.
  - intros id n Hg. unfold get_node in Hg. destruct (NODES db !! node_key "p" id) as [v|] eqn:E; [| done].
    apply Hrow in E as (m & _ & Hk & ->). unfold transpose in Hg. rewrite node_round_trip in Hg. injection Hg as <-.
    unfold node_key, nul in Hk. cbn in Hk. by injection Hk.
  - intros r v n [_ Hv]%elem_of_scan Hd. apply Hrow in Hv as (m & Hm & _ & ->). rewrite node_round_trip in Hd.
    injection Hd as <-. by apply Hc.
Qed.
Lemma ask_refined es : Forall edge_typed es → Refines (ask_db es) (a_puts "p" es ∅).
Proof.
  intros Ht. apply (refines_same (put_edges "p" es empty_db)); [done |]. apply refines_puts; [apply refines_empty | done | done].
Qed.
Lemma ask_sound es : sound_nodes "p" (ask_db es).
Proof. apply (nodes_db_sound ask_nodes); [| done]. repeat constructor. Qed.
Lemma ask_edges_typed : Forall edge_typed ask_edges.
Proof. repeat constructor; vm_compute; discriminate. Qed.


(** A file whose path contains the one that was asked for: its calls are among
    the members, and the proof of coverage says complete. *)
Theorem callees_of_another_file_are_mixed_in :
  let '(items, members, cov, proof) :=
    exhaustive_callee_set demo_fs (ask_db other_edges) None "p" "src/a.ts" [ApiCall] 0 in
  complete proof = true ∧ (λ m, (target_node_id m, source_node_id m)) <$> members = [("r1", Some "f"); ("r2", Some "h")] ∧
  Graph.file_path <$> (ask_nodes !! 1) = Some "web\src\a.ts".
Proof. vm_compute. split_and!; reflexivity. Qed.

(** ** Reports *)

Definition ask_file (f : string) : EntityMention :=
  {| mention_text := f; guessed_kind := FileEntity;
     resolved := [{| entity_kind := FileEntity; canonical := f; entity_node_id := Some ("file:" +:+ f); entity_confidence := f32_one |}] |}.
Definition ask_source : Source :=
  {| source_fs := demo_fs; source_db := ask_db ask_edges; source_dir := None; has_view := true; joined := true |}.
Definition set_question : string := "which api functions does src/a.ts call".
Definition set_plan (fs : list string) : QueryPlan := plain_plan (ask_file <$> fs) set_contract.
Notation report_on q pl :=
  (assemble_report step_libm 2000 ask_source "p" q pl Standard 3 pool_items [hit "graph" 1] fresh).

Lemma answered_set_was_walked_witness :
  ∃ r, report_on set_question (set_plan ["src/a.ts"]) = Ok r ∧ status r = Answered ∧
    head (named_files (entities (set_plan ["src/a.ts"]))) = Some "src/a.ts" ∧ has_view ask_source = true.
Proof.
  destruct (report_on set_question (set_plan ["src/a.ts"])) as [r|] eqn:E; [| by vm_compute in E].
  assert (Hst : (status <$> report_on set_question (set_plan ["src/a.ts"])) = Ok Answered) by (vm_compute; reflexivity).
  rewrite E in Hst. injection Hst as Hst. exists r. split; [reflexivity |]. split; [exact Hst |]. split; [reflexivity |].
  refine (proj1 (proj2 (answered_set_was_walked step_libm 2000 ask_source "p" set_question (set_plan ["src/a.ts"]) Standard 3
    pool_items [hit "graph" 1] fresh r E _ Hst eq_refl))).
  intros rep ->%list_elem_of_singleton. discriminate.
Defined.

Definition redis_question : string := "Which Redis cluster calls validate".
Lemma false_premise_is_named_witness :
  ∃ r, report_on redis_question (plain_plan [] default_contract) = Ok r ∧ status r ∈ [Failed; Ambiguous; Unsupported].
Proof.
  destruct (report_on redis_question (plain_plan [] default_contract)) as [r|] eqn:E; [| by vm_compute in E].
  exists r. split; [reflexivity |].
  assert (Hc : (λ r, is_covered (evidence_haystack (AskReport.evidence r) []) (AskReport.evidence r) "redis") <$>
                 report_on redis_question (plain_plan [] default_contract) = Ok false) by (vm_compute; reflexivity).
  rewrite E in Hc. injection Hc as Hc.
  refine (proj2 (false_premise_is_named step_libm 2000 ask_source "p" redis_question (plain_plan [] default_contract) Standard 3
    pool_items [hit "graph" 1] fresh r "Redis" E _ Hc)).
  exists 1, "Redis". vm_compute. split_and!; reflexivity.
Defined.

(** A question about two files: the calls of the second are not looked for, and
    the answer is full. *)
Theorem second_file_is_not_walked :
  (λ r, (status r, target_node_id <$> answer_members r)) <$> report_on set_question (set_plan ["src/a.ts"; "web/src/b.ts"])
    = Ok (Answered, ["r1"]) ∧
  ∀ src p q es e c pool reports,
    exhaustive_arm src p q (plain_plan (es ++ [e]) c) pool reports =
    match named_files es with [] => exhaustive_arm src p q (plain_plan [e] c) pool reports
                            | _ => exhaustive_arm src p q (plain_plan es c) pool reports end.
Proof.
  split; [vm_compute; reflexivity |]. intros src p q es e c pool reports. unfold exhaustive_arm. cbn [contract entities plain_plan].
  assert (Happ : named_files (es ++ [e]) = named_files es ++ named_files [e]).
  { unfold named_files. by rewrite filter_app, bind_app. }
  rewrite Happ. by destruct (named_files es).
Qed.
Example report_is_rendered :
  (λ r, str_contains "coverage complete" (render_markdown r)) <$> report_on set_question (set_plan ["src/a.ts"]) = Ok true.
Proof. vm_compute. reflexivity. Qed.
