(* ===== verification/Snapshots.v ===== *)
(** [engram_index::hybrid::snapshots]: the catalog of source snapshots. A
    snapshot selects, for every path of a project, the physical revision it
    reads; it is stored as a chain of deltas over a checkpoint, one record per
    generation, and resolved into a view that readers pin. The memory budget,
    which the whole server shares, and the registry the catalog is bound to are
    arguments; a file is replaced as a whole, and only files of the catalog are
    in its directories. *)
From S2P Require Import Prelude Text Unicode Store Records Reindex SourceHead Registry.

Open Scope N_scope.

(** * Definitions *)

Definition FORMAT : N := 1.
Definition MAX_DEPTH : nat := 32.
Definition MAX_RECORD_BYTES : N := 32 * 1024 * 1024.
Definition MAX_ANCESTRY_BYTES : N := 64 * 1024 * 1024.
Definition MAX_SELECTION_ENTRIES : N := 250000.
Definition CACHE_ENTRIES : nat := 4.

Record Key := { key_project : string; key_namespace : string; key_generation : N }.
#[export] Instance Key_eq_dec : EqDecision Key.
Proof. solve_decision. Defined.
#[export] Instance Key_countable : Countable Key :=
  inj_countable' (λ k, (key_project k, key_namespace k, key_generation k))
                 (λ t, {| key_project := t.1.1; key_namespace := t.1.2; key_generation := t.2 |})
                 (λ k, match k with Build_Key _ _ _ => eq_refl end).

Inductive Selection :=
  | Legacy (generation : N)
  | Files (files : gmap string N).
#[export] Instance Selection_eq_dec : EqDecision Selection.
Proof. solve_decision. Defined.

Record Snapshot := {
  snapshot_generation : N;
  selection : Selection;
  depth : nat;
  ancestry : list N;
}.

Definition snapshot_contains (v : Snapshot) (path : string) (physical_generation : N) : bool :=
  match selection v with
  | Legacy generation => generation =? physical_generation
  | Files files => bool_decide (files !! path = Some physical_generation)
  end.
Definition is_files (v : Snapshot) : bool := match selection v with Files _ => true | Legacy _ => false end.

Record SnapshotRecord := {
  format : N;
  record_project : string;
  record_namespace : string;
  record_generation : N;
  parent : option N;
  record_pending : bool;
  record_files : option (gmap string N);
  changes : gmap string (option N);
}.

(** The catalog: its directories on disk, and, under the mutex, the cached
    views with the number of pins outside the cache ([Arc::strong_count] less
    one) and the retirement floors. *)
Record Catalog := {
  disk : gmap string (gmap string bytes);
  snapshots : gmap Key (Snapshot * nat);
  floors : gmap (string * string) N;
}.
Definition with_disk (d : gmap string (gmap string bytes)) (c : Catalog) : Catalog :=
  {| disk := d; snapshots := snapshots c; floors := floors c |}.
Definition with_snapshots (s : gmap Key (Snapshot * nat)) (c : Catalog) : Catalog :=
  {| disk := disk c; snapshots := s; floors := floors c |}.
Definition with_floors (f : gmap (string * string) N) (c : Catalog) : Catalog :=
  {| disk := disk c; snapshots := snapshots c; floors := f |}.

Class SnapshotEnv := {
  sn_registry :: RegistryEnv;
  sn_record :: Json SnapshotRecord;
  sn_blake3 :: Blake3;
  sn_order :: HashOrder;
}.

Definition saturating_add (a b : N) : N := N.min (a + b) u64_max.
Definition saturating_mul (a b : N) : N := N.min (a * b) u64_max.
(** The bytes reserved for a path and its selectors. *)
Definition estimate (path : string) : N := saturating_add (saturating_mul (slen path) 4) 256.
Definition estimate_all (paths : list string) : N := foldl (λ t p, saturating_add t (estimate p)) 0 paths.

Definition LEGACY_THROUGH : string := "legacy-through.json".
Definition RETIRED_BEFORE : string := "retired-before.json".
Definition record_name (generation : N) : string := show_u64 generation +:+ ".json".

Definition metadata_missing : string :=
  "Source snapshot layout is managed or unproven, but required metadata is missing; full repair required".
Definition legacy_missing : string := "source snapshot legacy boundary is missing; full repair required".
Definition retirement_missing : string :=
  "Managed source retirement boundary is missing; full repair from a valid published head is required".

Section snapshots.
Context `{SE : !SnapshotEnv}.

(** What the catalog asks of the rest of the server: the answers of the memory
    budget, if it has one, and the registry it is bound to, if it is bound and
    the registry is still open. *)
Record Env := {
  budget : option (N → string → result ());
  registry : option (option DB);
}.

Definition reserve (E : Env) (amount : N) (operation : string) : result () :=
  match budget E with None => Ok tt | Some try_new => try_new amount operation end.

Definition authority_unavailable : string := "Source authority is unavailable; reopen the runtime".
Definition independently_managed (E : Env) (p : string) : result bool :=
  match registry E with
  | None => Ok false
  | Some None => Fail (Bail authority_unavailable [])
  | Some (Some db) =>
      flag ← get_meta_bounded p MANAGED 1 db;
      _ ← ensure (bool_decide (flag = None ∨ flag = Some "1")) "Invalid source snapshot requirement metadata" [];
      Ok (bool_decide (is_Some flag))
  end.

Definition legacy_permitted (E : Env) (p : string) (generation : N) : result bool :=
  match registry E with
  | None => Ok true
  | Some None => Fail (Bail "Source authority is unavailable; reopen the source runtime before starting a new read" [])
  | Some (Some db) =>
      hr ← source_snapshot_requirement p db;
      Ok (match hr.2 with
          | Unpublished => (generation =? 0) && (hr.1 =? 0)
          | AttestedLegacy => (generation =? 1) && (hr.1 =? 1)
          | Managed | Unproven => false
          end)
  end.

(** ** The files *)

Definition scope (p ns : string) : string := blake3_hex (project_key p ns).
Definition key (p ns : string) (generation : N) : Key :=
  {| key_project := p; key_namespace := ns; key_generation := generation |}.
Definition at_generation (k : Key) (generation : N) : Key := key (key_project k) (key_namespace k) generation.

Definition managed (p ns : string) (c : Catalog) : bool := bool_decide (is_Some (disk c !! scope p ns)).
Definition lookup_file (dir name : string) (c : Catalog) : option bytes := disk c !! dir ≫= (.!! name).

Definition read_bytes (E : Env) (dir name : string) (limit : N) (c : Catalog) : result (option bytes) :=
  match lookup_file dir name c with
  | None => Ok None
  | Some b =>
      _ ← ensure (slen b <=? limit) "source snapshot metadata exceeds its read limit" [];
      _ ← reserve E (saturating_add (saturating_mul (slen b) 24) 1024) "source snapshot metadata read/parse";
      Ok (Some b)
  end.

Definition write_json (dir name : string) (b : bytes) : Act Catalog () :=
  _ ← act_of (ensure (slen b <=? MAX_RECORD_BYTES) "source snapshot metadata exceeds its 32 MiB limit" []);
  act_modify (λ c, with_disk (<[dir := <[name := b]> (default ∅ (disk c !! dir))]> (disk c)) c).

(** [serde_json::from_slice], whose error is told apart from the others. *)
Definition parse_u64_json (b : bytes) : result N := map_err SerdeError (u64_from_slice b).
Definition parse_record (b : bytes) : result SnapshotRecord := map_err SerdeError (from_slice b).

Definition legacy_boundary (E : Env) (p ns : string) (c : Catalog) : result (option N) :=
  b ← read_bytes E (scope p ns) LEGACY_THROUGH 64 c; transpose parse_u64_json b.
Definition retirement_boundary (E : Env) (p ns : string) (c : Catalog) : result (option N) :=
  b ← read_bytes E (scope p ns) RETIRED_BEFORE 64 c; transpose parse_u64_json b.
Definition scope_has_metadata (p ns : string) (c : Catalog) : bool :=
  match disk c !! scope p ns with Some dir => negb (bool_decide (dir = ∅)) | None => false end.

Definition ensure_legacy_boundary (E : Env) (p ns : string) (base : N) (full_rebuild empty_before_boundaries : bool)
  : Act Catalog () :=
  known ← act_read (legacy_boundary E p ns);
  match known with
  | Some _ => mret tt
  | None =>
      has_metadata ← act_get (scope_has_metadata p ns);
      _ ← act_of (ensure (negb has_metadata || full_rebuild || empty_before_boundaries) legacy_missing []);
      let boundary := if has_metadata && negb empty_before_boundaries then 0 else base in
      write_json (scope p ns) LEGACY_THROUGH (u64_to_vec boundary)
  end.

Definition allow_legacy (E : Env) (k : Key) (c : Catalog) : result () :=
  known ← legacy_boundary E (key_project k) (key_namespace k) c;
  match known with
  | Some boundary => ensure (key_generation k <=? boundary)
                       "managed source snapshot metadata is missing; full repair required" []
  | None => ensure (negb (scope_has_metadata (key_project k) (key_namespace k) c)) legacy_missing []
  end.

(** A record with its length in bytes. *)
Definition invalid (b : bool) (problem : string) : result () := if b then Ok tt else Fail (InvalidRecord problem).
Definition read_record (E : Env) (k : Key) (c : Catalog) : result (option (SnapshotRecord * N)) :=
  b ← read_bytes E (scope (key_project k) (key_namespace k)) (record_name (key_generation k)) MAX_RECORD_BYTES c;
  match b with
  | None => Ok None
  | Some b =>
      r ← parse_record b;
      let g := key_generation k in
      _ ← invalid ((format r =? FORMAT) && String.eqb (record_project r) (key_project k) &&
                   String.eqb (record_namespace r) (key_namespace k) && (record_generation r =? g))
            "source snapshot identity/format mismatch";
      _ ← invalid (match parent r with Some up => up <? g | None => true end) "cyclic source snapshot ancestry";
      _ ← invalid (match record_files r with
                   | Some files => forallb (λ kv, kv.2 <=? g) (map_to_list files) | None => true end)
            "source snapshot checkpoint references a future revision";
      _ ← invalid (forallb (λ kv, match kv.2 with Some revision => revision <=? g | None => true end)
                     (map_to_list (changes r)))
            "source snapshot delta references a future revision";
      Ok (Some (r, slen b))
  end.

(** ** Resolving a chain *)

(** What the walk to the older records stops at. *)
Inductive Base :=
  | AtCheckpoint (files : gmap string N)
  | AtView (view : Snapshot).

(** The records from the oldest to the newest, with what they start from; none,
    when the generation itself has no record. *)
Fixpoint walk (E : Env) (remaining : nat) (k : Key) (durable_seal permit_legacy : bool) (c : Catalog)
    (cursor : N) (records : list SnapshotRecord) (ancestry_bytes : N)
  : result (option (list SnapshotRecord * Base)) :=
  match remaining with
  | O => Fail (Bail "source snapshot ancestry exceeds its depth limit" [])
  | S remaining =>
      found ← read_record E (at_generation k cursor) c;
      match found with
      | None =>
          _ ← ensure (Nat.eqb (length records) 0) "source snapshot ancestor is missing" [];
          _ ← ensure permit_legacy metadata_missing [];
          _ ← allow_legacy E k c;
          Ok None
      | Some (record, serialized_bytes) =>
          _ ← ensure (negb (record_pending record) || durable_seal && (cursor =? key_generation k))
                "source snapshot is unpublished/incomplete; retry after indexing finishes" [];
          let ancestry_bytes := saturating_add ancestry_bytes serialized_bytes in
          _ ← ensure (ancestry_bytes <=? MAX_ANCESTRY_BYTES)
                "source snapshot ancestry exceeds its aggregate byte limit" [];
          match record_files record, parent record with
          | Some files, None => Ok (Some (record :: records, AtCheckpoint files))
          | None, Some up =>
              match (if durable_seal then None else snapshots c !! at_generation k up) with
              | Some (view, _) =>
                  _ ← ensure (is_files view) "source snapshot ancestor is missing" [];
                  Ok (Some (record :: records, AtView view))
              | None => walk E remaining k durable_seal permit_legacy c up (record :: records) ancestry_bytes
              end
          | _, _ => Fail (Bail "invalid source snapshot checkpoint/parent" [])
          end
      end
  end.

(** One record on the selection of its parent; a [BTreeMap] in key order. *)
Definition apply_change (generation : N) (files : gmap string N) (change : string * option N) : result (gmap string N) :=
  match change.2 with
  | Some revision =>
      _ ← ensure (revision <=? generation) "source snapshot references a future revision" [];
      _ ← ensure (bool_decide (is_Some (files !! change.1)) || (N.of_nat (size files) <? MAX_SELECTION_ENTRIES))
            "source snapshot selection exceeds its entry limit" [];
      Ok (<[change.1 := revision]> files)
  | None => Ok (delete change.1 files)
  end.
Definition apply_record (k : Key) (durable_seal : bool) (c : Catalog) (st : gmap string N * list N)
    (record : SnapshotRecord) : result (gmap string N * list N) :=
  files ← foldl (λ acc change, files ← acc; apply_change (record_generation record) files change)
            (Ok st.1) (sort_rows (map_to_list (changes record)));
  _ ← ensure (negb durable_seal ||
              match snapshots c !! at_generation k (record_generation record) with
              | Some (known, _) => bool_decide (selection known = Files files)
              | None => true
              end)
        "Persisted source selection differs from a known immutable view; full repair required" [];
  Ok (files, st.2 ++ [record_generation record]).

Definition load (E : Env) (k : Key) (remaining : nat) (durable_seal permit_legacy : bool) (c : Catalog) : result Snapshot :=
  found ← walk E remaining k durable_seal permit_legacy c (key_generation k) [] 0;
  match found with
  | None => Ok {| snapshot_generation := key_generation k; selection := Legacy (key_generation k);
                  depth := 0; ancestry := [] |}
  | Some (records, base) =>
      base_files ← match base with
                   | AtCheckpoint files => Ok files
                   | AtView view => match selection view with
                                    | Files files => Ok files
                                    | Legacy _ => Fail (Bail "source snapshot checkpoint is missing" [])
                                    end
                   end;
      _ ← ensure (N.of_nat (size base_files) <=? MAX_SELECTION_ENTRIES) "source snapshot selection exceeds its entry limit" [];
      let estimated := estimate_all ((map_to_list base_files).*1 ++ concat ((λ r, (map_to_list (changes r)).*1) <$> records)) in
      let depth := match base with AtView view => (depth view + length records)%nat | AtCheckpoint _ => (length records - 1)%nat end in
      let older := match base with AtView view => ancestry view | AtCheckpoint _ => [] end in
      _ ← ensure (Nat.ltb depth MAX_DEPTH && Nat.leb (length older + length records) MAX_DEPTH)
            "source snapshot resolved ancestry exceeds its depth limit" [];
      _ ← reserve E estimated "resolved source snapshot selection";
      st ← foldl (λ acc record, st ← acc; apply_record k durable_seal c st record) (Ok (base_files, older)) records;
      Ok {| snapshot_generation := key_generation k; selection := Files st.1; depth := depth; ancestry := st.2 |}
  end.

(** ** The retirement floor *)

Definition in_scope (p ns : string) (k : Key) : bool := String.eqb (key_project k) p && String.eqb (key_namespace k) ns.

Definition ensure_retirement_boundary (E : Env) (p ns : string) (published_base : N) (full_rebuild : bool)
  : Act Catalog bool :=
  known ← act_get (λ c, default 0 (floors c !! (p, ns)));
  durable ← act_read (retirement_boundary E p ns);
  match durable with
  | Some floor =>
      _ ← act_of (ensure (known <=? floor) "Source retirement boundary regressed; explicit metadata recovery required" []);
      _ ← act_modify (λ c, with_floors (<[(p, ns) := floor]> (floors c)) c);
      mret false
  | None =>
      known_managed ← act_get (λ c, existsb (λ kv : Key * (Snapshot * nat), in_scope p ns kv.1 && is_files kv.2.1)
                                     (map_to_list (snapshots c)));
      has_metadata ← act_get (scope_has_metadata p ns);
      has_authority ← act_of (if has_metadata || negb (known =? 0) || known_managed then Ok true
                              else independently_managed E p : result bool);
      _ ← act_of (ensure (negb has_authority || full_rebuild) retirement_missing []);
      _ ← act_of (ensure (known <=? published_base) "Published source base is older than known retirement authority" []);
      let floor := if has_authority : bool then published_base else 0 in
      _ ← write_json (scope p ns) RETIRED_BEFORE (u64_to_vec floor);
      _ ← act_modify (λ c, with_floors (<[(p, ns) := floor]> (floors c)) c);
      mret (negb has_authority)
  end.

Definition floor (E : Env) (p ns : string) : Act Catalog N :=
  known ← act_get (λ c, floors c !! (p, ns));
  match known with
  | Some f => mret f
  | None =>
      durable ← act_read (retirement_boundary E p ns);
      f ← match durable with
          | Some f => mret f
          | None =>
              has_metadata ← act_get (scope_has_metadata p ns);
              _ ← act_of (ensure (negb has_metadata) retirement_missing []);
              mret 0
          end;
      _ ← act_modify (λ c, with_floors (<[(p, ns) := f]> (floors c)) c);
      mret f
  end.

(** ** The cache and its pins *)

(** While the cache is full, the oldest view that nobody pins leaves it. *)
Fixpoint evict_views (fuel : nat) (views : gmap Key (Snapshot * nat)) : gmap Key (Snapshot * nat) :=
  if Nat.ltb (size views) CACHE_ENTRIES then views
  else
    match fuel with
    | O => views
    | S fuel' =>
        match min_by_key (λ kv : Key * (Snapshot * nat), key_generation kv.1)
                (filter (λ kv : Key * (Snapshot * nat), kv.2.2 = 0%nat) (iter (8%nat, fuel') views)) with
        | Some (victim, _) => evict_views fuel' (delete victim views)
        | None => views
        end
    end.
Definition make_cache_room (c : Catalog) : Catalog := with_snapshots (evict_views (size (snapshots c)) (snapshots c)) c.

(** [Arc::clone] and the drop of a lease. *)
Definition add_pin (k : Key) (c : Catalog) : Catalog :=
  with_snapshots (alter (λ vn : Snapshot * nat, (vn.1, S vn.2)) k (snapshots c)) c.
Definition drop_pin (k : Key) (c : Catalog) : Catalog :=
  with_snapshots (alter (λ vn : Snapshot * nat, (vn.1, pred vn.2)) k (snapshots c)) c.
Definition lease (k : Key) (view : Snapshot) : Act Catalog Snapshot := _ ← act_modify (add_pin k); mret view.
Definition pinned_view (k : Key) (c : Catalog) : option Snapshot :=
  match snapshots c !! k with Some (view, S _) => Some view | _ => None end.

Definition pin_inner (E : Env) (p ns : string) (generation : N) (join_retired : bool) : Act Catalog Snapshot :=
  _ ← act_of (vk "project" p);
  _ ← act_of (vk "namespace" ns);
  let k := key p ns generation in
  f ← floor E p ns;
  held ← act_get (λ c, if join_retired then pinned_view k c else None);
  match held with
  | Some view => lease k view
  | None =>
      if generation <? f then act_of (Fail (Bail "source snapshot retired; refresh the request generation" []))
      else
        permit_legacy ← act_of (legacy_permitted E p generation);
        cached ← act_get (λ c, snapshots c !! k);
        match cached with
        | Some (view, _) =>
            _ ← act_of (ensure (permit_legacy || is_files view) metadata_missing []);
            _ ← act_read (λ c, if is_files view then Ok tt else allow_legacy E k c);
            lease k view
        | None =>
            _ ← act_modify make_cache_room;
            view ← act_read (load E k (S MAX_DEPTH) false permit_legacy);
            _ ← act_modify (λ c, with_snapshots (<[k := (view, 1%nat)]> (snapshots c)) c);
            mret view
        end
  end.
Definition pin (E : Env) (p ns : string) (generation : N) : Act Catalog Snapshot := pin_inner E p ns generation true.
Definition pin_fresh (E : Env) (p ns : string) (generation : N) : Act Catalog Snapshot := pin_inner E p ns generation false.

(** ** Preparing and sealing a generation *)

(** A cached view of the generation leaves the cache, unless it is pinned. *)
Definition replaceable (k : Key) (c : Catalog) : result () :=
  ensure (bool_decide (pinned_view k c = None)) "cannot replace a pinned source snapshot" [].
Definition forget_view (k : Key) (c : Catalog) : Catalog := with_snapshots (delete k (snapshots c)) c.

Definition new_record (p ns : string) (generation : N) (up : option N) (files : option (gmap string N))
    (cs : gmap string (option N)) : SnapshotRecord :=
  {| format := FORMAT; record_project := p; record_namespace := ns; record_generation := generation;
     parent := up; record_pending := true; record_files := files; changes := cs |}.
Definition update_changes (generation : N) (changed deleted : list string) : gmap string (option N) :=
  list_to_map ((λ path, (path, Some generation)) <$> changed) ∪ list_to_map ((λ path, (path, None)) <$> deleted).
Definition base_selection (v : Snapshot) (legacy_paths : list string) : gmap string N :=
  match selection v with
  | Files files => files
  | Legacy revision => list_to_map ((λ path, (path, revision)) <$> legacy_paths)
  end.
Definition base_bytes (v : Snapshot) (legacy_paths : list string) : N :=
  match selection v with
  | Files files => estimate_all (map_to_list files).*1
  | Legacy _ => estimate_all legacy_paths
  end.

(** A delta needs a managed base, and room in its chain. *)
Definition needs_checkpoint (v : Snapshot) : bool := negb (is_files v) || Nat.leb MAX_DEPTH (S (depth v)).

Definition prepare (E : Env) (p ns : string) (base generation : N) (legacy_paths changed deleted : list string)
  : Act Catalog () :=
  _ ← act_of (ensure (base <? generation) "source snapshot must advance its base" []);
  parent_view ← pin E p ns base;
  let k := key p ns generation in
  act_finally (drop_pin (key p ns base)) (
    empty_before_boundaries ← ensure_retirement_boundary E p ns base false;
    _ ← ensure_legacy_boundary E p ns base false empty_before_boundaries;
    _ ← act_read (replaceable k);
    _ ← act_modify (forget_view k);
    _ ← act_read (read_record E k);
    let checkpoint := needs_checkpoint parent_view in
    let staged := if checkpoint then base_bytes parent_view legacy_paths else 0 in
    _ ← act_of (reserve E (saturating_add staged (estimate_all (changed ++ deleted))) "source snapshot staging/serialization");
    write_json (scope p ns) (record_name generation)
      (to_vec (new_record p ns generation (if checkpoint then None else Some base)
                 (if checkpoint then Some (base_selection parent_view legacy_paths) else None)
                 (update_changes generation changed deleted)))).

(** A rebuild from nothing: of damaged metadata, or, when [fresh] is given, of a
    generation that neither the cache nor the disk has seen. [fresh] is the
    answer of the work budget of a recovery. *)
Definition prepare_full_inner (E : Env) (p ns : string) (base generation : N) (paths : list string)
    (fresh : option (result ())) : Act Catalog () :=
  _ ← act_of (vk "project" p);
  _ ← act_of (vk "namespace" ns);
  _ ← act_of (ensure (base <? generation) "source snapshot must advance its base" []);
  _ ← act_of (ensure (N.of_nat (length paths) <=? MAX_SELECTION_ENTRIES) "source snapshot selection exceeds its entry limit" []);
  let k := key p ns generation in
  _ ← match fresh with
      | None => mret tt
      | Some check =>
          _ ← act_of check;
          _ ← act_read (λ c, ensure (bool_decide (snapshots c !! k = None))
                  "Recovered source snapshot target is already cached; refresh its generation floor" []);
          act_read (λ c, ensure (bool_decide (lookup_file (scope p ns) (record_name generation) c = None))
                  "Recovered source snapshot target already exists; refresh its generation floor" [])
      end;
  _ ← act_read (replaceable k);
  empty_before_boundaries ← ensure_retirement_boundary E p ns base (bool_decide (fresh = None));
  _ ← ensure_legacy_boundary E p ns base true empty_before_boundaries;
  _ ← act_modify (forget_view k);
  _ ← act_of (reserve E (estimate_all paths) "full source snapshot staging");
  write_json (scope p ns) (record_name generation)
    (to_vec (new_record p ns generation None (Some (list_to_map ((λ path, (path, generation)) <$> paths))) ∅)).
Definition prepare_full (E : Env) (p ns : string) (base generation : N) (paths : list string) : Act Catalog () :=
  prepare_full_inner E p ns base generation paths None.
Definition prepare_fresh_full (E : Env) (p ns : string) (base generation : N) (paths : list string) (check : result ())
  : Act Catalog () :=
  prepare_full_inner E p ns base generation paths (Some check).

Definition sealed (r : SnapshotRecord) : SnapshotRecord :=
  {| format := format r; record_project := record_project r; record_namespace := record_namespace r;
     record_generation := record_generation r; parent := parent r; record_pending := false;
     record_files := record_files r; changes := changes r |}.

(** What is checked before a candidate is sealed: the durable floor, the
    prepared record, and the selection its chain on disk resolves to. *)
Definition seal_checked (E : Env) (p ns : string) (generation : N) : Act Catalog (N * SnapshotRecord * Snapshot) :=
  _ ← act_of (vk "project" p);
  _ ← act_of (vk "namespace" ns);
  let k := key p ns generation in
  legacy ← act_read (legacy_boundary E p ns);
  legacy ← act_of (ok_or legacy (Bail legacy_missing []));
  _ ← act_of (ensure (legacy <? generation) "Source candidate does not advance its durable legacy boundary" []);
  durable ← act_read (retirement_boundary E p ns);
  durable_floor ← act_of (ok_or durable (Bail retirement_missing []));
  known_floor ← act_get (λ c, default 0 (floors c !! (p, ns)));
  _ ← act_of (ensure ((known_floor <=? durable_floor) && (durable_floor <=? generation))
        "Source retirement boundary is missing, regressed or newer than the candidate; explicit metadata recovery required" []);
  _ ← act_modify (λ c, match snapshots c !! k with Some _ => c | None => make_cache_room c end);
  found ← act_read (read_record E k);
  record ← act_of (ok_or found (Bail "source snapshot was not prepared" []));
  verified ← act_read (load E k (S MAX_DEPTH) true false);
  _ ← act_read (λ c, ensure (match snapshots c !! k with
                             | Some (known, _) => bool_decide (selection known = selection verified ∧ ancestry known = ancestry verified)
                             | None => true
                             end)
                  "Persisted source ancestry differs from a known immutable view; full repair required" []);
  mret (durable_floor, record.1, verified).

Definition seal (E : Env) (p ns : string) (generation : N) : Act Catalog () :=
  checked ← seal_checked E p ns generation;
  let '(durable_floor, record, verified) := checked in
  let k := key p ns generation in
  _ ← write_json (scope p ns) (record_name generation) (to_vec (sealed record));
  act_modify (λ c, with_floors (<[(p, ns) := durable_floor]> (floors c))
                     (match snapshots c !! k with
                      | Some _ => c
                      | None => with_snapshots (<[k := (verified, 0%nat)]> (snapshots c)) c
                      end)).

(** ** Collection *)

Definition remove_file (dir name : string) (c : Catalog) : Catalog :=
  with_disk (alter (delete name) dir (disk c)) c.

(** One entry of the directory: a canonical record that is neither active, nor
    newer, nor kept, is removed; what cannot be decoded is left. *)
Definition prune_entry (E : Env) (p ns : string) (active : N) (keep : list N) (name : string) : Act Catalog () :=
  match strip_suffix ".json" name with
  | None => mret tt
  | Some number =>
      match parse_u64 number with
      | Fail _ => mret tt
      | Ok generation =>
          if negb (String.eqb (show_u64 generation) number) || (active <=? generation)
             || bool_decide (generation ∈ keep) then mret tt
          else λ c, match read_record E (key p ns generation) c with
                    | Ok (Some _) => (remove_file (scope p ns) name c, Ok tt)
                    | Ok None | Fail SerdeError | Fail (InvalidRecord _) => (c, Ok tt)
                    | Fail e => (c, Fail e)
                    end
      end
  end.
Definition prune_metadata (E : Env) (p ns : string) (active : N) (keep : list N) : Act Catalog () :=
  entries ← act_get (λ c, iter (9%nat, 0%nat) (default ∅ (disk c !! scope p ns)));
  act_each (prune_entry E p ns active keep) entries.*1.

(** The pinned views of a scope other than the active one. *)
Definition other_pinned (p ns : string) (active : N) (c : Catalog) : list (Key * (Snapshot * nat)) :=
  filter (λ kv : Key * (Snapshot * nat),
    in_scope p ns kv.1 && negb (key_generation kv.1 =? active) && negb (Nat.eqb kv.2.2 0) = true)
    (iter (10%nat, 0%nat) (snapshots c)).
Definition retain_live (p ns : string) (f : N) (views : gmap Key (Snapshot * nat)) : gmap Key (Snapshot * nat) :=
  filter (λ kv : Key * (Snapshot * nat),
    negb (in_scope p ns kv.1) || (f <=? key_generation kv.1) || negb (Nat.eqb kv.2.2 0) = true) views.

Definition protect_for_gc (E : Env) (p ns : string) (active : N) : Act Catalog (list Snapshot) :=
  active_view ← pin E p ns active;
  act_on_error (drop_pin (key p ns active)) (
    previous_floor ← floor E p ns;
    _ ← act_of (ensure (previous_floor <=? active) "stale source snapshot GC head; refresh the published generation" []);
    _ ← write_json (scope p ns) RETIRED_BEFORE (u64_to_vec active);
    _ ← act_modify (λ c, with_floors (<[(p, ns) := active]> (floors c)) c);
    others ← act_get (other_pinned p ns active);
    _ ← act_modify (λ c, foldr add_pin c others.*1);
    _ ← act_modify (λ c, with_snapshots (retain_live p ns active (snapshots c)) c);
    _ ← act_on_error (λ c, foldr drop_pin c others.*1) (prune_metadata E p ns active (ancestry active_view));
    mret (active_view :: ((λ kv : Key * (Snapshot * nat), kv.2.1) <$> others))).

End snapshots.
