(* ===== verification/SnapshotsSpec.v ===== *)
(** What the snapshot catalog promises: a sealed generation denotes one
    selection for ever, whatever is prepared, sealed, collected, pinned or
    restarted around it; an update changes exactly what it states; pinned views
    stay; a retired generation is not reopened; collection keeps the active one
    loadable. *)
From S2P Require Import Prelude Text Unicode Concrete Store Records Reindex SourceHead Registry Snapshots.

Open Scope N_scope.

(** * Definitions *)

(** The changes of one record on a selection. *)
Definition updated (cs : gmap string (option N)) (files : gmap string N) : gmap string N :=
  omap id cs ∪ filter (λ kv, cs !! kv.1 = None) files.

Section spec.
Context `{SE : !SnapshotEnv}.

(** An unlimited budget and no registry. *)
Definition unlimited : Env := {| budget := None; registry := None |}.

(** The record of a generation on disk. *)
Definition record_at (k : Key) (c : Catalog) : option SnapshotRecord :=
  match read_record unlimited k c with Ok (Some (r, _)) => Some r | _ => None end.
Definition legacy_at (dir : string) (c : Catalog) : option N :=
  match lookup_file dir LEGACY_THROUGH c with
  | Some b => match u64_from_slice b with Ok n => Some n | Fail _ => None end
  | None => None
  end.
Definition dir_of (k : Key) : string := scope (key_project k) (key_namespace k).
Definition file_of (k : Key) : string := record_name (key_generation k).

(** What generations denote: their selection and their ancestry. *)
Notation Truth := (gmap Key (gmap string N * list N)).

(** The record says what its generation denotes. *)
Definition tells (T : Truth) (k : Key) (r : SnapshotRecord) : Prop :=
  match record_files r, parent r with
  | Some files, None => T !! k = Some (updated (changes r) files, [key_generation k])
  | None, Some up => ∃ files anc, T !! at_generation k up = Some (files, anc) ∧
      T !! k = Some (updated (changes r) files, anc ++ [key_generation k])
  | _, _ => True
  end.

Record Inv (T : Truth) (c : Catalog) : Prop := {
  inv_files : ∀ k v n files, snapshots c !! k = Some (v, n) → selection v = Files files →
    T !! k = Some (files, ancestry v) ∧ S (depth v) = length (ancestry v);
  inv_legacy : ∀ k v n g, snapshots c !! k = Some (v, n) → selection v = Legacy g → T !! k = None ∧ g = key_generation k;
  inv_sealed : ∀ k r, record_at k c = Some r → record_pending r = false → tells T k r;
  inv_pending : ∀ k r, record_at k c = Some r → record_pending r = true → T !! k = None;
  inv_boundary : ∀ k, is_Some (T !! k) → ∃ b, legacy_at (dir_of k) c = Some b ∧ b < key_generation k;
  inv_bounds : ∀ k files anc, T !! k = Some (files, anc) →
    (length anc <= MAX_DEPTH)%nat ∧ map_Forall (λ _ revision, revision <= key_generation k) files ∧
    Forall (λ g, g <= key_generation k) anc;
}.

(** * Lemmas *)

Lemma lookup_updated cs files path :
  updated cs files !! path = match cs !! path with Some o => o | None => files !! path end.
Proof.
  unfold updated. rewrite lookup_union, lookup_omap, map_lookup_filter.
  destruct (cs !! path) as [[r|]|] eqn:Hc, (files !! path) eqn:Hf; cbn; simplify_option_eq; try done.
Qed.

(** ** Reading *)

Lemma at_generation_self k : at_generation k (key_generation k) = k.
Proof. by destruct k. Qed.

Lemma read_bytes_Ok E dir name limit c o : read_bytes E dir name limit c = Ok o → o = lookup_file dir name c.
Proof.
  unfold read_bytes. destruct (lookup_file dir name c); [| by intros [= <-]].
  intros ([] & _ & ([] & _ & [= <-])%result_bind_Ok)%result_bind_Ok. done.
Qed.
Lemma read_bytes_unlimited E dir name limit c o :
  read_bytes E dir name limit c = Ok o → read_bytes unlimited dir name limit c = Ok o.
Proof.
  unfold read_bytes. destruct (lookup_file dir name c); [| done].
  intros ([] & Hl & ([] & _ & [= <-])%result_bind_Ok)%result_bind_Ok. rewrite Hl. done.
Qed.

Lemma read_record_Some E k c r len : read_record E k c = Ok (Some (r, len)) → record_at k c = Some r.
Proof.
  unfold record_at, read_record. intros (o & Ho & H)%result_bind_Ok. apply read_bytes_unlimited in Ho. rewrite Ho.
  cbn [mbind result_bind]. destruct o as [b|]; [| done]. by rewrite H.
Qed.
Lemma read_record_None E k c : read_record E k c = Ok None → lookup_file (dir_of k) (file_of k) c = None.
Proof.
  unfold read_record. intros (o & Ho%read_bytes_Ok & H)%result_bind_Ok. fold (dir_of k) in Ho. fold (file_of k) in Ho.
  destruct o as [b|]; [| done].
  apply result_bind_Ok in H as (? & _ & H). by do 4 (apply result_bind_Ok in H as ([] & _ & H)).
Qed.

Lemma record_at_facts k c r :
  record_at k c = Some r →
  record_generation r = key_generation k ∧ record_project r = key_project k ∧ record_namespace r = key_namespace k ∧
  (∀ up, parent r = Some up → up < key_generation k) ∧
  (∀ files, record_files r = Some files → map_Forall (λ _ revision, revision <= key_generation k) files) ∧
  map_Forall (λ _ o, ∀ revision, o = Some revision → revision <= key_generation k) (changes r).
Proof.
  unfold record_at, read_record. intros H. destruct (read_bytes _ _ _ _ _) as [[b|]|]; cbn [mbind result_bind] in H; try done.
  destruct (parse_record b) as [r'|]; [| done]. cbn [mbind result_bind] in H. unfold invalid in H.
  destruct (_ && _ && _ && _) eqn:H1; [| done]. destruct (match parent r' with Some _ => _ | None => _ end) eqn:H2; [| done].
  destruct (match record_files r' with Some _ => _ | None => _ end) eqn:H3; [| done].
  destruct (forallb _ (map_to_list (changes r'))) eqn:H4; [| done]. injection H as <-.
  apply andb_true_iff in H1 as [[[_ H5]%andb_true_iff H6]%andb_true_iff H7].
  apply String.eqb_eq in H5, H6. apply N.eqb_eq in H7. split_and!; [done | done | done | | |].
  - intros up Hup. rewrite Hup in H2. by apply N.ltb_lt.
  - intros files Hf. rewrite Hf in H3. intros i x Hi. rewrite forallb_forall in H3.
    specialize (H3 (i, x)). apply N.leb_le, H3. by apply list_elem_of_In, elem_of_map_to_list.
  - intros i o Hi revision ->. rewrite forallb_forall in H4. specialize (H4 (i, Some revision)).
    apply N.leb_le, H4. by apply list_elem_of_In, elem_of_map_to_list.
Qed.

Lemma legacy_boundary_Some E p ns c n :
  legacy_boundary E p ns c = Ok (Some n) → legacy_at (scope p ns) c = Some n.
Proof.
  unfold legacy_boundary, legacy_at. intros (o & ->%read_bytes_Ok & H)%result_bind_Ok.
  destruct (lookup_file _ _ c) as [b|]; [| done]. apply transpose_Ok in H as (n' & Hn & [= ->]).
  apply map_err_Ok in Hn. by rewrite Hn.
Qed.
Lemma legacy_boundary_None E p ns c : legacy_boundary E p ns c = Ok None → lookup_file (scope p ns) LEGACY_THROUGH c = None.
Proof.
  unfold legacy_boundary. intros (o & ->%read_bytes_Ok & H)%result_bind_Ok.
  destruct (lookup_file _ _ c) as [b|]; [| done]. by apply transpose_Ok in H as (n' & _ & [=]).
Qed.
Lemma legacy_at_file dir c n : legacy_at dir c = Some n → is_Some (lookup_file dir LEGACY_THROUGH c).
Proof. unfold legacy_at. by destruct (lookup_file _ _ c). Qed.

(** ** Applying records *)

Lemma fail_foldl {A B} (f : B → A → result A) l e :
  foldl (λ (acc : result A) x, y ← acc; f x y) (Fail e) l = Fail e.
Proof. by induction l. Qed.

Lemma apply_changes_spec g l files files' :
  NoDup l.*1 → foldl (λ acc change, files ← acc; apply_change g files change) (Ok files) l = Ok files' →
  files' = updated (list_to_map l) files.
Proof.
  revert files. induction l as [|[path o] l IH]; intros files; cbn [foldl fmap list_fmap fst].
  { intros _ [= <-]. apply map_eq. intros i. rewrite lookup_updated. by rewrite (lookup_empty i : list_to_map [] !! i = None). }
  intros [Hp Hnd]%NoDup_cons. cbn [mbind result_bind]. destruct (apply_change g files (path, o)) as [files1|e] eqn:H1;
    [| by rewrite (fail_foldl (λ change files, apply_change g files change))].
  intros H. rewrite (IH _ Hnd H). apply map_eq. intros i. rewrite !lookup_updated. cbn [list_to_map foldr uncurry].
  assert (Hf : files1 !! i = if decide (path = i) then o else files !! i).
  { unfold apply_change in H1. cbn [fst snd] in H1. destruct o as [revision|].
    - apply result_bind_Ok in H1 as ([] & _ & ([] & _ & [= <-])%result_bind_Ok).
      case_decide; subst; [by rewrite lookup_insert_eq | by rewrite lookup_insert_ne].
    - injection H1 as <-. case_decide; subst; [by rewrite lookup_delete_eq | by rewrite lookup_delete_ne]. }
  rewrite Hf. case_decide as Hi; subst.
  - rewrite lookup_insert_eq. rewrite (not_elem_of_list_to_map_1 l i Hp). done.
  - by rewrite lookup_insert_ne.
Qed.

Lemma apply_record_spec k durable c files anc r st :
  apply_record k durable c (files, anc) r = Ok st → st = (updated (changes r) files, anc ++ [record_generation r]).
Proof.
  unfold apply_record. intros (files' & Hf & ([] & _ & [= <-])%result_bind_Ok)%result_bind_Ok. cbn [fst snd] in *. f_equal.
  pose proof (sort_rows_perm (map_to_list (changes r))) as Hperm.
  assert (Hnd : NoDup (sort_rows (map_to_list (changes r))).*1) by (rewrite Hperm; apply NoDup_fst_map_to_list).
  rewrite (apply_changes_spec _ _ _ _ Hnd Hf). f_equal. rewrite <-(list_to_map_to_list (changes r)) at 2.
  by apply list_to_map_proper.
Qed.

(** A run of records, oldest first. *)
Definition replay (st : gmap string N * list N) (records : list SnapshotRecord) : gmap string N * list N :=
  foldl (λ st r, (updated (changes r) st.1, st.2 ++ [record_generation r])) st records.

Lemma apply_records_spec k durable c st records st' :
  foldl (λ acc record, st ← acc; apply_record k durable c st record) (Ok st) records = Ok st' → st' = replay st records.
Proof.
  revert st. induction records as [|r records IH]; intros [files anc]; cbn [foldl replay]; [by intros [= <-] |].
  cbn [mbind result_bind]. destruct (apply_record k durable c (files, anc) r) as [st1|e] eqn:H1;
    [| by rewrite (fail_foldl (λ r st, apply_record k durable c st r))].
  apply apply_record_spec in H1 as ->. apply IH.
Qed.
Lemma replay_snoc st records r :
  replay st (records ++ [r]) = (updated (changes r) (replay st records).1, (replay st records).2 ++ [record_generation r]).
Proof. unfold replay. by rewrite foldl_app. Qed.
Lemma replay_length st records : length (replay st records).2 = (length st.2 + length records)%nat.
Proof.
  revert st. induction records as [|r records IH]; intros st; cbn [replay foldl length]; [lia |].
  unfold replay in IH. rewrite IH. cbn [snd]. rewrite length_app. cbn. lia.
Qed.

(** ** Walking to the older records *)

Definition base_of (b : Base) : option (gmap string N * list N) :=
  match b with
  | AtCheckpoint files => Some (files, [])
  | AtView view => match selection view with Files files => Some (files, ancestry view) | Legacy _ => None end
  end.

Lemma walk_None E n k durable permit c cursor acc size :
  walk E n k durable permit c cursor acc size = Ok None →
  acc = [] ∧ lookup_file (dir_of k) (record_name cursor) c = None ∧ allow_legacy E k c = Ok tt ∧ permit = true.
Proof.
  revert cursor acc size. induction n as [|n IH]; intros cursor acc size; [done |]. cbn [walk].
  intros (found & Hf & H)%result_bind_Ok. destruct found as [[r len]|].
  - apply result_bind_Ok in H as ([] & _ & H). apply result_bind_Ok in H as ([] & _ & H).
    destruct (record_files r), (parent r) as [up|]; try done.
    destruct (if durable then None else snapshots c !! at_generation k up) as [[view m]|].
    + by apply result_bind_Ok in H as ([] & _ & H).
    + by apply IH in H as [? _].
  - apply result_bind_Ok in H as ([] & Hl & H). apply result_bind_Ok in H as ([] & Hper%ensure_Ok & H).
    apply result_bind_Ok in H as ([] & Ha & _). apply ensure_Ok, Nat.eqb_eq, length_zero_iff_nil in Hl.
    by apply read_record_None in Hf.
Qed.

(** What the walk collects leads from its base to the generation it starts at;
    [durable] admits a pending record at the generation that is resolved. *)
Lemma walk_Some E n T k durable permit c cursor acc size records b :
  Inv T c → cursor <= key_generation k →
  walk E n k durable permit c cursor acc size = Ok (Some (records, b)) →
  ∃ r older st, records = older ++ r :: acc ∧ record_at (at_generation k cursor) c = Some r ∧ base_of b = Some st ∧
    (durable = false ∨ cursor ≠ key_generation k → record_pending r = false) ∧
    (∀ view, b = AtView view → S (depth view) = length (ancestry view)) ∧
    match record_files r, parent r with
    | Some files, None => older = [] ∧ st = (files, [])
    | None, Some up => T !! at_generation k up = Some (replay st older)
    | _, _ => False
    end.
Proof.
  intros HI. revert cursor acc size. induction n as [|n IH]; intros cursor acc size Hc; [done |]. cbn [walk].
  intros (found & Hf & H)%result_bind_Ok. destruct found as [[r len]|].
  2: { apply result_bind_Ok in H as (? & _ & H). apply result_bind_Ok in H as (? & _ & H).
       by apply result_bind_Ok in H as (? & _ & H). }
  apply read_record_Some in Hf. pose proof (record_at_facts _ _ _ Hf) as (_ & _ & _ & Hup & _).
  apply result_bind_Ok in H as ([] & Hp & H). apply ensure_Ok in Hp. apply result_bind_Ok in H as ([] & _ & H).
  assert (Hpend : durable = false ∨ cursor ≠ key_generation k → record_pending r = false).
  { destruct (record_pending r); [| done]. destruct durable; [| done]. cbn in Hp. apply N.eqb_eq in Hp. naive_solver. }
  destruct (record_files r) as [files|] eqn:Hrf, (parent r) as [up|] eqn:Hpar; try done.
  { injection H as <- <-. exists r, [], (files, []). rewrite Hrf, Hpar. by split_and!. }
  specialize (Hup up eq_refl). cbn in Hup.
  destruct (if durable then None else snapshots c !! at_generation k up) as [[view m]|] eqn:Hcache.
  - destruct durable; [done |]. apply result_bind_Ok in H as ([] & Hv & [= <- <-]). apply ensure_Ok in Hv.
    unfold is_files in Hv. destruct (selection view) as [|ufs] eqn:Hsel; [done |].
    exists r, [], (ufs, ancestry view). cbn [base_of]. rewrite Hsel, Hrf, Hpar.
    destruct (inv_files _ _ HI _ _ _ _ Hcache Hsel) as [HT Hd]. split_and!; try done. by intros ? [= <-].
  - apply IH in H as (r' & older & st & -> & Hr' & Hb & Hnp & Hd & Hsh); [| lia].
    exists r, (older ++ [r']), st. rewrite Hrf, Hpar. split_and!; [by rewrite <-app_assoc | done | done | done | done |].
    rewrite replay_snoc. pose proof (record_at_facts _ _ _ Hr') as (Hg & _). cbn in Hg. rewrite Hg.
    pose proof (inv_sealed _ _ HI _ _ Hr' (Hnp ltac:(right; lia))) as Ht. unfold tells in Ht.
    destruct (record_files r') as [files|], (parent r') as [up'|]; try done.
    + destruct Hsh as [-> ->]. exact Ht.
    + destruct Ht as (files & anc & HT & HT'). change (at_generation (at_generation k up) up') with (at_generation k up') in HT.
      rewrite Hsh in HT. injection HT as HT. rewrite HT, HT'. done.
Qed.

(** ** Loading *)

(** What a record says its generation denotes, given what older ones do. *)
Definition resolved (T : Truth) (k : Key) (r : SnapshotRecord) (d : gmap string N * list N) : Prop :=
  match record_files r, parent r with
  | Some files, None => d = (updated (changes r) files, [key_generation k])
  | None, Some up => ∃ files anc, T !! at_generation k up = Some (files, anc) ∧
      d = (updated (changes r) files, anc ++ [key_generation k])
  | _, _ => False
  end.
Lemma tells_resolved T k r d : tells T k r → resolved T k r d → T !! k = Some d.
Proof.
  unfold tells, resolved. destruct (record_files r), (parent r); try done; [by intros ? -> |].
  intros (files & anc & H1 & H2) (files' & anc' & H1' & ->). rewrite H1 in H1'. injection H1' as -> ->. done.
Qed.
Lemma resolved_tells T T' k r d : resolved T k r d → T ⊆ T' → T' !! k = Some d → tells T' k r.
Proof.
  unfold tells, resolved. destruct (record_files r), (parent r); try done; [by intros -> |].
  intros (files & anc & H1 & ->) Hsub H. exists files, anc. split; [by eapply lookup_weaken | done].
Qed.
Lemma tells_mono T T' k r : T ⊆ T' → tells T k r → tells T' k r.
Proof.
  intros Hsub. unfold tells. destruct (record_files r), (parent r); try done; [intros H; by eapply lookup_weaken |].
  intros (files & anc & H1 & H2). exists files, anc. split; by eapply lookup_weaken.
Qed.

Lemma no_legacy_over_sealed E T c k :
  Inv T c → lookup_file (dir_of k) (file_of k) c = None → allow_legacy E k c = Ok tt → T !! k = None.
Proof.
  intros HI _ Ha. destruct (T !! k) as [d|] eqn:HT; [| done]. exfalso.
  destruct (inv_boundary _ _ HI k ltac:(by rewrite HT)) as (b & Hb & Hlt).
  unfold allow_legacy in Ha. apply result_bind_Ok in Ha as (known & Hk & Ha). destruct known as [b'|].
  - apply legacy_boundary_Some in Hk. fold (dir_of k) in Hk. rewrite Hb in Hk. injection Hk as <-.
    apply ensure_Ok, N.leb_le in Ha. lia.
  - apply legacy_boundary_None in Hk. fold (dir_of k) in Hk. apply legacy_at_file in Hb. rewrite Hk in Hb. by destruct Hb.
Qed.

Lemma load_spec E T c k n durable permit v :
  Inv T c → load E k n durable permit c = Ok v →
  match selection v with
  | Legacy g => T !! k = None ∧ g = key_generation k ∧ permit = true
  | Files files =>
      ∃ r, record_at k c = Some r ∧ (durable = false → record_pending r = false) ∧
        resolved T k r (files, ancestry v) ∧ S (depth v) = length (ancestry v) ∧ (length (ancestry v) <= MAX_DEPTH)%nat
  end.
Proof.
  intros HI. unfold load. intros (found & Hw & H)%result_bind_Ok. destruct found as [[records b]|].
  2: { injection H as <-. cbn [selection]. apply walk_None in Hw as (_ & Hf & Ha & ->). split_and!; [by eapply no_legacy_over_sealed | done | done]. }
  eapply walk_Some in Hw as (r & older & st & -> & Hr & Hb & Hp & Hdv & Hsh); [| done | done].
  rewrite at_generation_self in Hr. pose proof (record_at_facts _ _ _ Hr) as (Hg & _).
  assert (Hst : match b with AtCheckpoint _ => [] | AtView view => ancestry view end = st.2 ∧
    (match b with
     | AtCheckpoint files => Ok files
     | AtView view => match selection view with
                      | Files files => Ok files
                      | Legacy _ => Fail (Bail "source snapshot checkpoint is missing" []) end
     end = Ok st.1)).
  { destruct b as [files|view]; cbn [base_of] in Hb; [by injection Hb as <- |].
    destruct (selection view); [done |]. by injection Hb as <-. }
  destruct Hst as [Hst2 Hst1]. rewrite Hst1 in H. cbn [mbind result_bind] in H. rewrite Hst2 in H.
  apply result_bind_Ok in H as ([] & _ & H). apply result_bind_Ok in H as ([] & Hd & H).
  apply ensure_Ok, andb_true_iff in Hd as [_ Hd%Nat.leb_le]. apply result_bind_Ok in H as ([] & _ & H).
  apply result_bind_Ok in H as (st' & Hst' & [= <-]). cbn [selection ancestry depth].
  rewrite <-(surjective_pairing st) in Hst'. apply apply_records_spec in Hst' as ->.
  pose proof (replay_length st (older ++ [r])) as Hlen. rewrite length_app in Hlen, Hd |- *. cbn [length] in Hlen, Hd |- *.
  exists r. split_and!; [done | intros ->; apply Hp; by left | | |].
  - unfold resolved. rewrite replay_snoc, Hg. cbn [fst snd]. destruct (record_files r) as [files|], (parent r) as [up|]; try done.
    + destruct Hsh as [-> ->]. done.
    + exists (replay st older).1, (replay st older).2. split; [by rewrite Hsh, <-surjective_pairing | done].
  - rewrite Hlen. destruct b as [files|view]; cbn [base_of] in Hb.
    + injection Hb as <-. cbn. lia.
    + destruct (selection view) as [|files] eqn:Hsel; [done |]. injection Hb as <-. cbn [snd] in *.
      specialize (Hdv view eq_refl). lia.
  - rewrite Hlen. lia.
Qed.

(** ** What keeps the invariant *)

Definition keeps_inv (T : Truth) (c c' : Catalog) : Prop := Inv T c → Inv T c'.
#[local] Instance keeps_inv_preorder T : PreOrder (keeps_inv T).
Proof. split; unfold keeps_inv; [by intros c | intros a b c; auto]. Qed.

Definition view_ok (T : Truth) (k : Key) (v : Snapshot) : Prop :=
  match selection v with
  | Files files => T !! k = Some (files, ancestry v) ∧ S (depth v) = length (ancestry v)
  | Legacy g => T !! k = None ∧ g = key_generation k
  end.

Lemma inv_view T c k v n : Inv T c → snapshots c !! k = Some (v, n) → view_ok T k v.
Proof.
  intros HI Hk. unfold view_ok. destruct (selection v) as [g|files] eqn:Hs; [by eapply inv_legacy | by eapply inv_files].
Qed.

(** The three ways in which a catalog may change under what is known. *)
Lemma inv_change T c c' :
  (∀ k v n, snapshots c' !! k = Some (v, n) → (∃ n', snapshots c !! k = Some (v, n')) ∨ view_ok T k v) →
  (∀ k r, record_at k c' = Some r → record_at k c = Some r ∨ record_pending r = true ∧ T !! k = None) →
  (∀ k, is_Some (T !! k) → legacy_at (dir_of k) c' = legacy_at (dir_of k) c) →
  keeps_inv T c c'.
Proof.
  intros Hs Hr Hb HI.
  assert (Hv : ∀ k v n, snapshots c' !! k = Some (v, n) → view_ok T k v).
  { intros k v n Hk. destruct (Hs _ _ _ Hk) as [[n' Hk']|]; [by eapply inv_view | done]. }
  split.
  - intros k v n files Hk Hsel. specialize (Hv k v n Hk). unfold view_ok in Hv. by rewrite Hsel in Hv.
  - intros k v n g Hk Hsel. specialize (Hv k v n Hk). unfold view_ok in Hv. by rewrite Hsel in Hv.
  - intros k r Hk Hp. destruct (Hr k r Hk) as [Hk'|[Hp' _]]; [by eapply inv_sealed | congruence].
  - intros k r Hk Hp. destruct (Hr k r Hk) as [Hk'|[_ HT]]; [by eapply inv_pending | done].
  - intros k Hk. rewrite Hb by done. by apply (inv_boundary _ _ HI).
  - apply HI.
Qed.

Lemma record_at_file k c c' :
  lookup_file (dir_of k) (file_of k) c = lookup_file (dir_of k) (file_of k) c' → record_at k c = record_at k c'.
Proof.
  intros H. unfold record_at, read_record, read_bytes. fold (dir_of k). fold (file_of k). by rewrite H.
Qed.
Lemma record_at_no_file k c : lookup_file (dir_of k) (file_of k) c = None → record_at k c = None.
Proof. intros H. unfold record_at, read_record, read_bytes. fold (dir_of k). fold (file_of k). by rewrite H. Qed.

Lemma inv_cache T c s f :
  (∀ k v n, s !! k = Some (v, n) → (∃ n', snapshots c !! k = Some (v, n')) ∨ view_ok T k v) →
  keeps_inv T c {| disk := disk c; snapshots := s; floors := f |}.
Proof. intros Hs. apply inv_change; [done | by left | done]. Qed.

Lemma inv_floors T c f : keeps_inv T c (with_floors f c).
Proof. apply inv_cache. eauto. Qed.

Lemma evict_views_sub fuel views k x : evict_views fuel views !! k = Some x → views !! k = Some x.
Proof.
  revert views. induction fuel as [|fuel IH]; intros views; cbn [evict_views]; destruct (Nat.ltb _ _); try done.
  destruct (min_by_key _ _) as [[victim y]|]; [| done]. intros [_ H]%IH%lookup_delete_Some. done.
Qed.
Lemma inv_make_room T c : keeps_inv T c (make_cache_room c).
Proof. apply inv_cache. intros k v n H%evict_views_sub. eauto. Qed.

Lemma inv_alter_pins T c k (f : nat → nat) :
  keeps_inv T c (with_snapshots (alter (λ vn : Snapshot * nat, (vn.1, f vn.2)) k (snapshots c)) c).
Proof.
  apply inv_cache. intros k' v n. destruct (decide (k = k')) as [<-|Hne].
  - rewrite lookup_alter_eq. intros ([v' n'] & Hk & [= -> ->])%fmap_Some. eauto.
  - rewrite lookup_alter_ne by done. eauto.
Qed.
Lemma inv_add_pin T k c : keeps_inv T c (add_pin k c).
Proof. apply inv_alter_pins. Qed.
Lemma inv_drop_pin T k c : keeps_inv T c (drop_pin k c).
Proof. apply inv_alter_pins. Qed.
Lemma inv_foldr_pins T (f : Key → Catalog → Catalog) ks c :
  (∀ k c, keeps_inv T c (f k c)) → keeps_inv T c (foldr f c ks).
Proof. intros Hf HI. induction ks as [|k ks IH]; [done |]. by apply Hf. Qed.
Lemma inv_forget T k c : keeps_inv T c (forget_view k c).
Proof. apply inv_cache. intros k' v n [_ H]%lookup_delete_Some. eauto. Qed.
Lemma inv_retain T p ns f c : keeps_inv T c (with_snapshots (retain_live p ns f (snapshots c)) c).
Proof. apply inv_cache. intros k' v n [H _]%map_lookup_filter_Some. eauto. Qed.

(** *** Files *)

Definition put_file (dir name : string) (b : bytes) (c : Catalog) : Catalog :=
  with_disk (<[dir := <[name := b]> (default ∅ (disk c !! dir))]> (disk c)) c.
Lemma lookup_put_file d n dir name b c :
  lookup_file d n (put_file dir name b c) = if decide (d = dir ∧ n = name) then Some b else lookup_file d n c.
Proof.
  unfold lookup_file, put_file. cbn [disk with_disk]. destruct (decide (d = dir)) as [->|Hd].
  - rewrite lookup_insert_eq. cbn. destruct (decide (n = name)) as [->|Hn].
    + by rewrite lookup_insert_eq, decide_True.
    + rewrite lookup_insert_ne, decide_False by naive_solver. by destruct (disk c !! dir).
  - by rewrite lookup_insert_ne, decide_False by naive_solver.
Qed.
Lemma lookup_remove_file d n dir name c :
  lookup_file d n (remove_file dir name c) = if decide (d = dir ∧ n = name) then None else lookup_file d n c.
Proof.
  unfold lookup_file, remove_file. cbn [disk with_disk]. destruct (decide (d = dir)) as [->|Hd].
  - rewrite lookup_alter_eq. destruct (disk c !! dir) as [files|]; cbn.
    + destruct (decide (n = name)) as [->|Hn]; [by rewrite lookup_delete_eq, decide_True |].
      rewrite lookup_delete_ne, decide_False by naive_solver. done.
    + by destruct (decide _).
  - by rewrite lookup_alter_ne, decide_False by naive_solver.
Qed.

Lemma digits_head s c t : string_forallb is_ascii_digit s = true → is_ascii_digit c = false → c ≠ "."%char →
  s +:+ ".json" ≠ String c t.
Proof.
  intros Hs Hc Hd. destruct s as [|x s]; cbn [string_forallb] in Hs.
  - intros [= <- _]. done.
  - rewrite app_cons. intros [= -> _]. apply andb_true_iff in Hs as [Hs _]. congruence.
Qed.
Lemma record_name_legacy g : record_name g ≠ LEGACY_THROUGH.
Proof. apply digits_head; [apply show_u64_digits | done | done]. Qed.
Lemma record_name_retired g : record_name g ≠ RETIRED_BEFORE.
Proof. apply digits_head; [apply show_u64_digits | done | done]. Qed.

Lemma legacy_at_put_other d dir name b c : name ≠ LEGACY_THROUGH → legacy_at d (put_file dir name b c) = legacy_at d c.
Proof. intros Hn. unfold legacy_at. rewrite lookup_put_file, decide_False; [done | naive_solver]. Qed.
Lemma record_at_put_other k dir name b c : (∀ g, record_name g ≠ name) → record_at k (put_file dir name b c) = record_at k c.
Proof.
  intros Hn. apply record_at_file. rewrite lookup_put_file, decide_False; [done |].
  intros [_ H]. by apply (Hn (key_generation k)).
Qed.

Lemma inv_put_retired T dir b c : keeps_inv T c (put_file dir RETIRED_BEFORE b c).
Proof.
  apply inv_change; [eauto | | by intros; rewrite legacy_at_put_other].
  intros k r. rewrite record_at_put_other by apply record_name_retired. by left.
Qed.
Lemma inv_put_legacy T dir b c : lookup_file dir LEGACY_THROUGH c = None → keeps_inv T c (put_file dir LEGACY_THROUGH b c).
Proof.
  intros Hnone HI. revert HI. change (keeps_inv T c (put_file dir LEGACY_THROUGH b c)). intros HI.
  assert (Hdir : ∀ k, is_Some (T !! k) → dir_of k ≠ dir).
  { intros k Hk <-. destruct (inv_boundary _ _ HI k Hk) as (x & Hx%legacy_at_file & _). rewrite Hnone in Hx. by destruct Hx. }
  revert HI. apply inv_change; [eauto | |].
  - intros k r. rewrite record_at_put_other by apply record_name_legacy. by left.
  - intros k Hk. unfold legacy_at. rewrite lookup_put_file, decide_False; [done |]. intros [He _]. by apply (Hdir k).
Qed.

(** A record written for a generation is a record of no other one. *)
Lemma record_at_put_record k k' r b c :
  record_project r = key_project k → record_namespace r = key_namespace k → record_generation r = key_generation k →
  b = to_vec r → ∀ r', record_at k' (put_file (dir_of k) (file_of k) b c) = Some r' →
  k' = k ∧ r' = r ∨ k' ≠ k ∧ record_at k' c = Some r'.
Proof.
  intros Hp Hns Hg -> r' Hr'.
  destruct (decide (dir_of k' = dir_of k ∧ file_of k' = file_of k)) as [[Hd Hf]|Hne].
  2: { right. split; [naive_solver |]. rewrite <-Hr'. apply record_at_file. by rewrite lookup_put_file, decide_False. }
  left. pose proof (record_at_facts _ _ _ Hr') as (Hg' & Hp' & Hns' & _).
  assert (r' = r) as ->.
  { unfold record_at in Hr'. destruct (read_record _ _ _) as [[[r0 len]|]|] eqn:Hrr; try done. injection Hr' as ->.
    unfold read_record in Hrr. apply result_bind_Ok in Hrr as (o & ->%read_bytes_Ok & Hrr).
    fold (dir_of k') in Hrr. fold (file_of k') in Hrr. rewrite lookup_put_file, decide_True in Hrr by done.
    unfold parse_record in Hrr. rewrite from_slice_to_vec in Hrr. cbn [map_err mbind result_bind] in Hrr.
    do 4 (apply result_bind_Ok in Hrr as ([] & _ & Hrr)). by injection Hrr as ->. }
  split; [| done]. destruct k, k'; cbn in *; congruence.
Qed.

(** ** The operations *)

Lemma write_json_run dir name b c :
  write_json dir name b c = (put_file dir name b c, Ok tt) ∨ (write_json dir name b c).1 = c ∧ is_ok (write_json dir name b c).2 = false.
Proof.
  unfold write_json, mbind, act_bind, act_of. destruct (ensure _ _ _) as [[]|e]; [by left | by right].
Qed.
Lemma keeps_write T dir name b : (∀ c, keeps_inv T c (put_file dir name b c)) → keeps (keeps_inv T) (write_json dir name b).
Proof. intros H c. destruct (write_json_run dir name b c) as [-> | [-> _]]; [apply H | by intros ?]. Qed.

#[local] Hint Resolve inv_floors inv_make_room inv_add_pin inv_drop_pin inv_forget inv_retain inv_put_retired : keeps.
#[local] Hint Extern 1 (keeps_inv _ _ (foldr _ _ _)) => apply inv_foldr_pins : keeps.
#[local] Hint Resolve keeps_write : keeps.

Lemma keeps_floor T E p ns : keeps (keeps_inv T) (floor E p ns).
Proof. unfold floor. act_keeps. Qed.
Lemma keeps_retirement T E p ns base full : keeps (keeps_inv T) (ensure_retirement_boundary E p ns base full).
Proof. unfold ensure_retirement_boundary. act_keeps. Qed.
Lemma keeps_legacy T E p ns base full empty : keeps (keeps_inv T) (ensure_legacy_boundary E p ns base full empty).
Proof.
  intros c. unfold ensure_legacy_boundary, mbind, act_bind, act_read. destruct (legacy_boundary E p ns c) as [[b|]|e] eqn:Hb; try by intros ?.
  cbn [act_get]. unfold act_of. destruct (ensure _ _ _) as [[]|e]; [| by intros ?]. unfold act_get.
  match goal with |- context [write_json ?d ?n ?b c] => destruct (write_json_run d n b c) as [-> | [-> _]] end; [| by intros ?].
  apply inv_put_legacy. by eapply legacy_boundary_None.
Qed.
#[local] Hint Resolve keeps_floor keeps_retirement keeps_legacy : keeps.

Lemma keeps_pin T E p ns g join : keeps (keeps_inv T) (pin_inner E p ns g join).
Proof.
  unfold pin_inner, lease. do 4 (apply keeps_bind; [exact _ | act_keeps | intros ?]). destruct a2; [act_keeps |].
  destruct (g <? a1); [act_keeps |]. do 2 (apply keeps_bind; [exact _ | act_keeps | intros ?]).
  destruct a3 as [[view n]|]; [act_keeps |]. apply keeps_bind; [exact _ | act_keeps | intros _].
  intros c. unfold mbind, act_bind, act_read. destruct (load _ _ _ _ _ c) as [v|] eqn:Hl; [| by intros ?].
  cbn. intros HI. pose proof HI as HI'. revert HI'. apply inv_cache. intros k v' n [[<- [= <- <-]]|[_ Hk]]%lookup_insert_Some; [right | by left; eauto].
  apply (load_spec _ _ _ _ _ _ _ _ HI) in Hl. unfold view_ok. destruct (selection v) as [|files]; [naive_solver |].
  destruct Hl as (r & Hr & Hp & Hres & Hd & _). split; [| done]. eapply tells_resolved; [| exact Hres].
  eapply inv_sealed; [exact HI | exact Hr | by apply Hp].
Qed.
#[local] Hint Resolve keeps_pin : keeps.

(** A pending record for a generation that was never sealed. *)
Lemma keeps_new_record T p ns g r :
  T !! key p ns g = None → record_project r = p → record_namespace r = ns → record_generation r = g →
  record_pending r = true → keeps (keeps_inv T) (write_json (scope p ns) (record_name g) (to_vec r)).
Proof.
  intros HT Hp Hns Hg Hpend. apply keeps_write. intros c. apply inv_change; [eauto | |].
  - intros k r' Hr'. apply (record_at_put_record (key p ns g) k r) in Hr'; [| done..]. destruct Hr' as [[-> ->]|[_ ?]]; auto.
  - intros k _. apply legacy_at_put_other, record_name_legacy.
Qed.
#[local] Hint Resolve keeps_new_record : keeps.

Lemma keeps_prepare T E p ns base g legacy changed deleted :
  T !! key p ns g = None → keeps (keeps_inv T) (prepare E p ns base g legacy changed deleted).
Proof. intros HT. unfold prepare, pin. act_keeps. Qed.
Lemma keeps_prepare_full T E p ns base g paths fresh :
  T !! key p ns g = None → keeps (keeps_inv T) (prepare_full_inner E p ns base g paths fresh).
Proof. intros HT. unfold prepare_full_inner. act_keeps. Qed.

Lemma keeps_prune T E p ns active keep : keeps (keeps_inv T) (prune_metadata E p ns active keep).
Proof.
  unfold prune_metadata. apply keeps_bind; [exact _ | act_keeps | intros entries]. apply keeps_each; [exact _ | intros name].
  destruct (decide (name = LEGACY_THROUGH)) as [->|Hn]; [by apply keeps_ret, _ |].
  unfold prune_entry. destruct (strip_suffix _ _) as [number|]; [| act_keeps]. destruct (parse_u64 number) as [g|]; [| act_keeps].
  destruct (negb _ || _ || _); [act_keeps |]. intros c. destruct (read_record _ _ _) as [[r|]|[]]; try by intros ?.
  cbn [fst]. apply inv_change; [eauto | |].
  - intros k r' Hr'. left. rewrite <-Hr'. apply record_at_file. rewrite lookup_remove_file. case_decide as Hd; [| done].
    rewrite record_at_no_file in Hr'; [done |]. by rewrite lookup_remove_file, decide_True.
  - intros k _. unfold legacy_at. rewrite lookup_remove_file, decide_False; [done | naive_solver].
Qed.
#[local] Hint Resolve keeps_prune : keeps.
Lemma keeps_gc T E p ns active : keeps (keeps_inv T) (protect_for_gc E p ns active).
Proof. unfold protect_for_gc, pin. act_keeps. Qed.


(** ** Sealing *)

Lemma seal_checked_spec T E p ns g c c' f r v :
  Inv T c → seal_checked E p ns g c = (c', Ok (f, r, v)) →
  Inv T c' ∧ disk c' = disk c ∧ record_at (key p ns g) c' = Some r ∧ (∃ l, legacy_at (scope p ns) c' = Some l ∧ l < g) ∧
  (∃ files, selection v = Files files ∧ resolved T (key p ns g) r (files, ancestry v) ∧
    S (depth v) = length (ancestry v) ∧ (length (ancestry v) <= MAX_DEPTH)%nat) ∧
  ∀ v0 n, snapshots c' !! key p ns g = Some (v0, n) → selection v0 = selection v ∧ ancestry v0 = ancestry v.
Proof.
  intros HI. unfold seal_checked.
  intros (c1 & [] & [= <- _] & (c2 & [] & [= <- _] & H)%act_bind_Ok)%act_bind_Ok.
  apply act_bind_Ok in H as (c3 & o & [= <- Hl] & (c4 & l & [= <- Hl'%ok_or_Ok] & H)%act_bind_Ok). subst o.
  apply act_bind_Ok in H as (c5 & [] & [= <- Hlt%ensure_Ok%N.ltb_lt] & H).
  apply act_bind_Ok in H as (c6 & d & [= <- _] & (c7 & df & [= <- _] & H)%act_bind_Ok).
  apply act_bind_Ok in H as (c8 & kf & [= <- <-] & (c9 & [] & [= <- _] & H)%act_bind_Ok).
  apply act_bind_Ok in H as (c10 & [] & [= <-] & H).
  set (c0 := match snapshots c !! key p ns g with Some _ => c | None => make_cache_room c end) in *.
  assert (HI0 : Inv T c0) by (unfold c0; destruct (snapshots c !! _); [done | by apply inv_make_room]).
  assert (Hd : disk c0 = disk c) by (unfold c0; by destruct (snapshots c !! _)).
  apply act_bind_Ok in H as (c11 & found & [= <- Hf] & (c12 & [r' len] & [= <- ->%ok_or_Ok] & H)%act_bind_Ok).
  apply act_bind_Ok in H as (c13 & v' & [= <- Hv] & (c14 & [] & [= <- Hsame%ensure_Ok] & [= <- <- <- <-])%act_bind_Ok).
  cbn [fst]. apply read_record_Some in Hf. pose proof (load_spec _ _ _ _ _ _ _ _ HI0 Hv) as Hload.
  split_and!; [done | done | done | | |].
  - exists l. split; [| done]. apply legacy_boundary_Some in Hl. unfold legacy_at, lookup_file in *. by rewrite Hd.
  - destruct (selection v') as [|files]; [naive_solver |]. exists files.
    destruct Hload as (r0 & Hr0 & _ & Hres & ? & ?). rewrite Hf in Hr0. injection Hr0 as <-. done.
  - intros v0 n Hk. rewrite Hk in Hsame. by apply bool_decide_eq_true in Hsame.
Qed.

Lemma updated_bound cs files g :
  map_Forall (λ _ o, ∀ revision, o = Some revision → revision <= g) cs →
  map_Forall (λ _ revision, revision <= g) files → map_Forall (λ _ revision, revision <= g) (updated cs files).
Proof.
  intros Hc Hf i revision. rewrite lookup_updated. destruct (cs !! i) as [o|] eqn:Hi; [| by apply Hf].
  intros ->. by apply (Hc i _ Hi).
Qed.

Lemma resolved_bound T c k r files anc :
  Inv T c → record_at k c = Some r → resolved T k r (files, anc) →
  map_Forall (λ _ revision, revision <= key_generation k) files ∧ Forall (λ g, g <= key_generation k) anc.
Proof.
  intros HI Hr. pose proof (record_at_facts _ _ _ Hr) as (_ & _ & _ & Hup & Hf & Hc). unfold resolved.
  destruct (record_files r) as [fs|], (parent r) as [up|]; try done.
  - intros [= -> ->]. split; [apply updated_bound; [done | by apply Hf] | by repeat constructor].
  - intros (fs & anc' & HT & [= -> ->]). apply (inv_bounds _ _ HI) in HT as (_ & HT & Ha). specialize (Hup up eq_refl).
    cbn in HT, Ha. split; [apply updated_bound; [done |] |].
    + intros i revision Hi. specialize (HT i revision Hi). cbn in HT. lia.
    + apply Forall_app. split; [| by repeat constructor]. eapply Forall_impl; [exact Ha |]. cbn. intros h ?. lia.
Qed.

(** The sealed record on disk and the view in the cache. *)
Lemma sealed_inv T c1 c3 k r v files l :
  Inv T c1 → record_at k c1 = Some r → legacy_at (dir_of k) c1 = Some l → l < key_generation k →
  selection v = Files files → resolved T k r (files, ancestry v) → S (depth v) = length (ancestry v) →
  (length (ancestry v) <= MAX_DEPTH)%nat → T ⊆ <[k := (files, ancestry v)]> T →
  (∀ v0 n, snapshots c1 !! k = Some (v0, n) → selection v0 = selection v ∧ ancestry v0 = ancestry v) →
  (∀ k' v' n', snapshots c3 !! k' = Some (v', n') → snapshots c1 !! k' = Some (v', n') ∨ k' = k ∧ v' = v) →
  (∀ dir name, lookup_file dir name c3 = lookup_file dir name (put_file (dir_of k) (file_of k) (to_vec (sealed r)) c1)) →
  Inv (<[k := (files, ancestry v)]> T) c3.
Proof.
  intros HI1 Hr Hl Hlt Hsel Hres Hdep Hlen Hsub Hknown Hc3 Hf3.
  assert (Hr3 : ∀ k' r', record_at k' c3 = Some r' → k' = k ∧ r' = sealed r ∨ k' ≠ k ∧ record_at k' c1 = Some r').
  { intros k' r'. rewrite (record_at_file k' c3 _ (Hf3 _ _)).
    pose proof (record_at_facts _ _ _ Hr) as (Hg & Hp & Hns & _). by apply record_at_put_record. }
  split.
  - intros k' v' n' files' Hk' Hsel'. destruct (Hc3 _ _ _ Hk') as [Hold | [-> ->]].
    + destruct (inv_files _ _ HI1 _ _ _ _ Hold Hsel') as [HT ?]. split; [| done]. by eapply lookup_weaken.
    + rewrite lookup_insert_eq. split; [congruence | done].
  - intros k' v' n' g' Hk' Hsel'. destruct (Hc3 _ _ _ Hk') as [Hold | [-> ->]]; [| congruence].
    destruct (inv_legacy _ _ HI1 _ _ _ _ Hold Hsel') as [HT ?]. split; [| done].
    rewrite lookup_insert_ne; [done |]. intros <-. apply Hknown in Hold as [Hs _]. congruence.
  - intros k' r' Hr' Hp'. destruct (Hr3 _ _ Hr') as [[-> ->] | [_ Hold]].
    + eapply (resolved_tells T); [exact Hres | exact Hsub | by rewrite lookup_insert_eq].
    + eapply tells_mono; [exact Hsub | by eapply inv_sealed].
  - intros k' r' Hr' Hp'. destruct (Hr3 _ _ Hr') as [[-> ->] | [Hne Hold]]; [done |].
    rewrite lookup_insert_ne by done. by eapply inv_pending.
  - intros k' Hk'. assert (Hleg : legacy_at (dir_of k') c3 = legacy_at (dir_of k') c1).
    { unfold legacy_at. rewrite Hf3. apply legacy_at_put_other, record_name_legacy. }
    rewrite Hleg. destruct (decide (k' = k)) as [->|Hne]; [by exists l |].
    rewrite lookup_insert_ne in Hk' by done. by apply (inv_boundary _ _ HI1).
  - intros k' files' anc' [[<- [= <- <-]]|[_ Hold]]%lookup_insert_Some; [| by apply (inv_bounds _ _ HI1) in Hold].
    split; [done |]. by eapply resolved_bound.
Qed.

Lemma known_unless_pending T c k r d :
  Inv T c → record_at k c = Some r → resolved T k r d → T ⊆ <[k := d]> T.
Proof.
  intros HI Hr Hres. destruct (T !! k) as [d'|] eqn:HT; [| by apply insert_subseteq]. rewrite insert_id; [done |].
  destruct (record_pending r) eqn:Hp; [by rewrite (inv_pending _ _ HI _ _ Hr Hp) in HT |].
  by apply (tells_resolved T k r); [apply (inv_sealed _ _ HI) |].
Qed.

Lemma seal_spec T E p ns g c c' :
  Inv T c → seal E p ns g c = (c', Ok tt) →
  ∃ v n files r, snapshots c' !! key p ns g = Some (v, n) ∧ selection v = Files files ∧ record_at (key p ns g) c = Some r ∧
    resolved T (key p ns g) r (files, ancestry v) ∧ T ⊆ <[key p ns g := (files, ancestry v)]> T ∧
    Inv (<[key p ns g := (files, ancestry v)]> T) c'.
Proof.
  intros HI. unfold seal. intros (c1 & [[f r] v] & Hchk & H)%act_bind_Ok.
  apply (seal_checked_spec T) in Hchk as (HI1 & Hd & Hr & (l & Hl & Hlt) & (files & Hsel & Hres & Hdep & Hlen) & Hknown); [| done].
  set (k := key p ns g) in *. pose proof (known_unless_pending _ _ _ _ _ HI1 Hr Hres) as Hsub.
  apply act_bind_Ok in H as (c2 & [] & Hw & [= <-]).
  destruct (write_json_run (scope p ns) (record_name g) (to_vec (sealed r)) c1) as [Hw' | [_ Hw']]; rewrite Hw in Hw'; [| done].
  injection Hw' as ->. set (c2 := put_file _ _ _ c1). set (c3 := with_floors _ _).
  assert (Hin : ∃ v' n', snapshots c3 !! k = Some (v', n') ∧ selection v' = Files files ∧ ancestry v' = ancestry v).
  { unfold c3. cbn [snapshots with_floors]. destruct (snapshots c2 !! k) as [[v' n']|] eqn:Hk.
    - exists v', n'. split; [done |]. change (snapshots c2) with (snapshots c1) in Hk. destruct (Hknown _ _ Hk). split; congruence.
    - cbn. rewrite lookup_insert_eq. eauto. }
  destruct Hin as (v' & n' & Hk & Hs & Ha). exists v', n', files, r. rewrite Ha. split_and!; [done | done | | done | done |].
  { rewrite <-Hr. apply record_at_file. unfold lookup_file. by rewrite Hd. }
  apply (sealed_inv T c1 c3 k r v files l); try done.
  - intros k' v1 n1. unfold c3. cbn [snapshots with_floors]. change (snapshots c2) with (snapshots c1).
    destruct (snapshots c1 !! k); [by left |]. cbn [snapshots with_snapshots].
    intros [[<- [= <- _]]|[_ ?]]%lookup_insert_Some; [by right | by left].
  - intros dir name. unfold lookup_file, c3. cbn [disk with_floors]. by destruct (snapshots c2 !! k).
Qed.

Lemma keeps_seal_checked T E p ns g : keeps (keeps_inv T) (seal_checked E p ns g).
Proof.
  unfold seal_checked. act_keeps. destruct (snapshots _ !! _); [by intros ? | apply inv_make_room].
Qed.
Lemma seal_fails T E p ns g c c' e : Inv T c → seal E p ns g c = (c', Fail e) → Inv T c'.
Proof.
  intros HI. pose proof (keeps_seal_checked T E p ns g c HI) as HI'. unfold seal, mbind, act_bind.
  destruct (seal_checked E p ns g c) as [c1 [[[f r] v]|e1]]; cbn [fst] in HI'; [| by intros [= <- _]].
  match goal with |- context [write_json ?d ?n ?b c1] => destruct (write_json_run d n b c1) as [-> | [Hs Hr]] end; [done |].
  destruct (write_json _ _ _ c1) as [c2 [[]|e2]]; [done |]. cbn [fst] in Hs. subst c2. by intros [= <- _].
Qed.
End spec.
