(* ===== verification/SnapshotsHistory.v ===== *)
(** The snapshot catalog over every sequence of its operations: what sealed
    generations denote is only ever added to, and every view that is handed out
    agrees with it; and that the views a client holds stay in the cache and are
    seen by every collection. *)
From S2P Require Import Prelude Text Unicode Store Records Concrete Reindex SourceHead Registry Snapshots SnapshotsSpec.

Open Scope N_scope.

(** * Definitions *)

Section history.
Context `{SE : !SnapshotEnv}.
Notation Truth := (gmap Key (gmap string N * list N)).

(** The operations, each in the environment it meets; the drop of a lease; a
    restart, after which only the disk is left. *)
Inductive Op :=
  | OpPin (E : Env) (p ns : string) (g : N) (join_retired : bool)
  | OpDrop (k : Key)
  | OpPrepare (E : Env) (p ns : string) (base g : N) (legacy changed deleted : list string)
  | OpPrepareFull (E : Env) (p ns : string) (base g : N) (paths : list string) (fresh : option (result ()))
  | OpSeal (E : Env) (p ns : string) (g : N)
  | OpCollect (E : Env) (p ns : string) (active : N)
  | OpRestart.

Definition empty_catalog : Catalog := {| disk := ∅; snapshots := ∅; floors := ∅ |}.
Definition restart (c : Catalog) : Catalog := {| disk := disk c; snapshots := ∅; floors := ∅ |}.

Definition run (o : Op) (c : Catalog) : Catalog :=
  match o with
  | OpPin E p ns g join => (pin_inner E p ns g join c).1
  | OpDrop k => drop_pin k c
  | OpPrepare E p ns base g legacy changed deleted => (prepare E p ns base g legacy changed deleted c).1
  | OpPrepareFull E p ns base g paths fresh => (prepare_full_inner E p ns base g paths fresh c).1
  | OpSeal E p ns g => (seal E p ns g c).1
  | OpCollect E p ns active => (protect_for_gc E p ns active c).1
  | OpRestart => restart c
  end.

(** A seal that succeeds says what its generation denotes. *)
Definition files_of (v : Snapshot) : gmap string N := match selection v with Files files => files | Legacy _ => ∅ end.
Definition learn (o : Op) (c : Catalog) (T : Truth) : Truth :=
  match o with
  | OpSeal E p ns g =>
      match seal E p ns g c with
      | (c', Ok _) => match snapshots c' !! key p ns g with
                      | Some (v, _) => <[key p ns g := (files_of v, ancestry v)]> T
                      | None => T
                      end
      | _ => T
      end
  | _ => T
  end.

(** An update prepares a generation that was not sealed before; generations
    are [u64]s. *)
Definition admissible (o : Op) (T : Truth) : Prop :=
  match o with
  | OpPrepare _ p ns _ g _ _ _ | OpPrepareFull _ p ns _ g _ _ => T !! key p ns g = None
  | OpCollect _ _ _ active => active <= u64_max
  | _ => True
  end.

Inductive event : Truth * Catalog → Truth * Catalog → Prop :=
  | event_run o T c : admissible o T → event (T, c) (learn o c T, run o c).

Definition reachable (T : Truth) (c : Catalog) : Prop := rtc event (∅, empty_catalog) (T, c).

(** * Lemmas *)

Lemma inv_init : Inv ∅ empty_catalog.
Proof. split; try done. intros k [? [=]]. Qed.

Lemma inv_event T c T' c' : event (T, c) (T', c') → Inv T c → Inv T' c' ∧ T ⊆ T'.
Proof.
  intros He. remember (T, c) as x eqn:Hx. remember (T', c') as y eqn:Hy. destruct He as [o T0 c0 Ha].
  injection Hx as -> ->. injection Hy as <- <-. intros HI.
  destruct o as [E p ns g join | k | E p ns base g legacy changed deleted | E p ns base g paths fresh | E p ns g | E p ns active |];
    cbn [learn run admissible] in *.
  - split; [by apply keeps_pin | done].
  - split; [by apply inv_drop_pin | done].
  - split; [by apply keeps_prepare | done].
  - split; [by apply keeps_prepare_full | done].
  - destruct (seal E p ns g c) as [c1 [[]|e]] eqn:Hs; cbn [fst].
    + destruct (seal_spec _ _ _ _ _ _ _ HI Hs) as (v & n & files & r & -> & Hsel & _ & _ & Hsub & HI').
      unfold files_of. by rewrite Hsel.
    + split; [by eapply seal_fails | done].
  - split; [by apply keeps_gc | done].
  - split; [| done]. revert HI. by apply inv_cache.
Qed.

Lemma inv_events T c T' c' : rtc event (T, c) (T', c') → Inv T c → Inv T' c' ∧ T ⊆ T'.
Proof.
  intros H. remember (T, c) as x eqn:Hx. remember (T', c') as y eqn:Hy. revert T c Hx.
  induction H as [x | x [T1 c1] y Hstep Hrest IH]; intros T c ->.
  - injection Hy as <- <-. done.
  - intros HI. destruct (inv_event _ _ _ _ Hstep HI) as [HI1 Hsub]. destruct (IH Hy _ _ eq_refl HI1) as [HI' Hsub'].
    split; [done | by etransitivity].
Qed.
Lemma reachable_catalog_inv T c : reachable T c → Inv T c.
Proof. intros H. by apply (inv_events _ _ _ _ H), inv_init. Qed.

Definition same_views (c c' : Catalog) : Prop := snapshots c' = snapshots c.
#[export] Instance same_views_preorder : PreOrder same_views.
Proof. split; unfold same_views; [by intros ? | intros a b c -> ->; done]. Qed.
Lemma same_views_floors c f : same_views c (with_floors f c).
Proof. done. Qed.
#[local] Hint Resolve same_views_floors : keeps.
Lemma floor_views E p ns : keeps same_views (floor E p ns).
Proof. unfold floor. act_keeps. Qed.

Lemma write_views dir name b : keeps same_views (write_json dir name b).
Proof. intros c. by destruct (write_json_run dir name b c) as [-> | [-> _]]. Qed.
#[local] Hint Resolve write_views : keeps.
Lemma retirement_views E p ns base full : keeps same_views (ensure_retirement_boundary E p ns base full).
Proof. unfold ensure_retirement_boundary. act_keeps. Qed.
Lemma legacy_views E p ns base full empty : keeps same_views (ensure_legacy_boundary E p ns base full empty).
Proof. unfold ensure_legacy_boundary. act_keeps. Qed.

(** A pin hands out the cached view, and adds a pin to it. *)
Lemma pin_cached E p ns g join c c' v :
  pin_inner E p ns g join c = (c', Ok v) →
  ∃ n, snapshots c' !! key p ns g = Some (v, S n) ∧ ∀ v0 n0, snapshots c !! key p ns g = Some (v0, n0) → v0 = v ∧ n0 = n.
Proof.
  unfold pin_inner. intros (c1 & [] & [= <- _] & (c2 & [] & [= <- _] & H)%act_bind_Ok)%act_bind_Ok.
  apply act_bind_Ok in H as (c3 & f & Hf & H). pose proof (floor_views E p ns c) as Hv3. rewrite Hf in Hv3. cbn [fst] in Hv3.
  unfold same_views in Hv3. rewrite <-Hv3. clear Hf Hv3. apply act_bind_Ok in H as (c4 & held & [= <- Hheld] & H).
  assert (Hlease : ∀ v0 n0, snapshots c3 !! key p ns g = Some (v0, n0) → lease (key p ns g) v0 c3 = (c', Ok v) →
    ∃ n, snapshots c' !! key p ns g = Some (v, S n) ∧ ∀ v1 n1, snapshots c3 !! key p ns g = Some (v1, n1) → v1 = v ∧ n1 = n).
  { intros v0 n0 Hk [= <- <-]. exists n0. cbn [snapshots add_pin with_snapshots]. rewrite lookup_alter_eq, Hk.
    split; [done | by intros ? ? [= -> ->]]. }
  destruct held as [view|].
  { destruct join; [| done]. unfold pinned_view in Hheld. destruct (snapshots c3 !! _) as [[v0 [|n0]]|] eqn:Hk; try done.
    injection Hheld as ->. by eapply Hlease. }
  destruct (g <? f); [done |]. apply act_bind_Ok in H as (c5 & permit & [= <- _] & (c6 & cached & [= <- <-] & H)%act_bind_Ok).
  destruct (snapshots c3 !! key p ns g) as [[view n0]|] eqn:Hk.
  - apply act_bind_Ok in H as (c7 & [] & [= <- _] & (c8 & [] & [= <- _] & H)%act_bind_Ok). by eapply Hlease.
  - apply act_bind_Ok in H as (c7 & [] & [= <-] & (c8 & v8 & [= <- Hv] & (c9 & [] & [= <-] & [= <- <-])%act_bind_Ok)%act_bind_Ok).
    exists 0%nat. cbn. by rewrite lookup_insert_eq.
Qed.
Lemma pin_view T E p ns g join c c' v : Inv T c → pin_inner E p ns g join c = (c', Ok v) → view_ok T (key p ns g) v.
Proof.
  intros HI Hp. destruct (pin_cached _ _ _ _ _ _ _ _ Hp) as (n & Hn & _). eapply inv_view; [| exact Hn].
  pose proof (keeps_pin T E p ns g join c HI) as H. by rewrite Hp in H.
Qed.

(** ** Updates *)

(** What an update starts from: what its base denotes, or the paths given for a
    base that has no record. *)
Definition base_files (T : Truth) (p ns : string) (base : N) (legacy_paths : list string) : gmap string N :=
  match T !! key p ns base with
  | Some (files, _) => files
  | None => list_to_map ((λ path, (path, base)) <$> legacy_paths)
  end.

Lemma lookup_marks {A} (a : A) (l : list string) path :
  (list_to_map ((λ p, (p, a)) <$> l) : gmap string A) !! path = if decide (path ∈ l) then Some a else None.
Proof.
  induction l as [|x l IH]; [exact (lookup_empty path) |]. cbn [fmap list_fmap list_to_map foldr uncurry].
  destruct (decide (x = path)) as [->|Hne].
  - rewrite lookup_insert_eq, decide_True; [done | left].
  - rewrite lookup_insert_ne by done. etransitivity; [exact IH |].
    destruct (decide (path ∈ l)); [rewrite decide_True; [done | by right] |]. rewrite decide_False; [done |].
    by intros [->|]%elem_of_cons.
Qed.
Lemma lookup_update_changes g changed deleted path :
  update_changes g changed deleted !! path =
  if decide (path ∈ changed) then Some (Some g) else if decide (path ∈ deleted) then Some None else None.
Proof. unfold update_changes. rewrite lookup_union, !lookup_marks. by repeat case_decide. Qed.

Lemma prepare_writes T E p ns base g legacy changed deleted c c1 :
  Inv T c → prepare E p ns base g legacy changed deleted c = (c1, Ok tt) →
  base < g ∧ ∃ (view : Snapshot) (up : option N) (files : option (gmap string N)),
    view_ok T (key p ns base) view ∧
    (up = Some base ∧ files = None ∧ is_files view = true ∨ up = None ∧ files = Some (base_selection view legacy)) ∧
    ∀ r, record_at (key p ns g) c1 = Some r → r = new_record p ns g up files (update_changes g changed deleted).
Proof.
  intros HI. unfold prepare. intros (c0 & [] & [= <- Hlt%ensure_Ok%N.ltb_lt] & (c2 & view & Hpin & H)%act_bind_Ok)%act_bind_Ok.
  split; [done |]. exists view. unfold act_finally in H.
  match type of H with (let '(_, _) := ?body c2 in _) = _ => destruct (body c2) as [c3 r3] eqn:Hbody end.
  injection H as <- ->.
  apply act_bind_Ok in Hbody as (c4 & empty & _ & (c5 & [] & _ & H)%act_bind_Ok).
  apply act_bind_Ok in H as (c6 & [] & _ & (c7 & [] & _ & H)%act_bind_Ok).
  apply act_bind_Ok in H as (c8 & found & _ & (c9 & [] & _ & H)%act_bind_Ok).
  eexists _, _. split; [by eapply pin_view |]. split; cycle 1.
  - intros r Hr.
    match type of H with write_json ?d ?n ?b c9 = _ => destruct (write_json_run d n b c9) as [Hw | [_ Hw]]; rewrite H in Hw end; [| done].
    injection Hw as ->.
    match type of Hr with record_at ?k (drop_pin _ ?c') = _ => change (record_at k c' = Some r) in Hr end.
    eapply (record_at_put_record (key p ns g)) in Hr; [| | | | reflexivity]; [| done..].
    destruct Hr as [[_ Hr]|[[] _]]; [exact Hr | done].
  - destruct (needs_checkpoint view) eqn:Hc; [by right | left]. unfold needs_checkpoint in Hc.
    by destruct (is_files view).
Qed.

(** * Theorems *)


(** No view reads a revision newer than its generation, and none is resolved
    through more records than the depth limit. *)
Theorem views_never_read_the_future T c E p ns g join c' v files :
  reachable T c → pin_inner E p ns g join c = (c', Ok v) → selection v = Files files →
  (∀ path revision, files !! path = Some revision → revision <= g) ∧ (length (ancestry v) <= MAX_DEPTH)%nat.
Proof.
  intros Hr Hp Hs. apply reachable_catalog_inv in Hr. pose proof (pin_view _ _ _ _ _ _ _ _ _ Hr Hp) as Hv. unfold view_ok in Hv.
  rewrite Hs in Hv. destruct Hv as [HT _]. apply (inv_bounds _ _ Hr) in HT as (Hl & Hb & _). split; [| done].
  intros path revision. apply Hb.
Qed.

(** C3. An update changes exactly what it states: once the prepared generation is
    sealed, it reads the changed paths at its own revision, does not contain the
    deleted ones, and reads every other path as its base does. *)
Theorem update_changes_what_it_states T c E p ns base g legacy changed deleted c1 E1 c2 E2 join c3 v :
  reachable T c → T !! key p ns g = None →
  prepare E p ns base g legacy changed deleted c = (c1, Ok tt) → seal E1 p ns g c1 = (c2, Ok tt) →
  pin_inner E2 p ns g join c2 = (c3, Ok v) →
  ∃ files, selection v = Files files ∧ ∀ path, files !! path =
    if decide (path ∈ changed) then Some g
    else if decide (path ∈ deleted) then None
    else base_files T p ns base legacy !! path.
Proof.
  intros HI%reachable_catalog_inv HT Hprep Hseal Hpin.
  destruct (prepare_writes _ _ _ _ _ _ _ _ _ _ _ HI Hprep) as (Hlt & view & up & bf & Hview & Hup & Hrec).
  pose proof (keeps_prepare T E p ns base g legacy changed deleted HT c HI) as HI1. rewrite Hprep in HI1. cbn [fst] in HI1.
  destruct (seal_spec _ _ _ _ _ _ _ HI1 Hseal) as (v2 & n2 & files & r & Hk & Hsel & Hr & Hres & _ & HI2).
  apply Hrec in Hr as ->. pose proof (pin_view _ _ _ _ _ _ _ _ _ HI2 Hpin) as Hv. unfold view_ok in Hv.
  rewrite lookup_insert_eq in Hv. destruct (selection v) as [|files']; [by destruct Hv |].
  destruct Hv as [[= <- _] _]. exists files. split; [done |].
  assert (Hf : files = updated (update_changes g changed deleted) (base_files T p ns base legacy)).
  { unfold base_files. unfold resolved in Hres. cbn [record_files parent changes new_record] in Hres. unfold view_ok in Hview.
    destruct Hup as [(-> & -> & Hvf) | [-> ->]].
    - destruct Hres as (fs & anc & HTb & [= -> _]). change (at_generation (key p ns g) base) with (key p ns base) in HTb.
      by rewrite HTb.
    - injection Hres as -> _. f_equal. unfold base_selection. destruct (selection view) as [g0|fs].
      + destruct Hview as [-> ->]. done.
      + destruct Hview as [-> _]. done. }
  intros path. rewrite Hf, lookup_updated, lookup_update_changes. by repeat case_decide.
Qed.

End history.

(** The pins of the snapshot catalog: a pinned view stays in the cache until its
    pins are dropped, and the collector is told about all of them. *)

#[local] Open Scope nat_scope.

(** * Definitions *)

Section pins.
Context `{SE : !SnapshotEnv}.

(** The view is cached under the key, with at least [n] pins. *)
Definition holds (k : Key) (v : Snapshot) (n : nat) (c : Catalog) : Prop :=
  ∃ m, n <= m ∧ snapshots c !! k = Some (v, m).

(** The operations that may end a pin. *)
Definition releases (k : Key) (o : Op) : Prop :=
  match o with OpDrop k' => k' = k | OpRestart => True | _ => False end.

Definition occurrences (k : Key) (ks : list Key) : nat := length (filter (k =.) ks).

(** * Lemmas *)

Section kept.
Context (k : Key) (v : Snapshot) (n : nat) (Hn : 1 <= n).

Definition kept (c c' : Catalog) : Prop := holds k v n c → holds k v n c'.
#[export] Instance kept_preorder : PreOrder kept.
Proof. split; unfold kept; [intros c H; exact H | intros a b c; auto]. Qed.

Lemma kept_floors f c : kept c (with_floors f c).
Proof. intros H. exact H. Qed.
Lemma kept_disk d c : kept c (with_disk d c).
Proof. intros H. exact H. Qed.
Lemma kept_write dir name b : keeps kept (write_json dir name b).
Proof. intros c. destruct (write_json_run dir name b c) as [-> | [-> _]]; intros H; exact H. Qed.
Lemma kept_add k' c : kept c (add_pin k' c).
Proof.
  intros (m & Hm & Hk). unfold holds. cbn [snapshots add_pin with_snapshots]. destruct (decide (k' = k)) as [->|].
  - rewrite lookup_alter_eq, Hk. exists (S m). split; [lia | done].
  - rewrite lookup_alter_ne by done. by exists m.
Qed.
Lemma evict_keeps fuel views m : 1 <= m → views !! k = Some (v, m) → evict_views fuel views !! k = Some (v, m).
Proof.
  intros Hm. revert views. induction fuel as [|fuel IH]; intros views Hk; cbn [evict_views]; destruct (Nat.ltb _ _); try done.
  destruct (min_by_key _ _) as [[victim [w j]]|] eqn:Hv; [| done]. apply IH. rewrite lookup_delete_ne; [done |].
  intros ->. apply min_by_key_elem, list_elem_of_filter in Hv as [Hj Hv]. cbn in Hj. rewrite iter_perm in Hv.
  apply elem_of_map_to_list in Hv. rewrite Hk in Hv. injection Hv as -> ->. lia.
Qed.
Lemma kept_make_room c : kept c (make_cache_room c).
Proof. intros (m & Hm & Hk). exists m. split; [done |]. apply evict_keeps; [lia | done]. Qed.
Lemma kept_retain p ns f c : kept c (with_snapshots (retain_live p ns f (snapshots c)) c).
Proof.
  intros (m & Hm & Hk). exists m. split; [done |]. apply map_lookup_filter_Some. split; [done |]. cbn [fst snd].
  destruct m; [lia |]. cbn. by rewrite orb_true_r.
Qed.
#[local] Hint Resolve kept_floors kept_write kept_add kept_make_room kept_retain : keeps.

Lemma kept_floor E p ns : keeps kept (floor E p ns).
Proof. unfold floor. act_keeps. Qed.
Lemma kept_retirement E p ns base full : keeps kept (ensure_retirement_boundary E p ns base full).
Proof. unfold ensure_retirement_boundary. act_keeps. Qed.
Lemma kept_legacy E p ns base full empty : keeps kept (ensure_legacy_boundary E p ns base full empty).
Proof. unfold ensure_legacy_boundary. act_keeps. Qed.
#[local] Hint Resolve kept_floor kept_retirement kept_legacy : keeps.

Lemma kept_pin E p ns g join : keeps kept (pin_inner E p ns g join).
Proof.
  unfold pin_inner, lease. do 4 (apply keeps_bind; [exact _ | act_keeps | intros ?]). destruct a2; [act_keeps |].
  destruct (N.ltb g a1); [act_keeps |]. apply keeps_bind; [exact _ | act_keeps | intros permit].
  intros c. unfold mbind at 1, act_bind at 1, act_get. cbv beta iota. destruct (snapshots c !! key p ns g) as [[view j]|] eqn:Hk.
  { match goal with |- kept _ ((?m c).1) => assert (Hm : keeps kept m) by act_keeps; apply Hm end. }
  unfold mbind, act_bind, act_modify, act_read. destruct (load _ _ _ _ _ _) as [view|]; [| apply kept_make_room].
  intros (m & Hm & Hk')%(kept_make_room c). exists m. split; [done |]. cbn.
  rewrite lookup_insert_ne; [done |]. intros <-. unfold make_cache_room in Hk'. apply evict_views_sub in Hk'. congruence.
Qed.
#[local] Hint Resolve kept_pin : keeps.

(** A view that leaves the cache for a new candidate is not pinned. *)
Lemma kept_forget k' c : replaceable k' c = Ok tt → kept c (forget_view k' c).
Proof.
  intros Hr%ensure_Ok%bool_decide_eq_true (j & Hj & Hk). exists j. split; [done |].
  cbn [snapshots forget_view with_snapshots]. rewrite lookup_delete_ne; [done |]. intros ->.
  unfold pinned_view in Hr. rewrite Hk in Hr. destruct j; [lia | done].
Qed.
Lemma kept_replace {A B} k' (m1 : Act Catalog A) (m2 : A → Act Catalog ()) (m3 : Act Catalog B) :
  keeps same_views m1 → (∀ a, keeps same_views (m2 a)) → keeps kept m3 →
  keeps kept (_ ← act_read (replaceable k'); a ← m1; _ ← m2 a; _ ← act_modify (forget_view k'); m3).
Proof.
  intros H1 H2 H3 c. unfold mbind, act_bind, act_read, act_modify. destruct (replaceable k' c) as [[]|] eqn:Hr; [| by intros ?].
  assert (Hsame : ∀ c', same_views c c' → kept c c') by (intros c' Hs (j & Hj & Hk); exists j; split; [done | by rewrite Hs]).
  specialize (H1 c). destruct (m1 c) as [c1 [a|]]; [| by apply Hsame]. cbn [fst] in H1.
  specialize (H2 a c1). destruct (m2 a c1) as [c2 [[]|]]; [| apply Hsame; by transitivity c1]. cbn [fst] in H2.
  assert (Hs : same_views c c2) by (by transitivity c1). etransitivity; [apply Hsame, Hs |].
  etransitivity; [apply kept_forget; unfold replaceable, pinned_view in *; by rewrite Hs | apply H3].
Qed.
Lemma kept_prune E p ns active keep : keeps kept (prune_metadata E p ns active keep).
Proof.
  unfold prune_metadata, prune_entry. act_keeps. intros c. destruct (read_record _ _ c) as [[r|]|[]]; intros H; exact H.
Qed.
Lemma kept_seal E p ns g : keeps kept (seal E p ns g).
Proof.
  unfold seal, seal_checked. act_keeps; intros (m & Hm & Hk).
  - destruct (snapshots _ !! key p ns g) eqn:Hc; [by exists m |]. apply kept_make_room. by exists m.
  - exists m. split; [done |]. cbn [snapshots with_floors]. destruct (snapshots _ !! key p ns g) eqn:Hc; [done |].
    cbn [snapshots with_snapshots]. rewrite lookup_insert_ne; [done |]. intros <-. congruence.
Qed.
Lemma kept_prepare_full E p ns base g paths fresh : keeps kept (prepare_full_inner E p ns base g paths fresh).
Proof.
  unfold prepare_full_inner. do 5 (apply keeps_bind; [exact _ | act_keeps | intros ?]).
  apply kept_replace; [apply retirement_views | intros ?; apply legacy_views | act_keeps].
Qed.
#[local] Hint Resolve kept_prune : keeps.
Lemma kept_new_record E p ns g (t : N) r found :
  keeps kept (_ ← act_read (read_record E (key p ns g)); _ ← act_of (reserve E t found); write_json (scope p ns) (record_name g) r).
Proof. act_keeps. Qed.
End kept.

(** ** Counting the pins of an operation's own leases *)

Lemma holds_le k v n m c : n <= m → holds k v m c → holds k v n c.
Proof. intros Hle (j & Hj & Hk). exists j. split; [lia | done]. Qed.
Lemma holds_add k v n k' c : holds k v n c → holds k v (n + if decide (k' = k) then 1 else 0) (add_pin k' c).
Proof.
  intros (j & Hj & Hk). unfold holds. cbn [snapshots add_pin with_snapshots]. case_decide as Hkk.
  - subst k'. rewrite lookup_alter_eq, Hk. exists (S j). split; [lia | done].
  - rewrite lookup_alter_ne by done. exists j. split; [lia | done].
Qed.
Lemma holds_drop k v n k' c : holds k v (n + if decide (k' = k) then 1 else 0) c → holds k v n (drop_pin k' c).
Proof.
  intros (j & Hj & Hk). unfold holds. cbn [snapshots drop_pin with_snapshots]. case_decide as Hkk.
  - subst k'. rewrite lookup_alter_eq, Hk. exists (pred j). split; [lia | done].
  - rewrite lookup_alter_ne by done. exists j. split; [lia | done].
Qed.
Lemma occurrences_cons k k' ks : occurrences k (k' :: ks) = occurrences k ks + if decide (k' = k) then 1 else 0.
Proof.
  unfold occurrences. rewrite filter_cons. destruct (decide (k = k')) as [->|]; [rewrite decide_True by done | rewrite decide_False by done].
  - cbn [length]. lia.
  - lia.
Qed.
Lemma holds_add_all k v n ks c : holds k v n c → holds k v (n + occurrences k ks) (foldr add_pin c ks).
Proof.
  intros H. induction ks as [|k' ks IH]; [by rewrite Nat.add_0_r |]. cbn [foldr]. rewrite occurrences_cons, Nat.add_assoc.
  by apply holds_add.
Qed.
Lemma holds_drop_all k v n ks c : holds k v (n + occurrences k ks) c → holds k v n (foldr drop_pin c ks).
Proof.
  revert n. induction ks as [|k' ks IH]; intros n; [by rewrite Nat.add_0_r |]. cbn [foldr].
  rewrite occurrences_cons. intros H. apply holds_drop, IH. eapply holds_le; [| exact H]. lia.
Qed.

Lemma pin_holds k v n E p ns g join c c' r :
  1 <= n → holds k v n c → pin_inner E p ns g join c = (c', r) →
  holds k v (n + if is_ok r then if decide (key p ns g = k) then 1 else 0 else 0) c'.
Proof.
  intros Hn Hh Hp. pose proof (kept_pin k v n Hn E p ns g join c Hh) as Hk. rewrite Hp in Hk. cbn [fst] in Hk.
  destruct r as [w|e]; cbn [is_ok]; [| by rewrite Nat.add_0_r]. case_decide as Heq; [| by rewrite Nat.add_0_r].
  destruct (pin_cached _ _ _ _ _ _ _ _ Hp) as (j & Hj & Hsame). destruct Hh as (m & Hm & Hkc). rewrite <-Heq in Hkc.
  apply Hsame in Hkc as [-> ->]. exists (S j). rewrite <-Heq. split; [lia | done].
Qed.

Lemma kept_prepare k v n (Hn : 1 <= n) E p ns base g legacy changed deleted :
  keeps (kept k v n) (prepare E p ns base g legacy changed deleted).
Proof.
  unfold prepare. apply keeps_bind; [exact _ | by apply keeps_of, _ | intros _].
  intros c Hh. unfold mbind at 1, act_bind at 1. destruct (pin E p ns base c) as [c1 [view|e]] eqn:Hp;
    apply (pin_holds k v n _ _ _ _ _ _ _ _ Hn Hh) in Hp; cbn [is_ok fst] in *; [| by rewrite Nat.add_0_r in Hp].
  unfold act_finally. match goal with |- context [?m c1] => set (body := m) end.
  assert (Hm : keeps (kept k v (n + if decide (key p ns base = k) then 1 else 0)) body).
  { unfold body. assert (Hn' : 1 <= n + if decide (key p ns base = k) then 1 else 0) by lia.
    apply keeps_bind; [exact _ | by apply kept_retirement | intros empty].
    apply keeps_bind; [exact _ | by apply kept_legacy | intros _].
    intros c2. unfold mbind at 1, act_bind at 1, act_read at 1. destruct (replaceable (key p ns g) c2) as [[]|] eqn:Hr; [| intros H; exact H].
    unfold mbind at 1, act_bind at 1, act_modify. etransitivity; [by apply kept_forget | by apply kept_new_record]. }
  specialize (Hm c1 Hp). destruct (body c1) as [c2 r]. by apply holds_drop.
Qed.

Lemma kept_collect k v n (Hn : 1 <= n) E p ns active : keeps (kept k v n) (protect_for_gc E p ns active).
Proof.
  unfold protect_for_gc. intros c Hh. unfold mbind at 1, act_bind at 1. destruct (pin E p ns active c) as [c1 [view|e]] eqn:Hp;
    apply (pin_holds k v n _ _ _ _ _ _ _ _ Hn Hh) in Hp; cbn [is_ok fst] in *; [| by rewrite Nat.add_0_r in Hp].
  set (N := n + if decide (key p ns active = k) then 1 else 0) in *. assert (HN : 1 <= N) by lia.
  unfold act_on_error at 1. match goal with |- context [?m c1] => set (body := m) end. assert (Hm : keeps (kept k v N) body).
  { unfold body. apply keeps_bind; [exact _ | by apply kept_floor | intros f].
    apply keeps_bind; [exact _ | by apply keeps_of, _ | intros _]. apply keeps_bind; [exact _ | by apply kept_write | intros _].
    apply keeps_bind; [exact _ | apply keeps_modify; intros ? H'; exact H' | intros _].
    apply keeps_bind; [exact _ | by apply keeps_get, _ | intros others].
    intros c2 H2. apply (holds_add_all k v N (others.*1)) in H2. set (ks := others.*1) in *.
    assert (HM : 1 <= N + occurrences k ks) by lia. unfold mbind, act_bind, act_modify. apply (kept_retain k v _ HM p ns active) in H2.
    unfold act_on_error. pose proof (kept_prune k v _ E p ns active (ancestry view) _ H2) as H3.
    destruct (prune_metadata _ _ _ _ _ _) as [c3 [[]|]]; cbn [fst] in *; [eapply holds_le; [| exact H3]; lia |].
    by apply holds_drop_all. }
  specialize (Hm c1 Hp). destruct (body c1) as [c2 [ws|e]]; [eapply holds_le; [| exact Hm]; unfold N; lia |]. by apply holds_drop.
Qed.

(** * Theorems *)

(** C5. A pinned view stays what it is and keeps its pins through every operation
    that does not drop one of them itself; only a restart ends it otherwise. *)
Theorem pinned_view_stays k v n o c :
  snapshots c !! k = Some (v, S n) → ¬ releases k o → ∃ m, n <= m ∧ snapshots (run o c) !! k = Some (v, S m).
Proof.
  intros Hk Ho. assert (Hh : holds k v (S n) c) by by exists (S n).
  assert (H : holds k v (S n) (run o c)).
  { assert (Hn : 1 <= S n) by lia.
    destruct o as [E p ns g join | k' | E p ns base g legacy changed deleted | E p ns base g paths fresh | E p ns g | E p ns active |];
      cbn [run releases] in *.
    - by apply kept_pin.
    - apply holds_drop. by rewrite decide_False, Nat.add_0_r.
    - by apply kept_prepare.
    - by apply kept_prepare_full.
    - by apply kept_seal.
    - by apply kept_collect.
    - done. }
  destruct H as ([|m] & Hm & Hk'); [lia |]. exists m. split; [lia | done].
Qed.

Lemma act_on_error_Ok {S A} drop (m : Act S A) s s' a : act_on_error drop m s = (s', Ok a) → m s = (s', Ok a).
Proof. unfold act_on_error. by destruct (m s) as [s1 [a1|e]]. Qed.

(** The collector is told about every view of the scope that was pinned when it
    started, so that it can spare the revisions they read. *)
Theorem collector_sees_every_pin E p ns active c c' vs g v n :
  protect_for_gc E p ns active c = (c', Ok vs) → snapshots c !! key p ns g = Some (v, S n) → v ∈ vs.
Proof.
  unfold protect_for_gc. intros (c1 & view & Hp & H%act_on_error_Ok)%act_bind_Ok Hk.
  assert (Hh : holds (key p ns g) v 1 c1).
  { pose proof (kept_pin (key p ns g) v 1 (le_n _) E p ns active true c) as H1. unfold pin in Hp. rewrite Hp in H1.
    apply H1. exists (S n). split; [lia | done]. }
  apply act_bind_Ok in H as (c2 & f & Hf & H). pose proof (kept_floor (key p ns g) v 1 E p ns c1 Hh) as H2. rewrite Hf in H2.
  apply act_bind_Ok in H as (c3 & [] & [= <- _] & (c4 & [] & Hw & H)%act_bind_Ok).
  pose proof (kept_write (key p ns g) v 1 (scope p ns) RETIRED_BEFORE (u64_to_vec active) c2 H2) as H4. rewrite Hw in H4.
  apply act_bind_Ok in H as (c5 & [] & [= <-] & (c6 & others & [= <- <-] & H)%act_bind_Ok).
  apply act_bind_Ok in H as (? & [] & _ & (? & [] & _ & (? & [] & _ & [= _ <-])%act_bind_Ok)%act_bind_Ok).
  destruct (decide (g = active)) as [->|Hne].
  { unfold pin in Hp. destruct (pin_cached _ _ _ _ _ _ _ _ Hp) as (j & _ & Hsame). destruct (Hsame _ _ Hk) as [-> Hj]. left. }
  right. destruct H4 as (m & Hm & Hk4). apply list_elem_of_fmap. exists (key p ns g, (v, m)). split; [done |].
  unfold other_pinned. apply list_elem_of_filter. split.
  - unfold in_scope. cbn. rewrite !String.eqb_refl. destruct (N.eqb_spec g active); [done |]. by destruct m; [lia |].
  - rewrite iter_perm. by apply elem_of_map_to_list.
Qed.
End pins.
