(* ===== verification/SnapshotsRetire.v ===== *)
(** Retirement in the snapshot catalog: the floor that a collection writes is
    kept through every later operation and restart, and what the active
    generation resolves to survives the pruning of the records. *)
From S2P Require Import Prelude Text Unicode Concrete Store Records Reindex SourceHead Registry Snapshots SnapshotsSpec SnapshotsHistory.

#[local] Open Scope N_scope.

(** * Definitions *)

Section retire.
Context `{SE : !SnapshotEnv}.
Context (p ns : string) (A : N).

(** The digest tells the directory of this scope from those of the others. *)
Definition own_directory : Prop := ∀ p' ns', scope p' ns' = scope p ns → p' = p ∧ ns' = ns.

(** The floor of the scope, in the cache and on disk, is not below [A]. *)
Definition retired_at (dir : string) (c : Catalog) : option N :=
  match lookup_file dir RETIRED_BEFORE c with
  | Some b => match u64_from_slice b with Ok n => Some n | Fail _ => None end
  | None => None
  end.
Definition floor_kept (c : Catalog) : Prop :=
  (∀ f, floors c !! (p, ns) = Some f → A <= f) ∧ ∃ d, retired_at (scope p ns) c = Some d ∧ A <= d.

(** * Lemmas *)

Section keep.
Context (Hown : own_directory).

Definition above (c c' : Catalog) : Prop := floor_kept c → floor_kept c'.
#[local] Instance above_preorder : PreOrder above.
Proof. split; unfold above; [intros c H; exact H | intros a b c; auto]. Qed.

Lemma above_same c c' : disk c' = disk c → floors c' = floors c → above c c'.
Proof. intros Hd Hf. unfold above, floor_kept, retired_at, lookup_file. by rewrite Hd, Hf. Qed.
Lemma above_views s c : above c (with_snapshots s c).
Proof. by apply above_same. Qed.
Lemma above_pins (f : Key → Catalog → Catalog) ks c : (∀ k c, above c (f k c)) → above c (foldr f c ks).
Proof. intros Hf H. induction ks as [|k ks IH]; [done |]. by apply Hf. Qed.
Lemma above_room c : above c (make_cache_room c). Proof. apply above_views. Qed.
Lemma above_add k c : above c (add_pin k c). Proof. apply above_views. Qed.
Lemma above_drop k c : above c (drop_pin k c). Proof. apply above_views. Qed.
Lemma above_forget k c : above c (forget_view k c). Proof. apply above_views. Qed.
Lemma above_floor q f c : (q = (p, ns) → A <= f) → above c (with_floors (<[q := f]> (floors c)) c).
Proof.
  intros Hq [Hf Hd]. split; [| exact Hd]. cbn [floors with_floors]. intros f' [[-> <-]|[_ ?]]%lookup_insert_Some; auto.
Qed.
Lemma above_put dir name b c :
  (dir = scope p ns → name = RETIRED_BEFORE → ∃ d, u64_from_slice b = Ok d ∧ A <= d) → above c (put_file dir name b c).
Proof.
  intros Hb [Hf (d & Hd & Hle)]. split; [exact Hf |]. unfold retired_at. rewrite lookup_put_file. case_decide as Heq; [| by exists d].
  destruct Heq as [<- <-]. destruct (Hb eq_refl eq_refl) as (d' & -> & ?). by exists d'.
Qed.
Lemma above_write dir name b :
  (dir = scope p ns → name = RETIRED_BEFORE → ∃ d, u64_from_slice b = Ok d ∧ A <= d) → keeps above (write_json dir name b).
Proof. intros Hb c. destruct (write_json_run dir name b c) as [-> | [-> _]]; [by apply above_put | intros H; exact H]. Qed.
Lemma above_write_other dir name b : name ≠ RETIRED_BEFORE → keeps above (write_json dir name b).
Proof. intros Hn. apply above_write. by intros _ ?. Qed.
Lemma record_not_retired g : record_name g ≠ RETIRED_BEFORE.
Proof. apply record_name_retired. Qed.
Lemma legacy_not_retired : LEGACY_THROUGH ≠ RETIRED_BEFORE.
Proof. done. Qed.
#[local] Hint Resolve above_views above_room above_add above_drop above_forget above_write_other record_not_retired legacy_not_retired : keeps.
#[local] Hint Extern 1 (above _ (foldr _ _ _)) => apply above_pins : keeps.

Lemma retirement_boundary_Some E p' ns' c d : retirement_boundary E p' ns' c = Ok (Some d) → retired_at (scope p' ns') c = Some d.
Proof.
  unfold retirement_boundary, retired_at. intros (o & ->%read_bytes_Ok & H)%result_bind_Ok.
  destruct (lookup_file _ _ c) as [b|]; [| done]. apply transpose_Ok in H as (n' & Hn & [= ->]).
  apply map_err_Ok in Hn. by rewrite Hn.
Qed.
Lemma retirement_boundary_None E p' ns' c : retirement_boundary E p' ns' c = Ok None → retired_at (scope p' ns') c = None.
Proof.
  unfold retirement_boundary, retired_at. intros (o & ->%read_bytes_Ok & H)%result_bind_Ok.
  destruct (lookup_file _ _ c) as [b|]; [| done]. by apply transpose_Ok in H as (n' & _ & [=]).
Qed.

(** The floor an operation sees is not below [A], in the scope it is about. *)
Lemma floor_spec E p' ns' c c' f :
  floor_kept c → floor E p' ns' c = (c', Ok f) → (p', ns') = (p, ns) → A <= f.
Proof.
  intros [Hf (d & Hd & Hle)] H [= -> ->]. unfold floor in H. apply act_bind_Ok in H as (c1 & known & [= <- <-] & H).
  destruct (floors c !! (p, ns)) as [f0|] eqn:Hf0; [injection H as _ <-; by apply Hf |].
  apply act_bind_Ok in H as (c2 & durable & [= <- Hdur] & (c3 & f1 & H1 & (c4 & [] & _ & [= _ <-])%act_bind_Ok)%act_bind_Ok).
  destruct durable as [d'|].
  - apply retirement_boundary_Some in Hdur. rewrite Hd in Hdur. injection H1 as _ <-. by injection Hdur as <-.
  - apply retirement_boundary_None in Hdur. congruence.
Qed.
Lemma above_floor_op E p' ns' : keeps above (floor E p' ns').
Proof.
  intros c Hc. pose proof (floor_spec E p' ns' c) as Hspec. revert Hspec.
  unfold floor, mbind, act_bind, act_get, act_read. destruct (floors c !! (p', ns')) as [f|]; [done |].
  destruct (retirement_boundary E p' ns' c) as [[d|]|e] eqn:Hd; [| | done].
  - intros Hspec. revert Hc. cbn. intros Hc. specialize (Hspec _ _ Hc eq_refl). revert Hc. by apply above_floor.
  - unfold act_of. destruct (ensure _ _ _) as [[]|]; [| done]. intros Hspec. revert Hc. cbn. intros Hc.
    specialize (Hspec _ _ Hc eq_refl). revert Hc. by apply above_floor.
Qed.
Lemma above_floor_other q f c : q ≠ (p, ns) → above c (with_floors (<[q := f]> (floors c)) c).
Proof. intros Hq. by apply above_floor. Qed.
Lemma above_write_elsewhere p' ns' name b : (p', ns') ≠ (p, ns) → keeps above (write_json (scope p' ns') name b).
Proof. intros Hq. apply above_write. intros [-> ->]%Hown. done. Qed.
#[local] Hint Resolve above_floor_other above_write_elsewhere : keeps.

Lemma above_retirement E p' ns' base full : keeps above (ensure_retirement_boundary E p' ns' base full).
Proof.
  destruct (decide ((p', ns') = (p, ns))) as [Heq|Hne]; [| unfold ensure_retirement_boundary; act_keeps].
  injection Heq as -> ->. intros c Hc. pose proof Hc as [_ (d & Hd & Hle)].
  unfold ensure_retirement_boundary, mbind, act_bind, act_get, act_read.
  destruct (retirement_boundary E p ns c) as [[f|]|e] eqn:Hf; [| | done].
  - unfold act_of. destruct (ensure _ _ _) as [[]|]; [| done]. cbn. revert Hc. apply above_floor. intros _.
    apply retirement_boundary_Some in Hf. rewrite Hd in Hf. by injection Hf as <-.
  - apply retirement_boundary_None in Hf. congruence.
Qed.
Lemma above_legacy E p' ns' base full empty : keeps above (ensure_legacy_boundary E p' ns' base full empty).
Proof. unfold ensure_legacy_boundary. act_keeps. Qed.
#[local] Hint Resolve above_floor_op above_retirement above_legacy : keeps.

Lemma above_pin E p' ns' g join : keeps above (pin_inner E p' ns' g join).
Proof. unfold pin_inner, lease. act_keeps. Qed.
#[local] Hint Resolve above_pin : keeps.
Lemma above_prepare E p' ns' base g legacy changed deleted : keeps above (prepare E p' ns' base g legacy changed deleted).
Proof. unfold prepare, pin. act_keeps. Qed.
Lemma above_prepare_full E p' ns' base g paths fresh : keeps above (prepare_full_inner E p' ns' base g paths fresh).
Proof. unfold prepare_full_inner. act_keeps. Qed.

Lemma above_seal_checked E p' ns' g : keeps above (seal_checked E p' ns' g).
Proof.
  unfold seal_checked. act_keeps. destruct (snapshots _ !! _); [intros H; exact H | apply above_room].
Qed.
Lemma above_seal E p' ns' g : keeps above (seal E p' ns' g).
Proof.
  intros c Hc. pose proof (above_seal_checked E p' ns' g c Hc) as H1. unfold seal, mbind at 1, act_bind at 1.
  destruct (seal_checked E p' ns' g c) as [c1 [[[f r] v]|]] eqn:Hs; cbn [fst] in H1; [| done].
  assert (Hf : (p', ns') = (p, ns) → A <= f).
  { intros [= -> ->]. destruct Hc as [_ (d & Hd & Hle)]. unfold seal_checked in Hs.
    do 5 (apply act_bind_Ok in Hs as (? & ? & Hx & Hs); injection Hx as <- ?).
    apply act_bind_Ok in Hs as (? & o & Hx & Hs). injection Hx as <- Ho.
    apply act_bind_Ok in Hs as (? & f' & Hx & Hs). injection Hx as <- ->%ok_or_Ok.
    do 7 (apply act_bind_Ok in Hs as (? & ? & ? & Hs)). injection Hs as _ <- _ _.
    apply retirement_boundary_Some in Ho. rewrite Hd in Ho. by injection Ho as <-. }
  match goal with |- floor_kept (?m c1).1 => assert (Hm : keeps above m); [| by apply Hm] end.
  apply keeps_bind; [exact _ | auto with keeps | intros []]. apply keeps_modify. intros c2.
  etransitivity; [by apply (above_floor (p', ns') f) |]. apply above_same; by destruct (snapshots c2 !! _).
Qed.
Lemma above_prune E p' ns' active keep : keeps above (prune_metadata E p' ns' active keep).
Proof.
  unfold prune_metadata. apply keeps_bind; [exact _ | act_keeps | intros entries]. apply keeps_each; [exact _ | intros name].
  destruct (decide (name = RETIRED_BEFORE)) as [->|Hn]; [by apply keeps_ret, _ |].
  unfold prune_entry. destruct (strip_suffix _ _) as [number|]; [| act_keeps]. destruct (parse_u64 number) as [g|]; [| act_keeps].
  destruct (negb _ || _ || _); [act_keeps |]. intros c. destruct (read_record _ _ _) as [[r|]|[]]; try (intros H; exact H).
  intros [Hf (d & Hd & Hle)]. split; [exact Hf |]. exists d. split; [| done]. unfold retired_at. cbn [fst].
  rewrite lookup_remove_file, decide_False; [done | naive_solver].
Qed.
#[local] Hint Resolve above_prune : keeps.
Lemma above_collect E p' ns' active : active <= u64_max → keeps above (protect_for_gc E p' ns' active).
Proof.
  intros Hmax. unfold protect_for_gc, pin. apply keeps_bind; [exact _ | act_keeps | intros view].
  apply keeps_on_error; [exact _ | intros ?; auto with keeps |].
  intros c Hc. unfold mbind at 1, act_bind at 1. pose proof (above_floor_op E p' ns' c Hc) as H1.
  pose proof (floor_spec E p' ns' c) as Hf. destruct (floor E p' ns' c) as [c1 [f|]]; cbn [fst] in H1; [| done].
  unfold mbind at 1, act_bind at 1, act_of. destruct (ensure (f <=? active) _ _) as [[]|] eqn:Hle; [| done].
  apply ensure_Ok, N.leb_le in Hle.
  assert (HA : (p', ns') = (p, ns) → A <= active) by (intros Hq; specialize (Hf _ _ Hc eq_refl Hq); lia).
  match goal with |- floor_kept (?m c1).1 => assert (Hm : keeps above m); [| by apply Hm] end.
  apply keeps_bind; [exact _ | | intros _].
  - apply above_write. intros [-> ->]%Hown _. exists active. split; [by apply u64_round_trip | auto].
  - apply keeps_bind; [exact _ | apply keeps_modify; intros c2; by apply above_floor | intros _]. act_keeps.
Qed.

Lemma above_run o T : admissible o T → ∀ c, above c (run o c).
Proof.
  intros Ha c. destruct o as [E p' ns' g join | k | E p' ns' base g legacy changed deleted | E p' ns' base g paths fresh | E p' ns' g | E p' ns' active |];
    cbn [run admissible] in *.
  - apply above_pin.
  - apply above_drop.
  - apply above_prepare.
  - apply above_prepare_full.
  - apply above_seal.
  - by apply above_collect.
  - intros [_ Hd]. split; [intros f; cbn; by rewrite lookup_empty | exact Hd].
Qed.
Lemma above_events T c T' c' : rtc event (T, c) (T', c') → above c c'.
Proof.
  intros H. remember (T, c) as x eqn:Hx. remember (T', c') as y eqn:Hy. revert T c Hx.
  induction H as [x | x [T1 c1] y Hstep Hrest IH]; intros T c ->.
  - injection Hy as <- <-. intros H; exact H.
  - inversion Hstep as [o T0 c0 Ha Heq Heq2]; subst. etransitivity; [by eapply above_run |]. by eapply IH.
Qed.
End keep.

(** A collection leaves a floor at its active generation. *)
Lemma collect_floor (Hown : own_directory) E c c' vs :
  A <= u64_max → protect_for_gc E p ns A c = (c', Ok vs) → floor_kept c'.
Proof.
  intros Hmax. unfold protect_for_gc. intros (c1 & view & _ & H%act_on_error_Ok)%act_bind_Ok.
  apply act_bind_Ok in H as (c2 & f & _ & (c3 & [] & _ & (c4 & [] & Hw & H)%act_bind_Ok)%act_bind_Ok).
  destruct (write_json_run (scope p ns) RETIRED_BEFORE (u64_to_vec A) c3) as [Hw' | [_ Hw']]; rewrite Hw in Hw'; [| done].
  injection Hw' as ->. apply act_bind_Ok in H as (c5 & [] & [= <-] & H).
  match type of H with ?m ?c0 = _ => assert (Hm : keeps above m); [| specialize (Hm c0)] end.
  - pose proof above_preorder. apply keeps_bind; [exact _ | by apply keeps_get, _ | intros others].
    apply keeps_bind; [exact _ | apply keeps_modify; intros ?; apply above_pins; intros; apply above_add | intros _].
    apply keeps_bind; [exact _ | apply keeps_modify; intros ?; apply above_views | intros _].
    apply keeps_bind; [exact _ | | intros; by apply keeps_ret, _].
    apply keeps_on_error; [exact _ | intros ?; apply above_pins; intros; apply above_drop | apply above_prune].
  - rewrite H in Hm. cbn [fst] in Hm. apply Hm. split.
    + cbn [floors with_floors]. intros f'. rewrite lookup_insert_eq. by intros [= <-].
    + exists A. split; [| done]. unfold retired_at. change (lookup_file ?a ?b (with_floors _ ?c)) with (lookup_file a b c).
      rewrite lookup_put_file, decide_True by done. by rewrite u64_round_trip.
Qed.
End retire.

(** ** The active chain *)

Section chain.
Context `{SE : !SnapshotEnv}.
Context (p ns : string) (g : N).

(** The record of the generation is the same file. *)
Definition same_record (c c' : Catalog) : Prop :=
  lookup_file (scope p ns) (record_name g) c' = lookup_file (scope p ns) (record_name g) c.
#[local] Instance same_record_preorder : PreOrder same_record.
Proof. split; unfold same_record; [by intros ? | intros a b c -> ->; done]. Qed.
Lemma same_record_disk c c' : disk c' = disk c → same_record c c'.
Proof. unfold same_record, lookup_file. by intros ->. Qed.
Lemma same_record_views s c : same_record c (with_snapshots s c).
Proof. done. Qed.
Lemma same_record_floors f c : same_record c (with_floors f c).
Proof. done. Qed.
Lemma same_record_room c : same_record c (make_cache_room c). Proof. done. Qed.
Lemma same_record_add k c : same_record c (add_pin k c). Proof. done. Qed.
Lemma same_record_drop k c : same_record c (drop_pin k c). Proof. done. Qed.
Lemma same_record_pins (f : Key → Catalog → Catalog) ks c :
  (∀ k c, same_record c (f k c)) → same_record c (foldr f c ks).
Proof. intros Hf. induction ks as [|k ks IH]; [done |]. cbn [foldr]. etransitivity; [exact IH | apply Hf]. Qed.
#[local] Hint Resolve same_record_views same_record_floors same_record_room same_record_add same_record_drop : keeps.
#[local] Hint Extern 1 (same_record _ (foldr _ _ _)) => apply same_record_pins : keeps.

Lemma same_record_floor E : keeps same_record (floor E p ns).
Proof. unfold floor. act_keeps. Qed.
#[local] Hint Resolve same_record_floor : keeps.
Lemma same_record_pin E h join : keeps same_record (pin_inner E p ns h join).
Proof. unfold pin_inner, lease. act_keeps. Qed.
Lemma same_record_write b : keeps same_record (write_json (scope p ns) RETIRED_BEFORE b).
Proof.
  intros c. destruct (write_json_run (scope p ns) RETIRED_BEFORE b c) as [-> | [-> _]]; [| done].
  unfold same_record. cbn [fst]. rewrite lookup_put_file, decide_False; [done |]. intros [_ H]. by apply record_name_retired in H.
Qed.
Lemma same_record_prune E active keep :
  g <= u64_max → active <= g ∨ g ∈ keep → keeps same_record (prune_metadata E p ns active keep).
Proof.
  intros Hmax Hg. unfold prune_metadata. apply keeps_bind; [exact _ | act_keeps | intros entries].
  apply keeps_each; [exact _ | intros name]. destruct (decide (name = record_name g)) as [->|Hn].
  - intros c. unfold prune_entry, record_name. rewrite (proj2 (strip_suffix_Some ".json" _ _) eq_refl), parse_show_u64 by done.
    rewrite String.eqb_refl. destruct (N.leb_spec active g); [done |]. destruct Hg as [?|Hg]; [lia |].
    by rewrite bool_decide_eq_true_2.
  - unfold prune_entry. destruct (strip_suffix _ _) as [number|]; [| act_keeps]. destruct (parse_u64 number) as [h|]; [| act_keeps].
    destruct (negb _ || _ || _); [act_keeps |]. intros c. destruct (read_record _ _ _) as [[r|]|[]]; try done.
    unfold same_record. cbn [fst]. rewrite lookup_remove_file, decide_False; [done | naive_solver].
Qed.
Lemma same_record_collect E active c c1 view c' vs :
  pin E p ns active c = (c1, Ok view) → protect_for_gc E p ns active c = (c', Ok vs) →
  g <= u64_max → active <= g ∨ g ∈ ancestry view → same_record c c'.
Proof.
  intros Hp H Hmax Hg. unfold protect_for_gc, mbind at 1, act_bind at 1 in H. rewrite Hp in H. apply act_on_error_Ok in H.
  pose proof (same_record_pin E active true c) as H1. unfold pin in Hp. rewrite Hp in H1. etransitivity; [exact H1 |].
  match type of H with ?m ?c0 = _ => assert (Hm : keeps same_record m); [| specialize (Hm c0); by rewrite H in Hm] end.
  pose proof same_record_write. pose proof (same_record_prune E active (ancestry view) Hmax Hg). act_keeps.
Qed.
End chain.

Section walk.
Context `{SE : !SnapshotEnv}.

Lemma read_record_same k c c' :
  lookup_file (dir_of k) (file_of k) c' = lookup_file (dir_of k) (file_of k) c →
  read_record unlimited k c' = read_record unlimited k c.
Proof. intros H. unfold read_record, read_bytes. fold (dir_of k). fold (file_of k). by rewrite H. Qed.

Lemma walk_same T n k permit c c' cursor acc size records b :
  Inv T (restart c) → cursor <= key_generation k →
  walk unlimited n k false permit (restart c) cursor acc size = Ok (Some (records, b)) →
  (∀ g, g ∈ record_generation <$> records → same_record (key_project k) (key_namespace k) g c c') →
  walk unlimited n k false permit (restart c') cursor acc size = Ok (Some (records, b)).
Proof.
  intros HI. revert cursor acc size. induction n as [|n IH]; intros cursor acc size Hc; [done |]. intros Hw Hsame.
  pose proof Hw as (r & older & st & Hrec & Hr & _)%(walk_Some _ _ _ _ _ _ _ _ _ _ _ _ HI Hc).
  pose proof (record_at_facts _ _ _ Hr) as (Hg & _ & _ & Hup & _). cbn in Hg.
  assert (Hrr : read_record unlimited (at_generation k cursor) (restart c') = read_record unlimited (at_generation k cursor) (restart c)).
  { apply read_record_same, (Hsame cursor). rewrite Hrec, fmap_app. apply elem_of_app. right. rewrite fmap_cons, Hg. left. }
  cbn [walk] in *. rewrite Hrr. destruct (read_record _ _ _) as [[[r' len]|]|] eqn:Hread; cbn [mbind result_bind] in *; [| | done].
  2: { repeat (apply result_bind_Ok in Hw as ([] & _ & Hw)). done. }
  apply read_record_Some in Hread. rewrite Hr in Hread. injection Hread as <-.
  destruct (ensure _ _ _) as [[]|]; cbn [mbind result_bind] in *; [| done].
  destruct (ensure _ _ _) as [[]|]; cbn [mbind result_bind] in *; [| done].
  destruct (record_files r), (parent r) as [up|] eqn:Hpar; try done. cbn [snapshots restart] in *. rewrite lookup_empty in *.
  apply IH; [| done | done]. specialize (Hup up eq_refl). cbn in Hup. lia.
Qed.

Lemma replay_generations st records g : g ∈ record_generation <$> records → g ∈ (replay st records).2.
Proof.
  induction records as [|r records IH] using rev_ind; [by intros ?%elem_of_nil |].
  rewrite fmap_app, replay_snoc. cbn [snd]. rewrite !elem_of_app. cbn. naive_solver.
Qed.
End walk.

(** * Theorems *)

Section theorems.
Context `{SE : !SnapshotEnv}.

(** C4. A retired generation is not reopened: after a collection, whatever happens
    to the catalog, restarts and lost caches included, a fresh request for a
    generation before the active one is refused. *)
Theorem retired_generation_stays_retired p ns active E c c0 vs T T' c' E' g :
  own_directory p ns → active <= u64_max → protect_for_gc E p ns active c = (c0, Ok vs) →
  rtc event (T, c0) (T', c') → g < active → is_ok (pin_fresh E' p ns g c').2 = false.
Proof.
  intros Hown Hmax Hgc Hev Hg. apply (collect_floor p ns active Hown) in Hgc; [| done].
  apply (above_events p ns active Hown _ _ _ _ Hev) in Hgc.
  destruct (pin_fresh E' p ns g c') as [c2 [v|e]] eqn:Hp; [| done]. exfalso. unfold pin_fresh, pin_inner in Hp.
  apply act_bind_Ok in Hp as (c3 & [] & [= <- _] & (c4 & [] & [= <- _] & Hp)%act_bind_Ok).
  apply act_bind_Ok in Hp as (c5 & f & Hf & (c6 & held & [= <- <-] & Hp)%act_bind_Ok).
  pose proof (floor_spec p ns active E' p ns c' c5 f Hgc Hf eq_refl). destruct (N.ltb_spec g f); [done | lia].
Qed.

(** C34. Collection never damages the active generation: if its chain of records
    resolves from the disk alone before, as after a restart, it resolves to the
    same view afterwards. *)
Theorem collection_keeps_the_active_generation T c E p ns active c' vs permit v files :
  reachable T c → active <= u64_max → protect_for_gc E p ns active c = (c', Ok vs) →
  load unlimited (key p ns active) (S MAX_DEPTH) false permit (restart c) = Ok v → selection v = Files files →
  load unlimited (key p ns active) (S MAX_DEPTH) false permit (restart c') = Ok v.
Proof.
  intros HI%reachable_catalog_inv Hmax Hgc Hload Hsel. assert (HIr : Inv T (restart c)) by (revert HI; by apply inv_cache).
  pose proof (load_spec _ _ _ _ _ _ _ _ HIr Hload) as Hl. rewrite Hsel in Hl. destruct Hl as (r & Hr & Hp & Hres & _).
  pose proof (tells_resolved _ _ _ _ (inv_sealed _ _ HIr _ _ Hr (Hp eq_refl)) Hres) as HT.
  assert (Hpin : ∃ c1 view, pin E p ns active c = (c1, Ok view) ∧ ancestry view = ancestry v).
  { unfold protect_for_gc in Hgc. apply act_bind_Ok in Hgc as (c1 & view & Hpin & _). exists c1, view. split; [done |].
    unfold pin in Hpin. pose proof (pin_view _ _ _ _ _ _ _ _ _ HI Hpin) as Hv. unfold view_ok in Hv. rewrite HT in Hv.
    destruct (selection view); [by destruct Hv | by destruct Hv as [[= _ <-] _]]. }
  destruct Hpin as (c1 & view & Hpin & Hanc). unfold load in Hload |- *.
  apply result_bind_Ok in Hload as (found & Hw & H). destruct found as [[records b]|]; [| by injection H as <-].
  assert (Hgen : ∀ g, g ∈ record_generation <$> records → g ∈ ancestry v).
  { intros g Hg. destruct (match b with AtCheckpoint files0 => Ok files0 | AtView view0 => _ end) as [bf|]; [| done].
    cbn [mbind result_bind] in H. do 3 (apply result_bind_Ok in H as ([] & _ & H)).
    apply result_bind_Ok in H as (st' & Hst' & [= <-]). apply apply_records_spec in Hst' as ->. by apply replay_generations. }
  erewrite (walk_same T); [exact H | done | | exact Hw |]; [done |].
  intros g Hg. apply (same_record_collect p ns g E active c c1 view c' vs Hpin Hgc); [| right; rewrite Hanc; by apply Hgen].
  apply (inv_bounds _ _ HIr) in HT as (_ & _ & Ha). rewrite Forall_forall in Ha. specialize (Ha g (Hgen g Hg)). cbn in Ha. lia.
Qed.
End theorems.
