(* ===== verification/SnapshotsWitnesses.v ===== *)
(** A concrete catalog, a small history of one project, and the theorems on
    snapshots at it. *)
From S2P Require Import Prelude Text Unicode Concrete Store Records Reindex SourceHead Registry GraphWitnesses Snapshots SnapshotsSpec SnapshotsHistory SnapshotsRetire.

Open Scope N_scope.

(** * Definitions *)

Definition num (n : N) : string := countable_to_vec n.
Definition of_num (s : string) : option N := match countable_from_slice s with Ok n => Some n | Fail _ => None end.
Definition num_opt (o : option N) : string := match o with Some n => String "1" (num n) | None => "" end.
Definition of_num_opt (s : string) : option (option N) := match s with String _ s => Some <$> of_num s | "" => Some None end.

(** A map as the list of its entries. *)
Definition map_text {A} (w : A → string) (m : gmap string A) : string :=
  write_list (λ kv, write_fields [kv.1; w kv.2]) (map_to_list m).
Definition of_map_text {A} (r : string → option A) (s : string) : option (gmap string A) :=
  list_to_map <$> read_list (λ e, match read_fields e with Some [k; v] => (k,.) <$> r v | _ => None end) s.
Definition option_text {A} (w : A → string) (o : option A) : string :=
  match o with Some a => String "1" (w a) | None => "" end.
Definition of_option_text {A} (r : string → option A) (s : string) : option (option A) :=
  match s with String _ s => Some <$> r s | "" => Some None end.

Definition record_text (r : SnapshotRecord) : bytes :=
  write_fields [num (format r); record_project r; record_namespace r; num (record_generation r); num_opt (parent r);
    (if record_pending r then "1" else ""); option_text (map_text num) (record_files r); map_text num_opt (changes r)].
Definition of_record_text (b : bytes) : option SnapshotRecord :=
  match read_fields b with
  | Some [f; p; ns; g; up; pending; files; cs] =>
      f ← of_num f; g ← of_num g; up ← of_num_opt up; files ← of_option_text (of_map_text of_num) files;
      cs ← of_map_text of_num_opt cs;
      Some {| format := f; record_project := p; record_namespace := ns; record_generation := g; parent := up;
              record_pending := String.eqb pending "1"; record_files := files; changes := cs |}
  | _ => None
  end.

Lemma of_num_num n : of_num (num n) = Some n.
Proof. unfold of_num, num. by rewrite countable_round_trip. Qed.
Lemma of_num_opt_num o : of_num_opt (num_opt o) = Some o.
Proof. destruct o as [n|]; [| done]. cbn. by rewrite of_num_num. Qed.
Lemma of_map_text_text {A} (w : A → string) r (m : gmap string A) :
  (∀ a, r (w a) = Some a) → of_map_text r (map_text w m) = Some m.
Proof.
  intros Hr. unfold of_map_text, map_text. rewrite read_write_list.
  - cbn. by rewrite list_to_map_to_list.
  - intros [k a]. rewrite read_write_fields. cbn. by rewrite Hr.
Qed.
Lemma of_record_text_text r : of_record_text (record_text r) = Some r.
Proof.
  unfold of_record_text, record_text. rewrite read_write_fields, !of_num_num. cbn [mbind option_bind].
  rewrite of_num_opt_num. cbn [mbind option_bind].
  assert (Hf : of_option_text (of_map_text of_num) (option_text (map_text num) (record_files r)) = Some (record_files r)).
  { destruct (record_files r) as [m|]; [| done]. cbn. by rewrite (of_map_text_text _ _ _ of_num_num). }
  rewrite Hf. cbn [mbind option_bind]. rewrite (of_map_text_text _ _ _ of_num_opt_num). cbn [mbind option_bind].
  by destruct r as [? ? ? ? ? [] ? ?].
Qed.
Definition record_json : Json SnapshotRecord := {|
  to_vec := record_text;
  from_slice b := match of_record_text b with Some r => Ok r | None => Fail SerdeError end;
  from_slice_to_vec r := eq_trans (f_equal (λ o, match o with Some r => Ok r | None => Fail SerdeError end) (of_record_text_text r)) eq_refl;
|}.

(** A digest that knows one directory. *)
Fixpoint repeat_char (c : ascii) (n : nat) : string := match n with O => "" | S n => String c (repeat_char c n) end.
Definition demo_scope : string := project_key "p" "memory".
Definition demo_hex (b : bytes) : string := repeat_char (if String.eqb b demo_scope then "a" else "0")%char 64.
Lemma demo_hex_shape b : String.length (demo_hex b) = 64%nat ∧ string_forallb is_lower_hexdigit (demo_hex b) = true.
Proof. unfold demo_hex. by destruct (String.eqb b demo_scope). Qed.
Definition demo_blake3 : Blake3 := {| blake3_hex := demo_hex; blake3_hex_shape := demo_hex_shape |}.

#[export] Instance demo_env : SnapshotEnv :=
  {| sn_registry := concrete_env; sn_record := record_json; sn_blake3 := demo_blake3; sn_order := sorted_order |}.

(** The legacy generation 1 has three files; generation 2 changes one of them
    and deletes another, generation 3 adds one. *)
Definition prepare_2 : Op := OpPrepare unlimited "p" "memory" 1 2 ["a"; "b"; "c"] ["a"] ["b"].
Definition seal_2 : Op := OpSeal unlimited "p" "memory" 2.
Definition prepare_3 : Op := OpPrepare unlimited "p" "memory" 2 3 [] ["d"] [].
Definition seal_3 : Op := OpSeal unlimited "p" "memory" 3.
Definition pin_2 : Op := OpPin unlimited "p" "memory" 2 true.
Definition collect_3 : Op := OpCollect unlimited "p" "memory" 3.

Definition Truth : Type := gmap Key (gmap string N * list N).
Definition run_all (ops : list Op) (x : Truth * Catalog) : Truth * Catalog :=
  foldl (λ x o, (learn o x.2 x.1, run o x.2)) x ops.
Definition admissible_bool (o : Op) (T : Truth) : bool :=
  match o with
  | OpPrepare _ p ns _ g _ _ _ | OpPrepareFull _ p ns _ g _ _ =>
      match T !! key p ns g with None => true | Some _ => false end
  | OpCollect _ _ _ active => active <=? u64_max
  | _ => true
  end.
Fixpoint all_admissible (ops : list Op) (x : Truth * Catalog) : bool :=
  match ops with
  | [] => true
  | o :: ops => admissible_bool o x.1 && all_admissible ops (learn o x.2 x.1, run o x.2)
  end.

Definition start : Truth * Catalog := (∅, empty_catalog).
Definition at_2 : Truth * Catalog := run_all [prepare_2; seal_2] start.
Definition at_3 : Truth * Catalog := run_all [pin_2; prepare_3; seal_3; collect_3; OpRestart] at_2.

(** The value of a call that returns one. *)
Definition no_view : Snapshot := {| snapshot_generation := 0; selection := Legacy 0; depth := 0; ancestry := [] |}.
Definition value {A} (d : A) (r : result A) : A := match r with Ok a => a | Fail _ => d end.
Definition known (T : Truth) (k : Key) : gmap string N * list N := default (∅, []) (T !! k).

(** * Lemmas *)

Lemma run_all_events ops x : all_admissible ops x = true → rtc event x (run_all ops x).
Proof.
  revert x. induction ops as [|o ops IH]; intros [T c]; [constructor |]. cbn [all_admissible run_all foldl fst snd].
  intros [Ho Hops]%andb_true_iff. eapply rtc_l; [| by apply IH]. constructor.
  destruct o; cbn in *; try done; [by case_match | by case_match | by apply N.leb_le].
Qed.
Lemma ran {S A} (d : A) (m : Act S A) s : is_ok (m s).2 = true → m s = ((m s).1, Ok (value d (m s).2)).
Proof. destruct (m s) as [s' [a|e]]; done. Qed.
Lemma known_lookup (T : Truth) k : (match T !! k with Some _ => true | None => false end) = true →
  T !! k = Some ((known T k).1, (known T k).2).
Proof. unfold known. destruct (T !! k) as [[f a]|]; done. Qed.

Lemma reachable_2 : reachable at_2.1 at_2.2.
Proof. apply (run_all_events [prepare_2; seal_2] start). vm_compute. reflexivity. Qed.
Lemma events_3 : rtc event at_2 at_3.
Proof. apply run_all_events. vm_compute. reflexivity. Qed.

Example demo_selection_2 :
  map_to_list (files_of (value no_view (pin unlimited "p" "memory" 2 at_2.2).2)) = [("c", 1); ("a", 2)].
Proof. vm_compute. reflexivity. Qed.
Example demo_selection_3 :
  map_to_list (files_of (value no_view (pin unlimited "p" "memory" 3 at_3.2).2)) = [("c", 1); ("a", 2); ("d", 3)].
Proof. vm_compute. reflexivity. Qed.

(** * Witnesses *)

Definition key_2 : Key := key "p" "memory" 2.
Definition pinned_2 : Catalog * result Snapshot := pin unlimited "p" "memory" 2 at_2.2.
Definition pinned_3 : Catalog * result Snapshot := pin unlimited "p" "memory" 3 at_3.2.

(** Generation 3 after generation 2 was pinned, collected and the server
    restarted: a pin of generation 3, known from its seal. *)
Definition sealed_3 : Truth * Catalog := run_all [pin_2; prepare_3; seal_3] at_2.
Lemma reachable_3 : reachable sealed_3.1 sealed_3.2.
Proof.
  apply (run_all_events [prepare_2; seal_2; pin_2; prepare_3; seal_3] start). vm_compute. reflexivity.
Qed.


Lemma views_never_read_the_future_witness :
  let v := value no_view pinned_2.2 in
  map_Forall (λ _ revision, revision <= 2) (files_of v) ∧ (length (ancestry v) <= MAX_DEPTH)%nat.
Proof.
  intros v. apply (views_never_read_the_future at_2.1 at_2.2 unlimited "p" "memory" 2 true pinned_2.1 v (files_of v)).
  - exact reachable_2.
  - apply ran. vm_compute. reflexivity.
  - vm_compute. reflexivity.
Defined.

Lemma update_changes_what_it_states_witness :
  let c1 := (prepare unlimited "p" "memory" 2 3 [] ["d"] ["c"] at_2.2).1 in
  let c2 := (seal unlimited "p" "memory" 3 c1).1 in
  let r := pin unlimited "p" "memory" 3 c2 in
  ∃ files, selection (value no_view r.2) = Files files ∧ ∀ path, files !! path =
    if decide (path ∈ ["d"]) then Some 3 else if decide (path ∈ ["c"]) then None
    else base_files at_2.1 "p" "memory" 2 [] !! path.
Proof.
  intros c1 c2 r. apply (update_changes_what_it_states at_2.1 at_2.2 unlimited "p" "memory" 2 3 [] ["d"] ["c"] c1 unlimited c2 unlimited true r.1).
  - exact reachable_2.
  - vm_compute. reflexivity.
  - apply (ran tt). vm_compute. reflexivity.
  - apply (ran tt). vm_compute. reflexivity.
  - apply ran. vm_compute. reflexivity.
Defined.

Lemma pinned_view_stays_witness :
  let v := value no_view pinned_2.2 in
  ∃ m, (0 <= m)%nat ∧ snapshots (run collect_3 (run seal_3 (run prepare_3 pinned_2.1))) !! key_2 = Some (v, S m).
Proof.
  intros v. apply (pinned_view_stays key_2 v 0 collect_3).
  - vm_compute. reflexivity.
  - intros H. exact H.
Defined.

Lemma collector_sees_every_pin_witness :
  let v := value no_view pinned_2.2 in
  let c := run seal_3 (run prepare_3 pinned_2.1) in
  v ∈ value [] (protect_for_gc unlimited "p" "memory" 3 c).2.
Proof.
  intros v c. apply (collector_sees_every_pin unlimited "p" "memory" 3 c (protect_for_gc unlimited "p" "memory" 3 c).1 _ 2 v 0).
  - apply ran. vm_compute. reflexivity.
  - vm_compute. reflexivity.
Defined.

Lemma demo_own_directory : own_directory "p" "memory".
Proof.
  intros p' ns'. unfold scope, blake3_hex, demo_env, sn_blake3, demo_blake3, demo_hex.
  destruct (String.eqb_spec (project_key p' ns') demo_scope) as [H|H]; [| rewrite String.eqb_refl; discriminate].
  intros _. unfold project_key, project_prefix in H. rewrite app_assoc_str in H. change (str1 NUL +:+ ns') with (String NUL ns') in H.
  destruct p' as [|c p']; [discriminate |]. injection H as -> H. destruct p' as [|c p'].
  - by injection H as ->.
  - injection H as -> H. pose proof (contains_char_mid NUL p' ns') as Hc. change (p' +:+ String NUL ns' = "memory") in H. by rewrite H in Hc.
Qed.

Lemma retired_generation_stays_retired_witness :
  is_ok (pin_fresh unlimited "p" "memory" 2 at_3.2).2 = false.
Proof.
  apply (retired_generation_stays_retired "p" "memory" 3 unlimited sealed_3.2 (run collect_3 sealed_3.2)
           (value [] (protect_for_gc unlimited "p" "memory" 3 sealed_3.2).2) sealed_3.1 at_3.1).
  - exact demo_own_directory.
  - done.
  - apply ran. vm_compute. reflexivity.
  - apply (run_all_events [OpRestart] (sealed_3.1, run collect_3 sealed_3.2)). vm_compute. reflexivity.
  - lia.
Defined.

Lemma collection_keeps_the_active_generation_witness :
  let c := sealed_3.2 in
  let v := value no_view (load unlimited (key "p" "memory" 3) (S MAX_DEPTH) false true (restart c)) in
  load unlimited (key "p" "memory" 3) (S MAX_DEPTH) false true (restart (run collect_3 c)) = Ok v.
Proof.
  intros c v. apply (collection_keeps_the_active_generation sealed_3.1 c unlimited "p" "memory" 3 (run collect_3 c)
    (value [] (protect_for_gc unlimited "p" "memory" 3 c).2) true v (files_of v)).
  - exact reachable_3.
  - done.
  - apply ran. vm_compute. reflexivity.
  - vm_compute. reflexivity.
  - vm_compute. reflexivity.
Defined.
