(* ===== verification/SnapshotsRecovery.v ===== *)
(** [Catalog::recovery_high_water] with the work budget of [source_highwater]:
    the generation below which a recovery may not start, and that it covers
    everything the cache and the disk have ever used. *)
From S2P Require Import Prelude Text Unicode Concrete Store Records Reindex SourceHead Registry Snapshots SnapshotsSpec SnapshotsHistory SnapshotsWitnesses.

Open Scope N_scope.

(** * Definitions *)

Definition MAX_WORK : N := 4000000.
Definition MAX_METADATA_ENTRIES : nat := 4096.

(** The work that is left, and what the cancellation token and the clock answer
    at each check. *)
Record WorkBudget := {
  remaining : N;
  checks : nat;
  clock : nat → result ();
}.
Definition new_budget (answers : nat → result ()) : WorkBudget := {| remaining := MAX_WORK; checks := 0; clock := answers |}.
Definition check : Act WorkBudget () := λ b,
  ({| remaining := remaining b; checks := S (checks b); clock := clock b |}, clock b (checks b)).
Definition take_work (amount : N) : Act WorkBudget () := λ b,
  match checked_sub (remaining b) amount with
  | Some rest => ({| remaining := rest; checks := checks b; clock := clock b |}, Ok tt)
  | None => (b, Fail (Bail "Source recovery inspection work budget exceeded; source unchanged" []))
  end.
Definition charge (amount : N) : Act WorkBudget () := _ ← check; take_work amount.

Section recovery.
Context `{SE : !SnapshotEnv}.

Definition act_fold {A B} (f : B → A → Act WorkBudget B) : list A → B → Act WorkBudget B :=
  fix go l b := match l with [] => mret b | a :: l => b' ← f b a; go l b' end.

Definition high_of_view (p ns : string) (maximum : N) (kv : Key * (Snapshot * nat)) : Act WorkBudget N :=
  _ ← charge 1;
  if in_scope p ns kv.1 then
    let maximum := N.max (N.max maximum (key_generation kv.1)) (snapshot_generation kv.2.1) in
    match selection kv.2.1 with
    | Legacy generation => mret (N.max maximum generation)
    | Files files =>
        act_fold (λ m (e : string * N), _ ← charge 1; mret (N.max m e.2)) (map_to_list files) maximum
    end
  else mret maximum.

Definition high_of_entry (E : Env) (p ns : string) (c : Catalog) (st : N * nat) (name : string) : Act WorkBudget (N * nat) :=
  _ ← charge 1;
  let entries := S st.2 in
  _ ← act_of (ensure (Nat.leb entries MAX_METADATA_ENTRIES)
          "Source recovery inspection budget exceeded (4096 catalog directory entries); source unchanged" []);
  if String.eqb name LEGACY_THROUGH || String.eqb name RETIRED_BEFORE then
    b ← act_of (read_bytes E (scope p ns) name 64 c);
    b ← act_of (ok_or b (Bail "Source recovery catalog boundary disappeared; retry" []));
    n ← act_of (u64_from_slice b);
    mret (N.max st.1 n, entries)
  else
    stem ← act_of (ok_or (strip_suffix ".json" name)
      (Bail "Source recovery found an unknown catalog filename; inspect the preserved metadata before retrying" []));
    generation ← act_of (map_err (Bail "Source recovery found an unsupported catalog generation filename" []) (parse_u64 stem));
    _ ← act_of (ensure (String.eqb (show_u64 generation) stem)
          "Source recovery found a noncanonical catalog generation filename" []);
    mret (N.max st.1 generation, entries).

Definition recovery_high_water (E : Env) (p ns : string) (c : Catalog) : Act WorkBudget N :=
  _ ← act_of (vk "project" p);
  _ ← act_of (vk "namespace" ns);
  _ ← check;
  _ ← act_of (ensure (Nat.leb (size (snapshots c)) MAX_METADATA_ENTRIES && Nat.leb (size (floors c)) MAX_METADATA_ENTRIES)
          "Source recovery inspection budget exceeded (4096 cached catalog entries); source unchanged" []);
  maximum ← act_fold (high_of_view p ns) (iter (11%nat, 0%nat) (snapshots c)) (default 0 (floors c !! (p, ns)));
  if negb (managed p ns c) then mret maximum
  else
    st ← act_fold (high_of_entry E p ns c) (iter (12%nat, 0%nat) (default ∅ (disk c !! scope p ns))).*1 (maximum, 0%nat);
    _ ← check;
    mret st.1.

(** * Lemmas *)

(** A fold that only raises a measure, past what each element asks for. *)
Lemma act_fold_covers {A B} (m : B → N) (need : A → N → Prop) (f : B → A → Act WorkBudget B) l b w w' b' :
  (∀ a x y, x <= y → need a x → need a y) →
  (∀ b a w w' b', f b a w = (w', Ok b') → m b <= m b' ∧ need a (m b')) →
  act_fold f l b w = (w', Ok b') → m b <= m b' ∧ Forall (λ a, need a (m b')) l.
Proof.
  intros Hmono Hf. revert b w. induction l as [|a l IH]; intros b w; cbn [act_fold].
  { intros [= _ <-]. split; [lia | constructor]. }
  intros (w1 & b1 & H1 & H2)%act_bind_Ok. apply Hf in H1 as [H1 Hn]. apply IH in H2 as [H2 Hl].
  split; [lia |]. constructor; [by eapply Hmono | done].
Qed.

Definition view_covered (p ns : string) (kv : Key * (Snapshot * nat)) (maximum : N) : Prop :=
  in_scope p ns kv.1 = true →
  key_generation kv.1 <= maximum ∧
  match selection kv.2.1 with
  | Legacy generation => generation <= maximum
  | Files files => ∀ path revision, files !! path = Some revision → revision <= maximum
  end.
Lemma high_of_view_spec p ns m kv w w' m' :
  high_of_view p ns m kv w = (w', Ok m') → m <= m' ∧ view_covered p ns kv m'.
Proof.
  unfold high_of_view, view_covered. intros (w1 & [] & _ & H)%act_bind_Ok. destruct (in_scope p ns kv.1).
  2: { injection H as _ <-. split; [lia | done]. }
  destruct (selection kv.2.1) as [g|files]; [injection H as _ <-; split; [lia | intros _; lia] |].
  apply (act_fold_covers id (λ (e : string * N) x, e.2 <= x)) in H as [Hle Hall]; [| intros; lia |].
  - unfold id in *. split; [lia |]. intros _. split; [lia |]. intros path revision Hp.
    rewrite Forall_forall in Hall. by apply (Hall (path, revision)), elem_of_map_to_list.
  - intros m1 e v v' m2 (v1 & [] & _ & [= _ <-])%act_bind_Ok. unfold id. lia.
Qed.

(** What a file of the catalog claims. *)
Definition file_covered (dir : string) (c : Catalog) (name : string) (maximum : N) : Prop :=
  (∀ g, name = record_name g → g <= u64_max → g <= maximum) ∧
  (name = LEGACY_THROUGH ∨ name = RETIRED_BEFORE → ∀ b n, lookup_file dir name c = Some b → u64_from_slice b = Ok n → n <= maximum).
Lemma high_of_entry_spec E p ns c st name w w' st' :
  high_of_entry E p ns c st name w = (w', Ok st') → st.1 <= st'.1 ∧ file_covered (scope p ns) c name st'.1.
Proof.
  unfold high_of_entry. intros (w1 & [] & _ & (w2 & [] & _ & H)%act_bind_Ok)%act_bind_Ok.
  destruct (String.eqb name LEGACY_THROUGH || String.eqb name RETIRED_BEFORE) eqn:Hname.
  - apply act_bind_Ok in H as (w3 & b & [= _ Hb%read_bytes_Ok] & (w4 & b' & [= _ ->%ok_or_Ok] & H)%act_bind_Ok).
    apply act_bind_Ok in H as (w5 & n & [= _ Hn] & [= _ <-]). cbn [fst]. split; [lia |]. split.
    + intros g -> _. apply orb_true_iff in Hname as [Hc%String.eqb_eq|Hc%String.eqb_eq];
        [by apply record_name_legacy in Hc | by apply record_name_retired in Hc].
    + intros _ b0 n0 Hb0 Hn0. rewrite <-Hb in Hb0. injection Hb0 as <-. rewrite Hn in Hn0. injection Hn0 as <-. lia.
  - apply act_bind_Ok in H as (w3 & stem & [= _ Hs%ok_or_Ok] & (w4 & g & [= _ Hg%map_err_Ok] & H)%act_bind_Ok).
    apply act_bind_Ok in H as (w5 & [] & _ & [= _ <-]). cbn [fst]. split; [lia |]. split.
    + intros g' -> Hg'. apply strip_suffix_Some in Hs. unfold record_name in Hs.
      assert (stem = show_u64 g') as ->.
      { pose proof (proj2 (strip_suffix_Some ".json" _ (show_u64 g')) eq_refl) as H1.
        pose proof (proj2 (strip_suffix_Some ".json" _ stem) Hs) as H2. rewrite H1 in H2. by injection H2. }
      rewrite parse_show_u64 in Hg by done. injection Hg as <-. lia.
    + apply orb_false_iff in Hname as [H1%String.eqb_neq H2%String.eqb_neq]. by intros [?|?].
Qed.

(** * Theorems *)

(** The high water of a recovery covers every generation the catalog knows of:
    cached views and the revisions they read, every record on disk, readable or
    not, and both boundaries; a greater generation was never used. *)
Theorem high_water_covers_the_catalog E p ns c w w' maximum :
  recovery_high_water E p ns c w = (w', Ok maximum) →
  (∀ k v n, snapshots c !! k = Some (v, n) → key_project k = p → key_namespace k = ns → view_covered p ns (k, (v, n)) maximum) ∧
  (∀ name b, lookup_file (scope p ns) name c = Some b → file_covered (scope p ns) c name maximum) ∧
  default 0 (floors c !! (p, ns)) <= maximum.
Proof.
  unfold recovery_high_water. intros (w1 & [] & _ & (w2 & [] & _ & H)%act_bind_Ok)%act_bind_Ok.
  apply act_bind_Ok in H as (w3 & [] & _ & (w4 & [] & _ & H)%act_bind_Ok).
  apply act_bind_Ok in H as (w5 & m1 & H1 & H).
  apply (act_fold_covers id (view_covered p ns)) in H1 as [Hfl Hviews].
  2: { intros kv x y Hxy Hn Hsc. destruct (Hn Hsc) as [Hg Hs]. split; [lia |]. destruct (selection kv.2.1) as [g|files]; [lia |].
       intros path revision Hp. specialize (Hs path revision Hp). lia. }
  2: { intros b a v v' b'. apply high_of_view_spec. }
  unfold id in *. rewrite Forall_forall in Hviews.
  assert (Hv : ∀ k v n, snapshots c !! k = Some (v, n) → view_covered p ns (k, (v, n)) m1).
  { intros k v n Hk. apply Hviews. rewrite iter_perm. by apply elem_of_map_to_list. }
  destruct (negb (managed p ns c)) eqn:Hm.
  - injection H as _ <-. split_and!; [eauto | | done]. intros name b. unfold lookup_file, managed in *.
    apply negb_true_iff, bool_decide_eq_false, eq_None_not_Some in Hm. by rewrite Hm.
  - apply act_bind_Ok in H as (w6 & [m2 n2] & H2 & (w7 & [] & _ & [= _ <-])%act_bind_Ok). cbn [fst] in *.
    apply (act_fold_covers fst (file_covered (scope p ns) c)) in H2 as [Hle Hfiles]; cbn [fst] in *.
    2: { intros name x y Hxy [Hg Hb]. split; [intros g Hn Hu; specialize (Hg g Hn Hu); lia |]. intros Hn b n Hb1 Hb2.
         specialize (Hb Hn b n Hb1 Hb2). lia. }
    2: { intros b a v v' b'. apply high_of_entry_spec. }
    rewrite Forall_forall in Hfiles. split_and!; [| | lia].
    + intros k v n Hk Hp Hns Hsc. destruct (Hv k v n Hk Hsc) as [Hg Hs]. split; [lia |].
      destruct (selection _) as [g|files]; [lia |]. intros path revision Hpath. specialize (Hs path revision Hpath). lia.
    + intros name b Hb. apply Hfiles. unfold lookup_file in Hb. destruct (disk c !! scope p ns) as [files|]; [| done].
      cbn in *. apply list_elem_of_fmap. exists (name, b). split; [done |]. rewrite iter_perm. by apply elem_of_map_to_list.
Qed.

End recovery.

Lemma high_water_covers_the_catalog_witness :
  let c := sealed_3.2 in
  let r := recovery_high_water unlimited "p" "memory" c (new_budget (λ _, Ok tt)) in
  Forall (λ kv : Key * (Snapshot * nat), view_covered "p" "memory" kv (value 0 r.2)) (map_to_list (snapshots c)).
Proof.
  intros c r. apply Forall_forall. intros [k [v n]] Hk%elem_of_map_to_list Hsc.
  pose proof Hsc as [Hp%String.eqb_eq Hns%String.eqb_eq]%andb_true_iff.
  refine (proj1 (high_water_covers_the_catalog unlimited "p" "memory" c (new_budget (λ _, Ok tt)) r.1 (value 0 r.2) _) k v n Hk Hp Hns Hsc).
  apply ran. vm_compute. reflexivity.
Defined.

Example demo_high_water :
  (recovery_high_water unlimited "p" "memory" sealed_3.2 (new_budget (λ _, Ok tt))).2 = Ok 3.
Proof. vm_compute. reflexivity. Qed.
