(* ===== verification/CycleSearch.v ===== *)
(** [migration_order_service::find_cycle]: a cycle of a dependency graph among
    the nodes that remain, by a depth-first search with an explicit stack; that
    it ends, that what it finds is a cycle, and that it finds one unless the
    nodes can be put in an order. *)
From S2P Require Import Prelude Text.

#[local] Open Scope nat_scope.

(** * Definitions *)

Notation Adjacency := (gmap string (list string)).

(** A [HashSet] is iterated in some order of its elements. *)
Definition iter_set `{HO : !HashOrder} (site : nat * nat) (X : gset string) : list string :=
  (iter site (gset_to_gmap () X)).*1.

(** The state of the search: [path_stack] grows at its end, [call_stack] at its
    head, with the index of the next neighbor of each node. *)
Record Dfs := {
  seen : gset string;
  path_stack : list string;
  on_stack : gset string;
  call_stack : list (string * nat);
}.
Definition no_search : Dfs := {| seen := ∅; path_stack := []; on_stack := ∅; call_stack := [] |}.
Definition with_frames (frames : list (string * nat)) (st : Dfs) : Dfs :=
  {| seen := seen st; path_stack := path_stack st; on_stack := on_stack st; call_stack := frames |}.
(** A node is visited, and left. *)
Definition enter (node : string) (st : Dfs) : Dfs :=
  {| seen := {[node]} ∪ seen st; path_stack := path_stack st ++ [node]; on_stack := {[node]} ∪ on_stack st;
     call_stack := call_stack st |}.
Definition leave (node : string) (frames : list (string * nat)) (st : Dfs) : Dfs :=
  {| seen := seen st; path_stack := take (length (path_stack st) - 1) (path_stack st);
     on_stack := on_stack st ∖ {[node]}; call_stack := frames |}.

(** [iter().position(|n| n == x).unwrap_or(0)]. *)
Fixpoint position (x : string) (l : list string) : option nat :=
  match l with
  | [] => None
  | y :: l => if String.eqb y x then Some 0 else S <$> position x l
  end.

Section search.
Context `{HO : !HashOrder} (remaining : gset string) (adj : Adjacency).

Definition nbrs (node : string) : list string := default [] (adj !! node).

(** One round of the inner loop: the next neighbor of a visited node, or its end;
    a cycle, or the next state. *)
Definition look (node : string) (idx : nat) (frames : list (string * nat)) (st : Dfs) : list string + Dfs :=
  match nbrs node !! idx with
  | Some next =>
      let frames := (node, S idx) :: frames in
      if bool_decide (next ∉ remaining) then inr (with_frames frames st)
      else if bool_decide (next ∈ on_stack st)
      then inl (drop (default 0 (position next (path_stack st))) (path_stack st))
      else if bool_decide (next ∉ seen st) then inr (with_frames ((next, 0) :: frames) st)
      else inr (with_frames frames st)
  | None => inr (leave node frames st)
  end.
Definition dfs_step (node : string) (idx : nat) (frames : list (string * nat)) (st : Dfs) : list string + Dfs :=
  if Nat.eqb idx 0 && bool_decide (node ∈ seen st) then inr (with_frames frames st)
  else look node idx frames (if Nat.eqb idx 0 then enter node st else st).
Fixpoint dfs (fuel : nat) (st : Dfs) : option (list string + Dfs) :=
  match call_stack st with
  | [] => Some (inr st)
  | (node, idx) :: frames =>
      match fuel with
      | O => None
      | S fuel => match dfs_step node idx frames st with
                  | inl cycle => Some (inl cycle)
                  | inr st => dfs fuel st
                  end
      end
  end.

(** The steps a search can take: two for each neighbor, and one for each node. *)
Definition node_work (n : string) : nat := 2 * length (nbrs n) + 1.
Definition search_fuel : nat := S (sum_list (node_work <$> elements remaining)).

Fixpoint search_from (starts : list string) (st : Dfs) : option (option (list string)) :=
  match starts with
  | [] => Some None
  | start :: rest =>
      if bool_decide (start ∈ seen st) then search_from rest st
      else match dfs search_fuel (with_frames [(start, 0)] st) with
           | None => None
           | Some (inl cycle) => Some (Some cycle)
           | Some (inr st) => search_from rest st
           end
  end.
Definition find_cycle (site : nat * nat) : option (option (list string)) :=
  search_from (iter_set site remaining) no_search.

(** * Lemmas *)

Definition edge (a b : string) : Prop := b ∈ nbrs a.

(** A cycle: every element leads to the next one, and the last to the first. *)
Definition cyclic (c : list string) : Prop :=
  c ≠ [] ∧ NoDup c ∧ (∀ x, x ∈ c → x ∈ remaining) ∧
  ∀ i x, c !! i = Some x → ∃ y, c !! (S i mod length c) = Some y ∧ edge x y.

(** An order in which what remains of a node's neighbors comes after it. *)
Fixpoint ordered (l : list string) : Prop :=
  match l with
  | [] => True
  | v :: l => v ∉ l ∧ (∀ w, edge v w → w ∈ remaining → w ∈ l) ∧ ordered l
  end.

Lemma iter_set_perm site (X : gset string) : iter_set site X ≡ₚ elements X.
Proof.
  unfold iter_set. rewrite iter_perm. apply NoDup_Permutation.
  - apply NoDup_fst_map_to_list.
  - apply NoDup_elements.
  - intros x. rewrite elem_of_elements, list_elem_of_fmap. split.
    + intros ([y u] & -> & H%elem_of_map_to_list). cbn. by apply lookup_gset_to_gmap_Some in H as [? _].
    + intros H. exists (x, ()). split; [done |]. apply elem_of_map_to_list. by apply lookup_gset_to_gmap_Some.
Qed.

Lemma ordered_last l v : ordered (l ++ [v]) → ∀ w, edge v w → w ∉ remaining.
Proof.
  induction l as [|x l IH]; cbn [ordered app]; [intros (_ & H & _) w He Hw; by apply (H w He), elem_of_nil in Hw |].
  intros (_ & _ & H). by apply IH.
Qed.

Lemma position_spec x l : x ∈ l → ∃ i, position x l = Some i ∧ l !! i = Some x.
Proof.
  induction l as [|y l IH]; [by intros ?%elem_of_nil |]. intros Hx. cbn [position].
  destruct (String.eqb_spec y x) as [->|Hne]; [by exists 0 |].
  destruct IH as (i & -> & Hi); [set_solver |]. by exists (S i).
Qed.

(** ** The invariant of the search *)

(** [done] lists the nodes that were left, the last one first. A frame's passed
    neighbors are done, or are the frame above it. *)
Fixpoint frames_ok (done : list string) (above : option string) (frames : list (string * nat)) : Prop :=
  match frames with
  | [] => True
  | (n, i) :: fs =>
      (∀ j w, j < i → nbrs n !! j = Some w → w ∈ remaining → w ∈ done ∨ above = Some w) ∧
      (∀ m, above = Some m → 0 < i ∧ edge n m) ∧ frames_ok done (Some n) fs
  end.
(** The frames of the nodes that were entered. *)
Definition entered (frames : list (string * nat)) : list string :=
  match frames with
  | (n, O) :: fs => fs.*1
  | _ => frames.*1
  end.
(** The stacks hold the nodes that were entered and not left. *)
Record Core (done opened : list string) (st : Dfs) : Prop := {
  core_path : path_stack st = reverse opened;
  core_on : on_stack st = list_to_set opened;
  core_seen : seen st = list_to_set done ∪ list_to_set opened;
  core_nodup : NoDup opened;
  core_done : ordered done;
  core_disjoint : ∀ x, x ∈ done → x ∉ opened;
  core_in : ∀ x, x ∈ seen st → x ∈ remaining;
}.
Record Inv (done : list string) (st : Dfs) : Prop := {
  inv_core : Core done (entered (call_stack st)) st;
  inv_frames : frames_ok done None (call_stack st);
  inv_in : ∀ x, x ∈ (call_stack st).*1 → x ∈ remaining;
  inv_new : ∀ n fs, call_stack st = (n, 0) :: fs → n ∉ seen st;
}.

Lemma frames_ok_more done done' above frames :
  (∀ x, x ∈ done → x ∈ done') → frames_ok done above frames → frames_ok done' above frames.
Proof.
  intros Hd. revert above. induction frames as [|[n i] fs IH]; intros above; [done |].
  intros (H1 & H2 & H3). split_and!; [| done | by apply IH]. intros j w Hj Hw Hr. destruct (H1 j w Hj Hw Hr); auto.
Qed.

(** Along the stack each node leads to the next. *)
Lemma frames_path done above frames i x y :
  frames_ok done above frames → reverse (frames.*1) !! i = Some x → reverse (frames.*1) !! S i = Some y → edge x y.
Proof.
  intros Hf. revert above i Hf. induction frames as [|[n k] fs IH]; intros above i; [done |].
  intros (_ & _ & Hf). cbn [fmap list_fmap]. rewrite reverse_cons. intros Hx Hy.
  apply lookup_app_Some in Hy as [Hy|[Hl Hy]].
  - apply (IH (Some n) i Hf); [| done]. apply lookup_lt_Some in Hy. rewrite lookup_app_l in Hx by lia. done.
  - apply list_lookup_singleton_Some in Hy as [Hi <-].
    rewrite lookup_app_l in Hx by lia.
    destruct fs as [|[m j] fs]; [done |]. cbn [fmap list_fmap fst] in Hx, Hi, Hl. rewrite reverse_cons in Hx, Hl, Hi.
    rewrite length_app in Hl, Hi. cbn [length] in *.
    rewrite lookup_app_r in Hx by lia. apply list_lookup_singleton_Some in Hx as [_ <-].
    destruct Hf as (_ & Ha & _). by apply (Ha n).
Qed.

(** What a search may still cost. *)
Definition frame_cost (f : string * nat) : nat :=
  match f.2 with O => 1 | S _ => 2 * (length (nbrs f.1) - f.2) + 1 end.
Definition cost (st : Dfs) : nat :=
  sum_list (frame_cost <$> call_stack st) + sum_list (node_work <$> elements (remaining ∖ seen st)).

Lemma unseen_cost X n :
  n ∈ remaining → n ∉ X →
  sum_list (node_work <$> elements (remaining ∖ X)) = node_work n + sum_list (node_work <$> elements (remaining ∖ ({[n]} ∪ X))).
Proof.
  intros Hn Hx. assert (Hs : remaining ∖ X = {[n]} ∪ (remaining ∖ ({[n]} ∪ X))).
  { apply leibniz_equiv. intros x. destruct (decide (x = n)); set_solver. }
  rewrite Hs, elements_union_singleton by set_solver. cbn [fmap list_fmap sum_list]. done.
Qed.

(** ** One step *)

Lemma opened_path done opened above i frames st x y :
  frames_ok done above frames → opened = frames.*1 → Core done opened st →
  path_stack st !! i = Some x → path_stack st !! S i = Some y → edge x y.
Proof. intros Hf -> Hc. rewrite (core_path _ _ _ Hc). by eapply frames_path. Qed.

(** A neighbor on the stack closes a cycle. *)
Lemma back_edge_cyclic done node idx fs st next :
  Core done (node :: fs.*1) st → frames_ok done None ((node, idx) :: fs) →
  edge node next → next ∈ on_stack st →
  cyclic (drop (default 0 (position next (path_stack st))) (path_stack st)).
Proof.
  intros Hc Hf Hn Hon. rewrite (core_on _ _ _ Hc), elem_of_list_to_set in Hon.
  assert (Hin : next ∈ path_stack st) by (by rewrite (core_path _ _ _ Hc), elem_of_reverse).
  destruct (position_spec _ _ Hin) as (i & -> & Hi). change (default 0 (Some i)) with i. set (l := path_stack st) in *.
  assert (Hl : last l = Some node) by (unfold l; by rewrite (core_path _ _ _ Hc), reverse_cons, last_snoc).
  assert (Hlen : i < length l) by (by eapply lookup_lt_Some).
  assert (Hd : length (drop i l) = length l - i) by apply length_drop.
  split_and!.
  - intros H. rewrite H in Hd. cbn in Hd. lia.
  - assert (Hnd : NoDup l) by (unfold l; rewrite (core_path _ _ _ Hc), reverse_Permutation; apply Hc).
    rewrite <-(take_drop i l) in Hnd. by apply NoDup_app in Hnd as (_ & _ & Hnd).
  - intros x Hx. apply (core_in _ _ _ Hc). rewrite (core_seen _ _ _ Hc). apply elem_of_union_r, elem_of_list_to_set.
    apply elem_of_reverse. rewrite <-(core_path _ _ _ Hc). fold l. rewrite <-(take_drop i l). apply elem_of_app. by right.
  - intros j x Hx. pose proof (lookup_lt_Some _ _ _ Hx) as Hj. rewrite lookup_drop in Hx.
    destruct (decide (S j < length (drop i l))) as [Hlt|Hge].
    + rewrite Nat.mod_small by done. destruct (lookup_lt_is_Some_2 l (S (i + j))) as [y Hy]; [lia |].
      exists y. split; [by rewrite lookup_drop, Nat.add_succ_r |].
      apply (opened_path done (node :: fs.*1) None (i + j) ((node, idx) :: fs) st); done.
    + replace (S j) with (length (drop i l)) by lia. rewrite Nat.Div0.mod_same. exists next.
      split; [by rewrite lookup_drop, Nat.add_0_r |].
      rewrite last_lookup in Hl. replace (i + j) with (pred (length l)) in Hx by lia.
      rewrite Hl in Hx. by injection Hx as <-.
Qed.

(** A node that was entered, with the frames below it, while its neighbors are
    looked at. *)
Record Visiting (done : list string) (node : string) (idx : nat) (fs : list (string * nat)) (st : Dfs) : Prop := {
  visiting_core : Core done (node :: fs.*1) st;
  visiting_frames : frames_ok done None ((node, idx) :: fs);
}.
Definition visiting_cost (node : string) (idx : nat) (fs : list (string * nat)) (st : Dfs) : nat :=
  2 * (length (nbrs node) - idx) + 1 + sum_list (frame_cost <$> fs) + sum_list (node_work <$> elements (remaining ∖ seen st)).

Lemma enter_visiting done node fs st :
  Inv done st → call_stack st = (node, 0) :: fs →
  Visiting done node 0 fs (enter node st) ∧ visiting_cost node 0 fs (enter node st) < cost st.
Proof.
  intros [Hc Hf Hi Hn] Hs. pose proof (Hn _ _ Hs) as Hnew. rewrite Hs in *. cbn [entered] in Hc.
  assert (Hr : node ∈ remaining) by (apply Hi; left).
  pose proof (core_seen _ _ _ Hc) as Hseen. split; [split |].
  - split; cbn [enter path_stack on_stack seen].
    + by rewrite (core_path _ _ _ Hc), reverse_cons.
    + by rewrite (core_on _ _ _ Hc).
    + rewrite Hseen. apply leibniz_equiv. set_solver.
    + apply NoDup_cons. split; [| apply Hc]. set_solver.
    + apply Hc.
    + intros x Hx. pose proof (core_disjoint _ _ _ Hc x Hx). set_solver.
    + intros x [->%elem_of_singleton|Hx]%elem_of_union; [done | by apply (core_in _ _ _ Hc)].
  - exact Hf.
  - unfold visiting_cost, cost. rewrite Hs. cbn [enter seen fmap list_fmap sum_list foldr].
    rewrite (unseen_cost (seen st) node) by done. change (frame_cost (node, 0)) with 1. change (node_work node) with (2 * length (nbrs node) + 1). unfold id. lia.
Qed.

Lemma leave_inv done node idx fs st :
  Visiting done node idx fs st → nbrs node !! idx = None →
  Inv (node :: done) (leave node fs st) ∧ cost (leave node fs st) < visiting_cost node idx fs st.
Proof.
  intros [Hc Hf] Hnone. destruct Hf as (Hd & _ & Hf). split.
  2: { unfold cost, visiting_cost. cbn [leave call_stack seen]. lia. }
  assert (He : entered fs = fs.*1).
  { destruct fs as [|[n [|i]] fs]; [done | | done]. destruct Hf as (_ & Ha & _). destruct (Ha node eq_refl). lia. }
  pose proof (core_nodup _ _ _ Hc) as [Hnode Hnd]%NoDup_cons. pose proof (core_seen _ _ _ Hc) as Hseen.
  split; cbn [leave call_stack].
  - rewrite He. split; cbn [leave path_stack on_stack seen].
    + rewrite (core_path _ _ _ Hc), reverse_cons, length_app. cbn [length].
      rewrite Nat.add_sub. by rewrite take_app_length.
    + rewrite (core_on _ _ _ Hc). apply leibniz_equiv. intros x. destruct (decide (x = node)); set_solver.
    + rewrite Hseen. apply leibniz_equiv. set_solver.
    + done.
    + cbn [ordered]. split_and!; [| | apply Hc].
      * intros Hin. apply (core_disjoint _ _ _ Hc _ Hin). left.
      * intros w [j Hj]%list_elem_of_lookup Hr. apply lookup_ge_None in Hnone.
        pose proof (lookup_lt_Some _ _ _ Hj). by destruct (Hd j w ltac:(lia) Hj Hr).
    + intros x [->|Hx]%elem_of_cons; [done |]. pose proof (core_disjoint _ _ _ Hc x Hx). set_solver.
    + apply Hc.
  - destruct fs as [|[n i] fs]; [done |]. destruct Hf as (H1 & H2 & H3). split_and!; [| done |].
    + intros j w Hj Hw Hr. left. destruct (H1 j w Hj Hw Hr) as [Hin|[= ->]]; [by right | left].
    + eapply frames_ok_more; [| done]. intros x Hx. by right.
  - intros x Hx. apply (core_in _ _ _ Hc). rewrite Hseen. set_solver.
  - intros n fs' ->. destruct Hf as (_ & Ha & _). destruct (Ha node eq_refl). lia.
Qed.

(** The frames below a visited node are looked at no further. *)
Lemma passed_frames done node idx fs next above :
  frames_ok done None ((node, idx) :: fs) → nbrs node !! idx = Some next →
  next ∉ remaining ∨ next ∈ done ∨ above = Some next → (∀ m, above = Some m → edge node m) →
  frames_ok done above ((node, S idx) :: fs).
Proof.
  intros (H1 & H2 & H3) Hn Hcase Ha. split_and!; [| intros m Hm; split; [lia | by apply Ha] | done].
  intros j w Hj Hw Hr. destruct (decide (j = idx)) as [->|Hne].
  - rewrite Hn in Hw. injection Hw as <-. by destruct Hcase as [?|[?|?]]; [| left | right].
  - left. by destruct (H1 j w ltac:(lia) Hw Hr).
Qed.

Lemma advance_inv done node idx fs st next :
  Visiting done node idx fs st → nbrs node !! idx = Some next → next ∉ remaining ∨ next ∈ done →
  let st' := with_frames ((node, S idx) :: fs) st in
  Inv done st' ∧ cost st' < visiting_cost node idx fs st.
Proof.
  intros [Hc Hf] Hn Hcase st'. pose proof (lookup_lt_Some _ _ _ Hn). split.
  - split; cbn [st' with_frames call_stack entered].
    + destruct Hc. by split.
    + apply (passed_frames _ _ _ _ next); [done | done | tauto | done].
    + intros x Hx. apply (core_in _ _ _ Hc). rewrite (core_seen _ _ _ Hc). cbn in Hx. set_solver.
    + done.
  - unfold cost, visiting_cost. cbn [st' with_frames call_stack seen fmap list_fmap sum_list foldr].
    change (frame_cost (node, S idx)) with (2 * (length (nbrs node) - S idx) + 1). unfold id. lia.
Qed.
Lemma descend_inv done node idx fs st next :
  Visiting done node idx fs st → nbrs node !! idx = Some next → next ∈ remaining → next ∉ seen st →
  let st' := with_frames ((next, 0) :: (node, S idx) :: fs) st in
  Inv done st' ∧ cost st' < visiting_cost node idx fs st.
Proof.
  intros [Hc Hf] Hn Hr Hnew st'. pose proof (lookup_lt_Some _ _ _ Hn). split.
  - split; cbn [st' with_frames call_stack entered].
    + destruct Hc. by split.
    + split_and!; [lia | done |]. apply (passed_frames _ _ _ _ next); [done | done | tauto |].
      intros m [= <-]. by apply list_elem_of_lookup_2 in Hn.
    + intros x [->|Hx]%elem_of_cons; [done |]. apply (core_in _ _ _ Hc). rewrite (core_seen _ _ _ Hc).
      cbn in Hx. set_solver.
    + by intros n fs' [= <- _].
  - unfold cost, visiting_cost. cbn [st' with_frames call_stack seen fmap list_fmap sum_list foldr].
    change (frame_cost (next, 0)) with 1. change (frame_cost (node, S idx)) with (2 * (length (nbrs node) - S idx) + 1).
    unfold id. lia.
Qed.

Lemma look_spec done node idx fs st :
  Visiting done node idx fs st →
  match look node idx fs st with
  | inl c => cyclic c
  | inr st' => ∃ done', Inv done' st' ∧ cost st' < visiting_cost node idx fs st ∧ seen st' = seen st
  end.
Proof.
  intros Hv. unfold look. destruct (nbrs node !! idx) as [next|] eqn:Hn.
  2: { destruct (leave_inv _ _ _ _ _ Hv Hn). by eexists. }
  case_bool_decide as Hr; [destruct (advance_inv _ _ _ _ _ _ Hv Hn (or_introl Hr)); by eexists |].
  case_bool_decide as Ho.
  { destruct Hv as [Hc Hf]. eapply back_edge_cyclic; [done | done | | done]. by apply list_elem_of_lookup_2 in Hn. }
  case_bool_decide as Hs; [destruct (descend_inv _ _ _ _ _ _ Hv Hn Hr Hs); by eexists |].
  assert (Hd : next ∈ done).
  { destruct Hv as [Hc Hf]. rewrite (core_seen _ _ _ Hc) in Hs. rewrite (core_on _ _ _ Hc) in Ho. set_solver. }
  destruct (advance_inv _ _ _ _ _ _ Hv Hn (or_intror Hd)); by eexists.
Qed.

(** A step keeps the nodes that were met, and what is left gets cheaper. *)
Definition met (st : Dfs) (x : string) : Prop := x ∈ seen st ∨ x ∈ (call_stack st).*1.
Lemma dfs_step_spec done node idx fs st :
  Inv done st → call_stack st = (node, idx) :: fs →
  match dfs_step node idx fs st with
  | inl c => cyclic c
  | inr st' => ∃ done', Inv done' st' ∧ cost st' < cost st ∧ ∀ x, met st x → met st' x
  end.
Proof.
  intros Hinv Hs. unfold dfs_step. destruct idx as [|idx].
  - destruct (enter_visiting _ _ _ _ Hinv Hs) as [Hv Hlt]. rewrite bool_decide_eq_false_2 by by eapply inv_new.
    cbn [Nat.eqb andb]. pose proof (look_spec _ _ _ _ _ Hv) as H. destruct (look _ _ _ _) as [c|st']; [done |].
    destruct H as (done' & Hi & Hc & He). exists done'. split_and!; [done | lia |]. intros x Hx. left. rewrite He.
    cbn [enter seen]. pose proof (core_seen _ _ _ (inv_core _ _ Hinv)) as Hseen. unfold met in Hx.
    rewrite Hs in *. cbn in Hx. cbn in Hseen. set_solver.
  - assert (Hv : Visiting done node (S idx) fs st).
    { destruct Hinv as [Hc Hf _ _]. rewrite Hs in *. by split. }
    cbn [Nat.eqb andb]. pose proof (look_spec _ _ _ _ _ Hv) as H. destruct (look _ _ _ _) as [c|st']; [done |].
    destruct H as (done' & Hi & Hc & He). exists done'. split_and!; [done | |].
    + unfold cost at 2. rewrite Hs. unfold visiting_cost in Hc. cbn [fmap list_fmap sum_list foldr].
      change (frame_cost (node, S idx)) with (2 * (length (nbrs node) - S idx) + 1). unfold id in *. lia.
    + intros x Hx. left. rewrite He. pose proof (core_seen _ _ _ (visiting_core _ _ _ _ _ Hv)) as Hseen. unfold met in Hx.
      rewrite Hs in *. cbn in Hx. set_solver.
Qed.

Lemma frame_cost_pos f : 0 < frame_cost f.
Proof. destruct f as [n [|i]]; unfold frame_cost; cbn [fst snd]; lia. Qed.
Lemma dfs_spec fuel done st :
  Inv done st → cost st <= fuel →
  (∃ c, dfs fuel st = Some (inl c) ∧ cyclic c) ∨
  ∃ st' done', dfs fuel st = Some (inr st') ∧ Inv done' st' ∧ call_stack st' = [] ∧ ∀ x, met st x → met st' x.
Proof.
  revert done st. induction fuel as [|fuel IH]; intros done st Hinv Hlt;
    destruct (call_stack st) as [|[node idx] fs] eqn:Hs;
    try (right; exists st, done; split_and!; [cbn [dfs]; by rewrite Hs | by auto | by auto | by auto]).
  - unfold cost in Hlt. rewrite Hs in Hlt. cbn [fmap list_fmap sum_list foldr] in Hlt. unfold id in Hlt.
    pose proof (frame_cost_pos (node, idx)). lia.
  - cbn [dfs]. rewrite Hs. pose proof (dfs_step_spec _ _ _ _ _ Hinv Hs) as H.
    destruct (dfs_step node idx fs st) as [c|st1]; [left; by exists c |].
    destruct H as (done1 & Hi & Hc & Hm). destruct (IH done1 st1 Hi ltac:(lia)) as [H|(st' & done' & H1 & H2 & H3 & H4)]; [by left |].
    right. exists st', done'. split_and!; [done.. |]. auto.
Qed.

(** ** Every start *)

Lemma sum_list_subset (f : string → nat) (X Y : gset string) :
  X ⊆ Y → sum_list (f <$> elements X) <= sum_list (f <$> elements Y).
Proof.
  intros Hs. rewrite (union_difference_L X Y Hs), elements_disj_union by set_solver.
  rewrite fmap_app, sum_list_with_app. lia.
Qed.

(** Between two starts what was visited is done. *)
Definition Rest (done : list string) (st : Dfs) : Prop := Inv done st ∧ call_stack st = [].

Lemma rest_seen done st x : Rest done st → x ∈ seen st ↔ x ∈ done.
Proof. intros [[Hc _ _ _] Hs]. rewrite Hs in Hc. rewrite (core_seen _ _ _ Hc). set_solver. Qed.

Lemma start_inv done st start :
  Rest done st → start ∈ remaining → start ∉ seen st →
  Inv done (with_frames [(start, 0)] st) ∧ cost (with_frames [(start, 0)] st) <= search_fuel.
Proof.
  intros [Hinv Hs] Hr Hnew. split.
  - destruct Hinv as [Hc Hf Hi Hn]. rewrite Hs in *. split; cbn [with_frames call_stack entered].
    + destruct Hc. by split.
    + split_and!; [lia | done | done].
    + intros x [->|Hx]%elem_of_cons; [done | by apply elem_of_nil in Hx].
    + by intros n fs [= <- _].
  - unfold cost, search_fuel. cbn [with_frames call_stack seen fmap list_fmap sum_list foldr].
    change (frame_cost (start, 0)) with 1.
    pose proof (sum_list_subset node_work (remaining ∖ seen st) remaining ltac:(set_solver)). unfold id in *. lia.
Qed.

Lemma search_from_spec starts done st :
  Rest done st → (∀ x, x ∈ starts → x ∈ remaining) →
  (∃ c, search_from starts st = Some (Some c) ∧ cyclic c) ∨
  ∃ done', search_from starts st = Some None ∧ ordered done' ∧ (∀ x, x ∈ done' → x ∈ remaining) ∧
    (∀ x, x ∈ done ∨ x ∈ starts → x ∈ done').
Proof.
  revert done st. induction starts as [|start rest IH]; intros done st Hrest Hin.
  { right. exists done. split_and!; [done | apply (core_done _ _ _ (inv_core _ _ (proj1 Hrest))) | |].
    - intros x Hx. apply (core_in _ _ _ (inv_core _ _ (proj1 Hrest))). by apply (rest_seen done).
    - intros x [?|[]%elem_of_nil]; done. }
  cbn [search_from]. case_bool_decide as Hseen.
  - destruct (IH done st Hrest ltac:(set_solver)) as [H|(done' & H1 & H2 & H4 & H3)]; [by left |].
    right. exists done'. split_and!; [done | done | done |]. rewrite (rest_seen done) in Hseen by done. set_solver.
  - destruct (start_inv done st start Hrest ltac:(set_solver) Hseen) as [Hinv Hc].
    destruct (dfs_spec _ _ _ Hinv Hc) as [(c & -> & Hcyc)|(st' & done1 & -> & Hi & Hs & Hm)]; [left; by exists c |].
    assert (Hrest' : Rest done1 st') by done.
    destruct (IH done1 st' Hrest' ltac:(set_solver)) as [H|(done' & H1 & H2 & H4 & H3)]; [by left |].
    right. exists done'. split_and!; [done | done | done |].
    assert (Hdone : ∀ x, met (with_frames [(start, 0)] st) x → x ∈ done1).
    { intros x Hx. apply Hm in Hx as [Hx|Hx]; [by apply (rest_seen done1 st') | by rewrite Hs in Hx; apply elem_of_nil in Hx]. }
    intros x [Hx|[->|Hx]%elem_of_cons]; [| | by apply H3; right]; apply H3; left; apply Hdone.
    + left. by apply (rest_seen done st).
    + right. cbn. set_solver.
Qed.

Lemma no_search_rest : Rest [] no_search.
Proof.
  split; [| done]. split; [| done | by intros x ?%elem_of_nil | done].
  split; cbn; [done | done | set_solver | constructor | done | set_solver | set_solver].
Qed.

(** The search ends; it finds a cycle, or there is none and the nodes can be put
    in an order. *)
Lemma find_cycle_spec site :
  (∃ c, find_cycle site = Some (Some c) ∧ cyclic c) ∨
  (find_cycle site = Some None ∧ ∃ order, ordered order ∧ ∀ x, x ∈ order ↔ x ∈ remaining).
Proof.
  destruct (search_from_spec (iter_set site remaining) [] no_search no_search_rest) as [H|(d & H1 & H2 & H4 & H3)].
  - intros x. rewrite iter_set_perm. set_solver.
  - by left.
  - right. split; [done |]. exists d. split; [done |]. intros x. split; [apply H4 |]. intros Hx. apply H3. right. rewrite iter_set_perm. set_solver.
Qed.

(** When every node that remains leads to another one that does, there is a
    cycle, and it is found. *)
Lemma stall_has_cycle site :
  remaining ≠ ∅ → (∀ x, x ∈ remaining → ∃ y, edge x y ∧ y ∈ remaining) → ∃ c, find_cycle site = Some (Some c) ∧ cyclic c.
Proof.
  intros Hne Hstall. destruct (find_cycle_spec site) as [H|(_ & order & Ho & Hall)]; [done |]. exfalso.
  destruct order as [|v order _] using rev_ind.
  - destruct (set_choose_L remaining Hne) as [x Hx]. apply Hall, elem_of_nil in Hx. done.
  - destruct (Hstall v) as (y & He & Hy); [apply Hall; set_solver |]. by apply (ordered_last _ _ Ho y).
Qed.

End search.
