(* ===== verification/MigrationOrder.v ===== *)
(** [engram_server::services::migration_order_service]: the order in which the
    files of a project are migrated. Waves of files whose dependencies were all
    placed before (Kahn's algorithm), a cycle being broken at its node with the
    fewest dependencies left; the plan with its themes, prerequisites,
    bottlenecks and its text. *)
From S2P Require Import Prelude Text Unicode Store Namespaces FileSystem Graph GraphRows GraphSpec GraphRefine GraphQuery Coupling Resolve CycleSearch.

#[local] Open Scope nat_scope.

(** * Definitions *)

Record WaveFile := {
  wave_path : string;
  file_type : string;
  wave_node_type : string;
  dependency_count : nat;
  dependent_count : nat;
  reason : string;
  estimated_complexity : string;
}.
Record MigrationWave := {
  wave_number : nat;
  theme : string;
  files : list WaveFile;
  prerequisites : list string;
  strangler_fig_checkpoint : bool;
}.
Record BottleneckFile := {
  bottleneck_path : string;
  blocks_count : nat;
  suggestion : string;
}.
Record MigrationOrderPlan := {
  plan_project_id : string;
  total_files : nat;
  plan_waves : list MigrationWave;
  circular_dependencies : list (list string);
  bottleneck_files : list BottleneckFile;
  summary : string;
}.

(** "source depends on target". *)
Definition DEP_KINDS : list EdgeKind := [Dependency; Imports; RegistersControl; IncludesFile].

Definition MAX_FILES : nat := N.to_nat 50000.
Definition MAX_EDGES : nat := N.to_nat 200000.

Definition show_nat (n : nat) : string := show_u64 (N.of_nat n).
Definition estimate_complexity (total_edges : nat) : string :=
  if Nat.leb total_edges 3 then "Low" else if Nat.leb total_edges 8 then "Medium" else "High".

(** [Path::extension]: what follows the last dot of the file name, unless the
    dot is its first character. *)
Definition extension (path : string) : option string :=
  match path_file_name (path_of path) with
  | None => None
  | Some name =>
      let pieces := split_char "." name in
      match last pieces with
      | Some ext => if bool_decide (removelast pieces = [] ∨ removelast pieces = [""]) then None else Some ext
      | None => None
      end
  end.

(** ** Waves *)

Record Kahn := {
  in_degree : gmap string nat;
  remaining : gset string;
  waves : list (list string);
  circular : list (list string);
}.

(** Fewest dependencies left, then the smaller id. *)
Definition weaker (in_degree : gmap string nat) (a b : string) : bool :=
  let da := default 0 (in_degree !! a) in
  let db := default 0 (in_degree !! b) in
  Nat.ltb da db || (Nat.eqb da db && bool_decide (str_lt a b)).
(** [Iterator::min_by], which keeps the first of equals. *)
Definition min_by {A} (lt : A → A → bool) (l : list A) : option A :=
  foldl (λ best x, match best with Some b => if lt x b then Some x else Some b | None => Some x end) None l.

Section ordering.
Context `{HO : !HashOrder} (deps_of dependents_of : Adjacency) (report : string → string).

Definition in_degree_of (st : Kahn) (id : string) : nat := default 0 (in_degree st !! id).

(** What a stall releases: the weakest node of a cycle, which is reported; the
    bool is false where the source leaves the loop. *)
Definition break_cycle (round : nat) (st : Kahn) : option (list string * Kahn) :=
  match find_cycle (remaining st) deps_of (21, round) with
  | None => None
  | Some (Some cycle) =>
      let st' := {| in_degree := in_degree st; remaining := remaining st; waves := waves st;
                    circular := circular st ++ [report <$> cycle] |} in
      match min_by (weaker (in_degree st)) (filter (λ id, id ∈ remaining st) cycle) with
      | Some bn => Some ([bn], st')
      | None => Some (take 1 (stable_sort String.le (elements (remaining st))), st')
      end
  | Some None =>
      Some (elements (remaining st),
            {| in_degree := in_degree st; remaining := ∅; waves := waves st; circular := circular st |})
  end.

(** One file less for each file that depends on a placed one. *)
Definition release (left_over : gset string) (in_degree : gmap string nat) (dep : string) : gmap string nat :=
  if bool_decide (dep ∈ left_over) then <[dep := default 0 (in_degree !! dep) - 1]> in_degree else in_degree.
Definition place (zero : list string) (st : Kahn) : Kahn :=
  let left_over := remaining st ∖ list_to_set zero in
  {| in_degree := foldl (release left_over) (in_degree st) (zero ≫= λ id, default [] (dependents_of !! id));
     remaining := left_over; waves := waves st ++ [zero]; circular := circular st |}.

Definition ready (round : nat) (st : Kahn) : list string :=
  filter (λ id, in_degree_of st id = 0) (iter_set (20, round) (remaining st)).

(** At most one round for each file, and one to stop. *)
Fixpoint kahn (fuel : nat) (st : Kahn) : option Kahn :=
  match ready fuel st with
  | [] =>
      if bool_decide (remaining st = ∅) then Some st
      else
        match break_cycle fuel st with
        | None => None
        | Some ([], st') => Some st'
        | Some (zero, st') =>
            match fuel with O => None | S fuel => kahn fuel (place (stable_sort String.le zero) st') end
        end
  | zero => match fuel with O => None | S fuel => kahn fuel (place (stable_sort String.le zero) st) end
  end.
Definition kahn_start (all_ids : gset string) : Kahn :=
  {| in_degree := list_to_map ((λ id, (id, length (default [] (deps_of !! id)))) <$> elements all_ids);
     remaining := all_ids; waves := []; circular := [] |}.
Definition kahn_waves (all_ids : gset string) : option Kahn := kahn (size all_ids) (kahn_start all_ids).

End ordering.

(** ** What the graph holds *)

Definition push_to (k v : string) (m : Adjacency) : Adjacency := <[k := default [] (m !! k) ++ [v]]> m.
Definition no_lists (all_ids : gset string) : Adjacency := gset_to_gmap [] all_ids.
Definition deps_of_edges (all_ids : gset string) (es : list Edge) : Adjacency :=
  sort_dedup <$> foldl (λ m e, push_to (source_id e) (target_id e) m) (no_lists all_ids) es.
Definition dependents_of_edges (all_ids : gset string) (es : list Edge) : Adjacency :=
  sort_dedup <$> foldl (λ m e, push_to (target_id e) (source_id e) m) (no_lists all_ids) es.

(** An endpoint that is a file counts, whatever the other one is. *)
Definition count_end (all_ids : gset string) (id : string) (m : gmap string nat) : gmap string nat :=
  if bool_decide (id ∈ all_ids) then <[id := S (default 0 (m !! id))]> m else m.
Definition total_edges (all_ids : gset string) (es : list Edge) : gmap string nat :=
  foldl (λ m e, count_end all_ids (target_id e) (count_end all_ids (source_id e) m)) ∅ es.

Definition nodes_by_id (ns : list Node) : gmap string Node := foldl (λ m n, <[node_id n := n]> m) ∅ ns.

Definition path_of_id (node_by_id : gmap string Node) (id : string) : string :=
  match node_by_id !! id with Some n => file_path n | None => id end.

Section plan.
Context `{HO : !HashOrder} `{LC : !Lowercase} `{BC : !Bincode}.

Definition file_type_from_path (path : string) : string :=
  let lower := to_lowercase path in
  if ends_with ".aspx.vb" lower || ends_with ".aspx.cs" lower then "code-behind"
  else if ends_with ".ascx.vb" lower || ends_with ".ascx.cs" lower then "control-code-behind"
  else
    let ext := to_lowercase (default "" (extension path)) in
    if bool_decide (ext ∈ ["aspx"; "ascx"; "master"; "vb"; "cs"; "asmx"; "ashx"; "svc"; "asax"; "config"; "asp"; "js"; "css"])
    then ext
    else if bool_decide (ext ∈ ["rdlc"; "rdl"; "rpt"]) then "report" else "other".

Definition count_type (m : gmap string N) (f : WaveFile) : gmap string N :=
  <[file_type f := (default 0 (m !! file_type f) + 1)%N]> m.
Definition theme_for_wave (site : nat * nat) (files : list WaveFile) : string :=
  let counts := foldl count_type ∅ files in
  let dominant := default "other" (fst <$> max_by_key snd (iter site counts)) in
  if String.eqb dominant "config" then "Configuration: app settings and connection strings"
  else if bool_decide (dominant ∈ ["ascx"; "control-code-behind"]) then "Components: shared user controls"
  else if String.eqb dominant "master" then "Layout: master pages and templates"
  else if bool_decide (dominant ∈ ["asmx"; "ashx"; "svc"]) then "Services: web services and handlers"
  else if bool_decide (dominant ∈ ["aspx"; "code-behind"]) then "Pages: application pages"
  else if String.eqb dominant "asp" then "Classic ASP: legacy script pages"
  else if bool_decide (dominant ∈ ["report"; "rdlc"; "rdl"; "rpt"]) then "Reports: reporting components"
  else if String.eqb dominant "asax" then "Application: global infrastructure"
  else if bool_decide (dominant ∈ ["vb"; "cs"]) then
    let aspx_cb := length (filter (λ f, file_type f = "code-behind") files) in
    let total_vb_cs := length (filter (λ f, file_type f = "vb" ∨ file_type f = "cs") files) in
    if Nat.ltb 0 aspx_cb || Nat.eqb total_vb_cs 0 then "Mixed: application code"
    else "Foundation: shared libraries and utilities"
  else "Mixed: application code".

(** ** The waves of the plan *)

Definition by_path (a b : WaveFile) : Prop := String.le (wave_path a) (wave_path b).
#[local] Instance by_path_dec : RelDecision by_path := λ a b, decide (String.le (wave_path a) (wave_path b)).

Definition reason_for (number dep_count dependents : nat) : string :=
  if Nat.eqb number 1 then "No unmigrated dependencies — leaf node"
  else if Nat.ltb 5 dependents then "Blocks " +:+ show_nat dependents +:+ " downstream files"
  else "Depends on " +:+ show_nat dep_count +:+ " files from earlier waves".
Definition wave_file (node_by_id : gmap string Node) (deps_of dependents_of : Adjacency) (total_edges_for : gmap string nat)
    (number : nat) (id : string) : option WaveFile :=
  node ← node_by_id !! id;
  let path := file_path node in
  let dep_count := length (default [] (deps_of !! id)) in
  let dependents := length (default [] (dependents_of !! id)) in
  Some {| wave_path := path; file_type := file_type_from_path path; wave_node_type := node_type node;
          dependency_count := dep_count; dependent_count := dependents;
          reason := reason_for number dep_count dependents;
          estimated_complexity := estimate_complexity (default 0 (total_edges_for !! id)) |}.

(** The paths and the theme of the waves so far. *)
Record Built := {
  cumulative_paths : list string;
  last_theme : option string;
  built : list MigrationWave;
}.
Definition build_wave (file_of : nat → string → option WaveFile) (st : Built) (wave_ids : list string) : Built :=
  let number := S (length (built st)) in
  let wave_files := stable_sort by_path (omap (file_of number) wave_ids) in
  let theme := theme_for_wave (22, number) wave_files in
  let theme_changed := match last_theme st with Some prev => negb (String.eqb prev theme) | None => false end in
  {| cumulative_paths := cumulative_paths st ++ (wave_path <$> wave_files);
     last_theme := Some theme;
     built := built st ++ [{| wave_number := number; theme := theme; files := wave_files;
                              prerequisites := cumulative_paths st;
                              strangler_fig_checkpoint := Nat.eqb (number mod 3) 0 || theme_changed |}] |}.
Definition build_waves (file_of : nat → string → option WaveFile) (ws : list (list string)) : list MigrationWave :=
  built (foldl (build_wave file_of) {| cumulative_paths := []; last_theme := None; built := [] |} ws).

(** ** Bottlenecks *)

Definition most_dependents (a b : WaveFile) : Prop := dependent_count b <= dependent_count a.
#[local] Instance most_dependents_dec : RelDecision most_dependents :=
  λ a b, decide (dependent_count b <= dependent_count a).
(** [Vec::dedup_by_key], which looks at neighbors only. *)
Fixpoint dedup_paths (l : list WaveFile) : list WaveFile :=
  match l with
  | [] => []
  | f :: rest => f :: (fix go (k : string) (l : list WaveFile) : list WaveFile :=
                         match l with
                         | [] => []
                         | g :: rest => if String.eqb (wave_path g) k then go k rest else g :: go (wave_path g) rest
                         end) (wave_path f) rest
  end.
Definition bottleneck (f : WaveFile) : BottleneckFile :=
  {| bottleneck_path := wave_path f; blocks_count := dependent_count f;
     suggestion := "Extract shared logic from '" +:+ wave_path f +:+ "' into a separate library module to reduce coupling "
       +:+ "and allow parallel migration of the " +:+ show_nat (dependent_count f) +:+ " dependent file(s)." |}.
Definition bottlenecks (ws : list MigrationWave) : list BottleneckFile :=
  bottleneck <$> filter (λ f, 0 < dependent_count f) (take 5 (dedup_paths (stable_sort most_dependents (ws ≫= files)))).

(** ** The text *)

Definition lf : string := str1 LF.
Definition pad2 (s : string) : string := if Nat.ltb (String.length s) 2 then " " +:+ s else s.
Definition flow_line (w : MigrationWave) : string :=
  "Wave " +:+ pad2 (show_nat (wave_number w)) +:+ ": [" +:+ theme w +:+ "] (" +:+ show_nat (length (files w)) +:+ " files)"
  +:+ (if strangler_fig_checkpoint w then " ← Strangler-Fig Checkpoint" else "") +:+ lf.
Definition file_row (f : WaveFile) : string :=
  "| `" +:+ wave_path f +:+ "` | " +:+ file_type f +:+ " | " +:+ estimated_complexity f +:+ " | " +:+ reason f +:+ " |" +:+ lf.
Definition concat_str (l : list string) : string := foldr String.append "" l.
Definition wave_section (w : MigrationWave) : string :=
  "### Wave " +:+ show_nat (wave_number w) +:+ ": " +:+ theme w +:+ lf +:+ lf
  +:+ match prerequisites w with
      | [] => ""
      | ps => "_Prerequisites: " +:+ show_nat (length ps) +:+ " earlier files_" +:+ lf +:+ lf
      end
  +:+ "| File | Type | Complexity | Reason |" +:+ lf +:+ "|------|------|------------|--------|" +:+ lf
  +:+ concat_str (file_row <$> files w)
  +:+ (if strangler_fig_checkpoint w
       then lf +:+ "> **Strangler-Fig Checkpoint** — validate integration before proceeding." +:+ lf else "")
  +:+ lf.
Definition bottleneck_row (b : BottleneckFile) : string :=
  "| `" +:+ bottleneck_path b +:+ "` | " +:+ show_nat (blocks_count b) +:+ " | " +:+ suggestion b +:+ " |" +:+ lf.
Definition build_summary (project_id : string) (ws : list MigrationWave) (bs : list BottleneckFile)
    (cycles : list (list string)) : string :=
  "# Migration Order Plan: " +:+ project_id +:+ lf +:+ lf
  +:+ "**" +:+ show_nat (sum_list ((λ w, length (files w)) <$> ws)) +:+ " files** across **" +:+ show_nat (length ws)
  +:+ " waves**" +:+ lf +:+ lf
  +:+ match ws with
      | [] => ""
      | _ => "## Dependency Flow" +:+ lf +:+ lf +:+ "```" +:+ lf +:+ concat_str (flow_line <$> ws) +:+ "```" +:+ lf +:+ lf
      end
  +:+ "## Waves" +:+ lf +:+ lf +:+ concat_str (wave_section <$> ws)
  +:+ match bs with
      | [] => ""
      | _ => "## Bottleneck Files" +:+ lf +:+ lf +:+ "| File | Blocks | Suggestion |" +:+ lf
             +:+ "|------|--------|------------|" +:+ lf +:+ concat_str (bottleneck_row <$> bs) +:+ lf
      end
  +:+ match cycles with
      | [] => ""
      | _ => "## Circular Dependencies Detected" +:+ lf +:+ lf
             +:+ "> Cycles were automatically broken by removing the weakest back-edge," +:+ lf
             +:+ "> but manual refactoring is recommended." +:+ lf +:+ lf
             +:+ concat_str (imap (λ i cycle, show_nat i +:+ ". `" +:+ join " → " cycle +:+ "`" +:+ lf) cycles) +:+ lf
      end.

(** ** The plan *)

(** The edges of some kinds between the files, and all the edges of a project. *)
Definition edges_of_kinds (p : string) (kinds : list EdgeKind) (db : GraphDB) : result (list Edge) :=
  ls ← result_traverse (λ k, list_edges_by_kind p k MAX_EDGES db) kinds;
  Ok (concat (ls : list (list Edge))).
Definition between (all_ids : gset string) (es : list Edge) : list Edge :=
  filter (λ e, source_id e ∈ all_ids ∧ target_id e ∈ all_ids) es.

Definition no_files_plan (p : string) : MigrationOrderPlan :=
  {| plan_project_id := p; total_files := 0; plan_waves := []; circular_dependencies := []; bottleneck_files := [];
     summary := "# Migration Order: " +:+ p +:+ lf +:+ lf +:+ "No file nodes found in the graph." |}.
(** None: the search for a cycle or the loop would not end. *)
Definition suggest_migration_order (p : string) (db : GraphDB) : option (result MigrationOrderPlan) :=
  match query_nodes p (Some "file") None None MAX_FILES db with
  | Fail e => Some (Fail e)
  | Ok [] => Some (Ok (no_files_plan p))
  | Ok file_nodes =>
      let node_by_id := nodes_by_id file_nodes in
      let all_ids := dom node_by_id in
      match (deps ← edges_of_kinds p DEP_KINDS db; all ← edges_of_kinds p ALL db; Ok (between all_ids deps, all)) with
      | Fail e => Some (Fail e)
      | Ok (deps, all) =>
          let deps_of := deps_of_edges all_ids deps in
          let dependents_of := dependents_of_edges all_ids deps in
          match kahn_waves deps_of dependents_of (path_of_id node_by_id) all_ids with
          | None => None
          | Some st =>
              let ws := build_waves (wave_file node_by_id deps_of dependents_of (total_edges all_ids all)) (waves st) in
              let bs := bottlenecks ws in
              Some (Ok {| plan_project_id := p; total_files := length file_nodes; plan_waves := ws;
                          circular_dependencies := circular st; bottleneck_files := bs;
                          summary := build_summary p ws bs (circular st) |})
          end
      end
  end.

End plan.

(** The migration order: the loop ends with every file in exactly one wave, a
    file's dependencies in earlier waves unless it was released from a cycle
    that is reported, and nothing is reported that is not a cycle. *)

#[local] Open Scope nat_scope.

(** * Lemmas *)

Lemma min_by_elem {A} (lt : A → A → bool) (l : list A) : l ≠ [] → ∃ x, min_by lt l = Some x ∧ x ∈ l.
Proof.
  unfold min_by. intros Hl.
  assert (H : ∀ o (m : list A), (∀ y, o = Some y → y ∈ l) → (∀ y, y ∈ m → y ∈ l) → (o ≠ None ∨ m ≠ []) →
    ∃ x, foldl (λ best x, match best with Some b => if lt x b then Some x else Some b | None => Some x end) o m = Some x ∧ x ∈ l).
  { intros o m. revert o. induction m as [|y m IH]; intros o Ho Hm Hne; cbn [foldl].
    - destruct o as [x|]; [by exists x; auto | by destruct Hne].
    - apply IH; [| intros z Hz; apply Hm; by right |]; destruct o as [b|]; [destruct (lt y b) | | destruct (lt y b) |];
        try (intros z [= <-]); try (by left); auto; apply Hm; left. }
  apply H; auto. done.
Qed.

Lemma concat_elem {A} (x : A) ls : x ∈ concat ls ↔ ∃ l, l ∈ ls ∧ x ∈ l.
Proof. rewrite list_elem_of_In, in_concat. setoid_rewrite <-list_elem_of_In. done. Qed.

Lemma filter_count_split (P Q R : string → Prop) `{!∀ x, Decision (P x), !∀ x, Decision (Q x), !∀ x, Decision (R x)} l :
  (∀ x, P x ↔ Q x ∨ R x) → (∀ x, Q x → R x → False) →
  length (filter P l) = length (filter Q l) + length (filter R l).
Proof.
  intros HP HQ. induction l as [|x l IH]; [done |]. rewrite !filter_cons.
  pose proof (HP x). pose proof (HQ x). repeat case_decide; cbn [length]; try tauto; lia.
Qed.
Lemma filter_eq_nodup (x : string) l : NoDup l → length (filter (λ y, y = x) l) = if decide (x ∈ l) then 1 else 0.
Proof.
  induction 1 as [|y l Hy Hl IH]; [done |]. rewrite filter_cons. destruct (decide (y = x)) as [->|Hyx].
  - rewrite decide_True by left. cbn [length]. by rewrite IH, decide_False.
  - rewrite IH. destruct (decide (x ∈ l)); [rewrite decide_True by set_solver | rewrite decide_False by set_solver]; done.
Qed.

(** Two duplicate-free ways to count the same things. *)
Lemma filter_both_ways (P Q : string → Prop) `{!∀ x, Decision (P x), !∀ x, Decision (Q x)} (l k : list string) :
  NoDup l → NoDup k → (∀ x, x ∈ l ∧ P x ↔ x ∈ k ∧ Q x) → length (filter P l) = length (filter Q k).
Proof.
  intros Hl Hk Hiff. apply Permutation_length, NoDup_Permutation; [by apply NoDup_filter.. |].
  intros x. rewrite !list_elem_of_filter. specialize (Hiff x). tauto.
Qed.

(** ** The loop *)

Section loop.
Context `{HO : !HashOrder} (deps_of dependents_of : Adjacency) (report : string → string) (all_ids : gset string).
Context (deps_nodup : ∀ a, NoDup (nbrs deps_of a)) (dependents_nodup : ∀ a, NoDup (nbrs dependents_of a)).
Context (mirror : ∀ a b, b ∈ nbrs deps_of a ↔ a ∈ nbrs dependents_of b).
Context (deps_known : ∀ a b, b ∈ nbrs deps_of a → b ∈ all_ids).

Definition reported (circular : list (list string)) (c : list string) : Prop := report <$> c ∈ circular.

(** Why a file is in the wave [k]. *)
Definition placed_rightly (ws : list (list string)) (circular : list (list string)) (k : nat) (w : list string) (id : string) : Prop :=
  (∀ d, d ∈ nbrs deps_of id → d ∈ concat (take k ws)) ∨
  (w = [id] ∧ ∃ c, cyclic all_ids deps_of c ∧ id ∈ c ∧ reported circular c).
Record KahnInv (st : Kahn) : Prop := {
  ki_all : concat (waves st) ++ elements (remaining st) ≡ₚ elements all_ids;
  ki_degree : ∀ id, id ∈ remaining st →
    in_degree_of st id = length (filter (λ d, d ∈ remaining st) (nbrs deps_of id));
  ki_waves : ∀ k w id, waves st !! k = Some w → id ∈ w → placed_rightly (waves st) (circular st) k w id;
  ki_circular : ∀ r, r ∈ circular st → ∃ c, r = report <$> c ∧ cyclic all_ids deps_of c;
}.

Lemma remaining_sub st x : KahnInv st → x ∈ remaining st → x ∈ all_ids.
Proof.
  intros Hi Hx. apply elem_of_elements. rewrite <-(ki_all _ Hi). apply elem_of_app. right. by apply elem_of_elements.
Qed.
Lemma placed_or_remaining st x : KahnInv st → x ∈ all_ids → x ∉ remaining st → x ∈ concat (waves st).
Proof.
  intros Hi Hx Hr. apply elem_of_elements in Hx. rewrite <-(ki_all _ Hi), elem_of_app in Hx.
  destruct Hx as [?|Hx%elem_of_elements]; done.
Qed.

Lemma release_count left_over (m : gmap string nat) l dep :
  dep ∈ left_over →
  default 0 (foldl (release left_over) m l !! dep) = default 0 (m !! dep) - length (filter (λ y, y = dep) l).
Proof.
  intros Hd. revert m. induction l as [|y l IH]; intros m; cbn [foldl]; [cbn; lia |].
  rewrite IH, filter_cons. unfold release. case_bool_decide as Hy.
  - case_decide as Hyd.
    + subst. rewrite lookup_insert_eq. cbn [default length]. unfold id. lia.
    + by rewrite lookup_insert_ne.
  - rewrite decide_False; [done |]. by intros ->.
Qed.

Lemma released_by (zero : list string) dep :
  NoDup zero →
  length (filter (λ y, y = dep) (zero ≫= λ id, default [] (dependents_of !! id))) =
  length (filter (λ d, d ∈ zero) (nbrs deps_of dep)).
Proof.
  intros Hz. transitivity (length (filter (λ z, dep ∈ nbrs dependents_of z) zero)).
  - clear Hz. induction zero as [|z zero IH]; [done |]. cbn [mbind list_bind].
    rewrite filter_app, length_app, IH, filter_cons.
    change (default [] (dependents_of !! z)) with (nbrs dependents_of z).
    rewrite filter_eq_nodup by done. by case_decide.
  - apply filter_both_ways; [done | done |]. intros x. rewrite <-mirror. tauto.
Qed.

Lemma elements_split (R : gset string) (zero : list string) :
  NoDup zero → (∀ x, x ∈ zero → x ∈ R) → elements R ≡ₚ zero ++ elements (R ∖ list_to_set zero).
Proof.
  intros Hnd Hz. assert (HR : R = list_to_set zero ∪ R ∖ list_to_set zero) by (apply union_difference_L; set_solver).
  rewrite HR at 1. rewrite elements_disj_union by set_solver. by rewrite elements_list_to_set.
Qed.

Lemma place_inv zero st :
  KahnInv st → NoDup zero → (∀ x, x ∈ zero → x ∈ remaining st) →
  (∀ id, id ∈ zero → (∀ d, d ∈ nbrs deps_of id → d ∉ remaining st) ∨
                     (zero = [id] ∧ ∃ c, cyclic all_ids deps_of c ∧ id ∈ c ∧ reported (circular st) c)) →
  KahnInv (place dependents_of zero st).
Proof.
  intros Hi Hnd Hz Hwhy. split; cbn [place in_degree remaining waves circular].
  - rewrite concat_app. cbn [concat]. rewrite (app_nil_r zero), <-app_assoc, <-elements_split by done. apply Hi.
  - intros id Hid. unfold in_degree_of. cbn [place in_degree]. rewrite release_count by done.
    fold (in_degree_of st id). rewrite (ki_degree _ Hi id) by set_solver. rewrite released_by by done.
    rewrite (filter_count_split (λ d, d ∈ remaining st) (λ d, d ∈ remaining st ∖ list_to_set zero) (λ d, d ∈ zero)).
    + lia.
    + intros x. destruct (decide (x ∈ zero)); set_solver.
    + intros x. set_solver.
  - intros k w id Hk Hid. unfold placed_rightly. apply lookup_app_Some in Hk as [Hk|[Hl Hk]].
    + rewrite take_app_le by (apply lookup_lt_Some in Hk; lia). by apply (ki_waves _ Hi).
    + apply list_lookup_singleton_Some in Hk as [Hlen <-].
      replace k with (length (waves st)) by lia. rewrite take_app_length.
      destruct (Hwhy id Hid) as [H|H]; [left | by right].
      intros d Hd. apply placed_or_remaining; eauto.
  - apply Hi.
Qed.

Lemma report_inv st c :
  KahnInv st → cyclic (remaining st) deps_of c →
  KahnInv {| in_degree := in_degree st; remaining := remaining st; waves := waves st;
             circular := circular st ++ [report <$> c] |} ∧ cyclic all_ids deps_of c.
Proof.
  intros Hi Hc. assert (Hc' : cyclic all_ids deps_of c).
  { destruct Hc as (H1 & H2 & H3 & H4). split_and!; [done | done | | done]. intros x Hx. by eapply remaining_sub; [| apply H3]. }
  split; [| done]. destruct Hi as [Hall Hd Hw Hr]. split; cbn [in_degree remaining waves circular]; [done | done | |].
  - intros k w id Hk Hid. destruct (Hw k w id Hk Hid) as [H|(-> & c' & H1 & H2 & H3)]; [by left | right].
    split; [done |]. exists c'. split_and!; [done | done |]. unfold reported in *. set_solver.
  - intros r [Hr'|Hr'%list_elem_of_singleton]%elem_of_app; [by apply Hr |]. by exists c.
Qed.

(** The loop ends in a state where nothing remains. *)
Definition settles (r : option Kahn) : Prop := ∃ st, r = Some st ∧ KahnInv st ∧ remaining st = ∅.
Notation kahn' := (kahn deps_of dependents_of report).
Definition go_on (fuel : nat) (zero : list string) (st : Kahn) : option Kahn :=
  match fuel with O => None | S fuel => kahn' fuel (place dependents_of (stable_sort String.le zero) st) end.
Lemma kahn_unfold fuel st :
  kahn' fuel st =
  match ready fuel st with
  | [] =>
      if bool_decide (remaining st = ∅) then Some st
      else match break_cycle deps_of report fuel st with
           | None => None
           | Some ([], st') => Some st'
           | Some (zero, st') => go_on fuel zero st'
           end
  | zero => go_on fuel zero st
  end.
Proof. by destruct fuel. Qed.

Lemma go_on_settles fuel zero st :
  (∀ fuel', fuel' < fuel → ∀ st', KahnInv st' → size (remaining st') <= fuel' → settles (kahn' fuel' st')) →
  KahnInv st → size (remaining st) <= fuel → zero ≠ [] → NoDup zero → (∀ x, x ∈ zero → x ∈ remaining st) →
  (∀ id, id ∈ zero → (∀ d, d ∈ nbrs deps_of id → d ∉ remaining st) ∨
                     (zero = [id] ∧ ∃ c, cyclic all_ids deps_of c ∧ id ∈ c ∧ reported (circular st) c)) →
  settles (go_on fuel zero st).
Proof.
  intros IH Hi Hfuel Hne Hnd Hz Hwhy. assert (Hp := stable_sort_perm String.le zero).
  destruct zero as [|z zero]; [done |].
  assert (Hsz : 0 < size (remaining st)).
  { apply Nat.neq_0_lt_0. intros H0%size_empty_inv. specialize (Hz z ltac:(left)). set_solver. }
  destruct fuel as [|fuel]; [lia |]. apply IH; [lia | |].
  - apply place_inv; [done | by rewrite Hp | intros x Hx; apply Hz; by rewrite <-Hp |].
    intros id Hid. rewrite Hp in Hid. destruct (Hwhy id Hid) as [H|[He H]]; [by left | right].
    split; [| done]. by rewrite He.
  - cbn [place remaining].
    assert (remaining st ∖ list_to_set (stable_sort String.le (z :: zero)) ⊂ remaining st) as Hsub%subset_size; [| lia].
    split; [set_solver |]. intros Hc. specialize (Hc z). rewrite elem_of_difference in Hc.
    destruct Hc as [_ Hn]; [apply Hz; left |]. apply Hn, elem_of_list_to_set. rewrite Hp. left.
Qed.

Lemma kahn_settles fuel st : KahnInv st → size (remaining st) <= fuel → settles (kahn' fuel st).
Proof.
  revert st. induction fuel as [fuel IH] using lt_wf_ind. intros st Hi Hfuel.
  assert (Hready : ∀ id, id ∈ ready fuel st ↔ id ∈ remaining st ∧ in_degree_of st id = 0).
  { intros id. unfold ready. rewrite list_elem_of_filter, iter_set_perm. set_solver. }
  assert (Hnd : NoDup (ready fuel st)) by (unfold ready; apply NoDup_filter; rewrite iter_set_perm; apply NoDup_elements).
  rewrite kahn_unfold. destruct (ready fuel st) as [|z zero] eqn:Hzero.
  - case_bool_decide as He; [by exists st |].
    destruct (stall_has_cycle (remaining st) deps_of (21, fuel) He) as (c & Hc & Hcyc).
    { intros x Hx. destruct (decide (in_degree_of st x = 0)) as [H0|H0].
      - exfalso. assert (x ∈ []) as []%elem_of_nil by by apply Hready.
      - rewrite (ki_degree _ Hi x Hx) in H0. destruct (filter _ _) as [|y l] eqn:Hf; [done |].
        exists y. assert (Hy : y ∈ y :: l) by left. rewrite <-Hf in Hy. apply list_elem_of_filter in Hy as [? ?]. by split. }
    unfold break_cycle. rewrite Hc. destruct (report_inv st c Hi Hcyc) as [Hi' Hall].
    destruct (min_by_elem (weaker (in_degree st)) (filter (λ id, id ∈ remaining st) c)) as (bn & Hbn & Hin).
    { destruct c as [|x c]; [by destruct Hcyc |]. rewrite filter_cons, decide_True; [done |]. apply Hcyc. left. }
    rewrite Hbn. apply list_elem_of_filter in Hin as [Hr Hin].
    apply go_on_settles; [exact IH | exact Hi' | exact Hfuel | done | apply NoDup_singleton | |].
    + intros x ->%list_elem_of_singleton. done.
    + intros id ->%list_elem_of_singleton. right. split; [done |]. exists c. split_and!; [done | done |].
      unfold reported. cbn [circular]. set_solver.
  - apply go_on_settles; [exact IH | exact Hi | exact Hfuel | done | done | |].
    + intros x Hx. by apply Hready in Hx as [? _].
    + intros id Hid. left. intros d Hd Hr. apply Hready in Hid as [Hid H0]. rewrite (ki_degree _ Hi id Hid) in H0.
      apply length_zero_iff_nil in H0. assert (d ∈ []) as []%elem_of_nil. rewrite <-H0. by apply list_elem_of_filter.
Qed.

Lemma kahn_waves_settle : settles (kahn_waves deps_of dependents_of report all_ids).
Proof.
  apply kahn_settles; [| done]. split; cbn [kahn_start in_degree remaining waves circular].
  - done.
  - intros x Hx. unfold in_degree_of. cbn [kahn_start in_degree].
    rewrite (elem_of_list_to_map_1' _ x (length (nbrs deps_of x))).
    + change (default 0 (Some ?n)) with n. f_equal. symmetry. apply filter_all. eauto.
    + intros y (x' & [= -> ->] & _)%list_elem_of_fmap. done.
    + apply list_elem_of_fmap. exists x. split; [done |]. by apply elem_of_elements.
  - done.
  - by intros r ?%elem_of_nil.
Qed.

End loop.

(** ** The dependency lists *)

Lemma nbrs_pushed (f g : Edge → string) (m : Adjacency) es a :
  nbrs (foldl (λ m e, push_to (f e) (g e) m) m es) a = nbrs m a ++ (g <$> filter (λ e, f e = a) es).
Proof.
  revert m. induction es as [|e es IH]; intros m; cbn [foldl]; [symmetry; apply app_nil_r |].
  rewrite IH, filter_cons. unfold push_to, nbrs. destruct (decide (f e = a)) as [->|Hne].
  - rewrite lookup_insert_eq. change (default [] (Some ?l)) with l. by rewrite <-app_assoc.
  - by rewrite lookup_insert_ne.
Qed.
Lemma nbrs_sorted (m : Adjacency) a : nbrs (sort_dedup <$> m) a = sort_dedup (nbrs m a).
Proof. unfold nbrs. rewrite lookup_fmap. by destruct (m !! a). Qed.
Lemma nbrs_no_lists X a : nbrs (no_lists X) a = [].
Proof. unfold nbrs, no_lists. destruct (_ !! a) eqn:E; [| done]. by apply lookup_gset_to_gmap_Some in E as [_ <-]. Qed.
Lemma sort_dedup_nodup l : NoDup (sort_dedup l).
Proof. unfold sort_dedup. rewrite stable_sort_perm. apply NoDup_remove_dups. Qed.

Lemma pushed_spec (f g : Edge → string) X es a b :
  b ∈ nbrs (sort_dedup <$> foldl (λ m e, push_to (f e) (g e) m) (no_lists X) es) a ↔ ∃ e, e ∈ es ∧ f e = a ∧ g e = b.
Proof.
  rewrite nbrs_sorted, elem_of_sort_dedup, nbrs_pushed, nbrs_no_lists. cbn [app]. rewrite list_elem_of_fmap.
  setoid_rewrite list_elem_of_filter. naive_solver.
Qed.
Lemma pushed_nodup (f g : Edge → string) X es a :
  NoDup (nbrs (sort_dedup <$> foldl (λ m e, push_to (f e) (g e) m) (no_lists X) es) a).
Proof. rewrite nbrs_sorted. apply sort_dedup_nodup. Qed.

Lemma dom_nodes_by_id ns : dom (nodes_by_id ns) = list_to_set (node_id <$> ns).
Proof.
  unfold nodes_by_id. assert (H : ∀ m : gmap string Node, dom (foldl (λ m n, <[node_id n := n]> m) m ns) = dom m ∪ list_to_set (node_id <$> ns)).
  { induction ns as [|n ns IH]; intros m; cbn [foldl fmap list_fmap list_to_set]; [set_solver |].
    rewrite IH, dom_insert_L. set_solver. }
  rewrite H. set_solver.
Qed.

(** A cycle of stored dependencies. *)
Definition dependency (es : list Edge) (a b : string) : Prop := ∃ e, e ∈ es ∧ source_id e = a ∧ target_id e = b.
Definition dependency_cycle (es : list Edge) (c : list string) : Prop :=
  c ≠ [] ∧ NoDup c ∧ ∀ i x, c !! i = Some x → ∃ y, c !! (S i mod length c) = Some y ∧ dependency es x y.

(** ** The waves as they are shown *)

Section rendering.
Context `{HO : !HashOrder} `{LC : !Lowercase}.

Definition paths_of (w : MigrationWave) : list string := wave_path <$> files w.
Definition shown (file_of : nat → string → option WaveFile) (built : list MigrationWave) (ws : list (list string)) : Prop :=
  length built = length ws ∧
  ∀ k w ids, built !! k = Some w → ws !! k = Some ids →
    wave_number w = S k ∧ prerequisites w = (take k built ≫= paths_of) ∧ files w ≡ₚ omap (file_of (S k)) ids.

Lemma build_waves_shown file_of ws : shown file_of (build_waves file_of ws) ws.
Proof.
  unfold build_waves. set (st0 := {| cumulative_paths := []; last_theme := None; built := [] |}).
  assert (H : shown file_of (built (foldl (build_wave file_of) st0 ws)) ws ∧
              cumulative_paths (foldl (build_wave file_of) st0 ws) = (built (foldl (build_wave file_of) st0 ws) ≫= paths_of));
    [| apply H].
  induction ws as [|ids ws IH] using rev_ind; [done |]. rewrite foldl_app. cbn [foldl].
  set (st := foldl (build_wave file_of) st0 ws) in *. destruct IH as [[Hlen Hsh] Hcum]. unfold build_wave.
  cbn [built cumulative_paths]. split.
  - split; [by rewrite !length_app, Hlen |]. intros k w ids' Hw Hids.
    apply lookup_app_Some in Hw as [Hw|[Hl Hw]].
    + pose proof (lookup_lt_Some _ _ _ Hw). rewrite lookup_app_l in Hids by lia.
      rewrite take_app_le by lia. by apply Hsh.
    + apply list_lookup_singleton_Some in Hw as [Hk <-]. rewrite lookup_app_r in Hids by lia.
      apply list_lookup_singleton_Some in Hids as [_ <-]. cbn [wave_number prerequisites files].
      replace k with (length (built st)) by lia. rewrite take_app_length. split_and!; [done | done |].
      by rewrite stable_sort_perm.
  - rewrite Hcum, bind_app. cbn [mbind list_bind]. unfold paths_of at 3. cbn [files]. by rewrite app_nil_r.
Qed.
End rendering.

Section order.
Context `{HO : !HashOrder} `{LC : !Lowercase} `{BC : !Bincode}.

Lemma wave_paths node_by_id deps_of dependents_of totals number (ids : list string) :
  (∀ x, x ∈ ids → x ∈ dom node_by_id) →
  wave_path <$> omap (wave_file node_by_id deps_of dependents_of totals number) ids = path_of_id node_by_id <$> ids.
Proof.
  induction ids as [|x ids IH]; intros Hin; [done |].
  assert (Hx : x ∈ dom node_by_id) by (apply Hin; left). apply elem_of_dom in Hx as [n Hn].
  cbn [omap list_omap]. unfold wave_file at 1. rewrite Hn. cbn [mbind option_bind fmap list_fmap wave_path].
  rewrite IH by (intros y Hy; apply Hin; by right). unfold path_of_id at 2. by rewrite Hn.
Qed.

Lemma cyclic_dependencies all_ids es c :
  cyclic all_ids (deps_of_edges all_ids (between all_ids es)) c → dependency_cycle es c.
Proof.
  intros (Hne & Hnd & _ & Hc). split_and!; [done | done |]. intros i x Hx. destruct (Hc i x Hx) as (y & Hy & He).
  exists y. split; [done |]. apply pushed_spec in He as (e & He & Hs & Ht). exists e.
  by apply list_elem_of_filter in He as [_ He].
Qed.

Definition placed_after_dependencies (es : list Edge) (ids : gset string) (ws : list (list string))
    (shown_cycle : list string → Prop) : Prop :=
  ∀ k w a, ws !! k = Some w → a ∈ w →
    (∀ b, b ∈ ids → dependency es a b → b ∈ concat (take k ws)) ∨
    (w = [a] ∧ ∃ c, dependency_cycle es c ∧ a ∈ c ∧ shown_cycle c).

Lemma kahn_waves_placed all_ids es report :
  ∃ st, kahn_waves (deps_of_edges all_ids (between all_ids es)) (dependents_of_edges all_ids (between all_ids es)) report all_ids
        = Some st ∧
    concat (waves st) ≡ₚ elements all_ids ∧
    placed_after_dependencies es all_ids (waves st) (λ c, report <$> c ∈ circular st) ∧
    ∀ r, r ∈ circular st → ∃ c, r = report <$> c ∧ dependency_cycle es c.
Proof.
  destruct (kahn_waves_settle (deps_of_edges all_ids (between all_ids es)) (dependents_of_edges all_ids (between all_ids es))
              report all_ids) as (st & Hst & [Hall Hdeg Hw Hcirc] & Hr).
  - intros a. apply pushed_nodup.
  - intros a. apply pushed_nodup.
  - intros a b. unfold deps_of_edges, dependents_of_edges. rewrite !pushed_spec. naive_solver.
  - intros a b (e & He & _ & <-)%pushed_spec. by apply list_elem_of_filter in He as [[_ ?] _].
  - exists st. split; [done |]. rewrite Hr, elements_empty, (app_nil_r (concat _)) in Hall. split_and!; [done | |].
    + intros k w a Hk Ha. destruct (Hw k w a Hk Ha) as [Hd|(-> & c & Hc & Hac & Hrep)]; [left | right].
      * intros b Hb (e & He & Hs & Ht). apply Hd, pushed_spec. exists e. split; [| done]. apply list_elem_of_filter.
        split; [| done]. rewrite Hs, Ht. split; [| done]. apply elem_of_elements. rewrite <-Hall.
        apply concat_elem. exists w. split; [by eapply list_elem_of_lookup_2 | done].
      * split; [done |]. exists c. split_and!; [by eapply cyclic_dependencies | done | done].
    + intros r (c & -> & Hc)%Hcirc. exists c. split; [done |]. by eapply cyclic_dependencies.
Qed.

(** * Theorems *)

(** C32. Whenever the graph can be read the order is found. It places every file of
    the project in exactly one wave, numbered from one, whose prerequisites are
    the files of the waves before; what a file depends on is in an earlier wave,
    unless the file is alone in its wave and on a cycle that the plan reports;
    and everything the plan reports is a cycle of stored dependencies. *)
Theorem migration_order_respects_dependencies p db ns es al :
  query_nodes p (Some "file") None None MAX_FILES db = Ok ns →
  edges_of_kinds p DEP_KINDS db = Ok es → edges_of_kinds p ALL db = Ok al →
  let ids : gset string := list_to_set (node_id <$> ns) in
  let path_of := path_of_id (nodes_by_id ns) in
  ∃ plan ws, suggest_migration_order p db = Some (Ok plan) ∧
    concat ws ≡ₚ elements ids ∧ length (plan_waves plan) = length ws ∧
    (∀ k w members, plan_waves plan !! k = Some w → ws !! k = Some members →
       wave_number w = S k ∧ paths_of w ≡ₚ path_of <$> members ∧
       prerequisites w = (take k (plan_waves plan) ≫= paths_of)) ∧
    placed_after_dependencies es ids ws (λ c, path_of <$> c ∈ circular_dependencies plan) ∧
    ∀ r, r ∈ circular_dependencies plan → ∃ c, r = path_of <$> c ∧ dependency_cycle es c.
Proof.
  intros Hns Hes Hal. unfold suggest_migration_order. rewrite Hns, Hes, Hal. cbv zeta. destruct ns as [|n ns'] eqn:Hn.
  { exists (no_files_plan p), []. split_and!; [done.. | by intros [|k] | by intros [|k] |]. by intros r ?%elem_of_nil. }
  rewrite <-Hn in *. cbn [mbind result_bind]. rewrite dom_nodes_by_id. set (ids := list_to_set (node_id <$> ns)).
  destruct (kahn_waves_placed ids es (path_of_id (nodes_by_id ns))) as (st & -> & Hall & Hplaced & Hcirc).
  eexists _, (waves st). split; [reflexivity |]. cbn [plan_waves circular_dependencies].
  match goal with |- context [build_waves ?f] => destruct (build_waves_shown f (waves st)) as [Hlen Hsh] end.
  split_and!; [done | done | | done | done].
  intros k w members Hw Hm. destruct (Hsh k w members Hw Hm) as (H1 & H2 & H3). split_and!; [done | | done].
  unfold paths_of. rewrite H3, wave_paths; [done |]. intros x Hx. rewrite dom_nodes_by_id. apply elem_of_elements.
  fold ids. rewrite <-Hall. apply concat_elem. exists members. split; [by eapply list_elem_of_lookup_2 | done].
Qed.

End order.
