(* ===== verification/Progress.v ===== *)
(** [engram_server::services::migration_progress_service]: how far the migration of
    each file has come, in one table of its own, the report on a project and its
    text, and the two handlers of [handlers/migration_tools.rs] over them. A map
    from projects and paths to records is the specification. *)
From S2P Require Import Prelude Text Unicode Store Concrete F64 FileSystem SafePath Graph GraphRows GraphWitnesses MigrationOrder.

#[local] Open Scope nat_scope.

(** * Definitions *)

Inductive MigrationStatus := NotStarted | InProgress | Migrated | Verified | Blocked.
#[export] Instance MigrationStatus_eq_dec : EqDecision MigrationStatus.
Proof. solve_decision. Defined.
Definition label (s : MigrationStatus) : string :=
  match s with
  | NotStarted => "not_started" | InProgress => "in_progress" | Migrated => "migrated"
  | Verified => "verified" | Blocked => "blocked"
  end.
Definition is_complete (s : MigrationStatus) : bool := match s with Migrated | Verified => true | _ => false end.

Record FileStatus := {
  status_path : string;
  status : MigrationStatus;
  status_notes : string;
  last_updated : N;
  risk_score : option N;
  blocked_reason : option string;
  blocking_dependencies : list string;
}.
(** A [u64] and a [u8]. *)
Definition status_typed (fs : FileStatus) : Prop :=
  (last_updated fs <= u64_max)%N ∧ from_option (λ r, (r <= 255)%N) True (risk_score fs).

Record TypeProgress := { type_total : nat; type_completed : nat; type_pct : f64 }.
Record BlockedItem := { item_path : string; reason : string; blocking_deps : list string }.
Record FileStatusSummary := { summary_path : string; summary_status : string; summary_notes : string }.
Record MigrationProgress := {
  project_id : string;
  total_files : nat;
  not_started : nat;
  in_progress : nat;
  migrated : nat;
  verified : nat;
  blocked : nat;
  completion_pct : f64;
  by_file_type : gmap string TypeProgress;
  blocked_items : list BlockedItem;
  recently_updated : list FileStatusSummary;
  suggested_next : list string;
}.

(** [serde_json] on the record of a file, and on a report. *)
Class ProgressJson := {
  status_to_string : FileStatus → string;
  status_from_str : string → result FileStatus;
  progress_pretty : MigrationProgress → result string;
  status_round_trip fs : status_typed fs → status_from_str (status_to_string fs) = Ok fs;
}.

(** ** The store *)

Notation ProgressDB := (gmap string string).
(** The table as a database that is opened finds it: of this type, of another one,
    or not there yet. *)
Inductive FoundTable := Ready (t : ProgressDB) | WrongType | DoesNotExist.
Definition open_progress (found : FoundTable) : result ProgressDB :=
  match found with
  | Ready t => Ok t
  | WrongType => Fail (Bail "table type mismatch" [])
  | DoesNotExist => Ok ∅
  end.

Definition composite_key (p f : string) : string := p +:+ str1 NUL +:+ f.
Definition key_prefix (p : string) : string := p +:+ str1 NUL.

Section store.
Context `{LC : !Lowercase} `{PJ : !ProgressJson}.

Definition update_status (now : N) (p f : string) (st : MigrationStatus) (notes : string) (risk : option N)
    (reason : option string) (deps : list string) (db : ProgressDB) : ProgressDB :=
  <[composite_key p f := status_to_string
      {| status_path := f; status := st; status_notes := notes; last_updated := now; risk_score := risk;
         blocked_reason := reason; blocking_dependencies := deps |}]> db.
Definition delete_status (p f : string) (db : ProgressDB) : bool * ProgressDB :=
  (bool_decide (is_Some (db !! composite_key p f)), delete (composite_key p f) db).
(** The keys are collected first and then removed. *)
Definition clear_project (p : string) (db : ProgressDB) : nat * ProgressDB :=
  let to_delete := filter (λ k, starts_with (key_prefix p) k = true) (rows db).*1 in
  foldl (λ (cd : nat * ProgressDB) k, (S cd.1, delete k cd.2)) (0, db) to_delete.

Definition get_status (p f : string) (db : ProgressDB) : result (option FileStatus) :=
  transpose status_from_str (db !! composite_key p f).
(** The loop over all rows: a row of the project that does not decode fails it. *)
Fixpoint list_rows (p : string) (status_filter : option MigrationStatus) (l : list (string * string))
  : result (list FileStatus) :=
  match l with
  | [] => Ok []
  | (k, v) :: l =>
      if negb (starts_with (key_prefix p) k) then list_rows p status_filter l
      else
        fs ← status_from_str v;
        rest ← list_rows p status_filter l;
        Ok (match status_filter with
            | Some s => if decide (status fs = s) then fs :: rest else rest
            | None => fs :: rest
            end)
  end.
Definition list_files (p : string) (status_filter : option MigrationStatus) (db : ProgressDB) : result (list FileStatus) :=
  list_rows p status_filter (rows db).

(** ** The report *)

Definition file_extension (path : string) : string :=
  match extension path with Some e => "." +:+ to_lowercase e | None => "(none)" end.

Record Tally := {
  n_not_started : nat; n_in_progress : nat; n_migrated : nat; n_verified : nat; n_blocked : nat;
  type_map : gmap string (nat * nat);
  items : list BlockedItem;
}.
Definition no_files : Tally :=
  {| n_not_started := 0; n_in_progress := 0; n_migrated := 0; n_verified := 0; n_blocked := 0; type_map := ∅; items := [] |}.
Definition one_if (b : bool) : nat := if b then 1 else 0.
Definition blocked_item (fs : FileStatus) : BlockedItem :=
  {| item_path := status_path fs; reason := default "No reason specified" (blocked_reason fs);
     blocking_deps := blocking_dependencies fs |}.
Definition count_type (fs : FileStatus) (m : gmap string (nat * nat)) : gmap string (nat * nat) :=
  let e := default (0, 0) (m !! file_extension (status_path fs)) in
  <[file_extension (status_path fs) := (S e.1, e.2 + one_if (is_complete (status fs)))]> m.
(** One file of the loop. *)
Definition tally_file (t : Tally) (fs : FileStatus) : Tally :=
  let n s := one_if (bool_decide (status fs = s)) in
  {| n_not_started := n_not_started t + n NotStarted; n_in_progress := n_in_progress t + n InProgress;
     n_migrated := n_migrated t + n Migrated; n_verified := n_verified t + n Verified; n_blocked := n_blocked t + n Blocked;
     type_map := count_type fs (type_map t);
     items := if decide (status fs = Blocked) then items t ++ [blocked_item fs] else items t |}.
Definition f64_hundred : f64 := f64_of_N 100.
Definition percent (part total : nat) : f64 :=
  if decide (total = 0) then f64_zero
  else f64_mul (f64_div (f64_of_N (N.of_nat part)) (f64_of_N (N.of_nat total))) f64_hundred.
Definition type_progress (e : nat * nat) : TypeProgress :=
  {| type_total := e.1; type_completed := e.2; type_pct := percent e.2 e.1 |}.
Definition newer (a b : FileStatus) : Prop := (last_updated b <= last_updated a)%N.
#[export] Instance newer_dec : RelDecision newer.
Proof. intros a b. unfold newer. apply _. Defined.
Definition risk (fs : FileStatus) : N := default 0%N (risk_score fs).
Definition safer (a b : FileStatus) : Prop := (risk a <= risk b)%N.
#[export] Instance safer_dec : RelDecision safer.
Proof. intros a b. unfold safer. apply _. Defined.
Definition summary_of (fs : FileStatus) : FileStatusSummary :=
  {| summary_path := status_path fs; summary_status := label (status fs); summary_notes := status_notes fs |}.
Definition suggestions (newest_first : list FileStatus) : list FileStatus :=
  take 5 (stable_sort safer (filter (λ fs, status fs = NotStarted) newest_first)).
Definition progress_of (p : string) (files : list FileStatus) : MigrationProgress :=
  let t := foldl tally_file no_files files in
  let all_files := stable_sort newer files in
  {| project_id := p; total_files := length files;
     not_started := n_not_started t; in_progress := n_in_progress t; migrated := n_migrated t; verified := n_verified t;
     blocked := n_blocked t;
     completion_pct := percent (n_migrated t + n_verified t) (length files);
     by_file_type := type_progress <$> type_map t;
     blocked_items := items t;
     recently_updated := summary_of <$> take 10 all_files;
     suggested_next := status_path <$> suggestions all_files |}.
Definition get_progress (p : string) (db : ProgressDB) : result MigrationProgress :=
  files ← list_files p None db;
  Ok (progress_of p files).

(** ** The texts *)

(** [f64::round]: to the nearest integer, a half away from zero. *)
Definition f64_round (x : f64) : f64 :=
  match x with
  | S754_finite s m (Zneg k) =>
      match ((2 * N.pos m + 2 ^ N.pos k) / 2 ^ (N.pos k + 1))%N with
      | N0 => S754_zero s
      | n => if s then f64_neg (f64_of_N n) else f64_of_N n
      end
  | _ => x
  end.
Definition progress_bar (pct : f64) (width : nat) : string :=
  let scaled := f64_to_u64 (f64_round (f64_mul (f64_div pct f64_hundred) (f64_of_N (N.of_nat width)))) in
  let filled := N.to_nat (N.min scaled (N.of_nat width)) in
  "[" +:+ repeat_char "#" filled +:+ repeat_char "-" (width - filled) +:+ "]".
Definition line (s : string) : string := s +:+ str1 LF.
Definition concat_lines (l : list string) : string := foldr (λ s t, line s +:+ t) "" l.

Section texts.
Context `{HO : !HashOrder}.

Definition larger_type (a b : string * TypeProgress) : Prop := type_total b.2 <= type_total a.2.
#[export] Instance larger_type_dec : RelDecision larger_type.
Proof. intros a b. unfold larger_type. apply _. Defined.
Definition type_row (e : string * TypeProgress) : string :=
  "| `" +:+ e.1 +:+ "` | " +:+ show_nat (type_total e.2) +:+ " | " +:+ show_nat (type_completed e.2) +:+ " | "
  +:+ fixed 1 (type_pct e.2) +:+ "% |".
Definition blocked_lines (item : BlockedItem) : list string :=
  ("- **`" +:+ item_path item +:+ "`**: " +:+ reason item)
  :: match blocking_deps item with [] => [] | deps => ["  Waiting on: " +:+ join ", " deps] end.
Definition NOTES_SHOWN : nat := 60.
(** The notes are cut at a byte. *)
Definition shown_notes (notes : string) : result string :=
  if Nat.ltb NOTES_SHOWN (String.length notes) then
    cut ← str_slice_to "format_progress" NOTES_SHOWN notes;
    Ok (cut +:+ "…")
  else Ok notes.
Definition recent_row (s : FileStatusSummary) : result string :=
  notes ← shown_notes (summary_notes s);
  Ok ("| `" +:+ summary_path s +:+ "` | " +:+ summary_status s +:+ " | " +:+ notes +:+ " |").
(** A part of the text that is left out when there is nothing to say. *)
Definition part {A} (l : list A) (title : list string) (body : list A → list string) : string :=
  match l with [] => "" | _ => concat_lines (title ++ body l ++ [""]) end.
Definition format_progress (r : MigrationProgress) : result string :=
  let overview := concat_lines
    ["# Migration Progress — `" +:+ project_id r +:+ "`"; "";
     "**Overall**: " +:+ progress_bar (completion_pct r) 30 +:+ "  " +:+ fixed 1 (completion_pct r) +:+ "% complete ("
       +:+ show_nat (migrated r + verified r) +:+ "/" +:+ show_nat (total_files r) +:+ " files)"; "";
     "| Status | Count |"; "|--------|-------|";
     "| Not Started | " +:+ show_nat (not_started r) +:+ " |";
     "| In Progress | " +:+ show_nat (in_progress r) +:+ " |";
     "| Migrated    | " +:+ show_nat (migrated r) +:+ " |";
     "| Verified    | " +:+ show_nat (verified r) +:+ " |";
     "| Blocked     | " +:+ show_nat (blocked r) +:+ " |"; ""] in
  let types := part (stable_sort larger_type (iter (31, 0) (by_file_type r)))
    ["## By File Type"; ""; "| Extension | Total | Done | % |"; "|-----------|-------|------|---|"] (fmap type_row) in
  let waiting := part (blocked_items r) ["## Blocked Files"; ""] (mbind blocked_lines) in
  let next := part (suggested_next r) ["## Suggested Next Files"; ""]
    (imap (λ i path, show_nat (i + 1) +:+ ". `" +:+ path +:+ "`")) in
  rows ← result_traverse recent_row (recently_updated r);
  let recent := match rows with
    | [] => ""
    | _ => concat_lines (["## Recently Updated"; ""; "| File | Status | Notes |"; "|------|--------|-------|"] ++ rows)
    end in
  Ok (overview +:+ types +:+ waiting +:+ next +:+ recent).

(** ** The handlers *)

(** The names of the states, without regard to case; [inl] is the rejected one. *)
Definition parse_status (s : string) : string + MigrationStatus :=
  let l := to_lowercase s in
  if String.eqb l "not_started" then inr NotStarted
  else if String.eqb l "in_progress" then inr InProgress
  else if String.eqb l "migrated" then inr Migrated
  else if String.eqb l "verified" then inr Verified
  else if String.eqb l "blocked" then inr Blocked
  else inl l.
Record UpdateMigrationStatusRequest := {
  update_project : string; update_path : string; update_status_text : string; update_notes : string;
  update_risk : option N; update_reason : option string; update_dependencies : list string;
}.
(** [ensured] is what the lookup of the project gave. *)
Definition handle_update_migration_status (ensured : result ()) (now : N) (req : UpdateMigrationStatusRequest)
    (db : ProgressDB) : result (string * ProgressDB) :=
  _ ← ensured;
  match parse_status (update_status_text req) with
  | inl other =>
      Fail (Bail "Invalid status '{other}'. Must be one of: not_started, in_progress, migrated, verified, blocked" [other])
  | inr st =>
      Ok ("✅ Updated migration status for " +:+ update_path req,
          update_status now (update_project req) (update_path req) st (update_notes req) (update_risk req)
            (update_reason req) (update_dependencies req) db)
  end.
Definition handle_get_migration_progress (ensured : result ()) (p : string) (output_json : bool) (db : ProgressDB)
  : result string :=
  _ ← ensured;
  r ← get_progress p db;
  if output_json then progress_pretty r
  else
    Ok (concat_lines
          ["# Migration Progress — " +:+ project_id r; "";
           "**Total files**: " +:+ show_nat (total_files r) +:+ " | **Completion**: " +:+ fixed 1 (completion_pct r) +:+ "%"; "";
           "| Status | Count |"; "|--------|-------|";
           "| Not Started | " +:+ show_nat (not_started r) +:+ " |";
           "| In Progress | " +:+ show_nat (in_progress r) +:+ " |";
           "| Migrated | " +:+ show_nat (migrated r) +:+ " |";
           "| Verified | " +:+ show_nat (verified r) +:+ " |";
           "| Blocked | " +:+ show_nat (blocked r) +:+ " |"; ""]
        +:+ part (iter (32, 0) (by_file_type r)) ["## By File Type"]
              (fmap (λ e : string * TypeProgress, "- `" +:+ e.1 +:+ "`: " +:+ show_nat (type_completed e.2) +:+ "/"
                       +:+ show_nat (type_total e.2) +:+ " (" +:+ fixed 0 (type_pct e.2) +:+ "%)"))).
End texts.
End store.

(** ** The specification *)

(** What is known of each file of each project. *)
Notation Known := (gmap (string * string) FileStatus).
Inductive Op :=
  | Update (now : N) (p f : string) (st : MigrationStatus) (notes : string) (risk : option N)
           (reason : option string) (deps : list string)
  | Delete (p f : string)
  | Clear (p : string).
(** The project ids, as [engram_core] checks them, hold no separator. *)
Definition op_ok (o : Op) : Prop :=
  match o with
  | Update now p _ _ _ risk _ _ =>
      contains_char NUL p = false ∧ (now <= u64_max)%N ∧ from_option (λ r, (r <= 255)%N) True risk
  | Delete p _ | Clear p => contains_char NUL p = false
  end.
Definition of_project (p : string) (m : Known) : Known := filter (λ kv : string * string * FileStatus, kv.1.1 = p) m.
(** What an operation says: nothing, whether the file was there, how many were. *)
Inductive Said := SaidNothing | SaidFound (b : bool) | SaidCount (n : nat).
Definition known_after (o : Op) (m : Known) : Said * Known :=
  match o with
  | Update now p f st notes risk reason deps =>
      (SaidNothing,
       <[(p, f) := {| status_path := f; status := st; status_notes := notes; last_updated := now; risk_score := risk;
                      blocked_reason := reason; blocking_dependencies := deps |}]> m)
  | Delete p f => (SaidFound (bool_decide (is_Some (m !! (p, f)))), delete (p, f) m)
  | Clear p => (SaidCount (size (of_project p m)), filter (λ kv : string * string * FileStatus, kv.1.1 ≠ p) m)
  end.
Definition run_op `{PJ : !ProgressJson} (o : Op) (db : ProgressDB) : Said * ProgressDB :=
  match o with
  | Update now p f st notes risk reason deps => (SaidNothing, update_status now p f st notes risk reason deps db)
  | Delete p f => let '(b, db') := delete_status p f db in (SaidFound b, db')
  | Clear p => let '(n, db') := clear_project p db in (SaidCount n, db')
  end.
(** The databases that the operations make of an empty table. *)
Inductive reachable `{PJ : !ProgressJson} : ProgressDB → Known → Prop :=
  | reachable_new : reachable ∅ ∅
  | reachable_step db m o : reachable db m → op_ok o → reachable (run_op o db).2 (known_after o m).2.

(** * Lemmas *)

Lemma composite_key_project p f : composite_key p f = project_key p f.
Proof. unfold composite_key, project_key, project_prefix, str1. by rewrite app_assoc_str. Qed.
Lemma key_prefix_project p : key_prefix p = project_prefix p. Proof. done. Qed.
Lemma composite_key_inj p q f g :
  contains_char NUL p = false → contains_char NUL q = false → composite_key p f = composite_key q g → p = q ∧ f = g.
Proof. rewrite !composite_key_project. apply project_key_inj_NUL. Qed.
Lemma starts_with_composite p q f :
  contains_char NUL p = false → contains_char NUL q = false →
  starts_with (key_prefix p) (composite_key q f) = true ↔ p = q.
Proof. rewrite composite_key_project. apply starts_with_project_key. Qed.

Section spec.
Context `{PJ : !ProgressJson}.

(** The table holds what is known, each record under its project and its path. *)
Record Stores (db : ProgressDB) (m : Known) : Prop := {
  stored_known : ∀ p f fs, m !! (p, f) = Some fs →
    contains_char NUL p = false ∧ status_path fs = f ∧ status_typed fs ∧ db !! composite_key p f = Some (status_to_string fs);
  stored_only : ∀ k v, db !! k = Some v → ∃ p f fs, m !! (p, f) = Some fs ∧ k = composite_key p f;
}.
Lemma stores_lookup db m p f : Stores db m → contains_char NUL p = false →
  db !! composite_key p f = status_to_string <$> m !! (p, f).
Proof.
  intros [Hk Ho] Hp. destruct (m !! (p, f)) as [fs|] eqn:E; [by destruct (Hk _ _ _ E) as (_ & _ & _ & ->) |].
  destruct (db !! composite_key p f) as [v|] eqn:Ev; [| done]. exfalso.
  destruct (Ho _ _ Ev) as (q & g & fs & Hm & Hkey). destruct (Hk _ _ _ Hm) as (Hq & _).
  apply composite_key_inj in Hkey as [-> ->]; [by rewrite Hm in E | done | done].
Qed.
Lemma stores_new : Stores ∅ ∅.
Proof. split; [intros p f fs H | intros k v H]; by apply lookup_empty_Some in H. Qed.

Lemma stores_update db m o now p f st notes risk reason deps :
  o = Update now p f st notes risk reason deps → op_ok o → Stores db m → Stores (run_op o db).2 (known_after o m).2.
Proof.
  intros -> (Hp & Hn & Hr) Hs. pose proof Hs as [Hk Ho]. cbn. unfold update_status.
  set (fs := {| status_path := f |}). split.
  - intros q g fs' H. destruct (decide ((p, f) = (q, g))) as [[= <- <-] | Hne].
    + rewrite lookup_insert_eq in H. injection H as <-. rewrite lookup_insert_eq. done.
    + rewrite lookup_insert_ne in H by done. destruct (Hk _ _ _ H) as (Hq & Hf & Ht & Hd). split_and!; [done.. |].
      rewrite lookup_insert_ne; [done |]. intros [-> ->]%composite_key_inj; done.
  - intros k v H. destruct (decide (composite_key p f = k)) as [<- | Hne].
    + exists p, f, fs. by rewrite lookup_insert_eq.
    + rewrite lookup_insert_ne in H by done. destruct (Ho _ _ H) as (q & g & fs' & Hm & ->).
      exists q, g, fs'. split; [| done]. rewrite lookup_insert_ne; [done |]. intros [= -> ->]. done.
Qed.
(** Rows that are removed with the records they hold. *)
Lemma stores_remove db m db' m' (gone : string * string → Prop) :
  Stores db m →
  (∀ q g, contains_char NUL q = false →
     (gone (q, g) → m' !! (q, g) = None ∧ db' !! composite_key q g = None) ∧
     (¬ gone (q, g) → m' !! (q, g) = m !! (q, g) ∧ db' !! composite_key q g = db !! composite_key q g)) →
  (∀ pf, is_Some (m' !! pf) → is_Some (m !! pf)) → (∀ k, is_Some (db' !! k) → is_Some (db !! k)) →
  (∀ pf, gone pf ∨ ¬ gone pf) → Stores db' m'.
Proof.
  intros [Hk Ho] Hg Hm Hd Hdec. split.
  - intros q g fs H. destruct (Hm (q, g)) as [fs' Hfs']; [by rewrite H |]. destruct (Hk _ _ _ Hfs') as (Hq & Hf & Ht & Hdb).
    destruct (Hg q g Hq) as [H1 H2]. destruct (Hdec (q, g)) as [Hy | Hn].
    + destruct (H1 Hy) as [E _]. by rewrite E in H.
    + destruct (H2 Hn) as [E1 E2]. rewrite E1, Hfs' in H. injection H as ->. by rewrite E2.
  - intros k v H. destruct (Hd k) as [v' Hv']; [by rewrite H |]. destruct (Ho _ _ Hv') as (q & g & fs & Hfs & ->).
    destruct (Hk _ _ _ Hfs) as (Hq & _). destruct (Hg q g Hq) as [H1 H2]. destruct (Hdec (q, g)) as [Hy | Hn].
    + destruct (H1 Hy) as [_ E]. by rewrite E in H.
    + destruct (H2 Hn) as [E1 _]. exists q, g, fs. by rewrite E1.
Qed.

Lemma cleared ks (db : ProgressDB) n :
  foldl (λ (cd : nat * ProgressDB) k, (S cd.1, delete k cd.2)) (n, db) ks = (length ks + n, foldl (λ (db : ProgressDB) k, delete k db) db ks).
Proof. revert n db. induction ks as [|k ks IH]; intros n d; cbn; [done |]. rewrite IH. f_equal. lia. Qed.
Lemma lookup_cleared ks (db : ProgressDB) k :
  foldl (λ (db : ProgressDB) k, delete k db) db ks !! k = if decide (k ∈ ks) then None else db !! k.
Proof.
  revert db. induction ks as [|j ks IH]; intros db; cbn; [by rewrite decide_False by apply not_elem_of_nil |].
  rewrite IH. destruct (decide (k ∈ ks)), (decide (k ∈ j :: ks)); try set_solver.
  - destruct (decide (j = k)) as [<-|]; [apply lookup_delete_eq | set_solver].
  - apply lookup_delete_ne. set_solver.
Qed.

Lemma stores_delete db m p f : contains_char NUL p = false → Stores db m →
  (delete_status p f db).1 = bool_decide (is_Some (m !! (p, f))) ∧ Stores (delete_status p f db).2 (delete (p, f) m).
Proof.
  intros Hp Hs. split; cbn.
  - apply bool_decide_ext. rewrite (stores_lookup _ _ _ _ Hs Hp). apply fmap_is_Some.
  - apply (stores_remove db m _ _ (λ pf, pf = (p, f))); [done | | | | intros pf; destruct (decide (pf = (p, f))); auto].
    + intros q g Hq. split; [intros [= -> ->]; by rewrite !lookup_delete_eq |]. intros Hne.
      rewrite lookup_delete_ne by done. split; [done |]. apply lookup_delete_ne.
      intros [-> ->]%composite_key_inj; done.
    + intros pf. rewrite lookup_delete_is_Some. tauto.
    + intros k. rewrite lookup_delete_is_Some. tauto.
Qed.
Definition keys_of (p : string) (db : ProgressDB) : list string := filter (λ k, starts_with (key_prefix p) k = true) (rows db).*1.
Lemma elem_of_keys p db m k : Stores db m → contains_char NUL p = false →
  k ∈ keys_of p db ↔ ∃ f, is_Some (m !! (p, f)) ∧ k = composite_key p f.
Proof.
  intros Hs Hp. unfold keys_of. rewrite list_elem_of_filter, list_elem_of_fmap. split.
  - intros [Hk ([k' v] & -> & Hin)]. apply elem_of_rows in Hin. destruct (stored_only _ _ Hs _ _ Hin) as (q & f & fs & Hm & ->).
    cbn in *. destruct (stored_known _ _ Hs _ _ _ Hm) as (Hq & _). apply starts_with_composite in Hk as <-; [| done..]. eauto.
  - intros (f & [fs Hm] & ->). split; [by apply starts_with_composite |]. exists (composite_key p f, status_to_string fs).
    split; [done |]. apply elem_of_rows. by rewrite (stores_lookup _ _ _ _ Hs Hp), Hm.
Qed.
Lemma keys_of_NoDup p db : NoDup (keys_of p db).
Proof. apply NoDup_filter, NoDup_rows. Qed.
Lemma elem_of_project_map p m pf fs : (pf, fs) ∈ map_to_list (of_project p m) ↔ m !! pf = Some fs ∧ pf.1 = p.
Proof. rewrite elem_of_map_to_list. unfold of_project. by rewrite map_lookup_filter_Some. Qed.
Lemma keys_of_count p db m : Stores db m → contains_char NUL p = false → length (keys_of p db) = size (of_project p m).
Proof.
  intros Hs Hp. rewrite <-length_map_to_list.
  rewrite <-(length_fmap (λ kv : string * string * FileStatus, composite_key kv.1.1 kv.1.2)). apply Permutation_length, NoDup_Permutation.
  - apply keys_of_NoDup.
  - apply NoDup_fmap_2_strong; [| apply NoDup_map_to_list]. intros [[q f] a] [[q' g] b] Ha Hb Hk. cbn in Hk.
    apply elem_of_project_map in Ha as [Ha Ea]. apply elem_of_project_map in Hb as [Hb Eb]. cbn in Ea, Eb. subst q q'.
    apply composite_key_inj in Hk as [_ <-]; [| done..]. by rewrite Ha in Hb; injection Hb as ->.
  - intros k. rewrite (elem_of_keys p db m k Hs Hp), list_elem_of_fmap. split.
    + intros (f & [fs Hm] & ->). exists ((p, f), fs). split; [done |]. by apply elem_of_project_map.
    + intros ([[q f] fs] & -> & [Hm Hq]%elem_of_project_map). cbn in Hq. subst q. exists f. split; [by eexists | done].
Qed.
Lemma stores_clear db m p : contains_char NUL p = false → Stores db m →
  (clear_project p db).1 = size (of_project p m) ∧
  Stores (clear_project p db).2 (filter (λ kv : string * string * FileStatus, kv.1.1 ≠ p) m).
Proof.
  intros Hp Hs. unfold clear_project. fold (keys_of p db). rewrite cleared, Nat.add_0_r. cbn.
  split; [by apply keys_of_count |].
  apply (stores_remove db m _ _ (λ pf, pf.1 = p)); [done | | | | intros pf; destruct (decide (pf.1 = p)); auto].
  - intros q g Hq. cbn. rewrite lookup_cleared. split.
    + intros ->. split; [apply map_lookup_filter_None; right; naive_solver |].
      case_decide as Hin; [done |]. rewrite (stores_lookup _ _ _ _ Hs Hq). destruct (m !! (p, g)) eqn:E; [| done].
      exfalso. apply Hin, (elem_of_keys p db m _ Hs Hp). eauto.
    + intros Hne. split.
      * destruct (m !! (q, g)) eqn:E; [by apply map_lookup_filter_Some | apply map_lookup_filter_None; auto].
      * apply decide_False. intros (f & _ & Hk)%(elem_of_keys p db m _ Hs Hp). by apply composite_key_inj in Hk as [-> _].
  - intros pf [fs [H _]%map_lookup_filter_Some]. by eexists.
  - intros k. rewrite lookup_cleared. case_decide; [by intros [? ?] | done].
Qed.

(** The records of a project, in the order of their paths. *)
Definition decoded (v : string) : option FileStatus := match status_from_str v with Ok fs => Some fs | Fail _ => None end.
Definition known_files (p : string) (db : ProgressDB) : list FileStatus :=
  omap (λ kv, if starts_with (key_prefix p) kv.1 then decoded kv.2 else None) (rows db).
Definition selects (s : option MigrationStatus) (fs : FileStatus) : Prop := from_option (λ st, status fs = st) True s.
#[export] Instance selects_dec s fs : Decision (selects s fs).
Proof. destruct s; cbn; apply _. Defined.
Lemma list_rows_spec p s l :
  (∀ k v, (k, v) ∈ l → starts_with (key_prefix p) k = true → is_Some (decoded v)) →
  list_rows p s l = Ok (filter (selects s) (omap (λ kv, if starts_with (key_prefix p) kv.1 then decoded kv.2 else None) l)).
Proof.
  induction l as [|[k v] l IH]; intros H; [done |]. cbn [list_rows omap list_omap fst snd].
  assert (IH' := IH (λ k' v' Hin, H k' v' (list_elem_of_further _ _ _ Hin))).
  destruct (starts_with (key_prefix p) k) eqn:E; cbn [negb]; [| exact IH'].
  destruct (H k v) as [fs Hfs]; [left | done |]. unfold decoded in *. destruct (status_from_str v) as [fs'|]; [| done].
  injection Hfs as ->. cbn [mbind result_bind]. rewrite IH'. cbn [mbind result_bind]. rewrite filter_cons.
  destruct s as [st|]; [| by rewrite decide_True].
  by destruct (decide (status fs = st)), (decide (selects (Some st) fs)).
Qed.
Lemma decoded_stored db m k v : Stores db m → db !! k = Some v →
  ∃ p f fs, m !! (p, f) = Some fs ∧ k = composite_key p f ∧ status_path fs = f ∧ contains_char NUL p = false ∧ decoded v = Some fs.
Proof.
  intros Hs Hk. destruct (stored_only _ _ Hs _ _ Hk) as (p & f & fs & Hm & ->).
  destruct (stored_known _ _ Hs _ _ _ Hm) as (Hp & Hf & Ht & Hd). rewrite Hk in Hd. injection Hd as ->.
  exists p, f, fs. split_and!; [done.. |]. unfold decoded. by rewrite status_round_trip.
Qed.
Lemma list_files_spec db m p s : Stores db m → list_files p s db = Ok (filter (selects s) (known_files p db)).
Proof.
  intros Hs. apply list_rows_spec. intros k v Hin%elem_of_rows _.
  destruct (decoded_stored _ _ _ _ Hs Hin) as (? & ? & fs & _ & _ & _ & _ & ->). by eexists.
Qed.
Lemma elem_of_known_files db m p fs : Stores db m → contains_char NUL p = false →
  fs ∈ known_files p db ↔ m !! (p, status_path fs) = Some fs.
Proof.
  intros Hs Hp. unfold known_files. rewrite list_elem_of_omap. split.
  - intros ([k v] & Hin%elem_of_rows & H). cbn in H. destruct (starts_with _ k) eqn:E; [| done].
    destruct (decoded_stored _ _ _ _ Hs Hin) as (q & f & fs' & Hm & -> & Hf & Hq & Hd). rewrite Hd in H. injection H as ->.
    apply starts_with_composite in E as <-; [| done..]. by rewrite Hf.
  - intros Hm. exists (composite_key p (status_path fs), status_to_string fs). rewrite elem_of_rows.
    destruct (stored_known _ _ Hs _ _ _ Hm) as (_ & _ & Ht & Hd). split; [done |]. cbn.
    rewrite (proj2 (starts_with_composite p p _ Hp Hp)) by done. unfold decoded. by rewrite status_round_trip.
Qed.
Lemma known_files_keys db m p : Stores db m → contains_char NUL p = false →
  composite_key p ∘ status_path <$> known_files p db = keys_of p db.
Proof.
  intros Hs Hp. unfold known_files, keys_of.
  assert (H : ∀ k v, (k, v) ∈ rows db → db !! k = Some v) by (intros k v; apply elem_of_rows). revert H.
  induction (rows db) as [|[k v] l IH]; intros H; [done |]. rewrite (fmap_cons fst), filter_cons. cbn [omap list_omap fst snd].
  assert (IH' := IH (λ k' v' Hin, H k' v' (list_elem_of_further _ _ _ Hin))).
  destruct (starts_with (key_prefix p) k) eqn:E; [| by rewrite decide_False by done]. rewrite decide_True by done.
  destruct (decoded_stored _ _ _ _ Hs (H k v (list_elem_of_here _ _))) as (q & f & fs & _ & -> & Hf & Hq & ->).
  apply starts_with_composite in E as <-; [| done..]. rewrite fmap_cons. f_equal; [by cbn; rewrite Hf | exact IH'].
Qed.
Lemma sorted_fmap {A B} (R : relation B) (f : A → B) l : StronglySorted R (f <$> l) ↔ StronglySorted (λ a b, R (f a) (f b)) l.
Proof.
  induction l as [|a l IH]; [split; constructor |]. rewrite fmap_cons, !StronglySorted_cons, IH, Forall_fmap. done.
Qed.
Lemma sorted_weaken {A} (R R' : relation A) l : (∀ a b, R a b → R' a b) → StronglySorted R l → StronglySorted R' l.
Proof. intros H. induction 1 as [|a l _ IH Ha]; constructor; [done |]. eapply Forall_impl; [exact Ha | by apply H]. Qed.
Lemma known_files_ordered db m p : Stores db m → contains_char NUL p = false →
  StronglySorted String.le (status_path <$> known_files p db) ∧ NoDup (status_path <$> known_files p db).
Proof.
  intros Hs Hp. pose proof (known_files_keys _ _ _ Hs Hp) as Hk.
  assert (Hkeys : StronglySorted String.le (keys_of p db)).
  { unfold keys_of. apply StronglySorted_filter, sorted_fmap. exact (rows_sorted db). }
  rewrite <-Hk in Hkeys. assert (Hn : NoDup (composite_key p ∘ status_path <$> known_files p db)) by (rewrite Hk; apply keys_of_NoDup).
  split.
  - apply (sorted_fmap _ (composite_key p ∘ status_path)) in Hkeys. apply sorted_fmap. refine (sorted_weaken _ _ _ _ Hkeys).
    intros a b. unfold composite_key. cbn. by rewrite !string_le_app.
  - rewrite list_fmap_compose in Hn. by apply NoDup_fmap_1 in Hn.
Qed.

Lemma reachable_stores db m : reachable db m → Stores db m.
Proof.
  induction 1 as [| db m [now p f st notes risk reason deps | p f | p] Hr IH Hok]; [apply stores_new | ..].
  - by eapply stores_update.
  - destruct (stores_delete _ _ p f Hok IH) as [_ H]. exact H.
  - destruct (stores_clear _ _ p Hok IH) as [_ H]. revert H. unfold run_op, known_after. by destruct (clear_project p db).
Qed.

Lemma said_as_known db m o : Stores db m → op_ok o → (run_op o db).1 = (known_after o m).1.
Proof.
  intros Hs. destruct o as [now p f st notes risk reason deps | p f | p]; intros Hok; [done | |].
  - destruct (stores_delete _ _ p f Hok Hs) as [H _]. cbn in *. by rewrite H.
  - destruct (stores_clear _ _ p Hok Hs) as [H _]. revert H. unfold run_op, known_after. destruct (clear_project p db). cbn. congruence.
Qed.
Lemma selects_all (l : list FileStatus) : filter (selects None) l = l.
Proof. induction l as [|a l IH]; [done |]. rewrite filter_cons, decide_True, IH; done. Qed.

(** ** The tally *)

Definition with_status (s : MigrationStatus) (l : list FileStatus) : list FileStatus := filter (λ fs, status fs = s) l.
End spec.

Section tally.
Context `{LC : !Lowercase}.

Definition of_type (e : string) (l : list FileStatus) : list FileStatus := filter (λ fs, file_extension (status_path fs) = e) l.
Definition done_of_type (e : string) (l : list FileStatus) : list FileStatus := filter (λ fs, is_complete (status fs) = true) (of_type e l).
Lemma of_type_snoc e l fs :
  of_type e (l ++ [fs]) = of_type e l ++ (if decide (file_extension (status_path fs) = e) then [fs] else []).
Proof. unfold of_type. rewrite filter_app, filter_cons, filter_nil. done. Qed.
Lemma done_of_type_snoc e l fs :
  length (done_of_type e (l ++ [fs])) =
  length (done_of_type e l) + (if decide (file_extension (status_path fs) = e) then one_if (is_complete (status fs)) else 0).
Proof.
  unfold done_of_type. rewrite of_type_snoc, filter_app, length_app. case_decide; [| done].
  rewrite filter_cons, filter_nil. by destruct (is_complete (status fs)).
Qed.
(** What the loop has counted. *)
Record Counted (l : list FileStatus) (t : Tally) : Prop := {
  counted_new : n_not_started t = length (with_status NotStarted l);
  counted_progress : n_in_progress t = length (with_status InProgress l);
  counted_migrated : n_migrated t = length (with_status Migrated l);
  counted_verified : n_verified t = length (with_status Verified l);
  counted_blocked : n_blocked t = length (with_status Blocked l);
  counted_items : items t = blocked_item <$> with_status Blocked l;
  counted_types : ∀ e, type_map t !! e =
    if decide (of_type e l = []) then None else Some (length (of_type e l), length (done_of_type e l));
}.
Lemma length_filter_snoc {A} (P : A → Prop) `{!∀ x, Decision (P x)} l a :
  length (filter P (l ++ [a])) = length (filter P l) + one_if (bool_decide (P a)).
Proof. rewrite filter_app, length_app, filter_cons, filter_nil. case_decide; [by rewrite bool_decide_eq_true_2 | by rewrite bool_decide_eq_false_2]. Qed.
Lemma tally_counted l : Counted l (foldl tally_file no_files l).
Proof.
  induction l as [|fs l IH] using rev_ind; [split; try done; intros e; by rewrite decide_True |].
  rewrite foldl_app. cbn [foldl]. destruct IH as [H1 H2 H3 H4 H5 Hi Ht].
  unfold with_status in *. split; cbn; unfold with_status; try (rewrite length_filter_snoc, ?H1, ?H2, ?H3, ?H4, ?H5; reflexivity).
  - rewrite filter_app, filter_cons, filter_nil, Hi. case_decide; [by rewrite fmap_app | by rewrite app_nil_r].
  - intros e. unfold count_type. rewrite of_type_snoc, done_of_type_snoc, length_app.
    destruct (decide (file_extension (status_path fs) = e)) as [<- | Hne].
    + rewrite lookup_insert_eq, Ht. destruct (decide (_ ++ [fs] = [])) as [[]%app_eq_nil |]; [done |].
      case_decide as Hn; cbn; [unfold done_of_type; by rewrite Hn | f_equal; f_equal; lia].
    + rewrite lookup_insert_ne, Ht, app_nil_r by done. cbn. by rewrite !Nat.add_0_r.
Qed.
Lemma statuses_partition l :
  length (with_status NotStarted l) + length (with_status InProgress l) + length (with_status Migrated l)
  + length (with_status Verified l) + length (with_status Blocked l) = length l.
Proof.
  unfold with_status. induction l as [|a l IH]; [done |]. rewrite !filter_cons.
  destruct (status a) eqn:E; repeat case_decide; try congruence; cbn [length]; lia.
Qed.

(** The first of a sorted list are before all that are left out. *)
Lemma taken_before {A} (R : relation A) l n a b : StronglySorted R l → a ∈ take n l → b ∈ drop n l → R a b.
Proof.
  intros Hs Ha Hb. rewrite <-(take_drop n l) in Hs. by apply (StronglySorted_app_1_elem_of R _ _ a b Hs).
Qed.
Lemma left_out {A} (l : list A) n a : a ∈ l → a ∉ take n l → a ∈ drop n l.
Proof. intros Ha Hn. rewrite <-(take_drop n l), elem_of_app in Ha. by destruct Ha. Qed.
#[export] Instance newer_trans : Transitive newer. Proof. unfold newer. intros a b c. lia. Qed.
#[export] Instance newer_total : Total newer. Proof. unfold newer. intros a b. lia. Qed.
#[export] Instance safer_trans : Transitive safer. Proof. unfold safer. intros a b c. lia. Qed.
#[export] Instance safer_total : Total safer. Proof. unfold safer. intros a b. lia. Qed.
End tally.

(** ** The texts *)

Lemma shown_notes_spec notes :
  is_ok (shown_notes notes) = negb (Nat.ltb NOTES_SHOWN (String.length notes)) || is_char_boundary NOTES_SHOWN notes.
Proof. unfold shown_notes, str_slice_to. destruct (Nat.ltb _ _); [| done]. by destruct (is_char_boundary _ _). Qed.
Lemma traverse_ok {A B} (f : A → result B) l : is_ok (result_traverse f l) = forallb (λ a, is_ok (f a)) l.
Proof.
  induction l as [|a l IH]; [done |]. cbn. destruct (f a); [| done]. cbn. rewrite <-IH. by destruct (result_traverse f l).
Qed.

(** * Theorems *)

Section theorems.
Context `{LC : !Lowercase} `{PJ : !ProgressJson} `{HO : !HashOrder}.

(** C31. The table is a faithful picture of what was recorded: after any operations on
    an empty table, one more says what the specification says, every file of every
    project has the record of its last update, and a listing has exactly the files
    of its project with the state that is asked for, each once, by path. *)
Theorem progress_store_refines_known db m o :
  reachable db m → op_ok o →
  (run_op o db).1 = (known_after o m).1 ∧
  ∀ p, contains_char NUL p = false →
    (∀ f, get_status p f (run_op o db).2 = Ok ((known_after o m).2 !! (p, f))) ∧
    ∀ s, ∃ l, list_files p s (run_op o db).2 = Ok l ∧
      StronglySorted String.le (status_path <$> l) ∧ NoDup (status_path <$> l) ∧
      ∀ fs, fs ∈ l ↔ (known_after o m).2 !! (p, status_path fs) = Some fs ∧ selects s fs.
Proof.
  intros Hr Hok. assert (Hs' : Stores (run_op o db).2 (known_after o m).2) by (apply reachable_stores; by constructor).
  apply reachable_stores in Hr as Hs. split; [by apply said_as_known |]. intros p Hp. split.
  - intros f. unfold get_status. rewrite (stores_lookup _ _ _ _ Hs' Hp). destruct (_ !! (p, f)) as [fs|] eqn:E; [| done].
    destruct (stored_known _ _ Hs' _ _ _ E) as (_ & _ & Ht & _). cbn. by rewrite status_round_trip.
  - intros s. exists (filter (selects s) (known_files p (run_op o db).2)). split; [by eapply list_files_spec |].
    destruct (known_files_ordered _ _ p Hs' Hp) as [Hsort Hnd].
    assert (Hsub : status_path <$> filter (selects s) (known_files p (run_op o db).2)
                   `sublist_of` (status_path <$> known_files p (run_op o db).2)) by apply fmap_sublist, sublist_filter.
    split_and!; [by eapply StronglySorted_sublist | by eapply sublist_NoDup |].
    intros fs. rewrite list_elem_of_filter, (elem_of_known_files _ _ _ _ Hs' Hp). tauto.
Qed.

(** A report can be made of every project, and it adds up: the five counters
    are the files in each state and make the total, which is the number of the
    project's files; the files of each extension, and the finished ones among them,
    are counted; and the blocked files are listed, with a reason. *)
Theorem progress_adds_up db m p :
  reachable db m → contains_char NUL p = false →
  ∃ r l, get_progress p db = Ok r ∧ list_files p None db = Ok l ∧
    total_files r = size (of_project p m) ∧
    not_started r + in_progress r + migrated r + verified r + blocked r = total_files r ∧
    not_started r = length (with_status NotStarted l) ∧ in_progress r = length (with_status InProgress l) ∧
    migrated r = length (with_status Migrated l) ∧ verified r = length (with_status Verified l) ∧
    blocked_items r = blocked_item <$> with_status Blocked l ∧
    (∀ e tp, by_file_type r !! e = Some tp ↔ of_type e l ≠ [] ∧
       tp = type_progress (length (of_type e l), length (done_of_type e l))).
Proof.
  intros Hr Hp. apply reachable_stores in Hr as Hs.
  assert (Hl : list_files p None db = Ok (known_files p db)).
  { rewrite (list_files_spec _ _ _ _ Hs). f_equal. apply selects_all. }
  exists (progress_of p (known_files p db)), (known_files p db). unfold get_progress. rewrite Hl.
  destruct (tally_counted (known_files p db)) as [H1 H2 H3 H4 H5 Hi Ht].
  split_and!; try done.
  - cbn. rewrite <-(keys_of_count _ _ _ Hs Hp), <-(known_files_keys _ _ _ Hs Hp). by rewrite length_fmap.
  - cbn. rewrite H1, H2, H3, H4, H5. apply statuses_partition.
  - intros e tp. cbn. rewrite lookup_fmap, Ht. case_decide; cbn; naive_solver.
Qed.

(** What to migrate next: at most five files that are not started, the safest
    first; a file that is not started and is left out is no safer than any of them.
    The list of recent changes has the ten newest. *)
Theorem suggestions_are_the_safest db m p l r :
  reachable db m → contains_char NUL p = false → list_files p None db = Ok l → get_progress p db = Ok r →
  (∃ ns, suggested_next r = status_path <$> ns ∧ length ns = Nat.min 5 (not_started r) ∧ NoDup (suggested_next r) ∧
     StronglySorted safer ns ∧ (∀ fs, fs ∈ ns → m !! (p, status_path fs) = Some fs ∧ status fs = NotStarted) ∧
     ∀ fs gs, fs ∈ ns → m !! (p, status_path gs) = Some gs → status gs = NotStarted → gs ∉ ns → (risk fs <= risk gs)%N) ∧
  (∃ rs, recently_updated r = summary_of <$> rs ∧ length rs = Nat.min 10 (total_files r) ∧ StronglySorted newer rs ∧
     ∀ fs gs, fs ∈ rs → gs ∈ l → gs ∉ rs → (last_updated gs <= last_updated fs)%N).
Proof.
  intros Hr Hp Hl. apply reachable_stores in Hr as Hs. unfold get_progress. rewrite Hl. intros [= <-].
  rewrite (list_files_spec _ _ _ _ Hs), selects_all in Hl. injection Hl as <-. set (l := known_files p db).
  destruct (known_files_ordered _ _ p Hs Hp) as [_ Hnd]. destruct (tally_counted l) as [Hns _ _ _ _ _ _].
  set (cand := stable_sort safer (filter (λ fs, status fs = NotStarted) (stable_sort newer l))).
  assert (Hcand : cand ≡ₚ with_status NotStarted l).
  { unfold cand. rewrite stable_sort_perm. unfold with_status. by rewrite stable_sort_perm. }
  assert (Hin : ∀ fs, fs ∈ cand ↔ m !! (p, status_path fs) = Some fs ∧ status fs = NotStarted).
  { intros fs. rewrite Hcand. unfold with_status, l. rewrite list_elem_of_filter, (elem_of_known_files _ _ _ _ Hs Hp). tauto. }
  assert (Hsort : StronglySorted safer cand) by apply (stable_sort_sorted safer).
  assert (Hnew : StronglySorted newer (stable_sort newer l)) by apply (stable_sort_sorted newer).
  split.
  - exists (take 5 cand). cbn. split_and!; [done | by rewrite length_take, (Permutation_length Hcand), Hns | | | |].
    + unfold suggestions. fold cand. rewrite fmap_take. eapply sublist_NoDup; [| apply sublist_take]. rewrite Hcand.
      eapply sublist_NoDup; [exact Hnd |]. apply fmap_sublist, sublist_filter.
    + eapply StronglySorted_sublist; [apply sublist_take | done].
    + intros fs Hfs. apply Hin. by apply subseteq_take in Hfs.
    + intros fs gs Hf Hg Hst Hn. apply (taken_before safer cand 5); [done | done |].
      by apply left_out; [apply Hin |].
  - exists (take 10 (stable_sort newer l)). cbn. split_and!; [done | | |].
    + by rewrite length_take, (Permutation_length (stable_sort_perm newer l)).
    + eapply StronglySorted_sublist; [apply sublist_take | done].
    + intros fs gs Hf Hg Hn. apply (taken_before newer (stable_sort newer l) 10); [done | done |].
      apply left_out; [by rewrite stable_sort_perm | done].
Qed.

(** The text of a report is made unless one of the notes it shows is longer than
    sixty bytes and has no character that ends there: then it panics. *)
Theorem report_needs_a_boundary r :
  (∃ text, format_progress r = Ok text) ↔
  ∀ s, s ∈ recently_updated r → NOTES_SHOWN < String.length (summary_notes s) → is_char_boundary NOTES_SHOWN (summary_notes s) = true.
Proof.
  assert (H : (∃ text, format_progress r = Ok text) ↔ is_ok (result_traverse recent_row (recently_updated r)) = true).
  { unfold format_progress. destruct (result_traverse _ _) as [rows|]; cbn; [| by split; [intros [? ?] |]]. split; [done |]. eauto. }
  rewrite H, traverse_ok, forallb_forall. split.
  - intros Ha s Hs Hlen. apply list_elem_of_In, Ha in Hs. unfold recent_row in Hs.
    assert (Hok : is_ok (shown_notes (summary_notes s)) = true) by (by destruct (shown_notes (summary_notes s))).
    rewrite shown_notes_spec, (proj2 (Nat.ltb_lt _ _) Hlen) in Hok. done.
  - intros Ha s Hs%list_elem_of_In. unfold recent_row.
    assert (Hok : is_ok (shown_notes (summary_notes s)) = true).
    { rewrite shown_notes_spec. destruct (Nat.ltb_spec NOTES_SHOWN (String.length (summary_notes s))); [by apply Ha | done]. }
    by destruct (shown_notes (summary_notes s)).
Qed.
End theorems.

(** The names that reports show are the ones the handler reads. *)
Theorem label_is_parsed `{LC : !Lowercase} s : parse_status (label s) = inr s.
Proof. destruct s; unfold parse_status, label; rewrite to_lowercase_ascii by reflexivity; reflexivity. Qed.

(** ** A concrete project *)

#[local] Existing Instance ascii_lowercase.
#[export] Instance MigrationStatus_countable : Countable MigrationStatus :=
  inj_countable' (λ s, match s with NotStarted => 0 | InProgress => 1 | Migrated => 2 | Verified => 3 | Blocked => 4 end)
    (λ n, match n with 0 => NotStarted | 1 => InProgress | 2 => Migrated | 3 => Verified | _ => Blocked end) ltac:(by intros []).
#[export] Instance FileStatus_eq_dec : EqDecision FileStatus.
Proof. solve_decision. Defined.
#[export] Instance FileStatus_countable : Countable FileStatus :=
  inj_countable' (λ f, (status_path f, status f, status_notes f, last_updated f, risk_score f, blocked_reason f, blocking_dependencies f))
    (λ '(p, st, n, t, r, b, d), {| status_path := p; status := st; status_notes := n; last_updated := t; risk_score := r;
                                   blocked_reason := b; blocking_dependencies := d |}) ltac:(by intros []).
Definition demo_progress_json : ProgressJson.
Proof.
  refine {| status_to_string := countable_to_vec; status_from_str := countable_from_slice;
            progress_pretty := λ r, Ok (project_id r) |}.
  abstract (intros fs _; apply countable_round_trip).
Defined.
#[local] Existing Instance demo_progress_json.

Definition demo_ops : list Op :=
  [Update 100 "p" "a.vb" NotStarted "" (Some 40)%N None []; Update 200 "p" "b.cs" Migrated "done" None None [];
   Update 300 "p" "c.vb" Blocked "" None None ["a.vb"]; Update 250 "p" "d.vb" NotStarted "" (Some 10)%N None [];
   Update 400 "q" "a.vb" Verified "" None None []].
Definition run_ops (ops : list Op) : ProgressDB * Known :=
  foldl (λ dm o, ((run_op o dm.1).2, (known_after o dm.2).2)) (∅, ∅) ops.
Lemma run_ops_reachable ops : Forall op_ok ops → reachable (run_ops ops).1 (run_ops ops).2.
Proof.
  induction ops as [|o ops IH] using rev_ind; [constructor |]. intros [H [Ho _]%Forall_cons]%Forall_app.
  unfold run_ops. rewrite foldl_app. exact (reachable_step _ _ o (IH H) Ho).
Qed.
Lemma demo_ops_ok : Forall op_ok demo_ops.
Proof. repeat constructor; vm_compute; discriminate. Qed.
Lemma progress_store_refines_known_witness :
  (run_op (Clear "p") (run_ops demo_ops).1).1 = SaidCount 4 ∧
  get_status "q" "a.vb" (run_op (Clear "p") (run_ops demo_ops).1).2
  = Ok ((known_after (Clear "p") (run_ops demo_ops).2).2 !! ("q", "a.vb")).
Proof.
  assert (Hok : op_ok (Clear "p")) by (vm_compute; reflexivity).
  destruct (progress_store_refines_known (run_ops demo_ops).1 (run_ops demo_ops).2 (Clear "p")
              (run_ops_reachable demo_ops demo_ops_ok) Hok) as [Hs Hq].
  split; [rewrite Hs; vm_compute; reflexivity |]. assert (Hclean : contains_char NUL "q" = false) by reflexivity.
  exact (proj1 (Hq "q" Hclean) "a.vb").
Defined.
Lemma progress_adds_up_witness :
  ∃ r, get_progress "p" (run_ops demo_ops).1 = Ok r ∧
    not_started r + in_progress r + migrated r + verified r + blocked r = total_files r ∧ total_files r = 4.
Proof.
  assert (Hclean : contains_char NUL "p" = false) by reflexivity.
  destruct (progress_adds_up (run_ops demo_ops).1 (run_ops demo_ops).2 "p" (run_ops_reachable demo_ops demo_ops_ok) Hclean)
    as (r & l & Hr & _ & Ht & Hsum & _).
  exists r. split; [exact Hr |]. split; [exact Hsum |]. rewrite Ht. vm_compute. reflexivity.
Defined.
Lemma suggestions_are_the_safest_witness :
  ∃ l r, list_files "p" None (run_ops demo_ops).1 = Ok l ∧ get_progress "p" (run_ops demo_ops).1 = Ok r ∧
    suggested_next r = ["d.vb"; "a.vb"] ∧ length (suggested_next r) = Nat.min 5 (not_started r).
Proof.
  assert (Hclean : contains_char NUL "p" = false) by reflexivity.
  destruct (list_files "p" None (run_ops demo_ops).1) as [l|] eqn:Hl; [| vm_compute in Hl; discriminate].
  destruct (get_progress "p" (run_ops demo_ops).1) as [r|] eqn:Hr; [| vm_compute in Hr; discriminate].
  exists l, r. split; [reflexivity |]. split; [reflexivity |].
  destruct (suggestions_are_the_safest (run_ops demo_ops).1 (run_ops demo_ops).2 "p" l r
              (run_ops_reachable demo_ops demo_ops_ok) Hclean Hl Hr) as [(ns & Hs & Hlen & _) _].
  split; [vm_compute in Hr; injection Hr as <-; vm_compute; reflexivity |]. rewrite Hs, length_fmap. exact Hlen.
Defined.

(** A note of sixty-one bytes whose last character has two: the text panics. *)
Definition long_note : string := repeat_char "a" 59 +:+ "é".
Example accented_note_panics :
  (r ← get_progress "p" (run_ops [Update 100 "p" "a.vb" InProgress long_note None None []]).1; format_progress r)
  = Fail (Panic "format_progress").
Proof. vm_compute. reflexivity. Qed.
