(* ===== verification/AnalysisWitnesses.v ===== *)
(** The theorems on searches for paths, on the ranking cache and on the order of
    migration at concrete databases. *)
From S2P Require Import Prelude Text Unicode Store Concrete Namespaces F64 Graph GraphRows GraphSpec GraphRefine GraphQuery Coupling GraphWitnesses Resolve Traverse PathSearch CentralityCache ResolveSpec CycleSearch MigrationOrder.

#[local] Open Scope nat_scope.

(** * Definitions *)

(** A JSON of rankings that keeps the names only. *)
#[export] Instance toy_ranking_json : RankingJson := {|
  ranking_json r := write_fields (map_to_list r).*1;
  ranking_of_json b := match read_fields b with
                       | Some names => Ok (list_to_map ((λ k, (k, f32_of_N 1)) <$> names))
                       | None => Fail SerdeError
                       end;
|}.
Definition only (name : string) : Ranking := {[name := f32_of_N 1]}.

(** The nodes of a path after its start, and whether it is a directed one. *)
Definition path_shape (o : option (result (option FoundPath))) : option (result (option (list string * bool))) :=
  option_map (λ r : result (option FoundPath), option_map (λ f, (hop_node_id <$> hops f, directed f)) <$> r) o.

(** * Examples *)

(** Three calls in a triangle: the second from the first in one step, and back
    only against the calls; no path of no steps. *)
Example demo_path_forward : path_shape (find_path "p" "a" "c" 5 [Calls] demo_graph_db) = Some (Ok (Some (["c"], true))).
Proof. vm_compute. reflexivity. Qed.
Example demo_path_back : path_shape (find_path "p" "c" "a" 5 [Calls] demo_graph_db) = Some (Ok (Some (["a"], false))).
Proof. vm_compute. reflexivity. Qed.
Example demo_path_none : path_shape (find_path "p" "a" "c" 0 [Calls] demo_graph_db) = Some (Ok None).
Proof. vm_compute. reflexivity. Qed.

(** * Witnesses *)

Lemma found_path_is_shortest_witness :
  let es := [demo_edge "a" "b" 2; demo_edge "a" "c" 5; demo_edge "b" "c" 3] in
  let usable := filter (λ e, usable_edge [Calls] e = true) es in
  ∃ r, find_path "p" "c" "a" 5 [Calls] demo_graph_db = Some (Ok r) ∧
    match r with
    | None => ∀ k, k <= 5 → ¬ nsteps (connected true usable) k "c" "a"
    | Some fp =>
        path_start fp = "c" ∧ follows (negb (directed fp)) usable "c" (hops fp) "a" ∧ length (hops fp) <= 5 ∧
        (∀ k, nsteps (connected (negb (directed fp)) usable) k "c" "a" → length (hops fp) <= k) ∧
        (directed fp = false → ∀ k, k <= 5 → ¬ nsteps (connected false usable) k "c" "a")
    end.
Proof. apply (found_path_is_shortest "p" "c" "a" 5 [Calls] demo_graph_db). vm_compute. reflexivity. Defined.

(** An older worker, the newest one, and one that comes too late. *)
Lemma newest_ranking_wins_witness :
  let ws : list (N * Ranking) := [(3%N, only "old"); (7%N, only "new"); (5%N, only "late")] in
  get_cached_centrality "p" 7 (set_all "p" ws empty_db) = Some <$> ranking_of_json (ranking_json (only "new")) ∧
  (∀ g', g' ≠ 7%N → get_cached_centrality "p" g' (set_all "p" ws empty_db) = Ok None) ∧
  (∀ k, k ≠ current_key "p" → legacy_row (nul "p" "") k = false →
    CENTRALITY (set_all "p" ws empty_db) !! k = CENTRALITY empty_db !! k).
Proof.
  apply (newest_ranking_wins "p" _ empty_db [(3%N, only "old")] [(5%N, only "late")] 7 (only "new"));
    [reflexivity | | reflexivity | |]; repeat constructor; cbn; unfold u64_max; lia.
Defined.

(** The migration order at concrete graphs: a chain and a cycle. *)

#[local] Open Scope nat_scope.

(** * Definitions *)

#[local] Existing Instance ascii_lowercase.

Definition dep_edge (s t : string) : Edge := new_edge "code" "vb" Dependency s t 1 1 1000.
Definition file_node (id : string) : Node :=
  {| node_id := id; node_type := "file"; node_name := id; node_namespace := "code"; node_language := "vb";
     file_path := id +:+ ".vb"; start_line := 1; end_line := 9; node_generation := 1; node_metadata := None |}.
Definition files_db (ids : list string) (deps : list (string * string)) : GraphDB :=
  with_nodes (list_to_map ((λ id, (node_key "p" id, node_bytes (file_node id))) <$> ids))
    (put_edges "p" ((λ d : string * string, dep_edge d.1 d.2) <$> deps) empty_db).
(** [a] needs [b], [b] needs [c]; and [a] and [b] need each other, [c] needs [a]. *)
Definition chain_db : GraphDB := files_db ["a"; "b"; "c"] [("a", "b"); ("b", "c")].
Definition cycle_db : GraphDB := files_db ["a"; "b"; "c"] [("a", "b"); ("b", "a"); ("c", "a")].

Definition plan_of (db : GraphDB) : option MigrationOrderPlan :=
  match suggest_migration_order "p" db with Some (Ok plan) => Some plan | _ => None end.
Definition wave_paths_of (db : GraphDB) : option (list (list string)) :=
  (λ plan, paths_of <$> plan_waves plan) <$> plan_of db.
Definition demo_nodes_of (db : GraphDB) : list Node :=
  match query_nodes "p" (Some "file") None None MAX_FILES db with Ok ns => ns | Fail _ => [] end.
Definition demo_edges_of (kinds : list EdgeKind) (db : GraphDB) : list Edge :=
  match edges_of_kinds "p" kinds db with Ok es => es | Fail _ => [] end.

(** * Theorems *)

Example chain_order : wave_paths_of chain_db = Some [["c.vb"]; ["b.vb"]; ["a.vb"]].
Proof. vm_compute. reflexivity. Qed.
Example cycle_order :
  wave_paths_of cycle_db = Some [["a.vb"]; ["b.vb"; "c.vb"]] ∧
  circular_dependencies <$> plan_of cycle_db = Some [["a.vb"; "b.vb"]].
Proof. vm_compute. done. Qed.

(** The file released from a cycle is in the first wave and is called a leaf,
    though it depends on a file of a later wave. *)
Example released_file_is_called_leaf :
  (λ plan, (λ f, (wave_path f, dependency_count f, reason f)) <$> (plan_waves plan ≫= files)) <$> plan_of cycle_db =
  Some [("a.vb", 1, "No unmigrated dependencies — leaf node"); ("b.vb", 1, "Depends on 1 files from earlier waves");
        ("c.vb", 1, "Depends on 1 files from earlier waves")].
Proof. vm_compute. reflexivity. Qed.

(** [c] holds up [b], and through it [a]; one file is counted. *)
Example bottleneck_counts_direct_dependents :
  (λ plan, (λ b, (bottleneck_path b, blocks_count b)) <$> bottleneck_files plan) <$> plan_of chain_db =
  Some [("c.vb", 1); ("b.vb", 1)].
Proof. vm_compute. reflexivity. Qed.

Lemma migration_order_respects_dependencies_witness :
  let ns := demo_nodes_of cycle_db in
  let es := demo_edges_of DEP_KINDS cycle_db in
  let ids : gset string := list_to_set (node_id <$> ns) in
  let path_of := path_of_id (nodes_by_id ns) in
  ∃ plan ws, suggest_migration_order "p" cycle_db = Some (Ok plan) ∧
    concat ws ≡ₚ elements ids ∧ length (plan_waves plan) = length ws ∧
    (∀ k w members, plan_waves plan !! k = Some w → ws !! k = Some members →
       wave_number w = S k ∧ paths_of w ≡ₚ path_of <$> members ∧
       prerequisites w = (take k (plan_waves plan) ≫= paths_of)) ∧
    placed_after_dependencies es ids ws (λ c, path_of <$> c ∈ circular_dependencies plan) ∧
    ∀ r, r ∈ circular_dependencies plan → ∃ c, r = path_of <$> c ∧ dependency_cycle es c.
Proof.
  intros ns es. apply (migration_order_respects_dependencies "p" cycle_db ns es (demo_edges_of ALL cycle_db));
    vm_compute; reflexivity.
Defined.

(** Two cycles, and a hash map that lists its entries the other way round: which
    cycle is broken first, and so what the waves are, depends on the hashing. *)
Definition two_cycles_db : GraphDB :=
  files_db ["a"; "b"; "c"; "d"] [("a", "c"); ("c", "a"); ("b", "d"); ("d", "b")].
Definition reversed_order : HashOrder :=
  {| iter _ _ _ _ _ m := reverse (map_to_list m); iter_perm _ _ _ _ _ _ := reverse_Permutation _ |}.
Example order_depends_on_hashing :
  wave_paths_of two_cycles_db ≠
  (λ plan, paths_of <$> plan_waves plan) <$>
    match suggest_migration_order (HO := reversed_order) "p" two_cycles_db with Some (Ok plan) => Some plan | _ => None end.
Proof. vm_compute. discriminate. Qed.
